(* ===== verification/_CoqProject ===== *)
-Q . S2P
Prelude.v
Config.v
SizeClass.v
FreeList.v
Common.v
Span.v
SpanList.v
Backing.v
HugePageCache.v
PageAllocator.v
ObjectPool.v
PageMap.v
PageCache.v
PageCacheInv.v
PageCacheAlloc.v
PageCacheMerge.v
PageCacheRelease.v
PageCacheReset.v
System.v
CentralCache.v
CentralInv.v
CentralSteps.v
CentralRelease.v
CentralFetch.v
CentralDrain.v
CentralInit.v
CentralSpec.v
Sections.v
CentralCalls.v
CentralShares.v
CentralCallsRelease.v
CentralCallsFetch.v
CentralFlights.v
ThreadCache.v
ThreadCacheInv.v
ThreadCacheSteps.v
ThreadCacheTrim.v
ThreadCacheAlloc.v
ThreadCacheFree.v
ThreadCacheSpec.v
ThreadCalls.v
ThreadShares.v
ThreadCallsTrim.v
ThreadCallsAlloc.v
Ammalloc.v
AmmallocInv.v
AmmallocSteps.v
AmmallocThreads.v
AmmallocSpec.v
TrimProtocol.v
Scavenger.v
ScavengerSteps.v
ScavengerSpec.v
AmmallocServer.v
AmmallocClients.v
AmmallocSessions.v
AmmallocCalls.v
AmmallocCallsInv.v
AmmallocBlocks.v
AmmallocMachine.v
AmmallocInterleavings.v
AmmallocPasses.v
AmmallocLeaks.v
ScavengerThread.v
Binary64.v
LockInstrumentation.v
SpinLock.v
LockGuards.v
PageCacheLegacy.v
