(* ===== verification/Prelude.v ===== *)
(** * A verification library for the ammalloc memory allocator

    ammalloc is a general-purpose allocator in three tiers, in the manner of
    tcmalloc.  A thread serves small requests from its own ThreadCache; caches
    exchange chains of objects with the CentralCache shared by all threads, which
    carves them out of runs of pages borrowed from the PageCache; the PageCache
    splits and coalesces runs it maps through the PageAllocator, and finds the
    run of an address in the PageMap.  Requests above 32 KiB go to the PageCache
    directly.  A background thread gives idle free runs back to the kernel.

    This library models these parts as functions and step relations, one file or
    a few per component, and proves what each promises to the one above it, up
    to the public interface used by any number of threads.

    ** Files

    The order is that of the dependencies; sources are under src/include/ammalloc
    and src/src.

    - Prelude: machine integers, the monad of outcomes, memory, the tactics and
      hints, lists.  Config: config.h.  Common: the address helpers of common.h,
      common.cpp, and the runtime configuration of config.cpp.
    - SizeClass: size_class.h; requests to classes, classes to sizes, batches and
      pages.  FreeList: [FreeList] and [ObjectBatch] of free_list.h.
    - Span and SpanList: span.h and span.cpp; the descriptors with the bitmap at
      the start of their pages, and the doubly linked lists through them.
    - Backing: the interface [Backing] of the layers below the page cache and
      its laws [BackingLaws].  HugePageCache, PageAllocator, ObjectPool:
      page_allocator.h and page_allocator.cpp.  System puts them together and is
      an instance of the interface, for any kernel (class [OS]).
    - PageMap: the radix tree of page_cache.h and page_cache.cpp.  PageCache: the
      sharded page cache (the default build), its invariant and steps in
      PageCacheInv, its operations in PageCacheAlloc, PageCacheMerge,
      PageCacheRelease, PageCacheReset.  PageCacheLegacy: the build without
      shards (the #else branches of the same files).
    - CentralCache: central_cache.h and central_cache.cpp; the invariant in
      CentralInv, elementary steps in CentralSteps, operations in CentralRelease,
      CentralFetch, CentralDrain, CentralInit, contracts in CentralSpec.
    - Sections: calls made of critical sections, ownership, and the rules for any
      number of them in flight.  CentralCalls: the operations of the central cache
      as such calls; CentralShares: who owns what meanwhile; CentralCallsRelease
      and CentralCallsFetch: each call is safe; CentralFlights: so are all together.
    - ThreadCache: thread_cache.h and thread_cache.cpp; likewise ThreadCacheInv,
      ThreadCacheSteps, ThreadCacheTrim, ThreadCacheAlloc, ThreadCacheFree,
      ThreadCacheSpec.
      ThreadCalls, ThreadShares, ThreadCallsTrim, ThreadCallsAlloc: its slow paths
      as calls made of critical sections, and that each is safe.
    - Ammalloc: ammalloc.h and ammalloc.cpp; AmmallocInv and AmmallocSteps for one
      thread's calls, AmmallocThreads for any number of threads, AmmallocSpec for
      the contracts, TrimProtocol for the cooperative trim request.
    - Scavenger: page_heap_scavenger.h and page_heap_scavenger.cpp; ScavengerSteps
      for its phases, ScavengerSpec for a pass.
    - AmmallocServer: the threads, a whole call of one at a time, and the scavenger,
      a step of it at a time.  AmmallocClients: what the clients own and know;
      AmmallocSessions: what they can rely on when calls do not overlap.
    - AmmallocCalls: the public interface as calls made of critical sections, on
      ThreadCalls and CentralCalls; AmmallocCallsInv: what a thread and a block own,
      and that each call is safe; AmmallocBlocks: blocks in the clients' hands;
      AmmallocMachine: the whole allocator with any number of calls under way, one
      section or scavenger step at a time; AmmallocInterleavings: what the clients
      can rely on then; AmmallocPasses: every pass of the scavenger ends;
      AmmallocLeaks: what is left when the clients are gone.
    - ScavengerThread: the life of the scavenger's thread.
    - Binary64, LockInstrumentation: lock_instrumentation.h and
      lock_instrumentation.cpp.  SpinLock: spin_lock.h.  LockGuards:
      noalloc_diagnostics.h, noalloc_diagnostics.cpp and [InstrumentedMutex].

    ** How the code is modelled

    An operation is a function from the state of its component to an [outcome]:
    [Ok] with the result and the new state, [Abort] for a failed check of the
    program, [UB] for what C++ leaves undefined (reading a word nobody wrote,
    following null, an index out of its array), [NoFuel] for a loop that used up
    the bound of the model.  All the contracts say that the result is [Ok], so
    they exclude failed checks, undefined behaviour and endless loops alike.
    Integers are [Z] with the wrap-around of their C++ type written out ([u8],
    [u16], [u32], [u64]).  Memory is a finite map from addresses to words; Span
    descriptors, radix nodes and pool chunks have stores of their own, keyed by
    their addresses.  Structs are records, enumerations inductive types.

    A class [Build] holds the compile-time choices (debug checks, hardening,
    57-bit addresses); theorems hold for every build unless they name one.  What
    the code takes from the system is a class of operations with a class of laws:
    [OS] (mmap, munmap, madvise, any of which may fail at any time), [Backing],
    [Madvise], [BasicLockable], [StaticLayout] and [CentralLayout] (where the
    linker put the static storage).  Each has an instance on which the concrete
    runs at the end of the files are evaluated.

    Operations that hold a lock while they touch shared state are atomic steps.
    Where the code is not protected by a lock, or releases it midway, the model
    is finer: HugePageCache and SpinLock are step relations with one shared access
    per step for any number of threads (with spurious failures of
    compare-exchange, and stale relaxed loads); the phases of a scavenger pass are
    separate steps with anything in between (in AmmallocServer down to one system
    call at a time).  The calls of the central cache, of the thread caches and
    of the public interface exist twice: as functions, and (CentralCalls,
    ThreadCalls, AmmallocCalls) as programs that stop wherever the code is about to
    take a lock, to make a system call, or to touch shared state without a lock (the
    request word, the page map's lookup); there any other thread may run a section
    of its own, the scavenger may take a step, and any client may write to what it
    holds.  Run without interruption the programs are the functions
    ([sections_equivalence], [call_uninterrupted]).  A section is atomic even with
    respect to those under other locks.  What a thread does to its own cache and to
    objects it owns belongs to the section before; so do its additions to the
    telemetry, which nothing reads.  [am_free] reads the page map and then fields of
    the descriptor that do not change while the block is live: one moment.  The
    compare-exchange loop of [RequestGlobalTrim] is its last, successful round.

    ** Ownership

    The invariants say who owns what, in ghost state.  [runs] map descriptors to
    runs of pages; [held] maps size classes to the objects outside the central
    cache.  [core] (PageCacheInv) is the state of the descriptors and lists,
    [pc_inv] adds the page map and the backing; [cc_inv s G Hd V] (CentralInv) says
    that outside the central cache exactly the objects [Hd] and the runs [V] are
    held, and [tidy] (CentralRelease) that on every bucket's list the full spans come
    last and every span holds an object; [tc_inv] adds a thread's free lists; [am_inv] a thread of the public
    interface; [sys_inv] all threads; [server_rel] relates a state of the whole
    system between calls, with the runs the scavenger has taken, to the map of live
    blocks; [machine_rel] does so for a state with calls under way.
    [undisturbed Hd V s s'] is the frame: an operation of one owner changes no
    word of the others' objects and no descriptor of their runs.  A [share]
    (CentralShares) is what one thread or call in flight, the scavenger, or the
    clients together own of [Hd] and [V], and of the pages the thread caches live
    on; shares are disjoint and make up the whole ([own_split]), and [wp] (Sections)
    says that a call is safe whatever leaves its share alone.

    ** What is proved

    - The whole: [interleaving_safety] and [machine_refines]
      (AmmallocInterleavings) for any number of threads inside calls at once and the
      scavenger inside a pass: the clients' blocks never overlap and keep what was
      written, and no section fails; [calls_settle]: from every such state the calls
      under way can all return; [call_uninterrupted]: such a call alone is the
      function, so the contracts of the functions hold of it.
      [pass_ends] (AmmallocPasses): a pass of the scavenger ends whatever the others
      do meanwhile.
      [nothing_leaks] (AmmallocLeaks): when every block is freed, every thread gone
      and the scavenger at rest, no run of pages stays in use.
      [session_safety] and [server_refines] (AmmallocSessions) say the same of the
      functions, called one at a time; [pass_uninterrupted] of a pass alone.
    - The scavenger's thread: at most one runs, [Stop] returns after it has ended
      ([scavenger_thread_control], ScavengerThread).
    - The public calls of one thread, purging, thread exit, and foreign pointers
      (AmmallocSpec); at which calls a published trim request is carried out
      (TrimProtocol).
    - Each cache: its operations keep its invariant, never fail, and give or take
      exactly what they say, for every branch (PageCacheAlloc, PageCacheRelease,
      PageCacheReset, CentralSpec, ThreadCacheSpec); its quota policy and
      trimming (ThreadCacheSpec); the scavenger's phases, and which runs a scan
      takes (ScavengerSpec).
    - The central cache with any number of calls in flight, section by section: no
      section fails, no object is given out twice, every call ends
      ([calls_interleave], [fetched_apart], [calls_end], CentralFlights).
    - Data structures refine what they implement: lists (FreeList, SpanList), a set
      of slots (Span), a finite map (PageMap), a set of objects (ObjectPool); the
      lock-free stack is linearizable for fewer than 2^48 accesses (HugePageCache).
    - The page allocator keeps an exact ledger of the mappings whatever the kernel
      answers (PageAllocator), and the assembled layers satisfy [BackingLaws]
      (System).
    - The unsharded page cache equals the sharded one while every free run is
      committed, but for requests of zero pages (PageCacheLegacy); the file has a
      run for each difference.
    - Arithmetic: size classes, span layout, percentiles, overflow at the top of the
      address space (SizeClass, Span, LockInstrumentation, Ammalloc).
    - Locks: mutual exclusion with happens-before, progress, durations (SpinLock);
      guards over a mutex that may throw (LockGuards).

    ** Bounds

    Loops over lists take as fuel the number of descriptors in the store, loops
    over a batch its length, loops over classes, buckets and tables their constant
    bound; the invariant makes them enough, and the contracts say so by returning
    [Ok].  The loop of [AllocSpan] runs at most twice: a refill puts a run of the
    largest size on its list.  The spin loop has no bound of its own; its progress
    is stated for a thread running alone.  A thread cache's budget is at most 2^62
    bytes, so that sums of quotas do not wrap.

    ** Not modelled

    - std::jthread and std::condition_variable_any themselves: ScavengerThread has
      them as the standard describes them, and leaves out what a pass does; in
      AmmallocServer a pass may begin at any time once the process has started it.
    - Logging and the text of diagnostics (an [Abort] carries the message).
    - Test hooks: the accessors for tests, and [SetActiveShardCountForTest]: there
      is one active shard, as in every other use of the code.
    - Races within one call between plain memory accesses of different threads;
      locks are taken to protect what the code says they do.
    - Compiler attributes, branch hints, prefetching, padding.
    - The first [am_free] on a thread that has no cache is not checked for an
      address inside an object, in the code as in the model ([am_free_foreign]). *)

From Stdlib Require Import ZArith Lia List Bool String.
From stdpp Require Export base gmap list strings sorting.
From stdpp Require Import numbers.

Open Scope Z_scope.
#[export] Set Warnings "-clear-no-such-hyp".

(** ** Machine integers *)

Abbreviation W64 := 18446744073709551616 (only parsing).
Abbreviation W32 := 4294967296 (only parsing).

Definition u64 (x : Z) : Z := x mod 18446744073709551616.
Definition u32 (x : Z) : Z := x mod 4294967296.
Definition u16 (x : Z) : Z := x mod 65536.
Definition u8 (x : Z) : Z := x mod 256.

(** [std::numeric_limits<size_t>::max()] and its 32-bit companion. *)
Definition SIZE_MAX : Z := 18446744073709551615.
Definition UINT32_MAX : Z := 4294967295.

(** [std::bit_width], [std::has_single_bit] and [std::countr_zero] on 64-bit
    operands. *)
Definition bit_width (x : Z) : Z := if x =? 0 then 0 else Z.log2 x + 1.

Definition has_single_bit (x : Z) : bool :=
  (0 <? x) && (Z.land x (x - 1) =? 0).

Fixpoint pos_ctz (p : positive) : Z :=
  match p with
  | xO q => 1 + pos_ctz q
  | _ => 0
  end.

Definition countr_zero (x : Z) : Z :=
  match x with
  | Zpos p => pos_ctz p
  | _ => 64
  end.

(** ** Outcomes

    [Abort] is a failed run-time check (a message on stderr, then [abort()]);
    [UB] is an access the C++ abstract machine does not define: a null
    dereference or a read of a word nobody stored; [NoFuel] is a loop of the
    model that ran past its bound. *)
Inductive outcome (A : Type) : Type :=
| Ok (a : A)
| Abort (why : string)
| UB (why : string)
| NoFuel.
Arguments Ok {A} _.
Arguments Abort {A} _.
Arguments UB {A} _.
Arguments NoFuel {A}.

#[export] Instance outcome_ret : MRet outcome := @Ok.
#[export] Instance outcome_bind : MBind outcome := fun A B f c =>
  match c with
  | Ok a => f a
  | Abort w => Abort w
  | UB w => UB w
  | NoFuel => NoFuel
  end.

Definition is_ok {A} (o : outcome A) : bool :=
  match o with Ok _ => true | _ => false end.

(** ** Build configurations

    The preprocessor symbols that select the checks and the address-space size:
    [NDEBUG] unset, [AM_HARDENED] set, [AM_USE_57BIT_VA] set. *)
Class Build := {
  debug_build : bool;
  am_hardened : bool;
  use_57bit_va : bool;
}.

(** The three configurations CMake produces by default, used by the witnesses. *)
Definition release_build : Build := Build_Build false false false.
Definition hardened_build : Build := Build_Build false true false.
Definition debug_build_config : Build := Build_Build true false false.

Definition AM_CHECK (c : bool) (why : string) : outcome unit :=
  if c then Ok tt else Abort why.

Definition AM_DCHECK `{Build} (c : bool) (why : string) : outcome unit :=
  if debug_build then AM_CHECK c why else Ok tt.

Definition AM_HCHECK `{Build} (c : bool) (why : string) : outcome unit :=
  if am_hardened || debug_build then AM_CHECK c why else Ok tt.

(** The same check on a condition that itself evaluates memory or divides. *)
Definition AM_HCHECK_M `{Build} (c : outcome bool) (why : string) : outcome unit :=
  if am_hardened || debug_build then b ← c; AM_CHECK b why else Ok tt.

(** Integer division and remainder; a zero divisor is undefined behaviour. *)
Definition udiv (a b : Z) : outcome Z := if b =? 0 then UB "division by zero" else Ok (a / b).
Definition umod (a b : Z) : outcome Z := if b =? 0 then UB "division by zero" else Ok (a mod b).

(** ** Memory

    The words of mapped memory, keyed by their (8-aligned) byte address.  Free
    objects hold their intrusive link here, Spans their bitmap, the transfer
    cache its pointers. *)
Abbreviation mem := (gmap Z Z).

Definition load (m : mem) (a : Z) : outcome Z :=
  if a =? 0 then UB "null dereference"
  else match m !! a with
       | Some v => Ok v
       | None => UB "read of an uninitialised word"
       end.

Definition store (m : mem) (a v : Z) : outcome mem :=
  if a =? 0 then UB "null dereference" else Ok (<[a := v]> m).

(** [for (i = lo; i < hi; ++i) f(i)] on a loop state. *)
Fixpoint for_range_nat {S : Type} (n : nat) (i : Z) (f : Z -> S -> outcome S) (s : S)
    : outcome S :=
  match n with
  | O => Ok s
  | Datatypes.S n' => s' ← f i s; for_range_nat n' (i + 1) f s'
  end.

Definition for_range {S : Type} (lo hi : Z) (f : Z -> S -> outcome S) (s : S) : outcome S :=
  for_range_nat (Z.to_nat (hi - lo)) lo f s.

(** For concrete runs. *)
Definition is_Ok {A} (x : outcome A) : bool := match x with Ok _ => true | _ => false end.
Definition got {A} (x : outcome A) (d : A) : A := match x with Ok a => a | _ => d end.
Lemma got_Ok {A} (x : outcome A) d : is_Ok x = true -> x = Ok (got x d).
Proof. by destruct x. Qed.

(** ** Automation *)

Create HintDb amdb.
Create HintDb config.

(** Splits the outcome binds of a hypothesis that ended in [Ok]. *)
Lemma bind_Ok_inv {A B} (c : outcome A) (f : A -> outcome B) (b : B) :
  (x ← c; f x) = Ok b -> exists a, c = Ok a /\ f a = Ok b.
Proof. destruct c; simpl; naive_solver. Qed.

Lemma bind_Ok_l {A B} (a : A) (f : A -> outcome B) : (x ← Ok a; f x) = f a.
Proof. done. Qed.

Lemma bind_eq_Ok {A B} (c : outcome A) (f : A -> outcome B) a :
  c = Ok a -> (x ← c; f x) = f a.
Proof. by intros ->. Qed.

Lemma bind_assoc_outcome {A B C} (c : outcome A) (f : A -> outcome B) (g : B -> outcome C) :
  (y ← (x ← c; f x); g y) = (x ← c; y ← f x; g y).
Proof. by destruct c. Qed.

Ltac inv_ok :=
  repeat match goal with
  | H : (_ ← _; _) = Ok _ |- _ =>
      let x := fresh "x" in let Hx := fresh "Hx" in
      apply bind_Ok_inv in H as (x & Hx & H)
  | H : mbind _ _ = Ok _ |- _ =>
      let x := fresh "x" in let Hx := fresh "Hx" in
      apply bind_Ok_inv in H as (x & Hx & H)
  | H : Ok _ = Ok _ |- _ => injection H as H; subst
  | H : (_, _) = (_, _) |- _ => injection H as H; subst
  end.

(** Turns the boolean comparisons of a hypothesis or the goal into facts. *)
Ltac bool_facts :=
  repeat match goal with
  | H : (_ <=? _) = true |- _ => apply Z.leb_le in H
  | H : (_ <=? _) = false |- _ => apply Z.leb_gt in H
  | H : (_ <? _) = true |- _ => apply Z.ltb_lt in H
  | H : (_ <? _) = false |- _ => apply Z.ltb_ge in H
  | H : (_ =? _) = true |- _ => apply Z.eqb_eq in H
  | H : (_ =? _) = false |- _ => apply Z.eqb_neq in H
  | H : (_ && _) = true |- _ => apply andb_true_iff in H as [? ?]
  | H : (_ || _) = false |- _ => apply orb_false_iff in H as [? ?]
  | H : negb _ = true |- _ => apply negb_true_iff in H
  | H : negb _ = false |- _ => apply negb_false_iff in H
  end.

(** Decides closed integer comparisons by evaluation. *)
Ltac zdec := repeat split; vm_compute; congruence.

(** Set facts decided at one point. *)
Ltac set_point :=
  first [ apply elem_of_disjoint | apply set_eq | apply elem_of_subseteq ];
  let x := fresh "x" in
  intros x;
  repeat match goal with
  | Hd : _ ## _ |- _ => apply elem_of_disjoint in Hd; specialize (Hd x)
  | Hs : _ ⊆ _ |- _ => rewrite elem_of_subseteq in Hs; specialize (Hs x)
  end;
  do 2 rewrite ?elem_of_union, ?elem_of_difference, ?elem_of_intersection, ?elem_of_empty in *; tauto.

(** Case analysis on the first boolean comparison that guards the goal. *)
Ltac case_cmp :=
  match goal with
  | |- context [if ?c then _ else _] =>
      lazymatch c with
      | ?a <=? ?b => destruct (Z.leb_spec a b)
      | ?a <? ?b => destruct (Z.ltb_spec a b)
      | ?a =? ?b => destruct (Z.eqb_spec a b)
      end
  end.

(** ** Lemmas on machine integers *)

Lemma u64_id x : 0 <= x < W64 -> u64 x = x.
Proof. apply Z.mod_small. Qed.
Lemma u32_id x : 0 <= x < W32 -> u32 x = x.
Proof. apply Z.mod_small. Qed.
Lemma u16_id x : 0 <= x < 65536 -> u16 x = x.
Proof. apply Z.mod_small. Qed.
Lemma u64_range x : 0 <= u64 x < W64.
Proof. apply Z.mod_pos_bound; lia. Qed.
Lemma u32_range x : 0 <= u32 x < W32.
Proof. apply Z.mod_pos_bound; lia. Qed.
Lemma u64_neg x : - W64 <= x < 0 -> u64 x = x + W64.
Proof.
  intros Hx. unfold u64.
  replace x with (x + W64 + (-1) * W64) at 1 by lia.
  rewrite Z.mod_add by lia. apply Z.mod_small; lia.
Qed.
#[export] Hint Resolve u64_range u32_range : amdb.
Create Rewrite HintDb amrw.
#[export] Hint Rewrite u64_id u32_id u16_id using (solve [lia | eauto with amdb]) : amrw.

Lemma bit_width_bounds x : 0 < x -> 2 ^ (bit_width x - 1) <= x < 2 ^ bit_width x.
Proof.
  intros Hx. unfold bit_width. case_cmp; [lia |].
  replace (Z.log2 x + 1 - 1) with (Z.log2 x) by lia.
  by apply Z.log2_spec.
Qed.

Lemma bit_width_unique x n : 0 <= n -> 2 ^ n <= x < 2 ^ (n + 1) -> bit_width x = n + 1.
Proof.
  intros Hn Hx. unfold bit_width.
  assert (0 < 2 ^ n) by (apply Z.pow_pos_nonneg; lia).
  case_cmp; [lia |]. f_equal. apply Z.log2_unique; lia.
Qed.

Lemma pos_ctz_nonneg p : 0 <= pos_ctz p.
Proof. induction p; simpl; lia. Qed.

Lemma pos_ctz_testbit p : Z.testbit (Zpos p) (pos_ctz p) = true.
Proof.
  induction p as [p IH | p IH |]; [done | | done].
  cbn [pos_ctz]. replace (1 + pos_ctz p) with (Z.succ (pos_ctz p)) by lia.
  rewrite Pos2Z.inj_xO, Z.testbit_even_succ; [done |]. apply pos_ctz_nonneg.
Qed.

Lemma pos_ctz_below p j : 0 <= j < pos_ctz p -> Z.testbit (Zpos p) j = false.
Proof.
  revert j. induction p as [p IH | p IH |]; cbn [pos_ctz]; intros j Hj; try lia.
  rewrite Pos2Z.inj_xO. destruct (Z.eqb_spec j 0) as [-> | Hj0].
  - apply Z.testbit_even_0.
  - replace j with (Z.succ (j - 1)) by lia. rewrite Z.testbit_even_succ by lia.
    apply IH; lia.
Qed.

(** [countr_zero] of a non-zero word is the position of its lowest set bit. *)
Lemma countr_zero_spec v :
  0 < v -> 0 <= countr_zero v /\ Z.testbit v (countr_zero v) = true /\
  forall j, 0 <= j < countr_zero v -> Z.testbit v j = false.
Proof.
  destruct v as [| p | p]; try lia. intros _. simpl. split; [apply pos_ctz_nonneg |].
  split; [apply pos_ctz_testbit | apply pos_ctz_below].
Qed.

(** A word below [2^n] has no bit at position [n] or above. *)
Lemma testbit_high v n j : 0 <= v < 2 ^ n -> 0 <= n <= j -> Z.testbit v j = false.
Proof.
  intros Hv Hj. destruct (Z.eqb_spec v 0) as [-> | H0]; [apply Z.bits_0 |].
  apply Z.bits_above_log2; [lia |]. apply Z.log2_lt_pow2; [lia |].
  apply Z.lt_le_trans with (2 ^ n); [lia | apply Z.pow_le_mono_r; lia].
Qed.

Lemma testbit_bound v n : 0 <= n -> 0 <= v ->
  (forall j, n <= j -> Z.testbit v j = false) -> v < 2 ^ n.
Proof.
  intros Hn Hv Hbits. destruct (Z.lt_ge_cases v (2 ^ n)) as [| Hge]; [done |].
  assert (0 < v) by (pose proof (Z.pow_pos_nonneg 2 n); lia).
  assert (n <= Z.log2 v) by (apply Z.log2_le_pow2; lia).
  pose proof (Z.bit_log2 v ltac:(lia)) as Hb. rewrite Hbits in Hb by lia. done.
Qed.

Lemma countr_zero_lt v n : 0 < v < 2 ^ n -> 0 <= n -> countr_zero v < n.
Proof.
  intros Hv Hn. destruct (countr_zero_spec v) as (? & Hb & _); [lia |].
  destruct (Z.lt_ge_cases (countr_zero v) n) as [| Hge]; [done |].
  rewrite (testbit_high v n) in Hb by lia. done.
Qed.

(** Lists of consecutive integers: membership and boolean search. *)
Lemma forallb_seqZ (f : Z -> bool) lo n i :
  forallb f (seqZ lo n) = true -> lo <= i < lo + n -> f i = true.
Proof.
  intros Hf Hi. rewrite forallb_forall in Hf. apply Hf.
  apply list_elem_of_In, elem_of_seqZ. lia.
Qed.

Lemma lookup_total_seqZ_map `{Inhabited A} (f : Z -> A) lo n i :
  0 <= i < n -> (f <$> seqZ lo n) !!! Z.to_nat i = f (lo + i).
Proof.
  intros Hi. apply list_lookup_total_correct. rewrite list_lookup_fmap, lookup_seqZ_lt by lia.
  simpl. f_equal. f_equal. lia.
Qed.

(** *** Loops *)

(** Invariant rule of a counted loop. *)
Lemma for_range_inv {S : Type} (P : Z -> S -> Prop) lo hi (f : Z -> S -> outcome S) s :
  lo <= hi -> P lo s ->
  (forall i s, lo <= i < hi -> P i s -> exists s', f i s = Ok s' /\ P (i + 1) s') ->
  exists s', for_range lo hi f s = Ok s' /\ P hi s'.
Proof.
  intros Hle HP Hstep. unfold for_range.
  remember (Z.to_nat (hi - lo)) as n eqn:Hn. revert lo s Hle HP Hstep Hn.
  induction n as [| n IH]; intros lo s Hle HP Hstep Hn.
  - exists s. split; [done |]. by replace hi with lo by lia.
  - destruct (Hstep lo s ltac:(lia) HP) as (s1 & Hf & HP1). cbn [for_range_nat].
    rewrite Hf. apply IH; [lia | done | | lia]. intros; apply Hstep; [lia | done].
Qed.

(** A function increasing at every step is strictly increasing. *)
Lemma step_mono (f : Z -> Z) lo :
  (forall i, lo <= i -> f i < f (i + 1)) -> forall i j, lo <= i < j -> f i < f j.
Proof.
  intros Hf i j Hij. replace j with (i + 1 + Z.of_nat (Z.to_nat (j - i - 1))) by lia.
  induction (Z.to_nat (j - i - 1)) as [| d IH].
  - rewrite Z.add_0_r. apply Hf; lia.
  - pose proof (Hf (i + 1 + Z.of_nat d) ltac:(lia)).
    replace (i + 1 + Z.of_nat (S d)) with (i + 1 + Z.of_nat d + 1) by lia. lia.
Qed.

(** *** Memory frames *)

(** Only the words at the addresses of [l] may differ. *)
Definition same_except (l : list Z) (m m' : mem) : Prop :=
  forall a, a ∉ l -> m' !! a = m !! a.

Lemma same_except_refl l m : same_except l m m.
Proof. done. Qed.

Lemma same_except_trans l m1 m2 m3 :
  same_except l m1 m2 -> same_except l m2 m3 -> same_except l m1 m3.
Proof. intros H12 H23 a Ha. by rewrite H23, H12. Qed.

Lemma same_except_mono l l' m m' : l ⊆ l' -> same_except l m m' -> same_except l' m m'.
Proof. intros Hl H a Ha. apply H. set_solver. Qed.

Lemma same_except_insert l m a v : a ∈ l -> same_except l m (<[a := v]> m).
Proof. intros Ha b Hb. rewrite lookup_insert_ne; [done |]. set_solver. Qed.
#[export] Hint Resolve same_except_refl same_except_insert same_except_trans : amdb.

Lemma load_Some m a v : a <> 0 -> m !! a = Some v -> load m a = Ok v.
Proof. intros Ha Hm. unfold load. case_cmp; [done |]. by rewrite Hm. Qed.

Lemma store_nonnull m a v : a <> 0 -> store m a v = Ok (<[a := v]> m).
Proof. intros Ha. unfold store. by case_cmp. Qed.

Lemma AM_DCHECK_true `{Build} why : AM_DCHECK true why = Ok tt.
Proof. unfold AM_DCHECK. by destruct debug_build. Qed.
Lemma AM_HCHECK_true `{Build} why : AM_HCHECK true why = Ok tt.
Proof. unfold AM_HCHECK. by destruct am_hardened, debug_build. Qed.
Lemma AM_HCHECK_M_true `{Build} why : AM_HCHECK_M (Ok true) why = Ok tt.
Proof. unfold AM_HCHECK_M. by destruct am_hardened, debug_build. Qed.
#[export] Hint Rewrite @AM_DCHECK_true @AM_HCHECK_true @AM_HCHECK_M_true : amrw.
