(* ===== verification/Config.v ===== *)
(** * Compile-time configuration (include/ammalloc/config.h)

    The constants of [SystemConfig], [SizeConfig] and [PageConfig], with the
    names of the source; the ones that depend on [AM_USE_57BIT_VA] take the
    build as an argument. *)
From S2P Require Import Prelude.
Open Scope Z_scope.

(** ** SystemConfig *)
Definition PAGE_SIZE : Z := 4096.
Definition PAGE_SHIFT : Z := 12.
Definition HUGE_PAGE_SIZE : Z := 2 * 1024 * 1024.
Definition CACHE_LINE_SIZE : Z := 64.
Definition BITMAP_BITS : Z := 64.
Definition BITMAP_SHIFT : Z := countr_zero BITMAP_BITS.
Definition BITMAP_MASK : Z := BITMAP_BITS - 1.
Definition BITS_PER_BYTE : Z := 8.
(** [alignof(std::max_align_t)], 16 on the supported x86-64 and aarch64 ABIs. *)
Definition ALIGNMENT : Z := 16.
Definition VA_BITS `{Build} : Z := if use_57bit_va then 57 else 48.
Definition PAGE_ID_BITS `{Build} : Z := VA_BITS - PAGE_SHIFT.

(** ** SizeConfig *)
Definition MAX_TC_SIZE : Z := 32 * 1024.
Definition kStepsPerGroup : Z := 4.
Definition kStepShift : Z := 2.
Definition kSmallSizeThreshold : Z := 1024.

(** ** PageConfig *)
Definition MAX_PAGE_NUM : Z := 128.
Definition RADIX_NODE_BITS : Z := 9.
Definition RADIX_NODE_SIZE : Z := Z.shiftl 1 RADIX_NODE_BITS.
Definition RADIX_ROOT_BITS `{Build} : Z := PAGE_ID_BITS - 3 * RADIX_NODE_BITS.
Definition RADIX_ROOT_SIZE `{Build} : Z := Z.shiftl 1 RADIX_ROOT_BITS.
Definition RADIX_MASK : Z := RADIX_NODE_SIZE - 1.
Definition MAX_ALLOC_RETRIES : Z := 3.
Definition HUGE_PAGE_CACHE_SIZE : Z := 16.

#[export] Hint Unfold PAGE_SIZE PAGE_SHIFT HUGE_PAGE_SIZE CACHE_LINE_SIZE BITMAP_BITS
  BITMAP_MASK BITS_PER_BYTE ALIGNMENT MAX_TC_SIZE kStepsPerGroup kStepShift
  kSmallSizeThreshold MAX_PAGE_NUM RADIX_NODE_BITS RADIX_MASK MAX_ALLOC_RETRIES
  HUGE_PAGE_CACHE_SIZE : config.

(** Replaces the constants by their values, then decides the arithmetic. *)
Ltac cfg := autounfold with config in *.
Ltac clia := cfg; autorewrite with amrw in *; lia.

Lemma BITMAP_SHIFT_val : BITMAP_SHIFT = 6.
Proof. reflexivity. Qed.
Lemma RADIX_NODE_SIZE_val : RADIX_NODE_SIZE = 512.
Proof. reflexivity. Qed.
Lemma RADIX_MASK_val : RADIX_MASK = 511.
Proof. reflexivity. Qed.
#[export] Hint Rewrite BITMAP_SHIFT_val RADIX_NODE_SIZE_val RADIX_MASK_val : amrw.

(** The page constants are consistent: [(1 << PAGE_SHIFT) == PAGE_SIZE], and a
    radix leaf index takes the bits the levels above leave. *)
Lemma page_shift_spec x : Z.shiftl x PAGE_SHIFT = x * PAGE_SIZE.
Proof. unfold PAGE_SHIFT, PAGE_SIZE. rewrite Z.shiftl_mul_pow2 by lia. reflexivity. Qed.

Lemma page_unshift_spec x : Z.shiftr x PAGE_SHIFT = x / PAGE_SIZE.
Proof. unfold PAGE_SHIFT, PAGE_SIZE. rewrite Z.shiftr_div_pow2 by lia. reflexivity. Qed.

Lemma bitmap_shift_spec x : Z.shiftr x BITMAP_SHIFT = x / 64.
Proof. rewrite BITMAP_SHIFT_val, Z.shiftr_div_pow2 by lia. reflexivity. Qed.

Lemma bitmap_mask_spec x : Z.land x BITMAP_MASK = x mod 64.
Proof. unfold BITMAP_MASK, BITMAP_BITS. change (64 - 1) with (Z.ones 6).
  rewrite Z.land_ones by lia. reflexivity. Qed.
