(* ===== verification/SizeClass.v ===== *)
(** * Size classes (include/ammalloc/size_class.h)

    The mapping between request sizes and the 40 size classes, the lookup
    tables, and the batch and page-count policies derived from them. *)
From S2P Require Import Prelude Config.
Open Scope Z_scope.

(** ** Geometry *)

Definition kSmallLinearLimit : Z := 128.
Definition kLinearBucketCount : Z := kSmallLinearLimit / ALIGNMENT.
Definition kAlignShift : Z := countr_zero ALIGNMENT.
Definition kLinearMsb : Z := countr_zero kSmallLinearLimit.

(** [detail::CalculateIndex].  The intermediate [int]s and [size_t]s never
    wrap for a 64-bit argument ([CalculateIndex_range]). *)
Definition CalculateIndex (original_size : Z) : Z :=
  if original_size =? 0 then 0
  else if original_size <=? kSmallLinearLimit
  then Z.shiftr (original_size - 1) kAlignShift
  else
    let msb := bit_width (original_size - 1) - 1 in
    let group_idx := msb - kLinearMsb in
    let base_idx := kLinearBucketCount + Z.shiftl group_idx kStepShift in
    let shift := msb - kStepShift in
    let group_offset := Z.land (Z.shiftr (original_size - 1) shift) (kStepsPerGroup - 1) in
    base_idx + group_offset.

(** [detail::CalculateSize]. *)
Definition CalculateSize (idx : Z) : Z :=
  if idx <? kLinearBucketCount then Z.shiftl (idx + 1) kAlignShift
  else
    let relative_idx := idx - kLinearBucketCount in
    let group_idx := Z.shiftr relative_idx kStepShift in
    let step_idx := Z.land relative_idx (kStepsPerGroup - 1) in
    let msb := group_idx + kLinearMsb in
    let base_size := Z.shiftl 1 msb in
    let step_size := Z.shiftl 1 (msb - kStepShift) in
    base_size + (step_idx + 1) * step_size.

Definition kNumSizeClasses : Z := CalculateIndex MAX_TC_SIZE + 1.
Definition kMaxBatchSize : Z := 512.

(** ** Lookup tables *)

Definition small_index_table_ : list Z :=
  (fun sz => u8 (CalculateIndex sz)) <$> seqZ 0 (kSmallSizeThreshold + 1).

Definition size_table_ : list Z :=
  (fun idx => u32 (CalculateSize idx)) <$> seqZ 0 kNumSizeClasses.

Definition batch_table_ : list Z :=
  (fun idx =>
     let aligned_size := size_table_ !!! Z.to_nat idx in
     let batch := MAX_TC_SIZE / aligned_size in
     let batch := if batch <? 2 then 2 else batch in
     let batch := if kMaxBatchSize <? batch then kMaxBatchSize else batch in
     u16 batch) <$> seqZ 0 kNumSizeClasses.

Definition move_page_table_ : list Z :=
  (fun idx =>
     let aligned_size := size_table_ !!! Z.to_nat idx in
     let batch := batch_table_ !!! Z.to_nat idx in
     let total_objs := Z.shiftl batch 3 in
     let total_bytes := total_objs * aligned_size in
     let total_bytes := if total_bytes <? 32 * 1024 then 32 * 1024 else total_bytes in
     let pages := Z.shiftr (total_bytes + PAGE_SIZE - 1) PAGE_SHIFT in
     let pages := if MAX_PAGE_NUM <? pages then MAX_PAGE_NUM else pages in
     u16 pages) <$> seqZ 0 kNumSizeClasses.

(** ** The [SizeClass] interface *)

Definition Index (original_size : Z) : Z :=
  if MAX_TC_SIZE <? original_size then SIZE_MAX
  else if original_size <=? kSmallSizeThreshold
  then small_index_table_ !!! Z.to_nat original_size
  else CalculateIndex original_size.

(** [Size]: an out-of-range index is outside the precondition. *)
Definition Size (idx : Z) : Z := size_table_ !!! Z.to_nat idx.

Definition SafeSize (idx : Z) : outcome Z :=
  if kNumSizeClasses <=? idx
  then _ ← AM_CHECK false "SizeClass::Size index out of range"; Ok 0
  else Ok (size_table_ !!! Z.to_nat idx).

Definition RoundUp (original_size : Z) : Z :=
  let idx := Index original_size in
  if idx =? SIZE_MAX then original_size else size_table_ !!! Z.to_nat idx.

Definition BatchByIndex (idx : Z) : Z := batch_table_ !!! Z.to_nat idx.
Definition MovePagesByIndex (idx : Z) : Z := move_page_table_ !!! Z.to_nat idx.

Definition CalculateBatchSize (aligned_size : Z) : Z :=
  if (aligned_size =? 0) || (MAX_TC_SIZE <? aligned_size) then 0
  else BatchByIndex (Index aligned_size).

Definition GetMovePageNum (aligned_size : Z) : Z :=
  if (aligned_size =? 0) || (MAX_TC_SIZE <? aligned_size) then 0
  else MovePagesByIndex (Index aligned_size).

(** ** The compile-time validators (size_class.h, [Validate*]) *)

Definition ValidateIndexInRangeSampled : bool :=
  forallb (fun idx =>
    let class_size := Size idx in
    (if 0 <? idx
     then let prev_class := Size (idx - 1) in
          (Index prev_class =? idx - 1) && (Index (prev_class + 1) =? idx)
     else true)
    && (Index class_size =? idx)) (seqZ 0 kNumSizeClasses).

Definition ValidateSizeNotLessThanInputSampled : bool :=
  forallb (fun idx =>
    let class_size := Size idx in
    (Size (Index class_size) =? class_size)
    && (if 0 <? idx
        then let mid := (Size (idx - 1) + class_size) / 2 in
             negb (Size (Index mid) <? mid)
        else true)) (seqZ 0 kNumSizeClasses).

Definition ValidateIndexIdempotentSampled : bool :=
  forallb (fun idx =>
    let class_size := Size idx in
    Index (Size (Index class_size)) =? Index class_size) (seqZ 0 kNumSizeClasses).

Definition ValidateSizeMonotonic : bool :=
  forallb (fun idx => negb (Size idx <=? Size (idx - 1))) (seqZ 1 (kNumSizeClasses - 1)).

Definition ValidateRoundUpMonotonicSampled : bool :=
  (fix go (idxs : list Z) (prev : Z) : bool :=
     match idxs with
     | [] => true
     | idx :: rest =>
         let curr := RoundUp (Size idx) in
         if curr <? prev then false else go rest curr
     end) (seqZ 0 kNumSizeClasses) (RoundUp 1).

(** The alignment check of the header: every class size is a multiple of
    [ALIGNMENT]. *)
Definition EveryClassAligned : bool :=
  forallb (fun i => Size i mod ALIGNMENT =? 0) (seqZ 0 kNumSizeClasses).

(** [std::has_single_bit]. *)
Definition has_single_bit (x : Z) : bool := (0 <? x) && (Z.land x (x - 1) =? 0).

(** The remaining compile-time checks: of the formulas, of the tables, and of the
    constants. *)
Definition formula_asserts : bool :=
  has_single_bit kSmallLinearLimit
  && (CalculateSize 0 =? ALIGNMENT)
  && (CalculateSize (kLinearBucketCount - 1) =? kSmallLinearLimit)
  && (CalculateSize kLinearBucketCount =? 160)
  && (CalculateSize (kLinearBucketCount + 1) =? 192)
  && (CalculateSize (kLinearBucketCount + 3) =? 256)
  && (CalculateSize (kLinearBucketCount + 4) =? 320)
  && (CalculateIndex 1 =? 0)
  && (CalculateIndex ALIGNMENT =? 0)
  && (CalculateIndex (ALIGNMENT + 1) =? 1)
  && (CalculateIndex 128 =? kLinearBucketCount - 1)
  && (CalculateIndex 129 =? kLinearBucketCount)
  && (CalculateIndex 160 =? kLinearBucketCount).

Definition table_asserts : bool :=
  (Index (Size (kLinearBucketCount + 4)) =? kLinearBucketCount + 4)
  && (Index 129 =? kLinearBucketCount)
  && (Index 150 =? kLinearBucketCount)
  && (Index 0 =? 0)
  && (Size 0 =? ALIGNMENT)
  && (Size (kLinearBucketCount - 1) =? 128)
  && (Size kLinearBucketCount =? 160)
  && (Size (kLinearBucketCount + 3) =? 256)
  && (Size (kLinearBucketCount + 4) =? 320)
  && (RoundUp 0 =? ALIGNMENT)
  && (kNumSizeClasses <=? 255)
  && (CalculateBatchSize ALIGNMENT =? kMaxBatchSize)
  && (0 <? GetMovePageNum ALIGNMENT).

Definition ladder_asserts : bool :=
  (kSmallLinearLimit mod ALIGNMENT =? 0)
  && (kStepShift <? kLinearMsb)
  && (Z.shiftr kSmallLinearLimit kStepShift mod ALIGNMENT =? 0)
  && (kStepsPerGroup =? Z.shiftl 1 kStepShift).

Definition top_asserts : bool :=
  has_single_bit MAX_TC_SIZE && (Size (kNumSizeClasses - 1) =? MAX_TC_SIZE).

(** ** Arithmetic of the geometric groups *)

Lemma CalculateIndex_linear s : 1 <= s <= 128 -> CalculateIndex s = (s - 1) / 16.
Proof.
  intros Hs. unfold CalculateIndex, kSmallLinearLimit. repeat case_cmp; try lia.
  change kAlignShift with 4. rewrite Z.shiftr_div_pow2 by lia. reflexivity.
Qed.

(** Sizes above 128 fall in a bucket [(q * 2^k, (q + 1) * 2^k]] of a group of
    four. *)
Lemma CalculateIndex_geometric s :
  128 < s ->
  exists k q, 5 <= k /\ 4 <= q < 8 /\ q * 2 ^ k < s <= (q + 1) * 2 ^ k /\
    2 ^ (k + 2) < s /\ CalculateIndex s = 8 + (k - 5) * 4 + (q - 4).
Proof.
  intros Hs. set (n := s - 1).
  assert (Hm : 7 <= Z.log2 n) by (apply Z.log2_le_pow2; subst n; lia).
  pose proof (Z.log2_spec n ltac:(subst n; lia)) as [Hlo Hhi].
  set (k := Z.log2 n - 2). assert (Hk : 5 <= k) by (subst k; lia).
  assert (H2k : 0 < 2 ^ k) by (apply Z.pow_pos_nonneg; lia).
  replace (Z.log2 n) with (k + 2) in Hlo by lia.
  replace (Z.succ (Z.log2 n)) with (k + 3) in Hhi by lia.
  assert (E2 : 2 ^ (k + 2) = 4 * 2 ^ k) by (rewrite Z.pow_add_r by lia; lia).
  assert (E3 : 2 ^ (k + 3) = 8 * 2 ^ k) by (rewrite Z.pow_add_r by lia; lia).
  set (q := n / 2 ^ k).
  assert (Hq : 4 <= q < 8).
  { subst q. split; [apply Z.div_le_lower_bound; lia |].
    apply Z.div_lt_upper_bound; lia. }
  pose proof (Z.div_mod n (2 ^ k) ltac:(lia)) as Hdm. fold q in Hdm.
  pose proof (Z.mod_pos_bound n (2 ^ k) H2k) as Hr.
  exists k, q. split; [lia |]. split; [lia |]. split; [subst n; nia |].
  split; [subst n; lia |].
  unfold CalculateIndex, kSmallLinearLimit. repeat case_cmp; try lia.
  change kLinearMsb with 7. change kLinearBucketCount with 8.
  unfold bit_width. case_cmp; [lia |]. fold n. unfold kStepShift, kStepsPerGroup.
  replace (Z.log2 n + 1 - 1) with (k + 2) by lia.
  replace (k + 2 - 2) with k by lia. rewrite Z.shiftr_div_pow2 by lia. fold q.
  change (4 - 1) with (Z.ones 2). rewrite Z.land_ones, Z.shiftl_mul_pow2 by lia.
  change (2 ^ 2) with 4. replace q with (q - 4 + 1 * 4) at 1 by lia.
  rewrite Z.mod_add, Z.mod_small by lia. lia.
Qed.

Lemma CalculateSize_linear i : 0 <= i < 8 -> CalculateSize i = (i + 1) * 16.
Proof.
  intros Hi. unfold CalculateSize. change kLinearBucketCount with 8. case_cmp; [| lia].
  change kAlignShift with 4. rewrite Z.shiftl_mul_pow2 by lia. reflexivity.
Qed.

Lemma CalculateSize_geometric k q :
  5 <= k -> 4 <= q < 8 -> CalculateSize (8 + (k - 5) * 4 + (q - 4)) = (q + 1) * 2 ^ k.
Proof.
  intros Hk Hq. unfold CalculateSize. change kLinearBucketCount with 8.
  case_cmp; [lia |]. unfold kStepShift, kStepsPerGroup. change kLinearMsb with 7.
  change (4 - 1) with (Z.ones 2). rewrite Z.land_ones, Z.shiftr_div_pow2 by lia.
  change (2 ^ 2) with 4.
  replace (8 + (k - 5) * 4 + (q - 4) - 8) with (q - 4 + (k - 5) * 4) by lia.
  rewrite Z.div_add, Z.mod_add, Z.div_small, Z.mod_small by lia.
  rewrite !Z.shiftl_mul_pow2 by lia.
  replace (0 + (k - 5) + 7) with (k + 2) by lia. replace (k + 2 - 2) with k by lia.
  rewrite Z.pow_add_r by lia. lia.
Qed.

(** Every index from 8 on is the index of such a bucket. *)
Lemma geometric_index i :
  8 <= i -> exists k q, 5 <= k /\ 4 <= q < 8 /\ i = 8 + (k - 5) * 4 + (q - 4).
Proof.
  intros Hi. exists ((i - 8) / 4 + 5), ((i - 8) mod 4 + 4).
  pose proof (Z.div_mod (i - 8) 4 ltac:(lia)). pose proof (Z.mod_pos_bound (i - 8) 4 ltac:(lia)).
  assert (0 <= (i - 8) / 4) by (apply Z.div_pos; lia). lia.
Qed.

Lemma CalculateSize_step i : 0 <= i -> CalculateSize i < CalculateSize (i + 1).
Proof.
  intros Hi. destruct (Z.lt_ge_cases i 7) as [H7 | H7].
  - rewrite !CalculateSize_linear by lia. lia.
  - destruct (Z.eqb_spec i 7) as [-> | Hne]; [vm_compute; done |].
    destruct (geometric_index i) as (k & q & Hk & Hq & ->); [lia |].
    assert (0 < 2 ^ k) by (apply Z.pow_pos_nonneg; lia).
    rewrite CalculateSize_geometric by lia. destruct (Z.eqb_spec q 7) as [-> | Hq7].
    + replace (8 + (k - 5) * 4 + (7 - 4) + 1) with (8 + (k + 1 - 5) * 4 + (4 - 4)) by lia.
      rewrite CalculateSize_geometric, Z.pow_add_r by lia. lia.
    + replace (8 + (k - 5) * 4 + (q - 4) + 1) with (8 + (k - 5) * 4 + (q + 1 - 4)) by lia.
      rewrite CalculateSize_geometric by lia. nia.
Qed.

Lemma CalculateSize_mono i j : 0 <= i < j -> CalculateSize i < CalculateSize j.
Proof. apply step_mono, CalculateSize_step. Qed.

Lemma CalculateSize_mono_le i j : 0 <= i <= j -> CalculateSize i <= CalculateSize j.
Proof.
  intros Hij. destruct (Z.eqb_spec i j) as [-> | Hne]; [lia |].
  pose proof (CalculateSize_mono i j). lia.
Qed.

(** The bucket of a size: its class is the first one at least as large. *)
Lemma CalculateIndex_bucket s :
  1 <= s -> 0 <= CalculateIndex s /\ s <= CalculateSize (CalculateIndex s) /\
  (0 < CalculateIndex s -> CalculateSize (CalculateIndex s - 1) < s).
Proof.
  intros Hs. destruct (Z.le_gt_cases s 128) as [Hlin | Hgeo].
  - rewrite CalculateIndex_linear by lia.
    pose proof (Z.div_mod (s - 1) 16 ltac:(lia)). pose proof (Z.mod_pos_bound (s - 1) 16 ltac:(lia)).
    assert (0 <= (s - 1) / 16 < 8).
    { split; [apply Z.div_pos; lia | apply Z.div_lt_upper_bound; lia]. }
    rewrite CalculateSize_linear by lia. split; [lia |]. split; [lia |]. intros.
    rewrite CalculateSize_linear by lia. lia.
  - destruct (CalculateIndex_geometric s Hgeo) as (k & q & Hk & Hq & Hb & Hlow & ->).
    rewrite CalculateSize_geometric by lia. split; [lia |]. split; [lia |]. intros _.
    destruct (Z.eqb_spec q 4) as [-> | Hq4].
    + destruct (Z.eqb_spec k 5) as [-> | Hk5]; [exact Hgeo |].
      replace (8 + (k - 5) * 4 + (4 - 4) - 1) with (8 + (k - 1 - 5) * 4 + (7 - 4)) by lia.
      rewrite CalculateSize_geometric by lia.
      replace (k + 2) with (k - 1 + 3) in Hlow by lia. rewrite Z.pow_add_r in Hlow by lia. lia.
    + replace (8 + (k - 5) * 4 + (q - 4) - 1) with (8 + (k - 5) * 4 + (q - 1 - 4)) by lia.
      rewrite CalculateSize_geometric by lia. replace (q - 1 + 1) with q by lia. lia.
Qed.

(** The two arithmetic maps form a Galois connection. *)
Lemma CalculateIndex_galois s i :
  0 <= s -> 0 <= i -> CalculateIndex s <= i <-> s <= CalculateSize i.
Proof.
  intros Hs Hi. destruct (Z.eqb_spec s 0) as [-> | Hs0].
  { pose proof (CalculateSize_mono_le 0 i ltac:(lia)) as H0.
    rewrite (CalculateSize_linear 0) in H0 by lia. change (CalculateIndex 0) with 0. lia. }
  destruct (CalculateIndex_bucket s ltac:(lia)) as (Hpos & Hup & Hlow). split.
  - intros Hle. pose proof (CalculateSize_mono_le (CalculateIndex s) i ltac:(lia)). lia.
  - intros Hle. destruct (Z.le_gt_cases (CalculateIndex s) i) as [| Hgt]; [done |].
    pose proof (CalculateSize_mono_le i (CalculateIndex s - 1) ltac:(lia)).
    specialize (Hlow ltac:(lia)). lia.
Qed.

Lemma CalculateIndex_CalculateSize i : 0 <= i -> CalculateIndex (CalculateSize i) = i.
Proof.
  intros Hi.
  pose proof (CalculateSize_mono_le 0 i ltac:(lia)) as Hpos.
  rewrite (CalculateSize_linear 0) in Hpos by lia.
  destruct (CalculateIndex_bucket (CalculateSize i) ltac:(lia)) as (H0 & Hup & _).
  pose proof (proj2 (CalculateIndex_galois (CalculateSize i) i ltac:(lia) Hi) ltac:(lia)).
  destruct (Z.eqb_spec (CalculateIndex (CalculateSize i)) i) as [| Hne]; [done |].
  pose proof (CalculateSize_mono (CalculateIndex (CalculateSize i)) i ltac:(lia)). lia.
Qed.

(** ** The tables agree with the formulas *)

Lemma kNumSizeClasses_val : kNumSizeClasses = 40.
Proof. reflexivity. Qed.

Lemma Size_calc i : 0 <= i < kNumSizeClasses -> Size i = CalculateSize i.
Proof.
  intros Hi. unfold Size, size_table_. rewrite lookup_total_seqZ_map by done.
  rewrite Z.add_0_l. apply u32_id. rewrite kNumSizeClasses_val in Hi.
  pose proof (CalculateSize_mono_le 0 i ltac:(lia)) as Hlo.
  pose proof (CalculateSize_mono_le i 39 ltac:(lia)) as Hhi.
  change (CalculateSize 39) with 32768 in Hhi. change (CalculateSize 0) with 16 in Hlo. lia.
Qed.

Lemma CalculateIndex_range s : 0 <= s <= MAX_TC_SIZE -> 0 <= CalculateIndex s < kNumSizeClasses.
Proof.
  intros Hs. rewrite kNumSizeClasses_val. split.
  - destruct (Z.eqb_spec s 0) as [-> | Hne]; [done |]. apply CalculateIndex_bucket; lia.
  - enough (CalculateIndex s <= 39) by lia. apply CalculateIndex_galois; [lia.. |].
    exact (proj2 Hs).
Qed.

Lemma Index_calc s : 0 <= s <= MAX_TC_SIZE -> Index s = CalculateIndex s.
Proof.
  intros Hs. unfold Index, small_index_table_. case_cmp; [lia |].
  case_cmp; [| done]. rewrite lookup_total_seqZ_map by clia. rewrite Z.add_0_l.
  pose proof (CalculateIndex_range s Hs). apply Z.mod_small.
  rewrite kNumSizeClasses_val in *. lia.
Qed.

Lemma Index_range s : 0 <= s <= MAX_TC_SIZE -> 0 <= Index s < kNumSizeClasses.
Proof. intros Hs. rewrite Index_calc by done. by apply CalculateIndex_range. Qed.

Lemma Size_range i : 0 <= i < kNumSizeClasses -> ALIGNMENT <= Size i <= MAX_TC_SIZE.
Proof.
  intros Hi. rewrite Size_calc by done. rewrite kNumSizeClasses_val in Hi.
  split; [apply (CalculateSize_mono_le 0 i) | apply (CalculateSize_mono_le i 39)]; lia.
Qed.
#[export] Hint Resolve Index_range Size_range : amdb.

Lemma Index_Size i : 0 <= i < kNumSizeClasses -> Index (Size i) = i.
Proof.
  intros Hi. pose proof (Size_range i Hi). unfold ALIGNMENT in *.
  rewrite Index_calc by lia. rewrite Size_calc by done. apply CalculateIndex_CalculateSize; lia.
Qed.

(** A finite check over the class indices. *)
Lemma all_classes (P : Z -> bool) i :
  forallb P (seqZ 0 kNumSizeClasses) = true -> 0 <= i < kNumSizeClasses -> P i = true.
Proof. intros HP Hi. eapply forallb_seqZ; [exact HP | lia]. Qed.

Lemma Index_oversize s : MAX_TC_SIZE < s -> Index s = SIZE_MAX.
Proof. intros Hs. unfold Index. case_cmp; [done | lia]. Qed.

Lemma Size_mono i j : 0 <= i < j -> j < kNumSizeClasses -> Size i < Size j.
Proof. intros Hij Hj. rewrite !Size_calc by lia. apply CalculateSize_mono; lia. Qed.

Lemma Size_bucket s :
  1 <= s <= MAX_TC_SIZE ->
  s <= Size (Index s) /\ (0 < Index s -> Size (Index s - 1) < s).
Proof.
  intros Hs. pose proof (Index_range s ltac:(lia)) as Hr.
  rewrite Index_calc in * by lia. destruct (CalculateIndex_bucket s) as (_ & Hup & Hlow); [lia |].
  rewrite Size_calc by done. split; [done |]. intros Hpos.
  rewrite Size_calc by lia. by apply Hlow.
Qed.

Lemma RoundUp_Size s : 0 <= s <= MAX_TC_SIZE -> RoundUp s = Size (Index s).
Proof.
  intros Hs. pose proof (Index_range s Hs). rewrite kNumSizeClasses_val in *.
  unfold RoundUp. case_cmp; [unfold SIZE_MAX in *; lia | done].
Qed.

(** The group step bounds the slack of a geometric class. *)
Lemma RoundUp_slack s :
  128 < s <= MAX_TC_SIZE -> 4 * (RoundUp s - s) < s.
Proof.
  intros Hs. rewrite RoundUp_Size by lia. pose proof (Index_range s ltac:(lia)) as Hr.
  rewrite Index_calc in * by lia. rewrite Size_calc by done.
  destruct (CalculateIndex_geometric s) as (k & q & Hk & Hq & Hb & _ & ->); [lia |].
  rewrite CalculateSize_geometric by lia. nia.
Qed.

Lemma linear_slack s : 0 <= s <= 128 -> Size (CalculateIndex s) - s <= 16.
Proof.
  intros Hs. destruct (Z.eqb_spec s 0) as [-> | Hne]; [vm_compute; discriminate |].
  pose proof (CalculateIndex_range s ltac:(clia)). rewrite Size_calc by done.
  rewrite CalculateIndex_linear by lia. pose proof (Z.div_mod (s - 1) 16 ltac:(lia)).
  pose proof (Z.mod_pos_bound (s - 1) 16 ltac:(lia)).
  rewrite CalculateSize_linear; [lia |].
  split; [apply Z.div_pos; lia | apply Z.div_lt_upper_bound; lia].
Qed.

(** Batch and page policies of one class, checked over the forty classes. *)
Definition class_policy_ok (i : Z) : bool :=
  let b := BatchByIndex i in
  let p := MovePagesByIndex i in
  (2 <=? b) && (b <=? kMaxBatchSize)
  && ((b =? 2) || (b * Size i <=? MAX_TC_SIZE))
  && ((b =? kMaxBatchSize) || (MAX_TC_SIZE <? (b + 1) * Size i))
  && (8 <=? p) && (p <=? MAX_PAGE_NUM)
  && (8 * b * Size i <=? p * PAGE_SIZE)
  && ((p =? 8) || ((p - 1) * PAGE_SIZE <? 8 * b * Size i)).

Lemma class_policies_ok : forallb class_policy_ok (seqZ 0 kNumSizeClasses) = true.
Proof. vm_compute. reflexivity. Qed.

Lemma Size_aligned i : 0 <= i < kNumSizeClasses -> Size i mod ALIGNMENT = 0.
Proof.
  intros Hi. apply Z.eqb_eq.
  apply (all_classes (fun i => Size i mod ALIGNMENT =? 0)); [vm_compute; reflexivity | done].
Qed.

(** ** Properties *)

(** C40: [Index] is the exact lower adjoint of [Size]: for every request of at
    most 32 KiB the class it returns is valid, and it is at or below a class
    [i] precisely when objects of class [i] are large enough.  So [Index]
    always picks the smallest class that fits, for all 32769 sizes the static
    asserts of the header only sample. *)
Theorem Index_least_class s i :
  0 <= s <= MAX_TC_SIZE -> 0 <= i < kNumSizeClasses ->
  0 <= Index s < kNumSizeClasses /\ (Index s <= i <-> s <= Size i).
Proof.
  intros Hs Hi. split; [by apply Index_range |].
  rewrite Index_calc, Size_calc by done. apply CalculateIndex_galois; lia.
Qed.

Lemma Index_least_class_witness :
  0 <= Index 150 < kNumSizeClasses /\ (Index 150 <= 8 <-> 150 <= Size 8).
Proof. apply (Index_least_class 150 8); zdec. Defined.

(** [Size] is a strictly increasing right inverse of [Index] that ends
    exactly at [MAX_TC_SIZE], every class size is a multiple of [ALIGNMENT],
    and all the [consteval] validators and static assertions of the header hold. *)
Theorem Size_right_inverse :
  (forall i, 0 <= i < kNumSizeClasses -> Index (Size i) = i /\ Size i mod ALIGNMENT = 0) /\
  (forall i j, 0 <= i < j -> j < kNumSizeClasses -> Size i < Size j) /\
  Size (kNumSizeClasses - 1) = MAX_TC_SIZE /\
  ValidateIndexInRangeSampled = true /\ ValidateSizeNotLessThanInputSampled = true /\
  ValidateIndexIdempotentSampled = true /\ ValidateSizeMonotonic = true /\
  ValidateRoundUpMonotonicSampled = true /\ EveryClassAligned = true /\
  formula_asserts = true /\ table_asserts = true /\ ladder_asserts = true /\ top_asserts = true.
Proof.
  split; [intros i Hi; split; [by apply Index_Size | by apply Size_aligned] |].
  split; [apply Size_mono |]. vm_compute. repeat split.
Qed.

(** [RoundUp] returns a multiple of [ALIGNMENT] that covers the request, is
    idempotent, wastes fewer than 16 bytes in the linear region and less than a
    quarter of the request above it, and passes oversized requests through. *)
Theorem RoundUp_bounds s :
  0 <= s < W64 ->
  (s <= MAX_TC_SIZE ->
     s <= RoundUp s <= MAX_TC_SIZE /\ RoundUp s mod ALIGNMENT = 0 /\
     RoundUp (RoundUp s) = RoundUp s /\
     (s <= 128 -> RoundUp s - s <= 16) /\ (128 < s -> 4 * (RoundUp s - s) < s)) /\
  (MAX_TC_SIZE < s -> RoundUp s = s).
Proof.
  intros Hs64. split; intros Hs.
  - pose proof (Index_range s ltac:(lia)) as Hr. pose proof (Size_range _ Hr) as Hsz.
    pose proof (RoundUp_slack s) as Hslack. rewrite RoundUp_Size in * by lia.
    assert (Hup : s <= Size (Index s)).
    { destruct (Z.eqb_spec s 0) as [-> | Hne]; [clia |]. apply Size_bucket; lia. }
    split; [lia |]. split; [by apply Size_aligned |].
    split; [rewrite RoundUp_Size, Index_Size by clia; done |]. split; [| auto with lia].
    intros H128. rewrite Index_calc by lia. apply linear_slack; lia.
  - unfold RoundUp. rewrite Index_oversize, Z.eqb_refl by done. done.
Qed.

Lemma RoundUp_bounds_witness :
  (150 <= MAX_TC_SIZE ->
     150 <= RoundUp 150 <= MAX_TC_SIZE /\ RoundUp 150 mod ALIGNMENT = 0 /\
     RoundUp (RoundUp 150) = RoundUp 150 /\
     (150 <= 128 -> RoundUp 150 - 150 <= 16) /\ (128 < 150 -> 4 * (RoundUp 150 - 150) < 150)) /\
  (MAX_TC_SIZE < 150 -> RoundUp 150 = 150).
Proof. apply (RoundUp_bounds 150). lia. Defined.

(** The transfer policies are well defined for every cacheable size: a batch
    has 2 to 512 objects, is the largest count whose bytes stay within 32 KiB
    (up to those clamps), and the Span fetched for the class has between 8 and
    128 pages, the least number that holds eight batches; sizes outside
    [(0, 32 KiB]] yield 0. *)
Theorem batch_and_page_policy s :
  0 <= s < W64 ->
  (0 < s <= MAX_TC_SIZE ->
     let b := CalculateBatchSize s in
     let p := GetMovePageNum s in
     let c := RoundUp s in
     2 <= b <= kMaxBatchSize /\ (b = 2 \/ b * c <= MAX_TC_SIZE) /\
     (b = kMaxBatchSize \/ MAX_TC_SIZE < (b + 1) * c) /\
     8 <= p <= MAX_PAGE_NUM /\ 8 * b * c <= p * PAGE_SIZE /\
     (p = 8 \/ (p - 1) * PAGE_SIZE < 8 * b * c)) /\
  (s = 0 \/ MAX_TC_SIZE < s -> CalculateBatchSize s = 0 /\ GetMovePageNum s = 0).
Proof.
  intros Hs64. split.
  - intros Hs b p c. subst b p c. rewrite RoundUp_Size by lia.
    pose proof (all_classes _ _ class_policies_ok (Index_range s ltac:(lia))) as Hok.
    unfold class_policy_ok in Hok. bool_facts.
    unfold CalculateBatchSize, GetMovePageNum.
    rewrite (proj2 (Z.eqb_neq s 0)), (proj2 (Z.ltb_ge MAX_TC_SIZE s)) by lia. simpl.
    repeat match goal with H : (_ || _) = true |- _ => apply orb_true_iff in H end.
    rewrite ?Z.eqb_eq, ?Z.leb_le, ?Z.ltb_lt in *. lia.
  - intros Hs. unfold CalculateBatchSize, GetMovePageNum.
    replace ((s =? 0) || (MAX_TC_SIZE <? s)) with true; [done |].
    symmetry. apply orb_true_iff. rewrite Z.eqb_eq, Z.ltb_lt. lia.
Qed.

Lemma batch_and_page_policy_witness :
  (0 < 100 <= MAX_TC_SIZE ->
     let b := CalculateBatchSize 100 in
     let p := GetMovePageNum 100 in
     let c := RoundUp 100 in
     2 <= b <= kMaxBatchSize /\ (b = 2 \/ b * c <= MAX_TC_SIZE) /\
     (b = kMaxBatchSize \/ MAX_TC_SIZE < (b + 1) * c) /\
     8 <= p <= MAX_PAGE_NUM /\ 8 * b * c <= p * PAGE_SIZE /\
     (p = 8 \/ (p - 1) * PAGE_SIZE < 8 * b * c)) /\
  (100 = 0 \/ MAX_TC_SIZE < 100 -> CalculateBatchSize 100 = 0 /\ GetMovePageNum 100 = 0).
Proof. apply (batch_and_page_policy 100). lia. Defined.
