(* ===== verification/FreeList.v ===== *)
(** * Intrusive free lists (include/ammalloc/free_list.h)

    [FreeList] is a LIFO of free objects linked through their first word,
    [ObjectBatch] the move-only token that carries a detached chain between
    components.  The definitions work on the words of memory; the theorems show
    that they implement plain lists of addresses. *)
From S2P Require Import Prelude Config SizeClass.
Open Scope Z_scope.

(** ** Chains and batches *)

Record FreeChain := mkChain { fc_head : Z; fc_tail : Z; fc_count : Z }.

Definition empty_chain : FreeChain := mkChain 0 0 0.

(** [FreeBlock::next], the first word of a free object. *)
Definition FreeBlock_next (m : mem) (block : Z) : outcome Z := load m block.
Definition FreeBlock_set_next (m : mem) (block next : Z) : outcome mem := store m block next.

Record ObjectBatch := mkBatch {
  ob_head : Z; ob_tail : Z; ob_count : Z; ob_size_class_idx : Z
}.

Definition kInvalidClass : Z := kNumSizeClasses.
Definition empty_batch : ObjectBatch := mkBatch 0 0 0 kInvalidClass.
Definition batch_empty (b : ObjectBatch) : bool := ob_count b =? 0.

(** [for (i = 1; i < count; ++i) { if (!cur) return false; cur = cur->next; }] *)
Fixpoint walk_links (m : mem) (n : nat) (cur : Z) : outcome (option Z) :=
  match n with
  | O => Ok (Some cur)
  | S n' => if cur =? 0 then Ok None
            else next ← FreeBlock_next m cur; walk_links m n' next
  end.

Definition IsCanonical (m : mem) (b : ObjectBatch) : outcome bool :=
  if ob_count b =? 0
  then Ok ((ob_head b =? 0) && (ob_tail b =? 0) && (ob_size_class_idx b =? kInvalidClass))
  else if (ob_head b =? 0) || (ob_tail b =? 0) || (kNumSizeClasses <=? ob_size_class_idx b)
  then Ok false
  else cur ← walk_links m (Z.to_nat (ob_count b - 1)) (ob_head b);
       match cur with
       | None => Ok false
       | Some cur =>
           if cur =? ob_tail b then next ← FreeBlock_next m cur; Ok (next =? 0) else Ok false
       end.

(** The private constructor; its canonicity check runs in debug builds only. *)
Definition make_batch `{Build} (m : mem) (head tail count idx : Z) : outcome ObjectBatch :=
  let b := mkBatch head tail count idx in
  if debug_build
  then ok ← IsCanonical m b; _ ← AM_CHECK ok "IsCanonical()"; Ok b
  else Ok b.

(** Move construction: the new token and the emptied source. *)
Definition batch_move (other : ObjectBatch) : ObjectBatch * ObjectBatch :=
  (mkBatch (ob_head other) (ob_tail other) (ob_count other) (ob_size_class_idx other),
   empty_batch).

(** The destructor. *)
Definition batch_destroy `{Build} (b : ObjectBatch) : outcome unit :=
  AM_DCHECK (batch_empty b) "empty()".

Definition MarkProcessed (b : ObjectBatch) : ObjectBatch := empty_batch.

Definition FromSingleObject `{Build} (m : mem) (object idx : Z) : outcome (ObjectBatch * mem) :=
  _ ← AM_DCHECK (negb (object =? 0)) "object != nullptr";
  _ ← AM_DCHECK (idx <? kNumSizeClasses) "idx < SizeClass::kNumSizeClasses";
  if object =? 0 then Ok (empty_batch, m)
  else m ← FreeBlock_set_next m object 0;
       b ← make_batch m object object 1 idx;
       Ok (b, m).

Definition AdoptChain `{Build} (m : mem) (chain : FreeChain) (idx : Z) : outcome ObjectBatch :=
  _ ← AM_DCHECK (idx <? kNumSizeClasses) "idx < SizeClass::kNumSizeClasses";
  if fc_count chain =? 0
  then _ ← AM_DCHECK (fc_head chain =? 0) "chain.head == nullptr";
       _ ← AM_DCHECK (fc_tail chain =? 0) "chain.tail == nullptr";
       Ok empty_batch
  else make_batch m (fc_head chain) (fc_tail chain) (fc_count chain) idx.

(** Returns the transport chain and the token left behind. *)
Definition DetachChainForTransport (b : ObjectBatch) : FreeChain * ObjectBatch :=
  if batch_empty b then (empty_chain, b)
  else (mkChain (ob_head b) (ob_tail b) (ob_count b), MarkProcessed b).

(** ** FreeList *)

Record FreeList := mkFreeList {
  fl_head : Z; fl_size : Z; fl_max_size : Z; fl_overages : Z
}.

Definition FreeList_new : FreeList := mkFreeList 0 0 1 0.

Definition fl_empty (fl : FreeList) : bool := fl_head fl =? 0.

Definition with_chain (fl : FreeList) (head size : Z) : FreeList :=
  mkFreeList head size (fl_max_size fl) (fl_overages fl).

Definition set_max_size `{Build} (fl : FreeList) (n : Z) : outcome FreeList :=
  _ ← AM_DCHECK (1 <=? n) "n >= 1";
  Ok (mkFreeList (fl_head fl) (fl_size fl) (Z.max n 1) (fl_overages fl)).

Definition set_overages (fl : FreeList) (n : Z) : FreeList :=
  mkFreeList (fl_head fl) (fl_size fl) (fl_max_size fl) n.

Definition Push (m : mem) (fl : FreeList) (ptr : Z) : outcome (FreeList * mem) :=
  if ptr =? 0 then Ok (fl, m)
  else m ← FreeBlock_set_next m ptr (fl_head fl);
       Ok (with_chain fl ptr (u64 (fl_size fl + 1)), m).

(** [CountChain] walks until [end] or null; the model bounds the walk by [n]
    nodes (a longer chain fails the debug check that calls it anyway). *)
Fixpoint CountChain (m : mem) (n : nat) (head end_ acc : Z) : outcome Z :=
  if head =? 0 then Ok SIZE_MAX
  else if head =? end_ then Ok (acc + 1)
  else match n with
       | O => NoFuel
       | S n' => next ← FreeBlock_next m head; CountChain m n' next end_ (acc + 1)
       end.

Definition PushRange `{Build} (m : mem) (fl : FreeList) (chain : FreeChain)
    : outcome (FreeList * mem) :=
  if (fc_head chain =? 0) || (fc_tail chain =? 0) || (fc_count chain =? 0) then Ok (fl, m)
  else
    _ ← (if debug_build
         then n ← CountChain m (Z.to_nat (fc_count chain)) (fc_head chain) (fc_tail chain) 0;
              AM_CHECK (n =? fc_count chain) "CountChain(head, tail) == chain.count"
         else Ok tt);
    m ← FreeBlock_set_next m (fc_tail chain) (fl_head fl);
    Ok (with_chain fl (fc_head chain) (u64 (fl_size fl + fc_count chain)), m).

(** [PushBatch] takes the token by value and marks it processed. *)
Definition PushBatch (m : mem) (fl : FreeList) (batch : ObjectBatch)
    : outcome (FreeList * mem) :=
  if batch_empty batch then Ok (fl, m)
  else m ← FreeBlock_set_next m (ob_tail batch) (fl_head fl);
       Ok (with_chain fl (ob_head batch) (u64 (fl_size fl + ob_count batch)), m).

(** [for (i = 0; i < n && cur; ++i) { tail = cur; cur = cur->next; ++count; }] *)
Fixpoint pop_walk (m : mem) (n : nat) (cur tail count : Z) : outcome (Z * Z * Z) :=
  match n with
  | O => Ok (cur, tail, count)
  | S n' => if cur =? 0 then Ok (cur, tail, count)
            else next ← FreeBlock_next m cur; pop_walk m n' next cur (count + 1)
  end.

Definition head_size_agree (fl : FreeList) : bool :=
  Bool.eqb (fl_head fl =? 0) (fl_size fl =? 0).

Definition PopRange `{Build} (m : mem) (fl : FreeList) (n : Z)
    : outcome (FreeChain * FreeList * mem) :=
  '(cur, tail, count) ← pop_walk m (Z.to_nat n) (fl_head fl) 0 0;
  if 0 <? count
  then
    let out := mkChain (fl_head fl) tail count in
    _ ← AM_DCHECK (count <=? fl_size fl) "out.count <= size_";
    let fl := with_chain fl cur (u64 (fl_size fl - count)) in
    m ← FreeBlock_set_next m tail 0;
    _ ← AM_DCHECK (head_size_agree fl) "(head_ == nullptr) == (size_ == 0)";
    Ok (out, fl, m)
  else Ok (mkChain 0 tail count, fl, m).

(** [for (i = 0; i + 1 < keep; ++i) keep_tail = keep_tail->next;] *)
Fixpoint next_n (m : mem) (n : nat) (cur : Z) : outcome Z :=
  match n with
  | O => Ok cur
  | S n' => next ← FreeBlock_next m cur; next_n m n' next
  end.

(** [while (tail->next) tail = tail->next;] with a bound on the walk. *)
Fixpoint last_node (m : mem) (n : nat) (tail : Z) : outcome Z :=
  next ← FreeBlock_next m tail;
  if next =? 0 then Ok tail
  else match n with
       | O => NoFuel
       | S n' => last_node m n' next
       end.

Definition PopRangeTail `{Build} (m : mem) (fl : FreeList) (n : Z)
    : outcome (FreeChain * FreeList * mem) :=
  let pop_count := if n <? fl_size fl then n else fl_size fl in
  if pop_count =? 0 then Ok (empty_chain, fl, m)
  else
    let keep := fl_size fl - pop_count in
    keep_tail ← next_n m (Z.to_nat (keep - 1)) (fl_head fl);
    '(head, fl, m) ← (if keep =? 0
                      then Ok (fl_head fl, with_chain fl 0 (fl_size fl), m)
                      else head ← FreeBlock_next m keep_tail;
                           m ← FreeBlock_set_next m keep_tail 0;
                           Ok (head, fl, m));
    tail ← last_node m (Z.to_nat (fl_size fl)) head;
    let fl := with_chain fl (fl_head fl) keep in
    _ ← AM_DCHECK (head_size_agree fl) "(head_ == nullptr) == (size_ == 0)";
    Ok (mkChain head tail pop_count, fl, m).

Definition batch_of_chain `{Build} (m : mem) (c : FreeChain) (idx : Z) : outcome ObjectBatch :=
  if fc_count c =? 0 then Ok empty_batch
  else make_batch m (fc_head c) (fc_tail c) (fc_count c) idx.

Definition PopBatch `{Build} (m : mem) (fl : FreeList) (n idx : Z)
    : outcome (ObjectBatch * FreeList * mem) :=
  '(c, fl, m) ← PopRange m fl n;
  b ← batch_of_chain m c idx;
  Ok (b, fl, m).

Definition PopBatchTail `{Build} (m : mem) (fl : FreeList) (n idx : Z)
    : outcome (ObjectBatch * FreeList * mem) :=
  '(c, fl, m) ← PopRangeTail m fl n;
  b ← batch_of_chain m c idx;
  Ok (b, fl, m).

Definition Pop `{Build} (m : mem) (fl : FreeList) : outcome (Z * FreeList) :=
  if fl_empty fl then Ok (0, fl)
  else
    let block := fl_head fl in
    _ ← FreeBlock_next m block;
    _ ← AM_DCHECK (0 <? fl_size fl) "size_ > 0";
    next ← FreeBlock_next m (fl_head fl);
    let fl := with_chain fl next (u64 (fl_size fl - 1)) in
    _ ← AM_DCHECK (head_size_agree fl) "(head_ == nullptr) == (size_ == 0)";
    Ok (block, fl).

(** ** Representation predicates *)

(** [seg m p l q]: following links from [p] visits exactly [l] and reaches [q]. *)
Fixpoint seg (m : mem) (p : Z) (l : list Z) (q : Z) : Prop :=
  match l with
  | [] => p = q
  | x :: l' => p = x /\ x <> 0 /\ exists next, m !! x = Some next /\ seg m next l' q
  end.

Definition chain_rep (m : mem) (c : FreeChain) (l : list Z) : Prop :=
  seg m (fc_head c) l 0 /\ fc_tail c = default 0 (last l) /\ fc_count c = Z.of_nat (length l).

Definition batch_rep (m : mem) (b : ObjectBatch) (idx : Z) (l : list Z) : Prop :=
  chain_rep m (mkChain (ob_head b) (ob_tail b) (ob_count b)) l /\
  0 <= idx < kNumSizeClasses /\
  ob_size_class_idx b = match l with [] => kInvalidClass | _ => idx end.

Definition FreeList_rep (m : mem) (fl : FreeList) (l : list Z) : Prop :=
  seg m (fl_head fl) l 0 /\ fl_size fl = Z.of_nat (length l) /\
  Z.of_nat (length l) < W64 /\ 1 <= fl_max_size fl.

(** ** Segments *)

Lemma seg_app m p l1 l2 q :
  seg m p (l1 ++ l2) q <-> exists r, seg m p l1 r /\ seg m r l2 q.
Proof. revert p. induction l1 as [| x l1 IH]; simpl; intros p; [naive_solver |].
  setoid_rewrite IH. naive_solver. Qed.

Lemma seg_nonzero m p l q x : seg m p l q -> x ∈ l -> x <> 0.
Proof. revert p. induction l as [| y l IH]; simpl; intros p Hs Hx; set_solver. Qed.

Lemma seg_mapped m p l q x : seg m p l q -> x ∈ l -> exists v, m !! x = Some v.
Proof. revert p. induction l as [| y l IH]; simpl; intros p Hs Hx; set_solver. Qed.

Lemma seg_frame m m' p l q :
  (forall a, a ∈ l -> m' !! a = m !! a) -> seg m p l q -> seg m' p l q.
Proof.
  revert p. induction l as [| x l IH]; simpl; intros p Hm; [done |].
  intros (-> & Hx & next & Hnext & Hs). split; [done |]. split; [done |]. exists next.
  rewrite Hm by set_solver. split; [done |]. apply IH; [| done]. set_solver.
Qed.

Lemma seg_same_except m m' ls p l q :
  same_except ls m m' -> (forall a, a ∈ l -> a ∉ ls) -> seg m p l q -> seg m' p l q.
Proof. intros Hm Hd. apply seg_frame. auto. Qed.

Lemma seg_null m l q : seg m 0 l q -> l = [] /\ q = 0.
Proof. destruct l; simpl; naive_solver. Qed.

Lemma seg_head_zero m p l : seg m p l 0 -> (p =? 0) = bool_decide (l = []).
Proof.
  destruct l as [| x l]; simpl; [intros ->; done |]. intros (-> & Hx & _).
  rewrite (proj2 (Z.eqb_neq x 0)) by done. done.
Qed.

(** Links are deterministic, so a null-terminated segment has one content... *)
Lemma seg_functional m p l1 l2 : seg m p l1 0 -> seg m p l2 0 -> l1 = l2.
Proof.
  revert p l2. induction l1 as [| x l1 IH]; simpl; intros p l2.
  - intros -> H2. by apply seg_null in H2 as [-> _].
  - intros (-> & Hx & n & Hn & Hs). destruct l2 as [| y l2]; simpl; [naive_solver |].
    intros (-> & _ & n' & Hn' & Hs'). f_equal. rewrite Hn in Hn'. simplify_eq. eauto.
Qed.

(** ... and cannot visit a node twice. *)
Lemma seg_NoDup m p l : seg m p l 0 -> NoDup l.
Proof.
  revert p. induction l as [| x l IH]; simpl; intros p; [intros; constructor |].
  intros (-> & Hx & n & Hn & Hs). constructor; [| eauto].
  intros (l1 & l2 & ->)%list_elem_of_split.
  apply seg_app in Hs as (r & H1 & H2). pose proof H2 as (-> & _ & _).
  assert (Hfull : seg m x (x :: l1 ++ x :: l2) 0).
  { simpl. split; [done |]. split; [done |]. exists n. split; [done |].
    apply seg_app. eauto. }
  pose proof (seg_functional _ _ _ _ Hfull H2) as Heq. apply (f_equal length) in Heq.
  simpl in Heq. rewrite length_app in Heq. simpl in Heq. lia.
Qed.

(** Relinking the last node of a segment. *)
Lemma seg_relink m p l t q r :
  t ∉ l -> seg m p (l ++ [t]) q -> seg (<[t := r]> m) p (l ++ [t]) r.
Proof.
  intros Ht. rewrite !seg_app. intros (s & Hl & Hs). simpl in Hs.
  exists s. split.
  - eapply seg_frame; [| done]. intros a Ha. rewrite lookup_insert_ne; [done | set_solver].
  - destruct Hs as (-> & Ht0 & _). simpl. split; [done |]. split; [done |].
    exists r. by rewrite lookup_insert_eq.
Qed.

Lemma FreeBlock_next_seg m p x l q :
  seg m p (x :: l) q -> exists next, FreeBlock_next m p = Ok next /\ seg m next l q.
Proof.
  intros (-> & Hx & next & Hn & Hs). exists next. split; [by apply load_Some | done].
Qed.

(** ** The walks of the operations *)

Lemma walk_links_seg m p l1 x l2 q :
  seg m p (l1 ++ x :: l2) q -> walk_links m (length l1) p = Ok (Some x).
Proof.
  revert p. induction l1 as [| y l1 IH]; intros p Hs; [by destruct Hs as (-> & _) |].
  cbn [walk_links length]. pose proof Hs as (-> & Hy & _).
  rewrite (proj2 (Z.eqb_neq y 0)) by done.
  apply FreeBlock_next_seg in Hs as (next & -> & Hs). rewrite bind_Ok_l. eauto.
Qed.

Lemma next_n_seg m p l1 x l2 q :
  seg m p (l1 ++ x :: l2) q -> next_n m (length l1) p = Ok x.
Proof.
  revert p. induction l1 as [| y l1 IH]; intros p Hs; [by destruct Hs as (-> & _) |].
  cbn [next_n length]. apply FreeBlock_next_seg in Hs as (next & -> & Hs).
  rewrite bind_Ok_l. eauto.
Qed.

Lemma last_node_seg m p l t n :
  seg m p (l ++ [t]) 0 -> (length l <= n)%nat -> last_node m n p = Ok t.
Proof.
  revert p n. induction l as [| y l IH]; intros p n Hs Hn.
  - pose proof Hs as (-> & _). apply FreeBlock_next_seg in Hs as (next & Hnx & ->).
    destruct n; cbn [last_node]; rewrite Hnx, bind_Ok_l; done.
  - apply FreeBlock_next_seg in Hs as (next & Hnx & Hs). pose proof (seg_head_zero _ _ _ Hs) as Hz.
    destruct n as [| n]; simpl in Hn; [lia |].
    cbn [last_node]. rewrite Hnx, bind_Ok_l, Hz. rewrite bool_decide_eq_false_2 by (by destruct l).
    apply IH; [done | lia].
Qed.

Lemma CountChain_seg m p l t q n acc :
  seg m p (l ++ [t]) q -> t ∉ l -> (length l <= n)%nat ->
  CountChain m n p t acc = Ok (acc + Z.of_nat (length l) + 1).
Proof.
  revert p n acc. induction l as [| y l IH]; intros p n acc Hs Ht Hn; simpl in Hn.
  - pose proof Hs as (-> & Ht0 & _).
    destruct n; cbn [CountChain]; rewrite (proj2 (Z.eqb_neq t 0)), Z.eqb_refl by done;
      f_equal; simpl; lia.
  - pose proof Hs as (-> & Hy & _). apply FreeBlock_next_seg in Hs as (next & Hnx & Hs).
    destruct n as [| n]; [lia |]. cbn [CountChain].
    rewrite (proj2 (Z.eqb_neq y 0)), (proj2 (Z.eqb_neq y t)) by set_solver.
    rewrite Hnx, bind_Ok_l, (IH next n) by (first [done | set_solver | lia]).
    f_equal. simpl. lia.
Qed.

Lemma pop_walk_seg m n p l t c :
  seg m p l 0 -> exists r,
  pop_walk m n p t c =
    Ok (r, default t (last (take n l)), c + Z.of_nat (length (take n l))) /\
  seg m p (take n l) r /\ seg m r (drop n l) 0.
Proof.
  revert p l t c. induction n as [| n IH]; intros p l t c Hs.
  { exists p. simpl. rewrite Z.add_0_r. done. }
  destruct l as [| x l].
  { exists 0. simpl in Hs. subst p. simpl. rewrite Z.add_0_r. done. }
  cbn [pop_walk]. pose proof Hs as (-> & Hx & _). rewrite (proj2 (Z.eqb_neq x 0)) by done.
  pose proof Hs as (_ & _ & next & Hnext & Hs').
  unfold FreeBlock_next. rewrite (load_Some _ _ _ Hx Hnext), bind_Ok_l.
  destruct (IH next l x (c + 1) Hs') as (r & Hw & Ht & Hd). exists r. split; [| split; [| done]].
  - rewrite Hw. cbn [take length]. f_equal. f_equal; [f_equal | lia].
    rewrite last_cons. by destruct (last (take n l)).
  - simpl. split; [done |]. split; [done |]. eauto.
Qed.

(** ** The operations refine list operations *)

Definition same_quota (fl fl' : FreeList) : Prop :=
  fl_max_size fl' = fl_max_size fl /\ fl_overages fl' = fl_overages fl.

Lemma head_size_agree_rep m fl l : FreeList_rep m fl l -> head_size_agree fl = true.
Proof.
  intros (Hs & Hsz & _). unfold head_size_agree. rewrite (seg_head_zero _ _ _ Hs), Hsz.
  apply Bool.eqb_true_iff. by destruct l.
Qed.

Lemma FreeList_new_rep m : FreeList_rep m FreeList_new [].
Proof. split; [done |]. simpl. lia. Qed.

Lemma FreeList_rep_frame m m' ls fl l :
  same_except ls m m' -> (forall a, a ∈ l -> a ∉ ls) -> FreeList_rep m fl l ->
  FreeList_rep m' fl l.
Proof. intros Hm Hd (Hs & ?). split; [by eapply seg_same_except | done]. Qed.

Lemma fl_empty_rep m fl l : FreeList_rep m fl l -> fl_empty fl = bool_decide (l = []).
Proof. intros (Hs & _). by apply seg_head_zero in Hs. Qed.

Lemma Push_rep m fl l p :
  FreeList_rep m fl l -> p <> 0 -> p ∉ l -> Z.of_nat (length l) + 1 < W64 ->
  exists fl' m', Push m fl p = Ok (fl', m') /\ FreeList_rep m' fl' (p :: l) /\
    same_except [p] m m' /\ same_quota fl fl'.
Proof.
  intros (Hs & Hsz & Hlt & Hmax) Hp Hnin Hlen.
  unfold Push, FreeBlock_set_next. rewrite (proj2 (Z.eqb_neq p 0)), store_nonnull by done.
  simpl. do 2 eexists. split; [reflexivity |]. split; [| split; [| done]].
  - split; [| simpl; rewrite u64_id; lia]. simpl. split; [done |]. split; [done |].
    exists (fl_head fl). rewrite lookup_insert_eq. split; [done |].
    eapply seg_same_except; [apply (same_except_insert [p]); set_solver | set_solver | done].
  - apply same_except_insert. set_solver.
Qed.

Section Checked.
Context `{Build}.

Lemma Pop_rep m fl x l :
  FreeList_rep m fl (x :: l) ->
  exists fl', Pop m fl = Ok (x, fl') /\ FreeList_rep m fl' l /\ same_quota fl fl'.
Proof.
  intros (Hs & Hsz & Hlt & Hmax). pose proof Hs as (Hhd & Hx & _). rewrite Hhd in *.
  apply FreeBlock_next_seg in Hs as (next & Hnx & Hs).
  assert (Hrep : FreeList_rep m (with_chain fl next (u64 (fl_size fl - 1))) l).
  { split; [done |]. simpl in *. rewrite u64_id; lia. }
  exists (with_chain fl next (u64 (fl_size fl - 1))). split; [| done].
  unfold Pop, fl_empty. rewrite Hhd, (proj2 (Z.eqb_neq x 0)) by done.
  rewrite Hnx, bind_Ok_l. rewrite (proj2 (Z.ltb_lt 0 (fl_size fl))) by (simpl in *; lia).
  rewrite AM_DCHECK_true, bind_Ok_l, bind_Ok_l.
  by rewrite (head_size_agree_rep _ _ _ Hrep), AM_DCHECK_true.
Qed.

Lemma Pop_rep_empty m fl : FreeList_rep m fl [] -> Pop m fl = Ok (0, fl).
Proof. intros Hr. unfold Pop. by rewrite (fl_empty_rep _ _ _ Hr). Qed.

Lemma PopRange_rep m fl l n :
  FreeList_rep m fl l -> exists c fl' m',
    PopRange m fl n = Ok (c, fl', m') /\
    chain_rep m' c (take (Z.to_nat n) l) /\ FreeList_rep m' fl' (drop (Z.to_nat n) l) /\
    same_except (take (Z.to_nat n) l) m m' /\ same_quota fl fl'.
Proof.
  intros Hrep. pose proof Hrep as (Hs & Hsz & Hlt & Hmax).
  set (k := Z.to_nat n). pose proof (seg_NoDup _ _ _ Hs) as Hnd.
  destruct (pop_walk_seg m k (fl_head fl) l 0 0 Hs) as (r & Hw & Ht & Hd).
  unfold PopRange. fold k. rewrite Hw, bind_Ok_l. clear Hw. rewrite Z.add_0_l.
  destruct (take k l) as [| t0 tl0] eqn:Etake using rev_ind.
  { simpl. exists empty_chain, fl, m. split; [done |]. split; [done |].
    split; [| done]. rewrite <- (take_drop k l) in Hrep. by rewrite Etake in Hrep. }
  clear IHtl0. rewrite last_snoc, length_app. simpl.
  rewrite (proj2 (Z.ltb_lt _ _)) by lia.
  assert (Hlen : (length l = length tl0 + 1 + length (drop k l))%nat).
  { rewrite <- (take_drop k l) at 1. rewrite length_app, Etake, length_app. simpl. lia. }
  rewrite (proj2 (Z.leb_le _ _)) by lia. rewrite AM_DCHECK_true, bind_Ok_l.
  assert (Ht0 : t0 <> 0) by (eapply seg_nonzero; [exact Ht | set_solver]).
  rewrite <- (take_drop k l), Etake in Hnd. apply NoDup_app in Hnd as (Hnd1 & Hdisj & _).
  apply NoDup_app in Hnd1 as (_ & Htl & _).
  unfold FreeBlock_set_next. rewrite store_nonnull, bind_Ok_l by done.
  assert (Hrep' : FreeList_rep (<[t0:=0]> m) (with_chain fl r (u64 (fl_size fl - Z.of_nat (length tl0 + 1)))) (drop k l)).
  { split; [| simpl; rewrite u64_id; lia]. eapply seg_same_except; [| | exact Hd].
    - apply (same_except_insert [t0]). set_solver.
    - set_solver. }
  rewrite (head_size_agree_rep _ _ _ Hrep'), AM_DCHECK_true, bind_Ok_l.
  do 3 eexists. split; [reflexivity |]. split; [| split; [done |]].
  - split; [| split]; simpl.
    + eapply seg_relink; [set_solver | exact Ht].
    + by rewrite last_snoc.
    + rewrite length_app. simpl. lia.
  - split; [apply same_except_insert; set_solver | done].
Qed.

(** The evicted suffix of [PopRangeTail]: the chain that starts after the
    first [keep] nodes. *)
Lemma chain_rep_suffix m p l c :
  seg m p l 0 -> l <> [] -> c = Z.of_nat (length l) ->
  exists t, last_node m (length l) p = Ok t /\ chain_rep m (mkChain p t c) l.
Proof.
  intros Hs Hne ->. destruct l as [| t l _] using rev_ind; [done |].
  exists t. split; [| split; [done |]; split; [by rewrite last_snoc | done]].
  eapply last_node_seg; [exact Hs |]. rewrite length_app. lia.
Qed.

Lemma last_node_fuel m p n n' t :
  last_node m n p = Ok t -> (n <= n')%nat -> last_node m n' p = Ok t.
Proof.
  revert p n'. induction n as [| n IH]; intros p n' Hl Hle; destruct n' as [| n']; try lia; try done;
    cbn [last_node] in *; destruct (FreeBlock_next m p); try done; rewrite bind_Ok_l in *;
    case_match; try done. eapply IH; [done | lia].
Qed.

(** Cutting a chain after [x]: both halves are null-terminated chains. *)
Lemma seg_cut m p l1 x l2 :
  seg m p (l1 ++ x :: l2) 0 ->
  exists next, FreeBlock_next m x = Ok next /\ FreeBlock_set_next m x 0 = Ok (<[x:=0]> m) /\
    seg (<[x:=0]> m) p (l1 ++ [x]) 0 /\ seg (<[x:=0]> m) next l2 0.
Proof.
  intros Hs. pose proof (seg_NoDup _ _ _ Hs) as (_ & Hdisj & [Hxd _]%NoDup_cons)%NoDup_app.
  apply seg_app in Hs as (r & Hpre & Hsuf). pose proof Hsuf as (-> & Hx0 & next & Hnext & Hl2).
  exists next. split; [by apply load_Some |]. split; [by apply store_nonnull |]. split.
  - apply (seg_relink m p l1 x next 0); [intros Hin; apply (Hdisj _ Hin); set_solver |].
    apply seg_app. exists x. split; [done |]. simpl. eauto.
  - eapply seg_same_except; [apply (same_except_insert [x]) | |]; [set_solver | set_solver | done].
Qed.

(** The two shapes of [PopRangeTail]: everything leaves, or a prefix that ends
    in [x] stays. *)
Lemma PopRangeTail_all m fl l n :
  FreeList_rep m fl l -> l <> [] -> Z.of_nat (length l) <= n -> exists c fl',
    PopRangeTail m fl n = Ok (c, fl', m) /\ chain_rep m c l /\
    FreeList_rep m fl' [] /\ same_quota fl fl'.
Proof.
  intros (Hs & Hsz & Hlt & Hmax) Hne Hn. unfold PopRangeTail.
  assert (length l <> 0%nat) by (by destruct l).
  replace (if n <? fl_size fl then n else fl_size fl) with (fl_size fl) by (case_cmp; lia).
  rewrite (proj2 (Z.eqb_neq _ 0)), Z.sub_diag by lia. simpl.
  destruct (chain_rep_suffix _ _ _ (fl_size fl) Hs) as (t & Hlast & Hc); [done | lia |].
  apply (last_node_fuel _ _ _ (Z.to_nat (fl_size fl))) in Hlast; [| lia].
  rewrite Hlast, bind_Ok_l. change (head_size_agree _) with true.
  rewrite AM_DCHECK_true, bind_Ok_l. do 2 eexists. split; [reflexivity |].
  split; [done |]. split; [split; [done | simpl; lia] | done].
Qed.

Lemma PopRangeTail_some m fl l1 x l2 n :
  FreeList_rep m fl (l1 ++ x :: l2) -> l2 <> [] -> n = Z.of_nat (length l2) -> exists c fl',
    PopRangeTail m fl n = Ok (c, fl', <[x:=0]> m) /\ chain_rep (<[x:=0]> m) c l2 /\
    FreeList_rep (<[x:=0]> m) fl' (l1 ++ [x]) /\ same_quota fl fl'.
Proof.
  intros (Hs & Hsz & Hlt & Hmax) Hne ->. unfold PopRangeTail.
  assert (length l2 <> 0%nat) by (by destruct l2). rewrite length_app in *. simpl in *.
  rewrite (proj2 (Z.ltb_lt _ (fl_size fl))), (proj2 (Z.eqb_neq _ 0)) by lia.
  replace (fl_size fl - Z.of_nat (length l2)) with (Z.of_nat (length (l1 ++ [x])))
    by (rewrite length_app; simpl; lia).
  replace (Z.to_nat _) with (length l1) by (rewrite length_app; simpl; lia).
  rewrite (next_n_seg _ _ _ _ _ _ Hs), bind_Ok_l.
  rewrite (proj2 (Z.eqb_neq _ 0)) by (rewrite length_app; simpl; lia).
  apply seg_cut in Hs as (next & -> & -> & Hpre & Hsuf). rewrite !bind_Ok_l.
  destruct (chain_rep_suffix _ _ _ (Z.of_nat (length l2)) Hsuf) as (t & Hlast & Hc); [done.. |].
  apply (last_node_fuel _ _ _ (Z.to_nat (fl_size fl))) in Hlast; [| lia].
  rewrite Hlast, bind_Ok_l.
  assert (Hrep' : FreeList_rep (<[x:=0]> m)
    (with_chain fl (fl_head fl) (Z.of_nat (length (l1 ++ [x])))) (l1 ++ [x])).
  { split; [done |]. rewrite length_app. simpl. lia. }
  rewrite (head_size_agree_rep _ _ _ Hrep'), AM_DCHECK_true, bind_Ok_l. do 2 eexists. split; [reflexivity |]. by repeat split; try apply Hc; try apply Hrep'.
Qed.

Lemma PopRangeTail_rep m fl l n :
  FreeList_rep m fl l -> 0 <= n -> let k := (length l - Z.to_nat n)%nat in
  exists c fl' m',
    PopRangeTail m fl n = Ok (c, fl', m') /\
    chain_rep m' c (drop k l) /\ FreeList_rep m' fl' (take k l) /\
    same_except (take k l) m m' /\ same_quota fl fl'.
Proof.
  intros Hrep Hn k. destruct (decide (drop k l = [])) as [Hd | Hd].
  - rewrite Hd. exists empty_chain, fl, m. pose proof Hrep as (Hs & Hsz & _).
    split; [| split; [done | split; [| done]]].
    + unfold PopRangeTail. apply (f_equal length) in Hd. rewrite length_drop in Hd.
      subst k. simpl in Hd. rewrite (proj2 (Z.eqb_eq _ 0)) by (case_cmp; lia). done.
    + rewrite <- (take_drop k l), Hd, app_nil_r in Hrep. done.
  - assert (Hlen : length (drop k l) <> 0%nat) by (by destruct (drop k l)).
    rewrite length_drop in Hlen. destruct k as [| k'] eqn:Ek.
    + rewrite drop_0 in *. simpl. destruct (PopRangeTail_all m fl l n) as (c & fl' & ? & ? & ? & ?);
        [done | done | lia |]. exists c, fl', m. done.
    + destruct (lookup_lt_is_Some_2 l k') as [x Hx]; [lia |].
      rewrite (take_S_r l k' x Hx). rewrite <- (take_drop_middle l k' x Hx) in Hrep.
      destruct (PopRangeTail_some m fl (take k' l) x (drop (S k') l) n)
        as (c & fl' & ? & ? & ? & ?); [done | done | rewrite length_drop; lia |].
      exists c, fl', (<[x:=0]> m). do 3 (split; [done |]).
      split; [apply same_except_insert; set_solver | done].
Qed.

(** *** Batches *)

Lemma IsCanonical_rep m head tail count idx l :
  chain_rep m (mkChain head tail count) l -> l <> [] -> 0 <= idx < kNumSizeClasses ->
  IsCanonical m (mkBatch head tail count idx) = Ok true.
Proof.
  intros (Hs & Ht & Hc) Hne Hidx. simpl in *.
  destruct l as [| t l _] using rev_ind; [done |]. rewrite last_snoc in Ht. simpl in Ht. subst tail.
  rewrite length_app in Hc. simpl in Hc. unfold IsCanonical. simpl.
  assert (Hh : (head =? 0) = false).
  { rewrite (seg_head_zero _ _ _ Hs). apply bool_decide_eq_false_2. by destruct l. }
  assert (Ht0 : t <> 0) by (eapply seg_nonzero; [exact Hs | set_solver]).
  rewrite Hh, (proj2 (Z.eqb_neq count 0)), (proj2 (Z.eqb_neq t 0)), (proj2 (Z.leb_gt _ _)) by lia.
  simpl. replace (Z.to_nat (count - 1)) with (length l) by lia.
  rewrite (walk_links_seg m head l t [] 0 Hs), bind_Ok_l, Z.eqb_refl.
  apply seg_app in Hs as (r & _ & -> & _ & next & Hnext & ->).
  unfold FreeBlock_next. by rewrite (load_Some _ _ _ Ht0 Hnext).
Qed.

Lemma make_batch_rep m head tail count idx l :
  chain_rep m (mkChain head tail count) l -> l <> [] -> 0 <= idx < kNumSizeClasses ->
  make_batch m head tail count idx = Ok (mkBatch head tail count idx) /\
  batch_rep m (mkBatch head tail count idx) idx l.
Proof.
  intros Hc Hne Hidx. unfold make_batch. rewrite (IsCanonical_rep _ _ _ _ _ _ Hc Hne Hidx).
  split; [by destruct debug_build |]. split; [done |]. split; [done |]. by destruct l.
Qed.

Lemma empty_batch_rep m idx : 0 <= idx < kNumSizeClasses -> batch_rep m empty_batch idx [].
Proof. intros Hidx. repeat split; lia. Qed.

Lemma batch_of_chain_rep m c idx l :
  chain_rep m c l -> 0 <= idx < kNumSizeClasses ->
  exists b, batch_of_chain m c idx = Ok b /\ batch_rep m b idx l.
Proof.
  intros Hc Hidx. unfold batch_of_chain. destruct c as [h t n]. pose proof Hc as (_ & _ & Hn).
  simpl in *. destruct (decide (l = [])) as [-> | Hne].
  - rewrite Hn. exists empty_batch. split; [done | by apply empty_batch_rep].
  - assert (length l <> 0%nat) by (by destruct l). rewrite (proj2 (Z.eqb_neq n 0)) by lia.
    destruct (make_batch_rep m h t n idx l Hc Hne Hidx) as [-> Hb]. eauto.
Qed.

Lemma batch_empty_rep m b idx l : batch_rep m b idx l -> batch_empty b = bool_decide (l = []).
Proof.
  intros ((_ & _ & Hn) & _). unfold batch_empty. simpl in Hn. rewrite Hn. by destruct l.
Qed.

(** Appending a chain in front of a list. *)
Lemma chain_prepend m fl head tail count bl l :
  chain_rep m (mkChain head tail count) bl -> bl <> [] -> FreeList_rep m fl l ->
  (forall a, a ∈ bl -> a ∉ l) -> Z.of_nat (length bl + length l) < W64 ->
  exists m', FreeBlock_set_next m tail (fl_head fl) = Ok m' /\
    FreeList_rep m' (with_chain fl head (u64 (fl_size fl + count))) (bl ++ l) /\
    same_except bl m m'.
Proof.
  intros (Hs & Ht & Hc) Hne (Hl & Hsz & Hlt & Hmax) Hd Hlen. simpl in *.
  destruct bl as [| t bl _] using rev_ind; [done |]. rewrite last_snoc in Ht. simpl in Ht. subst t.
  pose proof (seg_NoDup _ _ _ Hs) as (_ & Hdisj & _)%NoDup_app.
  assert (Ht0 : tail <> 0) by (eapply seg_nonzero; [exact Hs | set_solver]).
  exists (<[tail:=fl_head fl]> m). split; [by apply store_nonnull |].
  split; [| apply same_except_insert; set_solver]. split.
  - apply seg_app. exists (fl_head fl). split; [eapply seg_relink; [set_solver | exact Hs] |].
    eapply seg_same_except; [apply (same_except_insert [tail]) | |]; [set_solver | set_solver | done].
  - simpl. rewrite !length_app in *. simpl in *. rewrite u64_id; lia.
Qed.

Lemma PushBatch_rep m fl b idx bl l :
  batch_rep m b idx bl -> FreeList_rep m fl l ->
  (forall a, a ∈ bl -> a ∉ l) -> Z.of_nat (length bl + length l) < W64 ->
  exists fl' m', PushBatch m fl b = Ok (fl', m') /\ FreeList_rep m' fl' (bl ++ l) /\
    same_except bl m m' /\ same_quota fl fl'.
Proof.
  intros Hb Hl Hd Hlen. unfold PushBatch. rewrite (batch_empty_rep _ _ _ _ Hb).
  destruct (decide (bl = [])) as [-> | Hne]; [by exists fl, m |].
  rewrite bool_decide_eq_false_2 by done. destruct Hb as (Hc & _).
  destruct (chain_prepend _ fl _ _ _ _ l Hc Hne Hl Hd Hlen) as (m' & -> & Hrep & Hfr).
  rewrite bind_Ok_l. do 2 eexists. split; [reflexivity |]. done.
Qed.

Lemma PushRange_rep m fl c bl l :
  chain_rep m c bl -> FreeList_rep m fl l ->
  (forall a, a ∈ bl -> a ∉ l) -> Z.of_nat (length bl + length l) < W64 ->
  exists fl' m', PushRange m fl c = Ok (fl', m') /\ FreeList_rep m' fl' (bl ++ l) /\
    same_except bl m m' /\ same_quota fl fl'.
Proof.
  intros Hc Hl Hd Hlen. unfold PushRange. destruct c as [h t n].
  pose proof Hc as (Hs & Ht & Hn). simpl in Hs, Ht, Hn. cbn [fc_head fc_tail fc_count].
  destruct bl as [| x bl _] using rev_ind.
  { rewrite Hn, orb_true_r. by exists fl, m. }
  rewrite last_snoc in Ht. simpl in Ht. subst t. rewrite length_app in Hn. simpl in Hn.
  assert (Hx : x <> 0) by (eapply seg_nonzero; [exact Hs | set_solver]).
  assert (Hh : (h =? 0) = false).
  { rewrite (seg_head_zero _ _ _ Hs). apply bool_decide_eq_false_2. by destruct bl. }
  rewrite Hh, (proj2 (Z.eqb_neq x 0)), (proj2 (Z.eqb_neq n 0)) by lia. cbn [orb].
  pose proof (seg_NoDup _ _ _ Hs) as (_ & Hdisj & _)%NoDup_app.
  rewrite (CountChain_seg _ _ _ _ _ _ _ Hs), bind_Ok_l;
    [| intros Hin; apply (Hdisj _ Hin); set_solver | lia].
  rewrite (proj2 (Z.eqb_eq _ n)) by lia.
  replace (if debug_build then AM_CHECK true _ else Ok tt) with (Ok tt) by (by destruct debug_build).
  rewrite bind_Ok_l.
  destruct (chain_prepend m fl h x n (bl ++ [x]) l) as (m' & -> & Hrep & Hfr); [done | by destruct bl | done.. |].
  rewrite bind_Ok_l. do 2 eexists. split; [reflexivity |]. done.
Qed.

Lemma PopBatch_rep m fl l n idx :
  FreeList_rep m fl l -> 0 <= idx < kNumSizeClasses -> exists b fl' m',
    PopBatch m fl n idx = Ok (b, fl', m') /\
    batch_rep m' b idx (take (Z.to_nat n) l) /\ FreeList_rep m' fl' (drop (Z.to_nat n) l) /\
    same_except (take (Z.to_nat n) l) m m' /\ same_quota fl fl'.
Proof.
  intros Hrep Hidx. unfold PopBatch.
  destruct (PopRange_rep m fl l n Hrep) as (c & fl' & m' & -> & Hc & Hl & Hfr & Hq).
  rewrite bind_Ok_l. destruct (batch_of_chain_rep _ _ _ _ Hc Hidx) as (b & -> & Hb).
  by exists b, fl', m'.
Qed.

Lemma PopBatchTail_rep m fl l n idx :
  FreeList_rep m fl l -> 0 <= n -> 0 <= idx < kNumSizeClasses ->
  let k := (length l - Z.to_nat n)%nat in exists b fl' m',
    PopBatchTail m fl n idx = Ok (b, fl', m') /\
    batch_rep m' b idx (drop k l) /\ FreeList_rep m' fl' (take k l) /\
    same_except (take k l) m m' /\ same_quota fl fl'.
Proof.
  intros Hrep Hn Hidx k. unfold PopBatchTail.
  destruct (PopRangeTail_rep m fl l n Hrep Hn) as (c & fl' & m' & -> & Hc & Hl & Hfr & Hq).
  rewrite bind_Ok_l. destruct (batch_of_chain_rep _ _ _ _ Hc Hidx) as (b & -> & Hb).
  by exists b, fl', m'.
Qed.

End Checked.

(** ** Refinement to a stack of addresses *)

(** The calls other components make on one list. *)
Inductive fl_op :=
| FPush (p : Z)
| FPop
| FPopBatch (n : Z)
| FPopBatchTail (n : Z)
| FPushBatch (b : ObjectBatch) (contents : list Z).

(** Runs a call; the result is what leaves the list, as a pointer or a token. *)
Definition fl_exec `{Build} (idx : Z) (op : fl_op) (m : mem) (fl : FreeList)
    : outcome (ObjectBatch * Z * FreeList * mem) :=
  match op with
  | FPush p => '(fl, m) ← Push m fl p; Ok (empty_batch, 0, fl, m)
  | FPop => '(p, fl) ← Pop m fl; Ok (empty_batch, p, fl, m)
  | FPopBatch n => '(b, fl, m) ← PopBatch m fl n idx; Ok (b, 0, fl, m)
  | FPopBatchTail n => '(b, fl, m) ← PopBatchTail m fl n idx; Ok (b, 0, fl, m)
  | FPushBatch b _ => '(fl, m) ← PushBatch m fl b; Ok (empty_batch, 0, fl, m)
  end.

(** The same call on the stack [l]: the pointer returned, the objects detached
    as a batch, and the remaining stack. *)
Definition fl_spec (op : fl_op) (l : list Z) : Z * list Z * list Z :=
  match op with
  | FPush p => (0, [], p :: l)
  | FPop => (default 0 (head l), [], tail l)
  | FPopBatch n => (0, take (Z.to_nat n) l, drop (Z.to_nat n) l)
  | FPopBatchTail n =>
      let k := (length l - Z.to_nat n)%nat in (0, drop k l, take k l)
  | FPushBatch _ bl => (0, [], bl ++ l)
  end.

(** A pushed object or batch is valid, new to the list, and fits a [size_t]. *)
Definition fl_op_ok (m : mem) (idx : Z) (op : fl_op) (l : list Z) : Prop :=
  match op with
  | FPush p => p <> 0 /\ (p ∉ l) /\ Z.of_nat (length l) + 1 < W64
  | FPop => True
  | FPopBatch n | FPopBatchTail n => 0 <= n
  | FPushBatch b bl => batch_rep m b idx bl /\ (forall a, a ∈ bl -> a ∉ l) /\
                       Z.of_nat (length bl + length l) < W64
  end.

(** The addresses whose link a call may rewrite. *)
Definition fl_touched (op : fl_op) (l : list Z) : list Z :=
  match op with FPush p => p :: l | FPushBatch _ bl => bl ++ l | _ => l end.

(** ** Properties *)

(** C28: every [FreeList] call refines the corresponding operation on a LIFO
    stack of addresses, in every build: it raises no check and reads no
    uninitialised link, returns the objects the stack operation returns (front
    objects for [Pop] and [PopBatch], the oldest for [PopBatchTail], in order,
    as a canonical null-terminated chain of the exact count), leaves the rest
    linked, keeps the quota fields, and rewrites no word outside the objects
    involved. *)
Theorem FreeList_refines_stack `{Build} idx op m fl l :
  FreeList_rep m fl l -> 0 <= idx < kNumSizeClasses -> fl_op_ok m idx op l ->
  let '(p, out, l') := fl_spec op l in
  exists b fl' m', fl_exec idx op m fl = Ok (b, p, fl', m') /\
    FreeList_rep m' fl' l' /\ batch_rep m' b idx out /\
    same_except (fl_touched op l) m m' /\ same_quota fl fl'.
Proof.
  intros Hrep Hidx Hok. destruct op as [p | | n | n | b bl]; simpl in *.
  - destruct Hok as (Hp & Hnin & Hlen).
    destruct (Push_rep m fl l p) as (fl' & m' & -> & ? & Hfr & ?); [done.. |].
    exists empty_batch, fl', m'. split; [done |]. split; [done |].
    split; [by apply empty_batch_rep |]. split; [| done].
    eapply same_except_mono; [| exact Hfr]. set_solver.
  - destruct l as [| x l].
    + rewrite (Pop_rep_empty _ _ Hrep). exists empty_batch, fl, m.
      split; [done |]. split; [done |]. split; [by apply empty_batch_rep | done].
    + destruct (Pop_rep _ _ _ _ Hrep) as (fl' & -> & ? & ?). exists empty_batch, fl', m.
      split; [done |]. split; [done |]. split; [by apply empty_batch_rep | done].
  - destruct (PopBatch_rep m fl l n idx) as (b & fl' & m' & -> & ? & ? & Hfr & ?); [done.. |].
    exists b, fl', m'. do 3 (split; [done |]). split; [| done].
    eapply same_except_mono; [apply subseteq_take | exact Hfr].
  - destruct (PopBatchTail_rep m fl l n idx) as (b & fl' & m' & -> & ? & ? & Hfr & ?); [done.. |].
    exists b, fl', m'. do 3 (split; [done |]). split; [| done].
    eapply same_except_mono; [apply subseteq_take | exact Hfr].
  - destruct Hok as (Hb & Hd & Hlen).
    destruct (PushBatch_rep m fl b idx bl l) as (fl' & m' & -> & ? & Hfr & ?); [done.. |].
    exists empty_batch, fl', m'. split; [done |]. split; [done |].
    split; [by apply empty_batch_rep |]. split; [| done].
    eapply same_except_mono; [| exact Hfr]. set_solver.
Qed.

(** Three objects at 16, 32 and 48, the newest first. *)
Definition sample_mem : mem := list_to_map [(16, 0); (32, 16); (48, 32)].
Definition sample_list : FreeList := mkFreeList 48 3 4 1.

Lemma sample_list_rep : FreeList_rep sample_mem sample_list [48; 32; 16].
Proof.
  repeat split; try (vm_compute; congruence).
  exists 32. split; [done |]. repeat split; [lia |].
  exists 16. split; [done |]. repeat split; [lia |]. by exists 0.
Qed.

Lemma FreeList_refines_stack_witness :
  exists b fl' m', fl_exec (H := debug_build_config) 3 (FPopBatchTail 2) sample_mem sample_list
      = Ok (b, 0, fl', m') /\
    FreeList_rep m' fl' [48] /\ batch_rep m' b 3 [32; 16] /\
    same_except [48; 32; 16] sample_mem m' /\ same_quota sample_list fl'.
Proof.
  apply (FreeList_refines_stack (H := debug_build_config) 3 (FPopBatchTail 2) sample_mem
    sample_list [48; 32; 16] sample_list_rep); zdec.
Defined.

(** A batch token survives transport: detaching it for a queue and adopting
    the chain on the far side rebuilds the same token in every build, the
    source is left empty, and only the emptied source passes the destructor
    check of a debug build; moving behaves alike. *)
Theorem batch_transport_roundtrip `{Build} m b idx l :
  batch_rep m b idx l ->
  let '(chain, src) := DetachChainForTransport b in
  AdoptChain m chain idx = Ok b /\ src = empty_batch /\ batch_destroy src = Ok tt /\
  batch_move b = (b, empty_batch) /\
  (l <> [] -> debug_build = true -> batch_destroy b = Abort "empty()").
Proof.
  intros Hb. pose proof (batch_empty_rep _ _ _ _ Hb) as He.
  unfold DetachChainForTransport. destruct b as [h t c i]. pose proof Hb as ((Hs & Ht & Hc) & Hidx & Hi).
  cbn [ob_head ob_tail ob_count ob_size_class_idx fc_head fc_tail fc_count] in *.
  assert (Hlt : (idx <? kNumSizeClasses) = true) by (apply Z.ltb_lt; lia).
  rewrite He. destruct (decide (l = [])) as [-> | Hne].
  - simpl in *. subst. unfold AdoptChain. rewrite Hlt, AM_DCHECK_true. simpl.
    rewrite !AM_DCHECK_true. unfold batch_destroy. rewrite He. simpl. rewrite AM_DCHECK_true.
    split_and!; try done.
  - rewrite bool_decide_eq_false_2 by done. unfold AdoptChain. rewrite Hlt, AM_DCHECK_true.
    rewrite bind_Ok_l. cbn [fc_count fc_head fc_tail].
    assert (length l <> 0%nat) by (by destruct l). rewrite (proj2 (Z.eqb_neq c 0)) by lia.
    assert (i = idx) as -> by (by destruct l).
    destruct Hb as (Hb & _). destruct (make_batch_rep m h t c idx l Hb Hne Hidx) as [-> _].
    unfold batch_destroy. rewrite AM_DCHECK_true, He, bool_decide_eq_false_2 by done.
    split_and!; try done. intros _ Hdbg. unfold AM_DCHECK. by rewrite Hdbg.
Qed.

Definition sample_batch : ObjectBatch := mkBatch 48 16 3 2.

Lemma batch_transport_roundtrip_witness :
  AdoptChain (H := debug_build_config) sample_mem (mkChain 48 16 3) 2 = Ok sample_batch /\
  empty_batch = empty_batch /\ batch_destroy (H := debug_build_config) empty_batch = Ok tt /\
  batch_move sample_batch = (sample_batch, empty_batch) /\
  ([48; 32; 16] <> [] -> true = true ->
   batch_destroy (H := debug_build_config) sample_batch = Abort "empty()").
Proof.
  apply (batch_transport_roundtrip (H := debug_build_config) sample_mem sample_batch 2 [48; 32; 16]).
  split; [| zdec]. split; [apply sample_list_rep | zdec].
Defined.

(** [FromSingleObject] builds a canonical one-object batch: the object's
    link is terminated and nothing else is written; a null object gives the
    empty batch in release builds and aborts in debug builds. *)
Theorem FromSingleObject_spec `{Build} m object idx :
  0 <= idx < kNumSizeClasses ->
  (object <> 0 ->
     exists b m', FromSingleObject m object idx = Ok (b, m') /\
       batch_rep m' b idx [object] /\ same_except [object] m m') /\
  FromSingleObject m 0 idx =
    (if debug_build then Abort "object != nullptr" else Ok (empty_batch, m)).
Proof.
  intros Hidx. assert (Hlt : (idx <? kNumSizeClasses) = true) by (apply Z.ltb_lt; lia).
  unfold FromSingleObject. rewrite Hlt. split.
  - intros Ho. rewrite (proj2 (Z.eqb_neq object 0)) by done. simpl negb.
    rewrite !AM_DCHECK_true, !bind_Ok_l. unfold FreeBlock_set_next.
    rewrite store_nonnull, bind_Ok_l by done.
    destruct (make_batch_rep (<[object:=0]> m) object object 1 idx [object]) as [-> Hb];
      [| done | done |].
    { split; [| done]. simpl. split; [done |]. split; [done |]. exists 0.
      by rewrite lookup_insert_eq. }
    do 2 eexists. split; [reflexivity |]. split; [done |]. apply same_except_insert. set_solver.
  - unfold AM_DCHECK. by destruct debug_build.
Qed.

Lemma FromSingleObject_spec_witness :
  (160 <> 0 ->
     exists b m', FromSingleObject (H := debug_build_config) ∅ 160 5 = Ok (b, m') /\
       batch_rep m' b 5 [160] /\ same_except [160] ∅ m') /\
  FromSingleObject (H := debug_build_config) ∅ 0 5 = Abort "object != nullptr".
Proof. apply (FromSingleObject_spec (H := debug_build_config) ∅ 160 5). zdec. Defined.
