(* ===== verification/Common.v ===== *)
(** * Address helpers, string parsing and the runtime configuration
    (include/ammalloc/common.h, src/common.cpp, src/config.cpp)

    [AlignUp] and the page conversions are the arithmetic every page-level
    component uses; [ParseSize] and [ParseBool] read the environment values from
    which [RuntimeConfig] is built.  A C string is the list of its characters up
    to the terminating NUL; the character classes are those of the "C" locale. *)
From Stdlib Require Import Ascii.
From S2P Require Import Prelude Config.
Open Scope Z_scope.

(** ** Addresses *)

Definition AlignUp (size align : Z) : Z :=
  if size =? 0 then align
  else if has_single_bit align
  then Z.land (u64 (u64 (size + align) - 1)) (u64 (Z.lnot (u64 (align - 1))))
  else u64 (u64 (u64 (size + align) - 1) / align * align).

Definition PtrToPageId (addr : Z) : Z := Z.shiftr addr PAGE_SHIFT.
Definition PageIDToPtr (page_idx : Z) : Z := u64 (Z.shiftl page_idx PAGE_SHIFT).

(** ** Characters *)

Abbreviation cstring := (list ascii).
Definition cstr (s : string) : cstring := String.list_ascii_of_string s.

Definition char_code (c : ascii) : Z := Z.of_N (N_of_ascii c).
Definition isspace (c : ascii) : bool :=
  (char_code c =? 32) || ((9 <=? char_code c) && (char_code c <=? 13)).
Definition isdigit (c : ascii) : bool := (48 <=? char_code c) && (char_code c <=? 57).
Definition tolower (c : ascii) : Z :=
  if (65 <=? char_code c) && (char_code c <=? 90) then char_code c + 32 else char_code c.

Fixpoint skip_spaces (s : cstring) : cstring :=
  match s with
  | c :: s' => if isspace c then skip_spaces s' else s
  | [] => []
  end.

(** ** [strtoul] in base 10 (C standard library)

    Leading white space, one optional sign, then digits; without a digit nothing
    is consumed.  An unrepresentable magnitude gives [ULONG_MAX], a minus sign
    negates in the unsigned type. *)
Fixpoint scan_digits (acc : Z) (s : cstring) : Z * cstring :=
  match s with
  | c :: s' => if isdigit c then scan_digits (acc * 10 + (char_code c - 48)) s' else (acc, s)
  | [] => (acc, [])
  end.

Definition scan_sign (s : cstring) : bool * cstring :=
  match s with
  | c :: s' => if char_code c =? 45 then (true, s')
               else if char_code c =? 43 then (false, s') else (false, s)
  | [] => (false, [])
  end.

(** [None]: no conversion, [*end_ptr == str]. *)
Definition strtoul (str : cstring) : option (Z * cstring) :=
  let '(neg, s) := scan_sign (skip_spaces str) in
  match s with
  | c :: _ =>
      if isdigit c
      then let '(v, rest) := scan_digits 0 s in
           Some (if SIZE_MAX <? v then SIZE_MAX else if neg then u64 (- v) else v, rest)
      else None
  | [] => None
  end.

(** ** [ParseSize] and [ParseBool] *)

(** The [switch] on the unit character; [None] is its default. *)
Definition unit_multiplier (c : ascii) : option Z :=
  let k := tolower c in
  if k =? 98 then Some 1
  else if k =? 107 then Some (Z.shiftl 1 10)
  else if k =? 109 then Some (Z.shiftl 1 20)
  else if k =? 103 then Some (Z.shiftl 1 30)
  else if k =? 116 then Some (Z.shiftl 1 40)
  else None.

Definition ParseSize (str : option cstring) : Z :=
  match str with
  | None | Some [] => 0
  | Some s =>
      match strtoul s with
      | None => 0
      | Some (value, end_ptr) =>
          match skip_spaces end_ptr with
          | [] => value
          | c :: _ =>
              match unit_multiplier c with
              | None => value
              | Some multiplier =>
                  if SIZE_MAX / multiplier <? value then SIZE_MAX
                  else u64 (multiplier * value)
              end
          end
      end
  end.

(** [std::equal] of two views of equal size, up to case. *)
Fixpoint is_equal (a b : cstring) : bool :=
  match a, b with
  | [], [] => true
  | x :: a', y :: b' => (tolower x =? tolower y) && is_equal a' b'
  | _, _ => false
  end.

Definition ParseBool (str : option cstring) : bool :=
  match str with
  | None => false
  | Some s =>
      let sv := rev (skip_spaces (rev (skip_spaces s))) in
      match sv with
      | [] => false
      | _ => if bool_decide (sv = cstr "1") then true
             else is_equal sv (cstr "true") || is_equal sv (cstr "on") || is_equal sv (cstr "yes")
      end
  end.

(** ** Runtime configuration *)

Record RuntimeConfig := mkRuntimeConfig {
  max_tc_size_ : Z; use_map_populate_ : bool; enable_scavenger_ : bool
}.

Definition RuntimeConfig_default : RuntimeConfig := mkRuntimeConfig MAX_TC_SIZE false true.

(** [env] is [std::getenv]: [None] for a variable that is not set. *)
Definition InitFromEnv (env : string -> option cstring) (c : RuntimeConfig) : RuntimeConfig :=
  let c :=
    match env "AM_TC_SIZE"%string with
    | Some e =>
        let val := ParseSize (Some e) in
        if 0 <? val
        then mkRuntimeConfig (if val <? MAX_TC_SIZE then val else MAX_TC_SIZE)
               (use_map_populate_ c) (enable_scavenger_ c)
        else c
    | None => c
    end in
  let c :=
    match env "AM_USE_MAP_POPULATE"%string with
    | Some e => mkRuntimeConfig (max_tc_size_ c) (ParseBool (Some e)) (enable_scavenger_ c)
    | None => c
    end in
  match env "AM_ENABLE_SCAVENGER"%string with
  | Some e => mkRuntimeConfig (max_tc_size_ c) (use_map_populate_ c) (ParseBool (Some e))
  | None => c
  end.

(** The constructor, run once by [GetInstance]. *)
Definition RuntimeConfig_new (env : string -> option cstring) : RuntimeConfig :=
  InitFromEnv env RuntimeConfig_default.

(** ** Lemmas *)

Lemma has_single_bit_pow2 k : 0 <= k -> has_single_bit (2 ^ k) = true.
Proof.
  intros Hk. assert (0 < 2 ^ k) by (apply Z.pow_pos_nonneg; lia).
  unfold has_single_bit. rewrite (proj2 (Z.ltb_lt 0 _)) by lia.
  apply Z.eqb_eq. rewrite Z.sub_1_r, <- Z.ones_equiv, Z.land_ones by lia.
  apply Z.mod_same. lia.
Qed.

(** A power-of-two mask clears the remainder. *)
Lemma land_lnot_ones x k :
  0 <= x < W64 -> 0 <= k < 64 -> Z.land x (u64 (Z.lnot (2 ^ k - 1))) = x / 2 ^ k * 2 ^ k.
Proof.
  intros Hx Hk. unfold u64. change 18446744073709551616 with (2 ^ 64).
  rewrite <- (Z.land_ones _ 64) by lia. rewrite Z.sub_1_r, <- Z.ones_equiv.
  rewrite (Z.land_comm (Z.lnot _)), Z.land_assoc, Z.land_ones, Z.mod_small by lia.
  change (Z.land x (Z.lnot (Z.ones k))) with (Z.land x (Z.lnot (Z.ones k))).
  rewrite <- Z.ldiff_land, Z.ldiff_ones_r by lia.
  by rewrite Z.shiftl_mul_pow2, Z.shiftr_div_pow2 by lia.
Qed.

(** Without wrap-around the two branches compute the same multiple. *)
Lemma AlignUp_pow2 size k :
  0 < size -> 0 <= k < 64 -> size + 2 ^ k < W64 ->
  AlignUp size (2 ^ k) = (size + 2 ^ k - 1) / 2 ^ k * 2 ^ k.
Proof.
  intros Hs Hk Hle. assert (0 < 2 ^ k) by (apply Z.pow_pos_nonneg; lia).
  unfold AlignUp. case_cmp; [lia |]. rewrite has_single_bit_pow2 by lia.
  rewrite (u64_id (size + 2 ^ k)), (u64_id (2 ^ k - 1)), (u64_id (size + 2 ^ k - 1)) by lia.
  by rewrite land_lnot_ones by lia.
Qed.

Lemma div_mul_ceil s a : 0 < a ->
  s <= (s + a - 1) / a * a < s + a /\ (a | (s + a - 1) / a * a).
Proof.
  intros Ha. split; [| apply Z.divide_factor_r].
  pose proof (Z.div_mod (s + a - 1) a ltac:(lia)).
  pose proof (Z.mod_pos_bound (s + a - 1) a Ha). nia.
Qed.

(** A power of two is [2^k] for its [countr_zero]. *)
Lemma has_single_bit_inv x :
  has_single_bit x = true -> 0 < x /\ 0 <= countr_zero x /\ x = 2 ^ countr_zero x.
Proof.
  unfold has_single_bit. intros Hx. bool_facts. rename H into Hpos, H0 into Hland.
  destruct (countr_zero_spec x) as (Hk & Hb & _); [lia |].
  pose proof (Z.log2_nonneg x). pose proof (Z.log2_spec x Hpos) as [Hlo Hhi].
  assert (Hx : x = 2 ^ Z.log2 x).
  { destruct (Z.eqb_spec x (2 ^ Z.log2 x)) as [| Hne]; [done | exfalso].
    assert (Hl : Z.log2 (x - 1) = Z.log2 x) by (apply Z.log2_unique; lia).
    assert (Hbit : Z.testbit (Z.land x (x - 1)) (Z.log2 x) = true).
    { rewrite Z.land_spec, Z.bit_log2 by lia. rewrite <- Hl. by rewrite Z.bit_log2 by lia. }
    by rewrite Hland, Z.bits_0 in Hbit. }
  split; [done |]. split; [done |]. rewrite Hx in Hb at 1.
  rewrite Z.pow2_bits_eqb in Hb by done. apply Z.eqb_eq in Hb. by rewrite <- Hb.
Qed.

(** Without wrap-around the two branches of [AlignUp] agree. *)
Lemma AlignUp_div size align :
  0 < size -> 0 < align -> size + align < W64 ->
  AlignUp size align = (size + align - 1) / align * align.
Proof.
  intros Hs Ha Hno. destruct (has_single_bit align) eqn:Hb.
  - destruct (has_single_bit_inv _ Hb) as (_ & Hk & Heq).
    remember (countr_zero align) as k. subst align. apply AlignUp_pow2; [lia | | lia].
    split; [done |]. apply Z.pow_lt_mono_r_iff with 2; [lia.. |]. change (2 ^ 64) with W64. lia.
  - unfold AlignUp. case_cmp; [lia |]. rewrite Hb.
    rewrite (u64_id (size + align)), (u64_id (size + align - 1)) by lia.
    pose proof (div_mul_ceil size align Ha). apply u64_id. lia.
Qed.

(** *** Scanning *)

Definition all_space (s : cstring) : Prop := Forall (fun c => isspace c = true) s.
Definition all_digit (s : cstring) : Prop := Forall (fun c => isdigit c = true) s.
Definition decimal (acc : Z) (ds : cstring) : Z :=
  foldl (fun v c => v * 10 + (char_code c - 48)) acc ds.
(** [s] does not start with a character of the class. *)
Definition no_head (cls : ascii -> bool) (s : cstring) : Prop :=
  match s with [] => True | c :: _ => cls c = false end.

Lemma skip_spaces_app sp s : all_space sp -> no_head isspace s -> skip_spaces (sp ++ s) = s.
Proof.
  intros Hsp Hs. induction Hsp as [| c sp Hc Hsp IH]; simpl.
  - destruct s as [| c s]; [done |]. simpl in *. by rewrite Hs.
  - by rewrite Hc.
Qed.

Lemma scan_digits_app ds s acc :
  all_digit ds -> no_head isdigit s -> scan_digits acc (ds ++ s) = (decimal acc ds, s).
Proof.
  intros Hds Hs. revert acc. induction Hds as [| c ds Hc Hds IH]; intros acc; simpl.
  - destruct s as [| c s]; [done |]. simpl in *. by rewrite Hs.
  - by rewrite Hc, IH.
Qed.

Lemma isdigit_range c : isdigit c = true -> 48 <= char_code c <= 57.
Proof. unfold isdigit. intros. bool_facts. lia. Qed.

Lemma decimal_nonneg ds acc : 0 <= acc -> all_digit ds -> 0 <= decimal acc ds.
Proof.
  intros Hacc Hds. revert acc Hacc. induction Hds as [| c ds Hc Hds IH]; intros acc Hacc; [done |].
  apply IH. apply isdigit_range in Hc. lia.
Qed.

Lemma isdigit_not_space c : isdigit c = true -> isspace c = false.
Proof.
  intros Hc%isdigit_range. unfold isspace. apply orb_false_iff.
  split; [apply Z.eqb_neq; lia | apply andb_false_iff; right; apply Z.leb_gt; lia].
Qed.

(** The optional sign character. *)
Definition sign_str (neg : option bool) : cstring :=
  match neg with None => [] | Some true => cstr "-" | Some false => cstr "+" end.

Lemma strtoul_spec sp neg ds s :
  all_space sp -> ds <> [] -> all_digit ds -> no_head isdigit s ->
  strtoul (sp ++ sign_str neg ++ ds ++ s) =
    Some (if SIZE_MAX <? decimal 0 ds then SIZE_MAX
          else if bool_decide (neg = Some true) then u64 (- decimal 0 ds) else decimal 0 ds, s).
Proof.
  intros Hsp Hne Hds Hs. destruct ds as [| c ds]; [done |].
  pose proof (Forall_inv Hds) as Hc. unfold strtoul. rewrite skip_spaces_app; [| done |].
  2:{ destruct neg as [[] |]; try done. simpl. by apply isdigit_not_space. }
  assert (Hsg : scan_sign (sign_str neg ++ (c :: ds) ++ s)
                = (bool_decide (neg = Some true), (c :: ds) ++ s)).
  { destruct neg as [[] |]; try done. simpl. pose proof (isdigit_range _ Hc).
    rewrite (proj2 (Z.eqb_neq _ 45)), (proj2 (Z.eqb_neq _ 43)) by lia. done. }
  rewrite Hsg. cbn [app]. rewrite Hc. change (c :: ds ++ s) with ((c :: ds) ++ s).
  by rewrite scan_digits_app.
Qed.

Definition is_sign_space_digit (c : ascii) : bool :=
  isspace c || isdigit c || (char_code c =? 45) || (char_code c =? 43).

Lemma strtoul_none sp neg junk :
  all_space sp -> no_head is_sign_space_digit junk -> strtoul (sp ++ sign_str neg ++ junk) = None.
Proof.
  intros Hsp Hj. unfold strtoul. destruct junk as [| c junk].
  - rewrite skip_spaces_app; [| done | by destruct neg as [[] |]]. by destruct neg as [[] |].
  - simpl in Hj. unfold is_sign_space_digit in Hj. bool_facts.
    rewrite skip_spaces_app; [| done | by destruct neg as [[] |]].
    assert (scan_sign (sign_str neg ++ c :: junk) = (bool_decide (neg = Some true), c :: junk)) as ->.
    { destruct neg as [[] |]; try done. simpl. repeat case_cmp; done. }
    by destruct (isdigit c).
Qed.

Lemma unit_multiplier_pos c mult : unit_multiplier c = Some mult -> 1 <= mult < W64.
Proof. unfold unit_multiplier. repeat case_cmp; intros; simplify_eq; zdec. Qed.

(** The overflow guard of [ParseSize] is exact. *)
Lemma saturating_mul_spec mult v :
  1 <= mult -> 0 <= v <= SIZE_MAX ->
  (if SIZE_MAX / mult <? v then SIZE_MAX else u64 (mult * v)) = Z.min (mult * v) SIZE_MAX.
Proof.
  unfold SIZE_MAX. intros Hm Hv. case_cmp.
  - pose proof (Z.div_lt_upper_bound 18446744073709551615 mult v). 
    assert (18446744073709551615 < mult * v).
    { apply Z.nle_gt. intros ?. assert (v <= 18446744073709551615 / mult); [| lia].
      apply Z.div_le_lower_bound; lia. }
    lia.
  - assert (mult * v <= 18446744073709551615).
    { pose proof (Z.mul_div_le 18446744073709551615 mult ltac:(lia)). nia. }
    rewrite u64_id by lia. lia.
Qed.

Lemma strtoul_nonneg s v rest : strtoul s = Some (v, rest) -> 0 <= v.
Proof.
  unfold strtoul. destruct (scan_sign _) as [neg [| c s']]; [done |].
  destruct (isdigit c); [| done].
  assert (Hge : forall s acc, 0 <= acc -> 0 <= (scan_digits acc s).1).
  { clear. induction s as [| c s IH]; intros acc Hacc; [done |]. simpl.
    destruct (isdigit c) eqn:Hc; [| done]. apply isdigit_range in Hc. apply IH; lia. }
  specialize (Hge (c :: s') 0 ltac:(lia)). destruct (scan_digits 0 _) as [w r]. simpl in Hge.
  intros [= <- <-]. pose proof (u64_range (- w)). unfold SIZE_MAX.
  case_cmp; [lia |]. destruct neg; lia.
Qed.

Lemma ParseSize_nonneg s : 0 <= ParseSize s.
Proof.
  unfold ParseSize. destruct s as [[| c s] |]; try lia.
  destruct (strtoul _) as [[v r] |] eqn:Hs; [| lia]. apply strtoul_nonneg in Hs.
  destruct (skip_spaces r) as [| u r']; [done |].
  destruct (unit_multiplier u); [| done]. pose proof (u64_range (z * v)). unfold SIZE_MAX.
  case_cmp; lia.
Qed.

(** *** Case-insensitive words *)

Definition lower (s : cstring) : list Z := tolower <$> s.

Lemma is_equal_lower a b : is_equal a b = bool_decide (lower a = lower b).
Proof.
  revert b. induction a as [| x a IH]; intros [| y b]; try done. simpl. rewrite IH.
  destruct (Z.eqb_spec (tolower x) (tolower y)); simpl.
  - apply bool_decide_ext. unfold lower. simpl. split; congruence.
  - symmetry. apply bool_decide_eq_false. unfold lower. simpl. congruence.
Qed.

(** Trimming removes exactly the white space around a word. *)
Lemma trim_app sp1 core sp2 :
  all_space sp1 -> all_space sp2 -> no_head isspace core -> no_head isspace (rev core) ->
  rev (skip_spaces (rev (skip_spaces (sp1 ++ core ++ sp2)))) = core.
Proof.
  intros H1 H2 Hh Hl. destruct core as [| c core].
  - rewrite app_nil_l. rewrite <- (app_nil_r (sp1 ++ sp2)), skip_spaces_app;
      [done | by apply Forall_app | done].
  - rewrite skip_spaces_app by done. rewrite rev_app_distr, skip_spaces_app.
    + apply rev_involutive.
    + by apply Forall_rev.
    + done.
Qed.

Lemma lower_one sv : lower sv = lower (cstr "1") -> sv = cstr "1".
Proof.
  destruct sv as [| c [| d sv]]; intros H; simplify_eq/=. f_equal.
  unfold tolower in H at 1. change (tolower "1") with 49 in H.
  assert (char_code c = 49) as Hc by (destruct (_ && _) eqn:E in H; bool_facts; lia).
  unfold char_code in Hc. rewrite <- (ascii_N_embedding c).
  replace (N_of_ascii c) with 49%N by lia. done.
Qed.

(** ** Properties *)

(** [ParseSize] reads a byte count exactly.  Optional white space, an
    optional sign, a digit string of any length, white space and a unit letter
    give the number times the unit, saturated at [SIZE_MAX]; unknown suffixes
    are ignored; a minus sign wraps a representable number before the unit is
    applied; null and non-numeric input give zero. *)
Theorem ParseSize_spec sp1 neg ds sp2 suffix junk :
  all_space sp1 -> ds <> [] -> all_digit ds -> all_space sp2 ->
  no_head isspace suffix -> no_head isdigit (sp2 ++ suffix) ->
  no_head is_sign_space_digit junk ->
  let magnitude := Z.min (decimal 0 ds) SIZE_MAX in
  let value := if bool_decide (neg = Some true) && (decimal 0 ds <=? SIZE_MAX)
               then u64 (- magnitude) else magnitude in
  let mult := default 1 (head suffix ≫= unit_multiplier) in
  ParseSize (Some (sp1 ++ sign_str neg ++ ds ++ sp2 ++ suffix)) = Z.min (mult * value) SIZE_MAX
  /\ ParseSize (Some (sp1 ++ sign_str neg ++ junk)) = 0
  /\ ParseSize None = 0.
Proof.
  intros H1 Hne Hds H2 Hsu Hnd Hj magnitude value mult.
  split; [| split; [| done]].
  2:{ unfold ParseSize. rewrite strtoul_none by done. by destruct (sp1 ++ _). }
  pose proof (decimal_nonneg ds 0 ltac:(lia) Hds) as Hnn.
  unfold ParseSize. destruct (sp1 ++ _) as [| c s] eqn:E.
  { apply app_eq_nil in E as [_ E]. destruct neg as [[] |], ds; done. }
  rewrite <- E, strtoul_spec by done. clear E.
  assert (Hv : (if SIZE_MAX <? decimal 0 ds then SIZE_MAX
     else if bool_decide (neg = Some true) then u64 (- decimal 0 ds) else decimal 0 ds) = value).
  { subst value magnitude. destruct (bool_decide _); simpl; repeat case_cmp; try lia.
    f_equal. lia. }
  rewrite Hv, skip_spaces_app by done.
  assert (0 <= value <= SIZE_MAX).
  { subst value magnitude. unfold SIZE_MAX.
    pose proof (u64_range (- Z.min (decimal 0 ds) 18446744073709551615)).
    destruct (_ && _); lia. }
  clear Hv. clearbody value. subst mult. destruct suffix as [| u suffix]; cbn -[Z.mul SIZE_MAX]; [lia |].
  destruct (unit_multiplier u) as [mult |] eqn:Hu; cbn -[Z.mul SIZE_MAX]; [| lia].
  apply saturating_mul_spec; [| done]. apply unit_multiplier_pos in Hu. lia.
Qed.

Lemma ParseSize_spec_witness :
  ParseSize (Some (cstr " +16 Mb")) = 16777216 /\ ParseSize (Some (cstr " +Mb")) = 0 /\ ParseSize None = 0.
Proof.
  apply (ParseSize_spec (cstr " ") (Some false) (cstr "16") (cstr " ") (cstr "Mb") (cstr "Mb"));
    try done; by repeat constructor.
Defined.

(** [ParseBool] accepts exactly the words 1, true, on and yes, in any case
    and with white space around them. *)
Theorem ParseBool_spec sp1 core sp2 :
  all_space sp1 -> all_space sp2 -> no_head isspace core -> no_head isspace (rev core) ->
  ParseBool (Some (sp1 ++ core ++ sp2)) =
    bool_decide (lower core ∈ [lower (cstr "1"); lower (cstr "true");
                               lower (cstr "on"); lower (cstr "yes")])
  /\ ParseBool None = false.
Proof.
  intros H1 H2 Hh Hl. split; [| done]. unfold ParseBool. rewrite trim_app by done.
  destruct core as [| c core]; [by rewrite bool_decide_eq_false_2 by set_solver |].
  remember (c :: core) as sv eqn:Hsv. clear Hsv. rewrite !is_equal_lower.
  symmetry. destruct (bool_decide (sv = cstr "1")) eqn:E1.
  - apply bool_decide_eq_true in E1 as ->. apply bool_decide_eq_true. set_solver.
  - apply bool_decide_eq_false in E1. rewrite <- !bool_decide_or. apply bool_decide_ext.
    pose proof (lower_one sv). set_solver.
Qed.

Lemma ParseBool_spec_witness :
  ParseBool (Some (cstr " YES ")) = true /\ ParseBool None = false.
Proof.
  apply (ParseBool_spec (cstr " ") (cstr "YES") (cstr " ")); try done; by repeat constructor.
Defined.

(** Whatever the environment holds, the configured thread-cache limit lies
    in [[1, MAX_TC_SIZE]]: it is the parsed size clamped from above, the default
    when the variable is unset or parses to zero; the flags follow their
    variables and otherwise default to off and on. *)
Theorem RuntimeConfig_bounds env :
  let c := RuntimeConfig_new env in
  let tc := ParseSize (env "AM_TC_SIZE"%string) in
  1 <= max_tc_size_ c <= MAX_TC_SIZE /\
  max_tc_size_ c = (if tc =? 0 then MAX_TC_SIZE else Z.min tc MAX_TC_SIZE) /\
  use_map_populate_ c = ParseBool (env "AM_USE_MAP_POPULATE"%string) /\
  enable_scavenger_ c =
    (if decide (env "AM_ENABLE_SCAVENGER"%string = None) then true
     else ParseBool (env "AM_ENABLE_SCAVENGER"%string)).
Proof.
  intros c tc. assert (Htc : 0 <= tc) by apply ParseSize_nonneg.
  subst c tc. unfold RuntimeConfig_new, InitFromEnv, RuntimeConfig_default, MAX_TC_SIZE in *.
  destruct (env "AM_TC_SIZE"%string) as [e1 |], (env "AM_USE_MAP_POPULATE"%string) as [e2 |],
    (env "AM_ENABLE_SCAVENGER"%string) as [e3 |];
    cbn -[ParseSize ParseBool Z.min Z.eqb Z.ltb] in *;
    change (ParseSize None) with 0 in *; change (ParseBool None) with false in *;
    repeat case_cmp; cbn -[ParseSize ParseBool Z.min] in *;
    (split_and!; [lia.. | done | done]).
Qed.

(** [AlignUp] returns the least multiple of any positive alignment that
    covers the size when the sum stays below [2^64]; a zero size takes one
    unit; a power-of-two request in the last unit of the address space wraps to
    zero instead. *)
Theorem AlignUp_spec size align :
  0 <= size < W64 -> 0 < align < W64 ->
  AlignUp 0 align = align /\
  (0 < size -> size + align < W64 ->
     size <= AlignUp size align < size + align /\ (align | AlignUp size align)) /\
  (forall k, 0 <= k < 64 -> align = 2 ^ k -> W64 - align < size -> AlignUp size align = 0).
Proof.
  intros Hs Ha. split; [done |]. split.
  - intros H0 Hno. rewrite AlignUp_div by lia. apply div_mul_ceil; lia.
  - intros k Hk -> Hw. assert (0 < 2 ^ k) by (apply Z.pow_pos_nonneg; lia).
    unfold AlignUp. case_cmp; [lia |]. rewrite has_single_bit_pow2 by lia.
    assert (Hsum : u64 (u64 (size + 2 ^ k) - 1) = size + 2 ^ k - 1 - W64).
    { unfold u64 at 2. rewrite (Z.mod_eq (size + 2 ^ k)) by lia.
      replace ((size + 2 ^ k) / 18446744073709551616) with 1; [rewrite u64_id; lia |].
      apply Z.div_unique with (size + 2 ^ k - W64); lia. }
    rewrite Hsum, (u64_id (2 ^ k - 1)) by lia. rewrite land_lnot_ones by lia.
    rewrite Z.div_small by lia. done.
Qed.

Lemma AlignUp_spec_witness :
  AlignUp 0 4096 = 4096 /\
  (0 < 5000 -> 5000 + 4096 < W64 ->
     5000 <= AlignUp 5000 4096 < 5000 + 4096 /\ (4096 | AlignUp 5000 4096)) /\
  (forall k, 0 <= k < 64 -> 4096 = 2 ^ k -> W64 - 4096 < 5000 -> AlignUp 5000 4096 = 0).
Proof. apply (AlignUp_spec 5000 4096); lia. Defined.
