(* ===== verification/Span.v ===== *)
(** * Spans (include/ammalloc/span.h, src/span.cpp)

    A [Span] describes a run of pages.  When a central cache carves it into
    objects, the first words of the run hold a bitmap whose set bits are the free
    slots.  [ComputeSpanLayout] fixes the geometry, [Init] writes the bitmap,
    [AllocObject] and [FreeObject] move slots in and out of it.  The theorems
    relate them to the set of free slot numbers. *)
From S2P Require Import Prelude Config SizeClass Common.
Open Scope Z_scope.

(** ** Metadata *)

Record Span := mkSpan {
  sp_next : Z; sp_prev : Z;
  start_page_idx : Z; page_num : Z;
  flags : Z; size_class_idx : Z;
  aligned_obj_size : Z; capacity : Z; use_count : Z; scan_cursor : Z;
  obj_offset : Z; owner_shard_id : Z;
  last_used_time_ms : Z
}.

Definition kUsedMask : Z := Z.shiftl 1 0.
Definition kCommittedMask : Z := Z.shiftl 1 1.

(** [Span(start_page_idx_, page_num_)]; every other member is zero. *)
Definition Span_new (start num : Z) : Span := mkSpan 0 0 start num 0 0 0 0 0 0 0 0 0.

(** Assignments to groups of members. *)
Definition with_links (s : Span) (nxt prv : Z) : Span :=
  mkSpan nxt prv (start_page_idx s) (page_num s) (flags s) (size_class_idx s)
    (aligned_obj_size s) (capacity s) (use_count s) (scan_cursor s) (obj_offset s)
    (owner_shard_id s) (last_used_time_ms s).
Definition with_pages (s : Span) (start num : Z) : Span :=
  mkSpan (sp_next s) (sp_prev s) start num (flags s) (size_class_idx s)
    (aligned_obj_size s) (capacity s) (use_count s) (scan_cursor s) (obj_offset s)
    (owner_shard_id s) (last_used_time_ms s).
Definition with_flags (s : Span) (f : Z) : Span :=
  mkSpan (sp_next s) (sp_prev s) (start_page_idx s) (page_num s) f (size_class_idx s)
    (aligned_obj_size s) (capacity s) (use_count s) (scan_cursor s) (obj_offset s)
    (owner_shard_id s) (last_used_time_ms s).
Definition with_grid (s : Span) (idx size cap off : Z) : Span :=
  mkSpan (sp_next s) (sp_prev s) (start_page_idx s) (page_num s) (flags s) idx
    size cap (use_count s) (scan_cursor s) off (owner_shard_id s) (last_used_time_ms s).
Definition with_usage (s : Span) (count cursor : Z) : Span :=
  mkSpan (sp_next s) (sp_prev s) (start_page_idx s) (page_num s) (flags s) (size_class_idx s)
    (aligned_obj_size s) (capacity s) count cursor (obj_offset s)
    (owner_shard_id s) (last_used_time_ms s).
Definition with_owner (s : Span) (shard : Z) : Span :=
  mkSpan (sp_next s) (sp_prev s) (start_page_idx s) (page_num s) (flags s) (size_class_idx s)
    (aligned_obj_size s) (capacity s) (use_count s) (scan_cursor s) (obj_offset s)
    shard (last_used_time_ms s).
Definition with_time (s : Span) (t : Z) : Span :=
  mkSpan (sp_next s) (sp_prev s) (start_page_idx s) (page_num s) (flags s) (size_class_idx s)
    (aligned_obj_size s) (capacity s) (use_count s) (scan_cursor s) (obj_offset s)
    (owner_shard_id s) t.

Definition IsUsed (s : Span) : bool := negb (Z.land (flags s) kUsedMask =? 0).
Definition IsCommitted (s : Span) : bool := negb (Z.land (flags s) kCommittedMask =? 0).
Definition IsFull (s : Span) : bool := capacity s <=? use_count s.

Definition SetUsed (s : Span) (used : bool) : Span :=
  with_flags s (u16 (Z.lor (Z.land (flags s) (Z.lnot kUsedMask)) (if used then kUsedMask else 0))).
Definition SetCommitted (s : Span) (committed : bool) : Span :=
  with_flags s (u16 (Z.lor (Z.land (flags s) (Z.lnot kCommittedMask))
                           (if committed then kCommittedMask else 0))).

Definition GetPageBaseAddr (s : Span) : Z := u64 (Z.shiftl (start_page_idx s) PAGE_SHIFT).
Definition GetBitmap (s : Span) : Z := GetPageBaseAddr s.
Definition GetBitmapNum (s : Span) : Z := Z.shiftr (u64 (capacity s + BITMAP_MASK)) BITMAP_SHIFT.
Definition GetDataBasePtr (s : Span) : Z := u64 (GetPageBaseAddr s + obj_offset s).

(** The flag members behave as two independent booleans. *)
Lemma flag_bit v j (b : bool) :
  0 <= j < 16 ->
  Z.testbit (u16 (Z.lor (Z.land v (Z.lnot (Z.shiftl 1 j))) (if b then Z.shiftl 1 j else 0))) j = b /\
  forall i, 0 <= i < 16 -> i <> j ->
    Z.testbit (u16 (Z.lor (Z.land v (Z.lnot (Z.shiftl 1 j))) (if b then Z.shiftl 1 j else 0))) i
      = Z.testbit v i.
Proof.
  intros Hj. unfold u16. change 65536 with (2 ^ 16).
  assert (Hb : forall i, 0 <= i < 16 ->
    Z.testbit (Z.lor (Z.land v (Z.lnot (Z.shiftl 1 j))) (if b then Z.shiftl 1 j else 0) mod 2 ^ 16) i
      = (Z.testbit v i && negb (j =? i)) || (b && (j =? i))).
  { intros i Hi. rewrite Z.mod_pow2_bits_low, Z.lor_spec, Z.land_spec, Z.lnot_spec by lia.
    rewrite Z.shiftl_1_l, Z.pow2_bits_eqb by lia.
    destruct b; [by rewrite Z.pow2_bits_eqb by lia | by rewrite Z.bits_0]. }
  split.
  - rewrite Hb, Z.eqb_refl, andb_false_r, andb_true_r by lia. done.
  - intros i Hi Hne. rewrite Hb, (proj2 (Z.eqb_neq j i)), andb_true_r, andb_false_r, orb_false_r by lia. done.
Qed.

Lemma flag_test v j : 0 <= j -> negb (Z.land v (Z.shiftl 1 j) =? 0) = Z.testbit v j.
Proof.
  intros Hj. rewrite Z.shiftl_1_l. destruct (Z.testbit v j) eqn:Hb.
  - apply negb_true_iff, Z.eqb_neq. intros H0. apply (f_equal (fun x => Z.testbit x j)) in H0.
    rewrite Z.land_spec, Hb, Z.pow2_bits_true, Z.bits_0 in H0 by done. done.
  - apply negb_false_iff, Z.eqb_eq, Z.bits_inj'. intros i Hi.
    rewrite Z.land_spec, Z.bits_0, Z.pow2_bits_eqb by done.
    destruct (Z.eqb_spec j i) as [-> |]; [by rewrite Hb | apply andb_false_r].
Qed.

Lemma IsUsed_SetUsed s b : IsUsed (SetUsed s b) = b.
Proof. unfold IsUsed, kUsedMask. rewrite flag_test by lia. apply flag_bit. lia. Qed.
Lemma IsUsed_SetCommitted s b : IsUsed (SetCommitted s b) = IsUsed s.
Proof. unfold IsUsed, kUsedMask. rewrite !flag_test by lia. apply flag_bit; lia. Qed.
Lemma IsUsed_SetCommitted_SetUsed s b c : IsUsed (SetCommitted (SetUsed s b) c) = b.
Proof. by rewrite IsUsed_SetCommitted, IsUsed_SetUsed. Qed.
Lemma IsCommitted_SetCommitted s b : IsCommitted (SetCommitted s b) = b.
Proof. unfold IsCommitted, kCommittedMask. rewrite flag_test by lia. apply flag_bit. lia. Qed.
Lemma IsCommitted_SetUsed s b : IsCommitted (SetUsed s b) = IsCommitted s.
Proof. unfold IsCommitted, kCommittedMask. rewrite !flag_test by lia. apply flag_bit; lia. Qed.

(** ** Layout *)

Record SpanLayout := mkLayout { ly_bitmap_num : Z; ly_obj_offset : Z; ly_capacity : Z }.
Definition no_layout : SpanLayout := mkLayout 0 0 0.

Definition ComputeSpanLayout (aligned_size page_num : Z) : SpanLayout :=
  if (aligned_size =? 0) || (page_num =? 0) ||
     (Z.shiftr SIZE_MAX PAGE_SHIFT <? page_num) ||
     ((SIZE_MAX - 1) / BITS_PER_BYTE <? aligned_size)
  then no_layout
  else
    let total_bytes := u64 (Z.shiftl page_num PAGE_SHIFT) in
    if SIZE_MAX / BITS_PER_BYTE <? total_bytes then no_layout
    else
      let max_objs := u64 (total_bytes * BITS_PER_BYTE) / u64 (u64 (aligned_size * BITS_PER_BYTE) + 1) in
      let bitmap_num := Z.shiftr max_objs BITMAP_SHIFT +
                        (if Z.land max_objs BITMAP_MASK =? 0 then 0 else 1) in
      if SIZE_MAX / 8 <? bitmap_num then no_layout
      else
        let bitmap_bytes := u64 (bitmap_num * 8) in
        if SIZE_MAX - (ALIGNMENT - 1) <? bitmap_bytes then no_layout
        else
          let data_start := AlignUp bitmap_bytes ALIGNMENT in
          let raw_capacity := if total_bytes <=? data_start then 0
                              else (total_bytes - data_start) / aligned_size in
          let capacity := Z.min max_objs raw_capacity in
          if (UINT32_MAX <? data_start) || (UINT32_MAX <? capacity) then no_layout
          else mkLayout bitmap_num (u32 data_start) (u32 capacity).

(** ** Object operations *)

(** The two loops of [Init] over the bitmap words. *)
Definition write_bitmap (m : mem) (bitmap capacity bitmap_num : Z) : outcome mem :=
  let full_bitmap_num := Z.shiftr capacity BITMAP_SHIFT in
  let tail_bits := Z.land capacity BITMAP_MASK in
  m ← for_range 0 full_bitmap_num (fun i m => store m (bitmap + 8 * i) SIZE_MAX) m;
  if full_bitmap_num <? bitmap_num
  then m ← store m (bitmap + 8 * full_bitmap_num)
             (if tail_bits =? 0 then 0 else Z.shiftl 1 tail_bits - 1);
       for_range (full_bitmap_num + 1) bitmap_num (fun i m => store m (bitmap + 8 * i) 0) m
  else Ok m.

Definition Init (m : mem) (s : Span) (aligned_object_size : Z) : outcome (Span * mem) :=
  _ ← AM_CHECK ((0 <? aligned_object_size) && (aligned_object_size <=? MAX_TC_SIZE))
        "aligned_object_size > 0 && aligned_object_size <= MAX_TC_SIZE";
  let idx := Index aligned_object_size in
  _ ← AM_CHECK ((idx <? kNumSizeClasses) && (Size idx =? aligned_object_size))
        "SizeClass::Size(idx) == aligned_object_size";
  let start_ptr := PageIDToPtr (start_page_idx s) in
  let layout := ComputeSpanLayout aligned_object_size (page_num s) in
  let needed_bitmap_words := Z.shiftr (ly_capacity layout) BITMAP_SHIFT +
        (if Z.land (ly_capacity layout) BITMAP_MASK =? 0 then 0 else 1) in
  _ ← AM_CHECK (0 <? ly_capacity layout) "layout.capacity > 0";
  _ ← AM_CHECK (needed_bitmap_words <=? ly_bitmap_num layout)
        "layout.bitmap_num >= needed_bitmap_words";
  let total_bytes := u64 (Z.shiftl (page_num s) PAGE_SHIFT) in
  _ ← AM_CHECK ((ly_obj_offset layout <=? total_bytes) &&
                (ly_capacity layout <=? (total_bytes - ly_obj_offset layout) / aligned_object_size))
        "layout.obj_offset <= total_bytes";
  let s := with_grid s (u16 idx) (u32 aligned_object_size) (ly_capacity layout)
             (ly_obj_offset layout) in
  m ← write_bitmap m start_ptr (capacity s) (ly_bitmap_num layout);
  Ok (with_usage s 0 0, m).

(** The address [GetDataBasePtr() + idx * aligned_obj_size]. *)
Definition slot_addr (s : Span) (k : Z) : Z := u64 (GetDataBasePtr s + u64 (k * aligned_obj_size s)).

(** The scan of [AllocObject] from bitmap word [i] over [n] words. *)
Fixpoint alloc_scan (m : mem) (s : Span) (n : nat) (i : Z) : outcome (Z * Span * mem) :=
  match n with
  | O => Ok (0, s, m)
  | S n' =>
      val ← load m (GetBitmap s + 8 * i);
      if val =? 0 then alloc_scan m s n' (i + 1)
      else
        let bit_pos := countr_zero val in
        let val := Z.land val (u64 (Z.lnot (Z.shiftl 1 bit_pos))) in
        m ← store m (GetBitmap s + 8 * i) val;
        let s' := with_usage s (u32 (use_count s + 1)) (if val =? 0 then u32 (i + 1) else u32 i) in
        let global_obj_idx := i * BITMAP_BITS + bit_pos in
        Ok (slot_addr s' global_obj_idx, s', m)
  end.

Definition AllocObject (m : mem) (s : Span) : outcome (Z * Span * mem) :=
  if IsFull s then Ok (0, s, m)
  else alloc_scan m s (Z.to_nat (GetBitmapNum s - scan_cursor s)) (scan_cursor s).

Definition FreeObject `{Build} (m : mem) (s : Span) (ptr : Z) : outcome (Span * mem) :=
  let base := GetDataBasePtr s in
  let offset := u64 (ptr - base) in
  _ ← AM_HCHECK (base <=? ptr) "Pointer underflow detected!";
  _ ← AM_HCHECK_M (r ← umod offset (aligned_obj_size s); Ok (r =? 0)) "Pointer misaligned!";
  global_obj_idx ← (if has_single_bit (aligned_obj_size s)
                    then Ok (Z.shiftr offset (countr_zero (aligned_obj_size s)))
                    else udiv offset (aligned_obj_size s));
  _ ← AM_HCHECK (global_obj_idx <? capacity s) "Pointer overflow detected!";
  let bitmap_idx := u32 (Z.shiftr global_obj_idx BITMAP_SHIFT) in
  _ ← AM_HCHECK (bitmap_idx <? GetBitmapNum s) "bitmap_idx < GetBitmapNum()";
  let bit_pos := Z.land global_obj_idx BITMAP_MASK in
  let mask := Z.shiftl 1 bit_pos in
  let word := GetBitmap s + 8 * bitmap_idx in
  _ ← AM_HCHECK_M (v ← load m word; Ok (Z.land v mask =? 0)) "double free detected.";
  _ ← AM_HCHECK (0 <? use_count s) "use_count underflow detected.";
  v ← load m word;
  m ← store m word (Z.lor v mask);
  Ok (with_usage s (u32 (use_count s - 1)) (Z.min (scan_cursor s) bitmap_idx), m).

Definition ObjectSlotOf (s : Span) (uptr : Z) : Z :=
  let base := GetDataBasePtr s in
  let span_bytes := u64 (capacity s * aligned_obj_size s) in
  if (uptr <? base) || (span_bytes <=? uptr - base) then SIZE_MAX
  else
    let offset := uptr - base in
    if negb (offset mod aligned_obj_size s =? 0) then SIZE_MAX
    else offset / aligned_obj_size s.

(** ** The compile-time layout checks of span.cpp *)

Definition EveryClassFitsAtLeastOneObject : bool :=
  forallb (fun i =>
    let obj_size := Size i in
    negb (ly_capacity (ComputeSpanLayout obj_size (GetMovePageNum obj_size)) =? 0))
    (seqZ 0 kNumSizeClasses).

Definition BitmapCoversEverySlot : bool :=
  forallb (fun i =>
    let obj_size := Size i in
    let layout := ComputeSpanLayout obj_size (GetMovePageNum obj_size) in
    let needed_words := Z.shiftr (ly_capacity layout + BITMAP_MASK) BITMAP_SHIFT in
    negb (ly_bitmap_num layout <? needed_words)) (seqZ 0 kNumSizeClasses).

(** ** The layout *)

(** A layout that carves [ly_capacity] slots of [sz] bytes from [n] pages. *)
Record layout_ok (sz n : Z) (L : SpanLayout) : Prop := {
  lo_size : 0 < sz;
  lo_capacity : 0 < ly_capacity L <= UINT32_MAX;
  lo_bits : ly_capacity L <= 64 * ly_bitmap_num L;
  lo_offset : 8 * ly_bitmap_num L <= ly_obj_offset L < 8 * ly_bitmap_num L + ALIGNMENT;
  lo_aligned : (ALIGNMENT | ly_obj_offset L);
  lo_fits : ly_obj_offset L + ly_capacity L * sz <= n * PAGE_SIZE;
  lo_total : n * PAGE_SIZE * 8 < W64 /\ ly_obj_offset L <= UINT32_MAX;
}.

(** One more object overflows the data area, or the run cannot hold it together
    with its bitmap bit. *)
Definition layout_maximal (sz n : Z) (L : SpanLayout) : Prop :=
  n * PAGE_SIZE < ly_obj_offset L + (ly_capacity L + 1) * sz \/
  n * PAGE_SIZE * 8 < (ly_capacity L + 1) * (sz * 8 + 1).

Lemma ceil64 x : 0 <= x ->
  let n := Z.shiftr x BITMAP_SHIFT + (if Z.land x BITMAP_MASK =? 0 then 0 else 1) in
  n = (x + 63) / 64.
Proof.
  intros Hx n. subst n. rewrite bitmap_shift_spec, bitmap_mask_spec.
  pose proof (Z.div_mod x 64 ltac:(lia)). pose proof (Z.mod_pos_bound x 64 ltac:(lia)).
  apply Z.div_unique with (if x mod 64 =? 0 then 63 else x mod 64 - 1); case_cmp; lia.
Qed.

Lemma ceil64_bounds x : 0 <= x -> 64 * ((x + 63) / 64) - 63 <= x <= 64 * ((x + 63) / 64).
Proof.
  intros Hx. pose proof (Z.div_mod (x + 63) 64 ltac:(lia)).
  pose proof (Z.mod_pos_bound (x + 63) 64 ltac:(lia)). lia.
Qed.

Lemma ComputeSpanLayout_ok sz n :
  0 <= sz < W64 -> 0 <= n < W64 -> 0 < ly_capacity (ComputeSpanLayout sz n) ->
  layout_ok sz n (ComputeSpanLayout sz n) /\ layout_maximal sz n (ComputeSpanLayout sz n).
Proof.
  intros Hsz Hn. unfold ComputeSpanLayout.
  destruct (_ || _) eqn:E0; [simpl; lia |]. bool_facts.
  rewrite page_shift_spec. change (Z.shiftr SIZE_MAX PAGE_SHIFT) with 4503599627370495 in *.
  change ((SIZE_MAX - 1) / BITS_PER_BYTE) with 2305843009213693951 in *.
  change (SIZE_MAX / BITS_PER_BYTE) with 2305843009213693951.
  unfold BITS_PER_BYTE, PAGE_SIZE, ALIGNMENT, UINT32_MAX in *.
  rewrite (u64_id (n * 4096)) by lia. set (total := n * 4096) in *.
  case_cmp; [simpl; lia |].
  rewrite (u64_id (total * 8)), (u64_id (sz * 8)), (u64_id (sz * 8 + 1)) by lia.
  set (mx := total * 8 / (sz * 8 + 1)).
  assert (0 <= mx) by (apply Z.div_pos; lia).
  assert (Hmx : mx * (sz * 8 + 1) <= total * 8 < (mx + 1) * (sz * 8 + 1)).
  { subst mx. pose proof (Z.div_mod (total * 8) (sz * 8 + 1) ltac:(lia)).
    pose proof (Z.mod_pos_bound (total * 8) (sz * 8 + 1) ltac:(lia)). nia. }
  rewrite ceil64 by done. pose proof (ceil64_bounds mx ltac:(done)) as Hc.
  set (bn := (mx + 63) / 64) in *. clearbody bn mx.
  change (SIZE_MAX / 8) with 2305843009213693951.
  case_cmp; [simpl; lia |]. rewrite (u64_id (bn * 8)) by lia.
  case_cmp; [simpl; lia |].
  destruct (Z.eqb_spec mx 0) as [-> | Hmx0].
  { replace (Z.min 0 _) with 0; [destruct (_ || _); cbn [ly_capacity no_layout];
      try change (u32 0) with 0; lia |].
    case_cmp; [lia |]. symmetry. apply Z.min_l, Z.div_pos; lia. }
  rewrite AlignUp_div by (unfold SIZE_MAX in *; lia).
  pose proof (div_mul_ceil (bn * 8) 16 ltac:(lia)) as [Hal Hdiv].
  set (ds := (bn * 8 + 16 - 1) / 16 * 16) in *. clearbody ds.
  destruct (Z.leb_spec total ds); [rewrite Z.min_r by lia; destruct (_ || _);
    cbn [ly_capacity no_layout]; try change (u32 0) with 0; lia |].
  set (raw := (total - ds) / sz).
  assert (Hraw : raw * sz <= total - ds < (raw + 1) * sz).
  { subst raw. pose proof (Z.div_mod (total - ds) sz ltac:(lia)).
    pose proof (Z.mod_pos_bound (total - ds) sz ltac:(lia)). nia. }
  assert (0 <= raw) by (apply Z.div_pos; lia). clearbody raw.
  destruct (_ || _) eqn:E1; [simpl; lia |]. bool_facts. cbn [ly_capacity ly_obj_offset ly_bitmap_num].
  rewrite !u32_id by lia. intros Hpos.
  assert (Z.min mx raw * sz <= raw * sz) by nia.
  split; [constructor; simpl; unfold PAGE_SIZE, ALIGNMENT, UINT32_MAX; try lia; done |].
  unfold layout_maximal, PAGE_SIZE. simpl. fold total.
  destruct (Z.min_spec mx raw) as [[_ ->] | [_ ->]]; [right | left]; lia.
Qed.

(** Every configured class carves at least one object from its run of pages. *)
Lemma class_layout_pos i :
  0 <= i < kNumSizeClasses -> 0 < ly_capacity (ComputeSpanLayout (Size i) (MovePagesByIndex i)).
Proof.
  intros Hi. apply Z.ltb_lt.
  apply (forallb_seqZ (fun i => 0 <? ly_capacity (ComputeSpanLayout (Size i) (MovePagesByIndex i)))
    0 kNumSizeClasses); [vm_compute; reflexivity | lia].
Qed.

(** ** Free sets *)

(** Words [0, n) at [base] hold the characteristic function of [free]. *)
Definition bitmap_rep (m : mem) (base n : Z) (free : gset Z) : Prop :=
  forall w, 0 <= w < n -> exists v, m !! (base + 8 * w) = Some v /\ 0 <= v < W64 /\
    forall j, 0 <= j < 64 -> Z.testbit v j = bool_decide (64 * w + j ∈ free).

(** The geometry [Init] establishes and nothing changes while the span is carved. *)
Record grid_wf (s : Span) : Prop := {
  gw_class : 0 <= size_class_idx s < kNumSizeClasses;
  gw_size : aligned_obj_size s = Size (size_class_idx s);
  gw_capacity : 0 < capacity s <= UINT32_MAX;
  gw_start : 0 < start_page_idx s;
  gw_top : (start_page_idx s + page_num s) * PAGE_SIZE < W64;
  gw_aligned : (ALIGNMENT | obj_offset s);
  gw_offset : 8 * GetBitmapNum s <= obj_offset s;
  gw_fits : obj_offset s + capacity s * aligned_obj_size s <= page_num s * PAGE_SIZE;
}.

(** [span_rep m s free]: the span's unallocated slots are exactly [free]. *)
Record span_rep (m : mem) (s : Span) (free : gset Z) : Prop := {
  sr_grid : grid_wf s;
  sr_bits : bitmap_rep m (GetPageBaseAddr s) (GetBitmapNum s) free;
  sr_range : forall k, k ∈ free -> 0 <= k < capacity s;
  sr_count : use_count s = capacity s - Z.of_nat (size free);
  sr_cursor : 0 <= scan_cursor s <= GetBitmapNum s;
  sr_below : forall k, k ∈ free -> scan_cursor s <= k / 64;
}.

Definition all_slots (n : Z) : gset Z := list_to_set (seqZ 0 n).

Lemma elem_of_all_slots k n : k ∈ all_slots n <-> 0 <= k < n.
Proof. unfold all_slots. rewrite elem_of_list_to_set, elem_of_seqZ. lia. Qed.

Lemma size_all_slots n : 0 <= n -> Z.of_nat (size (all_slots n)) = n.
Proof.
  intros Hn. unfold all_slots. rewrite size_list_to_set by apply NoDup_seqZ.
  rewrite length_seqZ. lia.
Qed.

Lemma GetBitmapNum_eq s : 0 <= capacity s <= UINT32_MAX -> GetBitmapNum s = (capacity s + 63) / 64.
Proof.
  unfold UINT32_MAX. intros Hc. unfold GetBitmapNum. rewrite bitmap_shift_spec.
  rewrite u64_id by clia. done.
Qed.

(** *** Addresses *)

Lemma bitmap_num_bounds s :
  grid_wf s -> 64 * GetBitmapNum s - 63 <= capacity s <= 64 * GetBitmapNum s /\ 1 <= GetBitmapNum s.
Proof.
  intros Hg. pose proof (gw_capacity s Hg). rewrite GetBitmapNum_eq by lia.
  pose proof (ceil64_bounds (capacity s) ltac:(lia)). lia.
Qed.

Lemma grid_size_range s : grid_wf s -> ALIGNMENT <= aligned_obj_size s <= MAX_TC_SIZE.
Proof. intros Hg. rewrite gw_size by done. by apply Size_range, gw_class. Qed.

Lemma GetPageBaseAddr_eq s :
  grid_wf s -> GetPageBaseAddr s = start_page_idx s * PAGE_SIZE /\
               PAGE_SIZE <= GetPageBaseAddr s /\
               GetPageBaseAddr s + page_num s * PAGE_SIZE < W64.
Proof.
  intros Hg. pose proof (gw_start s Hg). pose proof (gw_top s Hg).
  pose proof (gw_fits s Hg). pose proof (gw_offset s Hg). pose proof (gw_capacity s Hg).
  pose proof (grid_size_range s Hg). pose proof (bitmap_num_bounds s Hg).
  unfold GetPageBaseAddr. rewrite page_shift_spec. unfold PAGE_SIZE, ALIGNMENT in *.
  assert (0 <= page_num s) by nia. rewrite u64_id by nia. lia.
Qed.

Lemma slot_addr_eq s k :
  grid_wf s -> 0 <= k < capacity s ->
  slot_addr s k = GetPageBaseAddr s + obj_offset s + k * aligned_obj_size s /\
  slot_addr s k + aligned_obj_size s <= GetPageBaseAddr s + page_num s * PAGE_SIZE.
Proof.
  intros Hg Hk. pose proof (GetPageBaseAddr_eq s Hg) as (_ & Hb & Ht).
  pose proof (gw_fits s Hg). pose proof (gw_offset s Hg). pose proof (grid_size_range s Hg).
  pose proof (bitmap_num_bounds s Hg).
  unfold slot_addr, GetDataBasePtr. unfold PAGE_SIZE, ALIGNMENT in *.
  assert ((k + 1) * aligned_obj_size s <= capacity s * aligned_obj_size s) by nia.
  assert (0 <= k * aligned_obj_size s) by nia.
  rewrite (u64_id (GetPageBaseAddr s + _)), (u64_id (k * _)), u64_id by lia. lia.
Qed.

Lemma GetDataBasePtr_eq s :
  grid_wf s -> GetDataBasePtr s = GetPageBaseAddr s + obj_offset s /\ slot_addr s 0 = GetDataBasePtr s.
Proof.
  intros Hg. pose proof (gw_capacity s Hg). destruct (slot_addr_eq s 0 Hg ltac:(lia)) as [H0 _].
  pose proof (GetPageBaseAddr_eq s Hg) as (_ & Hb & Ht). pose proof (gw_fits s Hg).
  pose proof (grid_size_range s Hg). pose proof (bitmap_num_bounds s Hg). pose proof (gw_offset s Hg).
  rewrite H0. unfold GetDataBasePtr. unfold PAGE_SIZE, ALIGNMENT in *.
  assert (0 <= capacity s * aligned_obj_size s) by nia. rewrite u64_id by lia. lia.
Qed.

(** Slots are distinct, aligned, disjoint byte ranges. *)
Lemma slot_addr_inj s j k :
  grid_wf s -> 0 <= j < capacity s -> 0 <= k < capacity s ->
  slot_addr s j = slot_addr s k -> j = k.
Proof.
  intros Hg Hj Hk. destruct (slot_addr_eq s j Hg Hj) as [-> _].
  destruct (slot_addr_eq s k Hg Hk) as [-> _]. pose proof (grid_size_range s Hg).
  unfold ALIGNMENT in *. nia.
Qed.

Lemma slot_addr_aligned s k :
  grid_wf s -> 0 <= k < capacity s -> (ALIGNMENT | slot_addr s k).
Proof.
  intros Hg Hk. destruct (slot_addr_eq s k Hg Hk) as [-> _].
  destruct (GetPageBaseAddr_eq s Hg) as [-> _].
  apply Z.divide_add_r; [apply Z.divide_add_r |].
  - apply Z.divide_mul_r. by exists 256.
  - by apply gw_aligned.
  - apply Z.divide_mul_r. rewrite gw_size by done. apply Z.mod_divide; [done |].
    by apply Size_aligned, gw_class.
Qed.

(** The bitmap words of a span, and that they lie below every slot. *)
Definition bitmap_words (s : Span) : list Z := (fun w => GetBitmap s + 8 * w) <$> seqZ 0 (GetBitmapNum s).

Lemma bitmap_word_in s w : 0 <= w < GetBitmapNum s -> GetBitmap s + 8 * w ∈ bitmap_words s.
Proof. intros Hw. apply list_elem_of_fmap. exists w. rewrite elem_of_seqZ. split; [done | lia]. Qed.

Lemma bitmap_words_below s a :
  grid_wf s -> a ∈ bitmap_words s ->
  GetPageBaseAddr s <= a /\ a + 8 <= GetDataBasePtr s.
Proof.
  intros Hg (w & -> & Hw%elem_of_seqZ)%list_elem_of_fmap.
  destruct (GetDataBasePtr_eq s Hg) as [-> _]. pose proof (gw_offset s Hg).
  unfold GetBitmap. lia.
Qed.

(** *** Bits *)

Lemma clear_bit_spec v j :
  0 <= v < W64 -> 0 <= j < 64 ->
  0 <= Z.land v (u64 (Z.lnot (Z.shiftl 1 j))) < W64 /\
  forall i, 0 <= i < 64 ->
    Z.testbit (Z.land v (u64 (Z.lnot (Z.shiftl 1 j)))) i = Z.testbit v i && negb (i =? j).
Proof.
  intros Hv Hj. pose proof (u64_range (Z.lnot (Z.shiftl 1 j))) as Hu.
  assert (0 <= Z.land v (u64 (Z.lnot (Z.shiftl 1 j)))) by (apply Z.land_nonneg; lia).
  split; [split; [done |] |].
  - change W64 with (2 ^ 64). apply testbit_bound; [lia | done |]. intros i Hi.
    rewrite Z.land_spec, (testbit_high v 64 i); [done | done | lia].
  - intros i Hi. rewrite Z.land_spec. f_equal. unfold u64. change 18446744073709551616 with (2 ^ 64).
    rewrite Z.mod_pow2_bits_low by lia. rewrite Z.lnot_spec by lia.
    rewrite Z.shiftl_1_l, Z.pow2_bits_eqb by lia. by rewrite Z.eqb_sym.
Qed.

Lemma set_bit_spec v j :
  0 <= v < W64 -> 0 <= j < 64 ->
  0 <= Z.lor v (Z.shiftl 1 j) < W64 /\
  forall i, 0 <= i < 64 -> Z.testbit (Z.lor v (Z.shiftl 1 j)) i = Z.testbit v i || (i =? j).
Proof.
  intros Hv Hj. rewrite Z.shiftl_1_l. assert (0 < 2 ^ j) by (apply Z.pow_pos_nonneg; lia).
  assert (0 <= Z.lor v (2 ^ j)) by (apply Z.lor_nonneg; lia).
  split; [split; [done |] |].
  - change W64 with (2 ^ 64). apply testbit_bound; [lia | done |]. intros i Hi.
    rewrite Z.lor_spec, (testbit_high v 64 i), Z.pow2_bits_eqb by (change (2 ^ 64) with W64; lia).
    apply Z.eqb_neq. lia.
  - intros i Hi. rewrite Z.lor_spec, Z.pow2_bits_eqb by lia. by rewrite Z.eqb_sym.
Qed.

Lemma land_bit_zero v j : 0 <= j -> (Z.land v (Z.shiftl 1 j) =? 0) = negb (Z.testbit v j).
Proof. intros Hj. by rewrite <- flag_test, negb_involutive by done. Qed.

(** Slot [k] is bit [k mod 64] of word [k / 64]. *)
Lemma slot_split k n : 0 <= k -> k <= 64 * n - 1 ->
  0 <= k / 64 < n /\ 0 <= k mod 64 < 64 /\ k = 64 * (k / 64) + k mod 64.
Proof.
  intros Hk Hn. pose proof (Z.div_mod k 64 ltac:(lia)). pose proof (Z.mod_pos_bound k 64 ltac:(lia)).
  lia.
Qed.

(** Rewriting one word changes the membership of its 64 slots only. *)
Lemma bitmap_rep_update m base n free free' w v :
  bitmap_rep m base n free -> 0 <= v < W64 ->
  (forall j, 0 <= j < 64 -> Z.testbit v j = bool_decide (64 * w + j ∈ free')) ->
  (forall k, k / 64 <> w -> k ∈ free' <-> k ∈ free) ->
  bitmap_rep (<[base + 8 * w := v]> m) base n free'.
Proof.
  intros Hm Hv Hbits Hother i Hi. destruct (decide (i = w)) as [-> | Hne].
  - exists v. rewrite lookup_insert_eq. done.
  - destruct (Hm i Hi) as (u & Hu & Hur & Hub). exists u.
    rewrite lookup_insert_ne by lia. split; [done |]. split; [done |]. intros j Hj.
    rewrite Hub by done. apply bool_decide_ext. symmetry. apply Hother.
    rewrite Z.mul_comm, Z.div_add_l, Z.div_small by lia. lia.
Qed.

Lemma bitmap_rep_frame ls m m' base n free :
  same_except ls m m' -> (forall w, 0 <= w < n -> base + 8 * w ∉ ls) ->
  bitmap_rep m base n free -> bitmap_rep m' base n free.
Proof.
  intros Hm Hout Hrep w Hw. destruct (Hrep w Hw) as (v & Hv & ?). exists v.
  rewrite Hm by auto. done.
Qed.

(** *** [Init] *)

Definition words (base lo hi : Z) : list Z := (fun w => base + 8 * w) <$> seqZ lo (hi - lo).

Lemma elem_of_words a base lo hi : a ∈ words base lo hi <-> exists w, a = base + 8 * w /\ lo <= w < hi.
Proof. unfold words. rewrite list_elem_of_fmap. setoid_rewrite elem_of_seqZ.
  split; intros (w & -> & Hw); exists w; (split; [done | lia]). Qed.

Lemma fill_words m base lo hi v :
  0 < base -> 0 <= lo <= hi ->
  exists m', for_range lo hi (fun i m => store m (base + 8 * i) v) m = Ok m' /\
    (forall w, lo <= w < hi -> m' !! (base + 8 * w) = Some v) /\
    same_except (words base lo hi) m m'.
Proof.
  intros Hb Hlo.
  apply (for_range_inv (fun i m' => (forall w, lo <= w < i -> m' !! (base + 8 * w) = Some v) /\
    same_except (words base lo hi) m m')); [lia | split; [lia | done] |].
  intros i m1 Hi [Hset Hfr]. rewrite store_nonnull by lia. eexists. split; [done |]. split.
  - intros w Hw. destruct (decide (w = i)) as [-> |]; [apply lookup_insert_eq |].
    rewrite lookup_insert_ne by lia. apply Hset. lia.
  - eapply same_except_trans; [exact Hfr |]. apply same_except_insert, elem_of_words.
    exists i. split; [done | lia].
Qed.

Lemma SIZE_MAX_bits j : 0 <= j < 64 -> Z.testbit SIZE_MAX j = true.
Proof. intros Hj. change SIZE_MAX with (Z.ones 64). apply Z.ones_spec_low. lia. Qed.

Lemma write_bitmap_rep m base c bn :
  0 < base -> 0 <= c <= 64 * bn -> 
  exists m', write_bitmap m base c bn = Ok m' /\ bitmap_rep m' base bn (all_slots c) /\
    same_except (words base 0 bn) m m'.
Proof.
  intros Hb Hc. unfold write_bitmap. rewrite bitmap_shift_spec, bitmap_mask_spec.
  pose proof (Z.div_mod c 64 ltac:(lia)) as Hdm. pose proof (Z.mod_pos_bound c 64 ltac:(lia)) as Hmod.
  set (fw := c / 64) in *. set (tb := c mod 64) in *. clearbody fw tb.
  destruct (fill_words m base 0 fw SIZE_MAX Hb ltac:(lia)) as (m1 & -> & Hs1 & Hf1).
  rewrite bind_Ok_l.
  assert (Hfull : forall w j, 0 <= w < fw -> 0 <= j < 64 ->
            Z.testbit SIZE_MAX j = bool_decide (64 * w + j ∈ all_slots c)).
  { intros w j Hw Hj. rewrite SIZE_MAX_bits by done. symmetry. apply bool_decide_eq_true.
    apply elem_of_all_slots. lia. }
  case_cmp.
  2:{ exists m1. split; [done |]. split.
      - intros w Hw. exists SIZE_MAX. rewrite Hs1 by lia. split; [done |]. split; [zdec |].
        intros j Hj. apply Hfull; lia.
      - eapply same_except_mono; [| exact Hf1]. intros a. rewrite !elem_of_words.
        intros (w & -> & Hw). exists w. split; [done | lia]. }
  rewrite store_nonnull, bind_Ok_l by lia. set (tail := if tb =? 0 then 0 else _).
  destruct (fill_words (<[base + 8 * fw := tail]> m1) base (fw + 1) bn 0 Hb ltac:(lia))
    as (m2 & -> & Hs2 & Hf2).
  assert (Hout : forall w, w <= fw -> base + 8 * w ∉ words base (fw + 1) bn).
  { intros w Hw (w' & Heq & Hw')%elem_of_words. lia. }
  exists m2. split; [done |]. split.
  - intros w Hw. destruct (Z.lt_trichotomy w fw) as [Hlt | [-> | Hgt]].
    + exists SIZE_MAX. rewrite Hf2, lookup_insert_ne, Hs1 by (auto with lia || apply Hout; lia).
      split; [done |]. split; [zdec |]. intros j Hj. apply Hfull; lia.
    + exists tail. rewrite Hf2, lookup_insert_eq by (apply Hout; lia). split; [done |].
      assert (Htail : tail = Z.ones tb).
      { subst tail. case_cmp; [by subst tb |]. rewrite Z.ones_equiv, Z.shiftl_1_l. lia. }
      rewrite Htail. split.
      * rewrite Z.ones_equiv. assert (0 < 2 ^ tb <= 2 ^ 63); [| lia].
        split; [apply Z.pow_pos_nonneg; lia | apply Z.pow_le_mono_r; lia].
      * intros j Hj. rewrite Z.testbit_ones_nonneg by lia. symmetry.
        apply Bool.eq_iff_eq_true. rewrite bool_decide_eq_true, elem_of_all_slots, Z.ltb_lt. lia.
    + exists 0. rewrite Hs2 by lia. split; [done |]. split; [lia |]. intros j Hj.
      rewrite Z.bits_0. symmetry. apply bool_decide_eq_false. rewrite elem_of_all_slots. lia.
  - eapply same_except_trans; [| eapply same_except_trans].
    + eapply same_except_mono; [| exact Hf1]. intros a. rewrite !elem_of_words.
      intros (w & -> & Hw). exists w. split; [done | lia].
    + apply same_except_insert, elem_of_words. exists fw. split; [done | lia].
    + eapply same_except_mono; [| exact Hf2]. intros a. rewrite !elem_of_words.
      intros (w & -> & Hw). exists w. split; [done | lia].
Qed.

(** A run of pages an Init call may carve. *)
Definition run_ok (s : Span) : Prop :=
  0 < start_page_idx s /\ 0 <= page_num s <= UINT32_MAX /\
  (start_page_idx s + page_num s) * PAGE_SIZE < W64.

Lemma Init_rep m s i :
  0 <= i < kNumSizeClasses -> run_ok s ->
  let L := ComputeSpanLayout (Size i) (page_num s) in
  0 < ly_capacity L ->
  let s' := with_usage (with_grid s i (Size i) (ly_capacity L) (ly_obj_offset L)) 0 0 in
  exists m', Init m s (Size i) = Ok (s', m') /\
    span_rep m' s' (all_slots (ly_capacity L)) /\
    same_except (words (GetPageBaseAddr s) 0 (ly_bitmap_num L)) m m'.
Proof.
  intros Hi (Hst & Hpn & Htop) L Hcap s'. pose proof (Size_range i Hi) as Hsz.
  unfold UINT32_MAX, ALIGNMENT, MAX_TC_SIZE, PAGE_SIZE in *.
  destruct (ComputeSpanLayout_ok (Size i) (page_num s) ltac:(lia) ltac:(lia) Hcap)
    as [[_ Hc Hbits Hoff Hal Hfit [Htot Hoff32]] _]. fold L in Hc, Hbits, Hoff, Hal, Hfit, Hoff32.
  unfold UINT32_MAX, PAGE_SIZE in *.
  assert (Hbase : GetPageBaseAddr s = start_page_idx s * 4096).
  { unfold GetPageBaseAddr. rewrite page_shift_spec. unfold PAGE_SIZE. rewrite u64_id; nia. }
  assert (Hwords : (ly_capacity L + 63) / 64 <= ly_bitmap_num L).
  { apply Z.lt_succ_r, Z.div_lt_upper_bound; lia. }
  destruct (write_bitmap_rep m (GetPageBaseAddr s) (ly_capacity L) (ly_bitmap_num L))
    as (m' & Hw & Hrep & Hfr); [lia.. |].
  exists m'. split; [| split; [| done]].
  - unfold Init. rewrite Index_Size by done. fold L.
    change (PageIDToPtr (start_page_idx s)) with (GetPageBaseAddr s).
    rewrite ceil64, page_shift_spec by lia. unfold PAGE_SIZE. rewrite (u64_id (_ * 4096)) by nia.
    assert (ly_capacity L <= (page_num s * 4096 - ly_obj_offset L) / Size i).
    { apply Z.div_le_lower_bound; lia. }
    pose proof kNumSizeClasses_val.
    rewrite !(proj2 (Z.ltb_lt _ _)), !(proj2 (Z.leb_le _ _)), Z.eqb_refl by (unfold MAX_TC_SIZE; nia).
    simpl AM_CHECK. rewrite !bind_Ok_l. unfold with_grid at 2. simpl capacity. rewrite Hw, bind_Ok_l.
    subst s'. by rewrite u16_id, u32_id by lia.
  - assert (Hg : grid_wf s').
    { constructor; subst s'; simpl; unfold UINT32_MAX, PAGE_SIZE, ALIGNMENT; try done; try lia.
      rewrite GetBitmapNum_eq by (simpl; unfold UINT32_MAX; lia). simpl. lia. }
    pose proof (bitmap_num_bounds s' Hg).
    constructor; try done.
    + intros w Hw'. apply Hrep. rewrite GetBitmapNum_eq in Hw' by (subst s'; simpl; unfold UINT32_MAX; lia).
      subst s'. simpl in Hw'. lia.
    + intros k Hk%elem_of_all_slots. done.
    + rewrite size_all_slots by lia. subst s'. simpl. lia.
    + subst s'. simpl in *. lia.
    + intros k Hk%elem_of_all_slots. subst s'. simpl. apply Z.div_pos; lia.
Qed.

(** *** [AllocObject] *)

(** Slot [k] is the first free one. *)
Definition least_free (free : gset Z) (k : Z) : Prop := k ∈ free /\ forall j, j ∈ free -> k <= j.

Lemma alloc_scan_rep m s free n i :
  grid_wf s -> bitmap_rep m (GetPageBaseAddr s) (GetBitmapNum s) free ->
  (forall k, k ∈ free -> 0 <= k < capacity s /\ i <= k / 64) ->
  0 <= i -> i + Z.of_nat n = GetBitmapNum s -> free <> ∅ ->
  exists k v cursor m',
    least_free free k /\
    m !! (GetPageBaseAddr s + 8 * (k / 64)) = Some v /\
    m' = <[GetPageBaseAddr s + 8 * (k / 64) := Z.land v (u64 (Z.lnot (Z.shiftl 1 (k mod 64))))]> m /\
    cursor = (if Z.land v (u64 (Z.lnot (Z.shiftl 1 (k mod 64)))) =? 0
              then u32 (k / 64 + 1) else u32 (k / 64)) /\
    alloc_scan m s n i =
      Ok (slot_addr s k, with_usage s (u32 (use_count s + 1)) cursor, m').
Proof.
  intros Hg Hrep. revert i. induction n as [| n IH]; intros i Hfree Hi Hn Hne.
  - exfalso. apply set_choose_L in Hne as [k Hk]. destruct (Hfree k Hk) as [Hk1 Hk2].
    pose proof (bitmap_num_bounds s Hg).
    destruct (slot_split k (GetBitmapNum s)) as (? & _); lia.
  - cbn [alloc_scan]. destruct (Hrep i ltac:(lia)) as (v & Hv & Hvr & Hbits).
    pose proof (GetPageBaseAddr_eq s Hg) as (_ & Hb & _). unfold PAGE_SIZE in Hb.
    unfold GetBitmap. rewrite (load_Some _ _ v), bind_Ok_l by (done || lia).
    destruct (Z.eqb_spec v 0) as [-> | Hv0].
    + apply IH; try lia; [| done]. intros k Hk. destruct (Hfree k Hk) as [Hk1 Hk2].
      split; [done |]. enough (k / 64 <> i) by lia. intros <-.
      pose proof (Z.div_mod k 64 ltac:(lia)). specialize (Hbits (k mod 64)).
      rewrite Z.bits_0 in Hbits. specialize (Hbits (Z.mod_pos_bound k 64 ltac:(lia))).
      symmetry in Hbits. apply bool_decide_eq_false in Hbits. apply Hbits.
      by replace (64 * (k / 64) + k mod 64) with k by lia.
    + destruct (countr_zero_spec v ltac:(lia)) as (Hc0 & Hcb & Hclow).
      pose proof (countr_zero_lt v 64 ltac:(change (2 ^ 64) with W64; lia) ltac:(lia)) as Hc64.
      set (c := countr_zero v) in *.
      rewrite Hbits in Hcb by lia. apply bool_decide_eq_true in Hcb.
      assert (Hd : (64 * i + c) / 64 = i) by (rewrite Z.mul_comm, Z.div_add_l, Z.div_small; lia).
      assert (Hm : (64 * i + c) mod 64 = c) by (rewrite Z.mul_comm, Z.add_comm, Z.mod_add, Z.mod_small; lia).
      exists (64 * i + c), v. rewrite Hd, Hm. do 2 eexists. split_and!; [| done | done | done |].
      * split; [done |]. intros j Hj. destruct (Hfree j Hj) as [Hj1 Hj2].
        destruct (decide (j / 64 = i)) as [Hji |].
        -- pose proof (Z.div_mod j 64 ltac:(lia)). pose proof (Z.mod_pos_bound j 64 ltac:(lia)).
           destruct (Z.lt_ge_cases (j mod 64) c) as [Hlt |]; [| lia].
           specialize (Hclow (j mod 64) ltac:(lia)). rewrite Hbits in Hclow by lia.
           apply bool_decide_eq_false in Hclow. exfalso. apply Hclow.
           by replace (64 * i + j mod 64) with j by lia.
        -- pose proof (Z.mul_div_le j 64 ltac:(lia)). lia.
      * rewrite store_nonnull, bind_Ok_l by lia. unfold BITMAP_BITS.
        by replace (i * 64 + c) with (64 * i + c) by lia.
Qed.

Lemma size_delete (free : gset Z) k :
  k ∈ free -> Z.of_nat (size (free ∖ {[k]})) = Z.of_nat (size free) - 1.
Proof.
  intros Hk. rewrite size_difference by set_solver. rewrite size_singleton.
  assert (size free <> 0%nat); [| lia]. rewrite size_non_empty_iff. set_solver.
Qed.

Lemma size_insert (free : gset Z) k :
  k ∉ free -> Z.of_nat (size ({[k]} ∪ free)) = Z.of_nat (size free) + 1.
Proof. intros Hk. rewrite size_union by set_solver. rewrite size_singleton. lia. Qed.

(** Fields other than [use_count] and [scan_cursor] are untouched. *)
Definition same_grid (s s' : Span) : Prop := s' = with_usage s (use_count s') (scan_cursor s').

Lemma grid_wf_usage s c u : grid_wf s -> grid_wf (with_usage s c u).
Proof. intros []. by constructor. Qed.

Lemma IsFull_rep m s free : span_rep m s free -> IsFull s = bool_decide (free = ∅).
Proof.
  intros Hr. unfold IsFull. rewrite (sr_count _ _ _ Hr). apply Bool.eq_iff_eq_true.
  rewrite bool_decide_eq_true, Z.leb_le. rewrite <- (leibniz_equiv_iff free ∅), <- size_empty_iff. lia.
Qed.

Lemma AllocObject_full m s : span_rep m s ∅ -> AllocObject m s = Ok (0, s, m).
Proof. intros Hr. unfold AllocObject. rewrite (IsFull_rep _ _ _ Hr). done. Qed.

Lemma free_size_bound m s free : span_rep m s free -> Z.of_nat (size free) <= capacity s.
Proof.
  intros Hr. pose proof (gw_capacity s (sr_grid _ _ _ Hr)).
  rewrite <- (size_all_slots (capacity s)) by lia. apply Nat2Z.inj_le, subseteq_size.
  intros k Hk. apply elem_of_all_slots. by eapply sr_range.
Qed.

Lemma AllocObject_rep m s free :
  span_rep m s free -> free <> ∅ ->
  exists k s' m', least_free free k /\
    AllocObject m s = Ok (slot_addr s k, s', m') /\
    span_rep m' s' (free ∖ {[k]}) /\
    same_grid s s' /\ same_except (bitmap_words s) m m'.
Proof.
  intros Hr Hne. unfold AllocObject. rewrite (IsFull_rep _ _ _ Hr), bool_decide_eq_false_2 by done.
  pose proof (sr_grid _ _ _ Hr) as Hg. pose proof (sr_cursor _ _ _ Hr) as Hcur.
  pose proof (bitmap_num_bounds s Hg) as Hbn. pose proof (gw_capacity s Hg) as Hcap.
  unfold UINT32_MAX in Hcap.
  destruct (alloc_scan_rep m s free (Z.to_nat (GetBitmapNum s - scan_cursor s)) (scan_cursor s) Hg)
    as (k & v & cursor & m' & [Hk Hmin] & Hv & -> & -> & Heq);
    [by eapply sr_bits | | lia | lia | done |].
  { intros k Hk. split; [by eapply sr_range | by eapply sr_below]. }
  pose proof (sr_range _ _ _ Hr k Hk) as Hkr.
  destruct (slot_split k (GetBitmapNum s)) as (Hw & Hb & Hsplit); [lia | lia |].
  destruct (sr_bits _ _ _ Hr (k / 64) Hw) as (v' & Hv' & Hvr & Hbits).
  rewrite Hv in Hv'. injection Hv' as <-.
  destruct (clear_bit_spec v (k mod 64) Hvr Hb) as [Hcr Hcb].
  set (val := Z.land v _) in *. clearbody val.
  assert (Hval : forall j, 0 <= j < 64 ->
            Z.testbit val j = bool_decide (64 * (k / 64) + j ∈ free ∖ {[k]})).
  { intros j Hj. rewrite Hcb, Hbits by done. apply Bool.eq_iff_eq_true.
    rewrite andb_true_iff, negb_true_iff, Z.eqb_neq, !bool_decide_eq_true.
    rewrite elem_of_difference, elem_of_singleton. split; intros [? ?]; (split; [done | lia]). }
  exists k. do 2 eexists. split; [done |]. split; [exact Heq |].
  split; [| split; [done |]].
  2:{ apply same_except_insert. by apply bitmap_word_in. }
  assert (Hsz : Z.of_nat (size (free ∖ {[k]})) = Z.of_nat (size free) - 1).
  { apply size_delete. done. }
  pose proof (free_size_bound _ _ _ Hr). pose proof (sr_count _ _ _ Hr) as Hcount.
  constructor; simpl.
  - by apply grid_wf_usage.
  - apply (bitmap_rep_update m _ _ free); [exact (sr_bits _ _ _ Hr) | done | done |].
    intros j Hj. assert (j <> k) by congruence. set_solver.
  - intros j [Hj _]%elem_of_difference. by eapply sr_range.
  - change (capacity (with_usage _ _ _)) with (capacity s). rewrite u32_id by lia. lia.
  - change (GetBitmapNum (with_usage _ _ _)) with (GetBitmapNum s).
    case_cmp; rewrite u32_id; lia.
  - intros j [Hj Hjk]%elem_of_difference. pose proof (Hmin j Hj) as Hle.
    pose proof (Z.div_le_mono k j 64 ltac:(lia) Hle) as Hdle.
    destruct (Z.eqb_spec val 0) as [Hz |]; rewrite u32_id by lia; [| done].
    enough (j / 64 <> k / 64) by lia. intros Hd.
    specialize (Hval (j mod 64) (Z.mod_pos_bound j 64 ltac:(lia))).
    rewrite Hz, Z.bits_0, <- Hd in Hval. symmetry in Hval. apply bool_decide_eq_false in Hval.
    apply Hval. pose proof (Z.div_mod j 64 ltac:(lia)) as Hdm. rewrite <- Hdm. set_solver.
Qed.

(** *** [FreeObject] *)

(** Both divisions of the source agree with the slot number. *)
Lemma slot_index_div a offset :
  0 < a -> (if has_single_bit a then Ok (Z.shiftr offset (countr_zero a)) else udiv offset a)
           = Ok (offset / a).
Proof.
  intros Ha. destruct (has_single_bit a) eqn:Hb.
  - destruct (has_single_bit_inv a Hb) as (_ & Hk & Heq).
    rewrite Z.shiftr_div_pow2 by done. by rewrite <- Heq.
  - unfold udiv. case_cmp; [lia | done].
Qed.

Lemma FreeObject_rep `{Build} m s free k :
  span_rep m s free -> 0 <= k < capacity s -> k ∉ free ->
  exists s' m', FreeObject m s (slot_addr s k) = Ok (s', m') /\
    span_rep m' s' ({[k]} ∪ free) /\ same_grid s s' /\ same_except (bitmap_words s) m m'.
Proof.
  intros Hr Hk Hkf. pose proof (sr_grid _ _ _ Hr) as Hg.
  pose proof (grid_size_range s Hg) as Hsz. pose proof (gw_capacity s Hg) as Hcap.
  pose proof (bitmap_num_bounds s Hg) as Hbn. unfold UINT32_MAX, ALIGNMENT, MAX_TC_SIZE in *.
  pose proof (GetPageBaseAddr_eq s Hg) as (_ & Hbase & Htop). unfold PAGE_SIZE in Hbase.
  destruct (slot_addr_eq s k Hg Hk) as [Haddr _]. destruct (GetDataBasePtr_eq s Hg) as [Hdata _].
  assert (Hoff : u64 (slot_addr s k - GetDataBasePtr s) = k * aligned_obj_size s).
  { rewrite Haddr, Hdata, u64_id; [lia |]. nia. }
  destruct (slot_split k (GetBitmapNum s)) as (Hw & Hb & Hsplit); [lia | lia |].
  destruct (sr_bits _ _ _ Hr (k / 64) Hw) as (v & Hv & Hvr & Hbits).
  assert (Hsize : Z.of_nat (size free) < capacity s).
  { apply Z.lt_le_trans with (Z.of_nat (size ({[k]} ∪ free))).
    - rewrite size_insert by done. lia.
    - rewrite <- (size_all_slots (capacity s)) by lia. apply Nat2Z.inj_le, subseteq_size.
      intros j [->%elem_of_singleton | Hj]%elem_of_union; apply elem_of_all_slots; [done |].
      by eapply sr_range. }
  pose proof (sr_count _ _ _ Hr) as Hcount.
  destruct (set_bit_spec v (k mod 64) Hvr Hb) as [Hsr Hsb].
  unfold FreeObject. rewrite Hoff, slot_index_div, Z.div_mul by lia. unfold umod.
  rewrite (proj2 (Z.eqb_neq (aligned_obj_size s) 0)) by lia. rewrite Z.mod_mul by lia.
  rewrite (proj2 (Z.leb_le _ _)), AM_HCHECK_true, bind_Ok_l by (rewrite Haddr, Hdata; nia).
  rewrite !bind_Ok_l. change (0 =? 0) with true.
  rewrite AM_HCHECK_M_true, bind_Ok_l, bitmap_shift_spec, bitmap_mask_spec, (u32_id (k / 64)) by lia.
  rewrite (proj2 (Z.ltb_lt k _)), (proj2 (Z.ltb_lt (k / 64) _)), (proj2 (Z.ltb_lt 0 (use_count s)))
    by lia.
  rewrite !AM_HCHECK_true. unfold GetBitmap. rewrite (load_Some _ _ v) by (done || lia).
  rewrite !bind_Ok_l, land_bit_zero, Hbits, <- Hsplit by lia.
  rewrite bool_decide_eq_false_2 by done. simpl negb. rewrite AM_HCHECK_M_true.
  rewrite bind_Ok_l, store_nonnull, bind_Ok_l by lia.
  do 2 eexists. split; [reflexivity |]. split; [| split; [done |]].
  2:{ apply same_except_insert. by apply bitmap_word_in. }
  pose proof (sr_cursor _ _ _ Hr) as Hcur.
  constructor; simpl.
  - by apply grid_wf_usage.
  - apply (bitmap_rep_update m _ _ free); [exact (sr_bits _ _ _ Hr) | done | |].
    + intros j Hj. rewrite Hsb, Hbits by done. apply Bool.eq_iff_eq_true.
      rewrite orb_true_iff, Z.eqb_eq, !bool_decide_eq_true, elem_of_union, elem_of_singleton.
      assert (64 * (k / 64) + j = k <-> j = k mod 64) by lia. tauto.
    + intros j Hj. rewrite elem_of_union, elem_of_singleton. split; [| by right].
      intros [-> |]; done.
  - intros j [->%elem_of_singleton | Hj]%elem_of_union; [done | by eapply sr_range].
  - change (capacity (with_usage _ _ _)) with (capacity s).
    rewrite size_insert, u32_id by (done || lia). lia.
  - change (GetBitmapNum (with_usage _ _ _)) with (GetBitmapNum s). lia.
  - intros j [->%elem_of_singleton | Hj]%elem_of_union; [lia |].
    pose proof (sr_below _ _ _ Hr j Hj). lia.
Qed.

(** *** Rejected pointers *)

(** [ptr] is the address of slot [k]. *)
Lemma slot_of_ptr s ptr k :
  grid_wf s -> 0 <= k < capacity s ->
  ptr = slot_addr s k <-> GetDataBasePtr s <= ptr /\ ptr - GetDataBasePtr s = k * aligned_obj_size s.
Proof.
  intros Hg Hk. destruct (slot_addr_eq s k Hg Hk) as [-> _].
  destruct (GetDataBasePtr_eq s Hg) as [-> _]. pose proof (grid_size_range s Hg).
  unfold ALIGNMENT in *. nia.
Qed.

(** The outcomes a hardened [FreeObject] may have on an arbitrary address. *)
Definition free_verdict (s : Span) (free : gset Z) (ptr : Z) : option string :=
  let offset := ptr - GetDataBasePtr s in
  if ptr <? GetDataBasePtr s then Some "Pointer underflow detected!"%string
  else if negb (offset mod aligned_obj_size s =? 0) then Some "Pointer misaligned!"%string
  else if capacity s <=? offset / aligned_obj_size s then Some "Pointer overflow detected!"%string
  else if bool_decide (offset / aligned_obj_size s ∈ free) then Some "double free detected."%string
  else None.

Lemma free_verdict_None s free ptr :
  grid_wf s -> free_verdict s free ptr = None ->
  exists k, 0 <= k < capacity s /\ (k ∉ free) /\ ptr = slot_addr s k.
Proof.
  intros Hg. unfold free_verdict. pose proof (grid_size_range s Hg) as Hsz. unfold ALIGNMENT in Hsz.
  case_cmp; [done |]. destruct (negb _) eqn:Hmod; [done |]. bool_facts.
  case_cmp; [done |]. case_bool_decide; [done |]. intros _.
  set (off := ptr - GetDataBasePtr s) in *. exists (off / aligned_obj_size s).
  assert (0 <= off / aligned_obj_size s) by (apply Z.div_pos; lia).
  split; [lia |]. split; [done |]. apply slot_of_ptr; [done | lia |]. split; [done |].
  pose proof (Z.div_mod off (aligned_obj_size s) ltac:(lia)). lia.
Qed.

Lemma FreeObject_verdict `{Build} m s free ptr why :
  (am_hardened || debug_build) = true -> span_rep m s free -> 0 <= ptr < W64 ->
  free_verdict s free ptr = Some why -> FreeObject m s ptr = Abort why.
Proof.
  intros Hhard Hr Hptr. pose proof (sr_grid _ _ _ Hr) as Hg.
  pose proof (grid_size_range s Hg) as Hsz. unfold ALIGNMENT in Hsz.
  unfold free_verdict, FreeObject, AM_HCHECK, AM_HCHECK_M, umod. rewrite Hhard.
  pose proof (GetPageBaseAddr_eq s Hg) as (_ & Hb & Ht). destruct (GetDataBasePtr_eq s Hg) as [Hd _].
  pose proof (gw_offset s Hg). pose proof (bitmap_num_bounds s Hg) as Hbn.
  pose proof (gw_capacity s Hg) as Hcap. unfold PAGE_SIZE, UINT32_MAX in *.
  rewrite (proj2 (Z.eqb_neq (aligned_obj_size s) 0)) by lia.
  destruct (Z.ltb_spec ptr (GetDataBasePtr s)).
  { intros [= <-]. rewrite (proj2 (Z.leb_gt _ _)) by done. done. }
  rewrite (proj2 (Z.leb_le (GetDataBasePtr s) ptr)), (u64_id (ptr - _)) by lia. set (off := ptr - GetDataBasePtr s) in *.
  cbn [AM_CHECK]. rewrite !bind_Ok_l. destruct (off mod aligned_obj_size s =? 0) eqn:Hmod; simpl negb.
  2:{ intros [= <-]. done. }
  cbn [AM_CHECK]. rewrite slot_index_div, !bind_Ok_l by lia. set (k := off / aligned_obj_size s) in *.
  assert (0 <= k) by (apply Z.div_pos; lia).
  case_cmp; [intros [= <-]; by rewrite (proj2 (Z.ltb_ge k (capacity s))) by lia |].
  case_bool_decide as Hk; [| done]. intros [= <-].
  destruct (slot_split k (GetBitmapNum s)) as (Hw & Hbit & Hsplit); [lia | lia |].
  destruct (sr_bits _ _ _ Hr (k / 64) Hw) as (v & Hv & Hvr & Hbits).
  rewrite (proj2 (Z.ltb_lt k _)) by lia. cbn [AM_CHECK].
  rewrite bind_Ok_l, bitmap_shift_spec, bitmap_mask_spec, (u32_id (k / 64)) by lia.
  rewrite (proj2 (Z.ltb_lt (k / 64) _)) by lia. cbn [AM_CHECK]. unfold GetBitmap.
  rewrite (load_Some _ _ v) by (done || lia). rewrite !bind_Ok_l, land_bit_zero, Hbits, <- Hsplit by lia.
  rewrite bool_decide_eq_true_2 by done. done.
Qed.

(** *** Draining a span *)

Fixpoint alloc_n (n : nat) (m : mem) (s : Span) : outcome (list Z * Span * mem) :=
  match n with
  | O => Ok ([], s, m)
  | S n' => '(p, s, m) ← AllocObject m s;
            '(ps, s, m) ← alloc_n n' m s; Ok (p :: ps, s, m)
  end.

Lemma same_grid_trans s1 s2 s3 : same_grid s1 s2 -> same_grid s2 s3 -> same_grid s1 s3.
Proof. unfold same_grid. intros -> H. rewrite H. done. Qed.

Lemma slot_addr_same_grid s s' k : same_grid s s' -> slot_addr s' k = slot_addr s k.
Proof. by intros ->. Qed.

Lemma alloc_n_rep n m s lo :
  span_rep m s (list_to_set (seqZ lo (capacity s - lo))) -> 0 <= lo -> lo + Z.of_nat n = capacity s ->
  exists s' m', alloc_n n m s = Ok (slot_addr s <$> seqZ lo (Z.of_nat n), s', m') /\
    span_rep m' s' ∅ /\ same_grid s s'.
Proof.
  revert m s lo. induction n as [| n IH]; intros m s lo Hr Hlo Hn.
  - exists s, m. split; [done |]. split; [| by destruct s].
    replace (capacity s - lo) with 0 in Hr by lia. done.
  - destruct (AllocObject_rep m s _ Hr) as (k & s1 & m1 & [Hk Hmin] & Ha & Hr1 & Hs1 & _).
    { apply non_empty_inhabited_L with lo. apply elem_of_list_to_set, elem_of_seqZ. lia. }
    rewrite elem_of_list_to_set, elem_of_seqZ in Hk.
    assert (k = lo) as ->.
    { enough (k <= lo) by lia. apply Hmin, elem_of_list_to_set, elem_of_seqZ. lia. }
    assert (Hc : capacity s1 = capacity s) by (by rewrite Hs1).
    destruct (IH m1 s1 (lo + 1)) as (s2 & m2 & Hn2 & Hr2 & Hs2); [| lia | lia |].
    { replace (list_to_set _) with ((list_to_set (seqZ lo (capacity s - lo)) : gset Z) ∖ {[lo]});
        [done |].
      apply set_eq. intros x.
      rewrite elem_of_difference, elem_of_singleton, !elem_of_list_to_set, !elem_of_seqZ. lia. }
    exists s2, m2. split; [| split; [done | by eapply same_grid_trans]].
    cbn [alloc_n]. rewrite Ha, bind_Ok_l, Hn2, bind_Ok_l.
    rewrite (seqZ_cons lo), fmap_cons by lia.
    replace (Z.pred (Z.of_nat (S n))) with (Z.of_nat n) by lia.
    replace (slot_addr s1 <$> _) with (slot_addr s <$> seqZ (lo + 1) (Z.of_nat n)); [done |].
    apply list_fmap_ext. intros. by rewrite (slot_addr_same_grid s s1).
Qed.

(** The largest [size_t] plays the role of "no slot". *)
Lemma ObjectSlotOf_slot s k :
  grid_wf s -> 0 <= k < capacity s -> ObjectSlotOf s (slot_addr s k) = k.
Proof.
  intros Hg Hk. pose proof (grid_size_range s Hg) as Hsz. unfold ALIGNMENT, MAX_TC_SIZE in Hsz.
  pose proof (gw_capacity s Hg) as Hcap. unfold UINT32_MAX in Hcap.
  destruct (proj1 (slot_of_ptr s (slot_addr s k) k Hg Hk) eq_refl) as [Hle Heq].
  unfold ObjectSlotOf. rewrite u64_id by nia. rewrite (proj2 (Z.ltb_ge _ _)) by done. rewrite Heq.
  rewrite (proj2 (Z.leb_gt _ _)) by nia. simpl. rewrite Z.mod_mul, Z.div_mul by lia. done.
Qed.

Lemma ObjectSlotOf_none s ptr :
  grid_wf s -> ObjectSlotOf s ptr <> SIZE_MAX ->
  exists k, 0 <= k < capacity s /\ ptr = slot_addr s k.
Proof.
  intros Hg. pose proof (grid_size_range s Hg) as Hsz. unfold ALIGNMENT, MAX_TC_SIZE in Hsz.
  pose proof (gw_capacity s Hg) as Hcap. unfold UINT32_MAX in Hcap.
  unfold ObjectSlotOf. rewrite u64_id by nia. destruct (_ || _) eqn:E; [done |]. bool_facts.
  set (off := ptr - GetDataBasePtr s) in *. destruct (negb _) eqn:Hm; [done |]. bool_facts. intros _.
  pose proof (Z.div_mod off (aligned_obj_size s) ltac:(lia)). exists (off / aligned_obj_size s).
  assert (0 <= off / aligned_obj_size s < capacity s) by nia.
  split; [done |]. apply slot_of_ptr; [done.. |]. split; [done |]. lia.
Qed.

(** ** Properties *)

(** C27: the span layout is sound and maximal.  Whenever a run of [n] pages carves
    at least one object of [sz] bytes, the bitmap has a bit per object and lies
    before the 16-aligned data area, the objects end inside the run and no 32-bit
    field truncates; and one more object would not fit behind that bitmap, or the
    objects and their bits would not fit the run.  Every configured size class
    carves at least one object from its run, so both compile-time checks of
    span.cpp hold. *)
Theorem ComputeSpanLayout_spec sz n :
  0 <= sz < W64 -> 0 <= n < W64 ->
  let L := ComputeSpanLayout sz n in
  (0 < ly_capacity L -> layout_ok sz n L /\ layout_maximal sz n L) /\
  (forall i, 0 <= i < kNumSizeClasses ->
     0 < ly_capacity (ComputeSpanLayout (Size i) (MovePagesByIndex i))) /\
  EveryClassFitsAtLeastOneObject = true /\ BitmapCoversEverySlot = true.
Proof.
  intros Hsz Hn L. split; [by apply ComputeSpanLayout_ok |].
  split; [apply class_layout_pos |]. split; vm_compute; reflexivity.
Qed.

Lemma ComputeSpanLayout_spec_witness :
  (0 < 511 -> layout_ok 64 8 (mkLayout 8 64 511) /\ layout_maximal 64 8 (mkLayout 8 64 511)) /\
  (forall i, 0 <= i < kNumSizeClasses ->
     0 < ly_capacity (ComputeSpanLayout (Size i) (MovePagesByIndex i))) /\
  EveryClassFitsAtLeastOneObject = true /\ BitmapCoversEverySlot = true.
Proof. apply (ComputeSpanLayout_spec 64 8); lia. Defined.

(** [Init] carves an exact size class.  Given a class size and a run that
    holds at least one object it succeeds with every slot free, and writes only
    the reserved bitmap words; a size that is not a class size and a run that
    is too small abort in every build, before anything is written. *)
Theorem Init_spec m s sz :
  0 <= sz < W64 -> run_ok s ->
  let i := Index sz in
  let L := ComputeSpanLayout sz (page_num s) in
  if (0 <? sz) && (sz <=? MAX_TC_SIZE) && (Size i =? sz) && (0 <? ly_capacity L)
  then exists m', let s' := with_usage (with_grid s i sz (ly_capacity L) (ly_obj_offset L)) 0 0 in
       Init m s sz = Ok (s', m') /\ span_rep m' s' (all_slots (capacity s')) /\
       same_except (words (GetPageBaseAddr s) 0 (ly_bitmap_num L)) m m'
  else exists why, Init m s sz = Abort why.
Proof.
  intros Hsz Hrun i L. destruct (_ && _ && _ && _) eqn:E.
  - bool_facts. assert (Hi : 0 <= i < kNumSizeClasses) by (apply Index_range; lia).
    pose proof (Init_rep m s i Hi Hrun) as HI.
    rename select (Size i = sz) into Hsi. rewrite Hsi in HI. by apply HI.
  - unfold Init. fold i L. destruct ((0 <? sz) && (sz <=? MAX_TC_SIZE)) eqn:E1; [| by eexists].
    cbn [AM_CHECK]. rewrite bind_Ok_l. simpl in E.
    destruct (Size i =? sz); [| rewrite andb_false_r; by eexists]. simpl in E. rewrite E.
    destruct (i <? kNumSizeClasses); by eexists.
Qed.

(** A run of 8 pages at page 16, carved into 64-byte objects. *)
Definition sample_run : Span := Span_new 16 8.
Definition sample : Span * mem :=
  match Init ∅ sample_run 64 with Ok r => r | _ => (sample_run, ∅) end.

Lemma Init_spec_witness :
  exists m', let s' := with_usage (with_grid sample_run 3 64 511 64) 0 0 in
    Init ∅ sample_run 64 = Ok (s', m') /\ span_rep m' s' (all_slots 511) /\
    same_except (words 65536 0 8) ∅ m'.
Proof. apply (Init_spec ∅ sample_run 64); [lia | repeat split; vm_compute; congruence]. Defined.

Lemma sample_rep : span_rep sample.2 sample.1 (all_slots 511).
Proof.
  destruct (Init_rep ∅ sample_run 3) as (m' & Heq & Hr & _);
    [rewrite kNumSizeClasses_val; lia | repeat split; vm_compute; congruence | done |].
  unfold sample. change 64 with (Size 3). rewrite Heq. exact Hr.
Qed.

(** C25: object allocation refines the set of free slots.  A full span returns
    null and changes nothing; otherwise [AllocObject] returns the lowest free
    slot, which is 16-aligned and inside the run, and removes it from the set.
    Freeing an allocated slot succeeds in every build and puts it back.  Only
    bitmap words and the usage counters change. *)
Theorem Span_refines_free_set `{Build} m s free k :
  span_rep m s free ->
  (if decide (free = ∅) then AllocObject m s = Ok (0, s, m) else
     exists k s' m', least_free free k /\ AllocObject m s = Ok (slot_addr s k, s', m') /\
       span_rep m' s' (free ∖ {[k]}) /\ same_grid s s' /\ same_except (bitmap_words s) m m' /\
       (ALIGNMENT | slot_addr s k) /\ GetDataBasePtr s <= slot_addr s k /\
       slot_addr s k + aligned_obj_size s <= GetPageBaseAddr s + page_num s * PAGE_SIZE) /\
  (0 <= k < capacity s -> (k ∉ free) ->
     exists s' m', FreeObject m s (slot_addr s k) = Ok (s', m') /\
       span_rep m' s' ({[k]} ∪ free) /\ same_grid s s' /\ same_except (bitmap_words s) m m').
Proof.
  intros Hr. pose proof (sr_grid _ _ _ Hr) as Hg. split; [| by apply FreeObject_rep].
  case_decide as Hf; [apply AllocObject_full; by rewrite <- Hf |].
  destruct (AllocObject_rep m s free Hr Hf) as (j & s' & m' & Hl & Ha & Hr' & Hs & Hfr).
  pose proof (sr_range _ _ _ Hr j (proj1 Hl)) as Hj.
  exists j, s', m'. do 5 (split; [done |]). split; [by apply slot_addr_aligned |].
  split; [| by apply slot_addr_eq].
  by apply (slot_of_ptr s (slot_addr s j) j).
Qed.

Lemma Span_refines_free_set_witness :
  (if decide (all_slots 511 = ∅) then AllocObject sample.2 sample.1 = Ok (0, sample.1, sample.2) else
     exists k s' m', least_free (all_slots 511) k /\
       AllocObject sample.2 sample.1 = Ok (slot_addr sample.1 k, s', m') /\
       span_rep m' s' (all_slots 511 ∖ {[k]}) /\ same_grid sample.1 s' /\
       same_except (bitmap_words sample.1) sample.2 m' /\
       (ALIGNMENT | slot_addr sample.1 k) /\ GetDataBasePtr sample.1 <= slot_addr sample.1 k /\
       slot_addr sample.1 k + aligned_obj_size sample.1
         <= GetPageBaseAddr sample.1 + page_num sample.1 * PAGE_SIZE) /\
  (0 <= 5 < capacity sample.1 -> (5 ∉ all_slots 511) ->
     exists s' m', FreeObject (H := release_build) sample.2 sample.1 (slot_addr sample.1 5)
         = Ok (s', m') /\
       span_rep m' s' ({[5]} ∪ all_slots 511) /\ same_grid sample.1 s' /\
       same_except (bitmap_words sample.1) sample.2 m').
Proof. apply (Span_refines_free_set (H := release_build)), sample_rep. Defined.

(** A fresh span hands out each slot exactly once, in address order:
    [capacity] allocations after [Init] return the pairwise disjoint slots from
    the first to the last, and the next one returns null. *)
Theorem Span_drain m s i :
  0 <= i < kNumSizeClasses -> run_ok s ->
  0 < ly_capacity (ComputeSpanLayout (Size i) (page_num s)) ->
  exists s0 m0 s' m', Init m s (Size i) = Ok (s0, m0) /\
    alloc_n (Z.to_nat (capacity s0)) m0 s0 = Ok (slot_addr s0 <$> seqZ 0 (capacity s0), s', m') /\
    AllocObject m' s' = Ok (0, s', m') /\ use_count s' = capacity s0 /\
    (forall j k, 0 <= j < capacity s0 -> 0 <= k < capacity s0 -> j < k ->
       slot_addr s0 j + Size i <= slot_addr s0 k).
Proof.
  intros Hi Hrun Hc. destruct (Init_rep m s i Hi Hrun Hc) as (m0 & Hinit & Hr & _).
  match type of Hinit with _ = Ok (?x, _) => set (s0 := x) in * end.
  pose proof (sr_grid _ _ _ Hr) as Hg. pose proof (gw_capacity s0 Hg) as Hcap.
  destruct (alloc_n_rep (Z.to_nat (capacity s0)) m0 s0 0) as (s' & m' & Hn & Hr' & Hs').
  { replace (capacity s0 - 0) with (capacity s0) by lia. exact Hr. }
  { done. }
  { lia. }
  rewrite Z2Nat.id in Hn by lia.
  exists s0, m0, s', m'. split; [done |]. split; [done |]. split; [by apply AllocObject_full |].
  split.
  - rewrite (sr_count _ _ _ Hr'), size_empty. rewrite Hs'. simpl. lia.
  - intros j k Hj Hk Hjk. destruct (slot_addr_eq s0 j Hg Hj) as [-> _].
    destruct (slot_addr_eq s0 k Hg Hk) as [-> _]. change (aligned_obj_size s0) with (Size i).
    pose proof (Size_range i Hi). unfold ALIGNMENT in *. nia.
Qed.

Lemma Span_drain_witness :
  exists s0 m0 s' m', Init ∅ sample_run (Size 3) = Ok (s0, m0) /\
    alloc_n (Z.to_nat (capacity s0)) m0 s0 = Ok (slot_addr s0 <$> seqZ 0 (capacity s0), s', m') /\
    AllocObject m' s' = Ok (0, s', m') /\ use_count s' = capacity s0 /\
    (forall j k, 0 <= j < capacity s0 -> 0 <= k < capacity s0 -> j < k ->
       slot_addr s0 j + Size 3 <= slot_addr s0 k).
Proof.
  apply Span_drain; [rewrite kNumSizeClasses_val; lia | repeat split; vm_compute; congruence | done].
Defined.

(** C26: a hardened (or debug) [FreeObject] accepts exactly the allocated slots.
    On any other address, whatever the caller passes, it aborts with the message
    of the first violated condition: below the data area, off the grid, past the
    last slot, or already free. *)
Theorem FreeObject_hardened `{Build} m s free ptr :
  (am_hardened || debug_build) = true -> span_rep m s free -> 0 <= ptr < W64 ->
  match free_verdict s free ptr with
  | Some why => FreeObject m s ptr = Abort why
  | None => exists k s' m', 0 <= k < capacity s /\ ptr = slot_addr s k /\ (k ∉ free) /\
      FreeObject m s ptr = Ok (s', m') /\ span_rep m' s' ({[k]} ∪ free)
  end /\
  (forall k, 0 <= k < capacity s ->
     free_verdict s free (slot_addr s k) =
       (if decide (k ∈ free) then Some "double free detected."%string else None)).
Proof.
  intros Hh Hr Hp. pose proof (sr_grid _ _ _ Hr) as Hg. split.
  - destruct (free_verdict s free ptr) as [why |] eqn:E; [by eapply FreeObject_verdict |].
    destruct (free_verdict_None _ _ _ Hg E) as (k & Hk & Hkf & ->).
    destruct (FreeObject_rep m s free k Hr Hk Hkf) as (s' & m' & Hf & Hr' & _).
    exists k, s', m'. split_and!; done || apply Hk.
  - intros k Hk. destruct (proj1 (slot_of_ptr s (slot_addr s k) k Hg Hk) eq_refl) as [Hle Heq].
    pose proof (grid_size_range s Hg) as Hsz. unfold ALIGNMENT in Hsz. unfold free_verdict.
    rewrite (proj2 (Z.ltb_ge _ _)) by done. rewrite Heq, Z.mod_mul, Z.div_mul by lia. simpl.
    rewrite (proj2 (Z.leb_gt _ _)) by lia.
    by case_decide; [rewrite bool_decide_eq_true_2 | rewrite bool_decide_eq_false_2].
Qed.

Lemma FreeObject_hardened_witness :
  match free_verdict sample.1 (all_slots 511) 65600 with
  | Some why => FreeObject (H := hardened_build) sample.2 sample.1 65600 = Abort why
  | None => exists k s' m', 0 <= k < capacity sample.1 /\ 65600 = slot_addr sample.1 k /\
      (k ∉ all_slots 511) /\ FreeObject (H := hardened_build) sample.2 sample.1 65600 = Ok (s', m') /\
      span_rep m' s' ({[k]} ∪ all_slots 511)
  end /\
  (forall k, 0 <= k < capacity sample.1 ->
     free_verdict sample.1 (all_slots 511) (slot_addr sample.1 k) =
       (if decide (k ∈ all_slots 511) then Some "double free detected."%string else None)).
Proof.
  apply (FreeObject_hardened (H := hardened_build)); [done | apply sample_rep | lia].
Defined.

(** [ObjectSlotOf] inverts the slot addresses: it returns [k] exactly on the
    address of slot [k], and [SIZE_MAX] everywhere else; a span that carves no
    objects always yields [SIZE_MAX]. *)
Theorem ObjectSlotOf_spec s ptr :
  (grid_wf s ->
     (forall k, 0 <= k < capacity s -> ObjectSlotOf s ptr = k <-> ptr = slot_addr s k) /\
     ((forall k, 0 <= k < capacity s -> ptr <> slot_addr s k) -> ObjectSlotOf s ptr = SIZE_MAX)) /\
  (capacity s = 0 -> ObjectSlotOf s ptr = SIZE_MAX).
Proof.
  split.
  - intros Hg. pose proof (gw_capacity s Hg) as Hcap. unfold UINT32_MAX in Hcap. split.
    + intros k Hk. split; [| intros ->; by apply ObjectSlotOf_slot]. intros Heq.
      destruct (ObjectSlotOf_none s ptr Hg) as (j & Hj & ->); [unfold SIZE_MAX; lia |].
      rewrite ObjectSlotOf_slot in Heq by done. by subst.
    + intros Hno. destruct (decide (ObjectSlotOf s ptr = SIZE_MAX)) as [| Hne]; [done |].
      destruct (ObjectSlotOf_none s ptr Hg Hne) as (j & Hj & ->). by destruct (Hno j Hj).
  - intros Hc. unfold ObjectSlotOf. rewrite Hc. change (u64 (0 * _)) with 0.
    destruct (Z.ltb_spec ptr (GetDataBasePtr s)); [done |].
    by rewrite (proj2 (Z.leb_le 0 _)) by lia.
Qed.

Lemma ObjectSlotOf_spec_witness :
  (grid_wf sample.1 ->
     (forall k, 0 <= k < capacity sample.1 ->
        ObjectSlotOf sample.1 65616 = k <-> 65616 = slot_addr sample.1 k) /\
     ((forall k, 0 <= k < capacity sample.1 -> 65616 <> slot_addr sample.1 k) ->
        ObjectSlotOf sample.1 65616 = SIZE_MAX)) /\
  (capacity sample.1 = 0 -> ObjectSlotOf sample.1 65616 = SIZE_MAX).
Proof. apply ObjectSlotOf_spec. Defined.
