(* ===== verification/SpanList.v ===== *)
(** * Span lists (include/ammalloc/span.h, [SpanList])

    Circular doubly linked lists with an inline sentinel, threaded through the
    [next] and [prev] members of the Span descriptors.  The descriptor store maps
    addresses to descriptors, sentinels included; the theorems show that the
    pointer surgery implements plain lists of addresses. *)
From S2P Require Import Prelude Config SizeClass Common Span.
Open Scope Z_scope.

(** ** The descriptor store *)

Abbreviation spans := (gmap Z Span).

Definition get_span (st : spans) (a : Z) : outcome Span :=
  if a =? 0 then UB "null Span dereference"
  else match st !! a with
       | Some s => Ok s
       | None => UB "dangling Span dereference"
       end.

(** [*a = f( *a )] for an update of some members. *)
Definition upd_span (st : spans) (a : Z) (f : Span -> Span) : outcome spans :=
  s ← get_span st a; Ok (<[a := f s]> st).

Definition set_next (st : spans) (a v : Z) : outcome spans :=
  upd_span st a (fun s => with_links s v (sp_prev s)).
Definition set_prev (st : spans) (a v : Z) : outcome spans :=
  upd_span st a (fun s => with_links s (sp_next s) v).

(** ** The list operations *)

(** The constructor: the sentinel at [head] points to itself. *)
Definition SpanList_new (st : spans) (head : Z) : outcome spans :=
  st ← set_next st head head; set_prev st head head.

Definition sl_begin (st : spans) (head : Z) : outcome Z :=
  s ← get_span st head; Ok (sp_next s).
Definition sl_end (head : Z) : Z := head.
(** [operator++] of the iterators. *)
Definition iter_next (st : spans) (node : Z) : outcome Z :=
  s ← get_span st node; Ok (sp_next s).

Definition sl_empty (st : spans) (head : Z) : outcome bool :=
  first ← sl_begin st head; Ok (first =? head).

Definition insert `{Build} (st : spans) (pos span : Z) : outcome spans :=
  _ ← AM_DCHECK (negb (pos =? 0) && negb (span =? 0)) "pos != nullptr && span != nullptr";
  st ← set_next st span pos;
  p ← get_span st pos;
  st ← set_prev st span (sp_prev p);
  s ← get_span st span;
  st ← set_next st (sp_prev s) span;
  set_prev st pos span.

Definition push_front `{Build} (st : spans) (head span : Z) : outcome spans :=
  first ← sl_begin st head; insert st first span.
Definition push_back `{Build} (st : spans) (head span : Z) : outcome spans :=
  insert st (sl_end head) span.

Definition erase `{Build} (st : spans) (head span : Z) : outcome (Z * spans) :=
  _ ← AM_DCHECK (negb (span =? 0) && negb (span =? head)) "span != nullptr && span != &head_";
  s ← get_span st span;
  let prev := sp_prev s in
  let next := sp_next s in
  st ← set_next st prev next;
  st ← set_prev st next prev;
  st ← set_prev st span 0;
  st ← set_next st span 0;
  Ok (next, st).

Definition pop_front `{Build} (st : spans) (head : Z) : outcome (Z * spans) :=
  e ← sl_empty st head;
  if e : bool then Ok (0, st)
  else span ← sl_begin st head;
       '(_, st) ← erase st head span;
       Ok (span, st).

(** ** Links *)

Definition next_of (st : spans) (a : Z) : option Z := sp_next <$> st !! a.
Definition prev_of (st : spans) (a : Z) : option Z := sp_prev <$> st !! a.

(** [a] and [b] are neighbours. *)
Definition linked (st : spans) (a b : Z) : Prop := next_of st a = Some b /\ prev_of st b = Some a.

Fixpoint path (R : Z -> Z -> Prop) (l : list Z) : Prop :=
  match l with
  | a :: (b :: _) as l' => R a b /\ path R l'
  | _ => True
  end.

(** The list at sentinel [h] contains exactly [l], in order. *)
Definition dll (st : spans) (h : Z) (l : list Z) : Prop :=
  path (linked st) (h :: l ++ [h]) /\ NoDup (h :: l) /\ 0 ∉ h :: l.

(** The link members apart, every descriptor is unchanged. *)
Definition span_data (s : Span) : Span := with_links s 0 0.
Definition same_data (st st' : spans) : Prop := forall a, span_data <$> st' !! a = span_data <$> st !! a.
(** Only the descriptors in [l] changed. *)
Definition spans_frame (l : list Z) (st st' : spans) : Prop := forall a, a ∉ l -> st' !! a = st !! a.

#[export] Instance same_data_equiv : Equivalence same_data.
Proof. split; [done | by intros st st' H a | intros s1 s2 s3 H1 H2 a; by rewrite H2, H1]. Qed.

Lemma spans_frame_refl l st : spans_frame l st st.
Proof. done. Qed.
Lemma spans_frame_trans l s1 s2 s3 : spans_frame l s1 s2 -> spans_frame l s2 s3 -> spans_frame l s1 s3.
Proof. intros H1 H2 a Ha. by rewrite H2, H1. Qed.
Lemma spans_frame_mono l l' st st' : l ⊆ l' -> spans_frame l st st' -> spans_frame l' st st'.
Proof. intros Hl H a Ha. apply H. set_solver. Qed.
#[export] Hint Resolve spans_frame_refl spans_frame_trans : amdb.

(** *** Paths *)

Lemma path_app R l1 a l2 : path R (l1 ++ a :: l2) <-> path R (l1 ++ [a]) /\ path R (a :: l2).
Proof.
  induction l1 as [| x [| y l1] IH]; simpl in *; [tauto | |].
  - destruct l2; simpl; tauto.
  - rewrite IH. tauto.
Qed.

Lemma path_impl R R' a l b :
  (forall x y, x ∈ a :: l -> y ∈ l ++ [b] -> R x y -> R' x y) ->
  path R (a :: l ++ [b]) -> path R' (a :: l ++ [b]).
Proof.
  revert a. induction l as [| x l IH]; intros a Hi; simpl.
  - intros [HR _]. split; [apply Hi; set_solver | done].
  - intros [HR Hp]. split; [apply Hi; set_solver |]. apply IH; [| done].
    intros y z Hy Hz. apply Hi; set_solver.
Qed.

Lemma path_impl_all R R' l :
  (forall x y, x ∈ l -> y ∈ l -> R x y -> R' x y) -> path R l -> path R' l.
Proof.
  induction l as [| a [| b l] IH]; simpl; intros Hi; [done.. |].
  intros [HR Hp]. split; [apply Hi; set_solver |]. apply IH; [| done].
  intros x y Hx Hy. apply Hi; set_solver.
Qed.

(** *** Link updates *)

Lemma get_span_Some st a s : a <> 0 -> st !! a = Some s -> get_span st a = Ok s.
Proof. intros Ha Hs. unfold get_span. rewrite (proj2 (Z.eqb_neq a 0)) by done. by rewrite Hs. Qed.

Lemma next_of_insert st a s b :
  next_of (<[a := s]> st) b = if decide (b = a) then Some (sp_next s) else next_of st b.
Proof.
  unfold next_of. case_decide as Hb; [subst b; by rewrite lookup_insert_eq |].
  by rewrite lookup_insert_ne by congruence.
Qed.

Lemma prev_of_insert st a s b :
  prev_of (<[a := s]> st) b = if decide (b = a) then Some (sp_prev s) else prev_of st b.
Proof.
  unfold prev_of. case_decide as Hb; [subst b; by rewrite lookup_insert_eq |].
  by rewrite lookup_insert_ne by congruence.
Qed.

Lemma same_data_insert st a s s' :
  st !! a = Some s -> span_data s' = span_data s -> same_data st (<[a := s']> st).
Proof.
  intros Hs Hd b. destruct (decide (b = a)) as [-> |].
  - rewrite lookup_insert_eq, Hs. simpl. by f_equal.
  - by rewrite lookup_insert_ne by congruence.
Qed.

Lemma spans_frame_insert st a s : spans_frame [a] st (<[a := s]> st).
Proof. intros b Hb. apply lookup_insert_ne. set_solver. Qed.

Lemma set_next_ok st a v :
  a <> 0 -> is_Some (st !! a) ->
  exists st', set_next st a v = Ok st' /\
    (forall b, next_of st' b = if decide (b = a) then Some v else next_of st b) /\
    (forall b, prev_of st' b = prev_of st b) /\ same_data st st' /\ spans_frame [a] st st'.
Proof.
  intros Ha [s Hs]. unfold set_next, upd_span. rewrite (get_span_Some _ _ _ Ha Hs).
  eexists. split; [reflexivity |].
  split; [intros b; apply next_of_insert |].
  split; [intros b; rewrite prev_of_insert; case_decide as Hb; [| done]; subst b |].
  { unfold prev_of. by rewrite Hs. }
  split; [by eapply same_data_insert | apply spans_frame_insert].
Qed.

Lemma set_prev_ok st a v :
  a <> 0 -> is_Some (st !! a) ->
  exists st', set_prev st a v = Ok st' /\
    (forall b, prev_of st' b = if decide (b = a) then Some v else prev_of st b) /\
    (forall b, next_of st' b = next_of st b) /\ same_data st st' /\ spans_frame [a] st st'.
Proof.
  intros Ha [s Hs]. unfold set_prev, upd_span. rewrite (get_span_Some _ _ _ Ha Hs).
  eexists. split; [reflexivity |].
  split; [intros b; apply prev_of_insert |].
  split; [intros b; rewrite next_of_insert; case_decide as Hb; [| done]; subst b |].
  { unfold next_of. by rewrite Hs. }
  split; [by eapply same_data_insert | apply spans_frame_insert].
Qed.

Lemma same_data_is_Some st st' a : same_data st st' -> is_Some (st !! a) -> is_Some (st' !! a).
Proof.
  intros Hd [s Hs]. specialize (Hd a). rewrite Hs in Hd. destruct (st' !! a); [by eexists | done].
Qed.

Lemma next_of_Some st a b : next_of st a = Some b -> exists s, st !! a = Some s /\ sp_next s = b.
Proof. unfold next_of. destruct (st !! a); naive_solver. Qed.
Lemma prev_of_Some st a b : prev_of st a = Some b -> exists s, st !! a = Some s /\ sp_prev s = b.
Proof. unfold prev_of. destruct (st !! a); naive_solver. Qed.

(** *** Lists *)

Lemma path_linked_mapped st h l x : path (linked st) (h :: l ++ [h]) -> x ∈ h :: l -> is_Some (st !! x).
Proof.
  intros Hp (l1 & l2 & Heq)%list_elem_of_split.
  assert (exists y, next_of st x = Some y) as (y & Hy).
  { rewrite app_comm_cons, Heq, <- app_assoc in Hp. simpl in Hp.
    apply path_app in Hp as [_ Hp]. destruct l2; simpl in Hp; destruct Hp as [[Hn _] _]; eauto. }
  apply next_of_Some in Hy as (s & -> & _). by eexists.
Qed.

Lemma dll_mapped st h l x : dll st h l -> x ∈ h :: l -> x <> 0 /\ is_Some (st !! x).
Proof.
  intros (Hp & _ & H0) Hx. split; [by intros -> | by eapply path_linked_mapped].
Qed.

(** The list around any position: its neighbours are linked. *)
Lemma dll_split st h l1 l2 :
  dll st h (l1 ++ l2) ->
  exists A p q B, h :: l1 = A ++ [p] /\ l2 ++ [h] = q :: B /\
    path (linked st) (A ++ [p]) /\ linked st p q /\ path (linked st) (q :: B).
Proof.
  intros (Hp & _ & _). destruct (exists_last (l := h :: l1)) as (A & p & HA); [done |].
  destruct (l2 ++ [h]) as [| q B] eqn:HB; [by destruct l2 |].
  exists A, p, q, B. split; [done |]. split; [done |].
  rewrite <- app_assoc, HB, app_comm_cons, HA, <- app_assoc in Hp. simpl in Hp.
  apply path_app in Hp as [H1 [H2 H3]]. done.
Qed.

Lemma NoDup_last_notin {A} (l : list A) x : NoDup (l ++ [x]) -> x ∉ l.
Proof. intros Hnd. apply NoDup_app in Hnd as (_ & Hd & _). intros Hx. apply (Hd x Hx). set_solver. Qed.

(** Rebuilding a list from its two halves. *)
Lemma dll_join st h l1 l2 mid A p q B :
  h :: l1 = A ++ [p] -> l2 ++ [h] = q :: B ->
  path (linked st) (A ++ [p]) -> path (linked st) (p :: mid ++ [q]) -> path (linked st) (q :: B) ->
  path (linked st) (h :: (l1 ++ mid ++ l2) ++ [h]).
Proof.
  intros HA HB H1 H2 H3. rewrite <- !app_assoc, HB, app_comm_cons, HA, <- app_assoc.
  change ([p] ++ mid ++ q :: B) with (p :: mid ++ q :: B).
  apply path_app. split; [done |]. rewrite app_comm_cons. apply path_app. done.
Qed.

Ltac step_link st' Hn Hv Hd Hf :=
  match goal with
  | |- context [set_next ?s ?a ?v] =>
      destruct (set_next_ok s a v) as (st' & -> & Hn & Hv & Hd & Hf)
  | |- context [set_prev ?s ?a ?v] =>
      destruct (set_prev_ok s a v) as (st' & -> & Hv & Hn & Hd & Hf)
  end.

(** [insert] relinks [p], the new node [x] and its successor [q]. *)
Lemma insert_effect `{Build} st p q x :
  prev_of st q = Some p -> p <> 0 -> q <> 0 -> x <> 0 -> x <> p -> x <> q ->
  is_Some (st !! p) -> is_Some (st !! x) ->
  exists st', insert st q x = Ok st' /\
    (forall b, next_of st' b = if decide (b = p) then Some x
               else if decide (b = x) then Some q else next_of st b) /\
    (forall b, prev_of st' b = if decide (b = q) then Some x
               else if decide (b = x) then Some p else prev_of st b) /\
    same_data st st' /\ spans_frame [x; p; q] st st'.
Proof.
  intros Hqp Hp0 Hq0 Hx0 Hxp Hxq Hpm Hxm.
  assert (Hqm : is_Some (st !! q)) by (apply prev_of_Some in Hqp as (s & -> & _); by eexists).
  unfold insert. rewrite (proj2 (Z.eqb_neq q 0)), (proj2 (Z.eqb_neq x 0)) by done.
  simpl negb. rewrite AM_DCHECK_true, bind_Ok_l.
  step_link s1 Hn1 Hv1 Hd1 Hf1; [done.. |]. rewrite bind_Ok_l.
  assert (Hq1 : prev_of s1 q = Some p) by (by rewrite Hv1).
  apply prev_of_Some in Hq1 as (sq & Hsq & Hsqp). rewrite (get_span_Some _ _ _ Hq0 Hsq), bind_Ok_l, Hsqp.
  step_link s2 Hn2 Hv2 Hd2 Hf2; [done | by eapply same_data_is_Some |]. rewrite bind_Ok_l.
  assert (Hx2 : prev_of s2 x = Some p) by (rewrite Hv2; by rewrite decide_True).
  apply prev_of_Some in Hx2 as (sx & Hsx & Hsxp). rewrite (get_span_Some _ _ _ Hx0 Hsx), bind_Ok_l, Hsxp.
  assert (Hd02 : same_data st s2) by (by etransitivity).
  step_link s3 Hn3 Hv3 Hd3 Hf3; [done | by eapply same_data_is_Some |]. rewrite bind_Ok_l.
  assert (Hd03 : same_data st s3) by (by etransitivity).
  step_link s4 Hn4 Hv4 Hd4 Hf4; [done | by eapply same_data_is_Some |].
  exists s4. split; [done |]. split; [| split; [| split]].
  - intros b. by rewrite Hn4, Hn3, Hn2, Hn1.
  - intros b. by rewrite Hv4, Hv3, Hv2, Hv1.
  - by etransitivity.
  - clear - Hf1 Hf2 Hf3 Hf4. intros a Ha. rewrite Hf4, Hf3, Hf2, Hf1 by set_solver. done.
Qed.

Lemma NoDup_parts h (l1 l2 : list Z) :
  NoDup (h :: l1 ++ l2) ->
  NoDup (h :: l1) /\ NoDup (l2 ++ [h]) /\ (forall a, a ∈ h :: l1 -> a ∉ l2) /\
  (forall a, a ∈ l1 -> a ∉ l2 ++ [h]).
Proof.
  intros [Hh (H1 & Hd & H2)%NoDup_app]%NoDup_cons.
  split; [constructor; [set_solver | done] |].
  split; [apply NoDup_app; split; [done | split; [set_solver | apply NoDup_singleton]] |].
  set_solver.
Qed.

(** The two ends of a position, with everything [insert] and [erase] need. *)
Record position (st : spans) (h : Z) (l1 l2 : list Z) (A : list Z) (p q : Z) (B : list Z) : Prop := {
  ps_left : h :: l1 = A ++ [p];
  ps_right : l2 ++ [h] = q :: B;
  ps_pathl : path (linked st) (A ++ [p]);
  ps_pathr : path (linked st) (q :: B);
  ps_nodupl : NoDup (A ++ [p]);
  ps_nodupr : NoDup (q :: B);
  ps_q : q ∈ h :: l2;
  ps_p : p ∈ h :: l1;
  ps_ql1 : q ∉ l1;
  ps_pl2 : p ∉ l2;
}.

Lemma position_intro st h l1 l2 A p q B :
  NoDup (h :: l1 ++ l2) -> h :: l1 = A ++ [p] -> l2 ++ [h] = q :: B ->
  path (linked st) (A ++ [p]) -> path (linked st) (q :: B) -> position st h l1 l2 A p q B.
Proof.
  intros (H1 & H2 & H3 & H4)%NoDup_parts HA HB HpA HpB.
  assert (Hp : p ∈ h :: l1) by (rewrite HA; set_solver).
  assert (Hq : q ∈ l2 ++ [h]) by (rewrite HB; set_solver).
  constructor; [done | done | done | done | by rewrite <- HA | by rewrite <- HB | | done | |].
  - clear - Hq. set_solver.
  - intros Hq1. by apply (H4 q).
  - by apply H3.
Qed.

(** Rewriting the links between [p] and [q] to run through [mid] gives the list
    with [mid] at that position. *)
Lemma relink st st' h l1 l2 A p q B mid :
  position st h l1 l2 A p q B ->
  (forall b, b ∈ h :: l1 ++ l2 -> b <> p -> next_of st' b = next_of st b) ->
  (forall b, b ∈ h :: l1 ++ l2 -> b <> q -> prev_of st' b = prev_of st b) ->
  path (linked st') (p :: mid ++ [q]) ->
  path (linked st') (h :: (l1 ++ mid ++ l2) ++ [h]).
Proof.
  intros Hpos Hn Hv Hm. eapply dll_join; [apply Hpos | apply Hpos | | done |].
  - pose proof (ps_left _ _ _ _ _ _ _ _ Hpos) as HA. pose proof (ps_ql1 _ _ _ _ _ _ _ _ Hpos) as Hq.
    pose proof (ps_nodupl _ _ _ _ _ _ _ _ Hpos) as Hnd. pose proof (ps_pathl _ _ _ _ _ _ _ _ Hpos) as HP.
    clear Hpos. destruct A as [| a A]; [done |]. simpl in HA. injection HA as <- HA.
    eapply path_impl; [| exact HP]. intros b c Hb Hc [H1 H2].
    assert (b <> p) by (intros ->; by apply (NoDup_last_notin (h :: A) p)).
    rewrite <- HA in Hc. split; [rewrite Hn; [done | | done] | rewrite Hv; [done | |]].
    + assert (b ∈ h :: l1) by (rewrite HA; clear - Hb; set_solver). clear - H0. set_solver.
    + clear - Hc. set_solver.
    + by intros ->.
  - pose proof (ps_right _ _ _ _ _ _ _ _ Hpos) as HB. pose proof (ps_pl2 _ _ _ _ _ _ _ _ Hpos) as Hp.
    pose proof (ps_nodupr _ _ _ _ _ _ _ _ Hpos) as Hnd. pose proof (ps_pathr _ _ _ _ _ _ _ _ Hpos) as HP.
    clear Hpos. destruct (exists_last (l := q :: B)) as (C & z & HC); [done |].
    rewrite HC in *. apply app_inj_tail in HB as [<- <-].
    destruct l2 as [| c l2]; [done |]. injection HC as <- ->. simpl in *.
    eapply path_impl; [| exact HP]. intros b d Hb Hd [H1 H2].
    assert (d <> q) by (intros ->; by apply NoDup_cons in Hnd as [? _]).
    split; [rewrite Hn; [done | |] | rewrite Hv; [done | | done]].
    + clear - Hb. set_solver.
    + by intros ->.
    + clear - Hd. set_solver.
Qed.

Lemma insert_dll `{Build} st h l1 l2 x :
  dll st h (l1 ++ l2) -> x ∉ h :: l1 ++ l2 -> x <> 0 -> is_Some (st !! x) ->
  exists st', insert st (default h (head l2)) x = Ok st' /\ dll st' h (l1 ++ x :: l2) /\
    same_data st st' /\ spans_frame (x :: h :: l1 ++ l2) st st'.
Proof.
  intros Hl Hx Hx0 Hxm. pose proof Hl as (_ & Hnd & Hz).
  destruct (dll_split _ _ _ _ Hl) as (A & p & q & B & HA & HB & HpA & [Hpq Hqp] & HqB).
  pose proof (position_intro _ _ _ _ _ _ _ _ Hnd HA HB HpA HqB) as Hpos.
  assert (Hq : default h (head l2) = q) by (destruct l2; simpl in *; congruence).
  assert (Hpin : p ∈ h :: l1 ++ l2) by (pose proof (ps_p _ _ _ _ _ _ _ _ Hpos); clear - H0; set_solver).
  assert (Hqin : q ∈ h :: l1 ++ l2) by (pose proof (ps_q _ _ _ _ _ _ _ _ Hpos); clear - H0; set_solver).
  destruct (dll_mapped _ _ _ p Hl Hpin) as [Hp0 Hpm]. destruct (dll_mapped _ _ _ q Hl Hqin) as [Hq0 _].
  assert (Hxp : x <> p) by congruence. assert (Hxq : x <> q) by congruence.
  rewrite Hq. destruct (insert_effect st p q x Hqp) as (st' & -> & Hnext & Hprev & Hd & Hf); [done.. |].
  exists st'. split; [done |]. split; [split; [| split] | split; [done |]].
  - change (x :: l2) with ([x] ++ l2).
    eapply relink; [exact Hpos | | |].
    + intros b Hb Hbp. rewrite Hnext, !decide_False by congruence. done.
    + intros b Hb Hbq. rewrite Hprev, !decide_False by congruence. done.
    + simpl. unfold linked. rewrite !Hnext, !Hprev.
      rewrite (decide_True (P := p = p)), (decide_True (P := q = q)), (decide_False (P := x = q)),
        (decide_False (P := x = p)), !(decide_True (P := x = x)) by done. done.
  - assert (Hperm : h :: l1 ++ x :: l2 ≡ₚ x :: h :: l1 ++ l2) by solve_Permutation.
    rewrite Hperm. by constructor.
  - clear - Hz Hx0. set_solver.
  - eapply spans_frame_mono; [| exact Hf]. clear - Hpin Hqin. set_solver.
Qed.

(** [erase] links the neighbours [p] and [q] of [x] and clears [x]. *)
Lemma erase_effect `{Build} st h p q x :
  next_of st x = Some q -> prev_of st x = Some p -> p <> 0 -> q <> 0 -> x <> 0 -> x <> h ->
  x <> p -> x <> q -> is_Some (st !! p) -> is_Some (st !! q) ->
  exists st', erase st h x = Ok (q, st') /\
    (forall b, b <> x -> next_of st' b = if decide (b = p) then Some q else next_of st b) /\
    (forall b, b <> x -> prev_of st' b = if decide (b = q) then Some p else prev_of st b) /\
    next_of st' x = Some 0 /\ prev_of st' x = Some 0 /\
    same_data st st' /\ spans_frame [x; p; q] st st'.
Proof.
  intros Hxn Hxpv Hp0 Hq0 Hx0 Hxh Hxp Hxq Hpm Hqm.
  apply next_of_Some in Hxn as (s & Hs & Hsn). 
  assert (Hsp : sp_prev s = p) by (unfold prev_of in Hxpv; rewrite Hs in Hxpv; simpl in Hxpv; congruence).
  assert (Hxm : is_Some (st !! x)) by (by eexists).
  unfold erase. rewrite (proj2 (Z.eqb_neq x 0)), (proj2 (Z.eqb_neq x h)) by done. simpl negb.
  rewrite AM_DCHECK_true, bind_Ok_l, (get_span_Some _ _ _ Hx0 Hs), bind_Ok_l, Hsn, Hsp.
  step_link s1 Hn1 Hv1 Hd1 Hf1; [done.. |]. rewrite bind_Ok_l.
  step_link s2 Hn2 Hv2 Hd2 Hf2; [done | by eapply same_data_is_Some |]. rewrite bind_Ok_l.
  assert (Hd02 : same_data st s2) by (by etransitivity).
  step_link s3 Hn3 Hv3 Hd3 Hf3; [done | by eapply same_data_is_Some |]. rewrite bind_Ok_l.
  assert (Hd03 : same_data st s3) by (by etransitivity).
  step_link s4 Hn4 Hv4 Hd4 Hf4; [done | by eapply same_data_is_Some |]. rewrite bind_Ok_l.
  exists s4. split; [done |]. split; [| split; [| split; [| split; [| split]]]].
  - intros b Hb. rewrite Hn4, decide_False, Hn3, Hn2, Hn1 by done. done.
  - intros b Hb. rewrite Hv4, Hv3, decide_False, Hv2, Hv1 by done. done.
  - rewrite Hn4. by rewrite decide_True.
  - rewrite Hv4, Hv3. by rewrite decide_True.
  - by etransitivity.
  - clear - Hf1 Hf2 Hf3 Hf4. intros a Ha. rewrite Hf4, Hf3, Hf2, Hf1 by set_solver. done.
Qed.

Lemma erase_dll `{Build} st h l1 l2 x :
  dll st h (l1 ++ x :: l2) ->
  exists st', erase st h x = Ok (default h (head l2), st') /\ dll st' h (l1 ++ l2) /\
    next_of st' x = Some 0 /\ prev_of st' x = Some 0 /\
    same_data st st' /\ spans_frame (h :: l1 ++ x :: l2) st st'.
Proof.
  intros Hl. pose proof Hl as (Hpath & Hnd & Hz).
  assert (Hperm : h :: l1 ++ x :: l2 ≡ₚ x :: h :: l1 ++ l2) by solve_Permutation.
  assert (Hnd' : NoDup (x :: h :: l1 ++ l2)) by (by rewrite <- Hperm).
  apply NoDup_cons in Hnd' as [Hx Hnd'].
  destruct (exists_last (l := h :: l1)) as (A & p & HA); [done |].
  destruct (l2 ++ [h]) as [| q B] eqn:HB; [by destruct l2 |].
  assert (Hpaths : path (linked st) (A ++ [p]) /\ (linked st p x /\ linked st x q) /\
                   path (linked st) (q :: B)).
  { rewrite <- app_assoc in Hpath. cbn [app] in Hpath.
    rewrite HB, app_comm_cons, HA, <- app_assoc in Hpath.
    apply path_app in Hpath as [? (? & ? & ?)]. done. }
  destruct Hpaths as (HpA & ([_ Hxp] & [Hxq _]) & HqB).
  pose proof (position_intro _ _ _ _ _ _ _ _ Hnd' HA HB HpA HqB) as Hpos.
  assert (Hq : default h (head l2) = q) by (destruct l2; simpl in *; congruence).
  assert (Hpin : p ∈ h :: l1 ++ l2) by (pose proof (ps_p _ _ _ _ _ _ _ _ Hpos); clear - H0; set_solver).
  assert (Hqin : q ∈ h :: l1 ++ l2) by (pose proof (ps_q _ _ _ _ _ _ _ _ Hpos); clear - H0; set_solver).
  destruct (dll_mapped _ _ _ p Hl) as [Hp0 Hpm]; [clear - Hpin; set_solver |].
  destruct (dll_mapped _ _ _ q Hl) as [Hq0 Hqm]; [clear - Hqin; set_solver |].
  destruct (dll_mapped _ _ _ x Hl) as [Hx0 _]; [clear; set_solver |].
  assert (x <> p) by congruence. assert (x <> q) by congruence.
  assert (x <> h) by (clear - Hx; set_solver).
  destruct (erase_effect st h p q x) as (st' & -> & Hnext & Hprev & Hx1 & Hx2 & Hd & Hf); [done.. |].
  rewrite Hq. exists st'. split; [done |]. split; [split; [| split] | split; [done | split; [done | split; [done |]]]].
  - change (l1 ++ l2) with (l1 ++ [] ++ l2). eapply relink; [exact Hpos | | |].
    + intros b Hb Hbp. rewrite Hnext by congruence. by rewrite decide_False.
    + intros b Hb Hbq. rewrite Hprev by congruence. by rewrite decide_False.
    + simpl. unfold linked. rewrite Hnext, Hprev by done. by rewrite !decide_True.
  - done.
  - clear - Hz. set_solver.
  - eapply spans_frame_mono; [| exact Hf]. clear - Hpin Hqin. set_solver.
Qed.

Lemma sl_begin_dll st h l : dll st h l -> sl_begin st h = Ok (default h (head l)).
Proof.
  intros Hl. pose proof Hl as (Hp & _). destruct (dll_mapped _ _ _ h Hl) as [H0 [s Hs]]; [set_solver |].
  unfold sl_begin. rewrite (get_span_Some _ _ _ H0 Hs), bind_Ok_l. f_equal.
  assert (Hn : next_of st h = Some (default h (head l))) by (destruct l; simpl in Hp; apply Hp).
  unfold next_of in Hn. rewrite Hs in Hn. simpl in Hn. congruence.
Qed.

Lemma sl_empty_dll st h l : dll st h l -> sl_empty st h = Ok (bool_decide (l = [])).
Proof.
  intros Hl. unfold sl_empty. rewrite (sl_begin_dll _ _ _ Hl), bind_Ok_l. f_equal.
  destruct l as [| x l]; simpl; [by rewrite Z.eqb_refl |]. apply Z.eqb_neq. intros ->.
  destruct Hl as (_ & [Hnd _]%NoDup_cons & _). set_solver.
Qed.

Lemma push_front_dll `{Build} st h l x :
  dll st h l -> x ∉ h :: l -> x <> 0 -> is_Some (st !! x) ->
  exists st', push_front st h x = Ok st' /\ dll st' h (x :: l) /\
    same_data st st' /\ spans_frame (x :: h :: l) st st'.
Proof.
  intros Hl Hx Hx0 Hxm. unfold push_front. rewrite (sl_begin_dll _ _ _ Hl), bind_Ok_l.
  by apply (insert_dll st h [] l).
Qed.

Lemma push_back_dll `{Build} st h l x :
  dll st h l -> x ∉ h :: l -> x <> 0 -> is_Some (st !! x) ->
  exists st', push_back st h x = Ok st' /\ dll st' h (l ++ [x]) /\
    same_data st st' /\ spans_frame (x :: h :: l) st st'.
Proof.
  intros Hl Hx Hx0 Hxm. unfold push_back, sl_end.
  destruct (insert_dll st h l [] x) as (st' & Hi & ?); rewrite ?app_nil_r; [done.. |].
  exists st'. rewrite app_nil_r in *. done.
Qed.

Lemma pop_front_dll `{Build} st h l :
  dll st h l ->
  exists st', pop_front st h = Ok (default 0 (head l), st') /\ dll st' h (tail l) /\
    (forall x, head l = Some x -> next_of st' x = Some 0 /\ prev_of st' x = Some 0) /\
    same_data st st' /\ spans_frame (h :: l) st st'.
Proof.
  intros Hl. unfold pop_front. rewrite (sl_empty_dll _ _ _ Hl), bind_Ok_l.
  destruct l as [| x l]; simpl.
  - exists st. done.
  - rewrite (sl_begin_dll _ _ _ Hl). simpl.
    destruct (erase_dll st h [] l x Hl) as (st' & -> & Hl' & H1 & H2 & Hd & Hf). simpl.
    exists st'. split; [done |]. split; [done |]. split; [by intros ? [= <-] | done].
Qed.

Lemma dll_ext st st' h l : (forall a, a ∈ h :: l -> st' !! a = st !! a) -> dll st h l -> dll st' h l.
Proof.
  intros Heq (Hp & Hnd & Hz). split; [| done]. eapply path_impl; [| exact Hp].
  intros a b Ha Hb [H1 H2]. unfold linked, next_of, prev_of in *.
  rewrite !Heq by set_solver. done.
Qed.

Lemma dll_frame st st' h l ls :
  spans_frame ls st st' -> (forall a, a ∈ h :: l -> a ∉ ls) -> dll st h l -> dll st' h l.
Proof. intros Hf Hout. apply dll_ext. auto. Qed.

(** Changing other members of the descriptors leaves every list in place. *)
Lemma dll_data st st' h l :
  (forall a, next_of st' a = next_of st a) -> (forall a, prev_of st' a = prev_of st a) ->
  dll st h l -> dll st' h l.
Proof.
  intros Hn Hv (Hp & Hnd & Hz). split; [| done]. eapply path_impl; [| exact Hp].
  intros a b _ _ [H1 H2]. split; [by rewrite Hn | by rewrite Hv].
Qed.

Lemma SpanList_new_dll st h :
  h <> 0 -> is_Some (st !! h) ->
  exists st', SpanList_new st h = Ok st' /\ dll st' h [] /\ same_data st st' /\ spans_frame [h] st st'.
Proof.
  intros Hh Hm. unfold SpanList_new.
  step_link s1 Hn1 Hv1 Hd1 Hf1; [done.. |]. rewrite bind_Ok_l.
  step_link s2 Hn2 Hv2 Hd2 Hf2; [done | by eapply same_data_is_Some |].
  exists s2. split; [done |]. split; [| split; [by etransitivity | by eapply spans_frame_trans]].
  split; [| split; [apply NoDup_singleton | set_solver]]. simpl. unfold linked.
  rewrite Hn2, Hv2, Hn1. by rewrite !decide_True.
Qed.

(** ** The list interface *)

(** [for (auto it = begin(); it != end(); ++it)] collecting the nodes; [n]
    bounds the number of steps. *)
Fixpoint traverse_from (st : spans) (head : Z) (n : nat) (node : Z) : outcome (list Z) :=
  if node =? sl_end head then Ok []
  else match n with
       | O => NoFuel
       | S n' => next ← iter_next st node; rest ← traverse_from st head n' next; Ok (node :: rest)
       end.
Definition traverse (st : spans) (head : Z) (n : nat) : outcome (list Z) :=
  first ← sl_begin st head; traverse_from st head n first.

Lemma traverse_from_dll st h l n a R :
  path R (a :: l ++ [h]) -> (forall x y, R x y -> x <> 0 /\ exists s, st !! x = Some s /\ sp_next s = y) ->
  h ∉ l -> (length l <= n)%nat ->
  forall first, R a first -> first = default h (head l) -> traverse_from st h n first = Ok l.
Proof.
  intros Hp HR Hh. revert a n Hp. induction l as [| x l IH]; intros a n Hp Hn first Ha ->.
  - destruct n; simpl; unfold sl_end; by rewrite Z.eqb_refl.
  - destruct n as [| n]; simpl in Hn; [lia |]. simpl in *. destruct Hp as [_ Hp].
    unfold sl_end. rewrite (proj2 (Z.eqb_neq x h)) by set_solver.
    assert (Hx : R x (default h (head l))) by (destruct l; apply Hp).
    destruct (HR _ _ Hx) as (Hx0 & s & Hs & Hsn). unfold iter_next.
    rewrite (get_span_Some _ _ _ Hx0 Hs), !bind_Ok_l, Hsn.
    rewrite (IH ltac:(set_solver) x n Hp ltac:(lia) _ Hx eq_refl). done.
Qed.

Lemma traverse_dll st h l n : dll st h l -> (length l <= n)%nat -> traverse st h n = Ok l.
Proof.
  intros Hl Hn. unfold traverse. rewrite (sl_begin_dll _ _ _ Hl), bind_Ok_l.
  destruct Hl as (Hp & [Hh _]%NoDup_cons & Hz).
  eapply (traverse_from_dll st h l n h (fun a b => linked st a b /\ a ∈ h :: l)).
  - eapply path_impl; [| exact Hp]. by intros x y Hx _ ?.
  - intros x y [[Hn' _] Hx]. split; [by intros -> |]. by apply next_of_Some.
  - done.
  - done.
  - split; [| set_solver]. destruct l; apply Hp.
  - done.
Qed.

Inductive sl_op := LPushFront (x : Z) | LPushBack (x : Z) | LInsert (pos x : Z) | LErase (x : Z) | LPopFront.

(** Runs a call; the pointer is what [erase] and [pop_front] return. *)
Definition sl_exec `{Build} (op : sl_op) (st : spans) (h : Z) : outcome (Z * spans) :=
  match op with
  | LPushFront x => st ← push_front st h x; Ok (0, st)
  | LPushBack x => st ← push_back st h x; Ok (0, st)
  | LInsert pos x => st ← insert st pos x; Ok (0, st)
  | LErase x => erase st h x
  | LPopFront => pop_front st h
  end.

Fixpoint insert_before (pos x : Z) (l : list Z) : list Z :=
  match l with
  | [] => [x]
  | y :: l' => if y =? pos then x :: l else y :: insert_before pos x l'
  end.

(** The elements around [x]. *)
Fixpoint remove_node (x : Z) (l : list Z) : list Z :=
  match l with
  | [] => []
  | y :: l' => if y =? x then l' else y :: remove_node x l'
  end.
Fixpoint successor (h x : Z) (l : list Z) : Z :=
  match l with
  | [] => h
  | y :: l' => if y =? x then default h (head l') else successor h x l'
  end.

Definition sl_spec (h : Z) (op : sl_op) (l : list Z) : Z * list Z :=
  match op with
  | LPushFront x => (0, x :: l)
  | LPushBack x => (0, l ++ [x])
  | LInsert pos x => (0, insert_before pos x l)
  | LErase x => (successor h x l, remove_node x l)
  | LPopFront => (default 0 (head l), tail l)
  end.

(** A new node is a live, unlinked descriptor; a named node is in the list. *)
Definition sl_op_ok (st : spans) (h : Z) (op : sl_op) (l : list Z) : Prop :=
  match op with
  | LPushFront x | LPushBack x => (x ∉ h :: l) /\ x <> 0 /\ is_Some (st !! x)
  | LInsert pos x => pos ∈ h :: l /\ (x ∉ h :: l) /\ x <> 0 /\ is_Some (st !! x)
  | LErase x => x ∈ l
  | LPopFront => True
  end.

Definition sl_touched (h : Z) (op : sl_op) (l : list Z) : list Z :=
  match op with
  | LPushFront x | LPushBack x | LInsert _ x => x :: h :: l
  | LErase _ | LPopFront => h :: l
  end.

Lemma insert_before_app pos x l1 l2 :
  pos ∉ l1 -> (head l2 = Some pos \/ (l2 = [])) ->
  insert_before pos x (l1 ++ l2) = l1 ++ x :: l2.
Proof.
  intros H1 H2. induction l1 as [| y l1 IH]; simpl.
  - destruct H2 as [H2 | ->]; [| done]. destruct l2 as [| z l2]; [done |]. simpl in *.
    injection H2 as ->. by rewrite Z.eqb_refl.
  - rewrite (proj2 (Z.eqb_neq y pos)) by set_solver. by rewrite IH by set_solver.
Qed.

Lemma remove_node_app h x l1 l2 :
  x ∉ l1 -> remove_node x (l1 ++ x :: l2) = l1 ++ l2 /\
            successor h x (l1 ++ x :: l2) = default h (head l2).
Proof.
  intros H1. induction l1 as [| y l1 IH]; simpl; [by rewrite Z.eqb_refl |].
  rewrite (proj2 (Z.eqb_neq y x)) by set_solver. destruct IH as [-> ->]; [set_solver | done].
Qed.

(** ** Properties *)

(** every [SpanList] call refines the operation on a list of addresses, in
    every build: insertion before any position (the sentinel included), removal
    of any node, which returns its successor, and removal of the front node,
    which returns null on an empty list.  No call fails; only the link members
    of the nodes involved are written, and the emptiness test and the iterators agree with the resulting list. *)
Theorem SpanList_refines_list `{Build} st h op l :
  dll st h l -> sl_op_ok st h op l ->
  exists st', sl_exec op st h = Ok ((sl_spec h op l).1, st') /\
    dll st' h (sl_spec h op l).2 /\
    same_data st st' /\ spans_frame (sl_touched h op l) st st' /\
    sl_empty st' h = Ok (bool_decide ((sl_spec h op l).2 = [])) /\
    traverse st' h (S (length l)) = Ok (sl_spec h op l).2.
Proof.
  intros Hl Hok.
  enough (exists st', sl_exec op st h = Ok ((sl_spec h op l).1, st') /\ dll st' h (sl_spec h op l).2 /\
    same_data st st' /\ spans_frame (sl_touched h op l) st st' /\
    (length (sl_spec h op l).2 <= S (length l))%nat) as (st' & He & Hl' & Hd & Hf & Hlen).
  { exists st'. do 4 (split; [done |]). split; [by apply sl_empty_dll | by apply traverse_dll]. }
  destruct op as [x | x | pos x | x |]; simpl in *.
  - destruct Hok as (? & ? & ?). destruct (push_front_dll st h l x) as (st' & -> & ? & ? & ?); [done.. |].
    exists st'. split_and!; done || simpl; lia.
  - destruct Hok as (? & ? & ?). destruct (push_back_dll st h l x) as (st' & -> & ? & ? & ?); [done.. |].
    exists st'. rewrite length_app. split_and!; done || simpl; lia.
  - destruct Hok as (Hpos & ? & ? & ?). pose proof Hl as (_ & [Hh Hnd]%NoDup_cons & _).
    assert (exists l1 l2, l = l1 ++ l2 /\ default h (head l2) = pos /\ (pos ∉ l1) /\
              (head l2 = Some pos \/ l2 = [])) as (l1 & l2 & -> & Hd & Hin & Hor).
    { apply elem_of_cons in Hpos as [-> | (l1 & l2 & ->)%list_elem_of_split].
      - exists l, []. rewrite app_nil_r. tauto.
      - exists l1, (pos :: l2). split_and!; [done | done | | by left].
        apply NoDup_app in Hnd as (_ & Hnd & _). intros Hp. apply (Hnd _ Hp). set_solver. }
    destruct (insert_dll st h l1 l2 x) as (st' & Hi & ? & ? & ?); [done.. |]. rewrite <- Hd, Hi.
    exists st'. rewrite Hd, insert_before_app by done. rewrite !length_app. simpl.
    split_and!; done || lia.
  - apply list_elem_of_split in Hok as (l1 & l2 & ->).
    assert (x ∉ l1).
    { destruct Hl as (_ & [_ Hnd]%NoDup_cons & _). apply NoDup_app in Hnd as (_ & Hnd & _).
      intros Hx. apply (Hnd _ Hx). set_solver. }
    destruct (remove_node_app h x l1 l2) as [-> ->]; [done |].
    destruct (erase_dll st h l1 l2 x Hl) as (st' & -> & ? & _ & _ & ? & ?).
    exists st'. rewrite !length_app. simpl. split_and!; done || lia.
  - destruct (pop_front_dll st h l Hl) as (st' & -> & ? & _ & ? & ?). exists st'.
    split_and!; try done. destruct l; simpl; lia.
Qed.

(** A sentinel at 8 with the nodes 128 and 192, and an unlinked descriptor at 256. *)
Definition sample_spans : spans :=
  list_to_map [(8, with_links (Span_new 0 0) 128 192); (128, with_links (Span_new 5 2) 192 8);
               (192, with_links (Span_new 9 1) 8 128); (256, Span_new 20 4)].

Lemma sample_dll : dll sample_spans 8 [128; 192].
Proof.
  split; [| split].
  - repeat split; reflexivity.
  - repeat constructor; set_solver.
  - set_solver.
Qed.

Lemma SpanList_refines_list_witness :
  exists st', sl_exec (H := debug_build_config) (LInsert 192 256) sample_spans 8 = Ok (0, st') /\
    dll st' 8 [128; 256; 192] /\ same_data sample_spans st' /\
    spans_frame [256; 8; 128; 192] sample_spans st' /\ sl_empty st' 8 = Ok false /\
    traverse st' 8 3 = Ok [128; 256; 192].
Proof.
  apply (SpanList_refines_list (H := debug_build_config) sample_spans 8 (LInsert 192 256) [128; 192]
    sample_dll). split_and!; [set_solver | set_solver | done | by eexists].
Defined.
