(* ===== verification/Backing.v ===== *)
(** * What the page cache takes from the layers below it

    The page map and the page cache obtain page runs from [PageAllocator], Span
    descriptors and radix nodes from two [ObjectPool]s, and timestamps from the
    steady clock.  [Backing] names these operations, [BackingLaws] states what
    they promise, in terms of three finite sets: the pages held by clients of the
    page allocator, the live descriptors and the live radix nodes.  The clients'
    theorems are proved against this interface; the allocator and the pools
    discharge it. *)
From S2P Require Import Prelude Config.
Open Scope Z_scope.

(** The page numbers of a run. *)
Definition pages (start num : Z) : gset Z := list_to_set (seqZ start num).

Lemma elem_of_pages p start num : p ∈ pages start num <-> start <= p < start + num.
Proof. unfold pages. rewrite elem_of_list_to_set, elem_of_seqZ. lia. Qed.

Lemma pages_split start n1 n2 :
  0 <= n1 -> 0 <= n2 -> pages start (n1 + n2) = pages start n1 ∪ pages (start + n1) n2.
Proof. intros H1 H2. apply set_eq. intros p. rewrite elem_of_union, !elem_of_pages. lia. Qed.

(** Page numbers stay below the user half of the address space the kernel
    hands out, so that every end address and page count fits its field. *)
Definition PAGE_LIMIT `{Build} : Z := 2 ^ PAGE_ID_BITS.

Lemma PAGE_LIMIT_val `{Build} :
  PAGE_LIMIT = if use_57bit_va then 35184372088832 else 68719476736.
Proof. unfold PAGE_LIMIT, PAGE_ID_BITS, VA_BITS. by destruct use_57bit_va. Qed.

(** A source of page runs: [PageAllocator::SystemAlloc] and [SystemFree].  The
    laws speak of the set of pages its clients hold. *)
Class PageSource (P : Type) := {
  ps_SystemAlloc : Z -> P -> outcome (Z * P);
  ps_SystemFree : Z -> Z -> P -> outcome P;
}.

Class PageSourceLaws (P : Type) `{Build} `{PageSource P} := {
  ps_rep : P -> gset Z -> Prop;
  ps_alloc_ok s R n :
    ps_rep s R -> 0 <= n < W64 ->
    exists p s', ps_SystemAlloc n s = Ok (p, s') /\
      (p = 0 /\ ps_rep s' R \/
       exists pid, p = pid * PAGE_SIZE /\ 0 < n /\ 0 < pid /\ pid + n < PAGE_LIMIT /\
         R ## pages pid n /\ ps_rep s' (R ∪ pages pid n));
  ps_free_ok s R pid n :
    ps_rep s R -> 0 < pid -> 0 < n -> pid + n < PAGE_LIMIT -> pages pid n ⊆ R ->
    exists s', ps_SystemFree (pid * PAGE_SIZE) n s = Ok s' /\ ps_rep s' (R ∖ pages pid n);
}.

(** Everything the page cache takes: pages, descriptors, radix nodes and time. *)
Class Backing (W : Type) := {
  bk_SystemAlloc : Z -> W -> outcome (Z * W);
  bk_SystemFree : Z -> Z -> W -> outcome W;
  bk_span_TryNew : W -> outcome (Z * W);
  bk_span_Delete : Z -> W -> outcome W;
  bk_span_ReleaseMemory : W -> outcome W;
  bk_node_TryNew : W -> outcome (Z * W);
  bk_node_ReleaseMemory : W -> outcome W;
  bk_now : W -> Z * W;
}.

Class BackingLaws (W : Type) `{Build} `{Backing W} := {
  (** client pages, live descriptors, live radix nodes *)
  bk_rep : W -> gset Z -> gset Z -> gset Z -> Prop;
  bk_alloc_ok w R S N n :
    bk_rep w R S N -> 0 <= n < W64 ->
    exists p w', bk_SystemAlloc n w = Ok (p, w') /\
      (p = 0 /\ bk_rep w' R S N \/
       exists pid, p = pid * PAGE_SIZE /\ 0 < n /\ 0 < pid /\ pid + n < PAGE_LIMIT /\
         R ## pages pid n /\ bk_rep w' (R ∪ pages pid n) S N);
  bk_free_ok w R S N pid n :
    bk_rep w R S N -> 0 < pid -> 0 < n -> pid + n < PAGE_LIMIT -> pages pid n ⊆ R ->
    exists w', bk_SystemFree (pid * PAGE_SIZE) n w = Ok w' /\ bk_rep w' (R ∖ pages pid n) S N;
  bk_span_new_ok w R S N :
    bk_rep w R S N ->
    exists a w', bk_span_TryNew w = Ok (a, w') /\
      (a = 0 /\ bk_rep w' R S N \/
       a <> 0 /\ (a ∉ S) /\ (a / PAGE_SIZE ∉ R) /\ bk_rep w' R ({[a]} ∪ S) N);
  bk_span_delete_ok w R S N a :
    bk_rep w R S N -> a ∈ S ->
    exists w', bk_span_Delete a w = Ok w' /\ bk_rep w' R (S ∖ {[a]}) N;
  bk_span_release_ok w R S N :
    bk_rep w R S N -> exists w', bk_span_ReleaseMemory w = Ok w' /\ bk_rep w' R ∅ N;
  bk_node_new_ok w R S N :
    bk_rep w R S N ->
    exists a w', bk_node_TryNew w = Ok (a, w') /\
      (a = 0 /\ bk_rep w' R S N \/
       a <> 0 /\ (a ∉ N) /\ (a / PAGE_SIZE ∉ R) /\ bk_rep w' R S ({[a]} ∪ N));
  bk_node_release_ok w R S N :
    bk_rep w R S N -> exists w', bk_node_ReleaseMemory w = Ok w' /\ bk_rep w' R S ∅;
  bk_now_ok w R S N : bk_rep w R S N -> bk_rep (bk_now w).2 R S N;
}.

(** ** Setting pages aside

    A backing whose clients leave the pages [P] alone satisfies the laws too: so
    everything proved from the laws holds while somebody else owns [P]. *)
Section Reserve.
Context {W : Type} `{BackingLaws W}.

Definition reserve_rep (P : gset Z) (w : W) (R S N : gset Z) : Prop := P ## R /\ bk_rep w (R ∪ P) S N.

Definition reserve_laws (P : gset Z) : BackingLaws W.
Proof.
  refine (@Build_BackingLaws W _ _ (reserve_rep P) _ _ _ _ _ _ _ _); unfold reserve_rep.
  - intros w R S N n [HP Hr] Hn. destruct (bk_alloc_ok w _ S N n Hr Hn) as (p & w' & E & Hc). exists p, w'. split; [done |].
    destruct Hc as [[-> Hr'] | (pid & -> & H0n & Hpid & Hlim & Hd & Hr')]; [by left | right].
    exists pid. split_and!; try done; [set_solver | set_solver |].
    by replace (R ∪ pages pid n ∪ P) with (R ∪ P ∪ pages pid n) by set_solver.
  - intros w R S N pid n [HP Hr] Hpid Hn Hlim Hsub.
    destruct (bk_free_ok w _ S N pid n Hr Hpid Hn Hlim) as (w' & E & Hr'); [set_solver |]. exists w'. split; [done |].
    split; [set_solver |]. replace (R ∖ pages pid n ∪ P) with ((R ∪ P) ∖ pages pid n); [done |]. 
    apply set_eq. intros x. set_solver.
  - intros w R S N [HP Hr]. destruct (bk_span_new_ok w _ S N Hr) as (a & w' & E & Hc). exists a, w'. split; [done |].
    destruct Hc as [[-> Hr'] | (Ha & HS & HR & Hr')]; [by left | right]. split_and!; try done. set_solver.
  - intros w R S N a [HP Hr] Ha. destruct (bk_span_delete_ok w _ S N a Hr Ha) as (w' & E & Hr'). by exists w'.
  - intros w R S N [HP Hr]. destruct (bk_span_release_ok w _ S N Hr) as (w' & E & Hr'). by exists w'.
  - intros w R S N [HP Hr]. destruct (bk_node_new_ok w _ S N Hr) as (a & w' & E & Hc). exists a, w'. split; [done |].
    destruct Hc as [[-> Hr'] | (Ha & HS & HR & Hr')]; [by left | right]. split_and!; try done. set_solver.
  - intros w R S N [HP Hr]. destruct (bk_node_release_ok w _ S N Hr) as (w' & E & Hr'). by exists w'.
  - intros w R S N [HP Hr]. split; [done | by apply bk_now_ok].
Defined.
End Reserve.

(** ** A first implementation

    A page counter that never reuses an address.  It satisfies the laws and is
    small enough to run the clients on concrete inputs. *)
Definition bump_pages `{Build} (n : Z) (w : Z) : outcome (Z * Z) :=
  if (0 <? n) && (0 <? w) && (w + n <? PAGE_LIMIT) then Ok (w * PAGE_SIZE, w + n) else Ok (0, w).

Definition bump_backing `{Build} : Backing Z := {|
  bk_SystemAlloc := bump_pages;
  bk_SystemFree _ _ w := Ok w;
  bk_span_TryNew := bump_pages 1;
  bk_span_Delete _ w := Ok w;
  bk_span_ReleaseMemory w := Ok w;
  bk_node_TryNew := bump_pages 1;
  bk_node_ReleaseMemory w := Ok w;
  bk_now w := (0, w);
|}.

Definition bump_rep (w : Z) (R S N : gset Z) : Prop :=
  1 <= w /\ (forall p, p ∈ R -> p < w) /\ (forall a, a ∈ S -> a / PAGE_SIZE < w) /\
  (forall a, a ∈ N -> a / PAGE_SIZE < w).

Lemma bump_pages_ok `{Build} n w :
  1 <= w -> 0 <= n ->
  exists p w', bump_pages n w = Ok (p, w') /\ w <= w' /\
    (p = 0 \/ p = w * PAGE_SIZE /\ p / PAGE_SIZE = w /\ p <> 0 /\ 0 < n /\ w' = w + n /\ w' < PAGE_LIMIT).
Proof.
  intros Hw Hn. unfold bump_pages, PAGE_SIZE. destruct (_ && _) eqn:E.
  - bool_facts. do 2 eexists. split; [done |]. split; [lia |]. right.
    rewrite Z.div_mul by lia. lia.
  - do 2 eexists. split; [done |]. split; [lia | by left].
Qed.

(** [bump_rep] only looks at upper bounds. *)
Lemma bump_rep_mono w w' R S N R' S' N' :
  bump_rep w R S N -> w <= w' -> (forall p, p ∈ R' -> p ∈ R \/ p < w') ->
  (forall a, a ∈ S' -> a ∈ S \/ a / PAGE_SIZE < w') ->
  (forall a, a ∈ N' -> a ∈ N \/ a / PAGE_SIZE < w') -> bump_rep w' R' S' N'.
Proof.
  intros (H1 & H2 & H3 & H4) Hw HR HS HN. split_and!; [lia | | |].
  - intros p [Hp | ?]%HR; [apply H2 in Hp; lia | done].
  - intros p [Hp | ?]%HS; [apply H3 in Hp; lia | done].
  - intros p [Hp | ?]%HN; [apply H4 in Hp; lia | done].
Qed.

Definition bump_laws `{Build} : @BackingLaws Z _ bump_backing.
Proof.
  refine (@Build_BackingLaws Z _ bump_backing bump_rep _ _ _ _ _ _ _ _); simpl.
  - intros w R S N n Hr Hn. pose proof Hr as (Hw & HR & _).
    destruct (bump_pages_ok n w Hw ltac:(lia)) as (p & w' & -> & Hle & Hp).
    exists p, w'. split; [done |].
    destruct Hp as [-> | (-> & _ & _ & Hn0 & -> & Hlim)]; [left | right].
    + split; [done |]. eapply bump_rep_mono; eauto.
    + exists w. split_and!; [done | lia | lia | lia | |].
      * intros p Hp Hin%elem_of_pages. apply HR in Hp. lia.
      * eapply bump_rep_mono; eauto. intros p [Hp | Hp%elem_of_pages]%elem_of_union; [by left | right; lia].
  - intros w R S N pid n Hr _ _ _ _. exists w. split; [done |].
    eapply bump_rep_mono; eauto with lia. set_solver.
  - intros w R S N Hr. pose proof Hr as (Hw & HR & HS & HN).
    destruct (bump_pages_ok 1 w Hw ltac:(lia)) as (p & w' & -> & Hle & Hp).
    exists p, w'. split; [done |].
    destruct Hp as [-> | (_ & Hpw & Hp0 & _ & -> & Hlim)]; [left | right].
    + split; [done |]. eapply bump_rep_mono; eauto.
    + split; [done |]. split; [intros Hin%HS; lia |]. split; [rewrite Hpw; intros Hin%HR; lia |].
      eapply bump_rep_mono; eauto. intros a [->%elem_of_singleton | Ha]%elem_of_union; [right; lia | by left].
  - intros w R S N a Hr _. exists w. split; [done |]. eapply bump_rep_mono; eauto with lia. set_solver.
  - intros w R S N Hr. exists w. split; [done |]. eapply bump_rep_mono; eauto with lia. set_solver.
  - intros w R S N Hr. pose proof Hr as (Hw & HR & HS & HN).
    destruct (bump_pages_ok 1 w Hw ltac:(lia)) as (p & w' & -> & Hle & Hp).
    exists p, w'. split; [done |].
    destruct Hp as [-> | (_ & Hpw & Hp0 & _ & -> & Hlim)]; [left | right].
    + split; [done |]. eapply bump_rep_mono; eauto.
    + split; [done |]. split; [intros Hin%HN; lia |]. split; [rewrite Hpw; intros Hin%HR; lia |].
      eapply bump_rep_mono; eauto. intros a [->%elem_of_singleton | Ha]%elem_of_union; [right; lia | by left].
  - intros w R S N Hr. exists w. split; [done |]. eapply bump_rep_mono; eauto with lia. set_solver.
  - done.
Defined.

Lemma bump_rep_start : bump_rep 16 ∅ ∅ ∅.
Proof. split; [lia | set_solver]. Qed.
