(* ===== verification/HugePageCache.v ===== *)
(** * The lock-free cache of 2 MiB mappings (src/page_allocator.cpp, [HugePageCache])

    Two Treiber stacks of slot indices over one array: [Put] moves a slot from
    the free stack to the used one, [Get] moves it back.  A head packs a slot
    index with a 48-bit tag that every successful compare-and-swap increments.
    The file has the operations as one thread runs them, the same operations as
    atomic steps of any number of threads, the atomic LIFO they implement, and
    the proof that every interleaving of fewer than 2^48 steps has a trace of
    the LIFO, which is where the tags matter.  The places of the LIFO may also be
    occupied by operations under way, so that a [Put] may be refused before 16
    pointers are stored ([put_refused]). *)
From S2P Require Import Prelude Config.
Open Scope Z_scope.

(** ** State *)

Definition kInvalid : Z := 65535.
Definition kCapacity : Z := HUGE_PAGE_CACHE_SIZE.
Definition kIndexMask : Z := 65535.
Definition kTagMask : Z := 281474976710655.

Definition Pack (index tag : Z) : Z := Z.lor (u64 (Z.shiftl (Z.land tag kTagMask) 16)) index.
Definition HpcIndex (head : Z) : Z := u16 (Z.land head kIndexMask).
Definition HpcTag (head : Z) : Z := Z.shiftr head 16.

(** [slots_[i].ptr] and [slots_[i].next]; an index outside the array has no entry. *)
Record HugePageCache := mkHPC {
  free_head : Z;
  used_head : Z;
  slot_ptr : gmap Z Z;
  slot_next : gmap Z Z
}.

Inductive head_id := FreeHead | UsedHead.
#[export] Instance head_id_eq_dec : EqDecision head_id.
Proof. solve_decision. Defined.

Definition hpc_head (c : HugePageCache) (h : head_id) : Z :=
  match h with FreeHead => free_head c | UsedHead => used_head c end.
Definition set_hpc_head (c : HugePageCache) (h : head_id) (v : Z) : HugePageCache :=
  match h with
  | FreeHead => mkHPC v (used_head c) (slot_ptr c) (slot_next c)
  | UsedHead => mkHPC (free_head c) v (slot_ptr c) (slot_next c)
  end.
Definition set_slot_ptr (c : HugePageCache) (i v : Z) : HugePageCache :=
  mkHPC (free_head c) (used_head c) (<[i := v]> (slot_ptr c)) (slot_next c).
Definition set_slot_next (c : HugePageCache) (i v : Z) : HugePageCache :=
  mkHPC (free_head c) (used_head c) (slot_ptr c) (<[i := v]> (slot_next c)).

Definition in_slots (i : Z) : bool := (0 <=? i) && (i <? kCapacity).
Definition slot_access (i : Z) : outcome unit :=
  if in_slots i then Ok tt else UB "slots_ index out of range".

(** The default member initializers, then the constructor. *)
Definition blank_slots (v : Z) : gmap Z Z :=
  list_to_map (map (fun i => (i, v)) (seqZ 0 kCapacity)).
Definition HugePageCache_new : outcome HugePageCache :=
  c ← for_range 0 (kCapacity - 1) (fun i c => _ ← slot_access i; Ok (set_slot_next c i (u16 (i + 1))))
        (mkHPC 0 0 (blank_slots 0) (blank_slots kInvalid));
  _ ← slot_access (kCapacity - 1);
  let c := set_slot_next c (kCapacity - 1) kInvalid in
  Ok (set_hpc_head (set_hpc_head c FreeHead (Pack 0 0)) UsedHead (Pack kInvalid 0)).

(** ** One thread

    Without other threads and without spurious failures the first
    compare-and-swap of each loop succeeds. *)
Definition HpcPop (c : HugePageCache) (h : head_id) : outcome (option Z * HugePageCache) :=
  let old_val := hpc_head c h in
  let index := HpcIndex old_val in
  if index =? kInvalid then Ok (None, c)
  else
    _ ← slot_access index;
    let next := default kInvalid (slot_next c !! index) in
    Ok (Some index, set_hpc_head c h (Pack next (u64 (HpcTag old_val + 1)))).

Definition HpcPush (c : HugePageCache) (h : head_id) (index : Z) : outcome HugePageCache :=
  let old_val := hpc_head c h in
  _ ← slot_access index;
  let c := set_slot_next c index (HpcIndex old_val) in
  Ok (set_hpc_head c h (Pack index (u64 (HpcTag old_val + 1)))).

Definition HpcGet (c : HugePageCache) : outcome (Z * HugePageCache) :=
  '(r, c) ← HpcPop c UsedHead;
  match r with
  | None => Ok (0, c)
  | Some index =>
      let ptr := default 0 (slot_ptr c !! index) in
      c ← HpcPush c FreeHead index;
      Ok (ptr, c)
  end.

Definition HpcPut (c : HugePageCache) (ptr : Z) : outcome (bool * HugePageCache) :=
  '(r, c) ← HpcPop c FreeHead;
  match r with
  | None => Ok (false, c)
  | Some index =>
      c ← HpcPush (set_slot_ptr c index ptr) UsedHead index;
      Ok (true, c)
  end.

(** ** Any number of threads *)

Inductive hop := OGet | OPut (ptr : Z).
Inductive hres := RGet (ptr : Z) | RPut (ok : bool).

Definition pop_of (o : hop) : head_id := match o with OGet => UsedHead | OPut _ => FreeHead end.
Definition push_of (o : hop) : head_id := match o with OGet => FreeHead | OPut _ => UsedHead end.
Definition failed (o : hop) : hres := match o with OGet => RGet 0 | OPut _ => RPut false end.

(** Where a thread is: before each of its accesses to shared memory. *)
Inductive pc :=
| Idle
| PopLoad (o : hop)
| PopNext (o : hop) (old : Z)
| PopCas (o : hop) (old next : Z)
| SlotPtr (o : hop) (index : Z)
| PushLoad (o : hop) (index : Z) (r : hres)
| PushStore (o : hop) (index : Z) (r : hres) (old : Z)
| PushCas (o : hop) (index : Z) (r : hres) (old : Z)
| Ret (r : hres).

Inductive event := Call (o : hop) | Return (r : hres).

(** One atomic step of a thread.  [compare_exchange_weak] may also fail when the
    values agree; both failures reload the head. *)
Inductive tstep (c : HugePageCache) : pc -> option event -> HugePageCache -> pc -> Prop :=
| t_call o : tstep c Idle (Some (Call o)) c (PopLoad o)
| t_pop_load o : tstep c (PopLoad o) None c (PopNext o (hpc_head c (pop_of o)))
| t_pop_empty o old : HpcIndex old = kInvalid -> tstep c (PopNext o old) None c (Ret (failed o))
| t_pop_next o old next :
    HpcIndex old <> kInvalid -> slot_next c !! HpcIndex old = Some next ->
    tstep c (PopNext o old) None c (PopCas o old next)
| t_pop_cas o old next :
    hpc_head c (pop_of o) = old ->
    tstep c (PopCas o old next) None
      (set_hpc_head c (pop_of o) (Pack next (u64 (HpcTag old + 1)))) (SlotPtr o (HpcIndex old))
| t_pop_retry o old next :
    tstep c (PopCas o old next) None c (PopNext o (hpc_head c (pop_of o)))
| t_get_ptr index p :
    slot_ptr c !! index = Some p ->
    tstep c (SlotPtr OGet index) None c (PushLoad OGet index (RGet p))
| t_put_ptr index p :
    in_slots index = true ->
    tstep c (SlotPtr (OPut p) index) None (set_slot_ptr c index p) (PushLoad (OPut p) index (RPut true))
| t_push_load o index r :
    tstep c (PushLoad o index r) None c (PushStore o index r (hpc_head c (push_of o)))
| t_push_store o index r old :
    in_slots index = true ->
    tstep c (PushStore o index r old) None (set_slot_next c index (HpcIndex old)) (PushCas o index r old)
| t_push_cas o index r old :
    hpc_head c (push_of o) = old ->
    tstep c (PushCas o index r old) None
      (set_hpc_head c (push_of o) (Pack index (u64 (HpcTag old + 1)))) (Ret r)
| t_push_retry o index r old :
    tstep c (PushCas o index r old) None c (PushStore o index r (hpc_head c (push_of o)))
| t_return r : tstep c (Ret r) (Some (Return r)) c Idle.

(** The shared cache and every thread's position. *)
Definition upd_thread {A} (T : nat -> A) (t : nat) (x : A) : nat -> A :=
  fun t' => if decide (t' = t) then x else T t'.

Definition hstate : Type := HugePageCache * (nat -> pc).

Inductive hstep : hstate -> option (nat * event) -> hstate -> Prop :=
| h_step c T t e c' p :
    tstep c (T t) e c' p -> hstep (c, T) ((fun e => (t, e)) <$> e) (c', upd_thread T t p).

Definition cons_event (e : option (nat * event)) (tr : list (nat * event)) : list (nat * event) :=
  match e with Some e => e :: tr | None => tr end.

(** [hsteps k tr s s']: [k] steps with the calls and returns [tr], the last first. *)
Inductive hsteps (s : hstate) : nat -> list (nat * event) -> hstate -> Prop :=
| hs_refl : hsteps s 0 [] s
| hs_step k tr s1 e s2 : hsteps s k tr s1 -> hstep s1 e s2 -> hsteps s (S k) (cons_event e tr) s2.

(** ** The abstract cache: an atomic LIFO over [kCapacity] places *)

Inductive astat := ANone | APend (o : hop) | ADone (r : hres).

Definition astate : Type := list Z * (nat -> astat).

(** An operation under way that may occupy a place besides the pointers stored: a
    [Put] that has not taken effect, or a [Get] that has its pointer and has not
    returned. *)
Definition occupies (a : astat) : Prop := exists p, a = APend (OPut p) \/ a = ADone (RGet p).

Inductive astep : astate -> option (nat * event) -> astate -> Prop :=
| a_call st A t o : A t = ANone -> astep (st, A) (Some (t, Call o)) (st, upd_thread A t (APend o))
| a_get st A t p : A t = APend OGet -> astep (p :: st, A) None (st, upd_thread A t (ADone (RGet p)))
| a_get_empty A t : A t = APend OGet -> astep ([], A) None ([], upd_thread A t (ADone (RGet 0)))
| a_put st A t p : A t = APend (OPut p) -> Z.of_nat (length st) < kCapacity ->
    astep (st, A) None (p :: st, upd_thread A t (ADone (RPut true)))
| a_put_full st A t p :
    (* the pointers stored and the places other operations occupy are all there are *)
    A t = APend (OPut p) ->
    (exists ts, NoDup ts /\ (t ∉ ts) /\ (forall t', t' ∈ ts -> occupies (A t')) /\ Z.of_nat (length st + length ts) = kCapacity) ->
    astep (st, A) None (st, upd_thread A t (ADone (RPut false)))
| a_return st A t r : A t = ADone r -> astep (st, A) (Some (t, Return r)) (st, upd_thread A t ANone).

Inductive asteps (a : astate) : list (nat * event) -> astate -> Prop :=
| as_refl : asteps a [] a
| as_step tr a1 e a2 : asteps a tr a1 -> astep a1 e a2 -> asteps a (cons_event e tr) a2.

(** ** Packing *)

Lemma Pack_eq i t : 0 <= i < 65536 -> 0 <= t -> Pack i t = (t mod 2 ^ 48) * 65536 + i.
Proof.
  intros Hi Ht. unfold Pack. change kTagMask with (Z.ones 48).
  rewrite Z.land_ones by lia. rewrite Z.shiftl_mul_pow2 by lia.
  pose proof (Z.mod_pos_bound t (2 ^ 48) ltac:(lia)). rewrite u64_id by lia.
  change (2 ^ 16) with 65536. change 65536 with (2 ^ 16) in *.
  apply Z.bits_inj'. intros n Hn. rewrite Z.lor_spec.
  destruct (Z.lt_ge_cases n 16).
  - rewrite Z.mul_pow2_bits_low by lia. simpl.
    rewrite <- (Z.mod_pow2_bits_low _ 16 n) by lia. symmetry. rewrite <- (Z.mod_pow2_bits_low _ 16 n) by lia.
    f_equal. rewrite Z.add_comm, Z.mod_add by lia. done.
  - rewrite (testbit_high i 16 n) by lia. rewrite orb_false_r.
    rewrite Z.mul_pow2_bits by lia. replace n with ((n - 16) + 16) at 2 by lia.
    rewrite <- (Z.shiftr_spec _ 16 (n - 16)) by lia. f_equal.
    rewrite Z.shiftr_div_pow2 by lia. rewrite Z.div_add_l by lia. rewrite Z.div_small by lia. lia.
Qed.

Lemma HpcIndex_Pack i t : 0 <= i < 65536 -> 0 <= t -> HpcIndex (Pack i t) = i.
Proof.
  intros Hi Ht. rewrite Pack_eq by done. unfold HpcIndex, kIndexMask, u16.
  change 65535 with (Z.ones 16). rewrite Z.land_ones by lia. change (2 ^ 16) with 65536.
  rewrite Z.add_comm. rewrite Z_mod_plus_full. by rewrite !(Z.mod_small i) by lia.
Qed.

Lemma HpcTag_Pack i t : 0 <= i < 65536 -> 0 <= t -> HpcTag (Pack i t) = t mod 2 ^ 48.
Proof.
  intros Hi Ht. rewrite Pack_eq by done. unfold HpcTag. rewrite Z.shiftr_div_pow2 by lia.
  change (2 ^ 16) with 65536. rewrite Z.div_add_l by lia. rewrite Z.div_small by lia. lia.
Qed.

(** The next tag; [HpcTag] fits 48 bits, so the sum fits 64. *)
Lemma Pack_next i j t : 0 <= i < 65536 -> 0 <= j < 65536 -> 0 <= t ->
  Pack j (u64 (HpcTag (Pack i t) + 1)) = Pack j (t + 1).
Proof.
  intros Hi Hj Ht. rewrite HpcTag_Pack by done.
  pose proof (Z.mod_pos_bound t (2 ^ 48) ltac:(lia)). rewrite u64_id by lia.
  rewrite !Pack_eq by lia. rewrite Zplus_mod_idemp_l. done.
Qed.

Lemma Pack_inj i j t u :
  0 <= i < 65536 -> 0 <= j < 65536 -> 0 <= t < 2 ^ 48 -> 0 <= u < 2 ^ 48 ->
  Pack i t = Pack j u -> i = j /\ t = u.
Proof.
  intros Hi Hj Ht Hu Heq. split.
  - rewrite <- (HpcIndex_Pack i t), <- (HpcIndex_Pack j u) by lia. by rewrite Heq.
  - rewrite <- (Z.mod_small t (2 ^ 48)), <- (Z.mod_small u (2 ^ 48)) by lia.
    rewrite <- (HpcTag_Pack i t), <- (HpcTag_Pack j u) by lia. by rewrite Heq.
Qed.

(** ** The invariant

    Ghost state: the slots on each stack and the number of successful
    compare-and-swaps on each head. *)

Definition hd_idx (l : list Z) : Z := match l with [] => kInvalid | i :: _ => i end.

Fixpoint links (nxt : gmap Z Z) (l : list Z) : Prop :=
  match l with
  | [] => True
  | i :: l' => nxt !! i = Some (hd_idx l') /\ links nxt l'
  end.

Definition upd_head {A} (f : head_id -> A) (h : head_id) (x : A) : head_id -> A :=
  fun h' => if decide (h' = h) then x else f h'.

Lemma upd_head_eq {A} (f : head_id -> A) h x : upd_head f h x h = x.
Proof. unfold upd_head. by rewrite decide_True. Qed.
Lemma upd_head_ne {A} (f : head_id -> A) h h' x : h' <> h -> upd_head f h x h' = f h'.
Proof. intros Hne. unfold upd_head. by rewrite decide_False. Qed.
Lemma upd_thread_eq {A} (f : nat -> A) t x : upd_thread f t x t = x.
Proof. unfold upd_thread. by rewrite decide_True. Qed.
Lemma upd_thread_ne {A} (f : nat -> A) t t' x : t' <> t -> upd_thread f t x t' = f t'.
Proof. intros Hne. unfold upd_thread. by rewrite decide_False. Qed.

(** The slot a thread has taken off one stack and not yet put on the other. *)
Definition holds (p : pc) : option Z :=
  match p with
  | SlotPtr _ i | PushLoad _ i _ | PushStore _ i _ _ | PushCas _ i _ _ => Some i
  | _ => None
  end.

(** Every slot is on one of the stacks or held by one thread. *)
Record shared (c : HugePageCache) (H : nat -> option Z) (stk : head_id -> list Z) (N : head_id -> Z) : Prop := {
  sh_head : forall h, hpc_head c h = Pack (hd_idx (stk h)) (N h);
  sh_tag : forall h, 0 <= N h;
  sh_links : forall h, links (slot_next c) (stk h);
  sh_nodup : forall h, NoDup (stk h);
  sh_disj : forall i, i ∈ stk FreeHead -> i ∈ stk UsedHead -> False;
  sh_range : forall h i, i ∈ stk h -> in_slots i = true;
  sh_held : forall t i, H t = Some i -> in_slots i = true /\ forall h, i ∉ stk h;
  sh_inj : forall t t' i, H t = Some i -> H t' = Some i -> t = t';
  sh_cover : forall i, in_slots i = true -> (exists h, i ∈ stk h) \/ exists t, H t = Some i;
  sh_dom : forall i, in_slots i = true -> is_Some (slot_ptr c !! i) /\ is_Some (slot_next c !! i);
}.

(** A head value read earlier, with a fact that holds while no swap has succeeded since. *)
Definition snap (c : HugePageCache) (N : head_id -> Z) (h : head_id) (old : Z) (P : Prop) : Prop :=
  exists i n, old = Pack i n /\ (i = kInvalid \/ in_slots i = true) /\ 0 <= n <= N h /\
    (n = N h -> hpc_head c h = old /\ P).

Definition payload (c : HugePageCache) (o : hop) (i : Z) (r : hres) : Prop :=
  match o with
  | OGet => exists p, r = RGet p
  | OPut p => r = RPut true /\ slot_ptr c !! i = Some p
  end.

Definition thread_ok (c : HugePageCache) (N : head_id -> Z) (p : pc) : Prop :=
  match p with
  | PopNext o old => snap c N (pop_of o) old True
  | PopCas o old next =>
      HpcIndex old <> kInvalid /\
      snap c N (pop_of o) old (slot_next c !! HpcIndex old = Some next)
  | PushLoad o i r | PushStore o i r _ => payload c o i r
  | PushCas o i r old => payload c o i r /\ slot_next c !! i = Some (HpcIndex old)
  | _ => True
  end.

Record hinv (s : hstate) (stk : head_id -> list Z) (N : head_id -> Z) : Prop := {
  hi_shared : shared s.1 (fun t => holds (s.2 t)) stk N;
  hi_thread : forall t, thread_ok s.1 N (s.2 t);
}.

(** The abstract state: the pointers on the used stack, and where each operation
    stands with respect to its linearization point. *)
Definition contents (c : HugePageCache) (stk : head_id -> list Z) : list Z :=
  map (fun i => default 0 (slot_ptr c !! i)) (stk UsedHead).

Definition abs_pc (c : HugePageCache) (p : pc) : astat :=
  match p with
  | Idle => ANone
  | PopLoad o | PopCas o _ _ => APend o
  | PopNext o old => if HpcIndex old =? kInvalid then ADone (failed o) else APend o
  | SlotPtr OGet i => ADone (RGet (default 0 (slot_ptr c !! i)))
  | PushLoad OGet _ r | PushStore OGet _ r _ | PushCas OGet _ r _ => ADone r
  | SlotPtr (OPut p) _ | PushLoad (OPut p) _ _ | PushStore (OPut p) _ _ _
  | PushCas (OPut p) _ _ _ => APend (OPut p)
  | Ret r => ADone r
  end.

Lemma in_slots_lt i : in_slots i = true <-> 0 <= i < kCapacity.
Proof. unfold in_slots. rewrite andb_true_iff, Z.leb_le, Z.ltb_lt. done. Qed.
Lemma in_slots_range i : i = kInvalid \/ in_slots i = true -> 0 <= i < 65536.
Proof. rewrite in_slots_lt. unfold kInvalid, kCapacity, HUGE_PAGE_CACHE_SIZE. lia. Qed.
Lemma in_slots_valid i : in_slots i = true -> i <> kInvalid.
Proof. rewrite in_slots_lt. unfold kInvalid, kCapacity, HUGE_PAGE_CACHE_SIZE. lia. Qed.

Lemma head_id_cases h h' : h <> h' -> h = FreeHead /\ h' = UsedHead \/ h = UsedHead /\ h' = FreeHead.
Proof. destruct h, h'; tauto. Qed.

Lemma links_ext nxt nxt' l : (forall i, i ∈ l -> nxt' !! i = nxt !! i) -> links nxt l -> links nxt' l.
Proof.
  induction l as [| i l IH]; [done |]. intros Heq [Hi Hl]. split.
  - rewrite Heq; [done |]. apply elem_of_cons. by left.
  - apply IH; [| done]. intros j Hj. apply Heq, elem_of_cons. by right.
Qed.

Section Shared.
Context (c : HugePageCache) (H : nat -> option Z) (stk : head_id -> list Z) (N : head_id -> Z).
Hypothesis Hsh : shared c H stk N.

Lemma shared_ext H' : (forall t, H' t = H t) -> shared c H' stk N.
Proof.
  intros Heq. destruct Hsh. constructor; try done.
  - intros t i. rewrite Heq. apply sh_held0.
  - intros t t' i. rewrite !Heq. apply sh_inj0.
  - intros i Hi. destruct (sh_cover0 i Hi) as [? | [t Ht]]; [by left | right]. exists t. by rewrite Heq.
Qed.

Lemma shared_hd h : hd_idx (stk h) = kInvalid \/ in_slots (hd_idx (stk h)) = true.
Proof.
  destruct (stk h) as [| i l] eqn:E; [by left | right]. simpl. apply (sh_range _ _ _ _ Hsh h).
  rewrite E. apply elem_of_cons. by left.
Qed.

Lemma shared_index h : HpcIndex (hpc_head c h) = hd_idx (stk h).
Proof.
  rewrite (sh_head _ _ _ _ Hsh). apply HpcIndex_Pack; [apply in_slots_range, shared_hd | apply Hsh].
Qed.

Lemma shared_empty h : hd_idx (stk h) = kInvalid -> stk h = [].
Proof.
  destruct (stk h) as [| i l] eqn:E; [done |]. simpl. intros Hi. exfalso.
  apply (in_slots_valid i); [| done]. apply (sh_range _ _ _ _ Hsh h). rewrite E. apply elem_of_cons. by left.
Qed.

(** A value loaded now. *)
Lemma snap_now h : snap c N h (hpc_head c h) True.
Proof.
  exists (hd_idx (stk h)), (N h). rewrite (sh_head _ _ _ _ Hsh).
  pose proof (sh_tag _ _ _ _ Hsh h). pose proof (shared_hd h). split_and!; done || lia.
Qed.

(** A swap that succeeds against such a value: nothing has happened in between. *)
Lemma snap_swap h old P :
  snap c N h old P -> hpc_head c h = old -> N h < 2 ^ 48 -> P.
Proof.
  intros (i & n & -> & Hi & Hn & HP) Hh HN. rewrite (sh_head _ _ _ _ Hsh) in Hh.
  apply Pack_inj in Hh as [_ Hn2]; [| apply in_slots_range, shared_hd | by apply in_slots_range | lia | lia].
  by apply HP.
Qed.

(** Taking the top slot off stack [h]. *)
Lemma shared_pop h i l t :
  stk h = i :: l -> H t = None ->
  shared (set_hpc_head c h (Pack (hd_idx l) (N h + 1))) (upd_thread H t (Some i))
    (upd_head stk h l) (upd_head N h (N h + 1)).
Proof.
  intros Hs Ht. pose proof Hsh as [Hhead Htag Hlinks Hnd Hdisj Hrange Hheld Hinj Hcover Hdom].
  assert (Hsub : forall h' j, j ∈ upd_head stk h l h' -> j ∈ stk h').
  { intros h' j. unfold upd_head. case_decide as E; [| done]. rewrite E, Hs. intros. apply elem_of_cons. by right. }
  assert (Hi : forall h', i ∉ upd_head stk h l h').
  { intros h' Hin. pose proof (Hnd h) as Hn. rewrite Hs in Hn. apply NoDup_cons in Hn as [Hn _].
    destruct (decide (h' = h)) as [-> | Hne]; [by rewrite upd_head_eq in Hin |].
    rewrite upd_head_ne in Hin by done. assert (i ∈ stk h) by (rewrite Hs; apply elem_of_cons; by left).
    destruct (head_id_cases h' h Hne) as [[-> ->] | [-> ->]]; by eapply Hdisj. }
  assert (slot_ptr (set_hpc_head c h (Pack (hd_idx l) (N h + 1))) = slot_ptr c /\
    slot_next (set_hpc_head c h (Pack (hd_idx l) (N h + 1))) = slot_next c) as [Hsp Hsn] by (by destruct h).
  constructor.
  - intros h'. destruct (decide (h' = h)) as [-> | Hne].
    + rewrite !upd_head_eq. by destruct h.
    + rewrite !upd_head_ne by done. rewrite <- Hhead. by destruct h, h'.
  - intros h'. unfold upd_head. pose proof (Htag h). pose proof (Htag h'). case_decide; lia.
  - intros h'. rewrite Hsn. unfold upd_head. case_decide as E; [| done].
    specialize (Hlinks h). rewrite Hs in Hlinks. apply Hlinks.
  - intros h'. unfold upd_head. case_decide as E; [| done]. specialize (Hnd h). rewrite Hs in Hnd.
    by apply NoDup_cons in Hnd as [_ Hnd].
  - intros j Hj1 Hj2. by eapply Hdisj; apply Hsub.
  - intros h' j Hj. by eapply Hrange, Hsub.
  - intros t' j. unfold upd_thread. case_decide as E.
    + intros [= <-]. split; [| done]. apply (Hrange h). rewrite Hs. apply elem_of_cons. by left.
    + intros Hj. destruct (Hheld _ _ Hj) as [? Hout]. split; [done |]. intros h' Hin. by eapply Hout, Hsub.
  - intros t1 t2 j. unfold upd_thread. case_decide as E1; case_decide as E2; try congruence.
    + intros [= <-] Hj. destruct (Hheld _ _ Hj) as [_ Hout]. exfalso. apply (Hout h). rewrite Hs. apply elem_of_cons. by left.
    + intros Hj [= <-]. destruct (Hheld _ _ Hj) as [_ Hout]. exfalso. apply (Hout h). rewrite Hs. apply elem_of_cons. by left.
    + apply Hinj.
  - intros j Hj. destruct (decide (j = i)) as [-> | Hne]; [right; exists t; apply upd_thread_eq |].
    destruct (Hcover j Hj) as [[h' Hin] | [t' Ht']].
    + left. exists h'. destruct (decide (h' = h)) as [-> | Hh].
      * rewrite upd_head_eq. rewrite Hs in Hin. apply elem_of_cons in Hin as [? | ?]; done.
      * by rewrite upd_head_ne.
    + right. exists t'. rewrite upd_thread_ne; [done | congruence].
  - intros j Hj. rewrite Hsp, Hsn. by apply Hdom.
Qed.

(** Putting a held slot, linked to the top, on stack [h]. *)
Lemma shared_push h i t :
  H t = Some i -> slot_next c !! i = Some (hd_idx (stk h)) ->
  shared (set_hpc_head c h (Pack i (N h + 1))) (upd_thread H t None)
    (upd_head stk h (i :: stk h)) (upd_head N h (N h + 1)).
Proof.
  intros Ht Hi. pose proof Hsh as [Hhead Htag Hlinks Hnd Hdisj Hrange Hheld Hinj Hcover Hdom].
  destruct (Hheld _ _ Ht) as [Hir Hiout].
  assert (Hsub : forall h' j, j ∈ upd_head stk h (i :: stk h) h' -> j = i /\ h' = h \/ j ∈ stk h').
  { intros h' j. unfold upd_head. case_decide as E; [| by right]. intros [-> | Hj]%elem_of_cons; [by left | right]. by rewrite E. }
  assert (Hsp : slot_ptr (set_hpc_head c h (Pack i (N h + 1))) = slot_ptr c) by (by destruct h).
  assert (Hsn : slot_next (set_hpc_head c h (Pack i (N h + 1))) = slot_next c) by (by destruct h).
  constructor.
  - intros h'. destruct (decide (h' = h)) as [-> | Hne].
    + rewrite !upd_head_eq. by destruct h.
    + rewrite !upd_head_ne by done. rewrite <- Hhead. by destruct h, h'.
  - intros h'. unfold upd_head. pose proof (Htag h). pose proof (Htag h'). case_decide; lia.
  - intros h'. rewrite Hsn. unfold upd_head. case_decide as E; [| done]. split; [done | apply Hlinks].
  - intros h'. unfold upd_head. case_decide as E; [| done]. apply NoDup_cons. split; [apply Hiout | apply Hnd].
  - intros j Hj1 Hj2. apply Hsub in Hj1 as [[-> E1] | Hj1]; apply Hsub in Hj2 as [[E2 E3] | Hj2].
    + congruence.
    + by apply (Hiout UsedHead).
    + subst. by apply (Hiout FreeHead).
    + by eapply Hdisj.
  - intros h' j [[-> _] | Hj]%Hsub; [done | by eapply Hrange].
  - intros t' j. unfold upd_thread. case_decide as E; [done |]. intros Hj.
    destruct (Hheld _ _ Hj) as [? Hout]. split; [done |]. intros h' [[-> _] | Hin]%Hsub; [| by eapply Hout].
    by apply E, (Hinj _ _ i).
  - intros t1 t2 j. unfold upd_thread. case_decide; [done |]. case_decide; [done |]. apply Hinj.
  - intros j Hj. destruct (decide (j = i)) as [-> | Hne].
    { left. exists h. rewrite upd_head_eq. apply elem_of_cons. by left. }
    destruct (Hcover j Hj) as [[h' Hin] | [t' Ht']].
    + left. exists h'. unfold upd_head. case_decide as E; [| done]. apply elem_of_cons. right. by rewrite <- E.
    + right. exists t'. rewrite upd_thread_ne; [done | congruence].
  - intros j Hj. rewrite Hsp, Hsn. by apply Hdom.
Qed.

(** Writing a held slot. *)
Lemma shared_set_next t i v : H t = Some i -> shared (set_slot_next c i v) H stk N.
Proof.
  intros Ht. pose proof Hsh as [Hhead Htag Hlinks Hnd Hdisj Hrange Hheld Hinj Hcover Hdom].
  constructor; try done.
  - intros h. eapply links_ext; [| apply Hlinks]. intros j Hj. apply lookup_insert_ne. intros ->.
    by destruct (Hheld _ _ Ht) as [_ Hout]; eapply Hout.
  - intros j Hj. split; [by apply Hdom |]. cbn [slot_next set_slot_next].
    destruct (decide (j = i)) as [-> | Hne]; [rewrite lookup_insert_eq; by eexists |].
    rewrite lookup_insert_ne by done. by apply Hdom.
Qed.

Lemma shared_set_ptr t i v : H t = Some i -> shared (set_slot_ptr c i v) H stk N.
Proof.
  intros Ht. pose proof Hsh as [Hhead Htag Hlinks Hnd Hdisj Hrange Hheld Hinj Hcover Hdom].
  constructor; try done.
  - intros j Hj. split; [| by apply Hdom]. cbn [slot_ptr set_slot_ptr].
    destruct (decide (j = i)) as [-> | Hne]; [rewrite lookup_insert_eq; by eexists |].
    rewrite lookup_insert_ne by done. by apply Hdom.
Qed.

End Shared.

(** ** Preservation and simulation *)

(** What one thread may do to the shared state, as another sees it. *)
Record interferes (c c' : HugePageCache) (stk : head_id -> list Z) (N N' : head_id -> Z) (own : option Z) : Prop := {
  in_mono : forall h, N h <= N' h;
  in_head : forall h, N' h = N h -> hpc_head c' h = hpc_head c h;
  in_next : forall i, own <> Some i -> slot_next c' !! i = slot_next c !! i;
  in_ptr : forall i, own <> Some i -> slot_ptr c' !! i = slot_ptr c !! i;
  in_own : forall i h, own = Some i -> i ∉ stk h;
}.

Lemma thread_ok_mono c c' H stk N N' own p :
  shared c H stk N -> interferes c c' stk N N' own -> (forall i, own = Some i -> holds p <> Some i) ->
  thread_ok c N p -> thread_ok c' N' p.
Proof.
  intros Hsh [Hmono Hhead Hnext Hptr Hown] Hne.
  assert (Hsnap : forall h old P Q, (hpc_head c h = old -> P -> Q) -> snap c N h old P -> snap c' N' h old Q).
  { intros h old P Q HPQ (i & n & Hold & Hi & Hn & HP). exists i, n.
    pose proof (Hmono h). split_and!; try done; try lia. intros Hn'.
    assert (N' h = N h) as HN by lia. assert (n = N h) as Hn2 by lia. destruct (HP Hn2) as [HP1 HP2].
    rewrite (Hhead h HN). auto. }
  assert (Hpay : forall o i r, holds p = Some i -> payload c o i r -> payload c' o i r).
  { intros o i r Hp. unfold payload. destruct o; [done |]. rewrite Hptr; [done |]. intros Ho. by apply (Hne i). }
  destruct p as [| o | o old | o old next | o i | o i r | o i r old | o i r old | r]; simpl; try done.
  - apply Hsnap. done.
  - intros [Hv Hs]. split; [done |]. revert Hs. apply Hsnap. intros Hh HP. rewrite Hnext; [done |].
    rewrite <- Hh in *. rewrite (shared_index _ _ _ _ Hsh) in *. intros Ho. apply (Hown _ (pop_of o) Ho).
    destruct (stk (pop_of o)); [done |]. apply elem_of_cons. by left.
  - by apply Hpay.
  - by apply Hpay.
  - intros [Hp Hn]. split; [by apply Hpay |]. rewrite Hnext; [done |]. intros Ho. by apply (Hne i).
Qed.

Lemma abs_pc_mono c c' stk N N' own p :
  interferes c c' stk N N' own -> (forall i, own = Some i -> holds p <> Some i) -> abs_pc c' p = abs_pc c p.
Proof.
  intros Hint Hne. destruct p; simpl; try done. destruct o; [| done].
  rewrite (in_ptr _ _ _ _ _ _ Hint); [done |]. intros Ho. by apply (Hne index).
Qed.

(** A step of the abstract machine, or none. *)
Definition sim (a : astate) (e : option (nat * event)) (a' : astate) : Prop :=
  e = None /\ a' = a \/ astep a e a'.

Definition abs_rel (s : hstate) (stk : head_id -> list Z) (a : astate) : Prop :=
  a.1 = contents s.1 stk /\ forall t, a.2 t = abs_pc s.1 (s.2 t).

(** Assembling a step: the mover's new position, and everybody else unmoved. *)
Lemma finish_step c c' T t p' stk stk' N N' own A e :
  hinv (c, T) stk N -> (forall t', A t' = abs_pc c (T t')) ->
  interferes c c' stk N N' own -> (forall i, own = Some i -> holds (T t) = Some i) ->
  shared c' (upd_thread (fun t => holds (T t)) t (holds p')) stk' N' ->
  thread_ok c' N' p' -> (forall h, N' h <= N h + 1) ->
  (e = None /\ contents c' stk' = contents c stk /\ abs_pc c' p' = A t \/
   astep (contents c stk, A) e (contents c' stk', upd_thread A t (abs_pc c' p'))) ->
  exists stk' N' A', hinv (c', upd_thread T t p') stk' N' /\ (forall h, N' h <= N h + 1) /\
    abs_rel (c', upd_thread T t p') stk' (contents c' stk', A') /\
    sim (contents c stk, A) e (contents c' stk', A').
Proof.
  intros [Hsh Hth] HA Hint Hown Hsh' Hp' HN Hsim. simpl in *.
  assert (Hne : forall t' i, t' <> t -> own = Some i -> holds (T t') <> Some i).
  { intros t' i Ht Ho Hh. apply Ht. eapply (sh_inj _ _ _ _ Hsh); [exact Hh | by apply Hown]. }
  assert (Hoth : forall t', t' <> t -> A t' = abs_pc c' (T t')).
  { intros t' Ht. rewrite HA. symmetry. eapply abs_pc_mono; [exact Hint |]. intros i. by apply Hne. }
  assert (exists A', (forall t', A' t' = abs_pc c' (upd_thread T t p' t')) /\
    sim (contents c stk, A) e (contents c' stk', A')) as (A' & HA' & Hs).
  { destruct Hsim as [(-> & -> & Ht) | Hs].
    - exists A. split; [| by left]. intros t'. unfold upd_thread. case_decide as E; [by subst | by apply Hoth].
    - exists (upd_thread A t (abs_pc c' p')). split; [| by right].
      intros t'. unfold upd_thread. case_decide as E; [done | by apply Hoth]. }
  exists stk', N', A'. split; [| split; [done | split; [split; [done | exact HA'] | exact Hs]]].
  constructor; simpl.
  - eapply shared_ext; [exact Hsh' |]. intros t'. unfold upd_thread. by case_decide.
  - intros t'. unfold upd_thread. case_decide as E; [done |].
    eapply thread_ok_mono; [exact Hsh | exact Hint | | apply Hth]. intros i. by apply Hne.
Qed.

Lemma interferes_refl c stk N : interferes c c stk N N None.
Proof. by constructor. Qed.

Lemma interferes_head c stk N h v (H : nat -> option Z) :
  shared c H stk N -> interferes c (set_hpc_head c h v) stk N (upd_head N h (N h + 1)) None.
Proof.
  intros Hsh. constructor; try (by destruct h).
  - intros h'. unfold upd_head. case_decide; subst; lia.
  - intros h'. unfold upd_head. case_decide as E; subst; [lia |]. intros _. by destruct h, h'.
Qed.

Lemma upd_head_N_le (N : head_id -> Z) h h' : upd_head N h (N h + 1) h' <= N h' + 1.
Proof. unfold upd_head. case_decide; subst; lia. Qed.

(** Slots that are on neither stack are held by as many threads. *)
Lemma holders c H stk N (l : list Z) :
  shared c H stk N -> NoDup l -> (forall i, i ∈ l -> in_slots i = true /\ forall h, i ∉ stk h) ->
  exists ts, NoDup ts /\ length ts = length l /\ forall t, t ∈ ts -> exists i, i ∈ l /\ H t = Some i.
Proof.
  intros Hsh. induction l as [| i l IH]; intros Hnd Hl.
  { exists []. split; [constructor |]. split; [done |]. intros t Ht. by apply not_elem_of_nil in Ht. }
  apply NoDup_cons in Hnd as [Hi Hnd]. destruct (IH Hnd) as (ts & Hts & Hlen & Hin).
  { intros j Hj. apply Hl, elem_of_cons. by right. }
  destruct (Hl i) as [Hr Hout]; [apply elem_of_cons; by left |].
  destruct (sh_cover _ _ _ _ Hsh i Hr) as [[h Hh] | [t Ht]]; [by destruct (Hout h) |].
  exists (t :: ts). split; [apply NoDup_cons; split; [| done] |].
  - intros Htin. destruct (Hin t Htin) as (j & Hj & Hj'). congruence.
  - split; [cbn; by rewrite Hlen |]. intros t' [-> | Ht']%elem_of_cons.
    + exists i. split; [apply elem_of_cons; by left | done].
    + destruct (Hin t' Ht') as (j & Hj & ?). exists j. split; [apply elem_of_cons; by right | done].
Qed.

(** An empty free stack: every slot is on the used one or held by a thread. *)
Lemma full_or_busy c H stk N :
  shared c H stk N -> stk FreeHead = [] ->
  exists ts, NoDup ts /\ (forall t, t ∈ ts -> exists i, H t = Some i) /\ Z.of_nat (length (stk UsedHead) + length ts) = kCapacity.
Proof.
  intros Hsh Hempty. set (l := filter (fun i => i ∉ stk UsedHead) (seqZ 0 kCapacity)).
  assert (Hnd : NoDup l) by apply NoDup_filter, NoDup_seqZ.
  destruct (holders c H stk N l Hsh Hnd) as (ts & Hts & Hlen & Hin).
  { intros i [Hout Hi%elem_of_seqZ]%list_elem_of_filter. split; [apply in_slots_lt; lia |]. intros []; [| done].
    rewrite Hempty. apply not_elem_of_nil. }
  exists ts. split; [done |]. split; [intros t Ht; destruct (Hin t Ht) as (i & _ & ?); by exists i |].
  assert (Hp : stk UsedHead ++ l ≡ₚ seqZ 0 kCapacity).
  { apply NoDup_Permutation; [apply NoDup_app; split; [apply Hsh |]; split; [| done] | apply NoDup_seqZ |].
    - intros i Hi [Hout _]%list_elem_of_filter. done.
    - intros i. rewrite elem_of_app. unfold l. rewrite list_elem_of_filter. split.
      + intros [Hi | [_ ?]]; [| done]. apply (sh_range _ _ _ _ Hsh), in_slots_lt in Hi. apply elem_of_seqZ. lia.
      + intros Hi. destruct (decide (i ∈ stk UsedHead)); [by left | by right]. }
  apply Permutation_length in Hp. rewrite length_app, length_seqZ in Hp. rewrite Hlen, Hp. done.
Qed.

Lemma used_bound c H stk N t i :
  shared c H stk N -> H t = Some i -> Z.of_nat (length (stk UsedHead)) < kCapacity.
Proof.
  intros Hsh Ht. destruct (sh_held _ _ _ _ Hsh _ _ Ht) as [Hi Hout].
  assert (Hnd : NoDup (i :: stk UsedHead)) by (apply NoDup_cons; split; [apply Hout | apply Hsh]).
  assert (Hsub : i :: stk UsedHead ⊆+ seqZ 0 kCapacity).
  { apply NoDup_submseteq; [done |]. intros j [-> | Hj]%elem_of_cons.
    - apply in_slots_lt in Hi. apply elem_of_seqZ. lia.
    - apply (sh_range _ _ _ _ Hsh), in_slots_lt in Hj. apply elem_of_seqZ. lia. }
  apply submseteq_length in Hsub. rewrite length_seqZ in Hsub. simpl in Hsub. unfold kCapacity in *. simpl in *. lia.
Qed.

(** A thread that holds a slot occupies a place. *)
Lemma holder_occupies c N p i : thread_ok c N p -> holds p = Some i -> occupies (abs_pc c p).
Proof.
  intros Hok Hi. unfold occupies. destruct p as [| o | o old | o old next | [| q] j | [| q] j r | [| q] j r old | [| q] j r old | r]; try done; cbn in *;
    try (eexists; by left); try (eexists; by right).
  - destruct Hok as [q ->]. eexists. by right.
  - destruct Hok as [q ->]. eexists. by right.
  - destruct Hok as [[q ->] _]. eexists. by right.
Qed.

(** An operation that finds its stack empty has its failure decided. *)
Lemma empty_sim c T stk N A t o :
  hinv (c, T) stk N -> (forall t', A t' = abs_pc c (T t')) -> A t = APend o -> holds (T t) = None ->
  hd_idx (stk (pop_of o)) = kInvalid ->
  astep (contents c stk, A) None (contents c stk, upd_thread A t (ADone (failed o))).
Proof.
  intros Hi HA Ht Hh Hemp. pose proof (hi_shared _ _ _ Hi) as Hsh. simpl in Hsh.
  apply (shared_empty _ _ _ _ Hsh) in Hemp. destruct o as [| p]; simpl in *.
  - unfold contents. rewrite Hemp. by apply a_get_empty.
  - apply a_put_full with (p := p); [done |].
    destruct (full_or_busy _ _ _ _ Hsh Hemp) as (ts & Hts & Hin & Hlen). exists ts. split; [done |].
    split; [intros Hin'; destruct (Hin t Hin') as [i Hi']; congruence |].
    split; [| unfold contents; by rewrite length_map]. intros t' Ht'. rewrite HA. destruct (Hin t' Ht') as [i Hi'].
    by eapply holder_occupies; [apply Hi | exact Hi'].
Qed.

(** Loading a head: a failed operation is linearized here. *)
Lemma load_step c T stk N A t o :
  hinv (c, T) stk N -> (forall t', A t' = abs_pc c (T t')) -> A t = APend o -> holds (T t) = None ->
  exists stk' N' A', hinv (c, upd_thread T t (PopNext o (hpc_head c (pop_of o)))) stk' N' /\
    (forall h, N' h <= N h + 1) /\
    abs_rel (c, upd_thread T t (PopNext o (hpc_head c (pop_of o)))) stk' (contents c stk', A') /\
    sim (contents c stk, A) None (contents c stk', A').
Proof.
  intros Hi HA Ht Hh. pose proof (hi_shared _ _ _ Hi) as Hsh. simpl in Hsh.
  eapply (finish_step c c T t _ stk stk N N None A None); [done | done | apply interferes_refl | done | | | |].
  - eapply shared_ext; [exact Hsh |]. intros t'. unfold upd_thread. case_decide as E; [by subst | done].
  - by eapply snap_now.
  - lia.
  - cbn [abs_pc]. rewrite (shared_index _ _ _ _ Hsh).
    destruct (Z.eqb_spec (hd_idx (stk (pop_of o))) kInvalid) as [E | E]; [right | by left].
    by eapply empty_sim.
Qed.

(** A step that changes neither the shared state nor the slots held. *)
Lemma local_step c T stk N A t p' e :
  hinv (c, T) stk N -> (forall t', A t' = abs_pc c (T t')) -> holds p' = holds (T t) -> thread_ok c N p' ->
  (e = None /\ abs_pc c p' = A t \/ astep (contents c stk, A) e (contents c stk, upd_thread A t (abs_pc c p'))) ->
  exists stk' N' A', hinv (c, upd_thread T t p') stk' N' /\ (forall h, N' h <= N h + 1) /\
    abs_rel (c, upd_thread T t p') stk' (contents c stk', A') /\ sim (contents c stk, A) e (contents c stk', A').
Proof.
  intros Hi HA Hh Hp' Hs. pose proof (hi_shared _ _ _ Hi) as Hsh. simpl in Hsh.
  eapply (finish_step c c T t p' stk stk N N None A e); [done | done | apply interferes_refl | done | | done | lia |].
  - eapply shared_ext; [exact Hsh |]. intros t'. unfold upd_thread. case_decide as E; [by subst | done].
  - destruct Hs as [[-> ?] | ?]; [by left | by right].
Qed.

Lemma contents_ext c c' stk stk' :
  stk' UsedHead = stk UsedHead -> (forall i, i ∈ stk UsedHead -> slot_ptr c' !! i = slot_ptr c !! i) ->
  contents c' stk' = contents c stk.
Proof.
  intros Hs Hp. unfold contents. rewrite Hs. apply map_ext_in. intros i Hi. rewrite Hp; [done |].
  by apply list_elem_of_In.
Qed.

(** The swap that takes a slot; on the used stack it linearizes [Get]. *)
Lemma pop_step c T stk N A t o next :
  hinv (c, T) stk N -> (forall t', A t' = abs_pc c (T t')) -> (forall h, N h < 2 ^ 48) ->
  T t = PopCas o (hpc_head c (pop_of o)) next ->
  let old := hpc_head c (pop_of o) in
  let c' := set_hpc_head c (pop_of o) (Pack next (u64 (HpcTag old + 1))) in
  let T' := upd_thread T t (SlotPtr o (HpcIndex old)) in
  exists stk' N' A', hinv (c', T') stk' N' /\ (forall h, N' h <= N h + 1) /\
    abs_rel (c', T') stk' (contents c' stk', A') /\ sim (contents c stk, A) None (contents c' stk', A').
Proof.
  intros Hi HA HN Ht old c' T'. subst old T'. pose proof (hi_shared _ _ _ Hi) as Hsh. simpl in Hsh.
  pose proof (hi_thread _ _ _ Hi t) as Hth. simpl in Hth. rewrite Ht in Hth. destruct Hth as [Hv Hsn].
  pose proof (snap_swap _ _ _ _ Hsh _ _ _ Hsn eq_refl (HN _)) as Hnext.
  pose proof (HA t) as HAt. rewrite Ht in HAt. simpl in HAt.
  rewrite (shared_index _ _ _ _ Hsh) in *. set (h := pop_of o) in *.
  destruct (stk h) as [| i l] eqn:Hs; [done |]. cbn [hd_idx] in *.
  pose proof (sh_links _ _ _ _ Hsh h) as Hl. rewrite Hs in Hl. destruct Hl as [Hl _].
  assert (next = hd_idx l) as -> by congruence. clear Hnext.
  assert (Hdl : hd_idx l = kInvalid \/ in_slots (hd_idx l) = true).
  { destruct l as [| j l]; [by left | right]. apply (sh_range _ _ _ _ Hsh h). rewrite Hs. simpl.
    apply elem_of_cons. right. apply elem_of_cons. by left. }
  assert (Hc' : c' = set_hpc_head c h (Pack (hd_idx l) (N h + 1))).
  { unfold c'. rewrite (sh_head _ _ _ _ Hsh), Hs. cbn [hd_idx]. rewrite Pack_next; [done | | | apply Hsh].
    - apply in_slots_range. right. apply (sh_range _ _ _ _ Hsh h). rewrite Hs. apply elem_of_cons. by left.
    - by apply in_slots_range. }
  clearbody c'. subst c'.
  assert (Hptr : forall v, slot_ptr (set_hpc_head c h v) = slot_ptr c) by (intros; by destruct h).
  eapply (finish_step c _ T t _ stk (upd_head stk h l) N (upd_head N h (N h + 1)) None A None);
    [done | done | by eapply interferes_head | done | | done | intros; apply upd_head_N_le |].
  - cbn [holds]. apply shared_pop; [done | done |]. by rewrite Ht.
  - destruct o as [| p]; simpl in h; [right | left].
    + subst h. cbn [abs_pc]. rewrite Hptr. unfold contents. rewrite Hptr, Hs, upd_head_eq. cbn [map].
      by apply a_get.
    + split; [done |]. split; [| done]. apply contents_ext; [by apply upd_head_ne | intros; by rewrite Hptr].
Qed.

(** The swap that puts a slot back; on the used stack it linearizes [Put]. *)
Lemma push_step c T stk N A t o i r :
  hinv (c, T) stk N -> (forall t', A t' = abs_pc c (T t')) ->
  T t = PushCas o i r (hpc_head c (push_of o)) ->
  let old := hpc_head c (push_of o) in
  let c' := set_hpc_head c (push_of o) (Pack i (u64 (HpcTag old + 1))) in
  exists stk' N' A', hinv (c', upd_thread T t (Ret r)) stk' N' /\ (forall h, N' h <= N h + 1) /\
    abs_rel (c', upd_thread T t (Ret r)) stk' (contents c' stk', A') /\
    sim (contents c stk, A) None (contents c' stk', A').
Proof.
  intros Hi HA Ht old c'. subst old. pose proof (hi_shared _ _ _ Hi) as Hsh. simpl in Hsh.
  pose proof (hi_thread _ _ _ Hi t) as Hth. simpl in Hth. rewrite Ht in Hth. destruct Hth as [Hpay Hnext].
  pose proof (HA t) as HAt. rewrite Ht in HAt. simpl in HAt.
  rewrite (shared_index _ _ _ _ Hsh) in *. set (h := push_of o) in *.
  assert (Hheld : holds (T t) = Some i) by (by rewrite Ht).
  destruct (sh_held _ _ _ _ Hsh t i Hheld) as [Hir Hiout].
  assert (Hc' : c' = set_hpc_head c h (Pack i (N h + 1))).
  { unfold c'. rewrite (sh_head _ _ _ _ Hsh). rewrite Pack_next; [done | | | apply Hsh].
    - eapply in_slots_range, shared_hd, Hsh.
    - apply in_slots_range. by right. }
  clearbody c'. subst c'.
  assert (Hptr : forall v, slot_ptr (set_hpc_head c h v) = slot_ptr c) by (intros; by destruct h).
  eapply (finish_step c _ T t _ stk (upd_head stk h (i :: stk h)) N (upd_head N h (N h + 1)) None A None);
    [done | done | by eapply interferes_head | done | | done | intros; apply upd_head_N_le |].
  - cbn [holds]. by apply shared_push.
  - destruct o as [| p]; simpl in h; [left | right].
    + split; [done |]. split; [| done]. apply contents_ext; [by apply upd_head_ne | intros; by rewrite Hptr].
    + subst h. destruct Hpay as [-> Hp]. unfold contents. rewrite Hptr, upd_head_eq. cbn [map abs_pc].
      rewrite Hp. simpl. apply a_put; [done |]. rewrite length_map. by apply (used_bound _ _ _ _ t i Hsh Hheld).
Qed.

Lemma interferes_next c H stk N t i v :
  shared c H stk N -> H t = Some i -> interferes c (set_slot_next c i v) stk N N (Some i).
Proof.
  intros Hsh Ht. constructor; try done.
  - intros j Hj. apply lookup_insert_ne. congruence.
  - intros j h [= <-]. by apply (sh_held _ _ _ _ Hsh t i).
Qed.

Lemma interferes_ptr c H stk N t i v :
  shared c H stk N -> H t = Some i -> interferes c (set_slot_ptr c i v) stk N N (Some i).
Proof.
  intros Hsh Ht. constructor; try done.
  - intros j Hj. apply lookup_insert_ne. congruence.
  - intros j h [= <-]. by apply (sh_held _ _ _ _ Hsh t i).
Qed.

(** Every step of a reachable state is a step of the abstract cache, or none. *)
Lemma step_sim c T stk N A e c' T' :
  hinv (c, T) stk N -> (forall t', A t' = abs_pc c (T t')) -> (forall h, N h < 2 ^ 48) ->
  hstep (c, T) e (c', T') ->
  exists stk' N' A', hinv (c', T') stk' N' /\ (forall h, N' h <= N h + 1) /\
    abs_rel (c', T') stk' (contents c' stk', A') /\ sim (contents c stk, A) e (contents c' stk', A').
Proof.
  intros Hi HA HN Hst. inversion Hst as [c0 T0 t e0 c1 p' Ht Hc0 He Hc1]. subst c0 T0 c1 T' e. clear Hst.
  pose proof (HA t) as HAt. pose proof (hi_thread _ _ _ Hi t) as Hth. simpl in Hth.
  pose proof (hi_shared _ _ _ Hi) as Hsh. simpl in Hsh.
  remember (T t) as p eqn:Hp. symmetry in Hp.
  destruct Ht; simpl in HAt, Hth; cbn [fmap option_fmap option_map].
  - (* call *)
    apply local_step; [done | done | by rewrite Hp | done |]. right. by apply a_call.
  - apply load_step; [done | done | done | by rewrite Hp].
  - (* empty *)
    apply local_step; [done | done | by rewrite Hp | done |]. left. split; [done |].
    rewrite HAt, (proj2 (Z.eqb_eq _ _)) by done. done.
  - apply local_step; [done | done | by rewrite Hp | |].
    + split; [done |]. destruct Hth as (i & n & -> & Hin & Hn & Himp). exists i, n.
      split_and!; try done; try lia. intros Heq. by destruct (Himp Heq).
    + left. split; [done |]. rewrite HAt, (proj2 (Z.eqb_neq _ _)) by done. done.
  - subst old. by apply (pop_step c T stk N A t o next).
  - apply load_step; [done | done | done | by rewrite Hp].
  - apply local_step; [done | done | by rewrite Hp | simpl; by eexists |].
    left. split; [done |]. simpl. rewrite HAt. by rewrite H.
  - assert (Hheld : holds (T t) = Some index) by (by rewrite Hp).
    eapply (finish_step c _ T t _ stk stk N N (Some index) A None); [done | done | exact (interferes_ptr _ _ _ _ t _ _ Hsh Hheld) | by intros ? [= <-] | | | lia |].
    + eapply shared_ext; [exact (shared_set_ptr _ _ _ _ Hsh t _ _ Hheld) |]. intros t'. unfold upd_thread.
      case_decide as E; [subst t'; by rewrite Hp | done].
    + simpl. split; [done |]. apply lookup_insert_eq.
    + left. split; [done |]. split; [| done]. apply contents_ext; [done |]. intros i Hin. apply lookup_insert_ne.
      intros ->. by destruct (sh_held _ _ _ _ Hsh _ _ Hheld) as [_ Hout]; eapply Hout.
  - apply local_step; [done | done | by rewrite Hp | done |]. left. split; [done |]. rewrite HAt. by destruct o.
  - assert (Hheld : holds (T t) = Some index) by (by rewrite Hp).
    eapply (finish_step c _ T t _ stk stk N N (Some index) A None); [done | done | exact (interferes_next _ _ _ _ t _ _ Hsh Hheld) | by intros ? [= <-] | | | lia |].
    + eapply shared_ext; [exact (shared_set_next _ _ _ _ Hsh t _ _ Hheld) |]. intros t'. unfold upd_thread.
      case_decide as E; [subst t'; by rewrite Hp | done].
    + simpl. split; [done |]. apply lookup_insert_eq.
    + left. split; [done |]. split; [done |]. rewrite HAt. by destruct o.
  - subst old. by apply (push_step c T stk N A t o index r).
  - apply local_step; [done | done | by rewrite Hp | by destruct Hth |]. left. split; [done |]. rewrite HAt. by destruct o.
  - apply local_step; [done | done | by rewrite Hp | done |]. right. simpl. by apply a_return.
Qed.

(** No thread of a reachable state is stuck: no index leaves the array. *)
Lemma step_enabled c T stk N t : hinv (c, T) stk N -> exists e c' p', tstep c (T t) e c' p'.
Proof.
  intros Hi. pose proof (hi_shared _ _ _ Hi) as Hsh. pose proof (hi_thread _ _ _ Hi t) as Hth. simpl in *.
  assert (Hheld : forall i, holds (T t) = Some i -> in_slots i = true) by (intros i Hh; by apply (sh_held _ _ _ _ Hsh t)).
  destruct (T t) as [| o | o old | o old next | o i | o i r | o i r old | o i r old | r]; simpl in *.
  1: (do 3 eexists; exact (t_call c OGet)).
  all: try (by do 3 eexists; econstructor).
  - destruct (Z.eq_dec (HpcIndex old) kInvalid) as [E | E]; [do 3 eexists; by apply t_pop_empty |].
    destruct Hth as (i & n & -> & Hin & Hn & _).
    rewrite HpcIndex_Pack in E by (lia || by apply in_slots_range).
    destruct Hin as [? | Hin]; [done |]. destruct (sh_dom _ _ _ _ Hsh i Hin) as [_ [v Hv]].
    do 3 eexists. apply (t_pop_next c o (Pack i n) v); rewrite HpcIndex_Pack by (lia || apply in_slots_range; by right); done.
  - destruct (sh_dom _ _ _ _ Hsh i (Hheld i eq_refl)) as [[v Hv] _].
    destruct o as [| p]; do 3 eexists; [by apply t_get_ptr | apply t_put_ptr; by apply Hheld].
  - do 3 eexists. apply t_push_store. by apply Hheld.
Qed.

(** ** The initial state *)

Definition hpc_start : HugePageCache :=
  match HugePageCache_new with Ok c => c | _ => mkHPC 0 0 ∅ ∅ end.
Definition start_stk (h : head_id) : list Z := match h with FreeHead => seqZ 0 kCapacity | UsedHead => [] end.

Lemma HugePageCache_new_ok : HugePageCache_new = Ok hpc_start.
Proof. by vm_compute. Qed.

Lemma links_check nxt l :
  forallb (fun p => bool_decide (nxt !! p.1 = Some p.2)) (zip l (tail l ++ [kInvalid])) = true -> links nxt l.
Proof.
  induction l as [| i l IH]; [done |]. intros Hb. destruct l as [| j l].
  - cbn [tail app zip zip_with forallb] in Hb. apply andb_true_iff in Hb as [Hb _]. by apply bool_decide_eq_true in Hb.
  - cbn [tail app zip zip_with forallb] in Hb. apply andb_true_iff in Hb as [Hb Hr].
    apply bool_decide_eq_true in Hb. split; [done |]. by apply IH.
Qed.

Lemma start_shared : shared hpc_start (fun _ => None) start_stk (fun _ => 0).
Proof.
  constructor.
  - intros []; by vm_compute.
  - done.
  - intros []; [apply links_check; by vm_compute | done].
  - intros []; [apply NoDup_seqZ | constructor].
  - intros i _ Hi. by apply not_elem_of_nil in Hi.
  - intros [] i; simpl; [| intros Hi; by apply not_elem_of_nil in Hi].
    intros Hi%elem_of_seqZ. apply in_slots_lt. lia.
  - done.
  - done.
  - intros i Hi%in_slots_lt. left. exists FreeHead. apply elem_of_seqZ. lia.
  - intros i Hi%in_slots_lt.
    assert (Hb : forallb (fun i => bool_decide (is_Some (slot_ptr hpc_start !! i)) && bool_decide (is_Some (slot_next hpc_start !! i))) (seqZ 0 kCapacity) = true)
      by (by vm_compute).
    rewrite forallb_forall in Hb. specialize (Hb i). rewrite <- list_elem_of_In, elem_of_seqZ in Hb.
    specialize (Hb ltac:(lia)). apply andb_true_iff in Hb as [H1 H2].
    by apply bool_decide_eq_true in H1, H2.
Qed.

Lemma steps_sim k tr c T :
  hsteps (hpc_start, fun _ => Idle) k tr (c, T) -> Z.of_nat k < 2 ^ 48 ->
  exists stk N A, hinv (c, T) stk N /\ (forall h, N h <= Z.of_nat k) /\
    asteps ([], fun _ => ANone) tr (contents c stk, A) /\ forall t, A t = abs_pc c (T t).
Proof.
  intros Hs. remember (c, T) as s eqn:HE. revert c T HE. induction Hs as [| k tr s1 e s2 Hs IH Hst]; intros c T HE Hk.
  - injection HE as <- <-. exists start_stk, (fun _ => 0), (fun _ => ANone).
    split; [split; [apply start_shared | done] |]. split; [lia |]. split; [apply as_refl | done].
  - subst s2. destruct s1 as [c1 T1]. destruct (IH c1 T1 eq_refl ltac:(lia)) as (stk & N & A & Hi & HN & Ha & HA).
    destruct (step_sim c1 T1 stk N A e c T Hi HA) as (stk' & N' & A' & Hi' & HN' & Hrel & Hsim); [| done |].
    { intros h. specialize (HN h). lia. }
    exists stk', N', A'. split; [done |]. split; [intros h; specialize (HN h); specialize (HN' h); lia |].
    destruct Hrel as [_ Hrel]. split; [| exact Hrel].
    destruct Hsim as [[-> Heq] | Hsim].
    + simpl. by rewrite Heq.
    + by eapply as_step.
Qed.

(** C31: the lock-free cache is linearizable, up to 2^48 accesses.  Take any number
    of threads that call [Get] and [Put] on the constructed cache in any
    interleaving of their atomic accesses, spurious compare-and-swap failures
    included.  As long as fewer than 2^48 accesses have been made (beyond that a
    tag may come round again), the calls and returns so far are a trace of an
    atomic LIFO over 16 places: each [Get] returns the pointer put last and still
    there, or null when there is none, each pointer put is returned at most once,
    and a [Put] is refused only when the pointers stored, together with the places
    occupied by other operations under way (one for each [Put] that has not taken
    effect yet and each [Get] that has its pointer and has not returned), are 16:
    alone only when the cache is full, among others possibly with fewer than 16
    pointers stored.  No thread is ever stuck and no index leaves the slot array. *)
Theorem HugePageCache_linearizable k tr c T :
  hsteps (hpc_start, fun _ => Idle) k tr (c, T) -> Z.of_nat k < 2 ^ 48 ->
  (exists st A, asteps ([], fun _ => ANone) tr (st, A) /\ Z.of_nat (length st) <= kCapacity /\
     forall t, A t = abs_pc c (T t)) /\
  (forall t, exists e c' p', tstep c (T t) e c' p').
Proof.
  intros Hs Hk. destruct (steps_sim k tr c T Hs Hk) as (stk & N & A & Hi & _ & Ha & HA).
  split; [| intros t; by eapply step_enabled].
  exists (contents c stk), A. split; [done |]. split; [| done].
  unfold contents. rewrite length_map. pose proof (hi_shared _ _ _ Hi) as Hsh. simpl in Hsh.
  assert (Hsub : stk UsedHead ⊆+ seqZ 0 kCapacity).
  { apply NoDup_submseteq; [apply Hsh |]. intros j Hj.
    apply (sh_range _ _ _ _ Hsh), in_slots_lt in Hj. apply elem_of_seqZ. lia. }
  apply submseteq_length in Hsub. rewrite length_seqZ in Hsub. unfold kCapacity, HUGE_PAGE_CACHE_SIZE in *. lia.
Qed.

(** An executable scheduler: thread [t] takes its next step, calling [o] when
    idle; swaps fail only when the values differ. *)
Definition exec_step (c : HugePageCache) (p : pc) (o : hop) : option (option event * HugePageCache * pc) :=
  match p with
  | Idle => Some (Some (Call o), c, PopLoad o)
  | PopLoad o => Some (None, c, PopNext o (hpc_head c (pop_of o)))
  | PopNext o old =>
      if decide (HpcIndex old = kInvalid) then Some (None, c, Ret (failed o))
      else match slot_next c !! HpcIndex old with
           | Some next => Some (None, c, PopCas o old next)
           | None => None
           end
  | PopCas o old next =>
      if decide (hpc_head c (pop_of o) = old)
      then Some (None, set_hpc_head c (pop_of o) (Pack next (u64 (HpcTag old + 1))), SlotPtr o (HpcIndex old))
      else Some (None, c, PopNext o (hpc_head c (pop_of o)))
  | SlotPtr OGet i =>
      match slot_ptr c !! i with
      | Some q => Some (None, c, PushLoad OGet i (RGet q))
      | None => None
      end
  | SlotPtr (OPut q) i =>
      if in_slots i then Some (None, set_slot_ptr c i q, PushLoad (OPut q) i (RPut true)) else None
  | PushLoad o i r => Some (None, c, PushStore o i r (hpc_head c (push_of o)))
  | PushStore o i r old =>
      if in_slots i then Some (None, set_slot_next c i (HpcIndex old), PushCas o i r old) else None
  | PushCas o i r old =>
      if decide (hpc_head c (push_of o) = old)
      then Some (None, set_hpc_head c (push_of o) (Pack i (u64 (HpcTag old + 1))), Ret r)
      else Some (None, c, PushStore o i r (hpc_head c (push_of o)))
  | Ret r => Some (Some (Return r), c, Idle)
  end.

Lemma exec_step_sound c p o e c' p' : exec_step c p o = Some (e, c', p') -> tstep c p e c' p'.
Proof.
  destruct p as [| o1 | o1 old | o1 old next | [| q] i | o1 i r | o1 i r old | o1 i r old | r]; simpl; intros Heq;
    repeat case_decide; repeat (case_match; try done); simplify_eq; by constructor.
Qed.

(** A schedule, its calls and returns (the last first) and the state it ends in. *)
Fixpoint exec (sched : list (nat * hop)) (s : hstate) (tr : list (nat * event))
    : option (list (nat * event) * hstate) :=
  match sched with
  | [] => Some (tr, s)
  | (t, o) :: sched' =>
      match exec_step s.1 (s.2 t) o with
      | Some (e, c, p) => exec sched' (c, upd_thread s.2 t p) (cons_event ((fun e => (t, e)) <$> e) tr)
      | None => None
      end
  end.

Lemma exec_sound sched s0 k tr s tr' s' :
  hsteps s0 k tr s -> exec sched s tr = Some (tr', s') -> hsteps s0 (k + length sched) tr' s'.
Proof.
  revert k tr s. induction sched as [| [t o] sched IH]; intros k tr [c T] Hs Heq; simpl in Heq.
  - injection Heq as <- <-. simpl. by rewrite Nat.add_0_r.
  - destruct (exec_step c (T t) o) as [[[e c1] p1] |] eqn:He; [| done].
    simpl. rewrite Nat.add_succ_r. apply (IH (S k) _ _ ltac:(eapply hs_step; [exact Hs | apply h_step; by eapply exec_step_sound])).
    exact Heq.
Qed.

(** Thread 1 loads the empty used head, thread 0 puts a page, thread 1 fails. *)
Definition sample_sched : list (nat * hop) :=
  [(1%nat, OGet); (1%nat, OGet)] ++ replicate 8 (0%nat, OPut 2097152) ++
  [(1%nat, OGet); (1%nat, OGet); (0%nat, OGet)].
Definition sample_trace : list (nat * event) :=
  [(0%nat, Return (RPut true)); (1%nat, Return (RGet 0)); (0%nat, Call (OPut 2097152)); (1%nat, Call OGet)].
Definition sample_end : hstate :=
  match exec sample_sched (hpc_start, fun _ => Idle) [] with
  | Some (_, s) => s
  | None => (hpc_start, fun _ => Idle)
  end.

(** Thread 0 puts 16 pages, thread 1 takes a slot off for a [Get], thread 2 calls
    [Put]: the last calls and returns, and how far thread 1 is. *)
Definition refused_sched : list (nat * hop) :=
  concat (map (fun i => replicate 9 (0%nat, OPut (i * 2097152))) (seqZ 1 16)) ++
  replicate 4 (1%nat, OGet) ++ replicate 4 (2%nat, OPut 2097152).
Definition refused_run : option (list (nat * event) * astat) :=
  '(tr, s) ← exec refused_sched (hpc_start, fun _ => Idle) [];
  Some (take 4 tr, abs_pc s.1 (s.2 1%nat)).

(** With 15 pages stored and a [Get] under way, a [Put] is refused. *)
Lemma put_refused : refused_run =
  Some ([(2%nat, Return (RPut false)); (2%nat, Call (OPut 2097152)); (1%nat, Call OGet); (0%nat, Return (RPut true))],
        ADone (RGet (16 * 2097152))).
Proof. by vm_compute. Qed.

Lemma HugePageCache_linearizable_witness :
  fst <$> exec sample_sched (hpc_start, fun _ => Idle) [] = Some sample_trace /\
  (exists st A, asteps ([], fun _ => ANone) sample_trace (st, A) /\ Z.of_nat (length st) <= kCapacity /\
     forall t, A t = abs_pc sample_end.1 (sample_end.2 t)) /\
  (forall t, exists e c' p', tstep sample_end.1 (sample_end.2 t) e c' p').
Proof.
  assert (Ht : fst <$> exec sample_sched (hpc_start, fun _ => Idle) [] = Some sample_trace) by (by vm_compute).
  split; [exact Ht |].
  assert (Hs : hsteps (hpc_start, fun _ => Idle) 13 sample_trace sample_end).
  { apply (exec_sound sample_sched _ 0 [] (hpc_start, fun _ => Idle)); [apply hs_refl |].
    unfold sample_end. destruct (exec sample_sched (hpc_start, fun _ => Idle) []) as [[tr s] |]; [| done].
    simpl in Ht. congruence. }
  destruct sample_end as [c T]. apply (HugePageCache_linearizable 13 sample_trace c T Hs). lia.
Defined.

(** ** The operations of one thread *)

Definition hpc_rep (c : HugePageCache) (l : list Z) : Prop :=
  exists stk N, shared c (fun _ => None) stk N /\ contents c stk = l.

Lemma HpcPop_ok c stk N h :
  shared c (fun _ => None) stk N ->
  match stk h with
  | [] => HpcPop c h = Ok (None, c)
  | i :: l => exists c', HpcPop c h = Ok (Some i, c') /\ slot_ptr c' = slot_ptr c /\
      shared c' (upd_thread (fun _ => None) 0%nat (Some i)) (upd_head stk h l) (upd_head N h (N h + 1))
  end.
Proof.
  intros Hsh. unfold HpcPop. rewrite (shared_index _ _ _ _ Hsh).
  destruct (stk h) as [| i l] eqn:Hs; [done |]. cbn [hd_idx].
  assert (Hir : in_slots i = true) by (apply (sh_range _ _ _ _ Hsh h); rewrite Hs; apply elem_of_cons; by left).
  rewrite (proj2 (Z.eqb_neq _ _)) by (by apply in_slots_valid).
  unfold slot_access. rewrite Hir, bind_Ok_l.
  pose proof (sh_links _ _ _ _ Hsh h) as Hl. rewrite Hs in Hl. destruct Hl as [-> _]. cbn [default].
  rewrite (sh_head _ _ _ _ Hsh), Hs. cbn [hd_idx]. rewrite Pack_next; [| by apply in_slots_range; right | | apply Hsh].
  2:{ apply in_slots_range. destruct l as [| j l]; [by left | right]. apply (sh_range _ _ _ _ Hsh h). rewrite Hs.
      simpl. apply elem_of_cons. right. apply elem_of_cons. by left. }
  eexists. split; [done |]. split; [by destruct h | by apply shared_pop].
Qed.

Lemma HpcPush_ok c H stk N h i :
  shared c (upd_thread H 0%nat (Some i)) stk N -> (forall t, H t = None) ->
  exists c', HpcPush c h i = Ok c' /\ slot_ptr c' = slot_ptr c /\
    shared c' (fun _ => None) (upd_head stk h (i :: stk h)) (upd_head N h (N h + 1)).
Proof.
  intros Hsh HN. assert (Ht : upd_thread H 0%nat (Some i) 0%nat = Some i) by apply upd_thread_eq.
  destruct (sh_held _ _ _ _ Hsh _ _ Ht) as [Hir _]. unfold HpcPush, slot_access. rewrite Hir, bind_Ok_l.
  rewrite (shared_index _ _ _ _ Hsh).
  pose proof (shared_set_next _ _ _ _ Hsh 0%nat i (hd_idx (stk h)) Ht) as Hsh2.
  rewrite (sh_head _ _ _ _ Hsh), Pack_next; [| eapply in_slots_range, shared_hd, Hsh | by apply in_slots_range; right | apply Hsh].
  eexists. split; [done |]. split; [by destruct h |].
  eapply shared_ext; [eapply (shared_push _ _ _ _ Hsh2 h i 0%nat Ht) |].
  - apply lookup_insert_eq.
  - intros t. unfold upd_thread. by repeat case_decide.
Qed.

Lemma HpcGet_ok c l :
  hpc_rep c l -> exists c', HpcGet c = Ok (hd 0 l, c') /\ hpc_rep c' (tail l).
Proof.
  intros (stk & N & Hsh & <-). unfold HpcGet. pose proof (HpcPop_ok c stk N UsedHead Hsh) as Hp.
  unfold contents. destruct (stk UsedHead) as [| i l] eqn:Hs.
  - rewrite Hp, bind_Ok_l. exists c. split; [done |]. exists stk, N. split; [done |]. unfold contents. by rewrite Hs.
  - destruct Hp as (c1 & -> & Hptr & Hsh1). rewrite bind_Ok_l. cbn [map hd tail].
    destruct (HpcPush_ok c1 _ _ _ FreeHead i Hsh1) as (c2 & -> & Hptr2 & Hsh2); [done |].
    rewrite bind_Ok_l. exists c2. rewrite Hptr. split; [done |]. do 2 eexists. split; [exact Hsh2 |].
    unfold contents. rewrite Hptr2, Hptr. rewrite upd_head_ne by done. by rewrite upd_head_eq.
Qed.

Lemma HpcPut_ok c l p :
  hpc_rep c l -> Z.of_nat (length l) <= kCapacity /\
  exists c', HpcPut c p = Ok (Z.of_nat (length l) <? kCapacity, c') /\
    hpc_rep c' (if Z.of_nat (length l) <? kCapacity then p :: l else l).
Proof.
  intros (stk & N & Hsh & <-). unfold HpcPut. pose proof (HpcPop_ok c stk N FreeHead Hsh) as Hp.
  unfold contents. rewrite length_map. destruct (stk FreeHead) as [| i l] eqn:Hs.
  - destruct (full_or_busy _ _ _ _ Hsh Hs) as (ts & _ & Hts & Hlen).
    assert (ts = []) as -> by (destruct ts as [| t ts]; [done |]; destruct (Hts t) as [i Hi]; [apply elem_of_cons; by left | done]).
    rewrite Nat.add_0_r in Hlen. rewrite Hlen. split; [done |]. rewrite Hp, bind_Ok_l. exists c. rewrite Z.ltb_irrefl. split; [done |].
    exists stk, N. done.
  - destruct Hp as (c1 & -> & Hptr & Hsh1). rewrite bind_Ok_l.
    assert (Ht : upd_thread (fun _ => None) 0%nat (Some i) 0%nat = Some i) by apply upd_thread_eq.
    pose proof (used_bound _ _ _ _ _ _ Hsh1 Ht) as Hlen. rewrite upd_head_ne in Hlen by done.
    rewrite (proj2 (Z.ltb_lt _ _) Hlen). split; [lia |].
    pose proof (shared_set_ptr _ _ _ _ Hsh1 0%nat i p Ht) as Hsh1'.
    destruct (HpcPush_ok (set_slot_ptr c1 i p) _ _ _ UsedHead i Hsh1') as (c2 & -> & Hptr2 & Hsh2); [done |].
    rewrite bind_Ok_l. exists c2. split; [done |]. do 2 eexists. split; [exact Hsh2 |].
    unfold contents. rewrite Hptr2, upd_head_eq. cbn [map slot_ptr set_slot_ptr]. rewrite lookup_insert_eq.
    f_equal. rewrite upd_head_ne by done. apply map_ext_in. intros j Hj. rewrite Hptr, lookup_insert_ne; [done |].
    intros ->. apply list_elem_of_In in Hj.
    destruct (sh_held _ _ _ _ Hsh1 _ _ Ht) as [_ Hout]. apply (Hout UsedHead). by rewrite upd_head_ne.
Qed.

Lemma hpc_start_rep : hpc_rep hpc_start [].
Proof. exists start_stk, (fun _ => 0). split; [apply start_shared | done]. Qed.
