(* ===== verification/PageAllocator.v ===== *)
(** * The page allocator (include/ammalloc/page_allocator.h, src/page_allocator.cpp)

    [PageAllocator] gets page runs from the kernel: small ones with one [mmap],
    runs of a megabyte and more aligned to 2 MiB by trimming an over-allocation,
    and 2 MiB runs from the cache of HugePageCache.v when it holds one.  The
    kernel is the interface [OS]: [mmap], [munmap] and [madvise] as their manual
    pages describe them, with the set of mapped pages as its abstract state. *)
From S2P Require Import Prelude Config Common Backing HugePageCache.
Open Scope Z_scope.

(** ** The kernel *)

Inductive mmap_result := Mapped (ptr : Z) | MmapENOMEM | MmapOther.
Inductive advice := MADV_HUGEPAGE | MADV_WILLNEED | MADV_DONTNEED.

(** [mmap(nullptr, size, PROT_READ | PROT_WRITE, MAP_PRIVATE | MAP_ANONYMOUS [|
    MAP_POPULATE], -1, 0)], [munmap] and [madvise]; the boolean results say
    whether the call returned 0. *)
Class OS (Kn : Type) := {
  os_mmap : Z -> bool -> Kn -> mmap_result * Kn;
  os_munmap : Z -> Z -> Kn -> bool * Kn;
  os_madvise : Z -> Z -> advice -> Kn -> bool * Kn;
}.

(** A new mapping is page-aligned, above the null page, below the end of the user
    address space and disjoint from every other; [munmap] unmaps the range or
    changes nothing; [madvise] does not change which pages are mapped. *)
Class OSLaws (Kn : Type) `{Build} `{OS Kn} := {
  os_rep : Kn -> gset Z -> Prop;
  os_mmap_ok o M n populate :
    os_rep o M -> 0 < n -> n * PAGE_SIZE < W64 ->
    match os_mmap (n * PAGE_SIZE) populate o with
    | (Mapped p, o') =>
        exists pid, p = pid * PAGE_SIZE /\ 0 < pid /\ pid + n < PAGE_LIMIT /\
          M ## pages pid n /\ os_rep o' (M ∪ pages pid n)
    | (_, o') => os_rep o' M
    end;
  os_munmap_ok o M pid n :
    os_rep o M -> 0 < pid -> 0 < n -> pid + n < PAGE_LIMIT ->
    match os_munmap (pid * PAGE_SIZE) (n * PAGE_SIZE) o with
    | (true, o') => os_rep o' (M ∖ pages pid n)
    | (false, o') => os_rep o' M
    end;
  os_madvise_ok o M p n a : os_rep o M -> os_rep (os_madvise p n a o).2 M;
}.

(** [RuntimeConfig::GetInstance()] *)
Class Runtime := { runtime_config : RuntimeConfig }.

(** ** State *)

Inductive counter :=
| normal_alloc_count | normal_alloc_success | normal_alloc_bytes
| huge_alloc_count | huge_alloc_success | huge_alloc_bytes | huge_align_waste_bytes
| huge_cache_hit_count | huge_cache_miss_count
| free_count | free_bytes
| normal_alloc_failed_count | huge_alloc_failed_count | alloc_failed_count
| huge_fallback_to_normal_count | mmap_enomem_count | mmap_other_error_count
| munmap_failed_count | madvise_failed_count.
#[export] Instance counter_eq_dec : EqDecision counter.
Proof. solve_decision. Defined.

Definition PageAllocatorStats : Type := counter -> Z.

Record PageAllocator (Kn : Type) := mkPA {
  pa_os : Kn;
  pa_hpc : HugePageCache;
  pa_stats : PageAllocatorStats
}.
Arguments mkPA {Kn} _ _ _.
Arguments pa_os {Kn} _.
Arguments pa_hpc {Kn} _.
Arguments pa_stats {Kn} _.

Definition stat_store (f : PageAllocatorStats) (c : counter) (v : Z) : PageAllocatorStats :=
  fun c' => if decide (c' = c) then v else f c'.

(** The counters [ResetStats] stores zero to, in its order. *)
Definition reset_order : list counter :=
  [normal_alloc_count; normal_alloc_success; normal_alloc_bytes; huge_alloc_count;
   huge_alloc_success; huge_alloc_bytes; huge_align_waste_bytes; huge_cache_hit_count;
   huge_cache_miss_count; free_count; free_bytes; alloc_failed_count;
   huge_fallback_to_normal_count; normal_alloc_failed_count; huge_alloc_failed_count;
   munmap_failed_count; madvise_failed_count; mmap_enomem_count; mmap_other_error_count].

Definition IsPageAligned (ptr : Z) : bool := Z.land ptr (PAGE_SIZE - 1) =? 0.
Definition IsHugePageAligned (ptr : Z) : bool := Z.land ptr (HUGE_PAGE_SIZE - 1) =? 0.

Section Ops.
Context `{Build} `{Runtime} {Kn : Type} `{OS Kn}.
Implicit Types (s : PageAllocator Kn).

Definition with_os s (o : Kn) : PageAllocator Kn := mkPA o (pa_hpc s) (pa_stats s).
Definition with_hpc s (c : HugePageCache) : PageAllocator Kn := mkPA (pa_os s) c (pa_stats s).

(** [stats_.c.fetch_add(n)] *)
Definition fetch_add (c : counter) (n : Z) s : PageAllocator Kn :=
  mkPA (pa_os s) (pa_hpc s) (stat_store (pa_stats s) c (u64 (pa_stats s c + n))).

Definition ResetStats s : PageAllocator Kn :=
  mkPA (pa_os s) (pa_hpc s) (fold_left (fun f c => stat_store f c 0) reset_order (pa_stats s)).

Definition RecordMunmapFailure s : PageAllocator Kn := fetch_add munmap_failed_count 1 s.

Definition size_aligned (size : Z) : bool := Z.land size (PAGE_SIZE - 1) =? 0.

Definition SafeMunmap s (ptr size : Z) : outcome (bool * PageAllocator Kn) :=
  if (ptr =? 0) || (size =? 0) then Ok (true, s)
  else
    _ ← AM_DCHECK (IsPageAligned ptr) "IsPageAligned(ptr)";
    _ ← AM_DCHECK (size_aligned size) "(size & (SystemConfig::PAGE_SIZE - 1)) == 0";
    let '(ok, o) := os_munmap ptr size (pa_os s) in
    let s := with_os s o in
    if ok then Ok (true, s) else Ok (false, fetch_add munmap_failed_count 1 s).

(** The retry loop from attempt [i]; the backoff sleep has no effect on the state. *)
Fixpoint retry_loop (n : nat) s (size : Z) (populate : bool) : outcome (Z * PageAllocator Kn) :=
  match n with
  | O => Ok (0, s)
  | S n' =>
      let '(r, o) := os_mmap size populate (pa_os s) in
      let s := with_os s o in
      match r with
      | Mapped ptr => _ ← AM_DCHECK (IsPageAligned ptr) "IsPageAligned(ptr)"; Ok (ptr, s)
      | MmapENOMEM => retry_loop n' (fetch_add mmap_enomem_count 1 s) size populate
      | MmapOther => Ok (0, fetch_add mmap_other_error_count 1 s)
      end
  end.

Definition AllocWithRetry s (size : Z) (populate : bool) : outcome (Z * PageAllocator Kn) :=
  _ ← AM_DCHECK (0 <? size) "size > 0";
  _ ← AM_DCHECK (size_aligned size) "(size & (SystemConfig::PAGE_SIZE - 1)) == 0";
  retry_loop (Z.to_nat MAX_ALLOC_RETRIES) s size populate.

Definition madvise s (ptr size : Z) (a : advice) : bool * PageAllocator Kn :=
  let '(ok, o) := os_madvise ptr size a (pa_os s) in
  let s := with_os s o in
  (ok, if ok then s else fetch_add madvise_failed_count 1 s).

Definition ApplyHugePageHint s (ptr size : Z) : outcome (PageAllocator Kn) :=
  _ ← AM_DCHECK (negb (ptr =? 0)) "ptr != nullptr";
  _ ← AM_DCHECK (IsPageAligned ptr) "IsPageAligned(ptr)";
  _ ← AM_DCHECK (0 <? size) "size > 0";
  _ ← AM_DCHECK (size_aligned size) "(size & (SystemConfig::PAGE_SIZE - 1)) == 0";
  let s := (madvise s ptr size MADV_HUGEPAGE).2 in
  Ok (if use_map_populate_ runtime_config then (madvise s ptr size MADV_WILLNEED).2 else s).

Definition AllocNormalPage s (size : Z) : outcome (Z * PageAllocator Kn) :=
  _ ← AM_DCHECK (0 <? size) "size > 0";
  _ ← AM_DCHECK (size_aligned size) "(size & (SystemConfig::PAGE_SIZE - 1)) == 0";
  let s := fetch_add normal_alloc_count 1 s in
  '(ptr, s) ← AllocWithRetry s size (use_map_populate_ runtime_config);
  if ptr =? 0 then Ok (0, fetch_add normal_alloc_failed_count 1 s)
  else Ok (ptr, fetch_add normal_alloc_bytes size (fetch_add normal_alloc_success 1 s)).

(** [if (mapped && SafeMunmap(ptr, size)) mapped = false;] *)
Definition cleanup_one s (mapped : bool) (ptr size : Z) : outcome (bool * PageAllocator Kn) :=
  if mapped then '(ok, s) ← SafeMunmap s ptr size; Ok (negb ok, s) else Ok (false, s).

(** The lambda [cleanup_remaining_mappings]; nothing reads the flags afterwards. *)
Definition cleanup_remaining_mappings s (head_mapped body_mapped tail_mapped skip_head skip_tail : bool)
    (head_ptr head_gap body_ptr size tail_ptr tail_gap : Z) : outcome (PageAllocator Kn) :=
  '(_, s) ← cleanup_one s body_mapped body_ptr size;
  '(_, s) ← cleanup_one s (negb skip_tail && tail_mapped) tail_ptr tail_gap;
  '(_, s) ← cleanup_one s (negb skip_head && head_mapped) head_ptr head_gap;
  Ok s.

Definition AllocHugePageWithTrim s (size : Z) : outcome (Z * PageAllocator Kn) :=
  _ ← AM_DCHECK (0 <? size) "size > 0";
  _ ← AM_DCHECK (size_aligned size) "(size & (SystemConfig::PAGE_SIZE - 1)) == 0";
  if SIZE_MAX - HUGE_PAGE_SIZE <? size
  then Ok (0, fetch_add huge_alloc_failed_count 1 s)
  else
    let alloc_size := u64 (size + HUGE_PAGE_SIZE) in
    '(raw_addr, s) ← AllocWithRetry s alloc_size false;
    if raw_addr =? 0 then Ok (0, fetch_add huge_alloc_failed_count 1 s)
    else
      let aligned_addr := Z.land (u64 (u64 (raw_addr + HUGE_PAGE_SIZE) - 1)) (u64 (Z.lnot (HUGE_PAGE_SIZE - 1))) in
      _ ← AM_DCHECK (Z.land aligned_addr (HUGE_PAGE_SIZE - 1) =? 0) "(aligned_addr & (HUGE_PAGE_SIZE - 1)) == 0";
      _ ← AM_DCHECK (raw_addr <=? aligned_addr) "aligned_addr >= raw_addr";
      _ ← AM_DCHECK (u64 (aligned_addr + size) <=? u64 (raw_addr + alloc_size)) "aligned_addr + size <= raw_addr + alloc_size";
      let head_gap := u64 (aligned_addr - raw_addr) in
      let tail_gap := u64 (u64 (alloc_size - head_gap) - size) in
      let tail_ptr := u64 (aligned_addr + size) in
      let head_mapped := 0 <? head_gap in
      let tail_mapped := 0 <? tail_gap in
      '(head_ok, s) ← (if 0 <? head_gap then SafeMunmap s raw_addr head_gap else Ok (true, s));
      if negb head_ok then
        s ← cleanup_remaining_mappings s head_mapped true tail_mapped true false
              raw_addr head_gap aligned_addr size tail_ptr tail_gap;
        Ok (0, fetch_add huge_alloc_failed_count 1 s)
      else
      let head_mapped := false in
      '(tail_ok, s) ← (if 0 <? tail_gap then SafeMunmap s tail_ptr tail_gap else Ok (true, s));
      if negb tail_ok then
        s ← cleanup_remaining_mappings s head_mapped true tail_mapped false true
              raw_addr head_gap aligned_addr size tail_ptr tail_gap;
        Ok (0, fetch_add huge_alloc_failed_count 1 s)
      else
      let tail_mapped := false in
      _ ← AM_DCHECK (negb head_mapped) "!head_mapped";
      _ ← AM_DCHECK true "body_mapped";
      _ ← AM_DCHECK (negb tail_mapped) "!tail_mapped";
      let s := fetch_add huge_align_waste_bytes (u64 (head_gap + tail_gap)) s in
      s ← ApplyHugePageHint s aligned_addr size;
      Ok (aligned_addr, fetch_add huge_alloc_bytes size (fetch_add huge_alloc_success 1 s)).

Definition AllocHugePage s (size : Z) : outcome (Z * PageAllocator Kn) :=
  _ ← AM_DCHECK (0 <? size) "size > 0";
  _ ← AM_DCHECK (size_aligned size) "(size & (SystemConfig::PAGE_SIZE - 1)) == 0";
  let s := fetch_add huge_alloc_count 1 s in
  '(addr, s) ← AllocWithRetry s size false;
  if addr =? 0 then Ok (0, fetch_add huge_alloc_failed_count 1 s)
  else if Z.land addr (HUGE_PAGE_SIZE - 1) =? 0
  then
    s ← ApplyHugePageHint s addr size;
    Ok (addr, fetch_add huge_alloc_bytes size (fetch_add huge_alloc_success 1 s))
  else
    '(_, s) ← SafeMunmap s addr size;
    AllocHugePageWithTrim s size.

(** The huge-page branch after the cache: fall back to normal pages. *)
Definition alloc_huge_or_normal s (size : Z) : outcome (Z * PageAllocator Kn) :=
  '(ptr, s) ← AllocHugePage s size;
  if negb (ptr =? 0) then Ok (ptr, s)
  else
    '(ptr, s) ← AllocNormalPage (fetch_add huge_fallback_to_normal_count 1 s) size;
    if ptr =? 0 then Ok (0, fetch_add alloc_failed_count 1 s) else Ok (ptr, s).

Definition SystemAlloc s (page_num : Z) : outcome (Z * PageAllocator Kn) :=
  if page_num =? 0 then Ok (0, s)
  else if Z.shiftr SIZE_MAX PAGE_SHIFT <? page_num then Ok (0, s)
  else
    let size := u64 (Z.shiftl page_num PAGE_SHIFT) in
    if size <? Z.shiftr HUGE_PAGE_SIZE 1
    then
      '(ptr, s) ← AllocNormalPage s size;
      if ptr =? 0 then Ok (0, fetch_add alloc_failed_count 1 s) else Ok (ptr, s)
    else if size =? HUGE_PAGE_SIZE
    then
      '(ptr, c) ← HpcGet (pa_hpc s);
      let s := with_hpc s c in
      if negb (ptr =? 0) && (Z.land ptr (HUGE_PAGE_SIZE - 1) =? 0)
      then Ok (ptr, fetch_add huge_cache_hit_count 1 s)
      else alloc_huge_or_normal (fetch_add huge_cache_miss_count 1 s) size
    else alloc_huge_or_normal s size.

Definition SystemFree s (ptr page_num : Z) : outcome (PageAllocator Kn) :=
  if (ptr =? 0) || (page_num =? 0) then Ok s
  else if Z.shiftr SIZE_MAX PAGE_SHIFT <? page_num then Ok s
  else
    let size := u64 (Z.shiftl page_num PAGE_SHIFT) in
    let s := fetch_add free_bytes size (fetch_add free_count 1 s) in
    if (size =? HUGE_PAGE_SIZE) && IsHugePageAligned ptr
    then
      let '(ok, s) := madvise s ptr size MADV_DONTNEED in
      if negb ok then '(_, s) ← SafeMunmap s ptr size; Ok s
      else
        '(put, c) ← HpcPut (pa_hpc s) ptr;
        let s := with_hpc s c in
        if put : bool then Ok s
        else '(_, s) ← SafeMunmap s ptr size; Ok s
    else '(_, s) ← SafeMunmap s ptr size; Ok s.

(** [HugePageCache::ReleaseAllForTesting], with [fuel] at least the number of cached pages. *)
Fixpoint ReleaseHugePageCache (fuel : nat) s : outcome (PageAllocator Kn) :=
  '(ptr, c) ← HpcGet (pa_hpc s);
  let s := with_hpc s c in
  if ptr =? 0 then Ok s
  else match fuel with
  | O => NoFuel
  | S fuel' =>
      let '(ok, o) := os_munmap ptr HUGE_PAGE_SIZE (pa_os s) in
      let s := with_os s o in
      ReleaseHugePageCache fuel' (if ok then s else RecordMunmapFailure s)
  end.
End Ops.

(** ** Arithmetic of runs *)

Lemma land_mask x k : 0 <= k -> Z.land x (2 ^ k - 1) = x mod 2 ^ k.
Proof. intros Hk. rewrite <- Z.land_ones by done. f_equal. rewrite Z.ones_equiv. lia. Qed.

Lemma page_mask x : Z.land x (PAGE_SIZE - 1) = x mod 4096.
Proof. unfold PAGE_SIZE. apply (land_mask x 12). lia. Qed.

Lemma huge_mask x : Z.land x (HUGE_PAGE_SIZE - 1) = x mod 2097152.
Proof. unfold HUGE_PAGE_SIZE. apply (land_mask x 21). lia. Qed.

Lemma page_aligned_mult n : (Z.land (n * PAGE_SIZE) (PAGE_SIZE - 1) =? 0) = true.
Proof. rewrite page_mask. unfold PAGE_SIZE. by rewrite Z.mod_mul. Qed.

Lemma run_bytes `{Build} pid n : 0 < pid -> 0 <= n -> pid + n < PAGE_LIMIT ->
  0 < pid * PAGE_SIZE /\ (pid + n) * PAGE_SIZE < 144115188075855872.
Proof.
  intros Hp Hn Hl. pose proof PAGE_LIMIT_val as Hv. unfold PAGE_SIZE. destruct use_57bit_va; lia.
Qed.

Section Laws.
Context {Bd : Build} {Rt : Runtime} {Kn : Type} {Ko : OS Kn} {Kl : OSLaws Kn}.
Implicit Types (s : PageAllocator Kn) (M X Y R : gset Z).

(** The failed [munmap]s so far, modulo the counter's width. *)
Definition fails s s' (k : Z) : Prop :=
  u64 (pa_stats s' munmap_failed_count) = u64 (pa_stats s munmap_failed_count + k).

Lemma fails_refl s : fails s s 0.
Proof. unfold fails. by rewrite Z.add_0_r. Qed.

Lemma fails_trans s1 s2 s3 j k : fails s1 s2 j -> fails s2 s3 k -> fails s1 s3 (j + k).
Proof.
  unfold fails, u64. intros H12 H23. rewrite H23. rewrite <- Zplus_mod_idemp_l, H12, Zplus_mod_idemp_l. f_equal. lia.
Qed.

(** Steps that leave the counter of failed [munmap]s alone. *)
Lemma fails_0 s s' : pa_stats s' munmap_failed_count = pa_stats s munmap_failed_count -> fails s s' 0.
Proof. intros Hs. unfold fails. by rewrite Hs, Z.add_0_r. Qed.
Lemma stats_add c n s : c <> munmap_failed_count ->
  pa_stats (fetch_add c n s) munmap_failed_count = pa_stats s munmap_failed_count.
Proof. intros Hc. simpl. unfold stat_store. by rewrite decide_False. Qed.
Lemma fails_add s : fails s (fetch_add munmap_failed_count 1 s) 1.
Proof. unfold fails. simpl. unfold stat_store. rewrite decide_True by done. unfold u64. by rewrite Zmod_mod. Qed.

Lemma SafeMunmap_ok s M pid n :
  os_rep (pa_os s) M -> 0 < pid -> 0 <= n -> pid + n < PAGE_LIMIT ->
  exists ok s' k, SafeMunmap s (pid * PAGE_SIZE) (n * PAGE_SIZE) = Ok (ok, s') /\ pa_hpc s' = pa_hpc s /\
    fails s s' k /\
    (ok = true /\ k = 0 /\ os_rep (pa_os s') (M ∖ pages pid n) \/ ok = false /\ k = 1 /\ os_rep (pa_os s') M).
Proof.
  intros Hr Hp Hn Hl. destruct (run_bytes pid n Hp Hn Hl) as [Hpos _]. unfold SafeMunmap.
  rewrite (proj2 (Z.eqb_neq (pid * PAGE_SIZE) 0)) by lia. cbn [orb].
  destruct (Z.eqb_spec (n * PAGE_SIZE) 0) as [E | E].
  - exists true, s, 0. split; [done |]. split; [done |]. split; [apply fails_refl |]. left. split; [done |]. split; [done |].
    assert (pages pid n = ∅) as ->; [| by rewrite difference_empty_L].
    apply elem_of_equiv_empty_L. intros p Hin%elem_of_pages. unfold PAGE_SIZE in E. lia.
  - unfold IsPageAligned, size_aligned. rewrite !page_aligned_mult, !AM_DCHECK_true, !bind_Ok_l.
    pose proof (os_munmap_ok (pa_os s) M pid n Hr Hp ltac:(unfold PAGE_SIZE in E; lia) Hl) as Hu.
    destruct (os_munmap (pid * PAGE_SIZE) (n * PAGE_SIZE) (pa_os s)) as [[] o'].
    + exists true, (with_os s o'), 0. split; [done |]. split; [done |]. split; [by apply fails_0 |]. by left.
    + exists false, (fetch_add munmap_failed_count 1 (with_os s o')), 1. split; [done |]. split; [done |].
      split; [apply (fails_add (with_os s o')) |]. by right.
Qed.

(** The same on a piece of what is mapped: it goes, or it leaks. *)
Lemma munmap_piece s M Y pid n :
  os_rep (pa_os s) (M ∪ Y ∪ pages pid n) -> pages pid n ## M ∪ Y ->
  0 < pid -> 0 <= n -> pid + n < PAGE_LIMIT ->
  exists ok s' k, SafeMunmap s (pid * PAGE_SIZE) (n * PAGE_SIZE) = Ok (ok, s') /\ pa_hpc s' = pa_hpc s /\
    fails s s' k /\
    (ok = true /\ k = 0 /\ os_rep (pa_os s') (M ∪ Y) \/
     ok = false /\ k = 1 /\ os_rep (pa_os s') (M ∪ (Y ∪ pages pid n))).
Proof.
  intros Hr Hd Hp Hn Hl. destruct (SafeMunmap_ok s _ pid n Hr Hp Hn Hl) as (ok & s' & k & -> & Hh & Hf & Hor).
  exists ok, s', k. split; [done |]. split; [done |]. split; [done |].
  destruct Hor as [(-> & -> & Hr') | (-> & -> & Hr')]; [left | right]; (split; [done |]); (split; [done |]).
  - assert ((M ∪ Y ∪ pages pid n) ∖ pages pid n = M ∪ Y) as <-; [| done]. clear -Hd. set_solver.
  - by rewrite union_assoc_L.
Qed.

Lemma cleanup_ok s M Y mapped pid n :
  os_rep (pa_os s) (M ∪ Y ∪ pages pid n) -> pages pid n ## M ∪ Y ->
  0 < pid -> 0 <= n -> pid + n < PAGE_LIMIT ->
  exists b s' k X, cleanup_one s mapped (pid * PAGE_SIZE) (n * PAGE_SIZE) = Ok (b, s') /\ pa_hpc s' = pa_hpc s /\
    fails s s' k /\ 0 <= k <= 1 /\ X ⊆ pages pid n /\ os_rep (pa_os s') (M ∪ (Y ∪ X)).
Proof.
  intros Hr Hd Hp Hn Hl. unfold cleanup_one. destruct mapped.
  - destruct (munmap_piece s M Y pid n Hr Hd Hp Hn Hl) as (ok & s' & k & -> & Hh & Hf & Hor).
    rewrite bind_Ok_l. exists (negb ok), s', k, (if ok then ∅ else pages pid n). split; [done |]. split; [done |]. split; [done |].
    destruct Hor as [(-> & -> & Hr') | (-> & -> & Hr')]; (split; [lia |]); (split; [clear; set_solver |]); [| done].
    by rewrite union_empty_r_L.
  - exists false, s, 0, (pages pid n). split; [done |]. split; [done |]. split; [apply fails_refl |].
    split; [lia |]. split; [done |]. by rewrite union_assoc_L.
Qed.

(** ** Mapping

    [X] are the pages unsuccessful [munmap]s left behind, [k] their number, at
    most [b]. *)
Definition mapped_post (b : Z) s M (n p : Z) s' : Prop :=
  exists X k, pa_hpc s' = pa_hpc s /\ X ## M /\ 0 <= k <= b /\ (k = 0 -> X = ∅) /\ fails s s' k /\
    (p = 0 /\ os_rep (pa_os s') (M ∪ X) \/
     exists pid, p = pid * PAGE_SIZE /\ 0 < pid /\ pid + n < PAGE_LIMIT /\ pages pid n ## M ∪ X /\
       os_rep (pa_os s') (M ∪ X ∪ pages pid n)).

Lemma retry_loop_ok k s M n populate :
  os_rep (pa_os s) M -> 0 < n -> n * PAGE_SIZE < W64 ->
  exists p s', retry_loop k s (n * PAGE_SIZE) populate = Ok (p, s') /\ pa_hpc s' = pa_hpc s /\ fails s s' 0 /\
    (p = 0 /\ os_rep (pa_os s') M \/
     exists pid, p = pid * PAGE_SIZE /\ 0 < pid /\ pid + n < PAGE_LIMIT /\ M ## pages pid n /\
       os_rep (pa_os s') (M ∪ pages pid n)).
Proof.
  intros Hr Hn Hlt. revert s Hr. induction k as [| k IH]; intros s Hr; cbn [retry_loop].
  { exists 0, s. split; [done |]. split; [done |]. split; [apply fails_refl | by left]. }
  pose proof (os_mmap_ok (pa_os s) M n populate Hr Hn Hlt) as Hm.
  destruct (os_mmap (n * PAGE_SIZE) populate (pa_os s)) as [[p | |] o'].
  - destruct Hm as (pid & -> & Hp & Hl & Hd & Hr'). unfold IsPageAligned.
    rewrite page_aligned_mult, AM_DCHECK_true, bind_Ok_l. do 2 eexists. split; [done |]. split; [done |].
    split; [by apply fails_0 |]. right. by exists pid.
  - destruct (IH (fetch_add mmap_enomem_count 1 (with_os s o')) Hm) as (p & s' & -> & Hh & Hf & Hor).
    exists p, s'. split; [done |]. split; [done |]. split; [| done].
    eapply (fails_trans _ _ _ 0 0); [| exact Hf]. apply fails_0; by rewrite stats_add.
  - do 2 eexists. split; [done |]. split; [done |]. split; [apply fails_0; by rewrite stats_add | by left].
Qed.

Lemma AllocWithRetry_ok s M n populate :
  os_rep (pa_os s) M -> 0 < n -> n * PAGE_SIZE < W64 ->
  exists p s', AllocWithRetry s (n * PAGE_SIZE) populate = Ok (p, s') /\ pa_hpc s' = pa_hpc s /\ fails s s' 0 /\
    (p = 0 /\ os_rep (pa_os s') M \/
     exists pid, p = pid * PAGE_SIZE /\ 0 < pid /\ pid + n < PAGE_LIMIT /\ M ## pages pid n /\
       os_rep (pa_os s') (M ∪ pages pid n)).
Proof.
  intros Hr Hn Hlt. unfold AllocWithRetry, size_aligned. rewrite page_aligned_mult.
  rewrite (proj2 (Z.ltb_lt 0 _)) by (unfold PAGE_SIZE; lia). rewrite !AM_DCHECK_true, !bind_Ok_l.
  by apply retry_loop_ok.
Qed.

Lemma madvise_ok s M p n a :
  os_rep (pa_os s) M -> os_rep (pa_os (madvise s p n a).2) M /\ pa_hpc (madvise s p n a).2 = pa_hpc s /\
    fails s (madvise s p n a).2 0.
Proof.
  intros Hr. unfold madvise. pose proof (os_madvise_ok (pa_os s) M p n a Hr) as Hm.
  destruct (os_madvise p n a (pa_os s)) as [[] o']; simpl in *; (split; [done |]); (split; [done |]).
  - by apply fails_0.
  - apply fails_0. by rewrite stats_add.
Qed.

Lemma ApplyHugePageHint_ok s M pid n :
  os_rep (pa_os s) M -> 0 < pid -> 0 < n ->
  exists s', ApplyHugePageHint s (pid * PAGE_SIZE) (n * PAGE_SIZE) = Ok s' /\ os_rep (pa_os s') M /\
    pa_hpc s' = pa_hpc s /\ fails s s' 0.
Proof.
  intros Hr Hp Hn. unfold ApplyHugePageHint, IsPageAligned, size_aligned. rewrite !page_aligned_mult.
  rewrite (proj2 (Z.ltb_lt 0 _)), (proj2 (Z.eqb_neq _ 0)) by (unfold PAGE_SIZE; lia).
  cbn [negb]. rewrite !AM_DCHECK_true, !bind_Ok_l. eexists. split; [done |].
  destruct (madvise_ok s M (pid * PAGE_SIZE) (n * PAGE_SIZE) MADV_HUGEPAGE Hr) as (Hr1 & Hh1 & Hf1).
  destruct (use_map_populate_ runtime_config); [| done].
  destruct (madvise_ok _ M (pid * PAGE_SIZE) (n * PAGE_SIZE) MADV_WILLNEED Hr1) as (Hr2 & Hh2 & Hf2).
  split; [done |]. split; [congruence |]. by apply (fails_trans _ _ _ 0 0 Hf1).
Qed.

Lemma AllocNormalPage_ok s M n :
  os_rep (pa_os s) M -> 0 < n -> n * PAGE_SIZE < W64 ->
  exists p s', AllocNormalPage s (n * PAGE_SIZE) = Ok (p, s') /\ mapped_post 0 s M n p s'.
Proof.
  intros Hr Hn Hlt. unfold AllocNormalPage, size_aligned. rewrite page_aligned_mult.
  rewrite (proj2 (Z.ltb_lt 0 _)) by (unfold PAGE_SIZE; lia). rewrite !AM_DCHECK_true, !bind_Ok_l.
  destruct (AllocWithRetry_ok (fetch_add normal_alloc_count 1 s) M n (use_map_populate_ runtime_config) Hr Hn Hlt)
    as (p & s1 & -> & Hh & Hf & Hor).
  rewrite bind_Ok_l. cbn iota beta.
  assert (Hf1 : fails s s1 0).
  { eapply (fails_trans _ _ _ 0 0); [| exact Hf]. apply fails_0; by rewrite stats_add. }
  destruct Hor as [[-> Hr1] | (pid & -> & Hp & Hl & Hd & Hr1)].
  - do 2 eexists. split; [done |]. exists ∅, 0. split; [done |]. split; [clear; set_solver |]. split; [lia |].
    split; [done |]. split; [eapply (fails_trans _ _ _ 0 0 Hf1); apply fails_0; by rewrite stats_add |].
    left. split; [done |]. by rewrite union_empty_r_L.
  - destruct (run_bytes pid n Hp ltac:(lia) Hl) as [Hpos _]. rewrite (proj2 (Z.eqb_neq _ 0)) by lia.
    do 2 eexists. split; [done |]. exists ∅, 0. split; [done |]. split; [clear; set_solver |]. split; [lia |].
    split; [done |]. split; [eapply (fails_trans _ _ _ 0 0 Hf1); apply fails_0; by rewrite !stats_add |].
    right. exists pid. rewrite union_empty_r_L. split_and!; done.
Qed.

(** The rounded-up address is [h] pages further, with [h] below 512. *)
Lemma huge_align pid :
  0 < pid -> pid + 512 < PAGE_LIMIT ->
  exists h, 0 <= h < 512 /\
    Z.land (u64 (u64 (pid * PAGE_SIZE + HUGE_PAGE_SIZE) - 1)) (u64 (Z.lnot (HUGE_PAGE_SIZE - 1))) = (pid + h) * PAGE_SIZE /\
    (pid + h) mod 512 = 0.
Proof.
  intros Hp Hl. destruct (run_bytes pid 512 Hp ltac:(lia) Hl) as [Hpos Hlt].
  set (q := (pid + 511) / 512). exists (q * 512 - pid).
  pose proof (Z.div_mod (pid + 511) 512 ltac:(lia)) as Hdm.
  pose proof (Z.mod_pos_bound (pid + 511) 512 ltac:(lia)) as Hmb. fold q in Hdm.
  replace (pid + (q * 512 - pid)) with (q * 512) by lia.
  split; [lia |]. split; [| by apply Z.mod_mul].
  unfold PAGE_SIZE in *. unfold HUGE_PAGE_SIZE. change (2 * 1024 * 1024) with (2 ^ 21).
  rewrite (u64_id (pid * 4096 + 2 ^ 21)) by lia. rewrite u64_id by lia. rewrite land_lnot_ones by lia.
  assert ((pid * 4096 + 2 ^ 21 - 1) / 2 ^ 21 = q) as ->; [| lia].
  symmetry. apply (Z.div_unique _ _ _ ((pid * 4096 + 2 ^ 21 - 1) - 2 ^ 21 * q)); lia.
Qed.

(** Reclaiming what is left of a failed trim. *)
Lemma cleanup_remaining_ok s M Y hm tm sh st hp h bp n tp t :
  os_rep (pa_os s) (M ∪ Y ∪ pages hp h ∪ pages bp n ∪ pages tp t) ->
  pages hp h ## M ∪ Y -> pages bp n ## M ∪ Y ∪ pages hp h -> pages tp t ## M ∪ Y ∪ pages hp h ∪ pages bp n ->
  0 < hp -> 0 <= h -> hp + h < PAGE_LIMIT -> 0 < bp -> 0 <= n -> bp + n < PAGE_LIMIT ->
  0 < tp -> 0 <= t -> tp + t < PAGE_LIMIT ->
  exists s' k X, cleanup_remaining_mappings s hm true tm sh st (hp * PAGE_SIZE) (h * PAGE_SIZE)
      (bp * PAGE_SIZE) (n * PAGE_SIZE) (tp * PAGE_SIZE) (t * PAGE_SIZE) = Ok s' /\ pa_hpc s' = pa_hpc s /\
    fails s s' k /\ 0 <= k <= 3 /\ X ⊆ pages hp h ∪ pages bp n ∪ pages tp t /\ os_rep (pa_os s') (M ∪ (Y ∪ X)).
Proof.
  intros Hr Hdh Hdb Hdt ? ? ? ? ? ? ? ? ?. unfold cleanup_remaining_mappings.
  destruct (cleanup_ok s M (Y ∪ pages hp h ∪ pages tp t) true bp n) as (b1 & s1 & k1 & X1 & -> & Hh1 & Hf1 & Hk1 & HX1 & Hr1).
  { assert (M ∪ (Y ∪ pages hp h ∪ pages tp t) ∪ pages bp n = M ∪ Y ∪ pages hp h ∪ pages bp n ∪ pages tp t) as ->; [| done].
    clear; set_point. }
  { clear -Hdb Hdt. set_point. } { done. } { done. } { done. }
  rewrite bind_Ok_l. cbn iota beta.
  destruct (cleanup_ok s1 M (Y ∪ pages hp h ∪ X1) (negb st && tm) tp t) as (b2 & s2 & k2 & X2 & -> & Hh2 & Hf2 & Hk2 & HX2 & Hr2).
  { assert (M ∪ (Y ∪ pages hp h ∪ X1) ∪ pages tp t = M ∪ (Y ∪ pages hp h ∪ pages tp t ∪ X1)) as ->; [clear; set_point | done]. }
  { clear -Hdt HX1. set_point. } { done. } { done. } { done. }
  rewrite bind_Ok_l. cbn iota beta.
  destruct (cleanup_ok s2 M (Y ∪ X1 ∪ X2) (negb sh && hm) hp h) as (b3 & s3 & k3 & X3 & -> & Hh3 & Hf3 & Hk3 & HX3 & Hr3).
  { assert (M ∪ (Y ∪ X1 ∪ X2) ∪ pages hp h = M ∪ (Y ∪ pages hp h ∪ X1 ∪ X2)) as ->; [clear; set_point | done]. }
  { clear -Hdh Hdb Hdt HX1 HX2. set_point. } { done. } { done. } { done. }
  rewrite bind_Ok_l. exists s3, (k1 + k2 + k3), (X1 ∪ X2 ∪ X3). split; [done |]. split; [congruence |].
  split; [eapply fails_trans; [eapply fails_trans |]; done |]. split; [lia |]. split; [clear -HX1 HX2 HX3; set_point |].
  assert (M ∪ (Y ∪ (X1 ∪ X2 ∪ X3)) = M ∪ (Y ∪ X1 ∪ X2 ∪ X3)) as ->; [clear; set_point | done].
Qed.

(** [if (gap > 0) SafeMunmap(...)]: without a gap nothing is done. *)
Lemma munmap_gap s M Y pid n :
  os_rep (pa_os s) (M ∪ Y ∪ pages pid n) -> pages pid n ## M ∪ Y ->
  0 < pid -> 0 <= n -> pid + n < PAGE_LIMIT ->
  exists ok s' k, (if 0 <? n * PAGE_SIZE then SafeMunmap s (pid * PAGE_SIZE) (n * PAGE_SIZE) else Ok (true, s)) = Ok (ok, s') /\
    pa_hpc s' = pa_hpc s /\ fails s s' k /\
    (ok = true /\ k = 0 /\ os_rep (pa_os s') (M ∪ Y) \/
     ok = false /\ k = 1 /\ os_rep (pa_os s') (M ∪ (Y ∪ pages pid n))).
Proof.
  intros Hr Hd Hp Hn Hl. destruct (Z.ltb_spec 0 (n * PAGE_SIZE)) as [E | E].
  - by apply munmap_piece.
  - exists true, s, 0. split; [done |]. split; [done |]. split; [apply fails_refl |]. left. split; [done |]. split; [done |].
    assert (pages pid n = ∅) as Hempty.
    { apply elem_of_equiv_empty_L. intros p Hin%elem_of_pages. unfold PAGE_SIZE in E. lia. }
    rewrite Hempty in Hr. by rewrite union_empty_r_L in Hr.
Qed.

Lemma mapped_none b s M n s' :
  0 <= b -> pa_hpc s' = pa_hpc s -> fails s s' 0 -> os_rep (pa_os s') M -> mapped_post b s M n 0 s'.
Proof.
  intros Hb Hh Hf Hr. exists ∅, 0. split; [done |]. split; [clear; set_point |]. split; [lia |]. split; [done |].
  split; [done |]. left. split; [done |]. by rewrite union_empty_r_L.
Qed.

Lemma mapped_trans b j s s1 M Y n p s2 :
  pa_hpc s1 = pa_hpc s -> Y ## M -> 0 <= j -> (j = 0 -> Y = ∅) -> fails s s1 j ->
  mapped_post b s1 (M ∪ Y) n p s2 -> mapped_post (j + b) s M n p s2.
Proof.
  intros Hh Hd Hj HY Hf (X & k & Hh2 & HX & Hk & Hk0 & Hf2 & Hor).
  exists (Y ∪ X), (j + k). split; [congruence |]. split; [clear -Hd HX; set_point |]. split; [lia |].
  split. { intros E. assert (j = 0) as Ej by lia. assert (k = 0) as Ek by lia. rewrite (HY Ej), (Hk0 Ek). clear; set_point. }
  split; [by eapply fails_trans |].
  assert (M ∪ (Y ∪ X) = M ∪ Y ∪ X) as -> by (clear; set_point). exact Hor.
Qed.

(** A head already unmapped is not looked at. *)
Lemma cleanup_head_unmapped s bm tm sh st hp h h' bp n tp t :
  cleanup_remaining_mappings s false bm tm sh st hp h bp n tp t =
  cleanup_remaining_mappings s false bm tm sh st hp h' bp n tp t.
Proof. unfold cleanup_remaining_mappings. by rewrite andb_false_r. Qed.

(** The three pieces of the over-allocated run. *)
Lemma pages_three M pid h n t :
  0 <= h -> 0 <= n -> 0 <= t -> pages pid (h + (n + t)) ## M ->
  pages pid (h + (n + t)) = pages pid h ∪ pages (pid + h) n ∪ pages (pid + h + n) t /\
  pages pid h ## M /\ pages (pid + h) n ## M ∪ pages pid h /\
  pages (pid + h + n) t ## M ∪ pages pid h ∪ pages (pid + h) n.
Proof.
  intros Hh Hn Ht Hd.
  assert (Hsplit : pages pid (h + (n + t)) = pages pid h ∪ pages (pid + h) n ∪ pages (pid + h + n) t).
  { rewrite !pages_split by lia. by rewrite union_assoc_L. }
  split; [done |]. rewrite Hsplit in Hd. pose proof (proj1 (elem_of_disjoint _ _) Hd) as Hx. setoid_rewrite elem_of_union in Hx.
  setoid_rewrite elem_of_union in Hx. split; [clear -Hd; set_point |]. split; apply elem_of_disjoint; intros x Hin; rewrite !elem_of_union.
  - intros [HM | Hp]; [by apply (Hx x); auto |]. apply elem_of_pages in Hin, Hp. lia.
  - intros [[HM | Hp] | Hp]; [by apply (Hx x); auto | |]; apply elem_of_pages in Hin, Hp; lia.
Qed.

(** The gaps, in bytes, do not wrap. *)
Lemma trim_arith pid h n :
  0 < pid -> 0 <= h < 512 -> 0 < n -> (pid + (n + 512)) * PAGE_SIZE < 144115188075855872 -> (pid + h) mod 512 = 0 ->
  u64 ((pid + h) * PAGE_SIZE - pid * PAGE_SIZE) = h * PAGE_SIZE /\
  u64 (u64 ((n + 512) * PAGE_SIZE - h * PAGE_SIZE) - n * PAGE_SIZE) = (512 - h) * PAGE_SIZE /\
  u64 ((pid + h) * PAGE_SIZE + n * PAGE_SIZE) = (pid + h + n) * PAGE_SIZE /\
  u64 (pid * PAGE_SIZE + (n + 512) * PAGE_SIZE) = (pid + (n + 512)) * PAGE_SIZE /\
  ((pid + h) * PAGE_SIZE) mod 2097152 = 0.
Proof.
  intros. unfold PAGE_SIZE in *. rewrite (u64_id ((n + 512) * 4096 - h * 4096)) by lia.
  rewrite !u64_id by lia. split_and!; try lia. change 2097152 with (512 * 4096). rewrite Z.mul_mod_distr_r by done. lia.
Qed.

(** A failed trim reports null once the pieces are unmapped or counted. *)
Lemma trim_failed s s2 s3 M n k X :
  pa_hpc s2 = pa_hpc s -> fails s s2 1 -> pa_hpc s3 = pa_hpc s2 -> fails s2 s3 k -> 0 <= k <= 3 -> X ## M ->
  os_rep (pa_os s3) (M ∪ (∅ ∪ X)) -> mapped_post 4 s M n 0 (fetch_add huge_alloc_failed_count 1 s3).
Proof.
  intros Hh2 Hf2 Hh3 Hf3 Hk HX Hr3. exists (∅ ∪ X), (1 + k). split; [simpl; congruence |].
  split; [clear -HX; set_point |]. split; [lia |]. split; [lia |]. split; [| by left].
  replace (1 + k) with (1 + k + 0) by lia.
  eapply fails_trans; [by eapply fails_trans | apply fails_0; by rewrite stats_add].
Qed.

(** What the trim does with the over-allocated run. *)
Lemma AllocHugePageWithTrim_ok s M n :
  os_rep (pa_os s) M -> 0 < n -> n * PAGE_SIZE < W64 ->
  exists p s', AllocHugePageWithTrim s (n * PAGE_SIZE) = Ok (p, s') /\ mapped_post 4 s M n p s' /\
    (p <> 0 -> p mod 2097152 = 0).
Proof.
  intros Hr Hn Hlt. unfold AllocHugePageWithTrim, size_aligned. rewrite page_aligned_mult.
  rewrite (proj2 (Z.ltb_lt 0 _)) by (unfold PAGE_SIZE; lia). rewrite !AM_DCHECK_true, !bind_Ok_l.
  destruct (Z.ltb_spec (SIZE_MAX - HUGE_PAGE_SIZE) (n * PAGE_SIZE)) as [Hbig | Hfit].
  { do 2 eexists. split; [done |]. split; [| done].
    apply mapped_none; [done | done | apply fails_0; by rewrite stats_add | done]. }
  unfold SIZE_MAX, HUGE_PAGE_SIZE in Hfit.
  assert (Hsz : u64 (n * PAGE_SIZE + HUGE_PAGE_SIZE) = (n + 512) * PAGE_SIZE).
  { unfold HUGE_PAGE_SIZE, PAGE_SIZE in *. rewrite u64_id; lia. }
  rewrite Hsz.
  destruct (AllocWithRetry_ok s M (n + 512) false Hr ltac:(lia) ltac:(unfold PAGE_SIZE in *; lia))
    as (p & s1 & -> & Hh1 & Hf1 & Hor).
  rewrite bind_Ok_l. cbn iota beta zeta.
  destruct Hor as [[-> Hr1] | (pid & -> & Hp & Hl & Hd & Hr1)].
  { rewrite Z.eqb_refl. do 2 eexists. split; [done |]. split; [| done]. apply mapped_none; [done | done | | done].
    eapply (fails_trans _ _ _ 0 0 Hf1). apply fails_0; by rewrite stats_add. }
  destruct (run_bytes pid (n + 512) Hp ltac:(lia) Hl) as [Hpos Htop].
  rewrite (proj2 (Z.eqb_neq (pid * PAGE_SIZE) 0)) by lia.
  destruct (huge_align pid Hp ltac:(lia)) as (h & Hh & -> & Hmod).
  destruct (trim_arith pid h n Hp Hh Hn Htop Hmod) as (Hg1 & Hg2 & Hg3 & Hg4 & Ha0).
  rewrite huge_mask, Ha0, Z.eqb_refl. rewrite (proj2 (Z.leb_le (pid * PAGE_SIZE) _)) by (unfold PAGE_SIZE; lia).
  rewrite Hg1, Hg2, Hg3, Hg4. rewrite (proj2 (Z.leb_le ((pid + h + n) * PAGE_SIZE) _)) by (unfold PAGE_SIZE; lia).
  rewrite !AM_DCHECK_true, !bind_Ok_l.
  replace (n + 512) with (h + (n + (512 - h))) in Hd, Hr1 by lia.
  destruct (pages_three M pid h n (512 - h)) as (Hsplit & Hhd & Hbd & Htd); [lia.. | by symmetry |].
  rewrite Hsplit in Hr1. clear Hsplit Hd.
  set (P1 := pages pid h) in *. set (P2 := pages (pid + h) n) in *. set (P3 := pages (pid + h + n) (512 - h)) in *.
  destruct (munmap_gap s1 M (P2 ∪ P3) pid h) as (ok1 & s2 & k1 & -> & Hh2 & Hf2 & Hor2); fold P1; try lia.
  { assert (M ∪ (P2 ∪ P3) ∪ P1 = M ∪ (P1 ∪ P2 ∪ P3)) as ->; [clear; set_point | done]. }
  { clear -Hhd Hbd Htd. set_point. }
  rewrite bind_Ok_l. cbn iota beta. fold P1 in Hor2. pose proof (fails_trans _ _ _ _ _ Hf1 Hf2) as Hf02.
  destruct Hor2 as [(-> & -> & Hr2) | (-> & -> & Hr2)]; cbn [negb].
  2:{ destruct (cleanup_remaining_ok s2 M ∅ (0 <? h * PAGE_SIZE) (0 <? (512 - h) * PAGE_SIZE) true false
        pid h (pid + h) n (pid + h + n) (512 - h)) as (s3 & k3 & X & -> & Hh3 & Hf3 & Hk3 & HX & Hr3); fold P1 P2 P3; try lia.
      { assert (M ∪ ∅ ∪ P1 ∪ P2 ∪ P3 = M ∪ (P2 ∪ P3 ∪ P1)) as ->; [clear; set_point | done]. }
      1-3: clear -Hhd Hbd Htd; set_point.
      rewrite bind_Ok_l. do 2 eexists. split; [done |]. split; [| done]. fold P1 P2 P3 in HX.
      apply (trim_failed s s2 s3 M n k3 X); [congruence | exact Hf02 | exact Hh3 | exact Hf3 | lia | clear -HX Hhd Hbd Htd; set_point | exact Hr3]. }
  destruct (munmap_gap s2 M P2 (pid + h + n) (512 - h)) as (ok2 & s3 & k2 & -> & Hh3 & Hf3 & Hor3); fold P3; try lia.
  { assert (M ∪ P2 ∪ P3 = M ∪ (P2 ∪ P3)) as ->; [clear; set_point | done]. }
  { clear -Htd. set_point. }
  rewrite bind_Ok_l. cbn iota beta. fold P3 in Hor3. pose proof (fails_trans _ _ _ _ _ Hf02 Hf3) as Hf03.
  destruct Hor3 as [(-> & -> & Hr3) | (-> & -> & Hr3)]; cbn [negb].
  2:{ assert (Hp0 : pages pid 0 = ∅) by (apply elem_of_equiv_empty_L; intros x Hx%elem_of_pages; lia).
      destruct (cleanup_remaining_ok s3 M ∅ false (0 <? (512 - h) * PAGE_SIZE) false true
        pid 0 (pid + h) n (pid + h + n) (512 - h)) as (s4 & k4 & X & Hc & Hh4 & Hf4 & Hk4 & HX & Hr4); rewrite ?Hp0; fold P2 P3; try lia.
      { assert (M ∪ ∅ ∪ ∅ ∪ P2 ∪ P3 = M ∪ (P2 ∪ P3)) as ->; [clear; set_point | done]. }
      1-3: clear -Hbd Htd; set_point.
      rewrite (cleanup_head_unmapped _ _ _ _ _ _ _ (0 * PAGE_SIZE)), Hc, bind_Ok_l. do 2 eexists. split; [done |]. split; [| done].
      fold P2 P3 in HX. rewrite Hp0 in HX.
      apply (trim_failed s s3 s4 M n k4 X); [congruence | exact Hf03 | exact Hh4 | exact Hf4 | lia | clear -HX Hbd Htd; set_point | exact Hr4]. }
  cbn zeta. cbn [negb]. rewrite !bind_Ok_l.
  destruct (ApplyHugePageHint_ok (fetch_add huge_align_waste_bytes (u64 (h * PAGE_SIZE + (512 - h) * PAGE_SIZE)) s3)
    (M ∪ P2) (pid + h) n Hr3 ltac:(lia) Hn) as (s4 & -> & Hr4 & Hh4 & Hf4).
  rewrite bind_Ok_l. do 2 eexists. split; [done |]. split; [| done].
  exists ∅, 0. split; [simpl in *; congruence |]. split; [clear; set_point |]. split; [lia |]. split; [done |]. split.
  - eapply (fails_trans _ _ _ 0 0); [eapply (fails_trans _ _ _ 0 0); [eapply (fails_trans _ _ _ 0 0); [exact Hf03 |] | exact Hf4] |];
      apply fails_0; by rewrite !stats_add.
  - right. exists (pid + h). split; [done |]. split; [lia |]. split; [lia |]. fold P2.
    split; [clear -Hbd; set_point |]. by rewrite union_empty_r_L.
Qed.

Lemma AllocHugePage_ok s M n :
  os_rep (pa_os s) M -> 0 < n -> n * PAGE_SIZE < W64 ->
  exists p s', AllocHugePage s (n * PAGE_SIZE) = Ok (p, s') /\ mapped_post 5 s M n p s' /\
    (p <> 0 -> p mod 2097152 = 0).
Proof.
  intros Hr Hn Hlt. unfold AllocHugePage, size_aligned. rewrite page_aligned_mult.
  rewrite (proj2 (Z.ltb_lt 0 _)) by (unfold PAGE_SIZE; lia). rewrite !AM_DCHECK_true, !bind_Ok_l.
  destruct (AllocWithRetry_ok (fetch_add huge_alloc_count 1 s) M n false Hr Hn Hlt) as (p & s1 & -> & Hh1 & Hf & Hor).
  rewrite bind_Ok_l. cbn iota beta.
  assert (Hf1 : fails s s1 0).
  { eapply (fails_trans _ _ _ 0 0); [| exact Hf]. apply fails_0; by rewrite stats_add. }
  destruct Hor as [[-> Hr1] | (pid & -> & Hp & Hl & Hd & Hr1)].
  { rewrite Z.eqb_refl. do 2 eexists. split; [done |]. split; [| done]. apply mapped_none; [done | done | | done].
    eapply (fails_trans _ _ _ 0 0 Hf1). apply fails_0; by rewrite stats_add. }
  destruct (run_bytes pid n Hp ltac:(lia) Hl) as [Hpos _]. rewrite (proj2 (Z.eqb_neq (pid * PAGE_SIZE) 0)) by lia.
  rewrite huge_mask. destruct (Z.eqb_spec ((pid * PAGE_SIZE) mod 2097152) 0) as [Hal | Hmis].
  - destruct (ApplyHugePageHint_ok s1 (M ∪ pages pid n) pid n Hr1 Hp Hn) as (s2 & -> & Hr2 & Hh2 & Hf2).
    rewrite bind_Ok_l. do 2 eexists. split; [done |]. split; [| done].
    exists ∅, 0. split; [simpl in *; congruence |]. split; [clear; set_point |]. split; [lia |]. split; [done |]. split.
    { eapply (fails_trans _ _ _ 0 0); [eapply (fails_trans _ _ _ 0 0 Hf1 Hf2) |]. apply fails_0; by rewrite !stats_add. }
    right. exists pid. rewrite union_empty_r_L. split_and!; done.
  - destruct (munmap_piece s1 M ∅ pid n) as (ok & s2 & k & -> & Hh2 & Hf2 & Hor2).
    { by rewrite union_empty_r_L. } { clear -Hd. set_point. } { done. } { lia. } { done. }
    rewrite bind_Ok_l. cbn iota beta.
    set (Y := if ok then ∅ else pages pid n).
    assert (Hr2 : os_rep (pa_os s2) (M ∪ Y)).
    { destruct Hor2 as [(-> & _ & Hr2) | (-> & _ & Hr2)]; [done |]. by rewrite union_empty_l_L in Hr2. }
    destruct (AllocHugePageWithTrim_ok s2 (M ∪ Y) n Hr2 Hn Hlt) as (p & s3 & -> & Hpost & Hal3).
    exists p, s3. split; [done |]. split; [| done].
    destruct Hpost as (X & k2 & Hh3 & HX & Hk2 & Hk0 & Hf3 & Hor3).
    assert (Hk1 : 0 <= k <= 1 /\ (k = 0 -> Y = ∅)).
    { destruct Hor2 as [(-> & -> & _) | (-> & -> & _)]; (split; [lia |]); done. }
    assert (HYM : Y ## M) by (unfold Y; destruct ok; [clear; set_point | clear -Hd; set_point]).
    pose proof (mapped_trans 4 k s s2 M Y n p s3) as Ht.
    destruct (Ht ltac:(simpl in *; congruence) HYM ltac:(lia) ltac:(tauto) ltac:(exact (fails_trans _ _ _ 0 _ Hf1 Hf2)))
      as (X' & k' & Hh' & HX' & Hk' & Hr').
    { exists X, k2. split_and!; try done; lia. }
    exists X', k'. split; [done |]. split; [done |]. split; [lia | done].
Qed.

Lemma alloc_huge_or_normal_ok s M n :
  os_rep (pa_os s) M -> 0 < n -> n * PAGE_SIZE < W64 ->
  exists p s', alloc_huge_or_normal s (n * PAGE_SIZE) = Ok (p, s') /\ mapped_post 5 s M n p s'.
Proof.
  intros Hr Hn Hlt. unfold alloc_huge_or_normal.
  destruct (AllocHugePage_ok s M n Hr Hn Hlt) as (p & s1 & -> & Hpost & _). rewrite bind_Ok_l. cbn iota beta.
  destruct (Z.eqb_spec p 0) as [-> | Hp0]; cbn [negb]; [| by exists p, s1].
  destruct Hpost as (X & k & Hh & HX & Hk & Hk0 & Hf & [[_ Hr1] | (pid & Hbad & Hp & _)]).
  2:{ unfold PAGE_SIZE in Hbad. lia. }
  destruct (AllocNormalPage_ok (fetch_add huge_fallback_to_normal_count 1 s1) (M ∪ X) n Hr1 Hn Hlt)
    as (p & s2 & -> & Hpost2). rewrite bind_Ok_l. cbn iota beta.
  assert (Hpost : mapped_post (k + 0) s M n p s2).
  { apply (mapped_trans 0 k s (fetch_add huge_fallback_to_normal_count 1 s1) M X); [done | done | lia | done | | done].
    replace k with (k + 0) by lia. eapply fails_trans; [exact Hf |]. apply fails_0; by rewrite stats_add. }
  destruct Hpost as (X2 & k2 & Hh2 & HX2 & Hk2 & Hk02 & Hf2 & Hor).
  destruct (Z.eqb_spec p 0) as [-> | Hp0]; do 2 eexists; (split; [done |]); exists X2, k2.
  - split; [done |]. split; [done |]. split; [lia |]. split; [done |]. split; [| done].
    replace k2 with (k2 + 0) by lia. eapply fails_trans; [exact Hf2 |]. apply fails_0; by rewrite stats_add.
  - split; [done |]. split; [done |]. split; [lia |]. split; [done |]. split; done.
Qed.

(** ** The allocator's state

    [R] are the pages its clients hold, [Lk] the leaked ones; the rest of what
    is mapped waits in the 2 MiB cache. *)
Definition huge_run (p : Z) : Prop :=
  exists pid, p = pid * PAGE_SIZE /\ 0 < pid /\ pid + 512 < PAGE_LIMIT /\ p mod 2097152 = 0.

Fixpoint cached (l : list Z) : gset Z :=
  match l with
  | [] => ∅
  | p :: l' => pages (p / PAGE_SIZE) 512 ∪ cached l'
  end.

Fixpoint huge_ok (l : list Z) : Prop :=
  match l with
  | [] => True
  | p :: l' => huge_run p /\ pages (p / PAGE_SIZE) 512 ## cached l' /\ huge_ok l'
  end.

Definition pa_rep s R (Lk : gset Z) : Prop :=
  exists M l, os_rep (pa_os s) M /\ hpc_rep (pa_hpc s) l /\ huge_ok l /\ cached l ## R /\ Lk ## R ∪ cached l /\
    M = R ∪ cached l ∪ Lk.

Lemma huge_run_page p pid : p = pid * PAGE_SIZE -> p / PAGE_SIZE = pid.
Proof. intros ->. unfold PAGE_SIZE. by rewrite Z.div_mul. Qed.

(** What an allocation of [n] pages that returned [p] did: [k] failed [munmap]s
    left the pages [X] behind. *)
Definition alloc_result s R (Lk : gset Z) (n p : Z) s' : Prop :=
  exists X k, 0 <= k <= 5 /\ (k = 0 -> X = ∅) /\ fails s s' k /\
    (p = 0 /\ pa_rep s' R (Lk ∪ X) \/
     exists pid, p = pid * PAGE_SIZE /\ 0 < n /\ 0 < pid /\ pid + n < PAGE_LIMIT /\ R ## pages pid n /\
       pa_rep s' (R ∪ pages pid n) (Lk ∪ X)).

Lemma alloc_null s R Lk n : pa_rep s R Lk -> alloc_result s R Lk n 0 s.
Proof.
  intros Hr. exists ∅, 0. split; [lia |]. split; [done |]. split; [apply fails_refl |]. left.
  split; [done |]. by rewrite union_empty_r_L.
Qed.

(** Back from what a mapping step did. *)
Lemma pa_rep_mapped b s s0 R Lk n p s' l :
  hpc_rep (pa_hpc s0) l -> huge_ok l -> cached l ## R -> Lk ## R ∪ cached l ->
  mapped_post b s0 (R ∪ cached l ∪ Lk) n p s' -> fails s s0 0 -> 0 <= b <= 5 -> 0 < n ->
  alloc_result s R Lk n p s'.
Proof.
  intros Hh Hok Hd1 Hd2 (X & k & Hh' & HX & Hk & Hk0 & Hf & Hor) Hf0 Hb Hn.
  exists X, k. split; [lia |]. split; [done |]. split; [exact (fails_trans _ _ _ 0 _ Hf0 Hf) |].
  destruct Hor as [[-> Hr] | (pid & -> & Hp & Hl & Hd & Hr)]; [left | right].
  - split; [done |]. exists (R ∪ cached l ∪ Lk ∪ X), l. rewrite Hh'.
    split; [done |]. split; [done |]. split; [done |]. split; [done |].
    split; [clear -Hd2 HX; set_point | clear; set_point].
  - exists pid. split; [done |]. split; [done |]. split; [done |]. split; [done |]. split; [clear -Hd; set_point |].
    exists (R ∪ cached l ∪ Lk ∪ X ∪ pages pid n), l. rewrite Hh'.
    split; [done |]. split; [done |]. split; [done |]. split; [clear -Hd1 Hd; set_point |].
    split; [clear -Hd2 HX Hd; set_point | clear; set_point].
Qed.

(** Runs below one megabyte. *)
Lemma alloc_small_ok s R Lk n :
  pa_rep s R Lk -> 0 < n -> n * PAGE_SIZE < W64 ->
  exists p s', ('(ptr, s) ← AllocNormalPage s (n * PAGE_SIZE);
      if ptr =? 0 then Ok (0, fetch_add alloc_failed_count 1 s) else Ok (ptr, s)) = Ok (p, s') /\
    alloc_result s R Lk n p s'.
Proof.
  intros (M & l & Hr & Hh & Hok & Hd1 & Hd2 & ->) Hn Hlt.
  destruct (AllocNormalPage_ok s _ n Hr Hn Hlt) as (p & s1 & -> & Hpost). rewrite bind_Ok_l. cbn iota beta.
  pose proof (pa_rep_mapped 0 s s R Lk n p s1 l Hh Hok Hd1 Hd2 Hpost (fails_refl s) ltac:(lia) Hn) as Hres.
  destruct (Z.eqb_spec p 0) as [-> | Hp0]; do 2 eexists; (split; [done |]); [| done].
  destruct Hres as (X & k & Hk & Hk0 & Hf & Hor). exists X, k. split; [done |]. split; [done |].
  split; [| destruct Hor as [? | (pid & Hbad & _ & Hp & _)]; [by left | unfold PAGE_SIZE in Hbad; lia]].
  replace k with (k + 0) by lia. eapply fails_trans; [exact Hf |]. apply fails_0; by rewrite stats_add.
Qed.

(** Larger ones, past the cache; [s0] differs from [s] in counters only. *)
Lemma alloc_large_run_ok s s0 R Lk n l :
  os_rep (pa_os s0) (R ∪ cached l ∪ Lk) -> hpc_rep (pa_hpc s0) l -> huge_ok l -> cached l ## R ->
  Lk ## R ∪ cached l -> fails s s0 0 -> 0 < n -> n * PAGE_SIZE < W64 ->
  exists p s', alloc_huge_or_normal s0 (n * PAGE_SIZE) = Ok (p, s') /\ alloc_result s R Lk n p s'.
Proof.
  intros Hr Hh Hok Hd1 Hd2 Hf Hn Hlt.
  destruct (alloc_huge_or_normal_ok s0 (R ∪ cached l ∪ Lk) n Hr Hn Hlt) as (p & s1 & -> & Hpost).
  exists p, s1. split; [done |]. by apply (pa_rep_mapped 5 s s0 R Lk n p s1 l).
Qed.

(** Taking the run the cache put last. *)
Lemma alloc_cached s s' R Lk p l :
  os_rep (pa_os s') (R ∪ cached (p :: l) ∪ Lk) -> hpc_rep (pa_hpc s') l -> huge_ok (p :: l) ->
  cached (p :: l) ## R -> Lk ## R ∪ cached (p :: l) -> fails s s' 0 ->
  alloc_result s R Lk 512 p s'.
Proof.
  intros Hr Hh ((pid & Hp & Hpid & Hl & Hal) & Hdj & Hok) Hd1 Hd2 Hf. cbn [cached] in *.
  rewrite (huge_run_page p pid Hp) in *. exists ∅, 0. split; [lia |]. split; [done |]. split; [done |]. right.
  exists pid. split; [done |]. split; [lia |]. split; [done |]. split; [done |]. split; [clear -Hd1; set_point |].
  exists (R ∪ (pages pid 512 ∪ cached l) ∪ Lk), l. split; [done |]. split; [done |]. split; [done |].
  split; [clear -Hd1 Hdj; set_point |]. split; [clear -Hd2; set_point | clear; set_point].
Qed.

(** For any page count the allocator returns, with its ledger kept. *)
Lemma SystemAlloc_ok s R Lk n :
  pa_rep s R Lk -> 0 <= n < W64 ->
  exists p s', SystemAlloc s n = Ok (p, s') /\ alloc_result s R Lk n p s' /\
    (n = 0 \/ W64 <= n * PAGE_SIZE -> p = 0).
Proof.
  intros Hrep Hn. unfold SystemAlloc. change (Z.shiftr SIZE_MAX PAGE_SHIFT) with 4503599627370495.
  destruct (Z.eqb_spec n 0) as [-> | Hn0]; [by exists 0, s; auto using alloc_null |].
  destruct (Z.ltb_spec 4503599627370495 n) as [Hbig | Hfit]; [by exists 0, s; auto using alloc_null |].
  rewrite page_shift_spec, u64_id by (unfold PAGE_SIZE; lia).
  assert (Hlt : n * PAGE_SIZE < W64) by (unfold PAGE_SIZE; lia).
  enough (exists p s', (if n * PAGE_SIZE <? Z.shiftr HUGE_PAGE_SIZE 1 then _ else _) = Ok (p, s') /\
    alloc_result s R Lk n p s') as (p & s' & Heq & Hres) by (exists p, s'; split; [exact Heq | split; [done | lia]]).
  destruct (_ <? _); [by apply alloc_small_ok; [| lia |] |].
  destruct Hrep as (M & l & Hr & Hh & Hok & Hd1 & Hd2 & ->).
  change HUGE_PAGE_SIZE with 2097152.
  destruct (Z.eqb_spec (n * PAGE_SIZE) 2097152) as [Hhuge | Hother].
  2:{ apply (alloc_large_run_ok s s R Lk n l); try done; [apply fails_refl | lia]. }
  assert (n = 512) as -> by (unfold PAGE_SIZE in *; lia).
  destruct (HpcGet_ok (pa_hpc s) l Hh) as (c' & -> & Hh'). rewrite bind_Ok_l. cbn iota beta zeta.
  destruct l as [| p l]; cbn [hd tail] in *.
  - rewrite Z.eqb_refl. cbn [negb andb]. eapply alloc_large_run_ok; try done. apply fails_0; by rewrite stats_add.
  - pose proof Hok as ((pid & Hp & Hpid & _ & Hal) & _).
    rewrite (proj2 (Z.eqb_neq p 0)) by (unfold PAGE_SIZE in *; lia).
    change (2097152 - 1) with (HUGE_PAGE_SIZE - 1). rewrite huge_mask, Hal, Z.eqb_refl. cbn [negb andb].
    do 2 eexists. split; [done |]. eapply alloc_cached; try done. apply fails_0; by rewrite stats_add.
Qed.

(** C32: [SystemAlloc] keeps the ledger of mapped pages exact.  Whatever the
    kernel answers, for any page count, it returns in every build (no check
    fails, the retry loop ends), and yields null or a page-aligned run of
    exactly the requested length, below the end of the address space and
    disjoint from every run its clients hold and from the 2 MiB runs in the
    cache.  Every other page is as before, except that an [munmap] that fails
    while trimming leaves its pages mapped but in nobody's hands, which the
    counter of failed [munmap]s records; zero pages and byte sizes that wrap give
    null. *)
Theorem SystemAlloc_spec s R Lk n :
  pa_rep s R Lk -> 0 <= n < W64 ->
  exists p s', SystemAlloc s n = Ok (p, s') /\ alloc_result s R Lk n p s' /\
    (n = 0 \/ W64 <= n * PAGE_SIZE -> p = 0).
Proof. apply SystemAlloc_ok. Qed.

(** What a release of the run did: with [k] = 1 its [munmap] failed and the run leaks. *)
Definition free_result s R (Lk : gset Z) (pid n : Z) s' : Prop :=
  exists k, (k = 0 \/ k = 1) /\ fails s s' k /\
    pa_rep s' (R ∖ pages pid n) (Lk ∪ if decide (k = 0) then ∅ else pages pid n).

Lemma free_unmap s s0 R Lk l pid n :
  os_rep (pa_os s0) (R ∪ cached l ∪ Lk) -> hpc_rep (pa_hpc s0) l -> huge_ok l -> cached l ## R ->
  Lk ## R ∪ cached l -> fails s s0 0 ->
  0 < pid -> 0 < n -> pid + n < PAGE_LIMIT -> pages pid n ⊆ R ->
  exists s', ('(_, s) ← SafeMunmap s0 (pid * PAGE_SIZE) (n * PAGE_SIZE); Ok s) = Ok s' /\ free_result s R Lk pid n s'.
Proof.
  intros Hr Hh Hok Hd1 Hd2 Hf Hp Hn Hl Hsub.
  destruct (SafeMunmap_ok s0 _ pid n Hr Hp ltac:(lia) Hl) as (ok & s' & k & -> & Hh' & Hf' & Hor).
  rewrite bind_Ok_l. exists s'. split; [done |]. exists k.
  split; [destruct Hor as [(_ & -> & _) | (_ & -> & _)]; lia |]. split; [exact (fails_trans _ _ _ 0 _ Hf Hf') |].
  destruct Hor as [(_ & -> & Hr') | (_ & -> & Hr')]; simpl; do 2 eexists; (split; [exact Hr' |]); rewrite Hh';
    (split; [exact Hh |]); (split; [done |]); (split; [clear -Hd1; set_point |]).
  - rewrite union_empty_r_L. split; [clear -Hd2; set_point | clear -Hd1 Hd2 Hsub; set_point].
  - split; [clear -Hd1 Hd2 Hsub; set_point |].
    apply set_eq. intros x. rewrite elem_of_subseteq in Hsub. specialize (Hsub x).
    rewrite !elem_of_union, elem_of_difference. destruct (decide (x ∈ pages pid n)); tauto.
Qed.

Lemma free_cached s s0 R Lk l pid :
  os_rep (pa_os s0) (R ∪ cached l ∪ Lk) -> hpc_rep (pa_hpc s0) (pid * PAGE_SIZE :: l) -> huge_ok l -> cached l ## R ->
  Lk ## R ∪ cached l -> fails s s0 0 ->
  0 < pid -> pid + 512 < PAGE_LIMIT -> (pid * PAGE_SIZE) mod 2097152 = 0 -> pages pid 512 ⊆ R ->
  free_result s R Lk pid 512 s0.
Proof.
  intros Hr Hh Hok Hd1 Hd2 Hf Hp Hl Hal Hsub. exists 0. split; [by left |]. split; [done |]. simpl.
  exists (R ∪ cached l ∪ Lk), (pid * PAGE_SIZE :: l). cbn [cached huge_ok].
  rewrite (huge_run_page _ pid eq_refl), union_empty_r_L.
  split; [done |]. split; [done |]. split; [split; [by exists pid | split; [clear -Hsub Hd1; set_point | done]] |].
  split; [clear -Hd1; set_point |]. split; [clear -Hd2 Hsub; set_point |].
  apply set_eq. intros x. rewrite elem_of_subseteq in Hsub. specialize (Hsub x).
  rewrite !elem_of_union, elem_of_difference. destruct (decide (x ∈ pages pid 512)); tauto.
Qed.

Lemma IsHugePageAligned_spec p : IsHugePageAligned p = (p mod 2097152 =? 0).
Proof. unfold IsHugePageAligned. by rewrite huge_mask. Qed.

(** A run of the clients is released or kept. *)
Lemma SystemFree_ok s R Lk pid n :
  pa_rep s R Lk -> 0 < pid -> 0 < n -> pid + n < PAGE_LIMIT -> pages pid n ⊆ R ->
  exists s', SystemFree s (pid * PAGE_SIZE) n = Ok s' /\ free_result s R Lk pid n s'.
Proof.
  intros (M & l & Hr & Hh & Hok & Hd1 & Hd2 & ->) Hp Hn Hl Hsub.
  destruct (run_bytes pid n Hp ltac:(lia) Hl) as [Hpos Htop].
  unfold SystemFree.
  rewrite (proj2 (Z.eqb_neq (pid * PAGE_SIZE) 0)), (proj2 (Z.eqb_neq n 0)) by lia. cbn [orb].
  change (Z.shiftr SIZE_MAX PAGE_SHIFT) with 4503599627370495.
  rewrite (proj2 (Z.ltb_ge _ _)) by (unfold PAGE_SIZE in *; lia).
  rewrite page_shift_spec, u64_id by (unfold PAGE_SIZE in *; lia).
  set (s1 := fetch_add free_bytes (n * PAGE_SIZE) (fetch_add free_count 1 s)).
  assert (Hf1 : fails s s1 0) by (apply fails_0; unfold s1; by rewrite !stats_add).
  destruct (Z.eqb_spec (n * PAGE_SIZE) HUGE_PAGE_SIZE) as [Hhuge | Hother]; cbn [andb].
  2:{ by apply (free_unmap s s1 R Lk l). }
  rewrite IsHugePageAligned_spec. destruct (Z.eqb_spec ((pid * PAGE_SIZE) mod 2097152) 0) as [Hal | Hmis].
  2:{ by apply (free_unmap s s1 R Lk l). }
  assert (n = 512) as -> by (unfold PAGE_SIZE, HUGE_PAGE_SIZE in *; lia).
  destruct (madvise_ok s1 _ (pid * PAGE_SIZE) (512 * PAGE_SIZE) MADV_DONTNEED Hr) as (Hr2 & Hh2 & Hf2).
  destruct (madvise s1 (pid * PAGE_SIZE) (512 * PAGE_SIZE) MADV_DONTNEED) as [ok s2]. simpl in Hr2, Hh2, Hf2.
  pose proof (fails_trans _ _ _ 0 0 Hf1 Hf2) as Hf. simpl in Hf.
  destruct ok; cbn [negb].
  2:{ apply (free_unmap s s2 R Lk l); try done. by rewrite Hh2. }
  destruct (HpcPut_ok (pa_hpc s2) l (pid * PAGE_SIZE)) as (_ & c' & -> & Hh3); [by rewrite Hh2 |].
  rewrite bind_Ok_l. cbn iota beta zeta. destruct (_ <? _).
  - eexists. split; [done |]. by apply (free_cached s (with_hpc s2 c') R Lk l).
  - by apply (free_unmap s (with_hpc s2 c') R Lk l).
Qed.

(** C33: [SystemFree] takes a run back exactly once.  For any run its clients
    hold, in every build, it returns and exactly the run's pages leave the
    clients' hands: they are unmapped, or, for an aligned 2 MiB run whose memory
    the kernel agreed to drop and for which the cache has room, kept in the
    cache.  Only when the kernel refuses to unmap do they stay mapped, and the
    counter of failed [munmap]s says so.  Null or zero pages do nothing. *)
Theorem SystemFree_spec s R Lk pid n :
  pa_rep s R Lk -> 0 < pid -> 0 < n -> pid + n < PAGE_LIMIT -> pages pid n ⊆ R ->
  (exists s', SystemFree s (pid * PAGE_SIZE) n = Ok s' /\ free_result s R Lk pid n s') /\
  SystemFree s 0 n = Ok s /\ SystemFree s (pid * PAGE_SIZE) 0 = Ok s.
Proof.
  intros Hrep Hp Hn Hl Hsub. split; [by apply SystemFree_ok |].
  unfold SystemFree. by rewrite orb_true_r.
Qed.

(** A cached run comes straight back.  Freeing an aligned 2 MiB run while the
    cache has room, with the kernel dropping its memory, and allocating 512
    pages next returns the same run without another call to the kernel. *)
Theorem SystemFree_SystemAlloc s R Lk pid l o :
  pa_rep s R Lk -> hpc_rep (pa_hpc s) l -> Z.of_nat (length l) < kCapacity ->
  0 < pid -> pid + 512 < PAGE_LIMIT -> pid mod 512 = 0 ->
  os_madvise (pid * PAGE_SIZE) HUGE_PAGE_SIZE MADV_DONTNEED (pa_os s) = (true, o) ->
  exists s1 s2, SystemFree s (pid * PAGE_SIZE) 512 = Ok s1 /\ pa_os s1 = o /\
    SystemAlloc s1 512 = Ok (pid * PAGE_SIZE, s2) /\ pa_os s2 = o /\ hpc_rep (pa_hpc s2) l /\
    pa_stats s2 huge_cache_hit_count = u64 (pa_stats s huge_cache_hit_count + 1).
Proof.
  intros _ Hh Hlen Hp Hl Hal Hadv. destruct (run_bytes pid 512 Hp ltac:(lia) Hl) as [Hpos Htop].
  assert (Hal2 : (pid * PAGE_SIZE) mod 2097152 = 0).
  { unfold PAGE_SIZE. change 2097152 with (512 * 4096). rewrite Z.mul_mod_distr_r by done. by rewrite Hal. }
  unfold SystemFree. rewrite (proj2 (Z.eqb_neq (pid * PAGE_SIZE) 0)) by lia. cbn [orb].
  change (512 =? 0) with false. change (Z.shiftr SIZE_MAX PAGE_SHIFT <? 512) with false. cbn iota.
  change (u64 (Z.shiftl 512 PAGE_SHIFT)) with HUGE_PAGE_SIZE. rewrite Z.eqb_refl, IsHugePageAligned_spec, Hal2, Z.eqb_refl.
  cbn [andb]. unfold madvise. cbn [pa_os fetch_add]. rewrite Hadv. cbn [negb].
  destruct (HpcPut_ok (pa_hpc s) l (pid * PAGE_SIZE) Hh) as (_ & c1 & Hput & Hh1).
  rewrite (proj2 (Z.ltb_lt _ _) Hlen) in Hput, Hh1.
  cbn [pa_hpc with_os fetch_add]. rewrite Hput, bind_Ok_l. cbn iota beta zeta.
  destruct (HpcGet_ok c1 _ Hh1) as (c2 & Hget & Hh2). cbn [hd tail] in *.
  do 2 eexists. split; [done |]. split; [done |]. split.
  { unfold SystemAlloc. change (512 =? 0) with false. change (Z.shiftr SIZE_MAX PAGE_SHIFT <? 512) with false. cbn iota.
    change (u64 (Z.shiftl 512 PAGE_SHIFT)) with HUGE_PAGE_SIZE. change (HUGE_PAGE_SIZE <? Z.shiftr HUGE_PAGE_SIZE 1) with false.
    rewrite Z.eqb_refl. cbn iota. cbn [pa_hpc with_hpc]. rewrite Hget, bind_Ok_l. cbn iota beta zeta.
    rewrite (proj2 (Z.eqb_neq (pid * PAGE_SIZE) 0)), huge_mask, Hal2, Z.eqb_refl by lia. reflexivity. }
  split; [done |]. split; [done |]. done.
Qed.

(** [ResetStats] clears every counter and touches nothing else. *)
Theorem ResetStats_spec s :
  (forall c, pa_stats (ResetStats s) c = 0) /\ pa_os (ResetStats s) = pa_os s /\ pa_hpc (ResetStats s) = pa_hpc s.
Proof. split; [intros []; reflexivity | done]. Qed.

Lemma ReleaseHugePageCache_ok fuel s R Lk l :
  pa_rep s R Lk -> hpc_rep (pa_hpc s) l -> (length l <= fuel)%nat ->
  (exists M, os_rep (pa_os s) M /\ M = R ∪ cached l ∪ Lk /\ huge_ok l /\ cached l ## R /\ Lk ## R ∪ cached l) ->
  exists s' X k, ReleaseHugePageCache fuel s = Ok s' /\ hpc_rep (pa_hpc s') [] /\ pa_rep s' R (Lk ∪ X) /\
    X ⊆ cached l /\ 0 <= k <= Z.of_nat (length l) /\ (k = 0 -> X = ∅) /\ fails s s' k.
Proof.
  revert s Lk l. induction fuel as [| fuel IH]; intros s Lk l Hrep Hh Hlen (M & Hr & -> & Hok & Hd1 & Hd2);
    cbn [ReleaseHugePageCache]; destruct (HpcGet_ok (pa_hpc s) l Hh) as (c' & -> & Hh'); rewrite bind_Ok_l; cbn iota beta zeta.
  all: destruct l as [| p l]; cbn [hd tail] in *.
  1, 3: exists (with_hpc s c'), ∅, 0; rewrite Z.eqb_refl; split; [done |]; split; [done |]; split;
      [| split; [done | split; [simpl; lia | split; [done | by apply fails_0]]]];
      exists (R ∪ cached [] ∪ Lk), []; rewrite union_empty_r_L; done.
  { simpl in Hlen. lia. }
  destruct Hok as ((pid & Hp & Hpid & Hl & Hal) & Hdj & Hok). cbn [cached] in *.
  rewrite (huge_run_page p pid Hp) in *. subst p. destruct (run_bytes pid 512 Hpid ltac:(lia) Hl) as [Hpos _].
  rewrite (proj2 (Z.eqb_neq _ 0)) by lia.
  pose proof (os_munmap_ok _ _ pid 512 Hr Hpid ltac:(lia) Hl) as Hu.
  change (512 * PAGE_SIZE) with HUGE_PAGE_SIZE in Hu. cbn [pa_os with_hpc].
  destruct (os_munmap (pid * PAGE_SIZE) HUGE_PAGE_SIZE (pa_os s)) as [ok o'].
  set (s1 := if ok then with_os (with_hpc s c') o' else RecordMunmapFailure (with_os (with_hpc s c') o')).
  set (Y := if ok then ∅ else pages pid 512).
  assert (Hr1 : os_rep (pa_os s1) (R ∪ cached l ∪ (Lk ∪ Y))).
  { destruct ok; unfold s1, Y; simpl.
    - assert (R ∪ cached l ∪ (Lk ∪ ∅) = (R ∪ (pages pid 512 ∪ cached l) ∪ Lk) ∖ pages pid 512) as ->; [| done].
      clear -Hd1 Hd2 Hdj. set_point.
    - assert (R ∪ cached l ∪ (Lk ∪ pages pid 512) = R ∪ (pages pid 512 ∪ cached l) ∪ Lk) as ->; [clear; set_point | done]. }
  assert (HY : Y ⊆ pages pid 512) by (unfold Y; destruct ok; [clear; set_point | done]).
  assert (Hd1' : cached l ## R) by (clear -Hd1; set_point).
  assert (Hd2' : Lk ∪ Y ## R ∪ cached l) by (clear -Hd1 Hd2 Hdj HY; set_point).
  assert (Hh1 : hpc_rep (pa_hpc s1) l) by (unfold s1; by destruct ok).
  destruct (IH s1 (Lk ∪ Y) l) as (s' & X & k & Heq & Hh2 & Hrep2 & HX & Hk & Hk0 & Hf2).
  { by exists (R ∪ cached l ∪ (Lk ∪ Y)), l. } { done. } { simpl in Hlen; lia. } { by eexists. }
  exists s', (Y ∪ X), ((if ok then 0 else 1) + k). split; [exact Heq |]. split; [done |].
  split; [by rewrite union_assoc_L |]. split; [clear -HX HY; set_point |].
  split; [simpl length in *; destruct ok; lia |]. split.
  - intros E. destruct ok; [| lia]. unfold Y. rewrite Hk0 by lia. clear; set_point.
  - eapply fails_trans; [| exact Hf2]. unfold s1. destruct ok; [by apply fails_0 | apply (fails_add (with_os (with_hpc s c') o'))].
Qed.
End Laws.

(** ** The allocator as a source of pages

    What the object pools and the page cache rely on. *)
#[export] Instance PageAllocator_source `{Build} `{Runtime} {Kn} `{OS Kn} : PageSource (PageAllocator Kn) := {|
  ps_SystemAlloc n s := SystemAlloc s n;
  ps_SystemFree ptr n s := SystemFree s ptr n;
|}.

#[export] Instance PageAllocator_source_laws {Bd : Build} {Rt : Runtime} {Kn} {Ko : OS Kn} {Kl : OSLaws Kn} :
  PageSourceLaws (PageAllocator Kn).
Proof.
  refine (Build_PageSourceLaws _ _ _ (fun s R => exists Lk, pa_rep s R Lk) _ _); simpl.
  - intros s R n [Lk Hrep] Hn. destruct (SystemAlloc_ok s R Lk n Hrep Hn) as (p & s' & -> & Hres & _).
    exists p, s'. split; [done |]. destruct Hres as (X & k & _ & _ & _ & [[-> Hr] | (pid & Hp)]); [left | right].
    + split; [done | by eexists].
    + exists pid. destruct Hp as (? & ? & ? & ? & ? & ?). split_and!; try done. by eexists.
  - intros s R pid n [Lk Hrep] Hp Hn Hl Hsub.
    destruct (SystemFree_ok s R Lk pid n Hrep Hp Hn Hl Hsub) as (s' & -> & k & _ & _ & Hr).
    exists s'. split; [done | by eexists].
Defined.

(** ** A kernel to run on

    Addresses only grow, [munmap] and [madvise] always succeed. *)
Definition bump_mmap `{Build} (size : Z) (populate : bool) (w : Z) : mmap_result * Z :=
  let n := size / PAGE_SIZE in
  if w + n <? PAGE_LIMIT then (Mapped (w * PAGE_SIZE), w + n) else (MmapENOMEM, w).

Definition bump_os `{Build} : OS Z := {|
  os_mmap := bump_mmap;
  os_munmap _ _ w := (true, w);
  os_madvise _ _ _ w := (true, w);
|}.

Definition bump_os_rep (w : Z) (M : gset Z) : Prop := 1 <= w /\ forall p, p ∈ M -> p < w.

Definition bump_os_laws `{Build} : @OSLaws Z _ bump_os.
Proof.
  refine (@Build_OSLaws Z _ bump_os bump_os_rep _ _ _); simpl.
  - intros w M n populate [Hw HM] Hn Hlt. unfold bump_mmap.
    assert (n * PAGE_SIZE / PAGE_SIZE = n) as -> by (unfold PAGE_SIZE; by apply Z.div_mul).
    destruct (Z.ltb_spec (w + n) PAGE_LIMIT); [| done]. exists w. split; [done |]. split; [lia |]. split; [lia |].
    split.
    + apply elem_of_disjoint. intros p Hp Hin%elem_of_pages. specialize (HM p Hp). lia.
    + split; [lia |]. intros p [Hp%HM | Hp%elem_of_pages]%elem_of_union; lia.
  - intros w M pid n [Hw HM] _ _ _. split; [done |]. intros p [Hp _]%elem_of_difference. by apply HM.
  - done.
Defined.

(** The allocator before its first call, on a kernel whose first free page is [w]. *)
Definition pa_start (w : Z) : PageAllocator Z := mkPA w hpc_start (fun _ => 0).

Section PageAllocatorWitness.
#[local] Existing Instance release_build.
#[local] Existing Instance bump_os.
#[local] Existing Instance bump_os_laws.
#[local] Instance default_runtime : Runtime := {| runtime_config := RuntimeConfig_default |}.

Lemma pa_start_rep w : 1 <= w -> pa_rep (pa_start w) ∅ ∅.
Proof.
  intros Hw. exists ∅, []. split; [split; [done | clear; set_solver] |]. split; [apply hpc_start_rep |].
  split; [done |]. split; [clear; set_solver |]. split; clear; set_solver.
Qed.

(** Page 16 is not 2 MiB aligned, so the run comes from the trim. *)
Lemma SystemAlloc_spec_witness :
  (exists p s', SystemAlloc (pa_start 16) 512 = Ok (p, s') /\ alloc_result (pa_start 16) ∅ ∅ 512 p s' /\
    (512 = 0 \/ W64 <= 512 * PAGE_SIZE -> p = 0)) /\
  match SystemAlloc (pa_start 16) 512 with Ok (p, _) => p = 1024 * PAGE_SIZE | _ => False end.
Proof.
  split; [| by vm_compute]. apply (SystemAlloc_spec (pa_start 16) ∅ ∅ 512); [by apply pa_start_rep | lia].
Defined.

Lemma pa_held_rep : pa_rep (pa_start 2048) (pages 1024 512) ∅.
Proof.
  exists (pages 1024 512), []. split; [split; [done | intros p Hp%elem_of_pages; simpl; lia] |].
  split; [apply hpc_start_rep |]. split; [done |]. cbn [cached].
  split; [clear; set_point |]. split; clear; set_point.
Qed.

Lemma SystemFree_spec_witness :
  (exists s', SystemFree (pa_start 2048) (1024 * PAGE_SIZE) 512 = Ok s' /\
    free_result (pa_start 2048) (pages 1024 512) ∅ 1024 512 s') /\
  SystemFree (pa_start 2048) 0 512 = Ok (pa_start 2048) /\
  SystemFree (pa_start 2048) (1024 * PAGE_SIZE) 0 = Ok (pa_start 2048).
Proof.
  apply (SystemFree_spec (pa_start 2048) (pages 1024 512) ∅ 1024 512 pa_held_rep);
    [lia | lia | by vm_compute | done].
Defined.

Lemma SystemFree_SystemAlloc_witness :
  exists s1 s2, SystemFree (pa_start 2048) (1024 * PAGE_SIZE) 512 = Ok s1 /\ pa_os s1 = 2048 /\
    SystemAlloc s1 512 = Ok (1024 * PAGE_SIZE, s2) /\ pa_os s2 = 2048 /\ hpc_rep (pa_hpc s2) [] /\
    pa_stats s2 huge_cache_hit_count = u64 (pa_stats (pa_start 2048) huge_cache_hit_count + 1).
Proof.
  apply (SystemFree_SystemAlloc (pa_start 2048) (pages 1024 512) ∅ 1024 [] 2048 pa_held_rep hpc_start_rep);
    done || by vm_compute.
Defined.
End PageAllocatorWitness.
