(* ===== verification/ObjectPool.v ===== *)
(** * Object pools (include/ammalloc/page_allocator.h, [ObjectPool])

    A pool of fixed-size objects carved from page runs: freed slots are reused
    last in, first out, then the current chunk is bumped, then a new chunk is
    mapped.  Chunk headers and the links of freed slots live in the pool's own
    memory; the contents of live objects are modelled where they are used (Span.v,
    PageMap.v).  The page runs come from the interface [PageSource]. *)
From S2P Require Import Prelude Config Common Backing.
Open Scope Z_scope.

(** The template parameter [T]: its size and the logarithm of its alignment. *)
Class PoolType := { sizeof_T : Z; align_shift : Z }.
Definition alignof_T `{PoolType} : Z := 2 ^ align_shift.

(** Both instances are laid out to whole cache lines or pages. *)
Class PoolTypeLaws `{PoolType} := {
  pt_size : 8 <= sizeof_T <= 65536;
  pt_shift : 3 <= align_shift <= 12;
  pt_multiple : (alignof_T | sizeof_T);
}.

Definition CHUNK_SIZE : Z := 64 * 1024.
(** [sizeof(ChunkHeader)]: [next] at offset 0, [page_num] at offset 8. *)
Definition sizeof_ChunkHeader : Z := 16.

Record ObjectPool := mkPool {
  pl_data : Z;
  pl_remain_bytes : Z;
  pl_free_list : Z;
  pl_chunk_list : Z
}.
Definition ObjectPool_new : ObjectPool := mkPool 0 0 0 0.

Section Ops.
Context `{PoolType} {P : Type} `{PageSource P}.

(** The page count of a new chunk. *)
Definition chunk_objs : Z :=
  let num_objs := CHUNK_SIZE / sizeof_T in
  if num_objs <? 10 then 10 else num_objs.
Definition chunk_page_num : Z :=
  let needed_bytes := u64 (sizeof_ChunkHeader + chunk_objs * sizeof_T + alignof_T - 1) in
  Z.shiftr (u64 (needed_bytes + PAGE_SIZE - 1)) PAGE_SHIFT.

(** [reinterpret_cast<char*>((raw_data_start + alignof(T) - 1) & ~(alignof(T) - 1))] *)
Definition aligned_data_start (ptr : Z) : Z :=
  let raw_data_start := u64 (ptr + sizeof_ChunkHeader) in
  Z.land (u64 (u64 (raw_data_start + alignof_T) - 1)) (u64 (Z.lnot (alignof_T - 1))).

(** Mapping a chunk; [false] when the mapping fails. *)
Definition new_chunk (pool : ObjectPool) (m : mem) (s : P) : outcome (bool * ObjectPool * mem * P) :=
  '(ptr, s) ← ps_SystemAlloc chunk_page_num s;
  if ptr =? 0 then Ok (false, pool, m, s)
  else
    m ← store m ptr (pl_chunk_list pool);
    m ← store m (ptr + 8) chunk_page_num;
    let data := aligned_data_start ptr in
    let total_bytes := u64 (Z.shiftl chunk_page_num PAGE_SHIFT) in
    Ok (true, mkPool data (u64 (total_bytes - u64 (data - ptr))) (pl_free_list pool) ptr, m, s).

(** [data_] advances over one object. *)
Definition bump (pool : ObjectPool) : Z * ObjectPool :=
  (pl_data pool, mkPool (u64 (pl_data pool + sizeof_T)) (u64 (pl_remain_bytes pool - sizeof_T))
                   (pl_free_list pool) (pl_chunk_list pool)).

(** [TryNew], up to the constructor of [T]; 0 is null. *)
Definition TryNew (pool : ObjectPool) (m : mem) (s : P) : outcome (Z * ObjectPool * mem * P) :=
  if negb (pl_free_list pool =? 0) then
    let obj := pl_free_list pool in
    next ← load m obj;
    Ok (obj, mkPool (pl_data pool) (pl_remain_bytes pool) next (pl_chunk_list pool), m, s)
  else if pl_remain_bytes pool <? sizeof_T then
    '(ok, pool, m, s) ← new_chunk pool m s;
    if negb ok then Ok (0, pool, m, s)
    else let '(obj, pool) := bump pool in Ok (obj, pool, m, s)
  else let '(obj, pool) := bump pool in Ok (obj, pool, m, s).

(** [Delete], after the destructor of [T]. *)
Definition Delete (pool : ObjectPool) (m : mem) (obj : Z) : outcome (ObjectPool * mem) :=
  m ← store m obj (pl_free_list pool);
  Ok (mkPool (pl_data pool) (pl_remain_bytes pool) obj (pl_chunk_list pool), m).

(** [while (cur) { next = cur->next; SystemFree(cur, cur->page_num); cur = next; }] *)
Fixpoint free_chunks (fuel : nat) (m : mem) (s : P) (cur : Z) : outcome P :=
  if cur =? 0 then Ok s
  else match fuel with
  | O => NoFuel
  | S fuel' =>
      next ← load m cur;
      page_num ← load m (cur + 8);
      s ← ps_SystemFree cur page_num s;
      free_chunks fuel' m s next
  end.

(** Each chunk has a header word in memory, so their number bounds the loop. *)
Definition ReleaseMemory (pool : ObjectPool) (m : mem) (s : P) : outcome (ObjectPool * P) :=
  s ← free_chunks (size m) m s (pl_chunk_list pool);
  Ok (mkPool 0 0 0 0, s).

(** [~ObjectPool] *)
Definition pool_destroy (pool : ObjectPool) (m : mem) (s : P) : outcome P :=
  free_chunks (size m) m s (pl_chunk_list pool).
End Ops.

(** ** The invariant

    [cs] are the chunks (first page, page count) from the newest on, [fl] the
    freed slots, [S] the live objects. *)

Fixpoint chunk_pages (cs : list (Z * Z)) : gset Z :=
  match cs with
  | [] => ∅
  | (c, n) :: cs' => pages c n ∪ chunk_pages cs'
  end.

Fixpoint chunk_chain `{Build} (m : mem) (cur : Z) (cs : list (Z * Z)) : Prop :=
  match cs with
  | [] => cur = 0
  | (c, n) :: cs' =>
      cur = c * PAGE_SIZE /\ 0 < c /\ 0 < n /\ c + n < PAGE_LIMIT /\ pages c n ## chunk_pages cs' /\
      m !! (c * PAGE_SIZE + 8) = Some n /\
      exists next, m !! (c * PAGE_SIZE) = Some next /\ chunk_chain m next cs'
  end.

Fixpoint free_chain (m : mem) (cur : Z) (fl : list Z) : Prop :=
  match fl with
  | [] => cur = 0
  | a :: fl' => cur = a /\ a <> 0 /\ exists next, m !! a = Some next /\ free_chain m next fl'
  end.

Section Inv.
Context {Bd : Build} `{PoolTypeLaws}.

(** [a, a + len) lies in the body of a chunk. *)
Definition in_chunk (cs : list (Z * Z)) (a len : Z) : Prop :=
  exists c n, (c, n) ∈ cs /\ c * PAGE_SIZE + sizeof_ChunkHeader <= a /\ a + len <= (c + n) * PAGE_SIZE.

Definition apart (a la b lb : Z) : Prop := a + la <= b \/ b + lb <= a.

Record pool_inv (pool : ObjectPool) (m : mem) (cs : list (Z * Z)) (fl : list Z) (S : gset Z) : Prop := {
  po_chunks : chunk_chain m (pl_chunk_list pool) cs;
  po_free : free_chain m (pl_free_list pool) fl;
  po_nodup : NoDup fl;
  po_live : forall a, a ∈ S -> a ∉ fl;
  po_slot : forall a, a ∈ S \/ a ∈ fl -> (alignof_T | a) /\ in_chunk cs a sizeof_T;
  po_apart : forall a b, a ∈ S \/ a ∈ fl -> b ∈ S \/ b ∈ fl -> a <> b -> apart a sizeof_T b sizeof_T;
  po_remain : 0 <= pl_remain_bytes pool < W64;
  po_bump : sizeof_T <= pl_remain_bytes pool ->
    (alignof_T | pl_data pool) /\ in_chunk cs (pl_data pool) (pl_remain_bytes pool) /\
    forall a, a ∈ S \/ a ∈ fl -> apart a sizeof_T (pl_data pool) (pl_remain_bytes pool);
}.

(** The pool owns the pages [C] and has the live objects [S]. *)
Definition pool_rep (pool : ObjectPool) (m : mem) (C S : gset Z) : Prop :=
  exists cs fl, pool_inv pool m cs fl S /\ C = chunk_pages cs.

Lemma chunk_pages_in c n cs : (c, n) ∈ cs -> pages c n ⊆ chunk_pages cs.
Proof.
  induction cs as [| [c' n'] cs IH]; [intros Hi; by apply not_elem_of_nil in Hi |].
  intros [[= -> ->] | Hi]%elem_of_cons; cbn [chunk_pages]; [set_point |]. specialize (IH Hi). set_point.
Qed.

Lemma pages_lt a n b k : pages a n ## pages b k -> 0 < n -> 0 < k -> a + n <= b \/ b + k <= a.
Proof.
  intros Hd Hn Hk. apply elem_of_disjoint in Hd.
  pose proof (Hd a) as Ha. pose proof (Hd b) as Hb. rewrite !elem_of_pages in Ha, Hb. lia.
Qed.

Lemma in_chunk_page cs a len : in_chunk cs a len -> 0 < len -> a / PAGE_SIZE ∈ chunk_pages cs.
Proof.
  intros (c & n & Hi & Hlo & Hhi) Hlen. apply (chunk_pages_in c n cs Hi), elem_of_pages.
  unfold PAGE_SIZE, sizeof_ChunkHeader in *. split; [apply Z.div_le_lower_bound; lia | apply Z.div_lt_upper_bound; lia].
Qed.

(** Regions of a new chunk are apart from what lies in the others. *)
Lemma new_chunk_apart cs c n a la b lb :
  in_chunk cs a la -> 0 < la -> 0 < n -> pages c n ## chunk_pages cs ->
  c * PAGE_SIZE <= b -> b + lb <= (c + n) * PAGE_SIZE -> apart a la b lb.
Proof.
  intros (c' & n' & Hi & Hlo & Hhi) Hla Hn Hd Hb1 Hb2. unfold apart, PAGE_SIZE, sizeof_ChunkHeader in *.
  assert (Hd2 : pages c n ## pages c' n').
  { pose proof (chunk_pages_in c' n' cs Hi). set_point. }
  destruct (pages_lt _ _ _ _ Hd2 Hn ltac:(lia)); lia.
Qed.

(** Header words. *)
Definition header_of (cs : list (Z * Z)) (a : Z) : Prop :=
  exists c n, (c, n) ∈ cs /\ (a = c * PAGE_SIZE \/ a = c * PAGE_SIZE + 8).

Lemma chunk_chain_ext m m' cur cs :
  (forall a, header_of cs a -> m' !! a = m !! a) -> chunk_chain m cur cs -> chunk_chain m' cur cs.
Proof.
  revert cur. induction cs as [| [c n] cs IH]; intros cur Heq; [done |].
  intros (-> & Hc & Hn & Hl & Hd & Hw & next & Hnx & Hch).
  assert (Hh : forall k, k = 0 \/ k = 8 -> header_of ((c, n) :: cs) (c * PAGE_SIZE + k)).
  { intros k [-> | ->]; exists c, n; (split; [apply elem_of_cons; by left |]); [left; lia | by right]. }
  split; [done |]. split; [done |]. split; [done |]. split; [done |]. split; [done |].
  split; [rewrite Heq; [done | apply Hh; by right] |]. exists next.
  split; [rewrite Heq; [done | rewrite <- (Z.add_0_r (c * PAGE_SIZE)); apply Hh; by left] |].
  apply IH; [| done]. intros a (c' & n' & Hi & Ha). apply Heq. exists c', n'. split; [apply elem_of_cons; by right | done].
Qed.

Lemma chunk_chain_pos m cur cs c n : chunk_chain m cur cs -> (c, n) ∈ cs -> 0 < c /\ 0 < n /\ c + n < PAGE_LIMIT.
Proof.
  revert cur. induction cs as [| [c' n'] cs IH]; intros cur Hch Hi; [by apply not_elem_of_nil in Hi |].
  destruct Hch as (_ & Hc & Hn & Hl & _ & _ & next & _ & Hch).
  apply elem_of_cons in Hi as [[= -> ->] | Hi]; [done | by eapply IH].
Qed.

(** A slot never covers a header. *)
Lemma slot_not_header m cur cs a len : chunk_chain m cur cs -> in_chunk cs a len -> 0 < len -> ~ header_of cs a.
Proof.
  intros Hch (c & n & Hi & Hlo & Hhi) Hlen (c' & n' & Hi' & Ha).
  assert (Hsame : forall cur, chunk_chain m cur cs -> (c, n) = (c', n') \/ pages c n ## pages c' n').
  { clear Hch Hlo Hhi Ha. revert Hi Hi'. induction cs as [| [x k] cs IH]; intros Hi Hi' cur0 Hch.
    { by apply not_elem_of_nil in Hi. }
    destruct Hch as (_ & _ & _ & _ & Hd & _ & next & _ & Hch).
    apply elem_of_cons in Hi as [E1 | Hi]; apply elem_of_cons in Hi' as [E2 | Hi'].
    - left. congruence.
    - right. injection E1 as -> ->. pose proof (chunk_pages_in _ _ _ Hi'). set_point.
    - right. injection E2 as -> ->. pose proof (chunk_pages_in _ _ _ Hi). set_point.
    - by eapply IH. }
  destruct (chunk_chain_pos _ _ _ _ _ Hch Hi) as (? & ? & _). destruct (chunk_chain_pos _ _ _ _ _ Hch Hi') as (? & ? & _).
  unfold PAGE_SIZE, sizeof_ChunkHeader in *.
  destruct (Hsame _ Hch) as [[= -> ->] | Hd]; [lia |].
  destruct (pages_lt _ _ _ _ Hd ltac:(lia) ltac:(lia)); lia.
Qed.

Lemma free_chain_ext m m' cur fl : (forall a, a ∈ fl -> m' !! a = m !! a) -> free_chain m cur fl -> free_chain m' cur fl.
Proof.
  revert cur. induction fl as [| a fl IH]; intros cur Heq; [done |]. intros (-> & Ha & next & Hnx & Hch).
  split; [done |]. split; [done |]. exists next. split; [rewrite Heq; [done |]; apply elem_of_cons; by left |].
  apply IH; [| done]. intros b Hb. apply Heq, elem_of_cons. by right.
Qed.

Lemma slot_pos : 0 < sizeof_T.
Proof. pose proof pt_size. lia. Qed.

(** Only the words on its own pages matter to a pool. *)
Lemma pool_frame pool m m' C S :
  (forall a, a / PAGE_SIZE ∈ C -> m' !! a = m !! a) -> pool_rep pool m C S -> pool_rep pool m' C S.
Proof.
  intros Heq (cs & fl & Hi & ->). exists cs, fl. split; [| done]. destruct Hi. constructor; try done.
  - eapply chunk_chain_ext; [| done]. intros a (c & n & Hc & Ha). apply Heq.
    pose proof (chunk_chain_pos _ _ _ _ _ po_chunks0 Hc). apply (chunk_pages_in c n cs Hc), elem_of_pages.
    unfold PAGE_SIZE in *. assert (a / 4096 = c) as ->; [| lia].
    destruct Ha as [-> | ->]; [by apply Z.div_mul |]. rewrite Z.div_add_l by lia. change (8 / 4096) with 0. lia.
  - eapply free_chain_ext; [| done]. intros a Ha. apply Heq.
    eapply in_chunk_page; [apply po_slot0; by right | apply slot_pos].
Qed.

(** Live objects of the pool: on its pages, aligned, room for [T], pairwise apart. *)
Lemma pool_live pool m C S a :
  pool_rep pool m C S -> a ∈ S ->
  a <> 0 /\ (alignof_T | a) /\ a / PAGE_SIZE ∈ C /\ forall b, b ∈ S -> b <> a -> apart a sizeof_T b sizeof_T.
Proof.
  intros (cs & fl & Hi & ->) Ha. destruct (po_slot _ _ _ _ _ Hi a (or_introl Ha)) as [Hal Hin].
  split; [| split; [done | split]].
  - destruct Hin as (c & n & Hc & Hlo & _). pose proof (chunk_chain_pos _ _ _ _ _ (po_chunks _ _ _ _ _ Hi) Hc).
    unfold PAGE_SIZE, sizeof_ChunkHeader in *. lia.
  - eapply in_chunk_page; [done | apply slot_pos].
  - intros b Hb Hne. apply (po_apart _ _ _ _ _ Hi); [by left | by left | congruence].
Qed.

Lemma pool_start m : pool_rep ObjectPool_new m ∅ ∅.
Proof.
  exists [], []. split; [| done]. constructor; try done.
  - constructor.
  - intros a [Ha | Ha]; [set_solver | by apply not_elem_of_nil in Ha].
  - intros a b [Ha | Ha]; [set_solver | by apply not_elem_of_nil in Ha].
  - cbn [ObjectPool_new pl_remain_bytes]. pose proof slot_pos. lia.
Qed.
End Inv.

Section Laws.
Context {Bd : Build} `{PoolTypeLaws} {P : Type} {Ps : PageSource P} {Pl : PageSourceLaws P}.

Lemma bump_ok pool m cs S obj pool' :
  pool_inv pool m cs [] S -> sizeof_T <= pl_remain_bytes pool -> bump pool = (obj, pool') ->
  obj <> 0 /\ (obj ∉ S) /\ pool_inv pool' m cs [] ({[obj]} ∪ S).
Proof.
  intros Hi Hle [= <- <-]. destruct (po_bump _ _ _ _ _ Hi Hle) as (Hal & Hin & Hap).
  pose proof slot_pos as Hpos. pose proof (po_remain _ _ _ _ _ Hi) as Hrem.
  pose proof Hin as (c & n & Hc & Hlo & Hhi).
  pose proof (chunk_chain_pos _ _ _ _ _ (po_chunks _ _ _ _ _ Hi) Hc) as (Hc0 & Hn0 & Hl).
  assert (Htop : (c + n) * PAGE_SIZE < 144115188075855872).
  { pose proof PAGE_LIMIT_val as Hv. unfold PAGE_SIZE. destruct use_57bit_va; lia. }
  unfold sizeof_ChunkHeader in Hlo. unfold PAGE_SIZE in Hlo.
  assert (Hout : pl_data pool ∉ S).
  { intros HS. destruct (Hap _ (or_introl HS)); lia. }
  split; [lia |]. split; [done |].
  rewrite (u64_id (pl_data pool + _)), (u64_id (pl_remain_bytes pool - _)) by lia.
  assert (Hnew : forall a, a ∈ {[pl_data pool]} ∪ S \/ a ∈ [] -> a = pl_data pool \/ (a ∈ S \/ a ∈ ([] : list Z))).
  { intros a [[->%elem_of_singleton | ?]%elem_of_union | ?]; tauto. }
  constructor; cbn [pl_chunk_list pl_free_list pl_remain_bytes pl_data].
  - apply Hi.
  - apply Hi.
  - constructor.
  - intros a _ Ha. by apply not_elem_of_nil in Ha.
  - intros a [-> | Ha]%Hnew; [| by apply Hi]. split; [done |]. exists c, n. split; [done |].
    unfold sizeof_ChunkHeader, PAGE_SIZE in *. lia.
  - intros a b [-> | Ha]%Hnew [-> | Hb]%Hnew Hne; [done | | | by apply Hi].
    + destruct (Hap b Hb); [right | left]; lia.
    + destruct (Hap a Ha); [left | right]; lia.
  - lia.
  - intros Hle2. split; [by apply Z.divide_add_r; [| apply pt_multiple] |]. split.
    + exists c, n. split; [done |]. unfold sizeof_ChunkHeader, PAGE_SIZE in *. lia.
    + intros a [-> | Ha]%Hnew; [left; lia |]. destruct (Hap a Ha); [left | right]; lia.
Qed.

(** The size of a chunk: room for the header and at least one aligned object. *)
Lemma chunk_page_num_ok :
  0 < chunk_page_num < 512 /\ sizeof_ChunkHeader + sizeof_T + alignof_T - 1 <= chunk_page_num * PAGE_SIZE.
Proof.
  pose proof pt_size as Hs. pose proof pt_shift as Hk.
  assert (Ha : 8 <= alignof_T <= 4096).
  { unfold alignof_T. split.
    - change 8 with (2 ^ 3). apply Z.pow_le_mono_r; lia.
    - change 4096 with (2 ^ 12). apply Z.pow_le_mono_r; lia. }
  assert (Ho : sizeof_T <= chunk_objs * sizeof_T <= 655360).
  { unfold chunk_objs, CHUNK_SIZE. change (64 * 1024) with 65536.
    pose proof (Z.mul_div_le 65536 sizeof_T slot_pos). destruct (Z.ltb_spec (65536 / sizeof_T) 10); nia. }
  unfold chunk_page_num, sizeof_ChunkHeader, PAGE_SIZE in *. rewrite page_unshift_spec. unfold PAGE_SIZE.
  set (need := 16 + chunk_objs * sizeof_T + alignof_T - 1) in *.
  rewrite (u64_id need) by lia. rewrite u64_id by lia.
  pose proof (Z.div_mod (need + 4096 - 1) 4096 ltac:(lia)). pose proof (Z.mod_pos_bound (need + 4096 - 1) 4096 ltac:(lia)).
  split; [split |]; lia.
Qed.

Lemma aligned_data_ok c :
  0 < c -> c < PAGE_LIMIT ->
  c * PAGE_SIZE + sizeof_ChunkHeader <= aligned_data_start (c * PAGE_SIZE) <=
    c * PAGE_SIZE + sizeof_ChunkHeader + alignof_T - 1 /\ (alignof_T | aligned_data_start (c * PAGE_SIZE)).
Proof.
  intros Hc Hl. pose proof pt_shift as Hk.
  assert (Ha : 8 <= alignof_T <= 4096).
  { unfold alignof_T. split.
    - change 8 with (2 ^ 3). apply Z.pow_le_mono_r; lia.
    - change 4096 with (2 ^ 12). apply Z.pow_le_mono_r; lia. }
  assert (Htop : c * 4096 < 144115188075855872).
  { pose proof PAGE_LIMIT_val as Hv. destruct use_57bit_va; lia. }
  unfold aligned_data_start, sizeof_ChunkHeader, PAGE_SIZE.
  rewrite (u64_id (c * 4096 + 16)) by lia. rewrite (u64_id (_ + alignof_T)) by lia. rewrite (u64_id (_ - 1)) by lia.
  unfold alignof_T in *. rewrite land_lnot_ones by lia.
  set (al := 2 ^ align_shift) in *. set (x := c * 4096 + 16 + al - 1).
  pose proof (Z.div_mod x al ltac:(lia)). pose proof (Z.mod_pos_bound x al ltac:(lia)).
  split; [unfold x in *; lia | by apply Z.divide_factor_r].
Qed.

Lemma new_chunk_ok pool m s R C S :
  pool_rep pool m C S -> pl_free_list pool = 0 -> ps_rep s R -> C ⊆ R ->
  exists ok pool' m' s', new_chunk pool m s = Ok (ok, pool', m', s') /\
    (ok = false /\ pool' = pool /\ m' = m /\ ps_rep s' R \/
     ok = true /\ exists c n cs, R ## pages c n /\ ps_rep s' (R ∪ pages c n) /\
       C ∪ pages c n = chunk_pages cs /\ pool_inv pool' m' cs [] S /\ sizeof_T <= pl_remain_bytes pool' /\
       forall a, a / PAGE_SIZE ∉ pages c n -> m' !! a = m !! a).
Proof.
  intros (cs & fl & Hi & ->) Hfl Hs HCR. unfold new_chunk.
  destruct chunk_page_num_ok as [Hn Hroom].
  assert (Hn64 : 0 <= chunk_page_num < W64) by lia.
  destruct (ps_alloc_ok s R chunk_page_num Hs Hn64) as (ptr & s' & -> & Hp). rewrite bind_Ok_l. cbn iota beta.
  destruct Hp as [[-> Hs'] | (c & -> & _ & Hc & Hl & Hd & Hs')].
  { rewrite Z.eqb_refl. do 4 eexists. split; [done |]. by left. }
  assert (Htop : (c + chunk_page_num) * 4096 < 144115188075855872).
  { pose proof PAGE_LIMIT_val as Hv. destruct use_57bit_va; lia. }
  rewrite (proj2 (Z.eqb_neq _ 0)) by (unfold PAGE_SIZE; lia).
  rewrite store_nonnull, bind_Ok_l by (unfold PAGE_SIZE; lia).
  rewrite store_nonnull, bind_Ok_l by (unfold PAGE_SIZE; lia). cbn zeta.
  set (n := chunk_page_num) in *. set (m2 := <[c * PAGE_SIZE + 8 := n]> (<[c * PAGE_SIZE := pl_chunk_list pool]> m)).
  pose proof pt_shift as Hk.
  assert (Hcl : c < PAGE_LIMIT) by lia.
  destruct (aligned_data_ok c Hc Hcl) as [[Hd1 Hd2] Hdal].
  set (data := aligned_data_start (c * PAGE_SIZE)) in *.
  unfold sizeof_ChunkHeader, PAGE_SIZE in Hd1, Hd2, Hroom. pose proof pt_size as Hsz.
  assert (Hrem : u64 (u64 (Z.shiftl n PAGE_SHIFT) - u64 (data - c * PAGE_SIZE)) = (c + n) * 4096 - data).
  { rewrite page_shift_spec. unfold PAGE_SIZE. rewrite (u64_id (n * 4096)), (u64_id (data - _)) by lia. rewrite u64_id; lia. }
  rewrite Hrem. do 4 eexists. split; [done |]. right. split; [done |].
  exists c, n, ((c, n) :: cs). split; [done |]. split; [done |]. split; [cbn [chunk_pages]; clear; set_point |].
  assert (Hnew : pages c n ## chunk_pages cs) by (clear -Hd HCR; set_point).
  assert (Hsame : forall a, a / PAGE_SIZE ∉ pages c n -> m2 !! a = m !! a).
  { intros a Ha. rewrite elem_of_pages in Ha. unfold m2. rewrite !lookup_insert_ne; [done | |]; intros <-; apply Ha; unfold PAGE_SIZE.
    - rewrite Z.div_mul by done. lia.
    - rewrite Z.div_add_l by lia. change (8 / 4096) with 0. lia. }
  destruct fl as [| a fl]; [| destruct (po_free _ _ _ _ _ Hi) as (E & Hne & _); rewrite Hfl in E; congruence].
  assert (Hin : forall a, a ∈ S \/ a ∈ [] -> in_chunk cs a sizeof_T) by (intros a Ha; by apply Hi).
  split; [| split; [cbn [pl_remain_bytes]; lia | exact Hsame]].
  constructor; cbn [pl_chunk_list pl_free_list pl_remain_bytes pl_data].
  - split; [done |]. split; [done |]. split; [lia |]. split; [lia |]. split; [done |].
    split; [apply lookup_insert_eq |]. exists (pl_chunk_list pool).
    split; [unfold m2; rewrite lookup_insert_ne by lia; apply lookup_insert_eq |].
    eapply chunk_chain_ext; [| apply Hi]. intros a (c' & n' & Hc' & Ha). apply Hsame.
    pose proof (chunk_chain_pos _ _ _ _ _ (po_chunks _ _ _ _ _ Hi) Hc') as (? & ? & _).
    assert (a / PAGE_SIZE = c') as ->.
    { unfold PAGE_SIZE. destruct Ha as [-> | ->]; unfold PAGE_SIZE; [by apply Z.div_mul |].
      rewrite Z.div_add_l by lia. change (8 / 4096) with 0. lia. }
    intros Hbad. apply elem_of_disjoint in Hnew. apply (Hnew c' Hbad), (chunk_pages_in c' n' cs Hc'), elem_of_pages. lia.
  - done.
  - constructor.
  - intros a _ Ha. by apply not_elem_of_nil in Ha.
  - intros a Ha. destruct (po_slot _ _ _ _ _ Hi a Ha) as [? (c' & n' & Hc' & ?)]. split; [done |].
    exists c', n'. split; [apply elem_of_cons; by right | done].
  - apply Hi.
  - lia.
  - intros _. split; [done |]. split.
    + exists c, n. split; [apply elem_of_cons; by left |]. unfold sizeof_ChunkHeader, PAGE_SIZE. lia.
    + intros a Ha. eapply (new_chunk_apart cs c n); [by apply Hin | apply slot_pos | lia | done | unfold PAGE_SIZE; lia | unfold PAGE_SIZE; lia].
Qed.

(** What [TryNew] promises. *)
Definition try_new_post (m : mem) (R C S : gset Z) (obj : Z) (pool' : ObjectPool) (m' : mem) (s' : P) : Prop :=
  obj = 0 /\ m' = m /\ pool_rep pool' m' C S /\ ps_rep s' R \/
  obj <> 0 /\ (obj ∉ S) /\ exists X, R ## X /\ ps_rep s' (R ∪ X) /\ pool_rep pool' m' (C ∪ X) ({[obj]} ∪ S) /\
    forall a, a / PAGE_SIZE ∉ X -> m' !! a = m !! a.

Lemma TryNew_ok pool m s R C S :
  pool_rep pool m C S -> ps_rep s R -> C ⊆ R ->
  exists obj pool' m' s', TryNew pool m s = Ok (obj, pool', m', s') /\ try_new_post m R C S obj pool' m' s'.
Proof.
  intros Hrep Hs HCR. unfold TryNew. pose proof Hrep as (cs & fl & Hi & ->).
  destruct (Z.eqb_spec (pl_free_list pool) 0) as [Hfl | Hfl]; cbn [negb].
  - assert (fl = []) as ->.
    { destruct fl as [| a fl]; [done |]. destruct (po_free _ _ _ _ _ Hi) as (E & ? & _). congruence. }
    destruct (Z.ltb_spec (pl_remain_bytes pool) sizeof_T) as [Hlow | Henough].
    + destruct (new_chunk_ok pool m s R _ S Hrep Hfl Hs HCR) as (ok & pool1 & m1 & s1 & -> & Hor).
      rewrite bind_Ok_l. cbn iota beta.
      destruct Hor as [(-> & -> & -> & Hs1) | (-> & c & n & cs1 & Hd & Hs1 & HC & Hi1 & Hle & Hm)]; cbn [negb].
      * do 4 eexists. split; [done |]. by left.
      * destruct (bump pool1) as [obj pool2] eqn:Hb. destruct (bump_ok _ _ _ _ _ _ Hi1 Hle Hb) as (Ho & HoS & Hi2).
        do 4 eexists. split; [done |]. right. split; [done |]. split; [done |]. exists (pages c n).
        split; [done |]. split; [done |]. split; [by exists cs1, [] | done].
    + destruct (bump pool) as [obj pool2] eqn:Hb. destruct (bump_ok _ _ _ _ _ _ Hi Henough Hb) as (Ho & HoS & Hi2).
      do 4 eexists. split; [done |]. right. split; [done |]. split; [done |]. exists ∅.
      rewrite !union_empty_r_L. split; [clear; set_point |]. split; [done |]. split; [by exists cs, [] | done].
  - destruct fl as [| a fl]; [by destruct (po_free _ _ _ _ _ Hi) |].
    destruct (po_free _ _ _ _ _ Hi) as (E & Ha0 & next & Hnx & Hch). rewrite E in *.
    rewrite (load_Some m a next), bind_Ok_l by done.
    do 4 eexists. split; [done |]. right. split; [done |].
    pose proof (po_nodup _ _ _ _ _ Hi) as [Hna Hnd]%NoDup_cons.
    assert (HaS : a ∉ S) by (intros HS; apply (po_live _ _ _ _ _ Hi a HS), elem_of_cons; by left).
    split; [done |]. exists ∅. rewrite !union_empty_r_L. split; [clear; set_point |]. split; [done |].
    split; [| done]. exists cs, fl. split; [| done].
    assert (Hset : forall b, b ∈ {[a]} ∪ S \/ b ∈ fl -> b ∈ S \/ b ∈ a :: fl).
    { intros b [[->%elem_of_singleton | ?]%elem_of_union | ?]; rewrite elem_of_cons; tauto. }
    destruct Hi. constructor; cbn [pl_chunk_list pl_free_list pl_remain_bytes pl_data]; try done.
    + intros b [->%elem_of_singleton | Hb]%elem_of_union; [done |]. intros Hf. apply (po_live0 b Hb), elem_of_cons. by right.
    + intros b Hb. by apply po_slot0, Hset.
    + intros b c Hb Hc. apply po_apart0; by apply Hset.
    + intros Hle. destruct (po_bump0 Hle) as (? & ? & Hap). split; [done |]. split; [done |]. intros b Hb. by apply Hap, Hset.
Qed.

Lemma Delete_ok pool m C S a :
  pool_rep pool m C S -> a ∈ S ->
  exists pool' m', Delete pool m a = Ok (pool', m') /\ pool_rep pool' m' C (S ∖ {[a]}) /\
    a / PAGE_SIZE ∈ C /\ forall b, b <> a -> m' !! b = m !! b.
Proof.
  intros Hrep Ha. destruct (pool_live _ _ _ _ _ Hrep Ha) as (Ha0 & _ & HaC & _).
  destruct Hrep as (cs & fl & Hi & ->). unfold Delete. rewrite store_nonnull, bind_Ok_l by done.
  do 2 eexists. split; [done |]. split; [| split; [done | intros b Hb; by apply lookup_insert_ne]].
  exists cs, (a :: fl). split; [| done].
  assert (Hset : forall b, b ∈ S ∖ {[a]} \/ b ∈ a :: fl -> b ∈ S \/ b ∈ fl).
  { intros b [[? _]%elem_of_difference | [-> | ?]%elem_of_cons]; tauto. }
  pose proof (po_live _ _ _ _ _ Hi a Ha) as Hna.
  destruct (po_slot _ _ _ _ _ Hi a (or_introl Ha)) as [_ Hin].
  pose proof (slot_not_header _ _ _ _ _ (po_chunks _ _ _ _ _ Hi) Hin slot_pos) as Hnh.
  destruct Hi. constructor; cbn [pl_chunk_list pl_free_list pl_remain_bytes pl_data]; try done.
  - eapply chunk_chain_ext; [| done]. intros b Hb. apply lookup_insert_ne. intros ->. done.
  - split; [done |]. split; [done |]. exists (pl_free_list pool). split; [apply lookup_insert_eq |].
    eapply free_chain_ext; [| done]. intros b Hb. apply lookup_insert_ne. intros ->. done.
  - by apply NoDup_cons.
  - intros b [Hb Hne]%elem_of_difference [-> | Hf]%elem_of_cons; [| by apply (po_live0 b Hb)].
    by apply Hne, elem_of_singleton.
  - intros b Hb. by apply po_slot0, Hset.
  - intros b c Hb Hc. apply po_apart0; by apply Hset.
  - intros Hle. destruct (po_bump0 Hle) as (? & ? & Hap). split; [done |]. split; [done |]. intros b Hb. by apply Hap, Hset.
Qed.

Lemma free_chunks_ok fuel m s R cur cs :
  chunk_chain m cur cs -> (length cs <= fuel)%nat -> ps_rep s R -> chunk_pages cs ⊆ R ->
  exists s', free_chunks fuel m s cur = Ok s' /\ ps_rep s' (R ∖ chunk_pages cs).
Proof.
  revert fuel s R cur. induction cs as [| [c n] cs IH]; intros fuel s R cur Hch Hlen Hs Hsub.
  - simpl in Hch. subst cur. exists s. split; [by destruct fuel |]. cbn [chunk_pages]. by rewrite difference_empty_L.
  - destruct Hch as (-> & Hc & Hn & Hl & Hd & Hw & next & Hnx & Hch). cbn [chunk_pages] in *.
    destruct fuel as [| fuel]; [simpl in Hlen; lia |]. cbn [free_chunks].
    rewrite (proj2 (Z.eqb_neq _ 0)) by (unfold PAGE_SIZE; lia).
    assert (Hnz : c * PAGE_SIZE <> 0 /\ c * PAGE_SIZE + 8 <> 0) by (unfold PAGE_SIZE; lia).
    destruct Hnz as [Hz1 Hz2].
    rewrite (load_Some m _ next Hz1 Hnx), bind_Ok_l, (load_Some m _ n Hz2 Hw), bind_Ok_l.
    destruct (ps_free_ok s R c n Hs Hc Hn Hl) as (s1 & -> & Hs1); [clear -Hsub; set_point |]. rewrite bind_Ok_l.
    destruct (IH fuel s1 _ next Hch ltac:(simpl in Hlen; lia) Hs1) as (s' & Heq & Hs').
    { clear -Hsub Hd. set_point. }
    exists s'. split; [exact Heq |]. rewrite <- difference_difference_l_L. exact Hs'.
Qed.

(** The chunk headers are distinct words of memory. *)
Lemma chunk_chain_length m cur cs : chunk_chain m cur cs -> (length cs <= size m)%nat.
Proof.
  intros Hch. assert ((list_to_set ((fun p => p.1 * PAGE_SIZE) <$> cs) : gset Z) ⊆ dom m /\
    size (list_to_set ((fun p => p.1 * PAGE_SIZE) <$> cs) : gset Z) = length cs) as [Hsub Hsz].
  { revert cur Hch. induction cs as [| [c n] cs IH]; intros cur Hch; [split; [clear; set_solver | done] |].
    destruct Hch as (_ & Hc & Hn & _ & Hd & _ & next & Hnx & Hch). destruct (IH next Hch) as [Hsub Hsz].
    cbn [fmap list_fmap list_to_set fst]. split.
    - apply union_subseteq. split; [| done]. apply singleton_subseteq_l, elem_of_dom. by eexists.
    - rewrite size_union, size_singleton, Hsz; [done |]. apply disjoint_singleton_l.
      intros [[c' n'] [E Hi]]%elem_of_list_to_set%list_elem_of_fmap. simpl in E.
      assert (c = c') as <- by (unfold PAGE_SIZE in E; lia).
      destruct (chunk_chain_pos _ _ _ _ _ Hch Hi) as (_ & Hn' & _).
      apply elem_of_disjoint in Hd. apply (Hd c); [apply elem_of_pages; lia |].
      apply (chunk_pages_in c n' cs Hi), elem_of_pages. lia. }
  rewrite <- Hsz. rewrite <- size_dom. by apply subseteq_size.
Qed.

Lemma ReleaseMemory_ok pool m s R C S :
  pool_rep pool m C S -> ps_rep s R -> C ⊆ R ->
  exists pool' s', ReleaseMemory pool m s = Ok (pool', s') /\ pool_rep pool' m ∅ ∅ /\ ps_rep s' (R ∖ C).
Proof.
  intros (cs & fl & Hi & ->) Hs Hsub. unfold ReleaseMemory.
  destruct (free_chunks_ok (size m) m s R (pl_chunk_list pool) cs (po_chunks _ _ _ _ _ Hi)) as (s' & -> & Hs');
    [by eapply chunk_chain_length, Hi | done | done |].
  rewrite bind_Ok_l. do 2 eexists. split; [done |]. split; [apply pool_start | done].
Qed.

(** C34: an object pool is a set of live objects.  [TryNew] returns null, only when
    the page source has no pages, with nothing changed, or an aligned slot of
    [sizeof(T)] bytes on the pool's own pages that overlaps no live object, and
    takes at most one chunk of fresh pages; [Delete] ends exactly one object and
    writes one word, on the pool's pages; [ReleaseMemory] gives back exactly the
    pool's pages and leaves it as constructed. *)
Theorem ObjectPool_refines_set pool m s R C S :
  pool_rep pool m C S -> ps_rep s R -> C ⊆ R ->
  (exists obj pool' m' s', TryNew pool m s = Ok (obj, pool', m', s') /\ try_new_post m R C S obj pool' m' s' /\
     (obj <> 0 -> (alignof_T | obj) /\ forall b, b ∈ S -> apart obj sizeof_T b sizeof_T)) /\
  (forall a, a ∈ S -> exists pool' m', Delete pool m a = Ok (pool', m') /\ pool_rep pool' m' C (S ∖ {[a]}) /\
     a / PAGE_SIZE ∈ C /\ forall b, b <> a -> m' !! b = m !! b) /\
  (exists pool' s', ReleaseMemory pool m s = Ok (pool', s') /\ pool_rep pool' m ∅ ∅ /\ ps_rep s' (R ∖ C)).
Proof.
  intros Hrep Hs HCR. split; [| split; [intros a; by apply Delete_ok | by apply (ReleaseMemory_ok pool m s R C S)]].
  destruct (TryNew_ok pool m s R C S Hrep Hs HCR) as (obj & pool' & m' & s' & Heq & Hpost).
  exists obj, pool', m', s'. split; [done |]. split; [done |]. intros Ho.
  destruct Hpost as [[? _] | (_ & HoS & X & _ & _ & Hrep' & _)]; [done |].
  assert (Hin : obj ∈ {[obj]} ∪ S) by (apply elem_of_union_l, elem_of_singleton; reflexivity).
  destruct (pool_live pool' m' (C ∪ X) ({[obj]} ∪ S) obj Hrep' Hin) as (_ & Hal & _ & Hap).
  split; [done |]. intros b Hb. apply Hap; [by apply elem_of_union_r | by intros ->].
Qed.
End Laws.

(** ** The two instances *)

(** [sizeof(Span)] is one cache line (span.h), [sizeof(RadixNode)] one page. *)
Definition span_type : PoolType := {| sizeof_T := 64; align_shift := 6 |}.
Definition node_type : PoolType := {| sizeof_T := 4096; align_shift := 12 |}.

Lemma span_type_laws : @PoolTypeLaws span_type.
Proof. split; simpl; [lia | lia | by exists 1]. Qed.
Lemma node_type_laws : @PoolTypeLaws node_type.
Proof. split; simpl; [lia | lia | by exists 1]. Qed.

(** A page counter as the source, for evaluating the pool. *)
Definition bump_source `{Build} : PageSource Z := {|
  ps_SystemAlloc := bump_pages;
  ps_SystemFree _ _ w := Ok w;
|}.

Definition bump_source_laws `{Build} : @PageSourceLaws Z _ bump_source.
Proof.
  refine (@Build_PageSourceLaws Z _ bump_source (fun w R => 1 <= w /\ forall p, p ∈ R -> p < w) _ _); simpl.
  - intros w R n [Hw HR] Hn. destruct (bump_pages_ok n w Hw ltac:(lia)) as (p & w' & -> & Hle & Hp).
    exists p, w'. split; [done |]. destruct Hp as [-> | (-> & _ & _ & Hn0 & -> & Hlim)]; [left | right].
    + split; [done |]. split; [lia |]. intros p Hp%HR. lia.
    + exists w. split; [done |]. split; [lia |]. split; [lia |]. split; [lia |]. split.
      * apply elem_of_disjoint. intros p Hp%HR Hin%elem_of_pages. lia.
      * split; [lia |]. intros p [Hp%HR | Hp%elem_of_pages]%elem_of_union; lia.
  - intros w R pid n [Hw HR] _ _ _ _. exists w. split; [done |]. split; [done |].
    intros p [Hp _]%elem_of_difference. by apply HR.
Defined.

Section PoolWitness.
#[local] Existing Instance release_build.
#[local] Existing Instance bump_source.
#[local] Existing Instance bump_source_laws.
#[local] Existing Instance span_type.
#[local] Existing Instance span_type_laws.

(** From the empty pool: the first object is the second cache line of the first chunk. *)
Lemma ObjectPool_refines_set_witness :
  match TryNew ObjectPool_new ∅ 16 with Ok (obj, _, _, _) => obj = 16 * 4096 + 64 | _ => False end /\
  (exists obj pool' m' s', TryNew ObjectPool_new ∅ 16 = Ok (obj, pool', m', s') /\
     try_new_post ∅ ∅ ∅ ∅ obj pool' m' s' /\
     (obj <> 0 -> (alignof_T | obj) /\ forall b, b ∈ (∅ : gset Z) -> apart obj sizeof_T b sizeof_T)) /\
  (forall a, a ∈ (∅ : gset Z) -> exists pool' m', Delete ObjectPool_new ∅ a = Ok (pool', m') /\
     pool_rep pool' m' ∅ (∅ ∖ {[a]}) /\ a / PAGE_SIZE ∈ (∅ : gset Z) /\ forall b, b <> a -> m' !! b = (∅ : mem) !! b) /\
  (exists pool' s', ReleaseMemory ObjectPool_new ∅ 16 = Ok (pool', s') /\ pool_rep pool' ∅ ∅ ∅ /\
     ps_rep s' (∅ ∖ (∅ : gset Z))).
Proof.
  split; [by vm_compute |].
  apply (ObjectPool_refines_set ObjectPool_new ∅ 16 ∅ ∅ ∅ (pool_start ∅)); [| done].
  split; [lia | clear; set_solver].
Defined.
End PoolWitness.
