(* ===== verification/PageMap.v ===== *)
(** * The page map (include/ammalloc/page_cache.h, src/page_cache.cpp, [PageMap])

    A four-level radix tree from page numbers to Span descriptors.  The root is
    static storage, inner nodes come from a pool and are never freed while the
    map is in use.  The theorems show that the tree, at the level of node
    addresses and child slots, is a finite map from page numbers to descriptor
    addresses, and that growing it never disturbs a mapping.  Every function
    here runs under the structure or shard lock, except [GetSpan], which only
    reads. *)
From S2P Require Import Prelude Config SizeClass Common Span SpanList Backing.
Open Scope Z_scope.

(** ** State *)

(** [root_] is null or the static root; a child slot that was never written holds null. *)
Record PageMap := mkPageMap {
  pm_root : bool;
  pm_root_children : gmap Z Z;
  pm_nodes : gmap Z (gmap Z Z)
}.

Definition PageMap_init : PageMap := mkPageMap false ∅ ∅.

Definition root_child (t : PageMap) (i : Z) : Z := default 0 (pm_root_children t !! i).

(** [p->children[i].load()] and [.store(v)] *)
Definition node_child (t : PageMap) (p i : Z) : outcome Z :=
  match pm_nodes t !! p with
  | Some c => Ok (default 0 (c !! i))
  | None => UB "dangling RadixNode"
  end.
Definition set_node_child (t : PageMap) (p i v : Z) : outcome PageMap :=
  match pm_nodes t !! p with
  | Some c => Ok (mkPageMap (pm_root t) (pm_root_children t) (<[p := <[i := v]> c]> (pm_nodes t)))
  | None => UB "dangling RadixNode"
  end.
Definition set_root_child (t : PageMap) (i v : Z) : PageMap :=
  mkPageMap (pm_root t) (<[i := v]> (pm_root_children t)) (pm_nodes t).

(** The [RadixNode] constructor, run by the pool in the new slot. *)
Definition construct_node (t : PageMap) (p : Z) : PageMap :=
  mkPageMap (pm_root t) (pm_root_children t) (<[p := ∅]> (pm_nodes t)).

(** The index of each level. *)
Definition idx0 (page_id : Z) : Z := Z.shiftr page_id (RADIX_NODE_BITS * 3).
Definition idx1 (page_id : Z) : Z := Z.land (Z.shiftr page_id (RADIX_NODE_BITS * 2)) RADIX_MASK.
Definition idx2 (page_id : Z) : Z := Z.land (Z.shiftr page_id RADIX_NODE_BITS) RADIX_MASK.
Definition idx3 (page_id : Z) : Z := Z.land page_id RADIX_MASK.

(** ** Operations *)

Definition GetSpan `{Build} (t : PageMap) (page_id : Z) : outcome Z :=
  if negb (pm_root t) then Ok 0
  else if RADIX_ROOT_SIZE <=? idx0 page_id then Ok 0
  else
    let p1 := root_child t (idx0 page_id) in
    if p1 =? 0 then Ok 0
    else p2 ← node_child t p1 (idx1 page_id);
      if p2 =? 0 then Ok 0
      else p3 ← node_child t p2 (idx2 page_id);
        if p3 =? 0 then Ok 0
        else node_child t p3 (idx3 page_id).

(** The overload on addresses. *)
Definition GetSpanOfPtr `{Build} (t : PageMap) (ptr : Z) : outcome Z :=
  GetSpan t (Z.shiftr ptr PAGE_SHIFT).

Definition HasPath `{Build} (t : PageMap) (page_id : Z) : outcome bool :=
  if negb (pm_root t) then Ok false
  else if RADIX_ROOT_SIZE <=? idx0 page_id then Ok false
  else
    let p1 := root_child t (idx0 page_id) in
    if p1 =? 0 then Ok false
    else p2 ← node_child t p1 (idx1 page_id);
      if p2 =? 0 then Ok false
      else p3 ← node_child t p2 (idx2 page_id);
        Ok (negb (p3 =? 0)).

Section Growth.
Context `{Build} {W : Type} `{Backing W}.

(** The new node is constructed before it is published. *)
Definition TryNewRadixNode (t : PageMap) (w : W) : outcome (Z * PageMap * W) :=
  '(p, w) ← bk_node_TryNew w;
  Ok (p, if p =? 0 then t else construct_node t p, w).

(** One level of [EnsurePathLocked]: loads child [i] of [p], attaching a new
    node when it is null; null means the allocation failed. *)
Definition ensure_child (t : PageMap) (w : W) (p i : Z) : outcome (Z * PageMap * W) :=
  c ← node_child t p i;
  if c =? 0
  then '(c, t, w) ← TryNewRadixNode t w;
       if c =? 0 then Ok (0, t, w)
       else t ← set_node_child t p i c; Ok (c, t, w)
  else Ok (c, t, w).

Definition ensure_root_child (t : PageMap) (w : W) (i : Z) : outcome (Z * PageMap * W) :=
  let c := root_child t i in
  if c =? 0
  then '(c, t, w) ← TryNewRadixNode t w;
       if c =? 0 then Ok (0, t, w) else Ok (c, set_root_child t i c, w)
  else Ok (c, t, w).

Definition EnsurePathLocked (t : PageMap) (w : W) (page_id : Z)
    : outcome (bool * PageMap * W) :=
  if RADIX_ROOT_SIZE <=? idx0 page_id then Ok (false, t, w)
  else
    let t := if pm_root t then t else mkPageMap true ∅ (pm_nodes t) in
    '(p1, t, w) ← ensure_root_child t w (idx0 page_id);
    if p1 =? 0 then Ok (false, t, w)
    else '(p2, t, w) ← ensure_child t w p1 (idx1 page_id);
      if p2 =? 0 then Ok (false, t, w)
      else '(p3, t, w) ← ensure_child t w p2 (idx2 page_id);
        Ok (negb (p3 =? 0), t, w).

Fixpoint ensure_loop (fuel : nat) (t : PageMap) (w : W) (current remaining : Z)
    : outcome (bool * PageMap * W) :=
  if remaining =? 0 then Ok (true, t, w)
  else match fuel with
  | O => NoFuel
  | S fuel' =>
      if RADIX_ROOT_SIZE <=? idx0 current then Ok (false, t, w)
      else
        let step := Z.min remaining (RADIX_NODE_SIZE - idx3 current) in
        has ← HasPath t current;
        '(ok, t, w) ← (if has : bool then Ok (true, t, w) else EnsurePathLocked t w current);
        if ok : bool then ensure_loop fuel' t w (u64 (current + step)) (remaining - step)
        else Ok (false, t, w)
  end.

Definition EnsureRange (t : PageMap) (w : W) (start_page_id page_num : Z)
    : outcome (bool * PageMap * W) :=
  if page_num =? 0 then Ok (true, t, w)
  else if (1 <? page_num) && (SIZE_MAX - (page_num - 1) <? start_page_id)
  then Ok (false, t, w)
  else ensure_loop (Z.to_nat page_num) t w start_page_id page_num.

(** [PageMap::Reset]. *)
Definition PageMap_Reset (t : PageMap) (w : W) : outcome (PageMap * W) :=
  w ← bk_node_ReleaseMemory w;
  Ok (mkPageMap false (pm_root_children t) ∅, w).
End Growth.

(** [for (i = 0; i < count; ++i) p->children[i0 + i].store(v)] *)
Definition store_children (t : PageMap) (p i0 count v : Z) : outcome PageMap :=
  for_range 0 count (fun i t => set_node_child t p (i0 + i) v) t.

Fixpoint set_loop `{Build} (fuel : nat) (t : PageMap) (span current remaining : Z)
    : outcome PageMap :=
  if remaining =? 0 then Ok t
  else match fuel with
  | O => NoFuel
  | S fuel' =>
      if RADIX_ROOT_SIZE <=? idx0 current then Abort "PageMap::SetSpan page ID is out of range"
      else
        let p1 := root_child t (idx0 current) in
        p2 ← (if p1 =? 0 then Ok 0 else node_child t p1 (idx1 current));
        p3 ← (if p2 =? 0 then Ok 0 else node_child t p2 (idx2 current));
        if p3 =? 0 then Abort "PageMap::SetSpan path was not prepared"
        else
          let count := Z.min remaining (RADIX_NODE_SIZE - idx3 current) in
          t ← store_children t p3 (idx3 current) count span;
          set_loop fuel' t span (u64 (current + count)) (remaining - count)
  end.

Definition SetSpan `{Build} (t : PageMap) (st : spans) (span : Z) : outcome PageMap :=
  if span =? 0 then Abort "PageMap::SetSpan received invalid Span"
  else
    s ← get_span st span;
    if page_num s =? 0 then Abort "PageMap::SetSpan received invalid Span"
    else if negb (pm_root t) then Abort "PageMap::SetSpan path was not prepared"
    else set_loop (Z.to_nat (page_num s)) t span (start_page_idx s) (page_num s).

(** The distance to the next subtree boundary: [coverage - (id & (coverage - 1))]. *)
Definition skip_to (coverage page_id : Z) : Z := coverage - Z.land page_id (coverage - 1).

Fixpoint clear_loop `{Build} (fuel : nat) (t : PageMap) (cur remaining : Z) : outcome PageMap :=
  if remaining =? 0 then Ok t
  else match fuel with
  | O => NoFuel
  | S fuel' =>
      let continue t step := clear_loop fuel' t (u64 (cur + step)) (remaining - step) in
      if RADIX_ROOT_SIZE <=? idx0 cur then Ok t
      else
        let p1 := root_child t (idx0 cur) in
        if p1 =? 0
        then continue t (Z.min remaining (skip_to (Z.shiftl 1 (RADIX_NODE_BITS * 3)) cur))
        else p2 ← node_child t p1 (idx1 cur);
          if p2 =? 0
          then continue t (Z.min remaining (skip_to (Z.shiftl 1 (RADIX_NODE_BITS * 2)) cur))
          else p3 ← node_child t p2 (idx2 cur);
            if p3 =? 0
            then continue t (Z.min remaining (skip_to (Z.shiftl 1 RADIX_NODE_BITS) cur))
            else
              let cnt := Z.min remaining (RADIX_NODE_SIZE - idx3 cur) in
              t ← store_children t p3 (idx3 cur) cnt 0;
              continue t cnt
  end.

Definition ClearRange `{Build} (t : PageMap) (start_page_id page_num : Z) : outcome PageMap :=
  if negb (pm_root t) then Ok t
  else clear_loop (Z.to_nat page_num) t start_page_id page_num.

(** ** Paths *)

(** Child [i] of [p], null when [p] is null. *)
Definition child0 (t : PageMap) (p i : Z) : Z :=
  match pm_nodes t !! p with Some c => default 0 (c !! i) | None => 0 end.

(** What the slots along a path of child indices lead to: nodes for lengths one
    to three, the Span pointer of a leaf for length four. *)
Definition node_at (t : PageMap) (path : list Z) : Z :=
  match path with
  | [] => 0
  | i :: path' => foldl (child0 t) (root_child t i) path'
  end.

Definition path3 (page : Z) : list Z := [idx0 page; idx1 page; idx2 page].
Definition path4 (page : Z) : list Z := path3 page ++ [idx3 page].

Definition in_range `{Build} (page : Z) : bool := idx0 page <? RADIX_ROOT_SIZE.

(** The map the tree stands for. *)
Definition pm_lookup `{Build} (t : PageMap) (page : Z) : Z :=
  if pm_root t && in_range page then node_at t (path4 page) else 0.

Definition has_path `{Build} (t : PageMap) (page : Z) : bool :=
  pm_root t && in_range page && negb (node_at t (path3 page) =? 0).

Definition node_path (q : list Z) : Prop := (1 <= length q <= 3)%nat.

(** Every reachable node is live, and no two slots hold the same node. *)
Record radix_ok (t : PageMap) (N : gset Z) : Prop := {
  rx_dom : dom (pm_nodes t) = N;
  rx_null : 0 ∉ N;
  rx_live : pm_root t = true ->
    forall q, node_path q -> node_at t q <> 0 -> node_at t q ∈ N;
  rx_inj : pm_root t = true ->
    forall q q', node_path q -> node_path q' -> node_at t q <> 0 ->
      node_at t q = node_at t q' -> q = q';
}.

Lemma node_at_snoc t q j : q <> [] -> node_at t (q ++ [j]) = child0 t (node_at t q) j.
Proof. destruct q as [| i q]; [done |]. intros _. simpl. by rewrite foldl_app. Qed.

Lemma node_child_ok t N p i :
  radix_ok t N -> p ∈ N -> node_child t p i = Ok (child0 t p i).
Proof.
  intros Ht Hp. rewrite <- (rx_dom _ _ Ht), elem_of_dom in Hp. destruct Hp as [c Hc].
  unfold node_child, child0. by rewrite Hc.
Qed.

Lemma child0_null t N i : radix_ok t N -> child0 t 0 i = 0.
Proof.
  intros Ht. unfold child0. assert (H0 : pm_nodes t !! 0 = None).
  { apply not_elem_of_dom. rewrite (rx_dom _ _ Ht). apply Ht. }
  by rewrite H0.
Qed.

(** *** Index arithmetic *)

Lemma idx0_eq p : idx0 p = p / 134217728.
Proof. unfold idx0, RADIX_NODE_BITS. rewrite Z.shiftr_div_pow2 by lia. reflexivity. Qed.
Lemma mask_eq x : Z.land x RADIX_MASK = x mod 512.
Proof. rewrite RADIX_MASK_val. change 511 with (Z.ones 9). by rewrite Z.land_ones by lia. Qed.
Lemma idx1_eq p : idx1 p = (p / 262144) mod 512.
Proof. unfold idx1, RADIX_NODE_BITS. rewrite mask_eq, Z.shiftr_div_pow2 by lia. reflexivity. Qed.
Lemma idx2_eq p : idx2 p = (p / 512) mod 512.
Proof. unfold idx2, RADIX_NODE_BITS. rewrite mask_eq, Z.shiftr_div_pow2 by lia. reflexivity. Qed.
Lemma idx3_eq p : idx3 p = p mod 512.
Proof. apply mask_eq. Qed.

Ltac idx_lia :=
  rewrite ?idx0_eq, ?idx1_eq, ?idx2_eq, ?idx3_eq in *; Z.div_mod_to_equations; lia.

Lemma path4_inj p p' : path4 p = path4 p' -> p = p'.
Proof. unfold path4, path3. simpl. intros Heq. injection Heq as H0 H1 H2 H3. idx_lia. Qed.

Lemma RADIX_ROOT_SIZE_val `{Build} : RADIX_ROOT_SIZE = PAGE_LIMIT / 134217728.
Proof.
  unfold RADIX_ROOT_SIZE, RADIX_ROOT_BITS, PAGE_LIMIT, PAGE_ID_BITS, VA_BITS, PAGE_SHIFT,
    RADIX_NODE_BITS. by destruct use_57bit_va.
Qed.

(** The root covers exactly the page numbers below [PAGE_LIMIT]. *)
Lemma in_range_spec `{Build} p : 0 <= p -> in_range p = (p <? PAGE_LIMIT).
Proof.
  intros Hp. unfold in_range. rewrite idx0_eq, RADIX_ROOT_SIZE_val, PAGE_LIMIT_val.
  apply Bool.eq_iff_eq_true. rewrite !Z.ltb_lt. destruct use_57bit_va; Z.div_mod_to_equations; lia.
Qed.

(** Pages of one leaf node. *)
Lemma path3_of_leaf p p' : p / 512 = p' / 512 -> path3 p = path3 p'.
Proof.
  intros Heq. unfold path3. rewrite !idx0_eq, !idx1_eq, !idx2_eq, Heq.
  change 134217728 with (512 * 262144). change 262144 with (512 * 512) at 2 4.
  by rewrite <- !Z.div_div, Heq by lia.
Qed.

Lemma path3_same p i :
  idx3 p + i < 512 -> 0 <= idx3 p + i -> path3 (p + i) = path3 p /\ idx3 (p + i) = idx3 p + i.
Proof.
  rewrite !idx3_eq. intros Hlt Hge. split; [apply path3_of_leaf |]; Z.div_mod_to_equations; lia.
Qed.

Lemma path3_shape p : node_path (path3 p).
Proof. split; simpl; lia. Qed.

(** *** Reading *)

Lemma walk_ok t N page :
  radix_ok t N -> pm_root t = true ->
  let p1 := root_child t (idx0 page) in
  let p2 := child0 t p1 (idx1 page) in
  let p3 := child0 t p2 (idx2 page) in
  node_at t (path3 page) = p3 /\ node_at t (path4 page) = child0 t p3 (idx3 page) /\
  (p1 <> 0 -> p1 ∈ N) /\ (p2 <> 0 -> p2 ∈ N) /\ (p3 <> 0 -> p3 ∈ N).
Proof.
  intros Ht Hr p1 p2 p3. split; [done |]. split; [done |].
  split_and!; intros Hp.
  - apply (rx_live _ _ Ht Hr [idx0 page]); [split; simpl; lia | done].
  - apply (rx_live _ _ Ht Hr [idx0 page; idx1 page]); [split; simpl; lia | done].
  - apply (rx_live _ _ Ht Hr (path3 page)); [apply path3_shape | done].
Qed.

Lemma GetSpan_ok `{Build} t N page : radix_ok t N -> GetSpan t page = Ok (pm_lookup t page).
Proof.
  intros Ht. unfold GetSpan, pm_lookup, in_range. destruct (pm_root t) eqn:Hr; [| done]. cbn [andb negb].
  rewrite Z.leb_antisym. destruct (idx0 page <? RADIX_ROOT_SIZE); [| done]. cbn [andb negb].
  destruct (walk_ok t N page Ht Hr) as (_ & Hq & H1 & H2 & H3). cbn zeta in *.
  rewrite Hq. pose proof (child0_null t N) as H0.
  destruct (Z.eqb_spec (root_child t (idx0 page)) 0) as [E1 | E1]; [by rewrite E1, !(H0 _ Ht) |]. rewrite (node_child_ok t N _ _ Ht (H1 E1)), bind_Ok_l.
  destruct (Z.eqb_spec (child0 t (root_child t (idx0 page)) (idx1 page)) 0) as [E2 | E2]; [by rewrite E2, !(H0 _ Ht) |]. rewrite (node_child_ok t N _ _ Ht (H2 E2)), bind_Ok_l.
  destruct (Z.eqb_spec (child0 t (child0 t (root_child t (idx0 page)) (idx1 page)) (idx2 page)) 0) as [E3 | E3]; [by rewrite E3, !(H0 _ Ht) |]. apply (node_child_ok t N _ _ Ht (H3 E3)).
Qed.

Lemma HasPath_ok `{Build} t N page : radix_ok t N -> HasPath t page = Ok (has_path t page).
Proof.
  intros Ht. unfold HasPath, has_path, in_range.
  destruct (pm_root t) eqn:Hr; [| done]. cbn [andb negb].
  rewrite Z.leb_antisym. destruct (idx0 page <? RADIX_ROOT_SIZE); [| done]. cbn [andb negb].
  destruct (walk_ok t N page Ht Hr) as (Hq & _ & H1 & H2 & H3). cbn zeta in *.
  rewrite Hq. pose proof (child0_null t N) as H0.
  destruct (Z.eqb_spec (root_child t (idx0 page)) 0) as [E1 | E1]; [by rewrite E1, !(H0 _ Ht) |].
  rewrite (node_child_ok t N _ _ Ht (H1 E1)), bind_Ok_l.
  destruct (Z.eqb_spec (child0 t (root_child t (idx0 page)) (idx1 page)) 0) as [E2 | E2];
    [by rewrite E2, !(H0 _ Ht) |].
  by rewrite (node_child_ok t N _ _ Ht (H2 E2)), bind_Ok_l.
Qed.

(** *** Writing leaves *)

(** The nodes and their links are unchanged; only leaf slots may differ. *)
Definition same_shape (t t' : PageMap) : Prop :=
  pm_root t' = pm_root t /\ dom (pm_nodes t') = dom (pm_nodes t) /\
  forall q, node_path q -> node_at t' q = node_at t q.

#[export] Instance same_shape_preorder : PreOrder same_shape.
Proof.
  split; [done |]. intros t1 t2 t3 (H1 & H2 & H3) (H4 & H5 & H6).
  split; [congruence |]. split; [congruence |]. intros q Hq. by rewrite H6, H3.
Qed.

Lemma same_shape_radix t t' N : same_shape t t' -> radix_ok t N -> radix_ok t' N.
Proof.
  intros (Hr & Hd & Hs) Ht. constructor.
  - rewrite Hd. apply Ht.
  - apply Ht.
  - intros Hroot q Hq. rewrite Hs by done. apply Ht; congruence.
  - intros Hroot q q' Hq Hq'. rewrite !Hs by done. apply Ht; congruence.
Qed.

Lemma same_shape_has_path `{Build} t t' page : same_shape t t' -> has_path t' page = has_path t page.
Proof. intros (Hr & _ & Hs). unfold has_path. by rewrite Hr, Hs by apply path3_shape. Qed.

Lemma set_node_child_ok t N p i v :
  radix_ok t N -> p ∈ N ->
  exists t', set_node_child t p i v = Ok t' /\ pm_root t' = pm_root t /\
    pm_root_children t' = pm_root_children t /\ dom (pm_nodes t') = dom (pm_nodes t) /\
    forall x k, child0 t' x k = if decide (x = p /\ k = i) then v else child0 t x k.
Proof.
  intros Ht Hp. rewrite <- (rx_dom _ _ Ht) in Hp. pose proof Hp as [c Hc]%elem_of_dom.
  unfold set_node_child. rewrite Hc. eexists. split; [done |]. simpl. split; [done |]. split; [done |].
  split; [rewrite dom_insert_L; set_solver |].
  intros x k. unfold child0. simpl. destruct (decide (x = p)) as [-> | Hx].
  - rewrite lookup_insert_eq, Hc. destruct (decide (k = i)) as [-> | Hk].
    + rewrite lookup_insert_eq. by rewrite decide_True.
    + rewrite lookup_insert_ne by done. rewrite decide_False; [done | tauto].
  - rewrite lookup_insert_ne by done. rewrite decide_False; [done | tauto].
Qed.

(** A store into a leaf node leaves every node path in place. *)
Lemma leaf_store t N q3 i v :
  radix_ok t N -> pm_root t = true -> length q3 = 3%nat -> node_at t q3 <> 0 ->
  exists t', set_node_child t (node_at t q3) i v = Ok t' /\ same_shape t t' /\
    forall q k, length q = 3%nat ->
      node_at t' (q ++ [k]) = if decide (q = q3 /\ k = i) then v else node_at t (q ++ [k]).
Proof.
  intros Ht Hr Hlen Hnz. assert (Hq3 : node_path q3) by (split; lia).
  pose proof (rx_live _ _ Ht Hr q3 Hq3 Hnz) as HN.
  destruct (set_node_child_ok t N (node_at t q3) i v Ht HN) as (t' & -> & Hr' & Hrc & Hd & Hc).
  exists t'. split; [done |].
  assert (Hs : forall q, node_path q -> node_at t' q = node_at t q).
  { intros q. induction q as [| k q0 IH] using rev_ind; [done |]. intros [_ Hq].
    rewrite length_app in Hq. simpl in Hq. destruct q0 as [| x q0].
    - simpl. unfold root_child. by rewrite Hrc.
    - rewrite !node_at_snoc, Hc, IH by (done || split; simpl in *; lia).
      apply decide_False. intros [Heq _].
      assert (x :: q0 = q3) as <-; [| simpl in *; lia].
      apply (rx_inj _ _ Ht Hr); [split; simpl in *; lia | done | congruence | done]. }
  split; [done |]. intros q k Hq.
  assert (q <> []) by (by intros ->). rewrite !node_at_snoc by done.
  rewrite Hc, Hs by (split; lia). destruct (decide (q = q3 /\ k = i)) as [[-> ->] | Hne].
  - by rewrite decide_True.
  - apply decide_False. intros [Heq ->]. apply Hne. split; [| done].
    apply (rx_inj _ _ Ht Hr); [split; lia | done | congruence | done].
Qed.

Lemma store_children_ok t N q3 i0 count v :
  radix_ok t N -> pm_root t = true -> length q3 = 3%nat -> node_at t q3 <> 0 -> 0 <= count ->
  exists t', store_children t (node_at t q3) i0 count v = Ok t' /\ same_shape t t' /\
    forall q k, length q = 3%nat ->
      node_at t' (q ++ [k]) =
        if decide (q = q3 /\ i0 <= k < i0 + count) then v else node_at t (q ++ [k]).
Proof.
  intros Ht Hr Hlen Hnz Hc. unfold store_children.
  destruct (for_range_inv (fun i t' => same_shape t t' /\ forall q k, length q = 3%nat ->
      node_at t' (q ++ [k]) =
        if decide (q = q3 /\ i0 <= k < i0 + i) then v else node_at t (q ++ [k]))
    0 count (fun i t' => set_node_child t' (node_at t q3) (i0 + i) v) t) as (t' & Heq & Hs & Hn).
  - done.
  - split; [done |]. intros q k _. rewrite decide_False by lia. done.
  - intros i t1 Hi [Hs Hn]. assert (Hq3 : node_path q3) by (split; lia).
    pose proof Hs as (Hr1 & _ & Hsq). rewrite <- (Hsq q3 Hq3) in Hnz |- *.
    destruct (leaf_store t1 N q3 (i0 + i) v) as (t2 & -> & Hs2 & Hn2);
      [by eapply same_shape_radix | congruence | done | done |].
    exists t2. split; [done |]. split; [by etransitivity |]. intros q k Hq. rewrite Hn2, Hn by done.
    destruct (decide (q = q3)) as [-> | Hne]; [| rewrite !decide_False by tauto; done].
    destruct (decide (k = i0 + i)) as [-> | Hk].
    + rewrite !decide_True by (split; [done | lia]). done.
    + rewrite (decide_False (P := _ /\ k = _)) by tauto. apply decide_ext.
      split; intros [_ ?]; (split; [done | lia]).
  - exists t'. done.
Qed.

(** The leaf slots [i0 .. i0+count) of a page's node are the pages from it on. *)
Lemma leaf_pages cur p count :
  0 < count -> count <= 512 - idx3 cur ->
  path3 p = path3 cur /\ idx3 cur <= idx3 p < idx3 cur + count <-> cur <= p < cur + count.
Proof.
  intros Hc Hle. split.
  - intros [Hp Hk]. assert (p / 512 = cur / 512).
    { unfold path3 in Hp. rewrite !idx0_eq, !idx1_eq, !idx2_eq in Hp. injection Hp as H0 H1 H2.
      clear Hk Hle. Z.div_mod_to_equations. lia. }
    rewrite !idx3_eq in *. Z.div_mod_to_equations. lia.
  - intros Hp. replace p with (cur + (p - cur)) by lia. rewrite idx3_eq in Hle.
    pose proof (Z.mod_pos_bound cur 512 ltac:(lia)).
    destruct (path3_same cur (p - cur)) as [-> ->]; rewrite ?idx3_eq; lia || (split; [done | lia]).
Qed.

Lemma store_pages `{Build} t N cur count v :
  radix_ok t N -> has_path t cur = true -> 0 <= cur -> 0 < count <= 512 - idx3 cur ->
  exists t', store_children t (node_at t (path3 cur)) (idx3 cur) count v = Ok t' /\
    same_shape t t' /\
    forall p, 0 <= p -> pm_lookup t' p = if decide (cur <= p < cur + count) then v else pm_lookup t p.
Proof.
  intros Ht Hp Hcur Hc. unfold has_path in Hp. bool_facts.
  destruct (store_children_ok t N (path3 cur) (idx3 cur) count v) as (t' & -> & Hs & Hn);
    [done | done | done | done | lia |].
  exists t'. split; [done |]. split; [done |]. intros p Hp. pose proof Hs as (Hr & _ & _).
  unfold pm_lookup. rewrite Hr. unfold path4. rewrite (Hn (path3 p)) by done.
  pose proof (leaf_pages cur p count ltac:(lia) ltac:(lia)) as Hlp.
  destruct (decide (cur <= p < cur + count)) as [Hin | Hout].
  - rewrite decide_True by tauto. 
    assert (in_range p = in_range cur) as ->.
    { unfold in_range. assert (Hq : path3 p = path3 cur) by tauto. injection Hq as -> _ _. done. }
    rename select (pm_root t = true) into Hroot. rename select (in_range cur = true) into Hrange.
    by rewrite Hroot, Hrange.
  - rewrite decide_False by tauto. done.
Qed.

(** *** [SetSpan] and [ClearRange] *)

(** [t'] is [t] with the pages [start .. start+num) mapped to [v]. *)
Definition mapped_to `{Build} (t t' : PageMap) (start num v : Z) : Prop :=
  forall p, 0 <= p ->
    pm_lookup t' p = if decide (start <= p < start + num) then v else pm_lookup t p.

Lemma mapped_to_empty `{Build} t start num v : num <= 0 -> mapped_to t t start num v.
Proof. intros Hn p Hp. by rewrite decide_False by lia. Qed.

Lemma mapped_to_app `{Build} t1 t2 t3 start n1 n2 v :
  0 <= n1 -> 0 <= n2 -> mapped_to t1 t2 start n1 v -> mapped_to t2 t3 (start + n1) n2 v ->
  mapped_to t1 t3 start (n1 + n2) v.
Proof.
  intros H1 H2 Ha Hb p Hp. rewrite Hb, Ha by done.
  destruct (decide (start + n1 <= p < start + n1 + n2)); [by rewrite decide_True by lia |].
  apply decide_ext. lia.
Qed.

(** Pages of a missing subtree are unmapped, so skipping them maps them to null. *)
Lemma mapped_to_skip `{Build} t start num :
  (forall p, start <= p < start + num -> pm_lookup t p = 0) -> mapped_to t t start num 0.
Proof. intros Hn p Hp. case_decide; [by apply Hn | done]. Qed.

Lemma has_path_in_range `{Build} t p : has_path t p = true -> in_range p = true.
Proof. unfold has_path. intros. by bool_facts. Qed.

Lemma PAGE_LIMIT_bounds `{Build} : 0 < PAGE_LIMIT < W64.
Proof. rewrite PAGE_LIMIT_val. destruct use_57bit_va; lia. Qed.

Lemma in_range_leb `{Build} p : (RADIX_ROOT_SIZE <=? idx0 p) = negb (in_range p).
Proof. unfold in_range. apply Z.leb_antisym. Qed.

Lemma idx3_range p : 0 <= idx3 p < 512.
Proof. rewrite idx3_eq. apply Z.mod_pos_bound. lia. Qed.

Lemma set_loop_ok `{Build} t N v fuel cur rem :
  radix_ok t N -> 0 <= cur -> 0 <= rem <= Z.of_nat fuel ->
  (forall p, cur <= p < cur + rem -> has_path t p = true) ->
  exists t', set_loop fuel t v cur rem = Ok t' /\ same_shape t t' /\ mapped_to t t' cur rem v.
Proof.
  revert t cur rem. induction fuel as [| fuel IH]; intros t cur rem Ht Hcur Hrem Hpath;
    cbn [set_loop]; destruct (Z.eqb_spec rem 0) as [-> | Hnz].
  1, 3: exists t; split; [done |]; split; [done |]; apply mapped_to_empty; lia.
  { lia. }
  pose proof (Hpath cur ltac:(lia)) as Hp. pose proof (has_path_in_range _ _ Hp) as Hin.
  rewrite in_range_leb, Hin. cbn [negb].
  pose proof Hp as Hp'. unfold has_path in Hp'. bool_facts. rename select (pm_root t = true) into Hroot.
  destruct (walk_ok t N cur Ht Hroot) as (Hq & _ & L1 & L2 & L3). cbn zeta in *.
  pose proof (child0_null t N) as Hc0. rewrite Hq in *.
  set (p1 := root_child t (idx0 cur)) in *. set (p2 := child0 t p1 (idx1 cur)) in *.
  set (p3 := child0 t p2 (idx2 cur)) in *.
  assert (Hp2 : p2 <> 0) by (intros E; subst p3; rewrite E, (Hc0 _ Ht) in *; done).
  assert (Hp1 : p1 <> 0) by (intros E; subst p2; rewrite E, (Hc0 _ Ht) in *; done).
  rewrite (proj2 (Z.eqb_neq p1 0)) by done. rewrite (node_child_ok t N _ _ Ht (L1 Hp1)), bind_Ok_l. fold p2.
  rewrite (proj2 (Z.eqb_neq p2 0)) by done. rewrite (node_child_ok t N _ _ Ht (L2 Hp2)), bind_Ok_l. fold p3.
  rewrite (proj2 (Z.eqb_neq p3 0)) by done. rewrite RADIX_NODE_SIZE_val, <- Hq.
  pose proof (idx3_range cur) as Hi3. set (count := Z.min rem (512 - idx3 cur)).
  destruct (store_pages t N cur count v Ht Hp Hcur) as (t1 & -> & Hs1 & Hm1); [lia |].
  rewrite bind_Ok_l. pose proof PAGE_LIMIT_bounds.
  assert (cur + count <= PAGE_LIMIT).
  { pose proof (Hpath (cur + count - 1) ltac:(lia)) as Hlast. apply has_path_in_range in Hlast.
    rewrite in_range_spec in Hlast by lia. bool_facts. lia. }
  rewrite u64_id by lia.
  destruct (IH t1 (cur + count) (rem - count)) as (t2 & -> & Hs2 & Hm2).
  - by eapply same_shape_radix.
  - lia.
  - lia.
  - intros p Hp0. erewrite same_shape_has_path by done. apply Hpath. lia.
  - exists t2. split; [done |]. split; [by etransitivity |].
    replace rem with (count + (rem - count)) by lia. eapply mapped_to_app; [lia | lia | done | done].
Qed.

Lemma skip_to_spec k cur : 0 <= k -> skip_to (2 ^ k) cur = 2 ^ k - cur mod 2 ^ k.
Proof. intros Hk. unfold skip_to. by rewrite Z.sub_1_r, <- Z.ones_equiv, Z.land_ones by lia. Qed.

Lemma same_block p cur c : 0 < c -> cur <= p < cur + (c - cur mod c) -> p / c = cur / c.
Proof.
  intros Hc Hp. pose proof (Z.div_mod cur c ltac:(lia)). pose proof (Z.mod_pos_bound cur c Hc).
  symmetry. apply Z.div_unique with (p - c * (cur / c)); lia.
Qed.

(** Nothing is mapped below a missing node. *)
Lemma lookup_below `{Build} t N p cur :
  radix_ok t N -> 0 <= p -> 0 <= cur ->
  (p / 134217728 = cur / 134217728 /\ root_child t (idx0 cur) = 0) \/
  (p / 262144 = cur / 262144 /\ node_at t [idx0 cur; idx1 cur] = 0) \/
  (p / 512 = cur / 512 /\ node_at t (path3 cur) = 0) ->
  pm_lookup t p = 0.
Proof.
  intros Ht Hp Hcur Hor. unfold pm_lookup. destruct (_ && _); [| done].
  pose proof (fun i => child0_null t N i Ht) as Hc0.
  destruct Hor as [[Heq Hn] | [[Heq Hn] | [Heq Hn]]].
  - assert (Hi : idx0 p = idx0 cur) by (rewrite !idx0_eq; done).
    simpl. by rewrite Hi, Hn, !Hc0.
  - assert (Hi : idx0 p = idx0 cur).
    { rewrite !idx0_eq. change 134217728 with (262144 * 512). by rewrite <- !Z.div_div, Heq by lia. }
    assert (Hj : idx1 p = idx1 cur) by (by rewrite !idx1_eq, Heq).
    simpl in *. by rewrite Hi, Hj, Hn, !Hc0.
  - unfold path4. rewrite (path3_of_leaf _ _ Heq), node_at_snoc, Hn by done. apply Hc0.
Qed.

Lemma clear_loop_ok `{Build} t N fuel cur rem :
  radix_ok t N -> pm_root t = true -> 0 <= cur < W64 -> 0 <= rem <= Z.of_nat fuel ->
  exists t', clear_loop fuel t cur rem = Ok t' /\ same_shape t t' /\ mapped_to t t' cur rem 0.
Proof.
  revert t cur rem. induction fuel as [| fuel IH]; intros t cur rem Ht Hroot Hcur Hrem;
    cbn [clear_loop]; destruct (Z.eqb_spec rem 0) as [-> | Hnz].
  1, 3: exists t; split; [done |]; split; [done |]; apply mapped_to_empty; lia.
  { lia. }
  rewrite in_range_leb. destruct (in_range cur) eqn:Hin; cbn [negb].
  2:{ exists t. split; [done |]. split; [done |]. apply mapped_to_skip. intros p Hp.
      rewrite in_range_spec in Hin by lia. bool_facts. unfold pm_lookup.
      rewrite in_range_spec, (proj2 (Z.ltb_ge _ _)) by lia. by rewrite andb_false_r. }
  destruct (walk_ok t N cur Ht Hroot) as (Hq & _ & L1 & L2 & L3). cbn zeta in *.
  set (p1 := root_child t (idx0 cur)) in *. set (p2 := child0 t p1 (idx1 cur)) in *.
  set (p3 := child0 t p2 (idx2 cur)) in *.
  rewrite in_range_spec in Hin by lia. bool_facts. pose proof PAGE_LIMIT_bounds.
  (* one step of the loop that leaves the tree alone *)
  assert (Hskip : forall step, 0 < step <= rem -> step <= 134217728 ->
    (forall p, cur <= p < cur + step -> pm_lookup t p = 0) ->
    exists t', clear_loop fuel t (u64 (cur + step)) (rem - step) = Ok t' /\
      same_shape t t' /\ mapped_to t t' cur rem 0).
  { intros step Hst Hsmall Hno. rewrite u64_id by (rewrite PAGE_LIMIT_val in *; destruct use_57bit_va; lia).
    destruct (IH t (cur + step) (rem - step)) as (t2 & -> & Hs2 & Hm2);
      [done | done | rewrite PAGE_LIMIT_val in *; destruct use_57bit_va; lia | lia |].
    exists t2. split; [done |]. split; [done |]. replace rem with (step + (rem - step)) by lia.
    eapply mapped_to_app; [lia | lia | by apply mapped_to_skip | done]. }
  assert (Hmod : forall c, 0 < c -> 0 < c - cur mod c <= c).
  { intros c Hc. pose proof (Z.mod_pos_bound cur c Hc). lia. }
  destruct (Z.eqb_spec p1 0) as [E1 | E1].
  { change (Z.shiftl 1 (RADIX_NODE_BITS * 3)) with (2 ^ 27). rewrite skip_to_spec by lia.
    change (2 ^ 27) with 134217728. pose proof (Hmod 134217728 ltac:(lia)).
    apply Hskip; [lia | lia |]. intros p Hp. apply (lookup_below t N p cur); [done | lia | lia |].
    left. split; [apply same_block; lia | done]. }
  rewrite (node_child_ok t N _ _ Ht (L1 E1)), bind_Ok_l. fold p2. destruct (Z.eqb_spec p2 0) as [E2 | E2].
  { change (Z.shiftl 1 (RADIX_NODE_BITS * 2)) with (2 ^ 18). rewrite skip_to_spec by lia.
    change (2 ^ 18) with 262144. pose proof (Hmod 262144 ltac:(lia)).
    apply Hskip; [lia | lia |]. intros p Hp. apply (lookup_below t N p cur); [done | lia | lia |].
    right. left. split; [apply same_block; lia | done]. }
  rewrite (node_child_ok t N _ _ Ht (L2 E2)), bind_Ok_l. fold p3. destruct (Z.eqb_spec p3 0) as [E3 | E3].
  { change (Z.shiftl 1 RADIX_NODE_BITS) with (2 ^ 9). rewrite skip_to_spec by lia.
    change (2 ^ 9) with 512. pose proof (Hmod 512 ltac:(lia)).
    apply Hskip; [lia | lia |]. intros p Hp. apply (lookup_below t N p cur); [done | lia | lia |].
    right. right. split; [apply same_block; lia | by rewrite Hq]. }
  rewrite RADIX_NODE_SIZE_val. pose proof (idx3_range cur). set (cnt := Z.min rem (512 - idx3 cur)).
  assert (Hpath : has_path t cur = true).
  { unfold has_path. rewrite Hroot, in_range_spec, (proj2 (Z.ltb_lt cur _)), Hq by lia.
    by rewrite (proj2 (Z.eqb_neq p3 0)). }
  rewrite <- Hq. destruct (store_pages t N cur cnt 0 Ht Hpath) as (t1 & -> & Hs1 & Hm1); [lia | lia |].
  rewrite bind_Ok_l, u64_id by (rewrite PAGE_LIMIT_val in *; destruct use_57bit_va; lia).
  destruct (IH t1 (cur + cnt) (rem - cnt)) as (t2 & -> & Hs2 & Hm2).
  - by eapply same_shape_radix.
  - destruct Hs1 as [-> _]. done.
  - rewrite PAGE_LIMIT_val in *; destruct use_57bit_va; lia.
  - lia.
  - exists t2. split; [done |]. split; [by etransitivity |].
    replace rem with (cnt + (rem - cnt)) by lia. eapply mapped_to_app; [lia | lia | done | done].
Qed.

(** *** Growing the tree *)

(** Growth keeps every node where it is and every mapping as it was. *)
Definition grows `{Build} (t t' : PageMap) : Prop :=
  (pm_root t = true ->
     pm_root t' = true /\ forall q, node_path q -> node_at t q <> 0 -> node_at t' q = node_at t q) /\
  (forall p, pm_lookup t' p = pm_lookup t p).

#[export] Instance grows_preorder `{Build} : PreOrder grows.
Proof.
  split; [done |]. intros t1 t2 t3 [H1 H2] [H3 H4]. split; [| intros p; by rewrite H4].
  intros Hr. destruct (H1 Hr) as [Hr2 Hs2]. destruct (H3 Hr2) as [Hr3 Hs3]. split; [done |].
  intros q Hq Hnz. rewrite Hs3, Hs2 by (done || by rewrite Hs2). done.
Qed.

Lemma grows_has_path `{Build} t t' p : grows t t' -> has_path t p = true -> has_path t' p = true.
Proof.
  intros [Hg _]. unfold has_path. intros Hp. bool_facts. rename select (pm_root t = true) into Hr.
  destruct (Hg Hr) as [-> Hs]. rewrite Hs by (done || apply path3_shape).
  rename select (in_range p = true) into Hin. rewrite Hin. cbn [andb].
  apply negb_true_iff. by apply Z.eqb_neq.
Qed.

(** Hanging a fresh empty node [a] on the empty slot at [q ++ [i]]. *)
Record attached (t t' : PageMap) (N : gset Z) (q : list Z) (i a : Z) : Prop := {
  at_root : pm_root t' = pm_root t;
  at_dom : dom (pm_nodes t') = {[a]} ∪ N;
  at_rootc : forall j, root_child t' j = if decide (q = [] /\ j = i) then a else root_child t j;
  at_child : forall x k, x <> a ->
    child0 t' x k = if decide (q <> [] /\ x = node_at t q /\ k = i) then a else child0 t x k;
  at_fresh : forall k, child0 t' a k = 0;
}.

Lemma attached_node_at t t' N q i a :
  radix_ok t N -> pm_root t = true -> attached t t' N q i a -> a ∉ N -> a <> 0 ->
  (length q <= 2)%nat -> (q <> [] -> node_at t q <> 0) -> node_at t (q ++ [i]) = 0 ->
  forall r, (1 <= length r <= 4)%nat ->
    node_at t' r = if decide (r = q ++ [i]) then a else node_at t r.
Proof.
  intros Ht Hr Hat Ha Ha0 Hlen Hq Hnull r.
  induction r as [| k r0 IH] using rev_ind; [simpl; lia |]. rewrite length_app. simpl. intros Hrl.
  destruct r0 as [| x r0].
  - simpl. rewrite (at_rootc _ _ _ _ _ _ Hat). apply decide_ext. split.
    + by intros [-> ->].
    + intros Heq. destruct q as [| y q]; [by injection Heq |].
      apply (f_equal length) in Heq. rewrite length_app in Heq. simpl in Heq. lia.
  - set (r1 := x :: r0) in *. assert (Hr1 : r1 <> []) by done. clearbody r1.
    rewrite !node_at_snoc by done. assert (Hpath : node_path r1) by (destruct r1; [done |]; split; simpl in *; lia).
    rewrite IH by (destruct r1; simpl in *; [done | lia]). clear IH.
    destruct (decide (r1 = q ++ [i])) as [-> | Hne].
    + rewrite (at_fresh _ _ _ _ _ _ Hat), Hnull, (child0_null t N) by done.
      symmetry. apply decide_False. intros Heq. apply app_inj_tail in Heq as [Heq _].
      apply (f_equal length) in Heq. rewrite length_app in Heq. simpl in Heq. lia.
    + rewrite (at_child _ _ _ _ _ _ Hat).
      * apply decide_ext. split.
        -- intros (Hqne & Heq & ->). f_equal. pose proof (Hq Hqne).
           apply (rx_inj _ _ Ht Hr); [done | | congruence | done].
           destruct q; [done |]. split; simpl in *; lia.
        -- intros Heq. apply app_inj_tail in Heq as [-> ->]. done.
      * destruct (decide (node_at t r1 = 0)) as [-> |]; [done |]. intros <-.
        apply Ha. by apply (rx_live _ _ Ht Hr).
Qed.

Lemma attached_ok `{Build} t t' N q i a :
  radix_ok t N -> pm_root t = true -> attached t t' N q i a -> a ∉ N -> a <> 0 ->
  (length q <= 2)%nat -> (q <> [] -> node_at t q <> 0) -> node_at t (q ++ [i]) = 0 ->
  radix_ok t' ({[a]} ∪ N) /\ grows t t' /\ pm_root t' = true /\ node_at t' (q ++ [i]) = a.
Proof.
  intros Ht Hr Hat Ha Ha0 Hlen Hq Hnull.
  pose proof (attached_node_at t t' N q i a Ht Hr Hat Ha Ha0 Hlen Hq Hnull) as Hn.
  assert (Hqi : (1 <= length (q ++ [i]) <= 3)%nat) by (rewrite length_app; simpl; lia).
  assert (Hr' : pm_root t' = true) by (by rewrite (at_root _ _ _ _ _ _ Hat)).
  assert (H34 : forall r, node_path r -> (1 <= length r <= 4)%nat) by (intros r [? ?]; lia).
  assert (Hnew : node_at t' (q ++ [i]) = a) by (rewrite Hn, decide_True by (done || lia); done).
  split; [| split; [| done]].
  - constructor.
    + apply Hat.
    + pose proof (rx_null _ _ Ht). set_solver.
    + intros _ r Hrp. rewrite Hn by auto. case_decide; [set_solver |]. intros Hnz.
      apply elem_of_union_r. by apply (rx_live _ _ Ht Hr).
    + intros _ r r' Hrp Hrp'. rewrite !Hn by auto.
      case_decide as D1; case_decide as D2; intros Hnz Heq; [congruence | | |].
      * exfalso. apply Ha. rewrite Heq. apply (rx_live _ _ Ht Hr); congruence.
      * exfalso. apply Ha. rewrite <- Heq. by apply (rx_live _ _ Ht Hr).
      * by apply (rx_inj _ _ Ht Hr).
  - split.
    + intros _. split; [done |]. intros r Hrp Hnz. rewrite Hn by auto.
      apply decide_False. intros ->. done.
    + intros p. unfold pm_lookup. rewrite (at_root _ _ _ _ _ _ Hat), Hn by (simpl; lia).
      rewrite decide_False; [done |]. intros Heq. apply (f_equal length) in Heq. simpl in *. lia.
Qed.

Lemma construct_child0 t a x k : x <> a -> child0 (construct_node t a) x k = child0 t x k.
Proof. intros Hx. unfold child0, construct_node. simpl. by rewrite lookup_insert_ne by done. Qed.

Lemma attached_root t N i a :
  radix_ok t N -> attached t (set_root_child (construct_node t a) i a) N [] i a.
Proof.
  intros Ht. constructor.
  - done.
  - simpl. rewrite dom_insert_L, (rx_dom _ _ Ht). done.
  - intros j. unfold root_child. simpl. destruct (decide (j = i)) as [-> |].
    + rewrite lookup_insert_eq. by rewrite decide_True.
    + rewrite lookup_insert_ne by done. by rewrite decide_False by tauto.
  - intros x k Hx. rewrite decide_False by tauto. by apply construct_child0.
  - intros k. unfold child0. simpl. by rewrite lookup_insert_eq.
Qed.

Lemma attached_node t N q i a :
  radix_ok t N -> pm_root t = true -> node_path q -> node_at t q <> 0 -> a ∉ N ->
  exists t', set_node_child (construct_node t a) (node_at t q) i a = Ok t' /\ attached t t' N q i a.
Proof.
  intros Ht Hr Hq Hnz Ha. pose proof (rx_live _ _ Ht Hr q Hq Hnz) as HN.
  assert (Hne : node_at t q <> a) by congruence.
  pose proof HN as HN'. rewrite <- (rx_dom _ _ Ht), elem_of_dom in HN'. destruct HN' as [c Hc].
  unfold set_node_child. simpl. rewrite lookup_insert_ne, Hc by done.
  eexists. split; [done |]. constructor.
  - done.
  - simpl. rewrite !dom_insert_L, (rx_dom _ _ Ht). set_solver.
  - intros j. rewrite decide_False; [done |]. intros [-> _]. by destruct Hq.
  - intros x k Hx. unfold child0. simpl. destruct (decide (x = node_at t q)) as [-> | Hxq].
    + rewrite lookup_insert_eq, Hc. destruct (decide (k = i)) as [-> |].
      * rewrite lookup_insert_eq, decide_True; [done |]. split; [| done]. intros ->. by destruct Hq.
      * rewrite lookup_insert_ne by done. by rewrite decide_False by tauto.
    + rewrite !lookup_insert_ne by done. by rewrite decide_False by tauto.
  - intros k. unfold child0. simpl. rewrite lookup_insert_ne, lookup_insert_eq by done. done.
Qed.

Section GrowthSpec.
Context `{BackingLaws W}.

(** What a growth step leaves behind. *)
Definition grown (t : PageMap) (w : W) (R S N : gset Z) (t' : PageMap) (w' : W) : Prop :=
  exists N', N ⊆ N' /\ radix_ok t' N' /\ bk_rep w' R S N' /\ grows t t'.

Lemma grown_refl t w R S N : radix_ok t N -> bk_rep w R S N -> grown t w R S N t w.
Proof. intros Ht Hw. exists N. done. Qed.

Lemma ensure_child_ok t w R S N q i :
  radix_ok t N -> bk_rep w R S N -> pm_root t = true -> node_path q -> (length q <= 2)%nat ->
  node_at t q <> 0 ->
  exists c t' w', ensure_child t w (node_at t q) i = Ok (c, t', w') /\
    grown t w R S N t' w' /\ pm_root t' = true /\ node_at t' (q ++ [i]) = c.
Proof.
  intros Ht Hw Hr Hq Hlen Hnz. assert (Hqne : q <> []) by (intros ->; by destruct Hq).
  unfold ensure_child. rewrite (node_child_ok t N) by (done || by apply (rx_live _ _ Ht Hr)).
  rewrite bind_Ok_l, <- node_at_snoc by done.
  destruct (Z.eqb_spec (node_at t (q ++ [i])) 0) as [E | E].
  2:{ do 3 eexists. split; [done |]. split; [by apply grown_refl | done]. }
  unfold TryNewRadixNode. destruct (bk_node_new_ok w R S N Hw) as (a & w' & -> & Ha).
  rewrite !bind_Ok_l. cbn iota beta. destruct Ha as [[-> Hw'] | (Ha0 & HaN & _ & Hw')].
  - do 3 eexists. split; [done |]. split; [by exists N | done].
  - rewrite (proj2 (Z.eqb_neq a 0)) by done. rewrite ?bind_Ok_l.
    destruct (attached_node t N q i a Ht Hr Hq Hnz HaN) as (t' & -> & Hat).
    rewrite bind_Ok_l. exists a, t', w'. split; [done |].
    destruct (attached_ok t t' N q i a) as (Ht' & Hg & Hr' & Hn); [done.. |].
    split; [| done]. exists ({[a]} ∪ N). split; [set_solver | done].
Qed.

Lemma ensure_root_child_ok t w R S N i :
  radix_ok t N -> bk_rep w R S N -> pm_root t = true ->
  exists c t' w', ensure_root_child t w i = Ok (c, t', w') /\
    grown t w R S N t' w' /\ pm_root t' = true /\ node_at t' [i] = c.
Proof.
  intros Ht Hw Hr. unfold ensure_root_child.
  destruct (Z.eqb_spec (root_child t i) 0) as [E | E].
  2:{ do 3 eexists. split; [done |]. split; [by apply grown_refl | done]. }
  unfold TryNewRadixNode. destruct (bk_node_new_ok w R S N Hw) as (a & w' & -> & Ha).
  rewrite !bind_Ok_l. cbn iota beta. destruct Ha as [[-> Hw'] | (Ha0 & HaN & _ & Hw')].
  - do 3 eexists. split; [done |]. split; [by exists N | done].
  - rewrite (proj2 (Z.eqb_neq a 0)) by done. do 3 eexists. split; [done |].
    destruct (attached_ok t (set_root_child (construct_node t a) i a) N [] i a)
      as (Ht' & Hg & Hr' & Hn); [done | done | by apply attached_root | done | done | simpl; lia | done | done |].
    split; [| done]. exists ({[a]} ∪ N). split; [set_solver | done].
Qed.

(** Publishing the static root with all children null. *)
Lemma init_root_ok t N :
  radix_ok t N -> pm_root t = false ->
  radix_ok (mkPageMap true ∅ (pm_nodes t)) N /\ grows t (mkPageMap true ∅ (pm_nodes t)).
Proof.
  intros Ht Hr. set (t' := mkPageMap true ∅ (pm_nodes t)).
  assert (Hc0 : forall k, child0 t' 0 k = 0) by (intros k; apply (child0_null t N k Ht)).
  assert (Hn : forall q, node_at t' q = 0).
  { intros [| i q]; [done |]. simpl. unfold root_child. simpl. rewrite lookup_empty. simpl.
    induction q as [| j q IH]; [done |]. simpl. by rewrite Hc0. }
  split.
  - constructor; [apply Ht | apply Ht | by intros _ q _; rewrite Hn | by intros _ q q' _ _; rewrite Hn].
  - split; [congruence |]. intros p. unfold pm_lookup. rewrite Hr, Hn. by destruct (_ && _).
Qed.

Lemma EnsurePathLocked_ok t w R S N page :
  radix_ok t N -> bk_rep w R S N ->
  exists ok t' w', EnsurePathLocked t w page = Ok (ok, t', w') /\
    grown t w R S N t' w' /\ (ok = true -> has_path t' page = true).
Proof.
  intros Ht Hw. unfold EnsurePathLocked. rewrite in_range_leb.
  destruct (in_range page) eqn:Hin; cbn [negb].
  2:{ do 3 eexists. split; [done |]. split; [by apply grown_refl | done]. }
  set (t0 := if pm_root t then t else _).
  assert (Ht0 : radix_ok t0 N /\ grows t t0 /\ pm_root t0 = true).
  { subst t0. destruct (pm_root t) eqn:Hr; [done |]. destruct (init_root_ok t N Ht Hr). done. }
  destruct Ht0 as (Ht0 & Hg0 & Hr0). clearbody t0.
  destruct (ensure_root_child_ok t0 w R S N (idx0 page) Ht0 Hw Hr0)
    as (p1 & t1 & w1 & -> & (N1 & Hs1 & Ht1 & Hw1 & Hg1) & Hr1 & Hn1).
  rewrite bind_Ok_l. cbn iota beta. case_cmp.
  { do 3 eexists. split; [done |]. split; [| done]. exists N1. split_and!; [done.. | by etransitivity]. }
  rewrite <- Hn1 in *.
  destruct (ensure_child_ok t1 w1 R S N1 [idx0 page] (idx1 page))
    as (p2 & t2 & w2 & -> & (N2 & Hs2 & Ht2 & Hw2 & Hg2) & Hr2 & Hn2);
    [done | done | done | split; simpl; lia | simpl; lia | done |].
  rewrite bind_Ok_l. cbn iota beta. case_cmp.
  { do 3 eexists. split; [done |]. split; [| done]. exists N2. split_and!; [set_solver | done.. |].
    by do 2 (etransitivity; [eassumption |]). }
  rewrite <- Hn2 in *.
  destruct (ensure_child_ok t2 w2 R S N2 ([idx0 page] ++ [idx1 page]) (idx2 page))
    as (p3 & t3 & w3 & -> & (N3 & Hs3 & Ht3 & Hw3 & Hg3) & Hr3 & Hn3);
    [done | done | done | split; simpl; lia | simpl; lia | done |].
  rewrite bind_Ok_l. cbn iota beta. do 3 eexists. split; [done |]. split.
  - exists N3. split_and!; [set_solver | done | done |].
    do 3 (etransitivity; [eassumption |]). done.
  - intros Hok. unfold has_path. rewrite Hr3, Hin. change (path3 page) with (([idx0 page] ++ [idx1 page]) ++ [idx2 page]).
    by rewrite Hn3.
Qed.

Lemma ensure_loop_ok t w R S N fuel cur rem :
  radix_ok t N -> bk_rep w R S N -> 0 <= cur -> 0 <= rem <= Z.of_nat fuel ->
  exists ok t' w', ensure_loop fuel t w cur rem = Ok (ok, t', w') /\
    grown t w R S N t' w' /\
    (ok = true -> forall p, cur <= p < cur + rem -> has_path t' p = true).
Proof.
  revert t w N cur rem. induction fuel as [| fuel IH]; intros t w N cur rem Ht Hw Hcur Hrem;
    cbn [ensure_loop]; destruct (Z.eqb_spec rem 0) as [-> | Hnz].
  1, 3: do 3 eexists; split; [done |]; split; [by apply grown_refl | intros _ p Hp; lia].
  { lia. }
  rewrite in_range_leb. destruct (in_range cur) eqn:Hin; cbn [negb].
  2:{ do 3 eexists. split; [done |]. split; [by apply grown_refl | done]. }
  rewrite (HasPath_ok t N) by done. rewrite bind_Ok_l, RADIX_NODE_SIZE_val.
  pose proof (idx3_range cur) as Hi3. set (step := Z.min rem (512 - idx3 cur)).
  assert (exists ok t1 w1, (if has_path t cur then Ok (true, t, w) else EnsurePathLocked t w cur)
            = Ok (ok, t1, w1) /\ grown t w R S N t1 w1 /\ (ok = true -> has_path t1 cur = true))
    as (ok & t1 & w1 & -> & (N1 & Hs1 & Ht1 & Hw1 & Hg1) & Hp1).
  { destruct (has_path t cur) eqn:Hp; [| by apply EnsurePathLocked_ok].
    do 3 eexists. split; [done |]. split; [by apply grown_refl | done]. }
  rewrite bind_Ok_l. cbn iota beta. destruct ok.
  2:{ do 3 eexists. split; [done |]. split; [by exists N1 | done]. }
  rewrite in_range_spec in Hin by done. bool_facts. pose proof PAGE_LIMIT_bounds.
  assert (cur + step < W64) by (rewrite PAGE_LIMIT_val in *; destruct use_57bit_va; lia).
  rewrite u64_id by lia.
  destruct (IH t1 w1 N1 (cur + step) (rem - step)) as (ok & t2 & w2 & -> & (N2 & Hs2 & Ht2 & Hw2 & Hg2) & Hp2);
    [done | done | lia | lia |].
  exists ok, t2, w2. split; [done |]. split.
  - exists N2. split_and!; [set_solver | done | done | by etransitivity].
  - intros Hok p Hp. destruct (Z.lt_ge_cases p (cur + step)); [| apply Hp2; [done | lia]].
    apply (grows_has_path t1); [done |]. specialize (Hp1 eq_refl).
    unfold has_path in Hp1 |- *. bool_facts.
    assert (path3 p = path3 cur) as Hpp.
    { replace p with (cur + (p - cur)) by lia. apply path3_same; lia. }
    assert (in_range p = in_range cur) as Hpr by (unfold in_range; injection Hpp as -> _ _; done).
    rewrite Hpp, Hpr. rename select (pm_root t1 = true) into Hr1. rename select (in_range cur = true) into Hrc.
    rewrite Hr1, Hrc. cbn [andb]. apply negb_true_iff. by apply Z.eqb_neq.
Qed.

Lemma EnsureRange_ok t w R S N start num :
  radix_ok t N -> bk_rep w R S N -> 0 <= start < W64 -> 0 <= num < W64 ->
  exists ok t' w', EnsureRange t w start num = Ok (ok, t', w') /\
    grown t w R S N t' w' /\
    (ok = true -> forall p, start <= p < start + num -> has_path t' p = true).
Proof.
  intros Ht Hw Hs Hn. unfold EnsureRange. case_cmp.
  { do 3 eexists. split; [done |]. split; [by apply grown_refl | intros; lia]. }
  destruct (_ && _).
  { do 3 eexists. split; [done |]. split; [by apply grown_refl | done]. }
  apply ensure_loop_ok; done || lia.
Qed.
End GrowthSpec.

(** Within one leaf node all pages have a path, or none. *)
Lemma has_path_leaf `{Build} t p cur :
  cur <= p < cur + (512 - idx3 cur) -> has_path t p = has_path t cur.
Proof.
  intros Hp. pose proof (idx3_range cur). assert (Hpp : path3 p = path3 cur).
  { replace p with (cur + (p - cur)) by lia. apply path3_same; lia. }
  unfold has_path, in_range. rewrite Hpp. by injection Hpp as -> _ _.
Qed.

(** A page without a path stops [SetSpan] with an abort. *)
Lemma set_loop_abort `{Build} t N v fuel cur rem bad :
  radix_ok t N -> pm_root t = true -> 0 <= cur -> 0 <= rem <= Z.of_nat fuel ->
  cur <= bad < cur + rem -> has_path t bad = false -> exists why, set_loop fuel t v cur rem = Abort why.
Proof.
  revert t cur rem. induction fuel as [| fuel IH]; intros t cur rem Ht Hroot Hcur Hrem Hbad Hno;
    [lia |]. cbn [set_loop]. rewrite (proj2 (Z.eqb_neq rem 0)) by lia.
  rewrite in_range_leb. destruct (in_range cur) eqn:Hin; cbn [negb]; [| by eexists].
  destruct (walk_ok t N cur Ht Hroot) as (Hq & _ & L1 & L2 & L3). cbn zeta in *.
  assert (Hhp : has_path t cur = negb (child0 t (child0 t (root_child t (idx0 cur)) (idx1 cur)) (idx2 cur) =? 0)).
  { unfold has_path. by rewrite Hroot, Hin, Hq. }
  set (p1 := root_child t (idx0 cur)) in *. set (p2 := child0 t p1 (idx1 cur)) in *.
  set (p3 := child0 t p2 (idx2 cur)) in *.
  assert (E2 : (if p1 =? 0 then Ok 0 else node_child t p1 (idx1 cur)) = Ok p2).
  { destruct (Z.eqb_spec p1 0) as [E |]; [subst p2; by rewrite E, (child0_null t N) |].
    by rewrite (node_child_ok t N) by auto. }
  assert (E3 : (if p2 =? 0 then Ok 0 else node_child t p2 (idx2 cur)) = Ok p3).
  { destruct (Z.eqb_spec p2 0) as [E |]; [subst p3; by rewrite E, (child0_null t N) |].
    by rewrite (node_child_ok t N) by auto. }
  rewrite E2, bind_Ok_l, E3, bind_Ok_l. destruct (p3 =? 0) eqn:E; cbn [negb] in Hhp; [by eexists |].
  rewrite RADIX_NODE_SIZE_val, <- Hq. pose proof (idx3_range cur). set (count := Z.min rem (512 - idx3 cur)).
  destruct (store_pages t N cur count v Ht Hhp Hcur) as (t1 & -> & Hs1 & _); [lia |].
  rewrite bind_Ok_l. rewrite in_range_spec in Hin by lia. bool_facts. pose proof PAGE_LIMIT_bounds.
  rewrite u64_id by (rewrite PAGE_LIMIT_val in *; destruct use_57bit_va; lia).
  destruct (Z.lt_ge_cases bad (cur + count)).
  - rewrite (has_path_leaf t bad cur) in Hno by lia. congruence.
  - apply IH; [by eapply same_shape_radix | by destruct Hs1 as [-> _] | lia | lia | lia |].
    by erewrite same_shape_has_path.
Qed.

Lemma SetSpan_ok `{Build} t N st span s :
  radix_ok t N -> span <> 0 -> st !! span = Some s -> 0 <= start_page_idx s -> 0 < page_num s ->
  (forall p, start_page_idx s <= p < start_page_idx s + page_num s -> has_path t p = true) ->
  exists t', SetSpan t st span = Ok t' /\ radix_ok t' N /\ same_shape t t' /\
    mapped_to t t' (start_page_idx s) (page_num s) span.
Proof.
  intros Ht Hsp Hst Hs0 Hn0 Hpath. unfold SetSpan.
  rewrite (proj2 (Z.eqb_neq span 0)), (get_span_Some _ _ s) by done. rewrite bind_Ok_l.
  rewrite (proj2 (Z.eqb_neq (page_num s) 0)) by lia.
  pose proof (Hpath (start_page_idx s) ltac:(lia)) as Hr. unfold has_path in Hr. bool_facts.
  rename select (pm_root t = true) into Hroot. rewrite Hroot. cbn [negb].
  destruct (set_loop_ok t N span (Z.to_nat (page_num s)) (start_page_idx s) (page_num s))
    as (t' & -> & Hs & Hm); [done | done | lia | done |].
  exists t'. split; [done |]. split; [by eapply same_shape_radix | done].
Qed.

Lemma ClearRange_ok `{Build} t N start num :
  radix_ok t N -> 0 <= start < W64 -> 0 <= num ->
  exists t', ClearRange t start num = Ok t' /\ radix_ok t' N /\ same_shape t t' /\
    mapped_to t t' start num 0.
Proof.
  intros Ht Hstart Hnum. unfold ClearRange. destruct (pm_root t) eqn:Hroot; cbn [negb].
  - destruct (clear_loop_ok t N (Z.to_nat num) start num) as (t' & -> & Hs & Hm);
      [done | done | lia | lia |].
    exists t'. split; [done |]. split; [by eapply same_shape_radix | done].
  - exists t. split; [done |]. split; [done |]. split; [done |]. apply mapped_to_skip.
    intros p _. unfold pm_lookup. by rewrite Hroot.
Qed.

(** ** Properties *)

(** C29: the radix tree is a finite map from page numbers to Span pointers.  On
    any well-formed tree [GetSpan] returns the mapping of any page (null for
    unmapped and out-of-range pages); [SetSpan] maps exactly the pages of the
    span when their paths were prepared, and aborts, without dereferencing a
    missing node, when a path is missing or the span is null or empty;
    [ClearRange] unmaps exactly the given pages, whatever is mapped; no update
    moves or drops a node. *)
Theorem PageMap_refines_map `{Build} t N st span s start num :
  radix_ok t N -> span <> 0 -> st !! span = Some s -> 0 <= start_page_idx s -> 0 <= page_num s ->
  0 <= start < W64 -> 0 <= num ->
  (forall p, GetSpan t p = Ok (pm_lookup t p)) /\
  (if decide (0 < page_num s /\
        Forall (fun p => has_path t p = true) (seqZ (start_page_idx s) (page_num s)))
   then exists t', SetSpan t st span = Ok t' /\ radix_ok t' N /\ same_shape t t' /\
          mapped_to t t' (start_page_idx s) (page_num s) span
   else exists why, SetSpan t st span = Abort why) /\
  (exists t', ClearRange t start num = Ok t' /\ radix_ok t' N /\ same_shape t t' /\
     mapped_to t t' start num 0) /\
  (exists why, SetSpan t st 0 = Abort why).
Proof.
  intros Ht Hsp Hst Hs0 Hn0 Hstart Hnum. split; [intros p; by apply (GetSpan_ok t N) |].
  split; [| split; [by apply ClearRange_ok | by eexists]]. case_decide as Hall.
  { destruct Hall as [Hpos Hall]. apply SetSpan_ok; [done.. |]. intros p Hp.
    rewrite Forall_forall in Hall. apply Hall, elem_of_seqZ. lia. }
  unfold SetSpan. rewrite (proj2 (Z.eqb_neq span 0)), (get_span_Some _ _ s) by done. rewrite bind_Ok_l.
  destruct (Z.eqb_spec (page_num s) 0) as [E |]; [by eexists |].
  destruct (pm_root t) eqn:Hroot; cbn [negb]; [| by eexists].
  assert (exists p, p ∈ seqZ (start_page_idx s) (page_num s) /\ has_path t p = false) as (bad & Hbad & Hno).
  { destruct (decide (Exists (fun p => has_path t p = false) (seqZ (start_page_idx s) (page_num s))))
      as [Hex | Hnex]; [by apply Exists_exists in Hex |].
    exfalso. apply Hall. split; [lia |]. apply Forall_forall. intros p Hp. apply not_false_iff_true.
    intros Hf. apply Hnex, Exists_exists. eauto. }
  apply elem_of_seqZ in Hbad. eapply set_loop_abort; [done | done | lia | | | done]; lia.
Qed.

(** The tree after preparing pages 510..514, on the page-counter backing. *)
Definition sample_map : PageMap :=
  match EnsureRange (H := release_build) (H0 := bump_backing (H := release_build)) PageMap_init 16 510 5 with
  | Ok (_, t, _) => t
  | _ => PageMap_init
  end.

Lemma PageMap_init_ok : radix_ok PageMap_init ∅.
Proof. by constructor. Qed.

Lemma sample_map_ok : exists N, radix_ok sample_map N.
Proof.
  destruct (EnsureRange_ok (H0 := bump_backing (H := release_build))
    (H1 := bump_laws (H := release_build)) PageMap_init 16 ∅ ∅ ∅ 510 5
    PageMap_init_ok bump_rep_start ltac:(lia) ltac:(lia)) as (ok & t' & w' & Heq & (N & _ & Ht & _) & _).
  exists N. unfold sample_map. rewrite Heq. exact Ht.
Qed.

Section MapWitness.
#[local] Existing Instance release_build.

Lemma PageMap_refines_map_witness :
exists N, let s := Span_new 510 5 in let st : spans := <[4096 := s]> ∅ in
(forall p, GetSpan sample_map p = Ok (pm_lookup sample_map p)) /\
(if decide (0 < 5 /\ Forall (fun p => has_path sample_map p = true) (seqZ 510 5))
 then exists t', SetSpan sample_map st 4096 = Ok t' /\ radix_ok t' N /\ same_shape sample_map t' /\
        mapped_to sample_map t' 510 5 4096
 else exists why, SetSpan sample_map st 4096 = Abort why) /\
(exists t', ClearRange sample_map 511 2 = Ok t' /\ radix_ok t' N /\ same_shape sample_map t' /\
   mapped_to sample_map t' 511 2 0) /\
(exists why, SetSpan sample_map st 0 = Abort why).
Proof.
destruct sample_map_ok as [N HN]. exists N.
apply (PageMap_refines_map sample_map N (<[4096 := Span_new 510 5]> ∅) 4096
  (Span_new 510 5) 511 2 HN); vm_compute; done || (split; done).
Defined.

End MapWitness.

(** Growing the page map is safe and sufficient.  [EnsureRange] never fails
    badly: it reports success exactly when every page of the range can be
    mapped afterwards, it reports failure for ranges that leave the address
    space, and in both cases every mapping and every prepared path is as
    before; new nodes are live, fresh and linked from one slot only. *)
Theorem EnsureRange_spec `{BackingLaws W} t w R S N start num :
  radix_ok t N -> bk_rep w R S N -> 0 <= start < W64 -> 0 <= num < W64 ->
  exists ok t' w' N', EnsureRange t w start num = Ok (ok, t', w') /\
    N ⊆ N' /\ radix_ok t' N' /\ bk_rep w' R S N' /\
    (forall p, pm_lookup t' p = pm_lookup t p) /\
    (forall p, has_path t p = true -> has_path t' p = true) /\
    (ok = true -> forall p, start <= p < start + num -> has_path t' p = true) /\
    (0 < num -> PAGE_LIMIT < start + num -> ok = false).
Proof.
  intros Ht Hw Hs Hn.
  destruct (EnsureRange_ok t w R S N start num) as (ok & t' & w' & Heq & (N' & Hsub & Ht' & Hw' & Hg) & Hok);
    [done.. |].
  exists ok, t', w', N'. do 4 (split; [done |]). split; [apply Hg |].
  split; [intros p; by apply grows_has_path |]. split; [done |]. intros Hpos Hlim.
  destruct ok; [| done]. specialize (Hok eq_refl (start + num - 1) ltac:(lia)).
  apply has_path_in_range in Hok. rewrite in_range_spec in Hok by lia. bool_facts. lia.
Qed.

Section RangeWitness.
#[local] Existing Instance release_build.
#[local] Existing Instance bump_backing.
#[local] Existing Instance bump_laws.

Lemma EnsureRange_spec_witness :
exists ok t' w' N', EnsureRange PageMap_init 16 510 5
    = Ok (ok, t', w') /\
  ∅ ⊆ N' /\ radix_ok t' N' /\ bump_rep w' ∅ ∅ N' /\
  (forall p, pm_lookup t' p = pm_lookup PageMap_init p) /\
  (forall p, has_path PageMap_init p = true -> has_path t' p = true) /\
  (ok = true -> forall p, 510 <= p < 510 + 5 -> has_path t' p = true) /\
  (0 < 5 -> PAGE_LIMIT < 510 + 5 -> ok = false).
Proof.
apply (EnsureRange_spec (H1 := bump_laws) PageMap_init 16 ∅ ∅ ∅ 510 5 PageMap_init_ok bump_rep_start); lia.
Defined.

End RangeWitness.

Lemma PageMap_Reset_ok `{BackingLaws W} t w R S N :
  bk_rep w R S N ->
  exists t' w', PageMap_Reset t w = Ok (t', w') /\ radix_ok t' ∅ /\ bk_rep w' R S ∅ /\
    forall p, pm_lookup t' p = 0.
Proof.
  intros Hw. unfold PageMap_Reset. destruct (bk_node_release_ok w R S N Hw) as (w' & -> & Hw').
  rewrite bind_Ok_l. do 2 eexists. split; [done |]. split; [by constructor | done].
Qed.
