(* ===== verification/PageCache.v ===== *)
(** * The page cache (include/ammalloc/page_cache.h, src/page_cache.cpp)

    [PageCache] hands out runs of pages.  Free runs of up to [MAX_PAGE_NUM] pages
    wait in one list per page count; allocation takes an exact run, splits a
    larger one, or refills from the page allocator; release merges the run with
    its free neighbours, which it finds through the page map.  One shard is
    active ([active_shard_count_] is 1 outside the tests), so the state is that of
    shard 0; every function here runs under the shard's mutex.  The invariant is
    in PageCacheInv.v, the theorems on allocation and release in
    PageCacheAlloc.v and PageCacheRelease.v. *)
From S2P Require Import Prelude Config SizeClass Common Span SpanList Backing PageMap.
Open Scope Z_scope.

(** The address of [span_lists_] inside the statically allocated shard. *)
Class StaticLayout := { span_lists_addr : Z }.

(** ** State *)

Record PageCache (W : Type) := mkPageCache {
  pc_spans : spans;
  pc_map : PageMap;
  pc_w : W
}.
Arguments mkPageCache {W} _ _ _.
Arguments pc_spans {W} _.
Arguments pc_map {W} _.
Arguments pc_w {W} _.

Definition active_shard_count : Z := 1.
Definition SelectShardForAlloc (page_num : Z) : Z := 0.

Section Ops.
Context `{Build} `{StaticLayout} {W : Type} `{Backing W}.

Definition with_spans (s : PageCache W) (st : spans) : PageCache W :=
  mkPageCache st (pc_map s) (pc_w s).
Definition with_map (s : PageCache W) (t : PageMap) : PageCache W :=
  mkPageCache (pc_spans s) t (pc_w s).
Definition with_w (s : PageCache W) (w : W) : PageCache W :=
  mkPageCache (pc_spans s) (pc_map s) w.

(** The sentinel of [span_lists_[i]]; a [SpanList] fills one cache line. *)
Definition list_head (i : Z) : Z := span_lists_addr + CACHE_LINE_SIZE * i.

Definition IsBucketEmpty (s : PageCache W) (bucket_idx : Z) : outcome bool :=
  _ ← AM_DCHECK (bucket_idx <? MAX_PAGE_NUM + 1) "bucket_idx < span_lists_.size()";
  sl_empty (pc_spans s) (list_head bucket_idx).

(** [span_pool_.TryNew(start, num)]; 0 is null. *)
Definition new_span (s : PageCache W) (start num : Z) : outcome (Z * PageCache W) :=
  '(a, w) ← bk_span_TryNew (pc_w s);
  if a =? 0 then Ok (0, with_w s w)
  else Ok (a, mkPageCache (<[a := Span_new start num]> (pc_spans s)) (pc_map s) w).

(** [span_pool_.Delete(span)]: the descriptor's lifetime ends. *)
Definition delete_span (s : PageCache W) (a : Z) : outcome (PageCache W) :=
  w ← bk_span_Delete a (pc_w s);
  Ok (mkPageCache (delete a (pc_spans s)) (pc_map s) w).

Definition update (s : PageCache W) (a : Z) (f : Span -> Span) : outcome (PageCache W) :=
  st ← upd_span (pc_spans s) a f; Ok (with_spans s st).

Definition publish (s : PageCache W) (a : Z) : outcome (PageCache W) :=
  t ← SetSpan (pc_map s) (pc_spans s) a; Ok (with_map s t).

Definition system_free (s : PageCache W) (ptr num : Z) : outcome (PageCache W) :=
  w ← bk_SystemFree ptr num (pc_w s); Ok (with_w s w).

(** Maps [num] fresh pages under a new descriptor; null on any failure, after
    undoing the earlier steps. *)
Definition map_run (s : PageCache W) (num : Z) : outcome (Z * PageCache W) :=
  '(ptr, w) ← bk_SystemAlloc num (pc_w s);
  let s := with_w s w in
  if ptr =? 0 then Ok (0, s)
  else
    '(a, s) ← new_span s (PtrToPageId ptr) (u32 num);
    if a =? 0 then s ← system_free s ptr num; Ok (0, s)
    else
      d ← get_span (pc_spans s) a;
      '(ok, t, w) ← EnsureRange (pc_map s) (pc_w s) (start_page_idx d) (page_num d);
      let s := mkPageCache (pc_spans s) t w in
      if ok : bool then Ok (a, s)
      else s ← delete_span s a; s ← system_free s ptr num; Ok (0, s).

Definition alloc_large (s : PageCache W) (num : Z) : outcome (Z * PageCache W) :=
  '(a, s) ← map_run s num;
  if a =? 0 then Ok (0, s)
  else s ← update s a (fun d => with_owner (SetCommitted (SetUsed d true) true) 0);
       s ← publish s a;
       Ok (a, s).

(** The refill branch; the loop then starts over. *)
Definition refill (s : PageCache W) : outcome (bool * PageCache W) :=
  '(a, s) ← map_run s MAX_PAGE_NUM;
  if a =? 0 then Ok (false, s)
  else
    let '(now, w) := bk_now (pc_w s) in
    s ← update (with_w s w) a
          (fun d => with_owner (with_time (SetCommitted (SetUsed d false) true) now) 0);
    st ← push_front (pc_spans s) (list_head MAX_PAGE_NUM) a;
    s ← publish (with_spans s st) a;
    Ok (true, s).

(** [for (i = page_num + 1; i <= MAX_PAGE_NUM; ++i) if (!span_lists_[i].empty()) ...] *)
Fixpoint find_bucket (st : spans) (n : nat) (i : Z) : outcome (option Z) :=
  match n with
  | O => Ok None
  | S n' => e ← sl_empty st (list_head i);
            if e : bool then find_bucket st n' (i + 1) else Ok (Some i)
  end.

(** Splits the first span of bucket [i]. *)
Definition split_bucket (s : PageCache W) (i num : Z) : outcome (Z * PageCache W) :=
  '(big, st) ← pop_front (pc_spans s) (list_head i);
  let s := with_spans s st in
  _ ← AM_DCHECK (negb (big =? 0)) "big_span != nullptr";
  b ← get_span (pc_spans s) big;
  _ ← AM_DCHECK (page_num b =? i) "big_span->page_num == i";
  _ ← AM_DCHECK (negb (IsUsed b)) "!big_span->IsUsed()";
  '(small, s) ← new_span s (start_page_idx b) (u32 num);
  if small =? 0
  then st ← push_front (pc_spans s) (list_head i) big; Ok (0, with_spans s st)
  else
    s ← update s small (fun d => with_owner (SetCommitted (SetUsed d true) true) (owner_shard_id b));
    let '(now, w) := bk_now (pc_w s) in
    s ← update (with_w s w) big (fun d =>
          let d := with_pages d (u64 (start_page_idx d + num)) (u32 (page_num d - u32 num)) in
          with_time (SetCommitted (SetUsed d false) true) now);
    b ← get_span (pc_spans s) big;
    st ← push_front (pc_spans s) (list_head (page_num b)) big;
    s ← publish (with_spans s st) small;
    s ← publish s big;
    Ok (small, s).

(** The [while (true)] of [AllocSpanLocked]. *)
Fixpoint alloc_loop (fuel : nat) (s : PageCache W) (num : Z) : outcome (Z * PageCache W) :=
  match fuel with
  | O => NoFuel
  | S fuel' =>
      if MAX_PAGE_NUM <? num then alloc_large s num
      else
        _ ← AM_DCHECK ((1 <=? num) && (num <=? MAX_PAGE_NUM)) "page_num >= 1 && page_num <= MAX_PAGE_NUM";
        e ← sl_empty (pc_spans s) (list_head num);
        if negb e
        then '(a, st) ← pop_front (pc_spans s) (list_head num);
             s ← update (with_spans s st) a (fun d => SetCommitted (SetUsed d true) true);
             Ok (a, s)
        else
          b ← find_bucket (pc_spans s) (Z.to_nat (MAX_PAGE_NUM - num)) (num + 1);
          match b with
          | Some i => split_bucket s i num
          | None => '(ok, s) ← refill s;
                    if ok : bool then alloc_loop fuel' s num else Ok (0, s)
          end
  end.

Definition AllocSpanLocked (s : PageCache W) (num : Z) : outcome (Z * PageCache W) :=
  if (num =? 0) || (UINT32_MAX <? num) then Ok (0, s)
  else alloc_loop 2 s num.

Definition AllocSpan (s : PageCache W) (num : Z) : outcome (Z * PageCache W) :=
  let shard_id := SelectShardForAlloc num in
  _ ← AM_DCHECK (shard_id <? active_shard_count) "shard_id < active_shard_count_";
  '(a, s) ← AllocSpanLocked s num;
  if a =? 0 then Ok (0, s)
  else s ← update s a (fun d => with_owner d shard_id); Ok (a, s).

(** The merge condition of both coalescing loops. *)
Definition can_merge (d other : Span) : bool :=
  negb (IsUsed other) && (owner_shard_id other =? owner_shard_id d) &&
  (u32 (page_num d + page_num other) <=? MAX_PAGE_NUM).

(** [span_lists_[other->page_num].erase(other)] *)
Definition unlist (s : PageCache W) (other : Z) : outcome (PageCache W) :=
  o ← get_span (pc_spans s) other;
  '(_, st) ← erase (pc_spans s) (list_head (page_num o)) other;
  Ok (with_spans s st).

Fixpoint merge_left (fuel : nat) (s : PageCache W) (span retired : Z) : outcome (Z * PageCache W) :=
  match fuel with
  | O => NoFuel
  | S fuel' =>
      d ← get_span (pc_spans s) span;
      if start_page_idx d =? 0 then Ok (retired, s)
      else
        left ← GetSpan (pc_map s) (start_page_idx d - 1);
        if left =? 0 then Ok (retired, s)
        else
          l ← get_span (pc_spans s) left;
          if negb (can_merge d l) then Ok (retired, s)
          else
            s ← unlist s left;
            s ← update s span (fun d => with_pages d (start_page_idx l) (u32 (page_num d + page_num l)));
            st ← set_next (pc_spans s) left retired;
            merge_left fuel' (with_spans s st) span left
  end.

Fixpoint merge_right (fuel : nat) (s : PageCache W) (span retired : Z) : outcome (Z * PageCache W) :=
  match fuel with
  | O => NoFuel
  | S fuel' =>
      d ← get_span (pc_spans s) span;
      right ← GetSpan (pc_map s) (u64 (start_page_idx d + page_num d));
      if right =? 0 then Ok (retired, s)
      else
        r ← get_span (pc_spans s) right;
        if negb (can_merge d r) then Ok (retired, s)
        else
          s ← unlist s right;
          s ← update s span (fun d => with_pages d (start_page_idx d) (u32 (page_num d + page_num r)));
          st ← set_next (pc_spans s) right retired;
          merge_right fuel' (with_spans s st) span right
  end.

(** [while (retired_spans) { next = retired_spans->next; Delete(retired_spans); ... }] *)
Fixpoint delete_retired (fuel : nat) (s : PageCache W) (retired : Z) : outcome (PageCache W) :=
  if retired =? 0 then Ok s
  else match fuel with
  | O => NoFuel
  | S fuel' =>
      r ← get_span (pc_spans s) retired;
      let next_span := sp_next r in
      s ← delete_span s retired;
      delete_retired fuel' s next_span
  end.

Definition ReleaseSpanLocked (s : PageCache W) (span : Z) : outcome (PageCache W) :=
  _ ← AM_DCHECK (negb (span =? 0)) "span != nullptr";
  d ← get_span (pc_spans s) span;
  if MAX_PAGE_NUM <? page_num d
  then
    let ptr := GetPageBaseAddr d in
    t ← ClearRange (pc_map s) (start_page_idx d) (page_num d);
    s ← system_free (with_map s t) ptr (page_num d);
    delete_span s span
  else
    '(retired, s) ← merge_left (Z.to_nat MAX_PAGE_NUM) s span 0;
    '(retired, s) ← merge_right (Z.to_nat MAX_PAGE_NUM) s span retired;
    let '(now, w) := bk_now (pc_w s) in
    s ← update (with_w s w) span (fun d =>
          with_time (with_usage (with_grid (SetCommitted (SetUsed d false) true)
            (size_class_idx d) 0 0 0) 0 (scan_cursor d)) now);
    s ← publish s span;
    s ← delete_retired (Z.to_nat MAX_PAGE_NUM) s retired;
    d ← get_span (pc_spans s) span;
    st ← push_front (pc_spans s) (list_head (page_num d)) span;
    Ok (with_spans s st).

Definition ReleaseSpan (s : PageCache W) (span : Z) : outcome (PageCache W) :=
  _ ← AM_DCHECK (negb (span =? 0)) "span != nullptr";
  d ← get_span (pc_spans s) span;
  _ ← AM_DCHECK (owner_shard_id d <? active_shard_count) "owner_shard_id < active_shard_count_";
  ReleaseSpanLocked s span.

(** [while (!list.empty()) { span = list.pop_front(); SystemFree(...); Delete(span); }] *)
Fixpoint reset_list (fuel : nat) (s : PageCache W) (head : Z) : outcome (PageCache W) :=
  e ← sl_empty (pc_spans s) head;
  if e : bool then Ok s
  else match fuel with
  | O => NoFuel
  | S fuel' =>
      '(span, st) ← pop_front (pc_spans s) head;
      let s := with_spans s st in
      _ ← AM_DCHECK (negb (span =? 0)) "span != nullptr";
      d ← get_span (pc_spans s) span;
      s ← system_free s (GetPageBaseAddr d) (page_num d);
      s ← delete_span s span;
      reset_list fuel' s head
  end.

Definition ResetLocked (fuel : nat) (s : PageCache W) : outcome (PageCache W) :=
  s ← for_range 0 (MAX_PAGE_NUM + 1) (fun i s => reset_list fuel s (list_head i)) s;
  w ← bk_span_ReleaseMemory (pc_w s);
  Ok (with_w s w).

Definition PageCache_Reset (fuel : nat) (s : PageCache W) : outcome (PageCache W) :=
  s ← ResetLocked fuel s;
  '(t, w) ← PageMap_Reset (pc_map s) (pc_w s);
  Ok (mkPageCache (pc_spans s) t w).

(** Static construction of the shard and of the page map: every list empty. *)
Definition sentinels : spans :=
  list_to_map (map (fun i => (list_head i, Span_new 0 0)) (seqZ 0 (MAX_PAGE_NUM + 1))).

Definition PageCache_init (w : W) : outcome (PageCache W) :=
  st ← for_range 0 (MAX_PAGE_NUM + 1) (fun i st => SpanList_new st (list_head i)) sentinels;
  Ok (mkPageCache st PageMap_init w).
End Ops.
