(* ===== verification/PageCacheInv.v ===== *)
(** * The page cache invariant

    The ghost state of the page cache, the invariant of its descriptor store,
    free lists and page map, and the steps the operations are made of: list
    moves, descriptor writes, publication in the page map and the mapping of a
    fresh run with its undo path. *)
From S2P Require Import Prelude Config SizeClass Common Span SpanList Backing PageMap PageCache.
Open Scope Z_scope.

(** ** Ghost state

    [D] gives every live descriptor its run, [U] are the used ones, [X] the ones
    on no free list, [L] the contents of the lists, [R] the pages owned by the
    clients of the page allocator, [K] the pages of the static image. *)

Abbreviation runs := (gmap Z (Z * Z)).

Definition covers (D : runs) (a p : Z) : Prop :=
  exists start num, D !! a = Some (start, num) /\ start <= p < start + num.

Definition upd_list (L : Z -> list Z) (i : Z) (l : list Z) : Z -> list Z :=
  fun j => if decide (j = i) then l else L j.

Section Core.
Context `{Build} `{StaticLayout}.

Definition is_head (a : Z) : Prop := exists i, 0 <= i <= MAX_PAGE_NUM /\ a = list_head i.

(** A run a descriptor may hold. *)
Record run_geom (K R : gset Z) (a start num : Z) : Prop := {
  rg_addr : a <> 0;
  rg_own : a / PAGE_SIZE ∉ K;
  rg_start : 0 < start;
  rg_num : 0 < num <= UINT32_MAX;
  rg_top : start + num < PAGE_LIMIT;
  rg_pages : pages start num ⊆ R;
  rg_static : pages start num ## K;
}.

(** No object grid: what a run without objects has in those members. *)
Definition clean (d : Span) : Prop :=
  aligned_obj_size d = 0 /\ capacity d = 0 /\ use_count d = 0 /\ obj_offset d = 0.

(** What the descriptor store looks like. *)
Record core (st : spans) (D : runs) (U X K R : gset Z) (L : Z -> list Z) : Prop := {
  co_desc : forall a start num, D !! a = Some (start, num) ->
    exists d, st !! a = Some d /\ start_page_idx d = start /\ page_num d = num /\
      IsUsed d = bool_decide (a ∈ U) /\ owner_shard_id d = 0 /\ ((a ∉ U) -> clean d);
  co_geom : forall a start num, D !! a = Some (start, num) -> run_geom K R a start num;
  co_used : U ⊆ dom D;
  co_held : X ⊆ dom D;
  co_lists : forall i, 0 <= i <= MAX_PAGE_NUM -> dll st (list_head i) (L i);
  co_member : forall i a, 0 <= i <= MAX_PAGE_NUM ->
    a ∈ L i <-> (a ∉ X) /\ exists start, D !! a = Some (start, i);
  co_listed : forall a start num, D !! a = Some (start, num) -> a ∉ X -> num <= MAX_PAGE_NUM;
  co_static : forall i, 0 <= i <= MAX_PAGE_NUM -> list_head i <> 0 /\ list_head i / PAGE_SIZE ∈ K;
}.

Lemma list_head_inj i j : list_head i = list_head j -> i = j.
Proof. unfold list_head, CACHE_LINE_SIZE. lia. Qed.

(** Descriptors are not sentinels. *)
Lemma co_not_head st D U X K R L a : core st D U X K R L -> a ∈ dom D -> ~ is_head a.
Proof.
  intros Hc [[s n] Ha]%elem_of_dom (i & Hi & ->).
  destruct (co_geom _ _ _ _ _ _ _ Hc _ _ _ Ha) as [_ Hown _ _ _ _ _].
  by destruct (co_static _ _ _ _ _ _ _ Hc i Hi).
Qed.

Lemma co_in_list st D U X K R L i a :
  core st D U X K R L -> 0 <= i <= MAX_PAGE_NUM -> a ∈ list_head i :: L i ->
  a = list_head i \/ (a ∈ dom D /\ (a ∉ X)).
Proof.
  intros Hc Hi [-> | Ha]%elem_of_cons; [by left | right].
  apply (co_member _ _ _ _ _ _ _ Hc) in Ha as [HaH [s Ha]]; [| done].
  split; [by apply elem_of_dom; eexists | done].
Qed.

(** Only descriptors on no list, and the sentinels of the lists named, change. *)
Definition spans_kept (T : gset Z) (st st' : spans) : Prop :=
  forall a, a ∉ T -> ~ is_head a -> st' !! a = st !! a.

(** Writing a descriptor that is on no list. *)
Lemma core_set st D U X K R L a d :
  core st D U X K R L -> (a ∈ X \/ (a ∉ dom D)) ->
  run_geom K R a (start_page_idx d) (page_num d) -> owner_shard_id d = 0 ->
  (IsUsed d = false -> clean d) ->
  core (<[a := d]> st) (<[a := (start_page_idx d, page_num d)]> D)
    (if IsUsed d then {[a]} ∪ U else U ∖ {[a]}) ({[a]} ∪ X) K R L.
Proof.
  intros Hc Ha Hg Ho Hcl. assert (Hnl : forall i, 0 <= i <= MAX_PAGE_NUM -> a ∉ list_head i :: L i).
  { intros i Hi Hin. destruct (co_in_list _ _ _ _ _ _ _ _ _ Hc Hi Hin) as [-> | [H1 H2]].
    - destruct (co_static _ _ _ _ _ _ _ Hc i Hi) as [_ HK]. by apply (rg_own _ _ _ _ _ Hg).
    - tauto. }
  constructor.
  - intros b s n. destruct (decide (b = a)) as [-> | Hne].
    + rewrite !lookup_insert_eq. intros [= <- <-]. exists d. split_and!; try done.
      * destruct (IsUsed d); symmetry; [apply bool_decide_eq_true | apply bool_decide_eq_false]; set_solver.
      * intros Hau. apply Hcl. destruct (IsUsed d); [set_solver | done].
    + rewrite !lookup_insert_ne by done. intros Hb.
      destruct (co_desc _ _ _ _ _ _ _ Hc b s n Hb) as (e & He & Hs & Hn & Hu & Hoe & Hce).
      exists e. split_and!; try done.
      * rewrite Hu. apply bool_decide_ext. destruct (IsUsed d); set_solver.
      * intros Hbu. apply Hce. destruct (IsUsed d); set_solver.
  - intros b s n. destruct (decide (b = a)) as [-> | Hne].
    + rewrite lookup_insert_eq. by intros [= <- <-].
    + rewrite lookup_insert_ne by done. by apply Hc.
  - rewrite dom_insert_L. pose proof (co_used _ _ _ _ _ _ _ Hc). destruct (IsUsed d); set_solver.
  - rewrite dom_insert_L. pose proof (co_held _ _ _ _ _ _ _ Hc). set_solver.
  - intros i Hi. eapply dll_frame; [| | by apply Hc].
    + apply (spans_frame_insert st a d).
    + intros b Hb Hb1. apply list_elem_of_singleton in Hb1 as ->. by apply (Hnl i Hi).
  - intros i b Hi. rewrite (co_member _ _ _ _ _ _ _ Hc) by done.
    destruct (decide (b = a)) as [-> | Hne].
    + split; [| set_solver]. intros HaL. exfalso. apply (Hnl i Hi), elem_of_cons. right.
      by apply (co_member _ _ _ _ _ _ _ Hc).
    + rewrite lookup_insert_ne by done. set_solver.
  - intros b s n. destruct (decide (b = a)) as [-> | Hne]; [set_solver |].
    rewrite lookup_insert_ne by done. intros Hb Hbh. eapply (co_listed _ _ _ _ _ _ _ Hc); [done |]. set_solver.
  - apply Hc.
Qed.

Lemma same_data_desc st st' a d :
  same_data st st' -> st !! a = Some d ->
  exists d', st' !! a = Some d' /\ d' = with_links d (sp_next d') (sp_prev d').
Proof.
  intros Hs Ha. specialize (Hs a). rewrite Ha in Hs. destruct (st' !! a) as [d' |]; [| done].
  exists d'. split; [done |]. simpl in Hs. injection Hs as Hs. destruct d, d'. unfold span_data, with_links in *.
  simpl in *. congruence.
Qed.

(** A list operation on bucket [i] that moves descriptors of [i] pages on or
    off the list. *)
Lemma core_relist st st' D U X X' K R L i l' ls :
  core st D U X K R L -> 0 <= i <= MAX_PAGE_NUM -> dll st' (list_head i) l' ->
  same_data st st' -> spans_frame ls st st' ->
  (forall b, b ∈ ls -> b = list_head i \/ b ∈ L i \/ b ∈ X) -> X' ⊆ dom D ->
  (forall b, b ∈ l' <-> (b ∉ X') /\ exists start, D !! b = Some (start, i)) ->
  (forall b start num, D !! b = Some (start, num) -> num <> i -> b ∈ X' <-> b ∈ X) ->
  core st' D U X' K R (upd_list L i l').
Proof.
  intros Hc Hi Hl Hs Hf Hls HX Hmem Hoth. constructor.
  - intros a s n Ha. destruct (co_desc _ _ _ _ _ _ _ Hc a s n Ha) as (d & Hd & ? & ? & Hu & ?).
    destruct (same_data_desc st st' a d Hs Hd) as (d' & Hd' & Heq).
    exists d'. split; [done |]. rewrite Heq. done.
  - apply Hc.
  - apply Hc.
  - done.
  - intros j Hj. unfold upd_list. case_decide as Hji; [by subst j |].
    eapply dll_frame; [exact Hf | | by apply Hc].
    intros b Hb Hbls. apply Hls in Hbls.
    destruct (co_in_list _ _ _ _ _ _ _ j b Hc Hj Hb) as [-> | [Hdom HbX]].
    + destruct Hbls as [Hh | [HL | HX2]].
      * by apply list_head_inj in Hh.
      * apply (co_member _ _ _ _ _ _ _ Hc) in HL as (_ & s & HL); [| done].
        eapply (co_not_head _ _ _ _ _ _ _ _ Hc); [apply elem_of_dom; by eexists |]. by exists j.
      * eapply (co_not_head _ _ _ _ _ _ _ _ Hc); [by apply (co_held _ _ _ _ _ _ _ Hc) |]. by exists j.
    + apply elem_of_cons in Hb as [-> | Hb].
      * eapply (co_not_head _ _ _ _ _ _ _ _ Hc); [exact Hdom |]. by exists j.
      * apply (co_member _ _ _ _ _ _ _ Hc) in Hb as (_ & s & Hb); [| done].
        destruct Hbls as [-> | [HL | HX2]]; [| | done].
        -- eapply (co_not_head _ _ _ _ _ _ _ _ Hc); [exact Hdom |]. by exists i.
        -- apply (co_member _ _ _ _ _ _ _ Hc) in HL as (_ & s2 & HL); [| done]. congruence.
  - intros j b Hj. unfold upd_list. case_decide as Hji; [by subst j |].
    rewrite (co_member _ _ _ _ _ _ _ Hc) by done.
    split; intros [HbX (s & Hb)]; (split; [| by eexists]); by rewrite (Hoth b s j Hb) in *.
  - intros b s n Hb HbX. destruct (decide (n = i)) as [-> |]; [lia |].
    apply (co_listed _ _ _ _ _ _ _ Hc b s n Hb). by rewrite (Hoth b s n Hb) in HbX.
  - apply Hc.
Qed.

Lemma core_dom st D U X K R L a :
  core st D U X K R L -> a ∈ dom D -> a <> 0 /\ is_Some (st !! a).
Proof.
  intros Hc [[s n] Ha]%elem_of_dom. split; [by apply (co_geom _ _ _ _ _ _ _ Hc _ _ _ Ha) |].
  destruct (co_desc _ _ _ _ _ _ _ Hc a s n Ha) as (d & -> & _). by eexists.
Qed.

Lemma core_push st D U X K R L a start num :
  core st D U X K R L -> a ∈ X -> D !! a = Some (start, num) -> num <= MAX_PAGE_NUM ->
  exists st', push_front st (list_head num) a = Ok st' /\
    core st' D U (X ∖ {[a]}) K R (upd_list L num (a :: L num)) /\
    same_data st st' /\ spans_frame (a :: list_head num :: L num) st st'.
Proof.
  intros Hc HaX Ha Hn. pose proof (rg_num _ _ _ _ _ (co_geom _ _ _ _ _ _ _ Hc _ _ _ Ha)).
  assert (Hdom : a ∈ dom D) by (apply elem_of_dom; by eexists).
  destruct (core_dom _ _ _ _ _ _ _ _ Hc Hdom) as [Ha0 Hm].
  destruct (push_front_dll st (list_head num) (L num) a) as (st' & Heq & Hl & Hs & Hf);
    [by apply Hc; lia | | done | done |].
  { intros Hin. destruct (co_in_list _ _ _ _ _ _ _ num a Hc ltac:(lia) Hin) as [-> | [_ HX]]; [| done].
    eapply (co_not_head _ _ _ _ _ _ _ _ Hc); [exact Hdom |]. exists num. split; [lia | done]. }
  exists st'. split; [done |]. split; [| done].
  eapply (core_relist st st'); [exact Hc | lia | exact Hl | exact Hs | exact Hf | | | |].
  - intros b Hb. apply elem_of_cons in Hb as [-> | Hb]; [tauto |].
    apply elem_of_cons in Hb as [-> | Hb]; tauto.
  - pose proof (co_held _ _ _ _ _ _ _ Hc). set_solver.
  - intros b. rewrite elem_of_cons, (co_member _ _ _ _ _ _ _ Hc) by lia. split.
    + intros [-> | [HbX Hb]]; [split; [set_solver | eauto] | split; [set_solver | done]].
    + intros [HbX Hb]. destruct (decide (b = a)); [by left | right]. split; [set_solver | done].
  - intros b s n Hb Hne. assert (b <> a) by (intros ->; congruence). set_solver.
Qed.

(** Removing the element [a] of bucket [i], by position. *)
Lemma core_unlist st st' D U X K R L i a l1 l2 :
  core st D U X K R L -> 0 <= i <= MAX_PAGE_NUM -> L i = l1 ++ a :: l2 ->
  dll st' (list_head i) (l1 ++ l2) -> same_data st st' ->
  spans_frame (list_head i :: L i) st st' ->
  core st' D U ({[a]} ∪ X) K R (upd_list L i (l1 ++ l2)) /\
  (a ∉ X) /\ exists start, D !! a = Some (start, i).
Proof.
  intros Hc Hi HL Hl Hs Hf.
  assert (Ha : a ∈ L i) by (rewrite HL; set_solver).
  apply (co_member _ _ _ _ _ _ _ Hc) in Ha as (HaX & s & Ha); [| done].
  split; [| split; [done | by exists s]].
  assert (Hnd : NoDup (l1 ++ a :: l2)).
  { rewrite <- HL. destruct (co_lists _ _ _ _ _ _ _ Hc i Hi) as (_ & [_ ?]%NoDup_cons & _). done. }
  assert (Hout : a ∉ l1 ++ l2).
  { rewrite <- Permutation_middle in Hnd. by apply NoDup_cons in Hnd as [? _]. }
  eapply (core_relist st st'); [exact Hc | done | exact Hl | exact Hs | exact Hf | | | |].
  - intros b [-> | Hb]%elem_of_cons; tauto.
  - pose proof (co_held _ _ _ _ _ _ _ Hc). assert (a ∈ dom D) by (apply elem_of_dom; by eexists). set_solver.
  - intros b. assert (HbL : b ∈ L i <-> b = a \/ b ∈ l1 ++ l2) by (rewrite HL; set_solver).
    rewrite (co_member _ _ _ _ _ _ _ Hc) in HbL by done. split.
    + intros Hb. destruct (proj2 HbL (or_intror Hb)) as [? ?]. split; [| done].
      assert (b <> a) by (by intros ->). set_solver.
    + intros [HbX Hb]. assert (b ∉ X) as HbX2 by set_solver. destruct (proj1 HbL (conj HbX2 Hb)); set_solver.
  - intros b s2 n Hb Hne. assert (b <> a) by (intros ->; congruence). set_solver.
Qed.

Lemma core_pop st D U X K R L i :
  core st D U X K R L -> 0 <= i <= MAX_PAGE_NUM -> L i <> [] ->
  exists a st' start, pop_front st (list_head i) = Ok (a, st') /\
    L i = a :: tail (L i) /\ core st' D U ({[a]} ∪ X) K R (upd_list L i (tail (L i))) /\
    (a ∉ X) /\ D !! a = Some (start, i) /\
    same_data st st' /\ spans_frame (list_head i :: L i) st st'.
Proof.
  intros Hc Hi HL. destruct (pop_front_dll st (list_head i) (L i)) as (st' & Heq & Hl & _ & Hs & Hf);
    [by apply Hc |].
  destruct (L i) as [| a l] eqn:E; [done |]. simpl in *.
  destruct (core_unlist st st' D U X K R L i a [] l) as (Hc' & HaX & s & Ha); try done.
  { by rewrite E. }
  exists a, st', s. done.
Qed.

Lemma core_erase st D U X K R L a start i :
  core st D U X K R L -> (a ∉ X) -> D !! a = Some (start, i) ->
  exists n st' L', erase st (list_head i) a = Ok (n, st') /\
    core st' D U ({[a]} ∪ X) K R L' /\
    same_data st st' /\ spans_frame (list_head i :: L i) st st'.
Proof.
  intros Hc HaX Ha.
  assert (Hi : 0 <= i <= MAX_PAGE_NUM).
  { pose proof (co_listed _ _ _ _ _ _ _ Hc a start i Ha HaX).
    pose proof (rg_num _ _ _ _ _ (co_geom _ _ _ _ _ _ _ Hc _ _ _ Ha)). lia. }
  assert (HaL : a ∈ L i) by (apply (co_member _ _ _ _ _ _ _ Hc); [done |]; eauto).
  apply list_elem_of_split in HaL as (l1 & l2 & HL).
  destruct (erase_dll st (list_head i) l1 l2 a) as (st' & Heq & Hl & _ & _ & Hs & Hf).
  { rewrite <- HL. by apply Hc. }
  destruct (core_unlist st st' D U X K R L i a l1 l2) as (Hc' & _ & _); try done.
  { by rewrite HL. }
  do 3 eexists. split; [exact Heq |]. split; [done |]. split; [done |]. by rewrite HL.
Qed.

(** Dropping a descriptor that is on no list. *)
Lemma core_delete st D U X K R L a :
  core st D U X K R L -> a ∈ X ->
  core (delete a st) (delete a D) (U ∖ {[a]}) (X ∖ {[a]}) K R L.
Proof.
  intros Hc HaX. assert (Hdom : a ∈ dom D) by (by apply (co_held _ _ _ _ _ _ _ Hc)).
  constructor.
  - intros b s n [Hne Hb]%lookup_delete_Some.
    destruct (co_desc _ _ _ _ _ _ _ Hc b s n Hb) as (d & Hd & ? & ? & Hu & ? & Hcl). exists d.
    rewrite lookup_delete_ne by done. split_and!; try done.
    + rewrite Hu. apply bool_decide_ext. set_solver.
    + intros Hbu. apply Hcl. set_solver.
  - intros b s n [Hne Hb]%lookup_delete_Some. by apply Hc.
  - rewrite dom_delete_L. pose proof (co_used _ _ _ _ _ _ _ Hc). set_solver.
  - rewrite dom_delete_L. pose proof (co_held _ _ _ _ _ _ _ Hc). set_solver.
  - intros i Hi. eapply (dll_frame st _ _ _ [a]); [| | by apply Hc].
    + intros b Hb. apply lookup_delete_ne. set_solver.
    + intros b Hb ->%list_elem_of_singleton.
      destruct (co_in_list _ _ _ _ _ _ _ i a Hc Hi Hb) as [-> | [_ ?]]; [| done].
      eapply (co_not_head _ _ _ _ _ _ _ _ Hc); [exact Hdom |]. by exists i.
  - intros i b Hi. rewrite (co_member _ _ _ _ _ _ _ Hc) by done. split.
    + intros [HbX [s Hb]]. assert (b <> a) by (by intros ->). split; [set_solver |].
      exists s. by rewrite lookup_delete_ne by done.
    + intros [HbX [s [Hne Hb]%lookup_delete_Some]]. split; [set_solver | by exists s].
  - intros b s n [Hne Hb]%lookup_delete_Some HbX. eapply (co_listed _ _ _ _ _ _ _ Hc); [done |]. set_solver.
  - apply Hc.
Qed.
End Core.

(** ** The invariant *)

Section Invariant.
Context `{BackingLaws W} `{StaticLayout}.
Implicit Types (s : PageCache W) (D : runs) (U K R N : gset Z) (L : Z -> list Z).

(** The page map is exact: a page is mapped to [a] when [a]'s run holds it. *)
Definition maps (t : PageMap) (D : runs) : Prop :=
  forall p a, 0 <= p -> a <> 0 -> pm_lookup t p = a <-> covers D a p.

Record pc_inv s D U K R N L : Prop := {
  pi_core : core (pc_spans s) D U U K R L;
  pi_w : bk_rep (pc_w s) R (dom D) N;
  pi_map : radix_ok (pc_map s) N;
  pi_maps : maps (pc_map s) D;
  pi_path : forall a p, covers D a p -> has_path (pc_map s) p = true;
  pi_static : K ⊆ R;
}.

(** Used descriptors and foreign sentinels are not written. *)
Definition kept (U K : gset Z) (st st' : spans) : Prop :=
  forall b, b ∈ U \/ (b / PAGE_SIZE ∈ K /\ ~ is_head b) -> st' !! b = st !! b.

Lemma kept_refl U K st : kept U K st st.
Proof. done. Qed.
Lemma kept_trans U K (s1 s2 s3 : spans) : kept U K s1 s2 -> kept U K s2 s3 -> kept U K s1 s3.
Proof. intros H12 H23 b Hb. by rewrite H23, H12. Qed.
Lemma kept_mono U U' K st st' : U' ⊆ U -> kept U K st st' -> kept U' K st st'.
Proof. intros HU Hk b Hb. apply Hk. set_solver. Qed.

(** Runs do not overlap. *)
Lemma maps_disjoint t D a b p : maps t D -> 0 <= p -> a <> 0 -> b <> 0 ->
  covers D a p -> covers D b p -> a = b.
Proof. intros Hm Hp Ha Hb Hca Hcb. apply (Hm p a) in Hca; [| done..]. apply (Hm p b) in Hcb; [| done..]. congruence. Qed.

(** A core only depends on the descriptors it names. *)
Lemma core_ext st st' D U X K R L :
  (forall b, b ∈ dom D \/ is_head b -> st' !! b = st !! b) ->
  core st D U X K R L -> core st' D U X K R L.
Proof.
  intros Heq Hc. constructor; try apply Hc.
  - intros a x n Ha. rewrite Heq by (left; apply elem_of_dom; by eexists). by apply Hc.
  - intros i Hi. eapply dll_ext; [| by apply Hc]. intros b Hb. apply Heq.
    destruct (co_in_list _ _ _ _ _ _ _ i b Hc Hi Hb) as [-> | [? _]]; [right; by exists i | by left].
Qed.

Lemma core_pages st D U X K R R' L :
  (forall a start num, D !! a = Some (start, num) -> pages start num ⊆ R') ->
  core st D U X K R L -> core st D U X K R' L.
Proof.
  intros HR Hc. constructor; try apply Hc. intros a x n Ha.
  destruct (co_geom _ _ _ _ _ _ _ Hc a x n Ha). constructor; try done. by eapply HR.
Qed.

(** Forgetting a descriptor that is on no list without ending its lifetime. *)
Lemma core_forget st D U X K R L a :
  core st D U X K R L -> a ∈ X -> core st (delete a D) (U ∖ {[a]}) (X ∖ {[a]}) K R L.
Proof.
  intros Hc Ha. eapply core_ext; [| by apply (core_delete _ _ _ _ _ _ _ a Hc)].
  intros b Hb. rewrite lookup_delete_ne; [done |]. intros <-.
  destruct Hb as [Hb | Hb]; [rewrite dom_delete_L in Hb; set_solver |].
  eapply (co_not_head _ _ _ _ _ _ _ a Hc); [| done]. by apply (co_held _ _ _ _ _ _ _ Hc).
Qed.

Lemma covers_insert D a start num b p :
  covers (<[a := (start, num)]> D) b p <->
  (b = a /\ start <= p < start + num) \/ (b <> a /\ covers D b p).
Proof.
  unfold covers. destruct (decide (b = a)) as [-> | Hne].
  - rewrite lookup_insert_eq. naive_solver.
  - rewrite lookup_insert_ne by done. naive_solver.
Qed.

Lemma covers_delete D a b p : covers (delete a D) b p <-> b <> a /\ covers D b p.
Proof.
  unfold covers. destruct (decide (b = a)) as [-> | Hne].
  - rewrite lookup_delete_eq. naive_solver.
  - rewrite lookup_delete_ne by done. naive_solver.
Qed.

(** Publishing a run whose pages belong to nobody else. *)
Lemma maps_set t t' D a start num :
  maps t D -> mapped_to t t' start num a -> a <> 0 ->
  (forall b p, start <= p < start + num -> covers D b p -> b = a) ->
  (forall p, covers D a p -> start <= p < start + num) ->
  maps t' (<[a := (start, num)]> D).
Proof.
  intros Hm Hto Ha Hfree Hin p b Hp Hb. rewrite covers_insert, (Hto p Hp).
  case_decide as Hr.
  - split; [intros <-; by left |]. intros [[-> _] | [Hne Hc]]; [done |]. by destruct Hne; eapply Hfree.
  - rewrite (Hm p b Hp Hb). split.
    + intros Hc. destruct (decide (b = a)) as [-> |]; [by apply Hin in Hc | by right].
    + intros [[-> ?] | [_ ?]]; [done | done].
Qed.

Lemma maps_grows t t' D : grows t t' -> maps t D -> maps t' D.
Proof. intros [_ Hg] Hm p a Hp Ha. rewrite Hg. by apply Hm. Qed.

(** [publish] on a prepared run. *)
Lemma publish_ok s N a d :
  radix_ok (pc_map s) N -> pc_spans s !! a = Some d -> a <> 0 ->
  0 <= start_page_idx d -> 0 < page_num d ->
  (forall p, start_page_idx d <= p < start_page_idx d + page_num d -> has_path (pc_map s) p = true) ->
  exists t', publish s a = Ok (with_map s t') /\ radix_ok t' N /\
    (forall p, has_path t' p = has_path (pc_map s) p) /\
    mapped_to (pc_map s) t' (start_page_idx d) (page_num d) a.
Proof.
  intros Ht Hd Ha Hs Hn Hp. unfold publish.
  destruct (SetSpan_ok (pc_map s) N (pc_spans s) a d) as (t' & -> & Ht' & Hsh & Hm); [done.. |].
  exists t'. split; [done |]. split; [done |]. split; [| done].
  intros p. by apply same_shape_has_path.
Qed.

Lemma update_ok s a d f :
  a <> 0 -> pc_spans s !! a = Some d ->
  update s a f = Ok (with_spans s (<[a := f d]> (pc_spans s))).
Proof. intros Ha Hd. unfold update, upd_span. by rewrite (get_span_Some _ _ d). Qed.

Lemma PAGE_LIMIT_le : PAGE_LIMIT <= 35184372088832.
Proof. rewrite PAGE_LIMIT_val. destruct use_57bit_va; lia. Qed.

(** A list operation writes its own nodes and sentinel only. *)
Lemma kept_frame st st' D U X K R L V i ls :
  core st D U X K R L -> V ⊆ X -> 0 <= i <= MAX_PAGE_NUM -> spans_frame ls st st' ->
  (forall b, b ∈ ls -> b = list_head i \/ b ∈ L i \/ (b ∈ dom D /\ b ∉ V)) ->
  kept V K st st'.
Proof.
  intros Hc HV Hi Hf Hls b Hb. apply Hf. intros Hin.
  destruct (co_static _ _ _ _ _ _ _ Hc i Hi) as [_ HK].
  assert (HnK : forall c, c ∈ dom D -> c / PAGE_SIZE ∉ K).
  { intros c [[x n] Hd]%elem_of_dom. apply (co_geom _ _ _ _ _ _ _ Hc _ _ _ Hd). }
  assert (HVD : forall c, c ∈ V -> c ∈ dom D).
  { intros c Hcv. apply (co_held _ _ _ _ _ _ _ Hc). set_solver. }
  destruct (Hls b Hin) as [-> | [HL | [HD HnV]]].
  - destruct Hb as [Hb | [_ Hb]]; [by apply (HnK _ (HVD _ Hb)) | apply Hb; by exists i].
  - apply (co_member _ _ _ _ _ _ _ Hc) in HL as (HX & x & HD); [| done].
    destruct Hb as [Hb | [Hb _]]; [set_solver |].
    apply (HnK b); [apply elem_of_dom; by eexists | done].
  - destruct Hb as [Hb | [Hb _]]; [done | by apply (HnK b)].
Qed.

(** A used run becomes a free run in hand. *)
Lemma core_free st D U K R L a start num d d' :
  core st D U U K R L -> a ∈ U -> D !! a = Some (start, num) -> st !! a = Some d ->
  start_page_idx d' = start_page_idx d -> page_num d' = page_num d -> owner_shard_id d' = owner_shard_id d ->
  IsUsed d' = false -> clean d' -> core (<[a := d']> st) D (U ∖ {[a]}) U K R L.
Proof.
  intros Hc Ha HD Hd Es En Eo Hu Hcl.
  destruct (co_desc _ _ _ _ _ _ _ Hc a start num HD) as (e & He & Hs & Hn & _ & Ho & _).
  rewrite Hd in He. injection He as <-. pose proof (core_set st D U U K R L a d' Hc (or_introl Ha)) as Hset.
  rewrite Hu, Es, En, Hs, Hn, (insert_id D) in Hset by done. replace ({[a]} ∪ U) with U in Hset by (clear - Ha; set_solver).
  apply Hset; [by apply (co_geom _ _ _ _ _ _ _ Hc) | congruence | done].
Qed.

(** Putting a run in hand on a list. *)
Lemma kept_push st st' D U X K R L V i a :
  core st D U X K R L -> V ⊆ X -> 0 <= i <= MAX_PAGE_NUM -> a ∈ dom D -> a ∉ V ->
  spans_frame (a :: list_head i :: L i) st st' -> kept V K st st'.
Proof.
  intros Hc HV Hi Ha HaV Hf. eapply kept_frame; [exact Hc | done | exact Hi | exact Hf |].
  intros b [-> | [-> | Hb]%elem_of_cons]%elem_of_cons; [by right; right | by left | by right; left].
Qed.

(** ** Mapping a fresh run *)

(** The descriptors [D] names and the static ones are as in [s]. *)
Definition same_live (D : runs) (K : gset Z) (st st' : spans) : Prop :=
  forall b, b ∈ dom D \/ b / PAGE_SIZE ∈ K -> st' !! b = st !! b.

Lemma same_live_kept st D U X K R L st' :
  core st D U X K R L -> same_live D K st st' -> kept U K st st'.
Proof.
  intros Hc Hs b Hb. apply Hs. destruct Hb as [Hb | [Hb _]]; [left | by right].
  by apply (co_used _ _ _ _ _ _ _ Hc).
Qed.

Lemma same_live_core st D U X K R L st' :
  same_live D K st st' -> core st D U X K R L -> core st' D U X K R L.
Proof.
  intros Hs Hc. eapply core_ext; [| exact Hc]. intros b [Hb | (i & Hi & ->)]; apply Hs; [by left | right].
  by apply (co_static _ _ _ _ _ _ _ Hc).
Qed.

Lemma same_live_insert st D K a d :
  a ∉ dom D -> a / PAGE_SIZE ∉ K -> same_live D K st (<[a := d]> st).
Proof. intros HD HK b Hb. apply lookup_insert_ne. intros <-. tauto. Qed.

(** Giving the pages back after a later step failed. *)
Lemma undo_ok s s2 D U K R N N' L pid num :
  pc_inv s D U K R N L -> 0 < pid -> 0 < num -> pid + num < PAGE_LIMIT -> R ## pages pid num ->
  same_live D K (pc_spans s) (pc_spans s2) -> grows (pc_map s) (pc_map s2) ->
  radix_ok (pc_map s2) N' -> bk_rep (pc_w s2) (R ∪ pages pid num) (dom D) N' ->
  exists s', system_free s2 (pid * PAGE_SIZE) num = Ok s' /\
    pc_inv s' D U K R N' L /\ kept U K (pc_spans s) (pc_spans s').
Proof.
  intros Hi Hpid Hnum Htop Hfresh Hs2 Hg Ht Hw. unfold system_free.
  destruct (bk_free_ok (pc_w s2) _ _ _ pid num Hw) as (w3 & -> & Hw3); [lia | lia | lia | set_solver |].
  rewrite bind_Ok_l. eexists. split; [done |].
  assert (HR : (R ∪ pages pid num) ∖ pages pid num = R) by set_solver. rewrite HR in Hw3.
  split; [| eapply same_live_kept; [apply Hi | done]].
  constructor; [| done | done | | | apply Hi].
  - eapply same_live_core; [done | apply Hi].
  - eapply maps_grows; [done | apply Hi].
  - intros b p Hb. eapply grows_has_path; [done |]. by eapply pi_path.
Qed.

(** A new descriptor and its run, not yet on a list nor published. *)
Record fresh_run s D U K R L s' a pid num : Prop := {
  fr_geom : run_geom K (R ∪ pages pid num) a pid num;
  fr_new : a ∉ dom D;
  fr_pages : R ## pages pid num;
  fr_spans : pc_spans s' = <[a := Span_new pid num]> (pc_spans s);
  fr_maps : maps (pc_map s') D;
  fr_path : forall b p, covers D b p -> has_path (pc_map s') p = true;
  fr_ready : forall p, pid <= p < pid + num -> has_path (pc_map s') p = true;
  fr_w : exists N', bk_rep (pc_w s') (R ∪ pages pid num) ({[a]} ∪ dom D) N' /\ radix_ok (pc_map s') N';
}.

Lemma map_run_ok s D U K R N L num :
  pc_inv s D U K R N L -> 0 < num <= UINT32_MAX ->
  exists a s', map_run s num = Ok (a, s') /\
    ((a = 0 /\ exists N', pc_inv s' D U K R N' L /\ kept U K (pc_spans s) (pc_spans s')) \/
     a <> 0 /\ exists pid, fresh_run s D U K R L s' a pid num).
Proof.
  intros Hi Hnum. unfold UINT32_MAX in Hnum. pose proof (pi_static _ _ _ _ _ _ _ Hi) as HKR.
  unfold map_run. destruct (bk_alloc_ok (pc_w s) R (dom D) N num) as (ptr & w1 & -> & Hp);
    [apply Hi | lia |]. rewrite bind_Ok_l. cbn iota beta zeta.
  destruct Hp as [[-> Hw1] | (pid & -> & _ & Hpid & Htop & Hfresh & Hw1)].
  { do 2 eexists. split; [done |]. left. split; [done |]. exists N. split; [| done].
    destruct Hi. by constructor. }
  pose proof PAGE_LIMIT_le. rewrite (proj2 (Z.eqb_neq _ 0)) by (unfold PAGE_SIZE; lia).
  assert (PtrToPageId (pid * PAGE_SIZE) = pid) as ->.
  { unfold PtrToPageId. rewrite page_unshift_spec. apply Z.div_mul. done. }
  rewrite u32_id by lia. unfold new_span. cbn [pc_w with_w].
  destruct (bk_span_new_ok w1 _ _ _ Hw1) as (a & w2 & -> & Ha). rewrite bind_Ok_l. cbn iota beta.
  destruct Ha as [[-> Hw2] | (Ha0 & HaD & HaR & Hw2)].
  { rewrite Z.eqb_refl, bind_Ok_l. cbn iota beta. rewrite Z.eqb_refl.
    destruct (undo_ok s (with_w (with_w s w1) w2) D U K R N N L pid num Hi) as (s' & -> & Hi' & Hk);
      [done | lia | done | done | done | done | apply Hi | done |].
    rewrite bind_Ok_l. do 2 eexists. split; [done |]. left. split; [done |]. by exists N. }
  assert (HaK : a / PAGE_SIZE ∉ K) by set_solver.
  rewrite (proj2 (Z.eqb_neq a 0)), bind_Ok_l by done. cbn iota beta.
  rewrite (proj2 (Z.eqb_neq a 0)) by done. cbn [pc_spans pc_map pc_w with_w].
  rewrite (get_span_Some _ a (Span_new pid num)), bind_Ok_l by (done || apply lookup_insert_eq).
  cbn [start_page_idx page_num Span_new].
  destruct (EnsureRange_ok (pc_map s) w2 (R ∪ pages pid num) ({[a]} ∪ dom D) N pid num) as (ok & t & w3 & -> & (N' & Hsub & Ht' & Hw3 & Hg) & Hok);
    [apply Hi | done | lia | lia |].
  rewrite bind_Ok_l. cbn iota beta zeta. destruct ok.
  - exists a. eexists. split; [done |]. right. split; [done |]. exists pid. constructor; cbn [pc_spans pc_map pc_w].
    + constructor; unfold UINT32_MAX; try done; try lia; set_solver.
    + done.
    + done.
    + done.
    + eapply maps_grows; [done | apply Hi].
    + intros b p Hb. eapply grows_has_path; [done |]. by eapply pi_path.
    + by apply Hok.
    + by exists N'.
  - unfold delete_span. cbn [pc_w pc_spans pc_map].
    destruct (bk_span_delete_ok w3 _ _ _ a Hw3) as (w4 & -> & Hw4); [set_solver |]. rewrite !bind_Ok_l.
    assert (Hdom : ({[a]} ∪ dom D) ∖ {[a]} = dom D) by set_solver. rewrite Hdom in Hw4.
    destruct (undo_ok s (mkPageCache (delete a (<[a := Span_new pid num]> (pc_spans s))) t w4)
      D U K R N N' L pid num Hi) as (s' & -> & Hi' & Hk); [done | lia | done | done | | done | done | done |].
    { intros b Hb. cbn [pc_spans]. assert (b <> a) by (intros ->; tauto).
      by rewrite lookup_delete_ne, lookup_insert_ne by done. }
    rewrite bind_Ok_l. do 2 eexists. split; [done |]. left. split; [done |]. by exists N'.
Qed.

(** ** The initial state *)

(** The sentinels lie in the static image [K]. *)
Definition static_ok (K : gset Z) : Prop :=
  forall i, 0 <= i <= MAX_PAGE_NUM -> list_head i <> 0 /\ list_head i / PAGE_SIZE ∈ K.

Lemma sentinels_Some i : 0 <= i <= MAX_PAGE_NUM -> is_Some (sentinels !! list_head i).
Proof.
  intros Hi. apply elem_of_dom. unfold sentinels. rewrite dom_list_to_map_L, elem_of_list_to_set.
  apply list_elem_of_fmap. exists (list_head i, Span_new 0 0). split; [done |].
  apply list_elem_of_fmap. exists i. split; [done |]. apply elem_of_seqZ. lia.
Qed.

Lemma PageCache_init_ok K R w :
  static_ok K -> bk_rep w R ∅ ∅ -> K ⊆ R ->
  exists s, PageCache_init w = Ok s /\ pc_inv s ∅ ∅ K R ∅ (fun _ => []).
Proof.
  intros HK Hw HKR. unfold PageCache_init.
  destruct (for_range_inv (fun i st => (forall j, 0 <= j <= MAX_PAGE_NUM -> is_Some (st !! list_head j)) /\
      forall j, 0 <= j < i -> dll st (list_head j) []) 0 (MAX_PAGE_NUM + 1)
      (fun i st => SpanList_new st (list_head i)) sentinels) as (st & -> & Hsome & Hl).
  { unfold MAX_PAGE_NUM. lia. }
  { split; [apply sentinels_Some | lia]. }
  { intros i st Hi [Hsome Hl].
    destruct (SpanList_new_dll st (list_head i)) as (st' & -> & Hd & Hs & Hf); [apply HK; lia | apply Hsome; lia |].
    exists st'. split; [done |]. split.
    - intros j Hj. by eapply same_data_is_Some; [| apply Hsome].
    - intros j Hj. destruct (decide (j = i)) as [-> | Hne]; [done |].
      eapply dll_frame; [exact Hf | | apply Hl; lia].
      intros a Ha%list_elem_of_singleton Hb%list_elem_of_singleton. subst. by apply Hne, list_head_inj. }
  rewrite bind_Ok_l. eexists. split; [done |]. constructor; try done.
  - constructor; try done.
    + intros i Hi. apply Hl. lia.
    + intros i a Hi. rewrite elem_of_nil. split; [done |]. by intros (_ & x & Hx).
  - intros p a Hp Ha. unfold covers. split; [| by intros (? & ? & ? & _)]. intros Hx. by destruct Ha.
  - by intros a p (? & ? & ? & _).
Qed.
End Invariant.

(** ** A concrete start

    Shard and page counter for evaluating the operations: sentinels on the pages
    1 to 3, fresh pages from 16 on. *)
Section Sample.
#[local] Existing Instance release_build.
#[local] Existing Instance bump_backing.
#[local] Existing Instance bump_laws.

Definition sample_layout : StaticLayout := {| span_lists_addr := 4096 |}.
#[local] Existing Instance sample_layout.

Definition sample_cache : PageCache Z :=
  match PageCache_init 16 with Ok s => s | _ => mkPageCache ∅ PageMap_init 0 end.

Lemma sample_cache_inv :
  pc_inv (H1 := bump_laws) sample_cache ∅ ∅ (pages 1 3) (pages 1 3) ∅ (fun _ => []).
Proof.
  destruct (PageCache_init_ok (H1 := bump_laws) (pages 1 3) (pages 1 3) 16) as (s & Heq & Hi); [| | done |].
  - intros i Hi. unfold list_head, CACHE_LINE_SIZE, MAX_PAGE_NUM in *. simpl. split; [lia |].
    apply elem_of_pages. unfold PAGE_SIZE. split; [apply Z.div_le_lower_bound; lia |].
    apply Z.div_lt_upper_bound; lia.
  - split; [lia |]. split; [intros p Hp%elem_of_pages; lia |]. clear. set_solver.
  - unfold sample_cache. by rewrite Heq.
Qed.
End Sample.
