(* ===== verification/PageCacheAlloc.v ===== *)
(** * Allocation from the page cache

    Every branch of [AllocSpanLocked]: oversized requests, exact runs, splits and
    refills, each of which re-establishes the invariant. *)
From S2P Require Import Prelude Config SizeClass Common Span SpanList Backing PageMap PageCache PageCacheInv.
Open Scope Z_scope.

Section Alloc.
Context `{BackingLaws W} `{StaticLayout}.
Implicit Types (s : PageCache W) (D : runs) (U K R N : gset Z) (L : Z -> list Z).

(** ** Allocation *)

(** Completing a fresh run's descriptor. *)
Lemma fresh_core s D U K R N L s' a pid num d :
  pc_inv s D U K R N L -> fresh_run s D U K R L s' a pid num ->
  start_page_idx d = pid -> page_num d = num -> owner_shard_id d = 0 -> clean d ->
  core (<[a := d]> (pc_spans s')) (<[a := (pid, num)]> D)
    (if IsUsed d then {[a]} ∪ U else U) ({[a]} ∪ U) K (R ∪ pages pid num) L /\
  kept U K (pc_spans s) (<[a := d]> (pc_spans s')).
Proof.
  intros Hi Hf Hs Hn Ho Hcl. pose proof (fr_geom _ _ _ _ _ _ _ _ _ _ Hf) as Hg.
  pose proof (fr_new _ _ _ _ _ _ _ _ _ _ Hf) as Hnew.
  assert (HK : a / PAGE_SIZE ∉ K) by apply Hg.
  assert (Hl : same_live D K (pc_spans s) (pc_spans s')).
  { rewrite (fr_spans _ _ _ _ _ _ _ _ _ _ Hf). by apply same_live_insert. }
  assert (Hc : core (pc_spans s') D U U K (R ∪ pages pid num) L).
  { apply (core_pages _ _ _ _ _ R); [| eapply same_live_core; [done | apply Hi]].
    intros b x n Hb. pose proof (rg_pages _ _ _ _ _ (co_geom _ _ _ _ _ _ _ (pi_core _ _ _ _ _ _ _ Hi) _ _ _ Hb)).
    set_solver. }
  split.
  - subst pid num. pose proof (core_set _ _ _ _ _ _ _ a d Hc (or_intror Hnew) Hg Ho (fun _ => Hcl)) as Hc2.
    destruct (IsUsed d); [done |].
    assert (U ∖ {[a]} = U) as HU; [| by rewrite HU in Hc2].
    pose proof (co_used _ _ _ _ _ _ _ Hc). set_solver.
  - eapply kept_trans; [eapply same_live_kept; [apply Hi | done] |].
    eapply same_live_kept; [exact Hc | by apply same_live_insert].
Qed.

Lemma fresh_maps s D U K R N L s' a pid num t' :
  pc_inv s D U K R N L -> fresh_run s D U K R L s' a pid num ->
  mapped_to (pc_map s') t' pid num a -> maps t' (<[a := (pid, num)]> D).
Proof.
  intros Hi Hf Hm. eapply maps_set; [apply Hf | done | apply Hf | |].
  - intros b p Hp (x & n & Hb & Hin). exfalso.
    pose proof (rg_pages _ _ _ _ _ (co_geom _ _ _ _ _ _ _ (pi_core _ _ _ _ _ _ _ Hi) _ _ _ Hb)) as Hpg.
    apply (fr_pages _ _ _ _ _ _ _ _ _ _ Hf p); [apply Hpg |]; by apply elem_of_pages.
  - intros p (x & n & Hb & _). exfalso. apply (fr_new _ _ _ _ _ _ _ _ _ _ Hf), elem_of_dom. by eexists.
Qed.

(** Publishing the new run completes the invariant. *)
Lemma fresh_publish s D U K R N L s1 a pid num d s' U' L' :
  pc_inv s D U K R N L -> fresh_run s D U K R L s1 a pid num ->
  pc_map s' = pc_map s1 -> (forall N', bk_rep (pc_w s1) (R ∪ pages pid num) ({[a]} ∪ dom D) N' ->
    bk_rep (pc_w s') (R ∪ pages pid num) ({[a]} ∪ dom D) N') ->
  pc_spans s' !! a = Some d -> start_page_idx d = pid -> page_num d = num ->
  core (pc_spans s') (<[a := (pid, num)]> D) U' U' K (R ∪ pages pid num) L' ->
  exists s2 N', publish s' a = Ok s2 /\ pc_spans s2 = pc_spans s' /\
    pc_inv s2 (<[a := (pid, num)]> D) U' K (R ∪ pages pid num) N' L'.
Proof.
  intros Hi Hf Hmap Hw Hd Hs Hn Hc. destruct (fr_w _ _ _ _ _ _ _ _ _ _ Hf) as (N' & Hw1 & Ht1).
  pose proof (fr_geom _ _ _ _ _ _ _ _ _ _ Hf) as Hg.
  pose proof (rg_start _ _ _ _ _ Hg). pose proof (rg_num _ _ _ _ _ Hg).
  destruct (publish_ok s' N' a d) as (t' & -> & Ht' & Hp' & Hm');
    [by rewrite Hmap | done | apply Hg | lia | lia | rewrite Hs, Hn, Hmap; apply Hf |].
  exists (with_map s' t'), N'. split; [done |]. split; [done |]. rewrite Hs, Hn, Hmap in Hm'.
  constructor; cbn [pc_spans pc_map pc_w with_map].
  - done.
  - rewrite dom_insert_L. by apply Hw.
  - done.
  - by eapply fresh_maps.
  - intros b p Hb. rewrite Hp', Hmap. apply covers_insert in Hb as [[-> Hin] | [_ Hb]];
      [by apply (fr_ready _ _ _ _ _ _ _ _ _ _ Hf) | by eapply (fr_path _ _ _ _ _ _ _ _ _ _ Hf)].
  - pose proof (pi_static _ _ _ _ _ _ _ Hi). set_solver.
Qed.

(** What an allocation promises: on success a clean used run of the requested
    length under a descriptor that was not in use. *)
Definition alloc_post s D U K R (num a : Z) s' : Prop :=
  exists D' R' N' L',
    pc_inv s' D' (if decide (a = 0) then U else {[a]} ∪ U) K R' N' L' /\
    R ⊆ R' /\ kept U K (pc_spans s) (pc_spans s') /\
    (forall b, b ∈ U -> D' !! b = D !! b) /\
    (a <> 0 -> (a ∉ U) /\ (exists start, D' !! a = Some (start, num)) /\
       exists d, pc_spans s' !! a = Some d /\ clean d /\ IsCommitted d = true).

Lemma alloc_large_ok s D U K R N L num :
  pc_inv s D U K R N L -> MAX_PAGE_NUM < num <= UINT32_MAX ->
  exists a s', alloc_large s num = Ok (a, s') /\ alloc_post s D U K R num a s'.
Proof.
  intros Hi Hnum. unfold MAX_PAGE_NUM in Hnum. unfold alloc_large.
  destruct (map_run_ok s D U K R N L num Hi ltac:(lia)) as (a & s1 & -> & Hor).
  rewrite bind_Ok_l. cbn iota beta. destruct Hor as [[-> (N' & Hi' & Hk)] | [Ha0 (pid & Hf)]].
  { exists 0, s1. split; [done |]. exists D, R, N', L. rewrite decide_True by done. split_and!; done. }
  rewrite (proj2 (Z.eqb_neq a 0)) by done.
  rewrite (update_ok s1 a (Span_new pid num)), bind_Ok_l; [| done |].
  2:{ rewrite (fr_spans _ _ _ _ _ _ _ _ _ _ Hf). apply lookup_insert_eq. }
  set (d := with_owner _ 0). 
  destruct (fresh_core s D U K R N L s1 a pid num d Hi Hf) as [Hc Hk]; [done.. |].
  assert (Hu : IsUsed d = true) by exact (IsUsed_SetCommitted_SetUsed (Span_new pid num) true true).
  rewrite Hu in Hc.
  destruct (fresh_publish s D U K R N L s1 a pid num d (with_spans s1 (<[a := d]> (pc_spans s1)))
    ({[a]} ∪ U) L Hi Hf) as (s2 & N' & -> & Hs2 & Hi2); try done.
  { apply lookup_insert_eq. }
  rewrite bind_Ok_l. exists a, s2. split; [done |].
  exists (<[a := (pid, num)]> D), (R ∪ pages pid num), N', L. rewrite decide_False by done.
  pose proof (fr_new _ _ _ _ _ _ _ _ _ _ Hf) as Hnew.
  pose proof (co_used _ _ _ _ _ _ _ (pi_core _ _ _ _ _ _ _ Hi)) as HU.
  split; [done |]. split; [set_solver |]. split; [by rewrite Hs2 |]. split.
  - intros b Hb. apply lookup_insert_ne. intros ->. set_solver.
  - intros _. split; [set_solver |]. split; [exists pid; apply lookup_insert_eq |].
    exists d. rewrite Hs2. split; [apply lookup_insert_eq |]. split; [done |].
    change (IsCommitted d) with (IsCommitted (SetCommitted (SetUsed (Span_new pid num) true) true)).
    apply IsCommitted_SetCommitted.
Qed.

Lemma refill_ok s D U K R N L :
  pc_inv s D U K R N L ->
  exists ok s', refill s = Ok (ok, s') /\
    exists D' R' N' L', pc_inv s' D' U K R' N' L' /\ R ⊆ R' /\
      kept U K (pc_spans s) (pc_spans s') /\ (forall b, b ∈ U -> D' !! b = D !! b) /\
      (ok = true -> L' MAX_PAGE_NUM <> []).
Proof.
  intros Hi. unfold refill.
  destruct (map_run_ok s D U K R N L MAX_PAGE_NUM Hi ltac:(vm_compute; done)) as (a & s1 & -> & Hor).
  rewrite bind_Ok_l. cbn iota beta. destruct Hor as [[-> (N' & Hi' & Hk)] | [Ha0 (pid & Hf)]].
  { exists false, s1. split; [done |]. exists D, R, N', L. split_and!; done. }
  rewrite (proj2 (Z.eqb_neq a 0)) by done.
  pose proof (fun N' => bk_now_ok (pc_w s1) (R ∪ pages pid MAX_PAGE_NUM) ({[a]} ∪ dom D) N') as Hnow.
  destruct (bk_now (pc_w s1)) as [now w]. cbn [snd] in Hnow. cbn iota beta zeta.
  rewrite (update_ok (with_w s1 w) a (Span_new pid MAX_PAGE_NUM)), bind_Ok_l; [| done |].
  2:{ cbn [pc_spans with_w]. rewrite (fr_spans _ _ _ _ _ _ _ _ _ _ Hf). apply lookup_insert_eq. }
  set (d := with_owner _ 0). cbn [pc_spans with_w with_spans].
  destruct (fresh_core s D U K R N L s1 a pid MAX_PAGE_NUM d Hi Hf) as [Hc Hk]; [done.. |].
  assert (Hu : IsUsed d = false) by exact (IsUsed_SetCommitted_SetUsed (Span_new pid MAX_PAGE_NUM) false true).
  rewrite Hu in Hc.
  pose proof (fr_new _ _ _ _ _ _ _ _ _ _ Hf) as Hnew.
  pose proof (co_used _ _ _ _ _ _ _ (pi_core _ _ _ _ _ _ _ Hi)) as HU.
  destruct (core_push _ _ _ _ _ _ _ a pid MAX_PAGE_NUM Hc) as (st' & -> & Hc' & Hsd & Hfr);
    [set_solver | apply lookup_insert_eq | done |].
  assert (({[a]} ∪ U) ∖ {[a]} = U) as HUa by set_solver. rewrite HUa in Hc'.
  rewrite bind_Ok_l. destruct (same_data_desc _ _ a d Hsd) as (d' & Hd' & Heq); [apply lookup_insert_eq |].
  destruct (fresh_publish s D U K R N L s1 a pid MAX_PAGE_NUM d'
    (with_spans (with_w s1 w) st') U (upd_list L MAX_PAGE_NUM (a :: L MAX_PAGE_NUM)) Hi Hf)
    as (s2 & N' & Hpub & Hs2 & Hi2); [done | done | done | by rewrite Heq | by rewrite Heq | done |].
  change (with_spans (with_spans (with_w s1 w) _) st') with (with_spans (with_w s1 w) st').
  rewrite Hpub, bind_Ok_l. exists true, s2. split; [done |].
  exists (<[a := (pid, MAX_PAGE_NUM)]> D), (R ∪ pages pid MAX_PAGE_NUM), N', (upd_list L MAX_PAGE_NUM (a :: L MAX_PAGE_NUM)).
  split; [done |]. split; [set_solver |]. split; [| split].
  - rewrite Hs2. cbn [pc_spans with_spans]. eapply kept_trans; [exact Hk |].
    eapply (kept_push _ _ _ _ _ _ _ _ _ MAX_PAGE_NUM a); [exact Hc | set_solver | done | rewrite dom_insert_L; set_solver | set_solver | exact Hfr].
  - intros b Hb. apply lookup_insert_ne. intros ->. set_solver.
  - intros _. unfold upd_list. by rewrite decide_True.
Qed.

Lemma find_bucket_ok st D U X K R L n i :
  core st D U X K R L -> 0 <= i -> i + Z.of_nat n <= MAX_PAGE_NUM + 1 ->
  exists r, find_bucket st n i = Ok r /\
    match r with
    | Some j => i <= j < i + Z.of_nat n /\ L j <> []
    | None => forall j, i <= j < i + Z.of_nat n -> L j = []
    end.
Proof.
  intros Hc. revert i. induction n as [| n IH]; intros i Hi Hn; cbn [find_bucket].
  - exists None. split; [done |]. intros j Hj. lia.
  - rewrite (sl_empty_dll _ _ (L i)) by (apply Hc; lia). rewrite bind_Ok_l.
    destruct (bool_decide_reflect (L i = [])) as [HL | HL].
    + destruct (IH (i + 1)) as (r & -> & Hr); [lia | lia |]. exists r. split; [done |].
      destruct r as [j |]; [destruct Hr; split; [lia | done] |]. intros j Hj.
      destruct (decide (j = i)) as [-> |]; [done | apply Hr; lia].
    + exists (Some i). split; [done |]. split; [lia | done].
Qed.

(** Taking a descriptor with all its data from the front of a list. *)
Lemma core_pop_desc st D U X K R L i :
  core st D U X K R L -> U ⊆ X -> 0 <= i <= MAX_PAGE_NUM -> L i <> [] ->
  exists a st' start d, pop_front st (list_head i) = Ok (a, st') /\
    core st' D U ({[a]} ∪ X) K R (upd_list L i (tail (L i))) /\
    (a ∉ X) /\ D !! a = Some (start, i) /\ kept U K st st' /\
    st' !! a = Some d /\ start_page_idx d = start /\ page_num d = i /\ IsUsed d = false /\
    owner_shard_id d = 0 /\ clean d.
Proof.
  intros Hc HUX Hi HL. destruct (core_pop _ _ _ _ _ _ _ i Hc Hi HL)
    as (a & st' & x & Heq & _ & Hc' & HaX & Ha & Hs & Hf).
  destruct (co_desc _ _ _ _ _ _ _ Hc' a x i Ha) as (d & Hd & ? & ? & Hu & ? & Hcl).
  assert (a ∉ U) as HaU by set_solver.
  exists a, st', x, d. split_and!; try done.
  - eapply (kept_frame _ _ _ _ _ _ _ _ _ i); [exact Hc | done | done | exact Hf |].
    intros b [-> | Hb]%elem_of_cons; [by left | right; by left].
  - rewrite Hu. by apply bool_decide_eq_false.
  - by apply Hcl.
Qed.

Lemma alloc_exact_ok s D U K R N L num :
  pc_inv s D U K R N L -> 1 <= num <= MAX_PAGE_NUM -> L num <> [] ->
  exists a s', ('(a, st) ← pop_front (pc_spans s) (list_head num);
     s ← update (with_spans s st) a (fun d => SetCommitted (SetUsed d true) true);
     Ok (a, s)) = Ok (a, s') /\ alloc_post s D U K R num a s'.
Proof.
  intros Hi Hnum HL.
  destruct (core_pop_desc _ _ _ _ _ _ _ num (pi_core _ _ _ _ _ _ _ Hi))
    as (a & st1 & x & d & -> & Hc1 & HaU & Ha & Hk1 & Hd & Hs & Hn & Hu & Ho & Hcl);
    [done | lia | done |].
  pose proof (co_geom _ _ _ _ _ _ _ Hc1 _ _ _ Ha) as Hg.
  rewrite bind_Ok_l. cbn iota beta.
  rewrite (update_ok (with_spans s st1) a d), bind_Ok_l by (done || apply Hg).
  set (d2 := SetCommitted (SetUsed d true) true).
  pose proof (core_set _ _ _ _ _ _ _ a d2 Hc1) as Hc2.
  assert (Hu2 : IsUsed d2 = true) by exact (IsUsed_SetCommitted_SetUsed d true true).
  rewrite Hu2 in Hc2. specialize (Hc2 ltac:(set_solver)). change (start_page_idx d2) with (start_page_idx d) in Hc2.
  change (page_num d2) with (page_num d) in Hc2. rewrite Hs, Hn in Hc2.
  specialize (Hc2 Hg Ho (fun _ => Hcl)). rewrite (insert_id D) in Hc2 by done.
  assert ({[a]} ∪ ({[a]} ∪ U) = {[a]} ∪ U) as HX by set_solver. rewrite HX in Hc2.
  exists a. eexists. split; [done |].
  exists D, R, N, (upd_list L num (tail (L num))). rewrite decide_False by apply Hg.
  split; [| split; [done | split; [| split; [done |]]]].
  - destruct Hi. by constructor.
  - eapply kept_trans; [exact Hk1 |]. intros b Hb. cbn [pc_spans with_spans].
    apply lookup_insert_ne. intros <-. destruct Hb as [? | [Hb _]]; [done | by apply (rg_own _ _ _ _ _ Hg)].
  - intros _. split; [done |]. split; [by exists x |]. exists d2.
    split; [apply lookup_insert_eq |]. split; [done |]. apply IsCommitted_SetCommitted.
Qed.

(** Splitting a run keeps the page map exact. *)
Lemma maps_split t t1 t2 D big small start num total :
  maps t D -> D !! big = Some (start, total) -> D !! small = None -> big <> 0 -> small <> 0 ->
  0 <= start -> 0 < num < total ->
  mapped_to t t1 start num small -> mapped_to t1 t2 (start + num) (total - num) big ->
  maps t2 (<[big := (start + num, total - num)]> (<[small := (start, num)]> D)).
Proof.
  intros Hm Hb Hs Hb0 Hs0 Hst Hn Hto1 Hto2 p b Hp Hbz.
  assert (Hne : big <> small) by congruence.
  rewrite !covers_insert, (Hto2 p Hp), (Hto1 p Hp).
  assert (Hcov : covers D big p <-> start <= p < start + total).
  { unfold covers. rewrite Hb. naive_solver. }
  pose proof (maps_disjoint t D b big p Hm Hp Hbz Hb0) as Hdis.
  pose proof (Hm p b Hp Hbz) as Hmb.
  destruct (decide (start + num <= p < start + num + (total - num))) as [Hr1 | Hr1].
  { split; [intros <-; by left |]. intros [[-> _] | [Hnb [[-> ?] | [_ Hc]]]]; [done | lia |].
    exfalso. apply Hnb, Hdis; [done | apply Hcov; lia]. }
  destruct (decide (start <= p < start + num)) as [Hr2 | Hr2].
  { split; [intros <-; right; split; [done | by left] |].
    intros [[-> ?] | [Hnb [[-> ?] | [_ Hc]]]]; [lia | done |].
    exfalso. apply Hnb, Hdis; [done | apply Hcov; lia]. }
  rewrite Hmb. split.
  - intros Hc. right. split; [intros ->; apply Hcov in Hc; lia |]. right. split; [| done].
    intros ->. destruct Hc as (y & k & Hy & _). congruence.
  - intros [[-> ?] | [_ [[-> ?] | [_ Hc]]]]; [lia | lia | done].
Qed.

Lemma sub_geom K R a b start num start' num' :
  run_geom K R a start num -> b <> 0 -> b / PAGE_SIZE ∉ K ->
  start <= start' -> 0 < num' -> start' + num' <= start + num ->
  run_geom K R b start' num'.
Proof.
  intros [_ _ Hs Hn Ht Hp Hk] Hb HbK Hle Hn' Hend. constructor; try done; try lia.
  - intros p Hp'%elem_of_pages. apply Hp, elem_of_pages. lia.
  - intros p Hp'%elem_of_pages. apply Hk, elem_of_pages. lia.
Qed.

(** The descriptor store after a split: the small half in use, the large one listed. *)
Lemma split_core st D U K R L big small start i num d2 d3 :
  core st D U ({[big]} ∪ U) K R L -> D !! big = Some (start, i) -> big ∉ U ->
  small ∉ dom D -> small <> 0 -> small / PAGE_SIZE ∉ K -> 1 <= num < i -> i <= MAX_PAGE_NUM ->
  start_page_idx d2 = start -> page_num d2 = num -> owner_shard_id d2 = 0 -> IsUsed d2 = true ->
  start_page_idx d3 = start + num -> page_num d3 = i - num -> owner_shard_id d3 = 0 ->
  IsUsed d3 = false -> clean d3 ->
  exists st', push_front (<[big := d3]> (<[small := d2]> st)) (list_head (i - num)) big = Ok st' /\
    core st' (<[big := (start + num, i - num)]> (<[small := (start, num)]> D))
      ({[small]} ∪ U) ({[small]} ∪ U) K R (upd_list L (i - num) (big :: L (i - num))) /\
    same_data (<[big := d3]> (<[small := d2]> st)) st' /\ kept U K st st'.
Proof.
  intros Hc Hb HbU HsD Hs0 HsK Hnum Hi E2 N2 O2 U2 E3 N3 O3 U3 C3.
  pose proof (co_geom _ _ _ _ _ _ _ Hc _ _ _ Hb) as Hg. pose proof (co_used _ _ _ _ _ _ _ Hc) as HUD.
  assert (Hbd : big ∈ dom D) by (apply elem_of_dom; by eexists).
  assert (Hne : big <> small) by (by intros ->).
  assert (Hg2 : run_geom K R small start num) by (eapply (sub_geom K R big); [exact Hg | done | done | lia..]).
  assert (Hg3 : run_geom K R big (start + num) (i - num)) by (eapply (sub_geom K R big); [exact Hg | apply Hg | apply Hg | lia..]).
  pose proof (core_set _ _ _ _ _ _ _ small d2 Hc (or_intror HsD)) as Hc2.
  rewrite U2, E2, N2 in Hc2. specialize (Hc2 Hg2 O2 ltac:(done)).
  pose proof (core_set _ _ _ _ _ _ _ big d3 Hc2 ltac:(left; set_solver)) as Hc3.
  rewrite U3, E3, N3 in Hc3. specialize (Hc3 Hg3 O3 (fun _ => C3)).
  destruct (core_push _ _ _ _ _ _ _ big (start + num) (i - num) Hc3) as (st4 & -> & Hc4 & Hsd & Hf);
    [set_solver | apply lookup_insert_eq | lia |].
  replace (({[big]} ∪ ({[small]} ∪ ({[big]} ∪ U))) ∖ {[big]}) with ({[small]} ∪ U) in Hc4 by set_solver.
  replace (({[small]} ∪ U) ∖ {[big]}) with ({[small]} ∪ U) in Hc4 by set_solver.
  exists st4. split; [done |]. split; [done |]. split; [done |]. eapply kept_trans.
  2:{ eapply (kept_push _ _ _ _ _ _ _ _ _ _ big); [exact Hc3 | set_solver | | | exact HbU | exact Hf]; [lia | rewrite dom_insert_L; set_solver]. }
  intros b Hbk. assert (b <> big /\ b <> small) as [? ?].
  { destruct Hbk as [Hbu | [HbK _]]; split; intros ->; try done; [set_solver |].
    by apply (rg_own _ _ _ _ _ Hg). }
  by rewrite !lookup_insert_ne by done.
Qed.

(** Publishing both halves. *)
Lemma split_publish s D N big small start i num d4 d5 :
  radix_ok (pc_map s) N -> maps (pc_map s) D ->
  (forall a p, covers D a p -> has_path (pc_map s) p = true) ->
  D !! big = Some (start, i) -> D !! small = None -> big <> 0 -> small <> 0 -> 0 <= start -> 1 <= num < i ->
  pc_spans s !! small = Some d4 -> start_page_idx d4 = start -> page_num d4 = num ->
  pc_spans s !! big = Some d5 -> start_page_idx d5 = start + num -> page_num d5 = i - num ->
  let D' := <[big := (start + num, i - num)]> (<[small := (start, num)]> D) in
  exists t, (s ← publish s small; publish s big) = Ok (with_map s t) /\
    radix_ok t N /\ maps t D' /\ (forall a p, covers D' a p -> has_path t p = true).
Proof.
  intros Ht Hm Hp Hb Hs Hb0 Hs0 Hst Hn H4 E4 N4 H5 E5 N5 D'.
  assert (Hpath : forall p, start <= p < start + i -> has_path (pc_map s) p = true).
  { intros p Hin. apply (Hp big). by exists start, i. }
  destruct (publish_ok s N small d4) as (t1 & -> & Ht1 & Hp1 & Hm1);
    [done.. | lia | lia | intros p Hin; apply Hpath; lia |].
  rewrite bind_Ok_l. destruct (publish_ok (with_map s t1) N big d5) as (t2 & -> & Ht2 & Hp2 & Hm2);
    [done.. | lia | lia | intros p Hin; cbn [pc_map with_map]; rewrite Hp1; apply Hpath; lia |].
  rewrite E4, N4 in Hm1. rewrite E5, N5 in Hm2. exists t2. split; [done |]. split; [done |]. split.
  - eapply maps_split; [exact Hm | done | done | done | done | lia | lia | exact Hm1 | exact Hm2].
  - subst D'. intros b p Hcov. rewrite Hp2. cbn [pc_map with_map]. rewrite Hp1. rewrite !covers_insert in Hcov.
    destruct Hcov as [[-> ?] | [_ [[-> ?] | [_ Hcov]]]]; [apply Hpath; lia | apply Hpath; lia | by apply (Hp b)].
Qed.

(** Without a second descriptor the run goes back. *)
Lemma split_undo s D U K R N L L1 big start i st w :
  pc_inv s D U K R N L -> core st D U ({[big]} ∪ U) K R L1 -> D !! big = Some (start, i) -> big ∉ U ->
  i <= MAX_PAGE_NUM -> bk_rep w R (dom D) N -> kept U K (pc_spans s) st ->
  exists st', push_front st (list_head i) big = Ok st' /\
    exists L', pc_inv (with_spans (mkPageCache st (pc_map s) w) st') D U K R N L' /\ kept U K (pc_spans s) st'.
Proof.
  intros Hi Hc Hb HbU Himax Hw Hk. pose proof (rg_num _ _ _ _ _ (co_geom _ _ _ _ _ _ _ Hc _ _ _ Hb)).
  destruct (core_push _ _ _ _ _ _ _ big start i Hc) as (st2 & Hp & Hc2 & _ & Hf2); [set_solver | done | done |].
  replace (({[big]} ∪ U) ∖ {[big]}) with U in Hc2 by set_solver.
  exists st2. split; [exact Hp |]. eexists. split; [destruct Hi; constructor; done |].
  eapply kept_trans; [exact Hk |].
  eapply (kept_push _ _ _ _ _ _ _ _ _ _ big); [exact Hc | set_solver | | apply elem_of_dom; by eexists | exact HbU | exact Hf2]. lia.
Qed.

Lemma split_bucket_ok s D U K R N L i num :
  pc_inv s D U K R N L -> 1 <= num < i -> i <= MAX_PAGE_NUM -> L i <> [] ->
  exists a s', split_bucket s i num = Ok (a, s') /\ alloc_post s D U K R num a s'.
Proof.
  intros Hi Hnum Himax HL. pose proof Himax as Him. unfold MAX_PAGE_NUM in Him. pose proof (pi_core _ _ _ _ _ _ _ Hi) as Hc.
  pose proof (pi_static _ _ _ _ _ _ _ Hi) as HKR. unfold split_bucket.
  destruct (core_pop_desc _ _ _ _ _ _ _ i Hc) as
    (big & st1 & start & d & -> & Hc1 & HbU & Hb & Hk1 & Hd & Hs & Hn & Hu & Ho & Hcl); [done | lia | done |].
  pose proof (co_geom _ _ _ _ _ _ _ Hc1 _ _ _ Hb) as Hg. pose proof (rg_addr _ _ _ _ _ Hg) as Hb0.
  pose proof (rg_start _ _ _ _ _ Hg). pose proof (rg_top _ _ _ _ _ Hg). pose proof PAGE_LIMIT_le.
  rewrite bind_Ok_l. cbn iota beta zeta. cbn [pc_spans with_spans].
  rewrite (proj2 (Z.eqb_neq big 0)) by done. cbn [negb]. rewrite AM_DCHECK_true, bind_Ok_l.
  rewrite (get_span_Some _ _ d), bind_Ok_l by done. rewrite Hn, Z.eqb_refl, Hu. cbn [negb].
  rewrite !AM_DCHECK_true, !bind_Ok_l. unfold new_span. cbn [pc_w pc_spans pc_map with_spans].
  rewrite (u32_id num) by lia.
  destruct (bk_span_new_ok (pc_w s) R (dom D) N) as (small & w1 & -> & Hsm); [apply Hi |].
  rewrite bind_Ok_l. cbn iota beta. destruct Hsm as [[-> Hw1] | (Hs0 & HsD & HsR & Hw1)].
  { rewrite Z.eqb_refl, bind_Ok_l. cbn iota beta. rewrite Z.eqb_refl. cbn [pc_spans with_w with_spans].
    destruct (split_undo s D U K R N L _ big start i st1 w1 Hi Hc1 Hb HbU Himax Hw1 Hk1) as (st2 & -> & L' & Hi' & Hk').
    rewrite bind_Ok_l. do 2 eexists. split; [done |]. exists D, R, N, L'. rewrite decide_True by done. split_and!; done. }
  assert (Hne : big <> small) by (intros ->; apply HsD, elem_of_dom; by eexists).
  rewrite (proj2 (Z.eqb_neq small 0)), bind_Ok_l by done. cbn iota beta.
  rewrite (proj2 (Z.eqb_neq small 0)) by done. rewrite Hs.
  rewrite (update_ok _ small (Span_new start num)) by (done || apply lookup_insert_eq).
  rewrite bind_Ok_l. cbn [pc_spans pc_map pc_w with_spans with_w]. rewrite insert_insert_eq.
  set (d2 := with_owner _ _).
  pose proof (fun R S N => bk_now_ok w1 R S N) as Hnow.
  destruct (bk_now w1) as [now w2]. cbn [snd] in Hnow. cbn iota beta zeta.
  rewrite (update_ok _ big d) by (done || (cbn [pc_spans with_spans with_w]; by rewrite lookup_insert_ne by done)).
  rewrite bind_Ok_l. cbn [pc_spans pc_map pc_w with_spans with_w].
  rewrite Hs, Hn, u64_id, (u32_id (i - num)) by lia.
  set (d3 := with_time _ now).
  rewrite (get_span_Some _ big d3), bind_Ok_l by (done || apply lookup_insert_eq).
  change (page_num d3) with (i - num).
  destruct (split_core st1 D U K R _ big small start i num d2 d3 Hc1 Hb HbU HsD Hs0)
    as (st4 & -> & Hc4 & Hsd4 & Hk4); [set_solver | lia | done | done | done | exact Ho | exact (IsUsed_SetCommitted_SetUsed (Span_new start num) true true)
     | done | done | exact Ho | exact (IsUsed_SetCommitted_SetUsed (with_pages d (start + num) (i - num)) false true) | exact Hcl |].
  rewrite bind_Ok_l.
  destruct (same_data_desc _ _ small d2 Hsd4) as (d4 & Hd4 & Heq4);
    [rewrite lookup_insert_ne by done; apply lookup_insert_eq |].
  destruct (same_data_desc _ _ big d3 Hsd4) as (d5 & Hd5 & Heq5); [apply lookup_insert_eq |].
  change (with_spans (with_spans _ _) st4) with
    (with_spans (mkPageCache (<[big := d3]> (<[small := d2]> st1)) (pc_map s) w2) st4).
  destruct (split_publish (with_spans (mkPageCache (<[big := d3]> (<[small := d2]> st1)) (pc_map s) w2) st4)
    D N big small start i num d4 d5) as (t & Hpub & Ht & Hm & Hpath);
    [apply Hi | apply Hi | apply Hi | done | by apply not_elem_of_dom | done | done | lia | done
     | done | by rewrite Heq4 | by rewrite Heq4 | done | by rewrite Heq5 | by rewrite Heq5 |].
  apply bind_Ok_inv in Hpub as (s5 & -> & Hpub2). rewrite bind_Ok_l, Hpub2, bind_Ok_l.
  exists small. eexists. split; [done |].
  eexists _, R, N, _. rewrite decide_False by done. split; [| split; [done | split; [by eapply kept_trans | split]]].
  - constructor; cbn [pc_spans pc_map pc_w with_spans with_map]; [exact Hc4 | | done | done | done | done].
    rewrite !dom_insert_L. replace ({[big]} ∪ ({[small]} ∪ dom D)) with ({[small]} ∪ dom D); [by apply Hnow |].
    assert (big ∈ dom D) by (apply elem_of_dom; by eexists). set_solver.
  - pose proof (co_used _ _ _ _ _ _ _ Hc). intros b Hbu. rewrite !lookup_insert_ne; [done | |]; intros ->; [set_solver | done].
  - pose proof (co_used _ _ _ _ _ _ _ Hc). intros _. split; [set_solver |]. split.
    + exists start. rewrite lookup_insert_ne by done. apply lookup_insert_eq.
    + exists d4. split; [done |]. rewrite Heq4. split; [done | exact (IsCommitted_SetCommitted (SetUsed (Span_new start num) true) true)].
Qed.

(** A bucket that can serve the request exists, so one pass is enough. *)
Lemma alloc_loop_ready s D U K R N L num fuel :
  pc_inv s D U K R N L -> 1 <= num <= UINT32_MAX ->
  (MAX_PAGE_NUM < num \/ exists j, num <= j <= MAX_PAGE_NUM /\ L j <> []) ->
  exists a s', alloc_loop (S fuel) s num = Ok (a, s') /\ alloc_post s D U K R num a s'.
Proof.
  intros Hi Hnum Hor. pose proof (pi_core _ _ _ _ _ _ _ Hi) as Hc. cbn [alloc_loop].
  destruct (Z.ltb_spec MAX_PAGE_NUM num); [apply (alloc_large_ok _ _ _ _ _ N L); [done | lia] |].
  destruct Hor as [? | (j & Hj & HLj)]; [lia |].
  rewrite (proj2 (Z.leb_le 1 num)), (proj2 (Z.leb_le num MAX_PAGE_NUM)), AM_DCHECK_true, bind_Ok_l by lia.
  rewrite (sl_empty_dll _ _ (L num)), bind_Ok_l by (apply Hc; lia).
  destruct (bool_decide_reflect (L num = [])) as [HL | HL]; cbn [negb].
  2:{ eapply alloc_exact_ok; [exact Hi | lia | done]. }
  destruct (find_bucket_ok _ _ _ _ _ _ _ (Z.to_nat (MAX_PAGE_NUM - num)) (num + 1) Hc) as (r & -> & Hr); [lia | lia |].
  rewrite bind_Ok_l. destruct r as [i |].
  - destruct Hr as [Hr HLi]. apply (split_bucket_ok _ _ _ _ _ N L); [done | lia | lia | done].
  - exfalso. apply HLj. destruct (decide (j = num)) as [-> |]; [done |]. apply Hr. lia.
Qed.

Lemma AllocSpanLocked_ok s D U K R N L num :
  pc_inv s D U K R N L -> 1 <= num <= UINT32_MAX ->
  exists a s', AllocSpanLocked s num = Ok (a, s') /\ alloc_post s D U K R num a s'.
Proof.
  intros Hi Hnum. pose proof (pi_core _ _ _ _ _ _ _ Hi) as Hc. unfold AllocSpanLocked.
  rewrite (proj2 (Z.eqb_neq num 0)), (proj2 (Z.ltb_ge UINT32_MAX num)) by lia. cbn [orb].
  destruct (decide (MAX_PAGE_NUM < num \/ Exists (fun j => L j <> []) (seqZ num (MAX_PAGE_NUM + 1 - num))))
    as [Hr | Hno].
  { eapply (alloc_loop_ready _ _ _ _ _ N L); [done | done |]. destruct Hr as [? | Hex]; [by left | right].
    apply Exists_exists in Hex as (j & Hj%elem_of_seqZ & HL). exists j. split; [lia | done]. }
  assert (Hempty : forall j, num <= j <= MAX_PAGE_NUM -> L j = []).
  { intros j Hj. destruct (decide (L j = [])) as [| HL]; [done |]. exfalso. apply Hno. right.
    apply Exists_exists. exists j. rewrite elem_of_seqZ. split; [lia | done]. }
  assert (Hle : num <= MAX_PAGE_NUM) by (apply Z.nlt_ge; tauto).
  remember 1%nat as f eqn:Ef. cbn [alloc_loop]. destruct (Z.ltb_spec MAX_PAGE_NUM num); [lia |].
  rewrite (proj2 (Z.leb_le 1 num)), (proj2 (Z.leb_le num MAX_PAGE_NUM)), AM_DCHECK_true, bind_Ok_l by lia.
  rewrite (sl_empty_dll _ _ (L num)), bind_Ok_l by (apply Hc; lia).
  rewrite bool_decide_eq_true_2 by (apply Hempty; lia). cbn [negb].
  destruct (find_bucket_ok _ _ _ _ _ _ _ (Z.to_nat (MAX_PAGE_NUM - num)) (num + 1) Hc) as (r & -> & Hr); [lia | lia |].
  rewrite bind_Ok_l. destruct r as [i |].
  { destruct Hr as [Hr HLi]. exfalso. apply HLi, Hempty. lia. }
  destruct (refill_ok s D U K R N L Hi) as (ok & s1 & -> & D1 & R1 & N1 & L1 & Hi1 & HR1 & Hk1 & HD1 & HL1).
  rewrite bind_Ok_l. cbn iota beta. destruct ok.
  - destruct (alloc_loop_ready s1 D1 U K R1 N1 L1 num 0 Hi1 Hnum) as (a & s2 & Heq & D2 & R2 & N2 & L2 & Hi2 & HR2 & Hk2 & HD2 & Ha).
    { right. exists MAX_PAGE_NUM. split; [lia | by apply HL1]. }
    subst f. rewrite Heq. exists a, s2. split; [done |]. exists D2, R2, N2, L2.
    split; [done |]. split; [set_solver |]. split; [by eapply kept_trans |]. split; [| done].
    intros b Hb. by rewrite HD2, HD1.
  - exists 0, s1. split; [done |]. exists D1, R1, N1, L1. rewrite decide_True by done. split_and!; done.
Qed.

Lemma with_owner_id d : owner_shard_id d = 0 -> with_owner d 0 = d.
Proof. intros Ho. destruct d. unfold with_owner. simpl in *. by subst. Qed.

(** Allocation as the router runs it. *)
Lemma AllocSpan_ok s D U K R N L num :
  pc_inv s D U K R N L -> 0 <= num < W64 ->
  exists a s', AllocSpan s num = Ok (a, s') /\ alloc_post s D U K R num a s' /\
    (num = 0 \/ UINT32_MAX < num -> a = 0 /\ s' = s).
Proof.
  intros Hi Hnum. unfold AllocSpan. change (SelectShardForAlloc num) with 0.
  change (0 <? active_shard_count) with true. rewrite AM_DCHECK_true, bind_Ok_l.
  destruct (decide (num = 0 \/ UINT32_MAX < num)) as [Hbad | Hgood].
  { assert (AllocSpanLocked s num = Ok (0, s)) as ->.
    { unfold AllocSpanLocked. destruct (Z.eqb_spec num 0); [done |].
      destruct (Z.ltb_spec UINT32_MAX num); [done | lia]. }
    rewrite bind_Ok_l. exists 0, s. split; [done |]. split; [| done].
    exists D, R, N, L. rewrite decide_True by done. split_and!; done. }
  destruct (AllocSpanLocked_ok s D U K R N L num Hi) as (a & s' & -> & Hp); [lia |].
  rewrite bind_Ok_l. cbn iota beta. destruct (Z.eqb_spec a 0) as [-> | Ha].
  { exists 0, s'. split; [done |]. split; [done | tauto]. }
  pose proof Hp as (D' & R' & N' & L' & Hi' & _ & _ & _ & Hpost). rewrite decide_False in Hi' by done.
  destruct (Hpost Ha) as (_ & (start & HDa) & d & Hd & _).
  rewrite (update_ok s' a d) by done. rewrite bind_Ok_l.
  destruct (co_desc _ _ _ _ _ _ _ (pi_core _ _ _ _ _ _ _ Hi') _ _ _ HDa) as (d' & Hd' & _ & _ & _ & Ho & _).
  rewrite Hd in Hd'. injection Hd' as <-. rewrite with_owner_id by done.
  assert (with_spans s' (<[a:=d]> (pc_spans s')) = s') as ->.
  { rewrite insert_id by done. by destruct s'. }
  exists a, s'. split; [done |]. split; [done | tauto].
Qed.

(** C5: [AllocSpan] never fails badly and never hands out a page twice.  From
    any reachable state, for any request, it runs to completion in every
    build (no check fails, no loop runs out, nothing dangling is read), the
    invariant holds again, and it returns either null, with the used runs as
    before, or the descriptor of a used, committed run of exactly the
    requested length with no stale object grid, which was not in use; used
    runs and their descriptors are untouched and, the page map being exact,
    disjoint from the new one.  Zero and oversized requests return null at
    once. *)
Theorem AllocSpan_spec s D U K R N L num :
  pc_inv s D U K R N L -> 0 <= num < W64 ->
  exists a s', AllocSpan s num = Ok (a, s') /\ alloc_post s D U K R num a s' /\
    (num = 0 \/ UINT32_MAX < num -> a = 0 /\ s' = s).
Proof. apply AllocSpan_ok. Qed.
End Alloc.

Section AllocWitness.
#[local] Existing Instance release_build.
#[local] Existing Instance bump_backing.
#[local] Existing Instance bump_laws.
#[local] Existing Instance sample_layout.

(** On the empty cache: a refill, then a split; the descriptor returned is the
    third object the page counter hands out after the 128 pages. *)
Lemma AllocSpan_spec_witness :
  (exists a s', AllocSpan sample_cache 3 = Ok (a, s') /\
    alloc_post (H1 := bump_laws) sample_cache ∅ ∅ (pages 1 3) (pages 1 3) 3 a s' /\
    (3 = 0 \/ UINT32_MAX < 3 -> a = 0 /\ s' = sample_cache)) /\
  match AllocSpan sample_cache 3 with Ok (a, _) => (a =? 0) = false | _ => False end.
Proof.
  split; [| by vm_compute].
  apply (AllocSpan_spec (H1 := bump_laws) sample_cache ∅ ∅ (pages 1 3) (pages 1 3) ∅ (fun _ => []) 3 sample_cache_inv).
  lia.
Defined.
End AllocWitness.
