(* ===== verification/PageCacheMerge.v ===== *)
(** * Coalescing

    The two merge loops of [ReleaseSpan]: a run grows over its free neighbours,
    found through the page map, whose descriptors leave their lists but stay
    mapped and alive until the whole run is published. *)
From S2P Require Import Prelude Config SizeClass Common Span SpanList Backing PageMap PageCache PageCacheInv.
Open Scope Z_scope.

Section Merge.
Context `{BackingLaws W} `{StaticLayout}.
Implicit Types (s : PageCache W) (D : runs) (U K R N : gset Z) (L : Z -> list Z).

(** ** Release *)

(** The retired descriptors, chained through [next]. *)
Fixpoint rchain (st : spans) (r : Z) (al : list Z) : Prop :=
  match al with
  | [] => r = 0
  | a :: al' => r = a /\ a <> 0 /\ exists d, st !! a = Some d /\ rchain st (sp_next d) al'
  end.

Lemma rchain_ext st st' r al :
  (forall a, a ∈ al -> st' !! a = st !! a) -> rchain st r al -> rchain st' r al.
Proof.
  revert r. induction al as [| a al IH]; intros r Heq; simpl; [done |].
  intros (-> & Ha & d & Hd & Hr). split; [done |]. split; [done |]. exists d.
  rewrite Heq by set_solver. split; [done |]. apply IH; [| done]. set_solver.
Qed.

(** The state inside the coalescing loops: [span]'s run has grown over the
    runs of [al], whose descriptors are off the lists but still mapped. *)
Record merging s D U K R L (span : Z) (al : list Z) (start num : Z) : Prop := {
  mg_core : core (pc_spans s) D U U K R L;
  mg_used : span ∈ U;
  mg_run : D !! span = Some (start, num);
  mg_num : Z.of_nat (length al) < num <= MAX_PAGE_NUM;
  mg_nodup : NoDup al;
  mg_retired : forall a, a ∈ al -> a <> 0 /\ (a ∉ dom D) /\ (a / PAGE_SIZE ∉ K);
  mg_other : forall p b, 0 <= p -> b <> 0 -> b ∉ span :: al ->
    pm_lookup (pc_map s) p = b <-> covers D b p;
  mg_region : forall p, 0 <= p -> covers D span p <-> pm_lookup (pc_map s) p ∈ span :: al;
  mg_path : forall b p, covers D b p -> has_path (pc_map s) p = true;
}.

(** A page next to the run that is mapped belongs to an adjacent run. *)
Lemma neighbour s D U K R L span al start num q o :
  merging s D U K R L span al start num -> 0 <= q -> q = start - 1 \/ q = start + num ->
  pm_lookup (pc_map s) q = o -> o <> 0 ->
  (o ∉ span :: al) /\ exists x m, D !! o = Some (x, m) /\ (q = start - 1 /\ x + m = start \/
    q = start + num /\ x = start + num).
Proof.
  intros Hm Hq Hadj Ho Ho0. pose proof (mg_run _ _ _ _ _ _ _ _ _ _ Hm) as Hrun.
  pose proof (mg_num _ _ _ _ _ _ _ _ _ _ Hm) as Hn.
  assert (Hcov : forall p, covers D span p <-> start <= p < start + num).
  { intros p. unfold covers. rewrite Hrun. naive_solver. }
  assert (Hout : o ∉ span :: al).
  { intros Hin. rewrite <- Ho in Hin. apply (mg_region _ _ _ _ _ _ _ _ _ _ Hm) in Hin; [| done].
    apply Hcov in Hin. lia. }
  split; [done |].
  pose proof (proj1 (mg_other _ _ _ _ _ _ _ _ _ _ Hm q o Hq Ho0 Hout) Ho) as (x & m & HD & Hin).
  exists x, m. split; [done |].
  assert (Hno : forall p, start <= p < start + num -> ~ (x <= p < x + m)).
  { intros p Hp1 Hp2. assert (0 <= p).
    { pose proof (rg_start _ _ _ _ _ (co_geom _ _ _ _ _ _ _ (mg_core _ _ _ _ _ _ _ _ _ _ Hm) _ _ _ HD)). lia. }
    assert (pm_lookup (pc_map s) p = o) as Hp.
    { apply (mg_other _ _ _ _ _ _ _ _ _ _ Hm); [done.. |]. by exists x, m. }
    apply Hout. rewrite <- Hp. apply (mg_region _ _ _ _ _ _ _ _ _ _ Hm); [done |]. by apply Hcov. }
  destruct Hadj as [-> | ->]; [left | right]; (split; [done |]).
  - pose proof (Hno start). lia.
  - pose proof (Hno (start + num - 1)). lia.
Qed.

(** The run grown over its neighbour. *)
Lemma absorb_geom K R span start num o x m y :
  run_geom K R span start num -> run_geom K R o x m -> num + m <= MAX_PAGE_NUM ->
  (x + m = start /\ y = x \/ x = start + num /\ y = start) -> run_geom K R span y (num + m).
Proof.
  intros [? ? ? ? ? Hp2 Hk2] [_ _ ? ? ? Hp1 Hk1] Hnm Hadj. unfold UINT32_MAX, MAX_PAGE_NUM in *.
  constructor; unfold UINT32_MAX; try done; try lia.
  - intros p Hp%elem_of_pages. destruct (decide (x <= p < x + m)); [apply Hp1 | apply Hp2]; apply elem_of_pages; lia.
  - intros p Hp%elem_of_pages. destruct (decide (x <= p < x + m)); [apply Hk1 | apply Hk2]; apply elem_of_pages; lia.
Qed.

Lemma absorb_covers D span start num o x m y p :
  D !! span = Some (start, num) -> D !! o = Some (x, m) -> 0 < num -> 0 < m ->
  (x + m = start /\ y = x \/ x = start + num /\ y = start) ->
  covers (<[span := (y, num + m)]> (delete o D)) span p <-> covers D span p \/ covers D o p.
Proof.
  intros Hrun Ho Hnum Hm Hadj. rewrite covers_insert. unfold covers. rewrite Hrun, Ho.
  split; [intros [[_ ?] | [? _]] | intros [(? & ? & [= <- <-] & ?) | (? & ? & [= <- <-] & ?)]]; try done.
  - destruct (decide (start <= p < start + num)); [left | right]; do 2 eexists; (split; [done |]); lia.
  - left. split; [done |]. lia.
  - left. split; [done |]. lia.
Qed.

(** The descriptors of the loop are on no list. *)
Lemma merging_unlisted s D U K R L span al start num i a :
  merging s D U K R L span al start num -> 0 <= i <= MAX_PAGE_NUM -> a ∈ al -> a ∉ list_head i :: L i.
Proof.
  intros Hm Hi Ha. pose proof (mg_core _ _ _ _ _ _ _ _ _ _ Hm) as Hc.
  destruct (mg_retired _ _ _ _ _ _ _ _ _ _ Hm a Ha) as (_ & HaD & HaK). intros [-> | HaL]%elem_of_cons.
  - by apply HaK, Hc.
  - apply (co_member _ _ _ _ _ _ _ Hc) in HaL as (_ & z & HaL); [| done]. apply HaD, elem_of_dom. by eexists.
Qed.

(** The runs after an absorption, with the page map as it was. *)
Lemma absorb_merging s D U K R L L' span al start num o x m y st :
  merging s D U K R L span al start num ->
  D !! o = Some (x, m) -> o ∉ U -> o ∉ span :: al -> num + m <= MAX_PAGE_NUM ->
  (x + m = start /\ y = x \/ x = start + num /\ y = start) ->
  core st (<[span := (y, num + m)]> (delete o D)) U U K R L' ->
  merging (with_spans s st) (<[span := (y, num + m)]> (delete o D)) U K R L' span (o :: al) y (num + m).
Proof.
  intros Hm Ho HoU Hout Hnm Hadj Hc'. pose proof (mg_core _ _ _ _ _ _ _ _ _ _ Hm) as Hc.
  pose proof (mg_run _ _ _ _ _ _ _ _ _ _ Hm) as Hrun. pose proof (mg_num _ _ _ _ _ _ _ _ _ _ Hm).
  pose proof (co_geom _ _ _ _ _ _ _ Hc _ _ _ Ho) as Hgo. pose proof (rg_num _ _ _ _ _ Hgo).
  pose proof (fun p => absorb_covers D span start num o x m y p Hrun Ho ltac:(lia) ltac:(lia) Hadj) as Hcovs.
  constructor; cbn [pc_spans pc_map with_spans].
  - done.
  - apply Hm.
  - apply lookup_insert_eq.
  - simpl. lia.
  - constructor; [set_solver | apply Hm].
  - intros a [-> | Ha]%elem_of_cons.
    + split; [apply Hgo |]. split; [rewrite dom_insert_L, dom_delete_L; set_solver | apply Hgo].
    + destruct (mg_retired _ _ _ _ _ _ _ _ _ _ Hm a Ha) as (? & HaD & ?). split; [done |]. split; [| done].
      assert (a <> span) by (intros ->; apply HaD, elem_of_dom; by eexists).
      rewrite dom_insert_L, dom_delete_L. set_solver.
  - intros p b Hp Hb Hbo. rewrite covers_insert, covers_delete.
    rewrite (mg_other _ _ _ _ _ _ _ _ _ _ Hm) by (done || set_solver).
    assert (b <> span) by set_solver. assert (b <> o) by set_solver. naive_solver.
  - intros p Hp. assert (Hoo : pm_lookup (pc_map s) p = o <-> covers D o p).
    { apply (mg_other _ _ _ _ _ _ _ _ _ _ Hm); [done | apply Hgo | done]. }
    rewrite Hcovs, (mg_region _ _ _ _ _ _ _ _ _ _ Hm), <- Hoo by done. set_solver.
  - intros b p Hcov. destruct (decide (b = span)) as [-> | Hb].
    + apply Hcovs in Hcov as [Hcov | Hcov]; by eapply (mg_path _ _ _ _ _ _ _ _ _ _ Hm).
    + rewrite covers_insert, covers_delete in Hcov. apply (mg_path _ _ _ _ _ _ _ _ _ _ Hm b). naive_solver.
Qed.

(** The descriptor store of an absorption, up to the run's new extent. *)
Lemma absorb_core st D U K R L o span d1 y n :
  core st D U ({[o]} ∪ U) K R L -> o ∉ U -> span ∈ U -> o ∈ dom D -> o <> span ->
  st !! span = Some d1 -> IsUsed d1 = true -> owner_shard_id d1 = 0 -> run_geom K R span y n ->
  core (<[span := with_pages d1 y n]> st) (<[span := (y, n)]> (delete o D)) U U K R L.
Proof.
  intros Hc HoU Hsu HoD Hos Hd1 Hu Ho1 Hg.
  assert (HspX : span ∈ {[o]} ∪ U) by set_solver.
  pose proof (core_set _ _ _ _ _ _ _ span (with_pages d1 y n) Hc (or_introl HspX) Hg Ho1) as Hc2.
  change (IsUsed (with_pages d1 y n)) with (IsUsed d1) in Hc2. rewrite Hu in Hc2. specialize (Hc2 ltac:(done)).
  cbn [start_page_idx page_num with_pages] in Hc2.
  assert (HoX : o ∈ {[span]} ∪ ({[o]} ∪ U)) by set_solver.
  pose proof (core_forget _ _ _ _ _ _ _ o Hc2 HoX) as Hc3. rewrite delete_insert_ne in Hc3 by done.
  replace (({[span]} ∪ U) ∖ {[o]}) with U in Hc3 by set_solver.
  by replace (({[span]} ∪ ({[o]} ∪ U)) ∖ {[o]}) with U in Hc3 by set_solver.
Qed.

(** The three statements that absorb an adjacent free run. *)
Lemma absorb_ok s D U K R L span al start num retired o x m y :
  merging s D U K R L span al start num -> rchain (pc_spans s) retired al ->
  D !! o = Some (x, m) -> o ∉ U -> o ∉ span :: al -> num + m <= MAX_PAGE_NUM ->
  (x + m = start /\ y = x \/ x = start + num /\ y = start) ->
  exists s1 d1 st2 L', unlist s o = Ok s1 /\ pc_spans s1 !! span = Some d1 /\
    start_page_idx d1 = start /\ page_num d1 = num /\ span <> 0 /\
    set_next (<[span := with_pages d1 y (num + m)]> (pc_spans s1)) o retired = Ok st2 /\
    merging (with_spans s st2) (<[span := (y, num + m)]> (delete o D)) U K R L' span (o :: al) y (num + m) /\
    rchain st2 o (o :: al) /\ pc_map s1 = pc_map s /\ pc_w s1 = pc_w s /\
    kept (U ∖ {[span]}) K (pc_spans s) st2.
Proof.
  intros Hm Hch Ho HoU Hout Hnm Hadj. pose proof (mg_core _ _ _ _ _ _ _ _ _ _ Hm) as Hc.
  pose proof (mg_run _ _ _ _ _ _ _ _ _ _ Hm) as Hrun. pose proof (mg_used _ _ _ _ _ _ _ _ _ _ Hm) as Hsu.
  pose proof (co_geom _ _ _ _ _ _ _ Hc _ _ _ Ho) as Hgo. pose proof (co_geom _ _ _ _ _ _ _ Hc _ _ _ Hrun) as Hgs.
  pose proof (rg_num _ _ _ _ _ Hgo). pose proof (mg_num _ _ _ _ _ _ _ _ _ _ Hm). pose proof (rg_addr _ _ _ _ _ Hgo) as Ho0.
  assert (Hod : o ∈ dom D) by (apply elem_of_dom; by eexists). assert (Hos : o <> span) by set_solver.
  destruct (co_desc _ _ _ _ _ _ _ Hc _ _ _ Ho) as (do & Hdo & _ & Hnum & _).
  destruct (core_erase _ _ _ _ _ _ _ o x m Hc HoU Ho) as (nx & st1 & L1 & Her & Hc1 & Hsd1 & Hf1).
  unfold unlist. rewrite (get_span_Some _ _ do), bind_Ok_l by done.
  rewrite Hnum, Her, bind_Ok_l. cbn iota beta.
  destruct (co_desc _ _ _ _ _ _ _ Hc1 _ _ _ Hrun) as (d1 & Hd1 & Hs1 & Hn1 & Hu1 & Ho1 & _).
  rewrite bool_decide_eq_true_2 in Hu1 by done.
  pose proof (absorb_core _ _ _ _ _ _ o span d1 y (num + m) Hc1 HoU Hsu Hod Hos Hd1 Hu1 Ho1
    (absorb_geom _ _ _ _ _ _ _ _ _ Hgs Hgo Hnm Hadj)) as Hc3.
  destruct (core_dom _ _ _ _ _ _ _ o Hc1 Hod) as [_ Hom].
  destruct (set_next_ok (<[span := with_pages d1 y (num + m)]> st1) o retired Ho0) as (st2 & Hsn & Hnx & _ & _ & Hf2).
  { by rewrite lookup_insert_ne by done. }
  assert (Hfr2 : forall b, b <> o -> st2 !! b = <[span := with_pages d1 y (num + m)]> st1 !! b).
  { intros b Hb. apply Hf2. set_solver. }
  exists (with_spans s st1), d1, st2, L1. split; [done |]. split; [done |]. split; [done |]. split; [done |].
  split; [apply Hgs |]. split; [exact Hsn |]. split; [| split; [| split; [done | split; [done |]]]].
  - eapply absorb_merging; [exact Hm | done.. |]. eapply core_ext; [| exact Hc3].
    intros b [Hb | Hb]; apply Hfr2; intros ->; [rewrite dom_insert_L, dom_delete_L in Hb; set_solver |].
    by apply (co_not_head _ _ _ _ _ _ _ o Hc Hod).
  - split; [done |]. split; [done |]. specialize (Hnx o). rewrite decide_True in Hnx by done.
    apply next_of_Some in Hnx as (d3 & Hd3 & Hn3). exists d3. split; [done |]. rewrite Hn3.
    eapply rchain_ext; [| exact Hch]. intros a Ha. destruct (mg_retired _ _ _ _ _ _ _ _ _ _ Hm a Ha) as (_ & HaD & _).
    rewrite Hfr2, lookup_insert_ne; [| intros ->; apply HaD, elem_of_dom; by eexists | intros ->; apply Hout; set_solver].
    apply Hf1. eapply merging_unlisted; [exact Hm | lia | done].
  - eapply kept_trans; [eapply (kept_frame _ _ _ _ _ _ _ _ _ m); [exact Hc | set_solver | lia | exact Hf1 |] |].
    { intros c [-> | Hcl]%elem_of_cons; [by left | right; by left]. }
    intros b Hb. assert (b <> o /\ b <> span) as [Hbo Hbs].
    { destruct Hb as [Hb | [Hb _]]; [set_solver |]. split; intros ->; [by apply (rg_own _ _ _ _ _ Hgo) | by apply (rg_own _ _ _ _ _ Hgs)]. }
    by rewrite Hfr2, lookup_insert_ne by done.
Qed.

(** What coalescing changes. *)
Record grew s D U K (span : Z) al start num s' D' al' start' num' : Prop := {
  gr_map : pc_map s' = pc_map s;
  gr_w : pc_w s' = pc_w s;
  gr_kept : kept (U ∖ {[span]}) K (pc_spans s) (pc_spans s');
  gr_used : forall b, b ∈ U -> b <> span -> D' !! b = D !! b;
  gr_sub : forall b e, D' !! b = Some e -> b <> span -> D !! b = Some e;
  gr_lo : start' <= start;
  gr_hi : start + num <= start' + num';
  gr_dom : dom D' ∪ list_to_set al' = dom D ∪ (list_to_set al : gset Z);
}.

Lemma grew_refl s D U K span al start num : grew s D U K span al start num s D al start num.
Proof. constructor; done. Qed.

Lemma grew_trans s1 s2 s3 D1 D2 D3 U K span a1 a2 a3 x1 x2 x3 n1 n2 n3 :
  grew s1 D1 U K span a1 x1 n1 s2 D2 a2 x2 n2 -> grew s2 D2 U K span a2 x2 n2 s3 D3 a3 x3 n3 ->
  grew s1 D1 U K span a1 x1 n1 s3 D3 a3 x3 n3.
Proof.
  intros [] []. constructor; try congruence; try lia.
  - by eapply kept_trans.
  - intros b Hb Hne. rewrite gr_used1, gr_used0 by done. done.
  - eauto.
Qed.

Lemma absorb_grew s D U K R L span al start num o x m y st2 :
  merging s D U K R L span al start num -> D !! o = Some (x, m) -> (o ∉ U) ->
  (x + m = start /\ y = x \/ x = start + num /\ y = start) ->
  kept (U ∖ {[span]}) K (pc_spans s) st2 ->
  grew s D U K span al start num (with_spans s st2)
    (<[span := (y, num + m)]> (delete o D)) (o :: al) y (num + m).
Proof.
  intros Hm Ho HoU Hadj Hk.
  pose proof (co_geom _ _ _ _ _ _ _ (mg_core _ _ _ _ _ _ _ _ _ _ Hm) _ _ _ Ho) as Hg.
  pose proof (rg_num _ _ _ _ _ Hg). pose proof (mg_num _ _ _ _ _ _ _ _ _ _ Hm).
  constructor; try done; try lia.
  - intros b Hb Hne. rewrite lookup_insert_ne, lookup_delete_ne by congruence. done.
  - intros b e. rewrite lookup_insert_Some, lookup_delete_Some. naive_solver.
  - rewrite dom_insert_L, dom_delete_L, list_to_set_cons.
    assert (o ∈ dom D) by (apply elem_of_dom; by eexists).
    assert (span ∈ dom D) by (apply elem_of_dom; eexists; apply Hm).
    apply set_eq. intros b. destruct (decide (b = o)); set_solver.
Qed.

(** The merge test, on runs of the invariant. *)
Lemma can_merge_spec s D U K R L span al start num o x m d e :
  merging s D U K R L span al start num -> D !! o = Some (x, m) ->
  pc_spans s !! span = Some d -> pc_spans s !! o = Some e ->
  page_num e = m /\ start_page_idx e = x /\
  can_merge d e = bool_decide ((o ∉ U) /\ num + m <= MAX_PAGE_NUM).
Proof.
  intros Hm Ho Hd He. pose proof (mg_core _ _ _ _ _ _ _ _ _ _ Hm) as Hc.
  destruct (co_desc _ _ _ _ _ _ _ Hc _ _ _ Ho) as (e' & He' & Hs & Hn & Hu & Hoe & _).
  rewrite He in He'. injection He' as <-.
  destruct (co_desc _ _ _ _ _ _ _ Hc _ _ _ (mg_run _ _ _ _ _ _ _ _ _ _ Hm)) as (d' & Hd' & _ & Hnd & _ & Hod & _).
  rewrite Hd in Hd'. injection Hd' as <-.
  split; [done |]. split; [done |]. unfold can_merge. rewrite Hu, Hoe, Hod, Hn, Hnd. simpl (0 =? 0).
  destruct (bool_decide_reflect (o ∈ U)) as [HoU | HoU]; simpl.
  { symmetry. apply bool_decide_eq_false. tauto. }
  pose proof (co_listed _ _ _ _ _ _ _ Hc _ _ _ Ho HoU). pose proof (mg_num _ _ _ _ _ _ _ _ _ _ Hm).
  pose proof (rg_num _ _ _ _ _ (co_geom _ _ _ _ _ _ _ Hc _ _ _ Ho)).
  unfold MAX_PAGE_NUM, UINT32_MAX in *. rewrite u32_id by lia.
  apply Bool.eq_iff_eq_true. rewrite Z.leb_le, bool_decide_eq_true. tauto.
Qed.

(** No free run ends where the run starts that could still be merged. *)
Definition left_done D U (start num : Z) : Prop :=
  forall o x m, D !! o = Some (x, m) -> (o ∉ U) -> x + m = start -> MAX_PAGE_NUM < num + m.
Definition right_done D U (start num : Z) : Prop :=
  forall o x m, D !! o = Some (x, m) -> (o ∉ U) -> x = start + num -> MAX_PAGE_NUM < num + m.

(** The run adjacent at page [q] is the one the page map names there. *)
Lemma adjacent_lookup s D U K R L span al start num o x m q :
  merging s D U K R L span al start num -> D !! o = Some (x, m) -> (o ∉ U) -> x <= q < x + m ->
  pm_lookup (pc_map s) q = o.
Proof.
  intros Hm Ho HoU Hq. pose proof (mg_core _ _ _ _ _ _ _ _ _ _ Hm) as Hc.
  pose proof (co_geom _ _ _ _ _ _ _ Hc _ _ _ Ho) as Hg. pose proof (rg_start _ _ _ _ _ Hg).
  apply (mg_other _ _ _ _ _ _ _ _ _ _ Hm); [lia | apply Hg | | by exists x, m].
  intros [-> | Ha]%elem_of_cons; [by apply HoU, Hm |].
  apply (mg_retired _ _ _ _ _ _ _ _ _ _ Hm) in Ha as (_ & Ha & _). apply Ha, elem_of_dom. by eexists.
Qed.

Lemma merge_left_ok s D U K R L N span al start num retired fuel :
  merging s D U K R L span al start num -> radix_ok (pc_map s) N -> rchain (pc_spans s) retired al ->
  MAX_PAGE_NUM < num + Z.of_nat fuel ->
  exists r' s' D' L' al' start' num', merge_left fuel s span retired = Ok (r', s') /\
    merging s' D' U K R L' span al' start' num' /\ rchain (pc_spans s') r' al' /\
    grew s D U K span al start num s' D' al' start' num' /\ left_done D' U start' num'.
Proof.
  revert s D L al start num retired. induction fuel as [| fuel IH]; intros s D L al start num retired Hm Ht Hch Hfuel.
  { pose proof (mg_num _ _ _ _ _ _ _ _ _ _ Hm). lia. }
  cbn [merge_left]. pose proof (mg_core _ _ _ _ _ _ _ _ _ _ Hm) as Hc.
  pose proof (mg_run _ _ _ _ _ _ _ _ _ _ Hm) as Hrun.
  pose proof (co_geom _ _ _ _ _ _ _ Hc _ _ _ Hrun) as Hg. pose proof (rg_start _ _ _ _ _ Hg) as Hs0.
  destruct (co_desc _ _ _ _ _ _ _ Hc _ _ _ Hrun) as (d & Hd & Hs & Hn & _).
  rewrite (get_span_Some _ _ d), bind_Ok_l by (done || apply Hg).
  rewrite Hs, (proj2 (Z.eqb_neq start 0)), (GetSpan_ok _ N), bind_Ok_l by (done || lia).
  assert (Hstop : left_done D U start num -> exists r' s' D' L' al' start' num',
    Ok (retired, s) = Ok (r', s') /\ merging s' D' U K R L' span al' start' num' /\
    rchain (pc_spans s') r' al' /\ grew s D U K span al start num s' D' al' start' num' /\ left_done D' U start' num').
  { intros Hl. exists retired, s, D, L, al, start, num. split_and!; first [done | apply grew_refl]. }
  destruct (Z.eqb_spec (pm_lookup (pc_map s) (start - 1)) 0) as [Hl0 | Hl0].
  { apply Hstop. intros o x m Ho HoU Hx. exfalso.
    pose proof (co_geom _ _ _ _ _ _ _ Hc _ _ _ Ho) as Hgo. pose proof (rg_num _ _ _ _ _ Hgo).
    apply (rg_addr _ _ _ _ _ Hgo). rewrite <- Hl0. symmetry.
    eapply (adjacent_lookup s D U K R L span al start num o x m); [exact Hm | exact Ho | exact HoU | lia]. }
  set (o := pm_lookup (pc_map s) (start - 1)) in *.
  destruct (neighbour s D U K R L span al start num (start - 1) o Hm) as (Hout & x & m & Ho & Hor);
    [lia | by left | done | done |].
  destruct (core_dom _ _ _ _ _ _ _ o Hc) as [Ho0 [e He]]; [apply elem_of_dom; by eexists |].
  rewrite (get_span_Some _ _ e), bind_Ok_l by done.
  destruct (can_merge_spec _ _ _ _ _ _ _ _ _ _ o x m d e Hm Ho Hd He) as (Hme & Hxe & ->).
  assert (Hxm : x + m = start) by (pose proof (rg_num _ _ _ _ _ Hg); lia).
  destruct (bool_decide_reflect ((o ∉ U) /\ num + m <= MAX_PAGE_NUM)) as [[HoU Hle] | Hno]; cbn [negb].
  2:{ apply Hstop. intros o' x' m' Ho' HoU' Hx'.
      assert (o' = o) as ->.
      { symmetry. apply (adjacent_lookup s D U K R L span al start num o' x' m'); [exact Hm | exact Ho' | exact HoU' |].
        pose proof (rg_num _ _ _ _ _ (co_geom _ _ _ _ _ _ _ Hc _ _ _ Ho')). lia. }
      rewrite Ho in Ho'. injection Ho' as <- <-. apply Z.nle_gt. tauto. }
  destruct (absorb_ok s D U K R L span al start num retired o x m x) as
    (s1 & d1 & st2 & L1 & -> & Hd1 & Hs1 & Hn1 & Hsp0 & Hsn & Hm1 & Hch1 & Hmap1 & Hw1 & Hk1); [done.. | lia |].
  rewrite bind_Ok_l, (update_ok s1 span d1), bind_Ok_l by done. cbn [pc_spans with_spans].
  assert (Hnum32 : u32 (num + m) = num + m).
  { apply u32_id. unfold MAX_PAGE_NUM in *. pose proof (mg_num _ _ _ _ _ _ _ _ _ _ Hm1). simpl in *. lia. }
  rewrite Hxe, Hme, Hn1, Hnum32, Hsn, bind_Ok_l.
  assert (with_spans (with_spans s1 (<[span := with_pages d1 x (num + m)]> (pc_spans s1))) st2 = with_spans s st2) as ->.
  { unfold with_spans. cbn. by rewrite Hmap1, Hw1. }
  destruct (IH (with_spans s st2) _ L1 (o :: al) x (num + m) o Hm1 Ht Hch1)
    as (r' & s' & D' & L' & al' & start' & num' & -> & Hm' & Hch' & Hgr & Hdone).
  { pose proof (rg_num _ _ _ _ _ (co_geom _ _ _ _ _ _ _ Hc _ _ _ Ho)). lia. }
  exists r', s', D', L', al', start', num'. split_and!; try done.
  eapply grew_trans; [| exact Hgr]. eapply absorb_grew; [done | done | done | lia | done].
Qed.

Lemma merge_right_ok s D U K R L N span al start num retired fuel :
  merging s D U K R L span al start num -> radix_ok (pc_map s) N -> rchain (pc_spans s) retired al ->
  MAX_PAGE_NUM < num + Z.of_nat fuel ->
  exists r' s' D' L' al' num', merge_right fuel s span retired = Ok (r', s') /\
    merging s' D' U K R L' span al' start num' /\ rchain (pc_spans s') r' al' /\
    grew s D U K span al start num s' D' al' start num' /\ right_done D' U start num'.
Proof.
  revert s D L al num retired. induction fuel as [| fuel IH]; intros s D L al num retired Hm Ht Hch Hfuel.
  { pose proof (mg_num _ _ _ _ _ _ _ _ _ _ Hm). lia. }
  cbn [merge_right]. pose proof (mg_core _ _ _ _ _ _ _ _ _ _ Hm) as Hc.
  pose proof (mg_run _ _ _ _ _ _ _ _ _ _ Hm) as Hrun. pose proof (mg_num _ _ _ _ _ _ _ _ _ _ Hm) as Hnn.
  pose proof (co_geom _ _ _ _ _ _ _ Hc _ _ _ Hrun) as Hg. pose proof (rg_start _ _ _ _ _ Hg) as Hs0.
  pose proof (rg_top _ _ _ _ _ Hg) as Htop. pose proof PAGE_LIMIT_le.
  destruct (co_desc _ _ _ _ _ _ _ Hc _ _ _ Hrun) as (d & Hd & Hs & Hn & _).
  rewrite (get_span_Some _ _ d), bind_Ok_l by (done || apply Hg).
  rewrite Hs, Hn, u64_id, (GetSpan_ok _ N), bind_Ok_l by (done || lia).
  assert (Hstop : right_done D U start num -> exists r' s' D' L' al' num',
    Ok (retired, s) = Ok (r', s') /\ merging s' D' U K R L' span al' start num' /\
    rchain (pc_spans s') r' al' /\ grew s D U K span al start num s' D' al' start num' /\ right_done D' U start num').
  { intros Hl. exists retired, s, D, L, al, num. split_and!; first [done | apply grew_refl]. }
  destruct (Z.eqb_spec (pm_lookup (pc_map s) (start + num)) 0) as [Hl0 | Hl0].
  { apply Hstop. intros o x m Ho HoU Hx. exfalso.
    pose proof (co_geom _ _ _ _ _ _ _ Hc _ _ _ Ho) as Hgo. pose proof (rg_num _ _ _ _ _ Hgo).
    apply (rg_addr _ _ _ _ _ Hgo). rewrite <- Hl0. symmetry.
    eapply (adjacent_lookup s D U K R L span al start num o x m); [exact Hm | exact Ho | exact HoU | lia]. }
  set (o := pm_lookup (pc_map s) (start + num)) in *.
  destruct (neighbour s D U K R L span al start num (start + num) o Hm) as (Hout & x & m & Ho & Hor);
    [lia | by right | done | done |].
  destruct (core_dom _ _ _ _ _ _ _ o Hc) as [Ho0 [e He]]; [apply elem_of_dom; by eexists |].
  rewrite (get_span_Some _ _ e), bind_Ok_l by done.
  destruct (can_merge_spec _ _ _ _ _ _ _ _ _ _ o x m d e Hm Ho Hd He) as (Hme & Hxe & ->).
  assert (Hxm : x = start + num) by (pose proof (rg_num _ _ _ _ _ Hg); lia).
  destruct (bool_decide_reflect ((o ∉ U) /\ num + m <= MAX_PAGE_NUM)) as [[HoU Hle] | Hno]; cbn [negb].
  2:{ apply Hstop. intros o' x' m' Ho' HoU' Hx'.
      assert (o' = o) as ->.
      { symmetry. apply (adjacent_lookup s D U K R L span al start num o' x' m'); [exact Hm | exact Ho' | exact HoU' |].
        pose proof (rg_num _ _ _ _ _ (co_geom _ _ _ _ _ _ _ Hc _ _ _ Ho')). lia. }
      rewrite Ho in Ho'. injection Ho' as <- <-. apply Z.nle_gt. tauto. }
  destruct (absorb_ok s D U K R L span al start num retired o x m start) as
    (s1 & d1 & st2 & L1 & -> & Hd1 & Hs1 & Hn1 & Hsp0 & Hsn & Hm1 & Hch1 & Hmap1 & Hw1 & Hk1); [done.. | lia |].
  rewrite bind_Ok_l, (update_ok s1 span d1), bind_Ok_l by done. cbn [pc_spans with_spans].
  assert (Hnum32 : u32 (num + m) = num + m).
  { apply u32_id. unfold MAX_PAGE_NUM in *. pose proof (mg_num _ _ _ _ _ _ _ _ _ _ Hm1). simpl in *. lia. }
  rewrite Hs1, Hme, Hn1, Hnum32, Hsn, bind_Ok_l.
  assert (with_spans (with_spans s1 (<[span := with_pages d1 start (num + m)]> (pc_spans s1))) st2 = with_spans s st2) as ->.
  { unfold with_spans. cbn. by rewrite Hmap1, Hw1. }
  destruct (IH (with_spans s st2) _ L1 (o :: al) (num + m) o Hm1 Ht Hch1)
    as (r' & s' & D' & L' & al' & num' & -> & Hm' & Hch' & Hgr & Hdone).
  { pose proof (rg_num _ _ _ _ _ (co_geom _ _ _ _ _ _ _ Hc _ _ _ Ho)). lia. }
  exists r', s', D', L', al', num'. split_and!; try done.
  eapply grew_trans; [| exact Hgr]. eapply absorb_grew; [done | done | done | lia | done].
Qed.
End Merge.
