(* ===== verification/PageCacheRelease.v ===== *)
(** * Release to the page cache

    [ReleaseSpan] merges a run with its free neighbours on both sides, keeping
    the absorbed descriptors alive until the page map no longer names them, or
    returns an oversized run to the page allocator. *)
From S2P Require Import Prelude Config SizeClass Common Span SpanList Backing PageMap PageCache PageCacheInv PageCacheAlloc PageCacheMerge.
Open Scope Z_scope.

Section Release.
Context `{BackingLaws W} `{StaticLayout}.
Implicit Types (s : PageCache W) (D : runs) (U K R N : gset Z) (L : Z -> list Z).

(** Deleting the retired descriptors, once the page map no longer names them. *)
Lemma delete_retired_ok s R S N al retired fuel :
  rchain (pc_spans s) retired al -> NoDup al -> (length al <= fuel)%nat ->
  bk_rep (pc_w s) R S N -> (forall a, a ∈ al -> a ∈ S) ->
  exists s', delete_retired fuel s retired = Ok s' /\ pc_map s' = pc_map s /\
    bk_rep (pc_w s') R (S ∖ list_to_set al) N /\
    (forall b, b ∉ al -> pc_spans s' !! b = pc_spans s !! b) /\
    (forall a, a ∈ al -> pc_spans s' !! a = None).
Proof.
  revert s S retired fuel. induction al as [| a al IH]; intros s S retired fuel Hch Hnd Hfuel Hw Hin.
  { simpl in Hch. subst retired. exists s. split; [by destruct fuel |].
    assert (S ∖ list_to_set [] = S) as -> by (cbn [list_to_set]; set_solver). split_and!; try done.
    intros a Ha. by apply not_elem_of_nil in Ha. }
  destruct Hch as (-> & Ha0 & d & Hd & Hch). apply NoDup_cons in Hnd as [Hna Hnd].
  destruct fuel as [| fuel]; [simpl in Hfuel; lia |]. cbn [delete_retired].
  rewrite (proj2 (Z.eqb_neq a 0)), (get_span_Some _ _ d), bind_Ok_l by done.
  unfold delete_span at 1.
  destruct (bk_span_delete_ok (pc_w s) R S N a Hw) as (w' & -> & Hw'); [apply Hin; set_solver |].
  rewrite !bind_Ok_l.
  destruct (IH (mkPageCache (delete a (pc_spans s)) (pc_map s) w') (S ∖ {[a]}) (sp_next d) fuel)
    as (s' & -> & Hmap & Hrep & Hout & Hgone).
  - cbn [pc_spans]. eapply rchain_ext; [| exact Hch]. intros b Hb. apply lookup_delete_ne. congruence.
  - done.
  - simpl in Hfuel. lia.
  - done.
  - intros b Hb. assert (b ∈ S) by (apply Hin; set_solver). assert (b <> a) by congruence. set_solver.
  - exists s'. split; [done |]. split; [done |]. cbn [list_to_set]. split; [| split].
    + rewrite <- difference_difference_l_L. exact Hrep.
    + intros b [Hb1 Hb2]%not_elem_of_cons. rewrite Hout by done. by apply lookup_delete_ne.
    + intros b [-> | Hb]%elem_of_cons; [| by apply Hgone].
      rewrite Hout by done. apply lookup_delete_eq.
Qed.

(** The loops start from a run of the invariant. *)
Lemma merging_start s D U K R N L span start num :
  pc_inv s D U K R N L -> span ∈ U -> D !! span = Some (start, num) -> num <= MAX_PAGE_NUM ->
  merging s D U K R L span [] start num.
Proof.
  intros Hi HU Hr Hn.
  pose proof (rg_num _ _ _ _ _ (co_geom _ _ _ _ _ _ _ (pi_core _ _ _ _ _ _ _ Hi) _ _ _ Hr)).
  constructor; try done.
  - apply Hi.
  - simpl. lia.
  - constructor.
  - intros a Ha. by apply not_elem_of_nil in Ha.
  - intros p b Hp Hb _. by apply Hi.
  - intros p Hp. rewrite list_elem_of_singleton. symmetry. apply Hi; [done |].
    apply (co_geom _ _ _ _ _ _ _ (pi_core _ _ _ _ _ _ _ Hi) _ _ _ Hr).
  - apply Hi.
Qed.

(** What [ReleaseSpan] does to the run it returns. *)
Record released s D U K R span start num s' D' R' : Prop := {
  rl_kept : kept (U ∖ {[span]}) K (pc_spans s) (pc_spans s');
  rl_used : forall b, b ∈ U -> b <> span -> D' !! b = D !! b;
  rl_free : forall b e, D' !! b = Some e -> b <> span -> D !! b = Some e;
  rl_small : num <= MAX_PAGE_NUM -> R' = R /\
    (forall p, 0 <= p -> (exists b, covers D' b p) <-> (exists b, covers D b p)) /\
    exists start' num', D' !! span = Some (start', num') /\
      start' <= start /\ start + num <= start' + num' <= start' + MAX_PAGE_NUM /\
      left_done D' (U ∖ {[span]}) start' num' /\ right_done D' (U ∖ {[span]}) start' num';
  rl_large : MAX_PAGE_NUM < num -> R' = R ∖ pages start num /\ D' = delete span D;
}.

Lemma left_done_mono D D' U U' span start num num' :
  (forall b e, D' !! b = Some e -> b <> span -> D !! b = Some e) ->
  (exists n, D' !! span = Some (start, n) /\ 0 < n) -> num <= num' -> U ∖ {[span]} ⊆ U' ->
  left_done D U start num -> left_done D' U' start num'.
Proof.
  intros Hsub (n & Hsp & Hn) Hle HU Hl o x m Ho HoU Hx.
  assert (Hne : o <> span) by (intros ->; rewrite Hsp in Ho; injection Ho; lia).
  assert (HoU2 : o ∉ U) by (clear -HoU HU Hne; set_solver).
  pose proof (Hl o x m (Hsub _ _ Ho Hne) HoU2 Hx). lia.
Qed.

(** The page map after the merged run is published. *)
Lemma maps_merged s D U K R L span al start num t' :
  merging s D U K R L span al start num -> mapped_to (pc_map s) t' start num span -> maps t' D.
Proof.
  intros Hm Hto p b Hp Hb. rewrite (Hto p Hp).
  pose proof (mg_run _ _ _ _ _ _ _ _ _ _ Hm) as Hrun.
  assert (Hcov : covers D span p <-> start <= p < start + num).
  { unfold covers. rewrite Hrun. naive_solver. }
  pose proof (mg_region _ _ _ _ _ _ _ _ _ _ Hm p Hp) as Hreg. rewrite Hcov in Hreg.
  assert (Hal : b ∈ al -> ~ covers D b p).
  { intros Ha (x & m & HD & _). apply (mg_retired _ _ _ _ _ _ _ _ _ _ Hm) in Ha as (_ & Ha & _).
    apply Ha, elem_of_dom. by eexists. }
  destruct (decide (b = span)) as [-> | Hbs].
  { rewrite Hcov. case_decide as Hin; [done |]. split; [| done]. intros Heq. apply Hreg.
    rewrite Heq. apply elem_of_cons. by left. }
  destruct (decide (b ∈ al)) as [Hba | Hba].
  { split; [| intros Hcv; by destruct (Hal Hba Hcv)]. case_decide as Hin; [congruence |]. intros <-. exfalso. apply Hin, Hreg.
    apply elem_of_cons. by right. }
  assert (Hout : b ∉ span :: al) by (intros [?|?]%elem_of_cons; done).
  rewrite <- (mg_other _ _ _ _ _ _ _ _ _ _ Hm p b Hp Hb Hout). case_decide as Hin; [| done].
  split; [congruence |]. intros <-. exfalso. by apply Hout, Hreg.
Qed.

(** Coalescing keeps every page in some run. *)
Lemma merging_lookup s D U K R L span al start num p :
  merging s D U K R L span al start num -> 0 <= p ->
  (exists b, covers D b p) <-> pm_lookup (pc_map s) p <> 0.
Proof.
  intros Hm Hp. pose proof (mg_core _ _ _ _ _ _ _ _ _ _ Hm) as Hc.
  assert (Hnz : forall b, covers D b p -> b <> 0).
  { intros b (x & m & Hb & _). apply (co_geom _ _ _ _ _ _ _ Hc _ _ _ Hb). }
  assert (Hal0 : forall b, b ∈ span :: al -> b <> 0).
  { intros b [-> | Hb]%elem_of_cons; [| by apply (mg_retired _ _ _ _ _ _ _ _ _ _ Hm)].
    apply (co_geom _ _ _ _ _ _ _ Hc _ _ _ (mg_run _ _ _ _ _ _ _ _ _ _ Hm)). }
  split.
  - intros [b Hb]. destruct (decide (b ∈ span :: al)) as [Hin | Hin].
    + destruct (decide (b = span)) as [-> | Hne]; [apply Hal0; by apply (mg_region _ _ _ _ _ _ _ _ _ _ Hm) |].
      exfalso. apply elem_of_cons in Hin as [| Hin]; [done |].
      apply (mg_retired _ _ _ _ _ _ _ _ _ _ Hm) in Hin as (_ & HD & _). apply HD.
      destruct Hb as (x & m & Hb & _). apply elem_of_dom. by eexists.
    + rewrite (proj2 (mg_other _ _ _ _ _ _ _ _ _ _ Hm p b Hp (Hnz b Hb) Hin) Hb). by apply Hnz.
  - intros Hl. destruct (decide (pm_lookup (pc_map s) p ∈ span :: al)) as [Hin | Hin].
    + exists span. by apply (mg_region _ _ _ _ _ _ _ _ _ _ Hm).
    + exists (pm_lookup (pc_map s) p). by apply (mg_other _ _ _ _ _ _ _ _ _ _ Hm).
Qed.

Lemma merged_covers s s2 D D2 U K R L L2 N span al start num start2 num2 p :
  pc_inv s D U K R N L -> merging s D U K R L span [] start num ->
  merging s2 D2 U K R L2 span al start2 num2 -> pc_map s2 = pc_map s -> 0 <= p ->
  (exists b, covers D2 b p) <-> (exists b, covers D b p).
Proof.
  intros Hi Hm Hm2 Hmap Hp. rewrite (merging_lookup _ _ _ _ _ _ _ _ _ _ _ Hm2 Hp), Hmap.
  symmetry. by eapply merging_lookup.
Qed.

(** The tail of the small branch: reset the run, publish it, drop the
    descriptors it absorbed, put it on its list. *)
Definition finish_release s span retired : outcome (PageCache W) :=
  let '(now, w) := bk_now (pc_w s) in
  s ← update (with_w s w) span (fun d =>
        with_time (with_usage (with_grid (SetCommitted (SetUsed d false) true)
          (size_class_idx d) 0 0 0) 0 (scan_cursor d)) now);
  s ← publish s span;
  s ← delete_retired (Z.to_nat MAX_PAGE_NUM) s retired;
  d ← get_span (pc_spans s) span;
  st ← push_front (pc_spans s) (list_head (page_num d)) span;
  Ok (with_spans s st).

Lemma retired_apart s D U K R L span al start num a :
  merging s D U K R L span al start num -> a ∈ al ->
  a <> span /\ (a ∉ dom D) /\ (a / PAGE_SIZE ∉ K) /\ ~ is_head a.
Proof.
  intros Hm Ha. destruct (mg_retired _ _ _ _ _ _ _ _ _ _ Hm a Ha) as (_ & HaD & HaK).
  split; [intros ->; apply HaD, elem_of_dom; eexists; apply Hm |]. split; [done |]. split; [done |].
  intros (i & Hi & ->). by apply HaK, (mg_core _ _ _ _ _ _ _ _ _ _ Hm).
Qed.

(** Deleting the absorbed descriptors concerns no live run. *)
Lemma delete_merged s D U K R L span al start num s1 S N retired d2 :
  merging s D U K R L span al start num -> rchain (pc_spans s) retired al ->
  pc_spans s1 = <[span := d2]> (pc_spans s) ->
  core (pc_spans s1) D (U ∖ {[span]}) U K R L -> bk_rep (pc_w s1) R S N -> S = dom D ∪ list_to_set al ->
  exists s2, delete_retired (Z.to_nat MAX_PAGE_NUM) s1 retired = Ok s2 /\
    pc_map s2 = pc_map s1 /\ bk_rep (pc_w s2) R (dom D) N /\
    core (pc_spans s2) D (U ∖ {[span]}) U K R L /\ pc_spans s2 !! span = Some d2 /\
    kept (U ∖ {[span]}) K (pc_spans s) (pc_spans s2).
Proof.
  intros Hm Hch Hs1 Hc1 Hw ->. pose proof (fun a => retired_apart _ _ _ _ _ _ _ _ _ _ a Hm) as Hap.
  pose proof (mg_num _ _ _ _ _ _ _ _ _ _ Hm) as Hn. pose proof (mg_core _ _ _ _ _ _ _ _ _ _ Hm) as Hc.
  destruct (delete_retired_ok s1 R (dom D ∪ list_to_set al) N al retired (Z.to_nat MAX_PAGE_NUM))
    as (s3 & Hdel & Hmap3 & Hw3 & Hout3 & _).
  { rewrite Hs1. eapply rchain_ext; [| exact Hch]. intros a Ha. apply lookup_insert_ne.
    destruct (Hap a Ha) as [? _]. congruence. }
  { apply Hm. } { lia. } { done. } { intros a Ha. clear -Ha. set_solver. }
  exists s3. split; [done |]. split; [done |]. split; [| split; [| split]].
  - replace (dom D) with ((dom D ∪ list_to_set al) ∖ list_to_set al); [done |]. apply set_eq. intros b.
    rewrite elem_of_difference, elem_of_union, elem_of_list_to_set. split; [tauto |].
    intros Hb. split; [by left |]. intros Ha. by destruct (Hap b Ha) as (_ & ? & _).
  - eapply core_ext; [| exact Hc1]. intros b Hb. apply Hout3. intros Ha. destruct (Hap b Ha) as (_ & ? & _ & ?). tauto.
  - rewrite Hout3, Hs1; [apply lookup_insert_eq |]. intros Ha. by destruct (Hap span Ha) as [? _].
  - intros b Hb. assert ((b ∉ al) /\ b <> span) as [Hba Hbs].
    { pose proof (co_geom _ _ _ _ _ _ _ Hc _ _ _ (mg_run _ _ _ _ _ _ _ _ _ _ Hm)) as Hg. destruct Hb as [Hb | [Hb _]].
      - split; [| clear -Hb; set_solver]. intros Ha. destruct (Hap b Ha) as (_ & HaD & _). apply HaD.
        apply (co_used _ _ _ _ _ _ _ Hc). clear -Hb; set_solver.
      - split; [intros Ha; by destruct (Hap b Ha) as (_ & _ & ? & _) | intros ->; by apply (rg_own _ _ _ _ _ Hg)]. }
    by rewrite Hout3, Hs1, lookup_insert_ne by done.
Qed.

Lemma finish_release_ok s D U K R N L span al start num retired S :
  merging s D U K R L span al start num -> radix_ok (pc_map s) N -> K ⊆ R ->
  bk_rep (pc_w s) R S N -> S = dom D ∪ list_to_set al -> rchain (pc_spans s) retired al ->
  exists s' L', finish_release s span retired = Ok s' /\
    pc_inv s' D (U ∖ {[span]}) K R N L' /\ kept (U ∖ {[span]}) K (pc_spans s) (pc_spans s').
Proof.
  intros Hm Ht HKR Hw HS Hch. pose proof (mg_core _ _ _ _ _ _ _ _ _ _ Hm) as Hc.
  pose proof (mg_run _ _ _ _ _ _ _ _ _ _ Hm) as Hrun. pose proof (mg_num _ _ _ _ _ _ _ _ _ _ Hm) as Hn.
  pose proof (mg_used _ _ _ _ _ _ _ _ _ _ Hm) as Hsu.
  pose proof (co_geom _ _ _ _ _ _ _ Hc _ _ _ Hrun) as Hg. pose proof (rg_start _ _ _ _ _ Hg) as Hs0.
  destruct (co_desc _ _ _ _ _ _ _ Hc _ _ _ Hrun) as (d & Hd & Hds & Hdn & _ & Hdo & _).
  unfold finish_release. destruct (bk_now (pc_w s)) as [now w] eqn:Hnow.
  pose proof (bk_now_ok _ _ _ _ Hw) as Hw1. rewrite Hnow in Hw1. simpl in Hw1.
  rewrite (update_ok _ span d), bind_Ok_l by (done || apply Hg). cbn [pc_spans with_w].
  set (d2 := with_time _ now).
  assert (Hcl : clean d2) by (unfold clean; by split_and!).
  pose proof (core_free _ D U K R L span start num d d2 Hc Hsu Hrun Hd eq_refl eq_refl eq_refl
    (IsUsed_SetCommitted_SetUsed d false true) Hcl) as Hc2.
  assert (Hds2 : start_page_idx d2 = start) by exact Hds. assert (Hdn2 : page_num d2 = num) by exact Hdn.
  clearbody d2.
  destruct (publish_ok (with_spans (with_w s w) (<[span:=d2]> (pc_spans s))) N span d2) as (t' & -> & Ht' & Hp' & Hto);
    [done | apply lookup_insert_eq | apply Hg | lia | lia | |].
  { rewrite Hds2, Hdn2. intros p Hp. apply (mg_path _ _ _ _ _ _ _ _ _ _ Hm span). by exists start, num. }
  rewrite bind_Ok_l. rewrite Hds2, Hdn2 in Hto.
  destruct (delete_merged s D U K R L span al start num
    (with_map (with_spans (with_w s w) (<[span:=d2]> (pc_spans s))) t') S N retired d2 Hm Hch eq_refl Hc2 Hw1 HS)
    as (s3 & -> & Hmap3 & Hw3 & Hc3 & Hd3 & Hk3).
  rewrite bind_Ok_l, (get_span_Some _ _ d2), bind_Ok_l, Hdn2 by (done || apply Hg).
  destruct (core_push _ _ _ _ _ _ _ span start num Hc3 Hsu Hrun ltac:(lia)) as (st4 & -> & Hc4 & Hsd4 & Hf4).
  rewrite bind_Ok_l. do 2 eexists. split; [done |]. split.
  - cbn [pc_map with_map] in Hmap3. constructor; cbn [pc_spans pc_map pc_w with_spans]; rewrite ?Hmap3; try done.
    + by eapply maps_merged.
    + intros b p Hb. rewrite Hp'. by apply (mg_path _ _ _ _ _ _ _ _ _ _ Hm b).
  - cbn [pc_spans with_spans]. eapply kept_trans; [exact Hk3 |].
    eapply (kept_push _ _ _ _ _ _ _ _ _ _ span); [exact Hc3 | clear; set_solver | | apply elem_of_dom; by eexists | clear; set_solver | exact Hf4]. lia.
Qed.

Lemma GetPageBaseAddr_run K R a start num d :
  run_geom K R a start num -> start_page_idx d = start -> GetPageBaseAddr d = start * PAGE_SIZE.
Proof.
  intros [] Hs. pose proof PAGE_LIMIT_le. unfold GetPageBaseAddr. rewrite page_shift_spec, Hs.
  apply u64_id. unfold PAGE_SIZE. lia.
Qed.

(** A run that left the page map no longer appears in it. *)
Lemma maps_clear t t' D a start num :
  maps t D -> mapped_to t t' start num 0 -> D !! a = Some (start, num) -> a <> 0 ->
  maps t' (delete a D).
Proof.
  intros Hm Hto Ha Ha0 p b Hp Hb. rewrite covers_delete, (Hto p Hp).
  assert (Hcov : covers D a p <-> start <= p < start + num) by (unfold covers; rewrite Ha; naive_solver).
  rewrite <- (Hm p a Hp Ha0) in Hcov. case_decide as Hin.
  - apply Hcov in Hin. split; [congruence |]. intros [Hne Hcb]. apply (Hm p b Hp Hb) in Hcb. congruence.
  - rewrite (Hm p b Hp Hb). split; [| tauto]. intros Hcb. split; [| done]. intros ->.
    by apply Hin, Hcov, (Hm p a Hp Ha0).
Qed.

(** The large branch. *)
Lemma release_large_ok s D U K R N L span start num d :
  pc_inv s D U K R N L -> span ∈ U -> D !! span = Some (start, num) ->
  pc_spans s !! span = Some d -> start_page_idx d = start -> page_num d = num ->
  exists t s1 s', ClearRange (pc_map s) (start_page_idx d) (page_num d) = Ok t /\
    system_free (with_map s t) (GetPageBaseAddr d) (page_num d) = Ok s1 /\
    delete_span s1 span = Ok s' /\
    pc_inv s' (delete span D) (U ∖ {[span]}) K (R ∖ pages start num) N L /\
    pc_spans s' = delete span (pc_spans s).
Proof.
  intros Hi HU Hr Hd Hs Hn. pose proof (pi_core _ _ _ _ _ _ _ Hi) as Hc.
  pose proof (co_geom _ _ _ _ _ _ _ Hc _ _ _ Hr) as Hg. destruct Hg as [Ha0 HaK Hst Hnum Htop Hpg Hsk] eqn:E. clear E.
  rewrite (GetPageBaseAddr_run _ _ _ _ _ d Hg Hs), Hs, Hn. pose proof PAGE_LIMIT_le.
  destruct (ClearRange_ok (pc_map s) N start num) as (t & -> & Ht & Hsh & Hto); [apply Hi | lia | lia |].
  unfold system_free. cbn [pc_w with_map].
  destruct (bk_free_ok (pc_w s) R (dom D) N start num) as (w1 & Hfree & Hw1); [apply Hi | lia | lia | done | done |].
  unfold delete_span. exists t, (with_w (with_map s t) w1).
  destruct (bk_span_delete_ok w1 (R ∖ pages start num) (dom D) N span Hw1) as (w2 & Hdel & Hw2).
  { apply elem_of_dom. by eexists. }
  cbn [pc_w with_w pc_spans pc_map with_map]. rewrite Hdel, bind_Ok_l.
  eexists. split; [done |]. split; [by rewrite Hfree |]. split; [done |]. split; [| done].
  constructor; cbn [pc_spans pc_map pc_w].
  - eapply (core_pages _ _ _ _ _ R); [| by apply core_delete].
    intros b x m [Hne Hb]%lookup_delete_Some p Hp. apply elem_of_difference.
    split; [by apply (rg_pages _ _ _ _ _ (co_geom _ _ _ _ _ _ _ Hc _ _ _ Hb)) |].
    intros Hp2. apply elem_of_pages in Hp, Hp2. apply Hne. symmetry.
    apply (maps_disjoint (pc_map s) D b span p); [apply Hi | lia | | done | by exists x, m | by exists start, num].
    apply (co_geom _ _ _ _ _ _ _ Hc _ _ _ Hb).
  - by rewrite dom_delete_L.
  - done.
  - eapply maps_clear; [apply Hi | done | done | done].
  - intros b p Hcov%covers_delete. rewrite (same_shape_has_path (pc_map s)) by done.
    destruct Hcov as [_ Hcov]. by apply (pi_path _ _ _ _ _ _ _ Hi b).
  - intros k Hk. apply elem_of_difference. split; [by apply Hi |]. intros Hp. by apply (Hsk k).
Qed.

(** Both branches of the release. *)
Lemma ReleaseSpan_ok s D U K R N L span start num :
  pc_inv s D U K R N L -> span ∈ U -> D !! span = Some (start, num) ->
  exists s' D' R' L', ReleaseSpan s span = Ok s' /\
    pc_inv s' D' (U ∖ {[span]}) K R' N L' /\ released s D U K R span start num s' D' R'.
Proof.
  intros Hi HU Hr. pose proof (pi_core _ _ _ _ _ _ _ Hi) as Hc.
  pose proof (co_geom _ _ _ _ _ _ _ Hc _ _ _ Hr) as Hg.
  destruct (co_desc _ _ _ _ _ _ _ Hc _ _ _ Hr) as (d & Hd & Hds & Hdn & _ & Hdo & _).
  pose proof (rg_addr _ _ _ _ _ Hg) as Ha0. pose proof (rg_num _ _ _ _ _ Hg) as Hn0.
  unfold ReleaseSpan. rewrite (proj2 (Z.eqb_neq span 0)), (get_span_Some _ _ d) by done.
  cbn [negb]. rewrite AM_DCHECK_true, !bind_Ok_l, Hdo. change (0 <? active_shard_count) with true.
  rewrite AM_DCHECK_true, bind_Ok_l. unfold ReleaseSpanLocked.
  rewrite (proj2 (Z.eqb_neq span 0)), (get_span_Some _ _ d) by done.
  cbn [negb]. rewrite AM_DCHECK_true, !bind_Ok_l, Hdn.
  destruct (Z.ltb_spec MAX_PAGE_NUM num) as [Hlarge | Hsmall].
  { destruct (release_large_ok s D U K R N L span start num d) as (t & s1 & s' & Ht & Hs1 & Hs' & Hi' & Heq); [done.. |].
    rewrite Hdn in Ht, Hs1. rewrite Ht, bind_Ok_l, Hs1, bind_Ok_l, Hs'.
    do 4 eexists. split; [done |]. split; [exact Hi' |]. constructor.
    - intros b Hb. rewrite Heq. apply lookup_delete_ne. intros <-.
      destruct Hb as [Hb | [Hb _]]; [clear -Hb; set_solver | by apply (rg_own _ _ _ _ _ Hg)].
    - intros b Hb Hne. by apply lookup_delete_ne.
    - by intros b e [_ Hb]%lookup_delete_Some.
    - lia.
    - done. }
  pose proof (merging_start s D U K R N L span start num Hi HU Hr Hsmall) as Hm0.
  destruct (merge_left_ok s D U K R L N span [] start num 0 (Z.to_nat MAX_PAGE_NUM) Hm0)
    as (r1 & s1 & D1 & L1 & al1 & start1 & num1 & -> & Hm1 & Hch1 & Hgr1 & Hl1); [apply Hi | done | lia |].
  rewrite bind_Ok_l. cbn iota beta.
  destruct (merge_right_ok s1 D1 U K R L1 N span al1 start1 num1 r1 (Z.to_nat MAX_PAGE_NUM) Hm1)
    as (r2 & s2 & D2 & L2 & al2 & num2 & -> & Hm2 & Hch2 & Hgr2 & Hr2).
  { rewrite (gr_map _ _ _ _ _ _ _ _ _ _ _ _ _ Hgr1). apply Hi. } { done. }
  { pose proof (mg_num _ _ _ _ _ _ _ _ _ _ Hm1). lia. }
  rewrite bind_Ok_l. cbn iota beta.
  pose proof (grew_trans _ _ _ _ _ _ _ _ _ _ _ _ _ _ _ _ _ _ Hgr1 Hgr2) as Hgr.
  destruct (finish_release_ok s2 D2 U K R N L2 span al2 start1 num2 r2 (dom D) Hm2) as (s' & L' & Hfin & Hi' & Hk).
  { rewrite (gr_map _ _ _ _ _ _ _ _ _ _ _ _ _ Hgr). apply Hi. } { apply Hi. }
  { rewrite (gr_w _ _ _ _ _ _ _ _ _ _ _ _ _ Hgr). apply Hi. }
  { rewrite (gr_dom _ _ _ _ _ _ _ _ _ _ _ _ _ Hgr). clear. set_solver. } { done. }
  unfold finish_release in Hfin. rewrite Hfin. do 4 eexists. split; [done |]. split; [exact Hi' |].
  pose proof (mg_run _ _ _ _ _ _ _ _ _ _ Hm2) as Hrun2. pose proof (mg_num _ _ _ _ _ _ _ _ _ _ Hm2).
  pose proof (gr_lo _ _ _ _ _ _ _ _ _ _ _ _ _ Hgr). pose proof (gr_hi _ _ _ _ _ _ _ _ _ _ _ _ _ Hgr).
  assert (Hrun : exists n, D2 !! span = Some (start1, n) /\ 0 < n) by (exists num2; split; [done | lia]).
  constructor.
  - eapply kept_trans; [apply Hgr | exact Hk].
  - apply Hgr.
  - apply Hgr.
  - intros _. split; [done |]. split; [intros p Hp; eapply (merged_covers s s2 D D2 U K R L L2 N); [done | done | done | apply Hgr | done] |]. exists start1, num2. split; [done |]. split; [lia |]. split; [lia |]. split.
    + apply (left_done_mono D1 D2 U _ span start1 num1); [apply Hgr2 | done | | done | done].
      pose proof (gr_hi _ _ _ _ _ _ _ _ _ _ _ _ _ Hgr2). lia.
    + intros o x m Ho HoU Hx. apply (Hr2 o x m Ho); [| done]. intros HoU2. apply HoU.
      apply elem_of_difference. split; [done |]. intros ->%elem_of_singleton.
      destruct Hrun as (n & Hrn & ?). rewrite Ho in Hrn. injection Hrn as -> _. lia.
  - lia.
Qed.

(** C6: [ReleaseSpan] never fails badly and neither loses nor duplicates a page.
    For the descriptor of any run in use it runs to completion in every build
    (both merge loops and the deletion loop terminate within 128 steps, no
    retired descriptor is read after its deletion), the invariant holds again
    with exactly that run no longer in use, and every other run in use, its
    descriptor and its mapping are untouched.  A run of at most 128 pages ends
    in one free run that contains it, built from whole free runs next to it,
    and that no adjacent free run could still extend within 128 pages; nothing
    goes back to the system and no page leaves the page map.  A larger run
    leaves the cache: its descriptor dies and exactly its pages return to the
    page allocator. *)
Theorem ReleaseSpan_spec s D U K R N L span start num :
  pc_inv s D U K R N L -> span ∈ U -> D !! span = Some (start, num) ->
  exists s' D' R' L', ReleaseSpan s span = Ok s' /\
    pc_inv s' D' (U ∖ {[span]}) K R' N L' /\ released s D U K R span start num s' D' R'.
Proof. apply ReleaseSpan_ok. Qed.
End Release.

Section ReleaseWitness.
#[local] Existing Instance release_build.
#[local] Existing Instance bump_backing.
#[local] Existing Instance bump_laws.
#[local] Existing Instance sample_layout.

(** The first run handed out by the empty cache, released again. *)
Lemma ReleaseSpan_spec_witness :
  exists a s1 D U R N L start, AllocSpanLocked sample_cache 3 = Ok (a, s1) /\ a <> 0 /\ a ∈ U /\
    D !! a = Some (start, 3) /\ pc_inv (H1 := bump_laws) s1 D U (pages 1 3) R N L /\
    exists s' D' R' L', ReleaseSpan s1 a = Ok s' /\
      pc_inv (H1 := bump_laws) s' D' (U ∖ {[a]}) (pages 1 3) R' N L' /\
      released s1 D U (pages 1 3) R a start 3 s' D' R'.
Proof.
  destruct (AllocSpanLocked_ok (H1 := bump_laws) sample_cache ∅ ∅ (pages 1 3) (pages 1 3) ∅ (fun _ => []) 3
    sample_cache_inv ltac:(unfold UINT32_MAX; lia)) as (a & s1 & Heq & D & R & N & L & Hi & _ & _ & _ & Ha).
  assert (Ha0 : a <> 0).
  { assert (match AllocSpanLocked sample_cache 3 with Ok (b, _) => (b =? 0) = false | _ => False end) as Hb
      by (by vm_compute). rewrite Heq in Hb. by apply Z.eqb_neq. }
  rewrite decide_False in Hi by done. destruct (Ha Ha0) as (_ & (start & Hst) & _).
  assert (HaU : a ∈ {[a]} ∪ (∅ : gset Z)) by (apply elem_of_union_l, elem_of_singleton; reflexivity).
  exists a, s1, D, ({[a]} ∪ ∅), R, N, L, start. do 5 (split; [done |]).
  apply (ReleaseSpan_spec (H1 := bump_laws) s1 D ({[a]} ∪ ∅) (pages 1 3) R N L a start 3 Hi HaU Hst).
Defined.
End ReleaseWitness.
