(* ===== verification/PageCacheReset.v ===== *)
(** * Reset of the page cache

    [PageCache::Reset] on a cache with no run in use: every free run returns to
    the page allocator and every descriptor and radix node to its pool. *)
From S2P Require Import Prelude Config SizeClass Common Span SpanList Backing PageMap PageCache PageCacheInv PageCacheRelease.
Open Scope Z_scope.

Section Reset.
Context `{BackingLaws W} `{StaticLayout}.
Implicit Types (s : PageCache W) (D : runs) (U K R N : gset Z) (L : Z -> list Z).

Definition covered D (p : Z) : Prop := exists b, covers D b p.
Definition disjoint_runs D : Prop := forall a b p, covers D a p -> covers D b p -> a = b.

Lemma covers_sub D D' b p : D' ⊆ D -> covers D' b p -> covers D b p.
Proof. intros Hs (x & n & Hb & Hp). exists x, n. split; [by eapply lookup_weaken | done]. Qed.

Lemma covered_delete D a x n p :
  disjoint_runs D -> D !! a = Some (x, n) ->
  covered (delete a D) p <-> covered D p /\ ~ (x <= p < x + n).
Proof.
  intros Hd Ha. assert (Hc : x <= p < x + n -> covers D a p) by (by exists x, n).
  split.
  - intros [b [Hne Hb]%covers_delete]. split; [by exists b |]. intros Hp. by apply Hne, (Hd _ _ p); [| apply Hc].
  - intros [[b Hb] Hn]. exists b. apply covers_delete. split; [| done]. intros ->.
    destruct Hb as (x' & n' & Hb & Hp). rewrite Ha in Hb. by injection Hb as <- <-.
Qed.

(** Halfway through: the runs left are [D], the pages left [R]. *)
Record resetting s D K R N L : Prop := {
  rs_core : core (pc_spans s) D ∅ ∅ K R L;
  rs_w : bk_rep (pc_w s) R (dom D) N;
  rs_static : K ⊆ R;
  rs_disj : disjoint_runs D;
}.

(** The runs of [D] that are not in [D'] have given their pages back. *)
Definition gave_back D R D' R' : Prop :=
  D' ⊆ D /\ forall p, p ∈ R' <-> p ∈ R /\ (covered D p -> covered D' p).

Lemma gave_back_trans D1 R1 D2 R2 D3 R3 :
  gave_back D1 R1 D2 R2 -> gave_back D2 R2 D3 R3 -> gave_back D1 R1 D3 R3.
Proof.
  intros [Hs1 H1'] [Hs2 H2']. split; [by etransitivity |]. intros p. rewrite H2', H1'.
  assert (covered D3 p -> covered D2 p) by (intros [b Hb]; exists b; by eapply covers_sub).
  assert (covered D2 p -> covered D1 p) by (intros [b Hb]; exists b; by eapply covers_sub). tauto.
Qed.

(** One pass of the loop: the front run of the list goes back. *)
Lemma reset_step s D K R N L i fuel :
  resetting s D K R N L -> 0 <= i <= MAX_PAGE_NUM -> L i <> [] ->
  exists s' D' R', reset_list (S fuel) s (list_head i) = reset_list fuel s' (list_head i) /\
    resetting s' D' K R' N (upd_list L i (tail (L i))) /\ gave_back D R D' R' /\ pc_map s' = pc_map s.
Proof.
  intros Hr Hi HL. pose proof (rs_core _ _ _ _ _ _ Hr) as Hc.
  cbn [reset_list]. rewrite (sl_empty_dll _ _ (L i)), bind_Ok_l by (by apply Hc).
  rewrite bool_decide_eq_false_2 by done.
  destruct (core_pop _ _ _ _ _ _ _ i Hc Hi HL) as (a & st' & x & -> & HLi & Hc1 & _ & Ha & _ & _).
  rewrite bind_Ok_l. cbn iota beta zeta. rewrite (union_empty_r_L {[a]}) in Hc1.
  pose proof (co_geom _ _ _ _ _ _ _ Hc1 _ _ _ Ha) as Hg. pose proof Hg as [Ha0 HaK Hst Hnum Htop Hpg Hsk].
  destruct (co_desc _ _ _ _ _ _ _ Hc1 _ _ _ Ha) as (d & Hd & Hds & Hdn & _).
  rewrite (proj2 (Z.eqb_neq a 0)) by done. cbn [negb pc_spans with_spans].
  rewrite AM_DCHECK_true, bind_Ok_l, (get_span_Some _ _ d), bind_Ok_l by done.
  rewrite (GetPageBaseAddr_run _ _ _ _ _ d Hg Hds), Hdn. unfold system_free. cbn [pc_w with_spans].
  destruct (bk_free_ok (pc_w s) R (dom D) N x i) as (w1 & -> & Hw1); [apply Hr | lia | lia | done | done |].
  rewrite !bind_Ok_l. unfold delete_span. cbn [pc_w with_w pc_spans pc_map with_spans].
  destruct (bk_span_delete_ok w1 (R ∖ pages x i) (dom D) N a Hw1) as (w2 & -> & Hw2).
  { apply elem_of_dom. by eexists. }
  rewrite !bind_Ok_l. eexists _, (delete a D), (R ∖ pages x i). split; [reflexivity |].
  pose proof (rs_disj _ _ _ _ _ _ Hr) as Hdisj. split; [| split; [| done]].
  - constructor; cbn [pc_spans pc_w].
    + pose proof (core_delete _ _ _ _ _ _ _ a Hc1 ltac:(by apply elem_of_singleton)) as Hc2.
      assert (({[a]} : gset Z) ∖ {[a]} = ∅) as HX by (clear; set_solver).
      assert ((∅ : gset Z) ∖ {[a]} = ∅) as HU by (clear; set_solver). rewrite HX, HU in Hc2.
      eapply core_pages; [| exact Hc2].
      intros b y m [Hne Hb]%lookup_delete_Some p Hp. apply elem_of_difference.
      split; [by apply (rg_pages _ _ _ _ _ (co_geom _ _ _ _ _ _ _ Hc _ _ _ Hb)) |].
      intros Hp2. apply elem_of_pages in Hp, Hp2. apply Hne, (Hdisj a b p); [by exists x, i | by exists y, m].
    + by rewrite dom_delete_L.
    + intros k Hk. apply elem_of_difference. split; [by apply Hr |]. intros Hp. by apply (Hsk k).
    + intros b c p Hb Hc'. apply (Hdisj b c p); eapply covers_sub; (apply delete_subseteq || done).
  - split; [apply delete_subseteq |]. intros p. rewrite (covered_delete D a x i p Hdisj Ha).
    rewrite elem_of_difference, elem_of_pages.
    assert (x <= p < x + i -> covered D p) by (intros ?; exists a, x, i; done). tauto.
Qed.

Lemma reset_list_ok s D K R N L i fuel :
  resetting s D K R N L -> 0 <= i <= MAX_PAGE_NUM -> (length (L i) <= fuel)%nat ->
  exists s' D' R' L', reset_list fuel s (list_head i) = Ok s' /\ resetting s' D' K R' N L' /\
    gave_back D R D' R' /\ pc_map s' = pc_map s /\ L' i = [] /\ (forall j, j <> i -> L' j = L j).
Proof.
  revert s D R L. induction fuel as [| fuel IH]; intros s D R L Hr Hi Hlen.
  all: destruct (decide (L i = [])) as [HL | HL].
  1, 3: exists s, D, R, L; split;
    [cbn [reset_list]; rewrite (sl_empty_dll _ _ (L i) (co_lists _ _ _ _ _ _ _ (rs_core _ _ _ _ _ _ Hr) i Hi)),
       bind_Ok_l, bool_decide_eq_true_2 by done; done |].
  1, 2: split; [done |]; split; [split; [done | tauto] | done].
  - destruct (L i); [done | simpl in Hlen; lia].
  - destruct (reset_step s D K R N L i fuel Hr Hi HL) as (s1 & D1 & R1 & -> & Hr1 & Hg1 & Hm1).
    destruct (IH s1 D1 R1 _ Hr1 Hi) as (s2 & D2 & R2 & L2 & -> & Hr2 & Hg2 & Hm2 & HL2 & Hoth).
    { unfold upd_list. rewrite decide_True by done. destruct (L i); [done |]. simpl in *. lia. }
    exists s2, D2, R2, L2. split; [done |]. split; [done |]. split; [by eapply gave_back_trans |].
    split; [congruence |]. split; [done |]. intros j Hj. rewrite Hoth by done. unfold upd_list. by rewrite decide_False.
Qed.

(** The covered pages are those the page map knows, in a cache at rest. *)
Lemma covers_page s D U K R N L b p : pc_inv s D U K R N L -> covers D b p -> 0 <= p /\ b <> 0.
Proof.
  intros Hi (x & n & Hb & Hp). pose proof (co_geom _ _ _ _ _ _ _ (pi_core _ _ _ _ _ _ _ Hi) _ _ _ Hb) as Hg.
  pose proof (rg_start _ _ _ _ _ Hg). split; [lia | apply Hg].
Qed.

Lemma covered_mapped s D U K R N L p :
  pc_inv s D U K R N L -> 0 <= p -> covered D p <-> pm_lookup (pc_map s) p <> 0.
Proof.
  intros Hi Hp. split.
  - intros [b Hb]. destruct (covers_page _ _ _ _ _ _ _ _ _ Hi Hb) as [_ Hb0].
    apply (pi_maps _ _ _ _ _ _ _ Hi) in Hb as ->; done.
  - intros Hl. exists (pm_lookup (pc_map s) p). by apply (pi_maps _ _ _ _ _ _ _ Hi).
Qed.

Lemma resetting_start s D K R N L : pc_inv s D ∅ K R N L -> resetting s D K R N L.
Proof.
  intros Hi. constructor; [apply Hi | apply Hi | apply Hi |]. intros a b p Ha Hb.
  destruct (covers_page _ _ _ _ _ _ _ _ _ Hi Ha), (covers_page _ _ _ _ _ _ _ _ _ Hi Hb).
  eapply maps_disjoint; [apply Hi | done..].
Qed.

(** Every list is drained. *)
Lemma reset_lists_ok s D K R N L fuel :
  resetting s D K R N L -> (forall i, 0 <= i <= MAX_PAGE_NUM -> (length (L i) <= fuel)%nat) ->
  exists s' D' R' L',
    for_range 0 (MAX_PAGE_NUM + 1) (fun i s => reset_list fuel s (list_head i)) s = Ok s' /\
    resetting s' D' K R' N L' /\ gave_back D R D' R' /\ pc_map s' = pc_map s /\
    (forall i, 0 <= i <= MAX_PAGE_NUM -> L' i = []).
Proof.
  intros Hr0 Hfuel.
  destruct (for_range_inv (fun i s' => exists D' R' L', resetting s' D' K R' N L' /\ gave_back D R D' R' /\
      pc_map s' = pc_map s /\ (forall j, 0 <= j < i -> L' j = []) /\ (forall j, i <= j -> L' j = L j))
      0 (MAX_PAGE_NUM + 1) (fun i s => reset_list fuel s (list_head i)) s)
    as (s1 & -> & D1 & R1 & L1 & Hr1 & Hg1 & Hm1 & HL1 & _).
  { unfold MAX_PAGE_NUM. lia. }
  { exists D, R, L. split; [done |]. split; [split; [done | tauto] |]. split_and!; [done | lia | done]. }
  { intros i s1 Hik (D1 & R1 & L1 & Hr1 & Hg1 & Hm1 & HL1 & HLr).
    destruct (reset_list_ok s1 D1 K R1 N L1 i fuel Hr1) as (s2 & D2 & R2 & L2 & -> & Hr2 & Hg2 & Hm2 & HL2 & Hoth);
      [lia | rewrite HLr by lia; apply Hfuel; lia |].
    exists s2. split; [done |]. exists D2, R2, L2. split; [done |]. split; [by eapply gave_back_trans |].
    split; [congruence |]. split; intros j Hj.
    - destruct (decide (j = i)) as [-> | ?]; [done |]. rewrite Hoth by done. apply HL1. lia.
    - rewrite Hoth by lia. apply HLr. lia. }
  exists s1, D1, R1, L1. do 4 (split; [done |]). intros i Hi. apply HL1. lia.
Qed.

(** A run with no user is on a list. *)
Lemma resetting_done s D K R N L :
  resetting s D K R N L -> (forall i, 0 <= i <= MAX_PAGE_NUM -> L i = []) -> D = ∅.
Proof.
  intros Hr HL. apply map_empty. intros a. apply eq_None_not_Some. intros [[x n] Ha].
  pose proof (rs_core _ _ _ _ _ _ Hr) as Hc. assert (HX : a ∉ (∅ : gset Z)) by (clear; set_solver).
  pose proof (co_listed _ _ _ _ _ _ _ Hc _ _ _ Ha HX).
  pose proof (rg_num _ _ _ _ _ (co_geom _ _ _ _ _ _ _ Hc _ _ _ Ha)).
  assert (Hin : a ∈ L n) by (apply (co_member _ _ _ _ _ _ _ Hc); [lia |]; split; [done | by exists x]).
  rewrite HL in Hin by lia. by apply not_elem_of_nil in Hin.
Qed.

Lemma Reset_ok s D K R N L fuel :
  pc_inv s D ∅ K R N L -> (forall i, 0 <= i <= MAX_PAGE_NUM -> (length (L i) <= fuel)%nat) ->
  exists s' R' L', PageCache_Reset fuel s = Ok s' /\ pc_inv s' ∅ ∅ K R' ∅ L' /\
    (forall i, 0 <= i <= MAX_PAGE_NUM -> L' i = []) /\
    (forall p, p ∈ R' <-> p ∈ R /\ pm_lookup (pc_map s) p = 0 \/ p ∈ R /\ p < 0) /\
    (forall p, pm_lookup (pc_map s') p = 0).
Proof.
  intros Hi Hfuel. unfold PageCache_Reset, ResetLocked.
  destruct (reset_lists_ok s D K R N L fuel (resetting_start _ _ _ _ _ _ Hi) Hfuel)
    as (s1 & D1 & R1 & L1 & -> & Hr1 & Hg1 & Hm1 & HL1).
  rewrite bind_Ok_l. pose proof (resetting_done _ _ _ _ _ _ Hr1 HL1) as E. subst D1.
  destruct (bk_span_release_ok (pc_w s1) R1 _ N (rs_w _ _ _ _ _ _ Hr1)) as (w2 & -> & Hw2).
  rewrite !bind_Ok_l. cbn [pc_w pc_map pc_spans with_w].
  destruct (PageMap_Reset_ok (pc_map s1) w2 R1 ∅ N Hw2) as (t' & w3 & -> & Ht' & Hw3 & Hz).
  rewrite bind_Ok_l. do 3 eexists. split; [done |]. split; [| split; [exact HL1 | split; [| done]]].
  - constructor; cbn [pc_spans pc_map pc_w].
    + apply Hr1.
    + by assert (dom (∅ : runs) = (∅ : gset Z)) as -> by (clear; set_solver).
    + done.
    + intros p a Hp Ha. rewrite Hz. split; [congruence |]. by intros (x & n & Hb & _).
    + by intros a p (x & n & Hb & _).
    + apply Hr1.
  - intros p. rewrite (proj2 Hg1 p).
    assert (Hno : ~ covered (∅ : runs) p) by (by intros (b & x & n & Hb & _)).
    destruct (Z.lt_ge_cases p 0) as [Hp | Hp].
    + split; [tauto |]. intros Hin. split; [tauto |]. intros [b Hb].
      apply (covers_page _ _ _ _ _ _ _ _ _ Hi) in Hb. lia.
    + pose proof (covered_mapped s D ∅ K R N L p Hi Hp). destruct (decide (pm_lookup (pc_map s) p = 0)); intuition lia.
Qed.

(** C30: [Reset] gives everything back.  On a cache with no run in use, with a
    loop bound no smaller than the longest list, it runs to completion in every
    build and leaves the initial state: no descriptor, empty lists, an empty
    page map; the page allocator has exactly the pages of the former runs back
    and both pools are empty, so nothing leaks and nothing is freed twice. *)
Theorem Reset_spec s D K R N L fuel :
  pc_inv s D ∅ K R N L -> (forall i, 0 <= i <= MAX_PAGE_NUM -> (length (L i) <= fuel)%nat) ->
  exists s' R' L', PageCache_Reset fuel s = Ok s' /\ pc_inv s' ∅ ∅ K R' ∅ L' /\
    (forall i, 0 <= i <= MAX_PAGE_NUM -> L' i = []) /\
    (forall p, p ∈ R' <-> p ∈ R /\ pm_lookup (pc_map s) p = 0 \/ p ∈ R /\ p < 0) /\
    (forall p, pm_lookup (pc_map s') p = 0).
Proof. apply Reset_ok. Qed.
End Reset.

Section ResetWitness.
#[local] Existing Instance release_build.
#[local] Existing Instance bump_backing.
#[local] Existing Instance bump_laws.
#[local] Existing Instance sample_layout.

(** On the freshly constructed cache. *)
Lemma Reset_spec_witness :
  exists s' R' L', PageCache_Reset 1 sample_cache = Ok s' /\
    pc_inv (H1 := bump_laws) s' ∅ ∅ (pages 1 3) R' ∅ L' /\
    (forall i, 0 <= i <= MAX_PAGE_NUM -> L' i = []) /\
    (forall p, p ∈ R' <-> p ∈ pages 1 3 /\ pm_lookup (pc_map sample_cache) p = 0 \/ p ∈ pages 1 3 /\ p < 0) /\
    (forall p, pm_lookup (pc_map s') p = 0).
Proof.
  apply (Reset_spec (H1 := bump_laws) sample_cache ∅ (pages 1 3) (pages 1 3) ∅ (fun _ => []) 1 sample_cache_inv).
  simpl. lia.
Defined.
End ResetWitness.
