(* ===== verification/System.v ===== *)
(** * The page layer assembled

    The page cache over its real backing: one page allocator shared by the cache
    and by the two object pools (Span descriptors and radix nodes), and the
    steady clock.  The assembly implements the interface [Backing], so every
    theorem on the page cache holds for it on any kernel that satisfies
    [OSLaws]; the last section runs whole histories of requests. *)
From S2P Require Import Prelude Config SizeClass Common Span SpanList Backing PageMap PageCache PageCacheInv.
From S2P Require Import PageCacheAlloc PageCacheMerge PageCacheRelease HugePageCache PageAllocator ObjectPool.
Open Scope Z_scope.

(** ** State *)

(** [span_pool_] and [radix_node_pool_] with the memory of their headers, the
    page source, and the readings the steady clock will give. *)
Record System (P : Type) := mkSystem {
  sys_source : P;
  sys_mem : mem;
  sys_span_pool : ObjectPool;
  sys_node_pool : ObjectPool;
  sys_clock : nat -> Z;
  sys_reads : nat
}.
Arguments mkSystem {P} _ _ _ _ _ _.
Arguments sys_source {P} _.
Arguments sys_mem {P} _.
Arguments sys_span_pool {P} _.
Arguments sys_node_pool {P} _.
Arguments sys_clock {P} _ _.
Arguments sys_reads {P} _.

Section Ops.
Context `{Build} {P : Type} `{PageSource P}.
Implicit Types (w : System P).

Definition with_span_pool w (pool : ObjectPool) (m : mem) (s : P) : System P :=
  mkSystem s m pool (sys_node_pool w) (sys_clock w) (sys_reads w).
Definition with_node_pool w (pool : ObjectPool) (m : mem) (s : P) : System P :=
  mkSystem s m (sys_span_pool w) pool (sys_clock w) (sys_reads w).
Definition with_source w (s : P) : System P :=
  mkSystem s (sys_mem w) (sys_span_pool w) (sys_node_pool w) (sys_clock w) (sys_reads w).

Definition sys_now w : Z * System P :=
  (sys_clock w (sys_reads w),
   mkSystem (sys_source w) (sys_mem w) (sys_span_pool w) (sys_node_pool w) (sys_clock w) (S (sys_reads w))).

#[export] Instance System_backing : Backing (System P) := {|
  bk_SystemAlloc n w := '(p, s) ← ps_SystemAlloc n (sys_source w); Ok (p, with_source w s);
  bk_SystemFree ptr n w := s ← ps_SystemFree ptr n (sys_source w); Ok (with_source w s);
  bk_span_TryNew w :=
    '(obj, pool, m, s) ← @TryNew span_type P _ (sys_span_pool w) (sys_mem w) (sys_source w);
    Ok (obj, with_span_pool w pool m s);
  bk_span_Delete a w :=
    '(pool, m) ← Delete (sys_span_pool w) (sys_mem w) a;
    Ok (with_span_pool w pool m (sys_source w));
  bk_span_ReleaseMemory w :=
    '(pool, s) ← ReleaseMemory (sys_span_pool w) (sys_mem w) (sys_source w);
    Ok (with_span_pool w pool (sys_mem w) s);
  bk_node_TryNew w :=
    '(obj, pool, m, s) ← @TryNew node_type P _ (sys_node_pool w) (sys_mem w) (sys_source w);
    Ok (obj, with_node_pool w pool m s);
  bk_node_ReleaseMemory w :=
    '(pool, s) ← ReleaseMemory (sys_node_pool w) (sys_mem w) (sys_source w);
    Ok (with_node_pool w pool (sys_mem w) s);
  bk_now := sys_now;
|}.

Definition System_new (s : P) (clock : nat -> Z) : System P :=
  mkSystem s ∅ ObjectPool_new ObjectPool_new clock 0.
End Ops.

(** ** The assembly implements the interface *)

Section Laws.
Context {Bd : Build} {P : Type} {Ps : PageSource P} {Pl : PageSourceLaws P}.
Implicit Types (w : System P).

#[local] Existing Instance span_type_laws | 0.
#[local] Existing Instance node_type_laws | 0.

(** The pools own the pages [Cs] and [Cn]; the source's clients are the pools and
    the holders of [R]. *)
Definition sys_rep w (R S N : gset Z) : Prop :=
  exists Cs Cn,
    @pool_rep Bd span_type (sys_span_pool w) (sys_mem w) Cs S /\
    @pool_rep Bd node_type (sys_node_pool w) (sys_mem w) Cn N /\
    Cs ## Cn /\ Cs ∪ Cn ## R /\ ps_rep (sys_source w) (R ∪ Cs ∪ Cn).

Lemma sys_span_new_ok w R S N :
  sys_rep w R S N ->
  exists a w', bk_span_TryNew w = Ok (a, w') /\
    (a = 0 /\ sys_rep w' R S N \/ a <> 0 /\ (a ∉ S) /\ (a / PAGE_SIZE ∉ R) /\ sys_rep w' R ({[a]} ∪ S) N).
Proof.
  intros (Cs & Cn & Hs & Hn & Hd & HR & Hp). simpl.
  destruct (@TryNew_ok Bd span_type span_type_laws P Ps Pl (sys_span_pool w) (sys_mem w) (sys_source w) _ Cs S Hs Hp)
    as (obj & pool & m & s & -> & Hpost); [clear; set_point |].
  rewrite bind_Ok_l. exists obj, (with_span_pool w pool m s). split; [done |].
  destruct Hpost as [(-> & -> & Hs' & Hp') | (Ho & HoS & X & HX & Hp' & Hs' & Hm)]; [left | right].
  - split; [done |]. by exists Cs, Cn.
  - split; [done |]. split; [done |].
    assert (HC : (Cs ∪ X) ∪ Cn ## R) by (clear -HR HX; set_point).
    split.
    + destruct (@pool_live Bd span_type span_type_laws _ _ _ _ obj Hs') as (_ & _ & Hpage & _);
        [apply elem_of_union_l, elem_of_singleton; reflexivity |].
      intros Hin. apply elem_of_disjoint in HC. apply (HC (obj / PAGE_SIZE)); [apply elem_of_union_l; done | done].
    + exists (Cs ∪ X), Cn. split; [done |]. split.
      { eapply (@pool_frame Bd node_type node_type_laws); [| exact Hn]. intros a Ha. apply Hm. intros HaX.
        apply elem_of_disjoint in HX. apply (HX (a / PAGE_SIZE)); [| done]. by apply elem_of_union_r. }
      split; [clear -Hd HX; set_point |]. split; [done |].
      assert (R ∪ (Cs ∪ X) ∪ Cn = R ∪ Cs ∪ Cn ∪ X) as -> by (clear; set_point). done.
Qed.

Lemma sys_node_new_ok w R S N :
  sys_rep w R S N ->
  exists a w', bk_node_TryNew w = Ok (a, w') /\
    (a = 0 /\ sys_rep w' R S N \/ a <> 0 /\ (a ∉ N) /\ (a / PAGE_SIZE ∉ R) /\ sys_rep w' R S ({[a]} ∪ N)).
Proof.
  intros (Cs & Cn & Hs & Hn & Hd & HR & Hp). simpl.
  destruct (@TryNew_ok Bd node_type node_type_laws P Ps Pl (sys_node_pool w) (sys_mem w) (sys_source w) _ Cn N Hn Hp)
    as (obj & pool & m & s & -> & Hpost); [clear; set_point |].
  rewrite bind_Ok_l. exists obj, (with_node_pool w pool m s). split; [done |].
  destruct Hpost as [(-> & -> & Hn' & Hp') | (Ho & HoN & X & HX & Hp' & Hn' & Hm)]; [left | right].
  - split; [done |]. by exists Cs, Cn.
  - split; [done |]. split; [done |].
    assert (HC : Cs ∪ (Cn ∪ X) ## R) by (clear -HR HX; set_point).
    split.
    + destruct (@pool_live Bd node_type node_type_laws _ _ _ _ obj Hn') as (_ & _ & Hpage & _);
        [apply elem_of_union_l, elem_of_singleton; reflexivity |].
      intros Hin. apply elem_of_disjoint in HC. apply (HC (obj / PAGE_SIZE)); [apply elem_of_union_r; done | done].
    + exists Cs, (Cn ∪ X). split.
      { eapply (@pool_frame Bd span_type span_type_laws); [| exact Hs]. intros a Ha. apply Hm. intros HaX.
        apply elem_of_disjoint in HX. apply (HX (a / PAGE_SIZE)); [| done]. by apply elem_of_union_l, elem_of_union_r. }
      split; [done |]. split; [clear -Hd HX; set_point |]. split; [done |].
      assert (R ∪ Cs ∪ (Cn ∪ X) = R ∪ Cs ∪ Cn ∪ X) as -> by (clear; set_point). done.
Qed.

Lemma sys_span_delete_ok w R S N a :
  sys_rep w R S N -> a ∈ S -> exists w', bk_span_Delete a w = Ok w' /\ sys_rep w' R (S ∖ {[a]}) N.
Proof.
  intros (Cs & Cn & Hs & Hn & Hd & HR & Hp) Ha. simpl.
  destruct (@Delete_ok Bd span_type span_type_laws _ _ _ _ a Hs Ha) as (pool & m & -> & Hs' & Hpage & Hm).
  rewrite bind_Ok_l. eexists. split; [done |]. exists Cs, Cn. split; [done |]. split; [| done].
  eapply (@pool_frame Bd node_type node_type_laws); [| exact Hn]. intros b Hb. apply Hm. intros ->.
  apply elem_of_disjoint in Hd. by apply (Hd (a / PAGE_SIZE)).
Qed.

Lemma sys_release_spans_ok w R S N :
  sys_rep w R S N -> exists w', bk_span_ReleaseMemory w = Ok w' /\ sys_rep w' R ∅ N.
Proof.
  intros (Cs & Cn & Hs & Hn & Hd & HR & Hp). simpl.
  destruct (@ReleaseMemory_ok Bd span_type span_type_laws P Ps Pl _ _ _ _ _ _ Hs Hp) as (pool & s & -> & Hs' & Hp'); [clear; set_point |].
  rewrite bind_Ok_l. eexists. split; [done |]. exists ∅, Cn. split; [done |]. split; [done |].
  split; [clear; set_point |]. split; [clear -HR; set_point |].
  assert (R ∪ ∅ ∪ Cn = (R ∪ Cs ∪ Cn) ∖ Cs) as ->; [| done]. clear -Hd HR. set_point.
Qed.

Lemma sys_release_nodes_ok w R S N :
  sys_rep w R S N -> exists w', bk_node_ReleaseMemory w = Ok w' /\ sys_rep w' R S ∅.
Proof.
  intros (Cs & Cn & Hs & Hn & Hd & HR & Hp). simpl.
  destruct (@ReleaseMemory_ok Bd node_type node_type_laws P Ps Pl _ _ _ _ _ _ Hn Hp) as (pool & s & -> & Hn' & Hp'); [clear; set_point |].
  rewrite bind_Ok_l. eexists. split; [done |]. exists Cs, ∅. split; [done |]. split; [done |].
  split; [clear; set_point |]. split; [clear -HR; set_point |].
  assert (R ∪ Cs ∪ ∅ = (R ∪ Cs ∪ Cn) ∖ Cn) as ->; [| done]. clear -Hd HR. set_point.
Qed.

#[export] Instance System_backing_laws : BackingLaws (System P).
Proof.
  refine (@Build_BackingLaws (System P) _ _ sys_rep _ _ sys_span_new_ok sys_span_delete_ok
    sys_release_spans_ok sys_node_new_ok sys_release_nodes_ok _).
  - intros w R S N n (Cs & Cn & Hs & Hn & Hd & HR & Hp) Hlt. simpl.
    destruct (ps_alloc_ok _ _ n Hp Hlt) as (p & s & -> & Hor). rewrite bind_Ok_l.
    exists p, (with_source w s). split; [done |].
    destruct Hor as [[-> Hp'] | (pid & -> & ? & ? & ? & Hdj & Hp')]; [left | right].
    + split; [done |]. by exists Cs, Cn.
    + exists pid. split; [done |]. split; [done |]. split; [done |]. split; [done |]. split; [clear -Hdj; set_point |].
      exists Cs, Cn. split; [done |]. split; [done |]. split; [done |]. split; [clear -HR Hdj; set_point |].
      assert (R ∪ pages pid n ∪ Cs ∪ Cn = R ∪ Cs ∪ Cn ∪ pages pid n) as -> by (clear; set_point). done.
  - intros w R S N pid n (Cs & Cn & Hs & Hn & Hd & HR & Hp) H1 H2 H3 Hsub. simpl.
    destruct (ps_free_ok _ _ pid n Hp H1 H2 H3) as (s & -> & Hp'); [clear -Hsub; set_point |]. rewrite bind_Ok_l.
    exists (with_source w s). split; [done |]. exists Cs, Cn. split; [done |]. split; [done |]. split; [done |].
    split; [clear -HR; set_point |].
    assert (R ∖ pages pid n ∪ Cs ∪ Cn = (R ∪ Cs ∪ Cn) ∖ pages pid n) as ->; [| done]. clear -Hsub HR. set_point.
  - done.
Defined.

Lemma System_new_rep s clock R : ps_rep s R -> sys_rep (System_new s clock) R ∅ ∅.
Proof.
  intros Hs. exists ∅, ∅. split; [apply (@pool_start Bd span_type span_type_laws) |].
  split; [apply (@pool_start Bd node_type node_type_laws) |].
  split; [clear; set_point |]. split; [clear; set_point |]. by rewrite !union_empty_r_L.
Qed.
End Laws.
