(* ===== verification/CentralCache.v ===== *)
(** * The central cache (include/ammalloc/central_cache.h, src/central_cache.cpp)

    [CentralCache] shares the objects of each size class between the threads.  A
    bucket per class keeps a circular array of recently returned pointers (the
    transfer cache) in front of the list of spans the class has borrowed from
    the page cache.  [FetchBatch] and [ReleaseBatch] exchange chains of objects
    with the thread caches, [DrainTransferCaches] pushes the cold end of the
    arrays back into the span bitmaps, [Reset] tears everything down.  The state
    holds the page cache underneath and the words of memory; every definition is
    a whole call, or one critical section of it, run by one thread.  The
    invariant is in CentralInv.v, the theorems in CentralFetch.v,
    CentralRelease.v and CentralDrain.v. *)
From S2P Require Import Prelude Config SizeClass FreeList Common Span SpanList Backing PageMap PageCache.
Open Scope Z_scope.

(** The address of [buckets_] inside the statically allocated singleton. *)
Class CentralLayout := { buckets_addr : Z }.

(** ** State *)

Inductive CentralReleaseMode := kTransferCache | kSpanBitmap.
#[export] Instance CentralReleaseMode_eq_dec : EqDecision CentralReleaseMode.
Proof. solve_decision. Defined.

Inductive CentralCacheStats :=
| transfer_cache_drained_bytes | spans_unpinned_by_direct_release | fetch_transfer_hit_objects
| fetch_span_list_objects | fetch_pagecache_spans | release_transfer_overflow_objects
| release_spans_returned_to_pagecache | spanlist_rotations | spanlist_traversals.
#[export] Instance CentralCacheStats_eq_dec : EqDecision CentralCacheStats.
Proof. solve_decision. Defined.

(** The transfer-cache half of a [Bucket]; the sentinel of its [span_list] is the
    descriptor at [bucket_head]. *)
Record Bucket := mkBucket {
  transfer_cache_size : Z;
  transfer_cache_begin : Z;
  transfer_cache_capacity : Z;
  transfer_cache : Z
}.

Definition Bucket_new : Bucket := mkBucket 0 0 0 0.
Definition with_size (b : Bucket) (n : Z) : Bucket :=
  mkBucket n (transfer_cache_begin b) (transfer_cache_capacity b) (transfer_cache b).
Definition with_begin (b : Bucket) (n : Z) : Bucket :=
  mkBucket (transfer_cache_size b) n (transfer_cache_capacity b) (transfer_cache b).

Record CentralCache (W : Type) := mkCC {
  cc_pages : PageCache W;
  cc_mem : mem;
  cc_buckets : Z -> Bucket;
  cc_stats : CentralCacheStats -> Z
}.
Arguments mkCC {W} _ _ _ _.
Arguments cc_pages {W} _.
Arguments cc_mem {W} _.
Arguments cc_buckets {W} _ _.
Arguments cc_stats {W} _ _.

(** [alignof] and [sizeof]: lock and transfer cache on the first cache line, the
    mutex on the second, the sentinel on the third. *)
Definition sizeof_Bucket : Z := 3 * CACHE_LINE_SIZE.
Definition bucket_head `{CentralLayout} (idx : Z) : Z :=
  buckets_addr + sizeof_Bucket * idx + 2 * CACHE_LINE_SIZE.

Definition kCapScale : Z := 8.

(** ** The circular array *)

Section Ring.
Context `{Build}.

Definition TransferIndex (b : Bucket) (offset : Z) : outcome Z :=
  _ ← AM_DCHECK (offset <? transfer_cache_capacity b) "offset < bucket.transfer_cache_capacity";
  let index := u64 (transfer_cache_begin b + offset) in
  Ok (if index <? transfer_cache_capacity b then index
      else u64 (index - transfer_cache_capacity b)).

Definition slot_of (b : Bucket) (i : Z) : Z := transfer_cache b + 8 * i.

(** [for (i = 0; i < n; ++i) scratch[i] = transfer_cache[TransferIndex(--size)]] *)
Fixpoint tc_pop_loop (n : nat) (m : mem) (b : Bucket) : outcome (list Z * Bucket) :=
  match n with
  | O => Ok ([], b)
  | S n' =>
      let logical_index := u64 (transfer_cache_size b - 1) in
      let b := with_size b logical_index in
      i ← TransferIndex b logical_index;
      obj ← load m (slot_of b i);
      '(objs, b) ← tc_pop_loop n' m b;
      Ok (obj :: objs, b)
  end.

(** [while (pushed < n && size < capacity) transfer_cache[TransferIndex(size++)] = ptrs[pushed++]];
    also returns the pointers that did not fit. *)
Fixpoint tc_push_loop (objs : list Z) (m : mem) (b : Bucket) : outcome (list Z * mem * Bucket) :=
  match objs with
  | [] => Ok ([], m, b)
  | obj :: objs' =>
      if transfer_cache_size b <? transfer_cache_capacity b
      then
        i ← TransferIndex b (transfer_cache_size b);
        let b := with_size b (u64 (transfer_cache_size b + 1)) in
        m ← store m (slot_of b i) obj;
        tc_push_loop objs' m b
      else Ok (objs, m, b)
  end.

(** [for (j = 0; j < n; ++j) ptrs[j] = transfer_cache[TransferIndex(j)]], from [j]. *)
Fixpoint tc_read_loop (n : nat) (m : mem) (b : Bucket) (j : Z) : outcome (list Z) :=
  match n with
  | O => Ok []
  | S n' =>
      i ← TransferIndex b j;
      obj ← load m (slot_of b i);
      objs ← tc_read_loop n' m b (j + 1);
      Ok (obj :: objs)
  end.

(** Head-inserts each object in turn into the chain at [head]. *)
Fixpoint link_all (m : mem) (objs : list Z) (head : Z) : outcome (Z * mem) :=
  match objs with
  | [] => Ok (head, m)
  | obj :: objs' => m ← FreeBlock_set_next m obj head; link_all m objs' obj
  end.

(** The unloading loop of [Reset]: each pointer read is linked at once. *)
Fixpoint tc_unload_loop (n : nat) (m : mem) (b : Bucket) (j head : Z) : outcome (Z * mem) :=
  match n with
  | O => Ok (head, m)
  | S n' =>
      i ← TransferIndex b j;
      obj ← load m (slot_of b i);
      m ← FreeBlock_set_next m obj head;
      tc_unload_loop n' m b (j + 1) obj
  end.

(** [for (i = 0; i < n; ++i) { ptrs[i] = cur; cur = cur->next; }] *)
Fixpoint read_chain (n : nat) (m : mem) (cur : Z) : outcome (list Z * Z) :=
  match n with
  | O => Ok ([], cur)
  | S n' =>
      next ← FreeBlock_next m cur;
      '(objs, cur') ← read_chain n' m next;
      Ok (cur :: objs, cur')
  end.
End Ring.

Definition upd_bucket (f : Z -> Bucket) (idx : Z) (b : Bucket) : Z -> Bucket :=
  fun j => if decide (j = idx) then b else f j.

Section Ops.
Context `{Build} `{StaticLayout} `{CentralLayout} {W : Type} `{Backing W}.
Implicit Types (s : CentralCache W).

Definition with_pages s (p : PageCache W) : CentralCache W := mkCC p (cc_mem s) (cc_buckets s) (cc_stats s).
Definition with_mem s (m : mem) : CentralCache W := mkCC (cc_pages s) m (cc_buckets s) (cc_stats s).
Definition with_bucket s (idx : Z) (b : Bucket) : CentralCache W :=
  mkCC (cc_pages s) (cc_mem s) (upd_bucket (cc_buckets s) idx b) (cc_stats s).
(** [stats_.c.fetch_add(n)] *)
Definition cc_add (c : CentralCacheStats) (n : Z) s : CentralCache W :=
  mkCC (cc_pages s) (cc_mem s) (cc_buckets s)
    (fun c' => if decide (c' = c) then u64 (cc_stats s c + n) else cc_stats s c').
Definition cc_add_pos (c : CentralCacheStats) (n : Z) s : CentralCache W :=
  if 0 <? n then cc_add c n s else s.

Definition cc_spans s : spans := pc_spans (cc_pages s).
Definition with_descs s (st : spans) : CentralCache W := with_pages s (with_spans (cc_pages s) st).
(** A member call on the descriptor at [a] that also wrote memory. *)
Definition put_span s (a : Z) (d : Span) (m : mem) : CentralCache W :=
  with_mem (with_descs s (<[a := d]> (cc_spans s))) m.

(** ** Spans from the page cache *)

(** Runs with the bucket's mutex released until the [push_front]. *)
Definition GetOneSpan s (idx aligned_size : Z) : outcome (Z * CentralCache W) :=
  let page_num := GetMovePageNum aligned_size in
  '(span, p) ← AllocSpan (cc_pages s) page_num;
  let s := with_pages s p in
  if span =? 0 then Ok (0, s)
  else
    d ← get_span (cc_spans s) span;
    '(d, m) ← Init (cc_mem s) d aligned_size;
    let s := cc_add fetch_pagecache_spans 1 (put_span s span d m) in
    st ← push_front (cc_spans s) (bucket_head idx) span;
    Ok (span, with_descs s st).

(** ** FetchBatch *)

(** The locals of [FetchBatch]: the chain for the caller, the prefetched
    pointers, the head iterator and the counts. *)
Record fetch := mkFetch {
  fe_head : Z; fe_tail : Z; fe_fetched : Z;
  fe_extracted : Z; fe_prefetched : list Z; fe_begin : Z;
  fe_rotations : Z; fe_traversals : Z
}.

(** [erase(full); push_back(full); ++rotations; begin = list.begin()] *)
Definition rotate s (idx : Z) (f : fetch) : outcome (fetch * CentralCache W) :=
  let full_span := fe_begin f in
  '(_, st) ← erase (cc_spans s) (bucket_head idx) full_span;
  st ← push_back st (bucket_head idx) full_span;
  first ← sl_begin st (bucket_head idx);
  Ok (mkFetch (fe_head f) (fe_tail f) (fe_fetched f) (fe_extracted f) (fe_prefetched f) first
        (fe_rotations f + 1) (fe_traversals f),
      with_descs s st).

(** One object carved from [begin]: to the caller's chain, or to the prefetched ones. *)
Definition take_object s (need : Z) (obj : Z) (f : fetch) : outcome (fetch * CentralCache W) :=
  if fe_extracted f <? need
  then
    m ← FreeBlock_set_next (cc_mem s) obj (fe_head f);
    Ok (mkFetch obj (if fe_head f =? 0 then obj else fe_tail f) (fe_fetched f + 1)
          (fe_extracted f + 1) (fe_prefetched f) (fe_begin f) (fe_rotations f) (fe_traversals f),
        with_mem s m)
  else
    Ok (mkFetch (fe_head f) (fe_tail f) (fe_fetched f) (fe_extracted f + 1)
          (fe_prefetched f ++ [obj]) (fe_begin f) (fe_rotations f) (fe_traversals f), s).

(** The inner loop; the fuel is the number of objects still wanted, plus one. *)
Fixpoint carve (fuel : nat) s (idx need target : Z) (f : fetch) : outcome (fetch * CentralCache W) :=
  if fe_extracted f <? target
  then match fuel with
  | O => NoFuel
  | S fuel' =>
      d ← get_span (cc_spans s) (fe_begin f);
      '(obj, d, m) ← AllocObject (cc_mem s) d;
      let s := put_span s (fe_begin f) d m in
      if obj =? 0 then rotate s idx f
      else
        '(f, s) ← take_object s need obj f;
        carve fuel' s idx need target f
  end
  else Ok (f, s).

Definition set_begin (f : fetch) (b : Z) : fetch :=
  mkFetch (fe_head f) (fe_tail f) (fe_fetched f) (fe_extracted f) (fe_prefetched f) b
    (fe_rotations f) (fe_traversals f).
Definition count_traversal (f : fetch) : fetch :=
  mkFetch (fe_head f) (fe_tail f) (fe_fetched f) (fe_extracted f) (fe_prefetched f) (fe_begin f)
    (fe_rotations f) (fe_traversals f + 1).

(** [begin->IsFull()] *)
Definition begin_full s (f : fetch) : outcome bool :=
  d ← get_span (cc_spans s) (fe_begin f); Ok (IsFull d).

(** The outer loop: refill the list when its head has nothing to offer. *)
Fixpoint fetch_loop (fuel : nat) s (idx aligned_size need target : Z) (f : fetch)
    : outcome (fetch * CentralCache W) :=
  if fe_extracted f <? target
  then match fuel with
  | O => NoFuel
  | S fuel' =>
      e ← sl_empty (cc_spans s) (bucket_head idx);
      dry ← (if e : bool then Ok true else begin_full s f);
      '(go, f, s) ←
        (if dry : bool
         then '(span, s) ← GetOneSpan s idx aligned_size;
              if span =? 0 then Ok (false, f, s)
              else first ← sl_begin (cc_spans s) (bucket_head idx);
                   Ok (true, set_begin f first, s)
         else Ok (true, f, s));
      if negb go then Ok (f, s)
      else
        '(f, s) ← carve (S (Z.to_nat (target - fe_extracted f))) s idx need target (count_traversal f);
        full ← begin_full s f;
        '(f, s) ← (if full : bool then rotate s idx f else Ok (f, s));
        fetch_loop fuel' s idx aligned_size need target f
  end
  else Ok (f, s).

(** ** ReleaseBatch *)

(** The loop over the objects that go back to their bitmaps, under the bucket's
    mutex; [empty_head] is the chain of spans that became empty. *)
Fixpoint free_objs s (idx : Z) (mode : CentralReleaseMode) (objs : list Z) (empty_head : Z)
    : outcome (Z * CentralCache W) :=
  match objs with
  | [] => Ok (empty_head, s)
  | obj :: objs' =>
      span ← GetSpanOfPtr (pc_map (cc_pages s)) obj;
      if span =? 0 then free_objs s idx mode objs' empty_head
      else
        d ← get_span (cc_spans s) span;
        '(d, m) ← FreeObject (cc_mem s) d obj;
        let s := put_span s span d m in
        if use_count d =? 0
        then
          '(_, st) ← erase (cc_spans s) (bucket_head idx) span;
          st ← set_next st span empty_head;
          let s := with_descs s st in
          let s := match mode with
                   | kSpanBitmap => cc_add spans_unpinned_by_direct_release 1 s
                   | kTransferCache => s
                   end in
          free_objs s idx mode objs' span
        else if use_count d =? u32 (capacity d - 1)
        then
          '(_, st) ← erase (cc_spans s) (bucket_head idx) span;
          st ← push_front st (bucket_head idx) span;
          free_objs (with_descs s st) idx mode objs' empty_head
        else free_objs s idx mode objs' empty_head
  end.

(** [while (empty_span_head) { next = head->next; PageCache::ReleaseSpan(head); head = next; }];
    the fuel bounds the chain. *)
Fixpoint release_empty (fuel : nat) s (count : bool) (head : Z) : outcome (CentralCache W) :=
  if head =? 0 then Ok s
  else match fuel with
  | O => NoFuel
  | S fuel' =>
      d ← get_span (cc_spans s) head;
      let next_span := sp_next d in
      let s := if count then cc_add release_spans_returned_to_pagecache 1 s else s in
      p ← ReleaseSpan (cc_pages s) head;
      release_empty fuel' (with_pages s p) count next_span
  end.

(** Under the bucket's spin lock: absorb what fits. *)
Definition absorb s (idx : Z) (objs : list Z) : outcome (list Z * CentralCache W) :=
  '(rest, m, b) ← tc_push_loop objs (cc_mem s) (cc_buckets s idx);
  Ok (rest, with_bucket (with_mem s m) idx b).

(** One round of the loop of [ReleaseBatch], on the pointers of one chunk. *)
Definition release_chunk s (idx : Z) (mode : CentralReleaseMode) (objs : list Z) : outcome (CentralCache W) :=
  '(rest, s) ← (match mode with
                | kTransferCache => absorb s idx objs
                | kSpanBitmap => Ok (objs, s)
                end);
  match rest with
  | [] => Ok s
  | _ =>
      let s := match mode with
               | kTransferCache => cc_add release_transfer_overflow_objects (Z.of_nat (length rest)) s
               | kSpanBitmap => s
               end in
      '(empty_head, s) ← free_objs s idx mode rest 0;
      release_empty (length rest) s true empty_head
  end.

(** [while (remaining != 0)]; every round takes at least one object. *)
Fixpoint release_loop (fuel : nat) s (idx : Z) (mode : CentralReleaseMode) (cur remaining : Z)
    : outcome (Z * CentralCache W) :=
  if remaining =? 0 then Ok (cur, s)
  else match fuel with
  | O => NoFuel
  | S fuel' =>
      let local_count := Z.min remaining kMaxBatchSize in
      '(objs, cur) ← read_chain (Z.to_nat local_count) (cc_mem s) cur;
      s ← release_chunk s idx mode objs;
      release_loop fuel' s idx mode cur (remaining - local_count)
  end.

Definition ReleaseBatch s (batch : ObjectBatch) (mode : CentralReleaseMode) : outcome (CentralCache W) :=
  if batch_empty batch then _ ← batch_destroy (MarkProcessed batch); Ok s
  else
    let idx := ob_size_class_idx batch in
    _ ← AM_DCHECK (idx <? kNumSizeClasses) "idx < SizeClass::kNumSizeClasses";
    '(cur, s) ← release_loop (Z.to_nat (ob_count batch)) s idx mode (ob_head batch) (ob_count batch);
    _ ← AM_DCHECK (cur =? 0) "cur == nullptr";
    _ ← batch_destroy (MarkProcessed batch);
    Ok s.

(** ** FetchBatch, continued *)

(** The probe of the transfer cache, under its spin lock. *)
Definition fetch_transfer s (idx fetch_num : Z) : outcome (list Z * CentralCache W) :=
  let b := cc_buckets s idx in
  let grab_count := Z.min fetch_num (transfer_cache_size b) in
  '(objs, b) ← tc_pop_loop (Z.to_nat grab_count) (cc_mem s) b;
  Ok (objs, cc_add_pos fetch_transfer_hit_objects grab_count (with_bucket s idx b)).

(** The search of the span list, under the bucket's mutex, with its telemetry. *)
Definition fetch_spans s (idx aligned_size need target head tail fetched : Z)
    : outcome (fetch * CentralCache W) :=
  begin ← sl_begin (cc_spans s) (bucket_head idx);
  '(f, s) ← fetch_loop (S (Z.to_nat target)) s idx aligned_size need target
              (mkFetch head tail fetched 0 [] begin 0 0);
  Ok (f, cc_add_pos spanlist_rotations (fe_rotations f)
           (cc_add_pos spanlist_traversals (fe_traversals f)
             (cc_add_pos fetch_span_list_objects (fe_extracted f) s))).

(** Publishes the prefetched pointers; what no longer fits is released again. *)
Definition publish_prefetched s (idx : Z) (objs : list Z) : outcome (CentralCache W) :=
  match objs with
  | [] => Ok s
  | _ =>
      '(rest, s) ← absorb s idx objs;
      match rest with
      | [] => Ok s
      | leftover_tail :: _ =>
          '(leftover_head, m) ← link_all (cc_mem s) rest 0;
          let s := with_mem s m in
          b ← make_batch m leftover_head leftover_tail (Z.of_nat (length rest)) idx;
          ReleaseBatch s b kTransferCache
      end
  end.

Definition FetchBatch s (idx preferred_count : Z) : outcome (ObjectBatch * CentralCache W) :=
  _ ← AM_DCHECK (idx <? kNumSizeClasses) "idx < SizeClass::kNumSizeClasses";
  _ ← AM_DCHECK (preferred_count <=? kMaxBatchSize) "preferred_count <= SizeClass::kMaxBatchSize";
  if preferred_count =? 0 then Ok (empty_batch, s)
  else
    let fetch_num := preferred_count in
    let aligned_size := Size idx in
    '(objs, s) ← fetch_transfer s idx fetch_num;
    let grabbed := Z.of_nat (length objs) in
    '(head, m) ← link_all (cc_mem s) (rev objs) 0;
    let tail := default 0 (last objs) in
    let s := with_mem s m in
    '(head, tail, fetched, s) ←
      (if grabbed <? fetch_num
       then
         let need_for_thread := fetch_num - grabbed in
         let extract_target := u64 (need_for_thread + fetch_num) in
         '(f, s) ← fetch_spans s idx aligned_size need_for_thread extract_target head tail grabbed;
         s ← publish_prefetched s idx (fe_prefetched f);
         Ok (fe_head f, fe_tail f, fe_fetched f, s)
       else Ok (head, tail, grabbed, s));
    if fetched =? 0 then Ok (empty_batch, s)
    else b ← make_batch (cc_mem s) head tail fetched idx; Ok (b, s).

(** ** Draining *)

Definition GetTransferCacheCountForTest s (idx : Z) : outcome Z :=
  _ ← AM_DCHECK (idx <? kNumSizeClasses) "idx < SizeClass::kNumSizeClasses";
  Ok (transfer_cache_size (cc_buckets s idx)).

(** Detaches up to [batch_limit] pointers from the cold end, under the spin lock. *)
Definition detach_cold s (idx batch_limit : Z) : outcome (list Z * CentralCache W) :=
  let b := cc_buckets s idx in
  let detached := Z.min batch_limit (transfer_cache_size b) in
  if detached =? 0 then Ok ([], s)
  else
    objs ← tc_read_loop (Z.to_nat detached) (cc_mem s) b 0;
    first ← (if detached =? transfer_cache_capacity b then Ok 0 else TransferIndex b detached);
    Ok (objs, with_bucket s idx (with_size (with_begin b first) (u64 (transfer_cache_size b - detached)))).

(** [while (remaining_from_snapshot > 0)]: returns the bytes drained and what is
    left of a bounded budget. *)
Fixpoint drain_loop (fuel : nat) s (idx aligned_size : Z) (unbounded : bool)
    (remaining max_bytes drained_bytes : Z) : outcome (Z * Z * CentralCache W) :=
  if 0 <? remaining
  then match fuel with
  | O => NoFuel
  | S fuel' =>
      '(objs, s) ← detach_cold s idx (Z.min kMaxBatchSize remaining);
      match objs with
      | [] => Ok (max_bytes, drained_bytes, s)
      | first :: _ =>
          let detached := Z.of_nat (length objs) in
          '(head, m) ← link_all (cc_mem s) objs 0;
          let s := with_mem s m in
          b ← make_batch m head first detached idx;
          s ← ReleaseBatch s b kSpanBitmap;
          let batch_bytes := u64 (detached * aligned_size) in
          drain_loop fuel' s idx aligned_size unbounded (remaining - detached)
            (if unbounded then max_bytes else u64 (max_bytes - batch_bytes))
            (u64 (drained_bytes + batch_bytes))
      end
  end
  else Ok (max_bytes, drained_bytes, s).

(** One round of the class loop. *)
Definition drain_class s (idx : Z) (unbounded : bool) (max_bytes drained_bytes : Z)
    : outcome (Z * Z * CentralCache W) :=
  let aligned_size := Size idx in
  if negb unbounded && (max_bytes <? aligned_size) then Ok (max_bytes, drained_bytes, s)
  else
    let size := transfer_cache_size (cc_buckets s idx) in
    snapshot_count ← (if unbounded then Ok size
                      else q ← udiv max_bytes aligned_size; Ok (Z.min size q));
    drain_loop (Z.to_nat snapshot_count) s idx aligned_size unbounded snapshot_count max_bytes drained_bytes.

(** The classes [n - 1] down to 0. *)
Fixpoint drain_classes (n : nat) s (unbounded : bool) (max_bytes drained_bytes : Z)
    : outcome (Z * CentralCache W) :=
  match n with
  | O => Ok (drained_bytes, s)
  | S n' =>
      '(max_bytes, drained_bytes, s) ← drain_class s (Z.of_nat n') unbounded max_bytes drained_bytes;
      drain_classes n' s unbounded max_bytes drained_bytes
  end.

Definition DrainTransferCaches s (max_bytes : Z) : outcome (Z * CentralCache W) :=
  if max_bytes =? 0 then Ok (0, s)
  else
    let unbounded := max_bytes =? SIZE_MAX in
    '(drained_bytes, s) ← drain_classes (Z.to_nat kNumSizeClasses) s unbounded max_bytes 0;
    Ok (drained_bytes, cc_add transfer_cache_drained_bytes drained_bytes s).

(** ** Construction and reset *)

Definition FillTransferCapacities : list Z * Z :=
  let out := (fun i => u64 (kCapScale * CalculateBatchSize (Size i))) <$> seqZ 0 kNumSizeClasses in
  (out, fold_left (fun total n => u64 (total + n)) out 0).

Definition sizeof_pointer : Z := 8.

Definition backing_page_num (total_ptrs : Z) : Z :=
  let total_bytes := u64 (total_ptrs * sizeof_pointer) in
  Z.shiftr (u64 (u64 (total_bytes + PAGE_SIZE) - 1)) PAGE_SHIFT.

(** The loop that hands every bucket its slice of the mapping. *)
Fixpoint assign_slices (caps : list Z) (idx cur_ptr : Z) (f : Z -> Bucket) : Z -> Bucket :=
  match caps with
  | [] => f
  | cap :: caps' =>
      let b := mkBucket (transfer_cache_size (f idx)) 0 cap cur_ptr in
      assign_slices caps' (idx + 1) (cur_ptr + sizeof_pointer * cap) (upd_bucket f idx b)
  end.

Definition TryInitTransferCache s : outcome (bool * CentralCache W) :=
  let '(capacities, total_ptrs) := FillTransferCapacities in
  '(p, w) ← bk_SystemAlloc (backing_page_num total_ptrs) (pc_w (cc_pages s));
  let s := with_pages s (with_w (cc_pages s) w) in
  if p =? 0 then Ok (false, s)
  else Ok (true, mkCC (cc_pages s) (cc_mem s) (assign_slices capacities 0 p (cc_buckets s)) (cc_stats s)).

(** Static construction: the sentinels link to themselves, the buckets are empty. *)
Definition CentralCache_init (p : PageCache W) : outcome (CentralCache W) :=
  st ← for_range 0 kNumSizeClasses
         (fun i st => SpanList_new (<[bucket_head i := Span_new 0 0]> st) (bucket_head i)) (pc_spans p);
  let s := mkCC (with_spans p st) ∅ (fun _ => Bucket_new) (fun _ => 0) in
  '(_, s) ← TryInitTransferCache s;
  Ok s.

(** [while (cur) { next = cur->next; if (span = GetSpan(cur)) span->FreeObject(cur); cur = next; }] *)
Fixpoint free_chain_objs (fuel : nat) s (cur : Z) : outcome (CentralCache W) :=
  if cur =? 0 then Ok s
  else match fuel with
  | O => NoFuel
  | S fuel' =>
      next ← FreeBlock_next (cc_mem s) cur;
      span ← GetSpanOfPtr (pc_map (cc_pages s)) cur;
      s ← (if span =? 0 then Ok s
           else d ← get_span (cc_spans s) span;
                '(d, m) ← FreeObject (cc_mem s) d cur;
                Ok (put_span s span d m));
      free_chain_objs fuel' s next
  end.

(** [while (!span_list.empty()) { span = pop_front(); span->next = head; head = span; }] *)
Fixpoint collect_spans (fuel : nat) s (idx head : Z) : outcome (Z * CentralCache W) :=
  e ← sl_empty (cc_spans s) (bucket_head idx);
  if e : bool then Ok (head, s)
  else match fuel with
  | O => NoFuel
  | S fuel' =>
      '(span, st) ← pop_front (cc_spans s) (bucket_head idx);
      st ← set_next st span head;
      collect_spans fuel' (with_descs s st) idx span
  end.

(** One round of the loop of [Reset]; [fuel] bounds the bucket's span list. *)
Definition reset_bucket (fuel : nat) s (idx : Z) : outcome (CentralCache W) :=
  let b := cc_buckets s idx in
  let count := Z.to_nat (transfer_cache_size b) in
  '(head, m) ← tc_unload_loop count (cc_mem s) b 0 0;
  let s := with_bucket (with_mem s m) idx (with_begin (with_size b 0) 0) in
  s ← free_chain_objs count s head;
  '(span_list_head, s) ← collect_spans fuel s idx 0;
  release_empty fuel s false span_list_head.

Definition total_capacity s : Z :=
  fold_left (fun total i => u64 (total + transfer_cache_capacity (cc_buckets s i))) (seqZ 0 kNumSizeClasses) 0.

Definition clear_slices (f : Z -> Bucket) : Z -> Bucket :=
  fold_left (fun f i => upd_bucket f i Bucket_new) (seqZ 0 kNumSizeClasses) f.

(** [Reset]; [fuel] bounds the length of every span list. *)
Definition CentralCache_Reset (fuel : nat) s : outcome (CentralCache W) :=
  s ← for_range 0 kNumSizeClasses (fun i s => reset_bucket fuel s i) s;
  s ← (if negb (transfer_cache (cc_buckets s 0) =? 0)
       then
         p ← system_free (cc_pages s) (transfer_cache (cc_buckets s 0)) (backing_page_num (total_capacity s));
         Ok (mkCC p (cc_mem s) (clear_slices (cc_buckets s)) (cc_stats s))
       else Ok s);
  '(_, s) ← TryInitTransferCache s;
  Ok s.
End Ops.
