(* ===== verification/CentralInv.v ===== *)
(** * The central cache invariant

    The contents of the circular arrays as lists, the ghost state of the central
    cache, its invariant, and the steps its operations are made of: a slot
    leaves a bitmap or goes back to it, a pointer enters or leaves a transfer
    cache, a span moves within a bucket, into one or out of it.  Every step says
    which words of memory it may write; words that belong to somebody else stay. *)
From S2P Require Import Prelude Config SizeClass FreeList Common Span SpanList Backing PageMap PageCache PageCacheInv.
From S2P Require Import PageCacheAlloc PageCacheMerge PageCacheRelease CentralCache.
Open Scope Z_scope.

(** ** The circular array as a list

    Cold end first. *)
Definition ring (b : Bucket) (j : Z) : Z :=
  let i := transfer_cache_begin b + j in
  if i <? transfer_cache_capacity b then i else i - transfer_cache_capacity b.

(** The words of the array. *)
Definition tc_word (b : Bucket) (w : Z) : Prop :=
  exists i, 0 <= i < transfer_cache_capacity b /\ w = slot_of b i.

Record tc_rep (m : mem) (b : Bucket) (T : list Z) : Prop := {
  tr_cap : 0 <= transfer_cache_capacity b < W32;
  tr_begin : 0 <= transfer_cache_begin b /\
    (transfer_cache_begin b < transfer_cache_capacity b \/ transfer_cache_begin b = 0);
  tr_size : transfer_cache_size b = Z.of_nat (length T);
  tr_fits : Z.of_nat (length T) <= transfer_cache_capacity b;
  tr_base : 0 < transfer_cache_capacity b -> 0 < transfer_cache b;
  tr_vals : forall j x, T !! j = Some x -> m !! slot_of b (ring b (Z.of_nat j)) = Some x;
}.

Definition same_slice (b b' : Bucket) : Prop :=
  transfer_cache b' = transfer_cache b /\ transfer_cache_capacity b' = transfer_cache_capacity b.

Lemma same_slice_refl b : same_slice b b.
Proof. done. Qed.
#[export] Hint Resolve same_slice_refl : core.
Lemma same_slice_word b b' w : same_slice b b' -> tc_word b' w <-> tc_word b w.
Proof. intros [H1 H2]. unfold tc_word, slot_of. by rewrite H1, H2. Qed.
Lemma same_slice_trans b1 b2 b3 : same_slice b1 b2 -> same_slice b2 b3 -> same_slice b1 b3.
Proof. intros [] []. split; congruence. Qed.

Section Ring.
Context `{Build}.

Lemma ring_bounds m b T j : tc_rep m b T -> 0 <= j < transfer_cache_capacity b ->
  0 <= ring b j < transfer_cache_capacity b.
Proof. intros [? [] ? ? ? ?] Hj. unfold ring. cbn zeta. case_cmp; lia. Qed.

Lemma ring_inj m b T j k : tc_rep m b T ->
  0 <= j < transfer_cache_capacity b -> 0 <= k < transfer_cache_capacity b -> ring b j = ring b k -> j = k.
Proof. intros [? [] ? ? ? ?] Hj Hk. unfold ring. cbn zeta. do 2 case_cmp; lia. Qed.

Lemma TransferIndex_ok m b T j : tc_rep m b T -> 0 <= j < transfer_cache_capacity b ->
  TransferIndex b j = Ok (ring b j).
Proof.
  intros Ht Hj. pose proof (ring_bounds _ _ _ _ Ht Hj). destruct Ht as [? [] ? ? ? ?].
  unfold TransferIndex, ring in *. rewrite (proj2 (Z.ltb_lt j _)), AM_DCHECK_true, bind_Ok_l by lia.
  cbn zeta in *. rewrite (u64_id (_ + _)) by lia.
  destruct (_ + j <? _) eqn:E; [done |]. bool_facts. by rewrite u64_id by lia.
Qed.

Lemma tc_load m b T j x : tc_rep m b T -> T !! j = Some x ->
  load m (slot_of b (ring b (Z.of_nat j))) = Ok x.
Proof.
  intros Ht Hx. pose proof (lookup_lt_Some _ _ _ Hx) as Hlt. pose proof (tr_fits _ _ _ Ht) as Hf.
  pose proof (ring_bounds _ _ _ (Z.of_nat j) Ht ltac:(lia)). pose proof (tr_base _ _ _ Ht).
  apply load_Some; [unfold slot_of; lia |]. by apply (tr_vals _ _ _ Ht).
Qed.

Lemma tc_rep_mem m m' b T : (forall w, tc_word b w -> m' !! w = m !! w) -> tc_rep m b T -> tc_rep m' b T.
Proof.
  intros Hm Ht. pose proof Ht as []. constructor; try done. intros j x Hx. rewrite Hm; [by auto |].
  pose proof (lookup_lt_Some _ _ _ Hx). exists (ring b (Z.of_nat j)). split; [| done].
  eapply ring_bounds; [done | lia].
Qed.

(** Popping from the hot end. *)
Lemma tc_rep_init m b T x : tc_rep m b (T ++ [x]) -> tc_rep m (with_size b (Z.of_nat (length T))) T.
Proof.
  intros [? ? Hs Hf ? Hv]. rewrite length_app in *. cbn [length] in *. constructor; cbn; try done; try lia.
  intros j y Hy. apply (Hv j y). rewrite lookup_app_l; [done |]. by eapply lookup_lt_Some.
Qed.

Lemma tc_pop_loop_ok n m b T :
  tc_rep m b T -> (n <= length T)%nat ->
  exists b', tc_pop_loop n m b = Ok (rev (drop (length T - n) T), b') /\
    tc_rep m b' (take (length T - n) T) /\ same_slice b b'.
Proof.
  revert b T. induction n as [| n IH]; intros b T Ht Hn.
  - exists b. rewrite Nat.sub_0_r, drop_all, firstn_all. done.
  - destruct T as [| x T _] using rev_ind; [cbn in Hn; lia |]. rewrite length_app in *. cbn [length] in *.
    pose proof (tr_fits _ _ _ Ht) as Hf. rewrite length_app in Hf. cbn [length] in Hf.
    assert (Hsz : u64 (transfer_cache_size b - 1) = Z.of_nat (length T)).
    { rewrite (tr_size _ _ _ Ht), length_app. pose proof (tr_cap _ _ _ Ht). cbn [length] in *. rewrite u64_id; lia. }
    cbn [tc_pop_loop]. rewrite Hsz. pose proof (tc_rep_init _ _ _ _ Ht) as Ht'.
    rewrite (TransferIndex_ok _ _ _ _ Ht') by (cbn; lia). rewrite bind_Ok_l.
    change (ring (with_size b _)) with (ring b). change (slot_of (with_size b _)) with (slot_of b).
    rewrite (tc_load _ _ _ (length T) x Ht) by (rewrite lookup_app_r, Nat.sub_diag by lia; done).
    rewrite bind_Ok_l. destruct (IH _ T Ht') as (b' & -> & Hb' & Hs'); [lia |]. rewrite bind_Ok_l. exists b'.
    replace (length T + 1 - S n)%nat with (length T - n)%nat by lia.
    rewrite drop_app_le, take_app_le, rev_app_distr by lia. split_and!; done.
Qed.

(** Pushing at the hot end. *)
Lemma tc_push_one m b T x :
  tc_rep m b T -> transfer_cache_size b < transfer_cache_capacity b ->
  exists i, TransferIndex b (transfer_cache_size b) = Ok i /\ tc_word b (slot_of b i) /\ slot_of b i <> 0 /\
    tc_rep (<[slot_of b i := x]> m) (with_size b (u64 (transfer_cache_size b + 1))) (T ++ [x]).
Proof.
  intros Ht Hlt. pose proof (tr_size _ _ _ Ht) as Hs. pose proof (tr_cap _ _ _ Ht) as Hc.
  assert (Hr : 0 <= transfer_cache_size b < transfer_cache_capacity b) by lia.
  pose proof (ring_bounds _ _ _ _ Ht Hr) as Hrb. pose proof (tr_base _ _ _ Ht) as Hb0.
  exists (ring b (transfer_cache_size b)). split; [by eapply TransferIndex_ok |].
  split; [by eexists |]. split; [unfold slot_of; lia |]. rewrite u64_id by lia.
  constructor; cbn; rewrite ?length_app; cbn [length]; try apply Ht; try lia.
  intros j y Hy. change (ring (with_size b _)) with (ring b). change (slot_of (with_size b _)) with (slot_of b).
  apply lookup_app_Some in Hy as [Hy | [Hge Hy]].
  - pose proof (lookup_lt_Some _ _ _ Hy). rewrite lookup_insert_ne; [by apply (tr_vals _ _ _ Ht) |].
    intros Heq. assert (ring b (transfer_cache_size b) = ring b (Z.of_nat j)) by (unfold slot_of in Heq; lia).
    assert (transfer_cache_size b = Z.of_nat j); [| lia]. eapply ring_inj; [done | lia | lia | done].
  - apply list_lookup_singleton_Some in Hy as [Hj <-]. replace j with (length T) by lia.
    rewrite <- Hs. apply lookup_insert_eq.
Qed.

Lemma tc_push_loop_ok objs m b T :
  tc_rep m b T ->
  exists pushed rest m' b', tc_push_loop objs m b = Ok (rest, m', b') /\ objs = pushed ++ rest /\
    tc_rep m' b' (T ++ pushed) /\ same_slice b b' /\
    (rest = [] \/ Z.of_nat (length (T ++ pushed)) = transfer_cache_capacity b) /\
    (forall w, ~ tc_word b w -> m' !! w = m !! w).
Proof.
  revert m b T. induction objs as [| x objs IH]; intros m b T Ht; cbn [tc_push_loop].
  { exists [], [], m, b. rewrite (app_nil_r T). split_and!; try done. by left. }
  destruct (Z.ltb_spec (transfer_cache_size b) (transfer_cache_capacity b)) as [Hlt | Hge].
  - destruct (tc_push_one m b T x Ht Hlt) as (i & -> & Hw & Hnz & Ht1). rewrite bind_Ok_l.
    change (slot_of (with_size b _)) with (slot_of b).
    rewrite store_nonnull, bind_Ok_l by done.
    destruct (IH _ _ _ Ht1) as (pushed & rest & m' & b' & -> & -> & Ht2 & Hs & Hor & Hfr).
    exists (x :: pushed), rest, m', b'. rewrite <- app_assoc in Ht2, Hor. split_and!; try done.
    intros w Hnw. rewrite Hfr by (by rewrite same_slice_word). apply lookup_insert_ne. by intros <-.
  - exists [], (x :: objs), m, b. rewrite (app_nil_r T). split_and!; try done. right.
    pose proof (tr_size _ _ _ Ht). pose proof (tr_fits _ _ _ Ht). lia.
Qed.

(** Reading from the cold end, and dropping what was read. *)
Lemma tc_read_loop_ok n m b T j :
  tc_rep m b T -> (j + n <= length T)%nat ->
  tc_read_loop n m b (Z.of_nat j) = Ok (take n (drop j T)).
Proof.
  intros Ht. revert j. induction n as [| n IH]; intros j Hj; [done |]. cbn [tc_read_loop].
  destruct (lookup_lt_is_Some_2 T j) as [x Hx]; [lia |]. pose proof (tr_fits _ _ _ Ht).
  rewrite (TransferIndex_ok _ _ _ _ Ht), bind_Ok_l by lia.
  rewrite (tc_load _ _ _ _ _ Ht Hx), bind_Ok_l. replace (Z.of_nat j + 1) with (Z.of_nat (S j)) by lia.
  rewrite IH, bind_Ok_l by lia. by rewrite (drop_S _ _ _ Hx).
Qed.

Lemma tc_rep_drop m b T n first :
  tc_rep m b T -> (n <= length T)%nat -> (0 < n)%nat ->
  first = (if decide (Z.of_nat n = transfer_cache_capacity b) then 0 else ring b (Z.of_nat n)) ->
  tc_rep m (with_size (with_begin b first) (Z.of_nat (length T - n))) (drop n T).
Proof.
  intros Ht Hn H0 ->. pose proof (tr_fits _ _ _ Ht). pose proof Ht as [Hc [] Hs Hf Hb Hv].
  constructor; cbn; rewrite ?length_drop; try lia.
  { case_decide; [lia |]. pose proof (ring_bounds _ _ _ (Z.of_nat n) Ht). lia. }
  intros j x Hx. rewrite lookup_drop in Hx. pose proof (lookup_lt_Some _ _ _ Hx). rewrite <- (Hv _ _ Hx).
  unfold slot_of. cbn. do 3 f_equal. unfold ring. cbn zeta. cbn [transfer_cache_begin transfer_cache_capacity with_size with_begin].
  case_decide; [lia |]. repeat case_cmp; lia.
Qed.
End Ring.

(** ** Chains of objects *)

Lemma link_all_ok m objs head l :
  seg m head l 0 -> NoDup objs -> (forall x, x ∈ objs -> x ∉ l) -> 0 ∉ objs ->
  exists h m', link_all m objs head = Ok (h, m') /\ seg m' h (rev objs ++ l) 0 /\ same_except objs m m'.
Proof.
  revert m head l. induction objs as [| x objs IH]; intros m head l Hs Hnd Hl H0; cbn [link_all rev].
  { by exists head, m. }
  apply NoDup_cons in Hnd as [Hx Hnd]. apply not_elem_of_cons in H0 as [Hx0 H0].
  unfold FreeBlock_set_next. rewrite store_nonnull, bind_Ok_l by done.
  destruct (IH (<[x := head]> m) x (x :: l)) as (h & m' & -> & Hs' & Hf); try done.
  { split; [done |]. split; [done |]. exists head. rewrite lookup_insert_eq. split; [done |].
    eapply seg_frame; [| exact Hs]. intros a Ha. apply lookup_insert_ne. intros <-. apply (Hl x); [left | done]. }
  { intros y Hy [-> | Hyl]%elem_of_cons; [done |]. apply (Hl y); [by right | done]. }
  exists h, m'. rewrite <- app_assoc. split; [done |]. split; [done |].
  intros a Ha. apply not_elem_of_cons in Ha as [Hax Ha]. rewrite Hf by done. by apply lookup_insert_ne.
Qed.

Lemma read_chain_ok l1 m cur l2 :
  seg m cur (l1 ++ l2) 0 ->
  exists cur', read_chain (length l1) m cur = Ok (l1, cur') /\ seg m cur' l2 0.
Proof.
  revert cur. induction l1 as [| x l1 IH]; intros cur Hs; cbn [read_chain length]; [by exists cur |].
  pose proof Hs as (-> & _ & _). apply FreeBlock_next_seg in Hs as (next & -> & Hs). rewrite bind_Ok_l.
  destruct (IH next Hs) as (cur' & -> & Hs'). rewrite bind_Ok_l. by exists cur'.
Qed.

(** ** Ghost state

    The page cache's ghosts [D] to [L]; per class the spans on its list, [g_B],
    and the contents of its transfer cache, [g_T]; per span its free slots, and how
    many slots it has. *)
Record ghost := mkGhost {
  g_D : runs; g_U : gset Z; g_K : gset Z; g_R : gset Z; g_N : gset Z; g_L : Z -> list Z;
  g_B : Z -> list Z; g_T : Z -> list Z; g_free : Z -> gset Z; g_cap : Z -> Z
}.

Definition upd_fun {A} (f : Z -> A) (i : Z) (x : A) : Z -> A := fun j => if decide (j = i) then x else f j.
Lemma upd_fun_eq {A} (f : Z -> A) i x : upd_fun f i x i = x.
Proof. unfold upd_fun. by rewrite decide_True. Qed.
Lemma upd_fun_ne {A} (f : Z -> A) i x j : j <> i -> upd_fun f i x j = f j.
Proof. intros. unfold upd_fun. by rewrite decide_False. Qed.

Definition set_B (G : ghost) (idx : Z) (l : list Z) : ghost :=
  mkGhost (g_D G) (g_U G) (g_K G) (g_R G) (g_N G) (g_L G) (upd_fun (g_B G) idx l) (g_T G) (g_free G) (g_cap G).
Definition set_T (G : ghost) (idx : Z) (l : list Z) : ghost :=
  mkGhost (g_D G) (g_U G) (g_K G) (g_R G) (g_N G) (g_L G) (g_B G) (upd_fun (g_T G) idx l) (g_free G) (g_cap G).
Definition set_free (G : ghost) (a : Z) (free : gset Z) : ghost :=
  mkGhost (g_D G) (g_U G) (g_K G) (g_R G) (g_N G) (g_L G) (g_B G) (g_T G) (upd_fun (g_free G) a free) (g_cap G).

Definition set_cap (G : ghost) (a : Z) (cap : Z) : ghost :=
  mkGhost (g_D G) (g_U G) (g_K G) (g_R G) (g_N G) (g_L G) (g_B G) (g_T G) (g_free G) (upd_fun (g_cap G) a cap).

Definition is_class (idx : Z) : Prop := 0 <= idx < kNumSizeClasses.

(** [H idx]: the objects of the class outside the cache; [V]: the used runs that
    are on no bucket's list. *)
Abbreviation held := (Z -> gset Z).

Definition give (H : held) (idx : Z) (X : gset Z) : held := upd_fun H idx (H idx ∪ X).
Definition take_back (H : held) (idx : Z) (X : gset Z) : held := upd_fun H idx (H idx ∖ X).

(** The words clients may use: those of the objects they hold and those of the
    runs they hold. *)
Definition user_word (H : held) (V : runs) (w : Z) : Prop :=
  (exists idx x, is_class idx /\ x ∈ H idx /\ x <= w < x + Size idx) \/
  (exists v, covers V v (w / PAGE_SIZE)).

(** The bitmap of a span lies in its run. *)
Lemma bitmap_word_page d w : grid_wf d -> w ∈ bitmap_words d ->
  start_page_idx d <= w / PAGE_SIZE < start_page_idx d + page_num d.
Proof.
  intros Hg Hw. apply (bitmap_words_below d w Hg) in Hw as [Hw1 Hw2]. destruct (GetPageBaseAddr_eq d Hg) as (Hb & Hpos & _).
  destruct (GetDataBasePtr_eq d Hg) as [Hdb _]. pose proof (gw_fits _ Hg). pose proof (gw_capacity _ Hg).
  pose proof (grid_size_range d Hg). unfold ALIGNMENT in *. rewrite Hb in *. unfold PAGE_SIZE in *.
  split; [apply Z.div_le_lower_bound; nia | apply Z.div_lt_upper_bound; nia].
Qed.

Section Invariant.
Context `{BackingLaws W} `{StaticLayout} `{CentralLayout}.
Implicit Types (s : CentralCache W) (G : ghost) (V : runs).

Definition span_in s G (idx a : Z) : Prop :=
  exists d, cc_spans s !! a = Some d /\ span_rep (cc_mem s) d (g_free G a) /\ size_class_idx d = idx /\
    g_D G !! a = Some (start_page_idx d, page_num d) /\ a ∈ g_U G /\ capacity d = g_cap G a.

(** [x] is an allocated slot of a span on the class's list. *)
Definition object s G (idx x : Z) : Prop :=
  exists a d k, a ∈ g_B G idx /\ cc_spans s !! a = Some d /\ 0 <= k < capacity d /\ (k ∉ g_free G a) /\
    x = slot_addr d k.

Record cc_inv s G (Hd : held) V : Prop := {
  ci_pages : pc_inv (cc_pages s) (g_D G) (g_U G) (g_K G) (g_R G) (g_N G) (g_L G);
  ci_list : forall idx, is_class idx -> dll (cc_spans s) (bucket_head idx) (g_B G idx);
  ci_span : forall idx a, is_class idx -> a ∈ g_B G idx -> span_in s G idx a;
  ci_objs : forall idx x, is_class idx -> x ∈ Hd idx \/ x ∈ g_T G idx <-> object s G idx x;
  ci_once : forall idx, is_class idx -> NoDup (g_T G idx);
  ci_apart : forall idx x, is_class idx -> x ∈ g_T G idx -> x ∉ Hd idx;
  ci_tc : forall idx, is_class idx -> tc_rep (cc_mem s) (cc_buckets s idx) (g_T G idx);
  ci_slice : forall idx w, is_class idx -> tc_word (cc_buckets s idx) w -> w / PAGE_SIZE ∈ g_K G;
  ci_slices : forall i j w, is_class i -> is_class j -> i <> j ->
    tc_word (cc_buckets s i) w -> ~ tc_word (cc_buckets s j) w;
  ci_used : forall a, a ∈ g_U G <-> a ∈ dom V \/ exists idx, is_class idx /\ a ∈ g_B G idx;
  ci_runs : V ⊆ g_D G;
  ci_out : forall idx a, is_class idx -> a ∈ g_B G idx -> a ∉ dom V;
  ci_head : forall idx, is_class idx ->
    bucket_head idx <> 0 /\ bucket_head idx / PAGE_SIZE ∈ g_K G /\ ~ is_head (bucket_head idx);
}.

(** What belongs to the clients is as before. *)
Record undisturbed (Hd : held) V s s' : Prop := {
  un_mem : forall w, user_word Hd V w -> cc_mem s' !! w = cc_mem s !! w;
  un_span : forall v, v ∈ dom V -> cc_spans s' !! v = cc_spans s !! v;
}.

Lemma undisturbed_refl Hd V s : undisturbed Hd V s s.
Proof. done. Qed.
Lemma undisturbed_trans Hd V s1 s2 s3 :
  undisturbed Hd V s1 s2 -> undisturbed Hd V s2 s3 -> undisturbed Hd V s1 s3.
Proof. intros [M1 S1] [M2 S2]. constructor; intros x Hx; [by rewrite M2, M1 | by rewrite S2, S1]. Qed.
Lemma user_word_mono (Hd Hd' : held) V V' w :
  (forall idx, is_class idx -> Hd idx ⊆ Hd' idx) -> V ⊆ V' -> user_word Hd V w -> user_word Hd' V' w.
Proof.
  intros HH HV [(idx & x & Hi & Hx & Hw) | (v & st & n & Hv & Hw)]; [left | right].
  - exists idx, x. split_and!; try done; try lia. by apply HH.
  - exists v, st, n. split; [| done]. by eapply lookup_weaken.
Qed.
Lemma undisturbed_mono (Hd Hd' : held) V V' s s' :
  (forall idx, is_class idx -> Hd idx ⊆ Hd' idx) -> V ⊆ V' ->
  undisturbed Hd' V' s s' -> undisturbed Hd V s s'.
Proof.
  intros HH HV [Hm Hs]. constructor.
  - intros w Hw. apply Hm. by eapply user_word_mono.
  - intros v Hv. apply Hs. by apply (subseteq_dom V V').
Qed.

(** *** Geometry *)

Section Facts.
Context s G Hd V (Hi : cc_inv s G Hd V).

Lemma ci_grid idx a d : is_class idx -> a ∈ g_B G idx -> cc_spans s !! a = Some d ->
  span_rep (cc_mem s) d (g_free G a) /\ grid_wf d /\ aligned_obj_size d = Size idx /\ size_class_idx d = idx /\
  g_D G !! a = Some (start_page_idx d, page_num d).
Proof.
  intros Hidx Ha Hd'. destruct (ci_span _ _ _ _ Hi _ _ Hidx Ha) as (d2 & E & Hr & Hcl & HD & _).
  rewrite E in Hd'. injection Hd' as ->. pose proof (sr_grid _ _ _ Hr) as Hg. split_and!; try done.
  by rewrite (gw_size _ Hg), Hcl.
Qed.

(** Words of a run: covered by its span alone. *)
Lemma ci_cover a b p : covers (g_D G) a p -> covers (g_D G) b p -> a = b.
Proof.
  intros Ha Hb. pose proof (ci_pages _ _ _ _ Hi) as Hp.
  assert (Hpos : forall c, covers (g_D G) c p -> c <> 0 /\ 0 <= p).
  { intros c (x & n & Hc & Hx). destruct (co_geom _ _ _ _ _ _ _ (pi_core _ _ _ _ _ _ _ Hp) _ _ _ Hc). lia. }
  destruct (Hpos a Ha), (Hpos b Hb). by eapply maps_disjoint; [apply Hp | ..].
Qed.

Lemma cover_not_static a p : covers (g_D G) a p -> p ∉ g_K G.
Proof.
  intros (x & n & Hc & Hx) HK.
  destruct (co_geom _ _ _ _ _ _ _ (pi_core _ _ _ _ _ _ _ (ci_pages _ _ _ _ Hi)) _ _ _ Hc) as [_ _ _ _ _ _ Hsk].
  apply elem_of_disjoint in Hsk. apply (Hsk p); [| done]. apply elem_of_pages. lia.
Qed.

(** A word inside slot [k]. *)
Lemma slot_word idx a d k w :
  is_class idx -> a ∈ g_B G idx -> cc_spans s !! a = Some d -> 0 <= k < capacity d ->
  slot_addr d k <= w < slot_addr d k + Size idx ->
  covers (g_D G) a (w / PAGE_SIZE) /\ (w ∉ bitmap_words d) /\ w <> 0 /\
  slot_addr d k = GetDataBasePtr d + k * Size idx.
Proof.
  intros Hidx Ha Hda Hk Hw. destruct (ci_grid idx a d Hidx Ha Hda) as (_ & Hg & Hsz & _ & HD).
  destruct (slot_addr_eq d k Hg Hk) as [He Htop]. destruct (GetPageBaseAddr_eq d Hg) as (Hb & Hpos & _).
  destruct (GetDataBasePtr_eq d Hg) as [Hdb _]. pose proof (gw_offset _ Hg). pose proof (bitmap_num_bounds d Hg).
  pose proof (Size_range idx Hidx). unfold ALIGNMENT in *. rewrite Hsz in *. split_and!.
  - exists (start_page_idx d), (page_num d). split; [done |]. rewrite Hb in *. unfold PAGE_SIZE in *.
    split; [apply Z.div_le_lower_bound; nia | apply Z.div_lt_upper_bound; nia].
  - intros Hin. apply (bitmap_words_below d w Hg) in Hin. nia.
  - unfold PAGE_SIZE in *. nia.
  - lia.
Qed.

Lemma bitmap_word_cover idx a d w :
  is_class idx -> a ∈ g_B G idx -> cc_spans s !! a = Some d -> w ∈ bitmap_words d ->
  covers (g_D G) a (w / PAGE_SIZE).
Proof.
  intros Hidx Ha Hda Hw. destruct (ci_grid idx a d Hidx Ha Hda) as (_ & Hg & _ & _ & HD).
  exists (start_page_idx d), (page_num d). split; [done | by apply bitmap_word_page].
Qed.

(** The objects of a class, seen from outside. *)
Lemma object_in idx x : is_class idx -> x ∈ Hd idx \/ x ∈ g_T G idx ->
  exists a d k, a ∈ g_B G idx /\ cc_spans s !! a = Some d /\ 0 <= k < capacity d /\ (k ∉ g_free G a) /\
    x = slot_addr d k.
Proof. intros Hidx Hx. by apply (ci_objs _ _ _ _ Hi). Qed.

Lemma object_word idx x : is_class idx -> x ∈ Hd idx \/ x ∈ g_T G idx ->
  exists a, a ∈ g_B G idx /\ x <> 0 /\ forall w, x <= w < x + Size idx ->
    covers (g_D G) a (w / PAGE_SIZE) /\ forall d, cc_spans s !! a = Some d -> w ∉ bitmap_words d.
Proof.
  intros Hidx Hx. destruct (object_in idx x Hidx Hx) as (a & d & k & Ha & Hda & Hk & _ & ->).
  pose proof (Size_range idx Hidx) as Hsz. unfold ALIGNMENT in Hsz.
  exists a. split; [done |]. split.
  { eapply (slot_word idx a d k); try done. lia. }
  intros w Hw. destruct (slot_word idx a d k w) as (Hc & Hb & _); try done.
  split; [done |]. intros d2 Hd2. rewrite Hda in Hd2. by injection Hd2 as <-.
Qed.

(** Different objects do not overlap. *)
Lemma objects_apart i j x y w :
  is_class i -> is_class j -> x ∈ Hd i \/ x ∈ g_T G i -> y ∈ Hd j \/ y ∈ g_T G j ->
  x <= w < x + Size i -> y <= w < y + Size j -> i = j /\ x = y.
Proof.
  intros Hci Hcj Hx Hy Hwx Hwy.
  destruct (object_in i x Hci Hx) as (a & d & k & Ha & Hda & Hk & _ & ->).
  destruct (object_in j y Hcj Hy) as (b & e & l & Hb & Heb & Hl & _ & ->).
  destruct (slot_word i a d k w Hci Ha Hda Hk Hwx) as (Hca & _ & _ & E1).
  destruct (slot_word j b e l w Hcj Hb Heb Hl Hwy) as (Hcb & _ & _ & E2).
  pose proof (ci_cover _ _ _ Hca Hcb) as <-. rewrite Hda in Heb. injection Heb as <-.
  destruct (ci_grid i a d Hci Ha Hda) as (_ & _ & _ & Hc1 & _).
  destruct (ci_grid j a d Hcj Hb Hda) as (_ & _ & _ & Hc2 & _).
  assert (i = j) as <- by congruence. split; [done |]. assert (k = l) as <- by nia. done.
Qed.

(** A client's word is neither a bitmap word nor a transfer-cache word. *)
Lemma user_not_bitmap idx a d w : user_word Hd V w ->
  is_class idx -> a ∈ g_B G idx -> cc_spans s !! a = Some d -> w ∉ bitmap_words d.
Proof.
  intros Hu Hidx Ha Hda Hw. pose proof (bitmap_word_cover idx a d w Hidx Ha Hda Hw) as Hc.
  destruct Hu as [(j & x & Hj & Hx & Hr) | (v & st & n & Hv & Hp)].
  - destruct (object_word j x Hj (or_introl Hx)) as (b & Hb & _ & Hob). destruct (Hob w Hr) as [Hcb Hnb].
    pose proof (ci_cover _ _ _ Hc Hcb) as <-. by apply (Hnb d).
  - assert (a = v) as ->.
    { eapply ci_cover; [exact Hc |]. exists st, n. split; [| done]. eapply lookup_weaken; [done | apply Hi]. }
    apply (ci_out _ _ _ _ Hi idx v Hidx Ha), elem_of_dom. by eexists.
Qed.

Lemma user_covered w : user_word Hd V w -> exists a, covers (g_D G) a (w / PAGE_SIZE).
Proof.
  intros [(j & x & Hj & Hx & Hr) | (v & st & n & Hv & Hp)].
  - destruct (object_word j x Hj (or_introl Hx)) as (b & _ & _ & Hob). exists b. by apply Hob.
  - exists v, st, n. split; [| done]. eapply lookup_weaken; [done | apply Hi].
Qed.

Lemma user_not_tc idx w : user_word Hd V w -> is_class idx -> ~ tc_word (cc_buckets s idx) w.
Proof.
  intros [a Hc]%user_covered Hidx Hw. by apply (cover_not_static _ _ Hc), (ci_slice _ _ _ _ Hi idx).
Qed.

(** ... nor the link word of an object somebody else owns. *)
Lemma user_not_object idx x w : user_word Hd V w -> is_class idx -> x ∈ g_T G idx ->
  w < x \/ x + Size idx <= w.
Proof.
  intros Hu Hidx Hx. destruct (decide (x <= w < x + Size idx)) as [Hw |]; [exfalso | lia].
  destruct Hu as [(j & y & Hj & Hy & Hr) | (v & st & n & Hv & Hp)].
  - destruct (objects_apart idx j x y w Hidx Hj) as [<- <-]; try tauto.
    by apply (ci_apart _ _ _ _ Hi idx x).
  - destruct (object_word idx x Hidx (or_intror Hx)) as (b & Hb & _ & Hob). destruct (Hob w Hw) as [Hcb _].
    assert (b = v) as ->.
    { eapply ci_cover; [exact Hcb |]. exists st, n. split; [| done]. eapply lookup_weaken; [done | apply Hi]. }
    apply (ci_out _ _ _ _ Hi idx v Hidx Hb), elem_of_dom. by eexists.
Qed.
End Facts.
End Invariant.

Section NoReserve.
Context {W : Type} `{BackingLaws W} `{StaticLayout} `{CentralLayout}.

(** When nobody else owns pages. *)
Lemma cc_inv_reserve_none s G Hd V : cc_inv s G Hd V -> cc_inv (H1 := reserve_laws ∅) s G Hd V.
Proof.
  intros Hi. pose proof (ci_pages _ _ _ _ Hi) as [Pc Pw Pm Pp Pq Ps]. constructor; try apply Hi. constructor; try done.
  split; [set_solver |]. by rewrite union_empty_r_L.
Qed.
End NoReserve.
