(* ===== verification/CentralSteps.v ===== *)
(** * The steps of the central cache

    The elementary state changes its operations are composed of, each preserving
    the invariant: descriptor and bitmap writes, link writes in objects outside
    the cache, transfer-cache updates, list moves, and the two calls into the page
    cache.  Each comes with the proof that clients are not disturbed. *)
From S2P Require Import Prelude Config SizeClass FreeList Common Span SpanList Backing PageMap PageCache PageCacheInv.
From S2P Require Import PageCacheAlloc PageCacheMerge PageCacheRelease CentralCache CentralInv.
Open Scope Z_scope.

(** ** The page cache underneath *)

Definition same_ident (d d' : Span) : Prop :=
  start_page_idx d' = start_page_idx d /\ page_num d' = page_num d /\ flags d' = flags d /\
  owner_shard_id d' = owner_shard_id d.

Section Pages.
Context `{BackingLaws W} `{StaticLayout}.

(** The page cache does not look into used descriptors. *)
Lemma pc_inv_desc p D U K R N L st' :
  pc_inv p D U K R N L ->
  (forall b, b ∉ U -> b ∈ dom D \/ is_head b -> st' !! b = pc_spans p !! b) ->
  (forall b d, b ∈ U -> pc_spans p !! b = Some d -> exists d', st' !! b = Some d' /\ same_ident d d') ->
  pc_inv (with_spans p st') D U K R N L.
Proof.
  intros Hi Hout Hin. pose proof (pi_core _ _ _ _ _ _ _ Hi) as Hc.
  constructor; cbn; try apply Hi. constructor; try apply Hc.
  - intros a x n Ha. destruct (co_desc _ _ _ _ _ _ _ Hc a x n Ha) as (d & Hd & <- & <- & Hu & Ho & Hcl).
    destruct (decide (a ∈ U)) as [HaU | HaU].
    + destruct (Hin a d HaU Hd) as (d' & Hd' & Es & En & Ef & Eo). exists d'.
      split_and!; try done; [| congruence]. rewrite <- Hu. unfold IsUsed. by rewrite Ef.
    + exists d. rewrite Hout; [by split_and! | done | left; apply elem_of_dom; by eexists].
  - intros i Hii. eapply dll_ext; [| by apply Hc]. intros b Hb.
    destruct (co_in_list _ _ _ _ _ _ _ _ _ Hc Hii Hb) as [-> | [Hdom HbU]]; [| apply Hout; [done | by left]].
    apply Hout; [| right; by exists i]. intros HU. eapply (co_not_head _ _ _ _ _ _ _ _ Hc); [| by exists i].
    by apply (co_used _ _ _ _ _ _ _ Hc).
Qed.
End Pages.

Lemma span_rep_links m d free n p : span_rep m d free -> span_rep m (with_links d n p) free.
Proof. intros [Hg ? ? ? ? ?]. constructor; [| assumption..]. destruct Hg. constructor; assumption. Qed.

Lemma span_rep_mem m m' d free :
  (forall w, w ∈ bitmap_words d -> m' !! w = m !! w) -> span_rep m d free -> span_rep m' d free.
Proof.
  intros Hm [Hg Hb ? ? ? ?]. constructor; try done. intros w Hw. destruct (Hb w Hw) as (v & Hv & ?).
  exists v. split; [| done]. rewrite Hm; [done |]. by apply (bitmap_word_in d w).
Qed.

Lemma same_data_grid st st' a d : same_data st st' -> st !! a = Some d ->
  exists d', st' !! a = Some d' /\ capacity d' = capacity d /\ forall k, slot_addr d' k = slot_addr d k.
Proof.
  intros Hs Ha. destruct (same_data_desc _ _ _ _ Hs Ha) as (d' & Hd' & Eq). exists d'.
  split; [done |]. rewrite Eq. done.
Qed.

Section Steps.
Context `{BackingLaws W} `{StaticLayout} `{CentralLayout}.
Implicit Types (s : CentralCache W) (G : ghost) (V : runs) (Hd : held).

(** Spans of different classes are different. *)
Lemma ci_class s G Hd V i j a : cc_inv s G Hd V -> is_class i -> is_class j ->
  a ∈ g_B G i -> a ∈ g_B G j -> i = j.
Proof.
  intros Hi Hci Hcj Ha Hb. destruct (ci_span _ _ _ _ Hi i a Hci Ha) as (d & Hd' & _ & E & _).
  destruct (ci_grid _ _ _ _ Hi j a d Hcj Hb Hd') as (_ & _ & _ & E2 & _). congruence.
Qed.

Lemma ci_head_inj (i j : Z) : bucket_head i = bucket_head j -> i = j.
Proof. unfold bucket_head, sizeof_Bucket, CACHE_LINE_SIZE. lia. Qed.

(** Sentinels of buckets are not descriptors. *)
Lemma ci_head_dom s G Hd V idx : cc_inv s G Hd V -> is_class idx -> bucket_head idx ∉ dom (g_D G).
Proof.
  intros Hi Hidx [[x n] Hx]%elem_of_dom. destruct (ci_head _ _ _ _ Hi idx Hidx) as (_ & HK & _).
  by apply (co_geom _ _ _ _ _ _ _ (pi_core _ _ _ _ _ _ _ (ci_pages _ _ _ _ Hi))) in Hx as [_ ? _ _ _ _ _].
Qed.

Lemma ci_used_dom s G Hd V : cc_inv s G Hd V -> g_U G ⊆ dom (g_D G).
Proof. intros Hi. apply (co_used _ _ _ _ _ _ _ (pi_core _ _ _ _ _ _ _ (ci_pages _ _ _ _ Hi))). Qed.

Lemma ci_B_used s G Hd V idx a : cc_inv s G Hd V -> is_class idx -> a ∈ g_B G idx -> a ∈ g_U G.
Proof. intros Hi Hidx Ha. apply (ci_used _ _ _ _ Hi). right. eauto. Qed.

(** *** Writing a bitmap *)

Lemma put_span_ok s G Hd V idx a d d' m' free' Hd' :
  cc_inv s G Hd V -> is_class idx -> a ∈ g_B G idx -> cc_spans s !! a = Some d ->
  span_rep m' d' free' -> same_grid d d' -> same_except (bitmap_words d) (cc_mem s) m' ->
  (forall x, x ∈ Hd' idx \/ x ∈ g_T G idx <->
     (exists k, 0 <= k < capacity d /\ (k ∉ free') /\ x = slot_addr d k) \/
     (exists b e k, b <> a /\ b ∈ g_B G idx /\ cc_spans s !! b = Some e /\ 0 <= k < capacity e /\
        (k ∉ g_free G b) /\ x = slot_addr e k)) ->
  (forall j, j <> idx -> Hd' j = Hd j) -> (forall x, x ∈ g_T G idx -> x ∉ Hd' idx) ->
  cc_inv (put_span s a d' m') (set_free G a free') Hd' V.
Proof.
  intros Hi Hidx Ha Hda Hr Hsg Hm Hobj Hoth Hap.
  assert (Hwords : forall j b e, is_class j -> b ∈ g_B G j -> cc_spans s !! b = Some e -> b <> a ->
            forall w, w ∈ bitmap_words e -> m' !! w = cc_mem s !! w).
  { intros j b e Hj Hb He Hne w Hw. apply Hm. intros Hwa. apply Hne. eapply ci_cover; [done | |].
    - by eapply (bitmap_word_cover s G Hd V Hi j b e).
    - by eapply (bitmap_word_cover s G Hd V Hi idx a d). }
  assert (Hobj2 : forall j, j <> idx -> is_class j -> forall x,
            object (put_span s a d' m') (set_free G a free') j x <-> object s G j x).
  { intros j Hne Hj x. unfold object, cc_spans. cbn. split; intros (b & e & k & Hb & He & Hk & Hf & ->).
    - assert (b <> a) by (intros ->; by apply Hne; eapply ci_class).
      rewrite lookup_insert_ne in He by done. rewrite upd_fun_ne in Hf by done. by exists b, e, k.
    - assert (b <> a) by (intros ->; by apply Hne; eapply ci_class).
      exists b, e, k. rewrite lookup_insert_ne, upd_fun_ne by done. done. }
  constructor; cbn.
  - apply (pc_inv_desc (cc_pages s)); [apply Hi | |].
    + intros b Hb _. apply lookup_insert_ne. intros ->. by apply Hb, (ci_B_used _ _ _ _ _ _ Hi Hidx).
    + intros b e Hb He. destruct (decide (b = a)) as [-> | Hne].
      * exists d'. rewrite lookup_insert_eq. split; [done |]. unfold cc_spans in Hda. rewrite Hda in He.
        injection He as <-. rewrite Hsg. done.
      * exists e. by rewrite lookup_insert_ne.
  - intros j Hj. eapply dll_data; [| | by apply (ci_list _ _ _ _ Hi j Hj)]; intros b.
    + unfold next_of, cc_spans. cbn. destruct (decide (b = a)) as [-> |]; [| by rewrite lookup_insert_ne].
      unfold cc_spans in Hda. rewrite lookup_insert_eq, Hda, Hsg. done.
    + unfold prev_of, cc_spans. cbn. destruct (decide (b = a)) as [-> |]; [| by rewrite lookup_insert_ne].
      unfold cc_spans in Hda. rewrite lookup_insert_eq, Hda, Hsg. done.
  - intros j b Hj Hb. destruct (ci_span _ _ _ _ Hi j b Hj Hb) as (e & He & Hre & Hce & HDe & HUe & Hcape).
    unfold span_in, cc_spans. cbn. destruct (decide (b = a)) as [-> | Hne].
    + rewrite Hda in He. injection He as <-. exists d'. rewrite lookup_insert_eq, upd_fun_eq.
      rewrite Hsg. cbn. rewrite Hsg in Hr. done.
    + exists e. rewrite lookup_insert_ne, upd_fun_ne by done. split_and!; try done.
      eapply span_rep_mem; [| exact Hre]. by apply (Hwords j b e).
  - intros j x Hj. destruct (decide (j = idx)) as [-> | Hne].
    + rewrite Hobj. unfold object, cc_spans. cbn. split.
      * intros [(k & Hk & Hf & ->) | (b & e & k & Hne & Hb & He & Hk & Hf & ->)].
        -- exists a, d', k. rewrite lookup_insert_eq, upd_fun_eq, Hsg. done.
        -- exists b, e, k. rewrite lookup_insert_ne, upd_fun_ne by done. done.
      * intros (b & e & k & Hb & He & Hk & Hf & ->). destruct (decide (b = a)) as [-> | Hne].
        -- left. rewrite lookup_insert_eq in He. injection He as <-. rewrite upd_fun_eq in Hf. rewrite Hsg in Hk |- *.
           by exists k.
        -- right. rewrite lookup_insert_ne in He by done. rewrite upd_fun_ne in Hf by done. by exists b, e, k.
    + rewrite Hobj2, Hoth by done. by apply (ci_objs _ _ _ _ Hi).
  - apply Hi.
  - intros j x Hj Hx. destruct (decide (j = idx)) as [-> | Hne]; [by apply Hap |].
    rewrite Hoth by done. by apply (ci_apart _ _ _ _ Hi j).
  - intros j Hj. eapply tc_rep_mem; [| by apply (ci_tc _ _ _ _ Hi j Hj)]. intros w Hw. apply Hm.
    intros Hwa. eapply cover_not_static; [exact Hi | by eapply (bitmap_word_cover s G Hd V Hi idx a d) |].
    by apply (ci_slice _ _ _ _ Hi j).
  - apply Hi.
  - apply Hi.
  - apply Hi.
  - apply Hi.
  - apply Hi.
  - apply Hi.
Qed.

Lemma put_span_undisturbed s G Hd V idx a d d' m' (Hd0 : held) V0 :
  cc_inv s G Hd V -> is_class idx -> a ∈ g_B G idx -> cc_spans s !! a = Some d ->
  same_except (bitmap_words d) (cc_mem s) m' ->
  (forall j, is_class j -> Hd0 j ⊆ Hd j) -> V0 ⊆ V -> undisturbed Hd0 V0 s (put_span s a d' m').
Proof.
  intros Hi Hidx Ha Hda Hm HH HV. apply (undisturbed_mono Hd0 Hd V0 V); [done | done |]. constructor; cbn.
  - intros w Hw. apply Hm. by eapply (user_not_bitmap s G Hd V Hi idx a d w).
  - intros v Hv. unfold cc_spans. cbn. apply lookup_insert_ne. intros ->.
    by apply (ci_out _ _ _ _ Hi idx v).
Qed.

(** A free slot leaves the bitmap of a span. *)
Lemma alloc_step s G Hd V idx a d :
  cc_inv s G Hd V -> is_class idx -> a ∈ g_B G idx -> cc_spans s !! a = Some d -> g_free G a <> ∅ ->
  exists obj d' m' free', AllocObject (cc_mem s) d = Ok (obj, d', m') /\ obj <> 0 /\
    (obj ∉ Hd idx) /\ (obj ∉ g_T G idx) /\
    cc_inv (put_span s a d' m') (set_free G a free') (give Hd idx {[obj]}) V /\
    free' ⊆ g_free G a /\ same_grid d d' /\ span_rep m' d' free' /\
    same_except (bitmap_words d) (cc_mem s) m' /\ exists k, 0 <= k < capacity d /\ (k ∉ free').
Proof.
  intros Hi Hidx Ha Hda Hne. destruct (ci_grid _ _ _ _ Hi idx a d Hidx Ha Hda) as (Hr & Hg & Hsz & Hcl & HD).
  destruct (AllocObject_rep (cc_mem s) d (g_free G a) Hr Hne) as (k & d' & m' & [Hk _] & -> & Hr' & Hsg & Hm).
  pose proof (sr_range _ _ _ Hr k Hk) as Hkr. pose proof (Size_range idx Hidx) as Hszr. unfold ALIGNMENT in Hszr.
  assert (Hno : ~ object s G idx (slot_addr d k)).
  { intros (b & e & l & Hb & He & Hl & Hf & Heq).
    destruct (slot_word s G Hd V Hi idx a d k (slot_addr d k)) as (Hc1 & _ & _ & E1); try done; [lia |].
    destruct (slot_word s G Hd V Hi idx b e l (slot_addr d k)) as (Hc2 & _ & _ & E2); try done; [lia |].
    pose proof (ci_cover _ _ _ _ Hi _ _ _ Hc1 Hc2) as <-. rewrite Hda in He. injection He as <-.
    apply Hf. by rewrite (slot_addr_inj d l k). }
  rewrite <- (ci_objs _ _ _ _ Hi) in Hno by done.
  exists (slot_addr d k), d', m', (g_free G a ∖ {[k]}). split; [done |]. split.
  { destruct (slot_word s G Hd V Hi idx a d k (slot_addr d k)) as (_ & _ & Hnz & _); try done. lia. }
  split; [tauto |]. split; [tauto |]. split; [| split; [set_solver | do 3 (split; [done |]); exists k; split; [done | set_solver]]].
  apply (put_span_ok s G Hd V idx a d); try done.
  - intros x. unfold give. rewrite upd_fun_eq, elem_of_union, elem_of_singleton.
    pose proof (ci_objs _ _ _ _ Hi idx x Hidx) as Hobj. split.
    + intros [[Hx | ->] | Hx].
      * destruct (proj1 Hobj (or_introl Hx)) as (b & e & l & Hb & He & Hl & Hf & ->).
        destruct (decide (b = a)) as [-> |]; [left | right; by exists b, e, l].
        rewrite Hda in He. injection He as <-. exists l. split; [done |]. split; [| done]. set_solver.
      * left. exists k. split; [done |]. split; [| done]. set_solver.
      * destruct (proj1 Hobj (or_intror Hx)) as (b & e & l & Hb & He & Hl & Hf & ->).
        destruct (decide (b = a)) as [-> |]; [left | right; by exists b, e, l].
        rewrite Hda in He. injection He as <-. exists l. split; [done |]. split; [| done]. set_solver.
    + intros [(l & Hl & Hf & ->) | (b & e & l & Hb & Hbl & He & Hl & Hf & ->)].
      * destruct (decide (l = k)) as [-> | Hlk]; [tauto |].
        assert (slot_addr d l ∈ Hd idx \/ slot_addr d l ∈ g_T G idx); [| tauto].
        apply Hobj. exists a, d, l. do 3 (split; [done |]). split; [| done]. set_solver.
      * assert (slot_addr e l ∈ Hd idx \/ slot_addr e l ∈ g_T G idx); [| tauto].
        apply Hobj. by exists b, e, l.
  - intros j Hj. unfold give. by rewrite upd_fun_ne.
  - intros x Hx. unfold give. rewrite upd_fun_eq, elem_of_union, elem_of_singleton.
    pose proof (ci_apart _ _ _ _ Hi idx x Hidx Hx). intros [? | ->]; tauto.
Qed.

(** An object goes back to the bitmap of its span. *)
Lemma free_step s G Hd V idx x :
  cc_inv s G Hd V -> is_class idx -> x ∈ Hd idx ->
  exists a d k d' m', pm_lookup (pc_map (cc_pages s)) (Z.shiftr x PAGE_SHIFT) = a /\ a <> 0 /\
    a ∈ g_B G idx /\ cc_spans s !! a = Some d /\ 0 <= k < capacity d /\ (k ∉ g_free G a) /\
    FreeObject (cc_mem s) d x = Ok (d', m') /\
    cc_inv (put_span s a d' m') (set_free G a ({[k]} ∪ g_free G a)) (take_back Hd idx {[x]}) V /\
    same_grid d d' /\ span_rep m' d' ({[k]} ∪ g_free G a) /\
    same_except (bitmap_words d) (cc_mem s) m'.
Proof.
  intros Hi Hidx Hx.
  destruct (object_in _ _ _ _ Hi idx x Hidx (or_introl Hx)) as (a & d & k & Ha & Hda & Hk & Hf & ->).
  destruct (ci_grid _ _ _ _ Hi idx a d Hidx Ha Hda) as (Hr & Hg & Hsz & Hcl & HD).
  pose proof (Size_range idx Hidx) as Hszr. unfold ALIGNMENT in Hszr.
  destruct (slot_word s G Hd V Hi idx a d k (slot_addr d k)) as (Hc & _ & Hnz & E1); try done; [lia |].
  destruct (FreeObject_rep (cc_mem s) d (g_free G a) k Hr Hk Hf) as (d' & m' & Hfree & Hr' & Hsg & Hm).
  pose proof (ci_pages _ _ _ _ Hi) as Hpi. pose proof Hc as (st & n & HDa & Hpr).
  destruct (co_geom _ _ _ _ _ _ _ (pi_core _ _ _ _ _ _ _ Hpi) _ _ _ HDa) as [Ha0 _ Hst _ _ _ _].
  exists a, d, k, d', m'. split.
  { rewrite page_unshift_spec. apply (pi_maps _ _ _ _ _ _ _ Hpi); [lia | done | done]. }
  do 6 (split; [done |]). split; [| split; [done |]; split; done].
  apply (put_span_ok s G Hd V idx a d); try done.
  - intros y. unfold take_back. rewrite upd_fun_eq, elem_of_difference, elem_of_singleton.
    pose proof (ci_objs _ _ _ _ Hi idx y Hidx) as Hobj. split.
    + intros Hy. assert (Hy2 : y ∈ Hd idx \/ y ∈ g_T G idx) by tauto.
      assert (Hyne : y <> slot_addr d k).
      { intros ->. destruct Hy as [? | Hy]; [tauto |]. by apply (ci_apart _ _ _ _ Hi idx _ Hidx Hy). }
      destruct (proj1 Hobj Hy2) as (b & e & l & Hb & He & Hl & Hfl & ->).
      destruct (decide (b = a)) as [-> |]; [left | right; by exists b, e, l].
      rewrite Hda in He. injection He as <-. exists l. split; [done |]. split; [| done]. rewrite elem_of_union, elem_of_singleton.
      intros [-> | ?]; done.
    + intros [(l & Hl & Hfl & ->) | (b & e & l & Hne & Hb & He & Hl & Hfl & ->)].
      * apply not_elem_of_union in Hfl as [Hlk Hfl]. rewrite elem_of_singleton in Hlk.
        assert (Hobj1 : slot_addr d l ∈ Hd idx \/ slot_addr d l ∈ g_T G idx).
        { apply Hobj. by exists a, d, l. }
        destruct Hobj1 as [? | ?]; [left | by right]. split; [done |]. intros Heq. by apply Hlk, (slot_addr_inj d).
      * assert (Hobj1 : slot_addr e l ∈ Hd idx \/ slot_addr e l ∈ g_T G idx).
        { apply Hobj. by exists b, e, l. }
        destruct Hobj1 as [? | ?]; [left | by right]. split; [done |]. intros Heq.
        destruct (slot_word s G Hd V Hi idx b e l (slot_addr d k)) as (Hc2 & _); try done; [lia |].
        apply Hne. by eapply ci_cover.
  - intros j Hj. unfold take_back. by rewrite upd_fun_ne.
  - intros y Hy. unfold take_back. rewrite upd_fun_eq, elem_of_difference.
    pose proof (ci_apart _ _ _ _ Hi idx y Hidx Hy). tauto.
Qed.

(** *** Writing links in objects *)

Lemma links_ok s G Hd V ls m' :
  cc_inv s G Hd V -> same_except ls (cc_mem s) m' ->
  (forall x, x ∈ ls -> exists idx, is_class idx /\ (x ∈ Hd idx \/ x ∈ g_T G idx)) ->
  cc_inv (with_mem s m') G Hd V.
Proof.
  intros Hi Hm Hls.
  assert (Hout : forall w, (forall idx x, is_class idx -> x ∈ Hd idx \/ x ∈ g_T G idx -> w <> x) -> m' !! w = cc_mem s !! w).
  { intros w Hw. apply Hm. intros Hin. destruct (Hls w Hin) as (idx & Hidx & Hx). by apply (Hw idx w). }
  assert (Hrange : forall idx x, is_class idx -> x <= x < x + Size idx).
  { intros idx x Hidx. pose proof (Size_range idx Hidx) as Hsz. unfold ALIGNMENT in Hsz. lia. }
  constructor; cbn; try apply Hi.
  - intros idx a Hidx Ha. destruct (ci_span _ _ _ _ Hi idx a Hidx Ha) as (d & Hd' & Hr & ?).
    exists d. split; [done |]. split; [| done]. eapply span_rep_mem; [| exact Hr]. intros w Hw. apply Hout.
    intros j x Hj Hx ->. destruct (object_word _ _ _ _ Hi j x Hj Hx) as (b & Hb & _ & Hob).
    destruct (Hob x (Hrange j x Hj)) as [Hc Hnb].
    assert (a = b) as <- by (eapply ci_cover; [done | by eapply (bitmap_word_cover s G Hd V Hi idx a d) | done]).
    by apply (Hnb d Hd').
  - intros j Hj. eapply tc_rep_mem; [| by apply (ci_tc _ _ _ _ Hi j Hj)]. intros w Hw. apply Hout.
    intros i x Hci Hx ->. destruct (object_word _ _ _ _ Hi i x Hci Hx) as (b & Hb & _ & Hob).
    destruct (Hob x (Hrange i x Hci)) as [Hc _].
    by eapply cover_not_static, (ci_slice _ _ _ _ Hi j).
Qed.

(** Objects handed out after [Hd0], or in a transfer cache, are not the clients'. *)
Lemma user_not_other s G Hd V (Hd0 : held) V0 idx x w :
  cc_inv s G Hd V -> (forall j, is_class j -> Hd0 j ⊆ Hd j) -> V0 ⊆ V ->
  is_class idx -> x ∈ Hd idx \/ x ∈ g_T G idx -> (x ∉ Hd0 idx) -> user_word Hd0 V0 w -> w <> x.
Proof.
  intros Hi HH HV Hidx Hx Hx0 Hw ->. pose proof (Size_range idx Hidx) as Hsz. unfold ALIGNMENT in Hsz.
  destruct Hw as [(j & y & Hj & Hy & Hr) | (v & st & n & Hv & Hp)].
  - destruct (objects_apart _ _ _ _ Hi idx j x y x) as [<- <-]; try done; [left; by apply HH | lia].
  - destruct (object_word _ _ _ _ Hi idx x Hidx Hx) as (b & Hb & _ & Hob).
    destruct (Hob x) as [Hc _]; [lia |]. assert (HvV : V !! v = Some (st, n)) by (by eapply lookup_weaken).
    assert (b = v) as ->.
    { eapply ci_cover; [done | exact Hc |]. exists st, n. split; [| done]. eapply lookup_weaken; [done | apply Hi]. }
    apply (ci_out _ _ _ _ Hi idx v Hidx Hb), elem_of_dom. by eexists.
Qed.

Lemma links_undisturbed s G Hd V (Hd0 : held) V0 ls m' :
  cc_inv s G Hd V -> same_except ls (cc_mem s) m' ->
  (forall j, is_class j -> Hd0 j ⊆ Hd j) -> V0 ⊆ V ->
  (forall x, x ∈ ls -> exists idx, is_class idx /\ (x ∈ Hd idx \/ x ∈ g_T G idx) /\ (x ∉ Hd0 idx)) ->
  undisturbed Hd0 V0 s (with_mem s m').
Proof.
  intros Hi Hm HH HV Hls. constructor; [| done]. cbn. intros w Hw. apply Hm. intros Hin.
  destruct (Hls w Hin) as (idx & Hidx & Hx & Hx0).
  by apply (user_not_other s G Hd V Hd0 V0 idx w w Hi HH HV Hidx Hx Hx0 Hw).
Qed.

(** *** Clients writing in what they hold *)

Lemma user_writes_ok s G Hd V m' :
  cc_inv s G Hd V -> (forall w, ~ user_word Hd V w -> m' !! w = cc_mem s !! w) -> cc_inv (with_mem s m') G Hd V.
Proof.
  intros Hi Hm. constructor; cbn; try apply Hi.
  - intros idx a Hidx Ha. destruct (ci_span _ _ _ _ Hi idx a Hidx Ha) as (d & Hd' & Hr & ?).
    exists d. split; [done |]. split; [| done]. eapply span_rep_mem; [| exact Hr]. intros w Hw. apply Hm. intros Hu.
    by apply (user_not_bitmap _ _ _ _ Hi idx a d w Hu Hidx Ha Hd').
  - intros j Hj. eapply tc_rep_mem; [| by apply (ci_tc _ _ _ _ Hi j Hj)]. intros w Hw. apply Hm. intros Hu.
    by apply (user_not_tc _ _ _ _ Hi j w Hu Hj).
Qed.
Lemma user_write_ok s G Hd V w v :
  cc_inv s G Hd V -> user_word Hd V w -> cc_inv (with_mem s (<[w := v]> (cc_mem s))) G Hd V.
Proof. intros Hi Hw. apply user_writes_ok; [done |]. intros x Hx. apply lookup_insert_ne. by intros <-. Qed.

(** *** The transfer caches *)

Lemma bucket_ok s G Hd V idx b' m' T' Hd' :
  cc_inv s G Hd V -> is_class idx -> same_slice (cc_buckets s idx) b' -> tc_rep m' b' T' ->
  (forall w, ~ tc_word (cc_buckets s idx) w -> m' !! w = cc_mem s !! w) ->
  (forall x, x ∈ Hd' idx \/ x ∈ T' <-> x ∈ Hd idx \/ x ∈ g_T G idx) ->
  (forall j, j <> idx -> Hd' j = Hd j) -> NoDup T' -> (forall x, x ∈ T' -> x ∉ Hd' idx) ->
  cc_inv (with_bucket (with_mem s m') idx b') (set_T G idx T') Hd' V.
Proof.
  intros Hi Hidx Hsl Ht Hm Hobj Hoth Hnd Hap.
  assert (Hbm : forall j a d w, is_class j -> a ∈ g_B G j -> cc_spans s !! a = Some d -> w ∈ bitmap_words d ->
            m' !! w = cc_mem s !! w).
  { intros j a d w Hj Ha Hda Hw. apply Hm. intros Htc.
    eapply cover_not_static; [exact Hi | by eapply (bitmap_word_cover s G Hd V Hi j a d) |].
    by apply (ci_slice _ _ _ _ Hi idx). }
  assert (Hw : forall j w, tc_word (upd_bucket (cc_buckets s) idx b' j) w <-> tc_word (cc_buckets s j) w).
  { intros j w. unfold upd_bucket. case_decide as Hj; [subst j; by apply same_slice_word | done]. }
  constructor; cbn; try apply Hi.
  - intros j a Hj Ha. destruct (ci_span _ _ _ _ Hi j a Hj Ha) as (d & Hd2 & Hr & ?).
    exists d. split; [done |]. split; [| done]. eapply span_rep_mem; [| exact Hr]. intros w. by apply (Hbm j a d).
  - intros j x Hj. change (object _ _ j x) with (object s G j x). rewrite <- (ci_objs _ _ _ _ Hi j x Hj).
    destruct (decide (j = idx)) as [-> | Hne]; [by rewrite upd_fun_eq | by rewrite upd_fun_ne, Hoth by done].
  - intros j Hj. destruct (decide (j = idx)) as [-> | Hne]; [by rewrite upd_fun_eq |].
    rewrite upd_fun_ne by done. by apply (ci_once _ _ _ _ Hi).
  - intros j x Hj. destruct (decide (j = idx)) as [-> | Hne]; [rewrite upd_fun_eq; by apply Hap |].
    rewrite upd_fun_ne, Hoth by done. by apply (ci_apart _ _ _ _ Hi).
  - intros j Hj. unfold upd_bucket. case_decide as Hne; [subst j; by rewrite upd_fun_eq |].
    rewrite upd_fun_ne by done. eapply tc_rep_mem; [| by apply (ci_tc _ _ _ _ Hi)]. intros w Hwj. apply Hm.
    by apply (ci_slices _ _ _ _ Hi j idx).
  - intros j w Hj. rewrite Hw. by apply (ci_slice _ _ _ _ Hi).
  - intros i j w Hci Hcj Hne. rewrite !Hw. by apply (ci_slices _ _ _ _ Hi).
Qed.

Lemma bucket_undisturbed s G Hd V idx b' m' (Hd0 : held) V0 :
  cc_inv s G Hd V -> is_class idx ->
  (forall w, ~ tc_word (cc_buckets s idx) w -> m' !! w = cc_mem s !! w) ->
  (forall j, is_class j -> Hd0 j ⊆ Hd j) -> V0 ⊆ V ->
  undisturbed Hd0 V0 s (with_bucket (with_mem s m') idx b').
Proof.
  intros Hi Hidx Hm HH HV. apply (undisturbed_mono Hd0 Hd V0 V); [done | done |]. constructor; [| done]. cbn.
  intros w Hw. apply Hm. by eapply user_not_tc.
Qed.

(** *** Moving spans *)

(** The list of one bucket changes; spans may enter from [V] or leave to it. *)
Lemma relist_ok s G Hd V idx l' st' ls V' :
  cc_inv s G Hd V -> is_class idx -> dll st' (bucket_head idx) l' ->
  same_data (cc_spans s) st' -> spans_frame ls (cc_spans s) st' ->
  (forall b, b ∈ ls -> b = bucket_head idx \/ b ∈ g_B G idx \/ b ∈ dom V) ->
  (forall b, b ∈ l' -> b ∈ g_B G idx \/ span_in s G idx b) ->
  (forall b, b ∈ dom V' \/ b ∈ l' <-> b ∈ dom V \/ b ∈ g_B G idx) ->
  (forall b, b ∈ l' -> b ∉ dom V') -> V' ⊆ g_D G ->
  (forall x, object s (set_B G idx l') idx x <-> object s G idx x) ->
  cc_inv (with_descs s st') (set_B G idx l') Hd V'.
Proof.
  intros Hi Hidx Hl Hsd Hf Hls Hin Hus Hout HV' Hobj.
  assert (HlsU : forall b, b ∈ ls -> b = bucket_head idx \/ b ∈ g_U G).
  { intros b [-> | [Hb | Hb]]%Hls; [by left | right..]; apply (ci_used _ _ _ _ Hi); eauto. }
  assert (Hspan : forall j b, is_class j -> span_in s G j b -> span_in (with_descs s st') (set_B G idx l') j b).
  { intros j b Hj (d & Hd' & Hr & Hcl & HD & HU). destruct (same_data_desc _ _ _ _ Hsd Hd') as (d' & Hd2 & Eq).
    exists d'. split; [done |]. rewrite Eq. cbn. split; [by apply span_rep_links | done]. }
  assert (Hob : forall G' j x, object (with_descs s st') G' j x <-> object s G' j x).
  { intros G' j x. split; intros (b & d & k & Hb & Hd' & Hk & Hfk & ->).
    - destruct (same_data_grid st' (cc_spans s) b d) as (e & He & Hcap & Hsl); [by intros c; rewrite (Hsd c) | exact Hd' |].
      exists b, e, k. rewrite Hcap, Hsl. done.
    - destruct (same_data_grid _ _ b d Hsd Hd') as (e & He & Hcap & Hsl). exists b, e, k. rewrite Hcap, Hsl. done. }
  constructor; cbn; try apply Hi.
  - apply (pc_inv_desc (cc_pages s)); [apply Hi | |].
    + intros b HbU Hb. apply Hf. intros Hbl. destruct (HlsU b Hbl) as [-> | ?]; [| done].
      destruct Hb as [Hb | Hb]; [by eapply ci_head_dom | by apply (ci_head _ _ _ _ Hi idx)].
    + intros b d Hb Hd'. destruct (same_data_desc _ _ _ _ Hsd Hd') as (d' & Hd2 & Eq).
      exists d'. split; [done |]. by rewrite Eq.
  - intros j Hj. destruct (decide (j = idx)) as [-> | Hne]; [by rewrite upd_fun_eq |]. rewrite upd_fun_ne by done.
    eapply dll_frame; [exact Hf | | by apply (ci_list _ _ _ _ Hi)]. intros b Hb Hbl.
    destruct (Hls b Hbl) as [-> | Hb2].
    + apply elem_of_cons in Hb as [Hb | Hb]; [by apply ci_head_inj in Hb |].
      eapply ci_head_dom; [exact Hi | exact Hidx |]. eapply ci_used_dom, (ci_B_used _ _ _ _ j); done.
    + assert (HbU : b ∈ dom (g_D G)).
      { eapply ci_used_dom; [done |]. apply (ci_used _ _ _ _ Hi). destruct Hb2; eauto. }
      apply elem_of_cons in Hb as [-> | Hb]; [by eapply ci_head_dom |].
      destruct Hb2 as [Hb2 | Hb2]; [by apply Hne; eapply ci_class | by eapply ci_out].
  - intros j b Hj. destruct (decide (j = idx)) as [-> | Hne].
    + rewrite upd_fun_eq. intros [Hb | Hb]%Hin; apply Hspan; try done. by apply (ci_span _ _ _ _ Hi).
    + rewrite upd_fun_ne by done. intros Hb. apply Hspan; [done |]. by apply (ci_span _ _ _ _ Hi).
  - intros j x Hj. rewrite Hob, (ci_objs _ _ _ _ Hi j x Hj). destruct (decide (j = idx)) as [-> | Hne]; [by rewrite Hobj |].
    unfold object. cbn. by rewrite upd_fun_ne.
  - intros a. rewrite (ci_used _ _ _ _ Hi a). split.
    + intros Ha. destruct (decide (a ∈ dom V \/ a ∈ g_B G idx)) as [Hin2 | Hno].
      * apply Hus in Hin2 as [Ha2 | Ha2]; [by left | right]. exists idx. by rewrite upd_fun_eq.
      * destruct Ha as [Ha | (j & Hj & Ha)]; [tauto | right]. exists j. rewrite upd_fun_ne; [done |]. intros ->. tauto.
    + intros [Ha | (j & Hj & Ha)].
      * destruct (proj1 (Hus a) (or_introl Ha)) as [? | ?]; [by left | right; eauto].
      * destruct (decide (j = idx)) as [-> | Hne].
        -- rewrite upd_fun_eq in Ha. destruct (proj1 (Hus a) (or_intror Ha)) as [? | ?]; [by left | right; eauto].
        -- rewrite upd_fun_ne in Ha by done. right; eauto.
  - done.
  - intros j a Hj. destruct (decide (j = idx)) as [-> | Hne]; [rewrite upd_fun_eq; by apply Hout |].
    rewrite upd_fun_ne by done. intros Ha HV.
    destruct (proj1 (Hus a) (or_introl HV)) as [? | Ha2]; [by eapply ci_out | by apply Hne; eapply ci_class].
Qed.

Lemma relist_undisturbed s G Hd V idx st' ls (Hd0 : held) V0 :
  cc_inv s G Hd V -> is_class idx -> spans_frame ls (cc_spans s) st' ->
  (forall b, b ∈ ls -> b = bucket_head idx \/ b ∈ g_B G idx \/ b ∉ dom V0) -> V0 ⊆ V ->
  undisturbed Hd0 V0 s (with_descs s st').
Proof.
  intros Hi Hidx Hf Hls HV. constructor; [done |]. intros v Hv. cbn. apply Hf. intros Hb.
  assert (HvV : v ∈ dom V) by (by apply (subseteq_dom V0 V)).
  destruct (Hls v Hb) as [-> | [Hb2 | Hb2]]; [| by eapply ci_out | done].
  eapply ci_head_dom; [exact Hi | exact Hidx |]. eapply ci_used_dom; [done |]. apply (ci_used _ _ _ _ Hi). by left.
Qed.

(** *** Calls into the page cache *)

Definition set_pages G (D : runs) (U R N : gset Z) (L : Z -> list Z) : ghost :=
  mkGhost D U (g_K G) R N L (g_B G) (g_T G) (g_free G) (g_cap G).

(** A call that leaves the descriptors in [U0] alone, among them all those on
    bucket lists. *)
Lemma pages_ok s G Hd V p' D' U' R' N' L' U0 V' :
  cc_inv s G Hd V -> pc_inv p' D' U' (g_K G) R' N' L' ->
  kept U0 (g_K G) (pc_spans (cc_pages s)) (pc_spans p') ->
  (forall idx a, is_class idx -> a ∈ g_B G idx -> a ∈ U0 /\ D' !! a = g_D G !! a) ->
  (forall a, a ∈ U' <-> a ∈ dom V' \/ exists idx, is_class idx /\ a ∈ g_B G idx) ->
  V' ⊆ D' -> (forall idx a, is_class idx -> a ∈ g_B G idx -> a ∉ dom V') ->
  cc_inv (with_pages s p') (set_pages G D' U' R' N' L') Hd V'.
Proof.
  intros Hi Hp Hk HB HU HV Hout.
  assert (Hsame : forall j b, is_class j -> b ∈ g_B G j -> pc_spans p' !! b = cc_spans s !! b).
  { intros j b Hj Hb. apply Hk. left. by eapply HB. }
  assert (Hhead : forall j, is_class j -> pc_spans p' !! bucket_head j = cc_spans s !! bucket_head j).
  { intros j Hj. apply Hk. right. by apply (ci_head _ _ _ _ Hi). }
  constructor; cbn; try apply Hi; try done.
  - intros j Hj. eapply dll_ext; [| by apply (ci_list _ _ _ _ Hi)].
    intros b [-> | Hb]%elem_of_cons; [by apply Hhead | by eapply Hsame].
  - intros j a Hj Ha. destruct (ci_span _ _ _ _ Hi j a Hj Ha) as (d & Hd' & Hr & Hcl & HD & _ & Hcap).
    exists d. unfold cc_spans. cbn. rewrite (Hsame j a Hj Ha). destruct (HB j a Hj Ha) as [_ ->].
    split_and!; try done. apply HU. right. by exists j.
  - intros j x Hj. rewrite (ci_objs _ _ _ _ Hi j x Hj). unfold object, cc_spans. cbn.
    split; intros (b & d & k & Hb & Hd' & ?); exists b, d, k; pose proof (Hsame j b Hj Hb) as E; unfold cc_spans in E.
    + by rewrite E.
    + by rewrite <- E.
Qed.

(** What an allocation from the page cache gives. *)
Record got_span s G Hd V (num a : Z) p' (start : Z) (d : Span) G' : Prop := {
  gs_null : a <> 0;
  gs_inv : cc_inv (with_pages s p') G' Hd (<[a := (start, num)]> V);
  gs_new : a ∉ dom V;
  gs_desc : pc_spans p' !! a = Some d;
  gs_clean : clean d;
  gs_start : start_page_idx d = start;
  gs_num : page_num d = num;
  gs_geom : 0 < start /\ 0 < num <= UINT32_MAX /\ start + num < PAGE_LIMIT;
}.

Definition same_cc G G' : Prop := g_B G' = g_B G /\ g_T G' = g_T G /\ g_free G' = g_free G /\ g_K G' = g_K G /\
  g_cap G' = g_cap G.

Lemma same_cc_trans G1 G2 G3 : same_cc G1 G2 -> same_cc G2 G3 -> same_cc G1 G3.
Proof. unfold same_cc. intros; destruct_and!. split_and!; congruence. Qed.

Lemma AllocSpan_step s G Hd V num :
  cc_inv s G Hd V -> 0 <= num < W64 ->
  exists a p' G', AllocSpan (cc_pages s) num = Ok (a, p') /\ same_cc G G' /\
    undisturbed Hd V s (with_pages s p') /\
    (a = 0 /\ cc_inv (with_pages s p') G' Hd V \/ exists start d, got_span s G Hd V num a p' start d G').
Proof.
  intros Hi Hnum. pose proof (ci_pages _ _ _ _ Hi) as Hp.
  destruct (AllocSpan_ok _ _ _ _ _ _ _ num Hp Hnum) as (a & p' & -> & (D' & R' & N' & L' & Hp' & _ & Hk & HD & Ha) & _).
  exists a, p', (set_pages G D' (if decide (a = 0) then g_U G else {[a]} ∪ g_U G) R' N' L').
  split; [done |]. split; [done |].
  assert (HB : forall idx b, is_class idx -> b ∈ g_B G idx -> b ∈ g_U G /\ D' !! b = g_D G !! b).
  { intros j b Hj Hb. pose proof (ci_B_used _ _ _ _ _ _ Hi Hj Hb). split; [done | by apply HD]. }
  assert (HVU : dom V ⊆ g_U G) by (intros v Hv; apply (ci_used _ _ _ _ Hi); by left).
  assert (HVD : V ⊆ D').
  { apply map_subseteq_spec. intros v e Hv. rewrite HD; [| by apply HVU, elem_of_dom; eexists].
    eapply lookup_weaken; [exact Hv | apply Hi]. }
  split.
  { constructor; [done |]. intros v Hv. cbn. apply Hk. left. by apply HVU. }
  case_decide as Ha0; [left | right].
  - split; [done |]. eapply pages_ok; try done; apply Hi.
  - destruct (Ha Ha0) as (HaU & (start & HDa) & d & Hda & Hcl & _). exists start, d.
    destruct (co_desc _ _ _ _ _ _ _ (pi_core _ _ _ _ _ _ _ Hp') _ _ _ HDa) as (d2 & Hd2 & Hst & Hpn & _).
    rewrite Hda in Hd2. injection Hd2 as <-.
    destruct (co_geom _ _ _ _ _ _ _ (pi_core _ _ _ _ _ _ _ Hp') _ _ _ HDa) as [_ _ ? ? ? _ _].
    constructor; try done; [| intros HaV; by apply HaU, HVU].
    eapply pages_ok; try done.
    + intros b. rewrite dom_insert_L, !elem_of_union, elem_of_singleton, (ci_used _ _ _ _ Hi b). tauto.
    + apply insert_subseteq_l; done.
    + intros j b Hj Hb. rewrite dom_insert_L, elem_of_union, elem_of_singleton. intros [-> | HbV].
      * apply HaU. by eapply ci_B_used.
      * by eapply ci_out.
Qed.

(** A span on no list goes back to the page cache. *)
Lemma ReleaseSpan_step s G Hd V a e :
  cc_inv s G Hd V -> V !! a = Some e ->
  exists p' G', ReleaseSpan (cc_pages s) a = Ok p' /\ same_cc G G' /\
    cc_inv (with_pages s p') G' Hd (delete a V) /\ undisturbed Hd (delete a V) s (with_pages s p').
Proof.
  intros Hi Ha. pose proof (ci_pages _ _ _ _ Hi) as Hp. destruct e as [start num].
  assert (HaV : a ∈ dom V) by (apply elem_of_dom; by eexists).
  assert (HaU : a ∈ g_U G) by (apply (ci_used _ _ _ _ Hi); by left).
  assert (HDa : g_D G !! a = Some (start, num)) by (eapply lookup_weaken; [done | apply Hi]).
  destruct (ReleaseSpan_ok _ _ _ _ _ _ _ a start num Hp HaU HDa) as (p' & D' & R' & L' & -> & Hp' & Hrel).
  assert (HB : forall idx b, is_class idx -> b ∈ g_B G idx -> b ∈ g_U G ∖ {[a]} /\ D' !! b = g_D G !! b).
  { intros j b Hj Hb. pose proof (ci_B_used _ _ _ _ _ _ Hi Hj Hb) as HbU.
    assert (b <> a) by (intros ->; by eapply ci_out). split; [| by apply (rl_used _ _ _ _ _ _ _ _ _ _ _ Hrel)].
    apply elem_of_difference. split; [done |]. by rewrite elem_of_singleton. }
  exists p', (set_pages G D' (g_U G ∖ {[a]}) R' (g_N G) L'). split; [done |]. split; [done |].
  assert (Hother : forall v, v ∈ dom (delete a V) -> v <> a /\ v ∈ g_U G).
  { intros v. rewrite dom_delete_L, elem_of_difference, elem_of_singleton. intros [Hv Hne].
    split; [done |]. apply (ci_used _ _ _ _ Hi). by left. }
  split.
  - eapply pages_ok; [done | done | apply Hrel | done | | |].
    + intros b. rewrite dom_delete_L, !elem_of_difference, elem_of_singleton, (ci_used _ _ _ _ Hi b).
      split; [tauto |]. intros [? | (j & Hj & Hb)]; [tauto |]. split; [eauto |]. intros ->. by eapply ci_out.
    + apply map_subseteq_spec. intros v e Hv. destruct (Hother v) as [Hne HvU]; [apply elem_of_dom; by eexists |].
      rewrite (rl_used _ _ _ _ _ _ _ _ _ _ _ Hrel) by done. apply lookup_delete_Some in Hv as [_ Hv].
      eapply lookup_weaken; [done | apply Hi].
    + intros j b Hj Hb. rewrite dom_delete_L, elem_of_difference. intros [HbV _]. by eapply ci_out.
  - constructor; [done |]. intros v Hv. cbn. apply (rl_kept _ _ _ _ _ _ _ _ _ _ _ Hrel). left.
    destruct (Hother v Hv). apply elem_of_difference. by rewrite elem_of_singleton.
Qed.

(** The client sets only matter on the classes. *)
Lemma cc_inv_held s G (Hd Hd' : held) V :
  (forall idx, is_class idx -> Hd' idx = Hd idx) -> cc_inv s G Hd V -> cc_inv s G Hd' V.
Proof.
  intros Heq Hi. constructor; try apply Hi.
  - intros j x Hj. rewrite Heq by done. by apply (ci_objs _ _ _ _ Hi).
  - intros j x Hj. rewrite Heq by done. by apply (ci_apart _ _ _ _ Hi).
Qed.
End Steps.
