(* ===== verification/CentralRelease.v ===== *)
(** * Giving objects back to the central cache

    [ReleaseBatch]: the objects of a batch enter the transfer cache as long as it
    has room, the rest go back to the bitmaps of their spans; a span whose last
    object came back leaves its bucket and is released to the page cache after
    the bucket's mutex is dropped. *)
From S2P Require Import Prelude Config SizeClass FreeList Common Span SpanList Backing PageMap PageCache PageCacheInv.
From S2P Require Import PageCacheAlloc PageCacheMerge PageCacheRelease CentralCache CentralInv CentralSteps.
Open Scope Z_scope.

(** Spans with a free slot come before the full ones. *)
Definition tidy_list (free : Z -> gset Z) (l : list Z) : Prop :=
  StronglySorted (fun a b => free a = ∅ -> free b = ∅) l.
(** And a span that is on a bucket's list holds an object. *)
Definition busy (G : ghost) (a : Z) : Prop := exists k, 0 <= k < g_cap G a /\ (k ∉ g_free G a).
Definition tidy (G : ghost) : Prop :=
  forall idx, is_class idx -> tidy_list (g_free G) (g_B G idx) /\ forall a, a ∈ g_B G idx -> busy G a.

Lemma tidy_sorted G idx : tidy G -> is_class idx -> tidy_list (g_free G) (g_B G idx).
Proof. intros Ht Hidx. by apply Ht. Qed.
Lemma tidy_busy G idx a : tidy G -> is_class idx -> a ∈ g_B G idx -> busy G a.
Proof. intros Ht Hidx. by apply Ht. Qed.

Lemma busy_other G a F b : b <> a -> busy G b -> busy (set_free G a F) b.
Proof. intros Hne (k & Hk & Hf). exists k. cbn. by rewrite upd_fun_ne. Qed.
Lemma busy_sub G G' a : g_cap G' a = g_cap G a -> g_free G' a ⊆ g_free G a -> busy G a -> busy G' a.
Proof. intros Hc Hf (k & Hk & Hkf). exists k. rewrite Hc. set_solver. Qed.
Lemma tidy_kept G G' : g_B G' = g_B G -> g_free G' = g_free G -> g_cap G' = g_cap G -> tidy G -> tidy G'.
Proof. intros HB Hf Hc Ht idx Hidx. unfold busy. rewrite HB, Hf, Hc. by apply Ht. Qed.
Lemma tidy_same G G' : same_cc G G' -> tidy G -> tidy G'.
Proof. intros (HB & _ & Hf & _ & Hc). by apply tidy_kept. Qed.

Lemma tidy_ext free free' l : (forall a, a ∈ l -> free' a = ∅ <-> free a = ∅) -> tidy_list free l -> tidy_list free' l.
Proof.
  unfold tidy_list. induction l as [| a l IH]; intros Heq; [constructor |].
  rewrite !StronglySorted_cons, !Forall_forall. intros [Ha Hl]. split; [| apply IH; [| done]; set_solver].
  intros b Hb Hf. apply Heq; [by right |]. apply Ha; [done |]. apply Heq; [by left | done].
Qed.

Lemma tidy_remove free l1 a l2 : tidy_list free (l1 ++ a :: l2) -> tidy_list free (l1 ++ l2).
Proof.
  unfold tidy_list. rewrite !StronglySorted_app, StronglySorted_cons. intros (H1 & H2 & _ & H3).
  split_and!; try done. intros x y Hx Hy. apply H1; [done | by right].
Qed.

Lemma tidy_front free a l : free a <> ∅ -> tidy_list free l -> tidy_list free (a :: l).
Proof. unfold tidy_list. rewrite StronglySorted_cons, Forall_forall. intros Ha Hl. by split. Qed.

Lemma tidy_back free a l : free a = ∅ -> tidy_list free l -> tidy_list free (l ++ [a]).
Proof.
  unfold tidy_list. rewrite StronglySorted_app. intros Ha Hl. split_and!; [| done | by repeat constructor].
  intros x y _ ->%list_elem_of_singleton. done.
Qed.

Section Release.
Context `{BackingLaws W} `{StaticLayout} `{CentralLayout}.
Implicit Types (s : CentralCache W) (G : ghost) (V : runs) (Hd : held).

(** *** Bookkeeping *)

Lemma take_back_app Hd idx l1 l2 j :
  take_back (take_back Hd idx (list_to_set l1)) idx (list_to_set l2) j = take_back Hd idx (list_to_set (l1 ++ l2)) j.
Proof.
  unfold take_back. destruct (decide (j = idx)) as [-> | Hne]; [rewrite !upd_fun_eq | by rewrite !upd_fun_ne].
  rewrite list_to_set_app_L. set_solver.
Qed.

Lemma take_back_sub Hd idx X j : take_back Hd idx X j ⊆ Hd j.
Proof. unfold take_back, upd_fun. case_decide as E; [subst j |]; set_solver. Qed.

Lemma cc_inv_stats s G Hd V c n : cc_inv s G Hd V -> cc_inv (cc_add c n s) G Hd V.
Proof. intros []. by constructor. Qed.
Lemma undisturbed_stats Hd V c n s s' : undisturbed Hd V s s' -> undisturbed Hd V s (cc_add c n s').
Proof. intros []. by constructor. Qed.

(** The use count of a span tells how many slots are free. *)
Lemma free_full m d free : span_rep m d free -> use_count d = 0 -> forall k, 0 <= k < capacity d -> k ∈ free.
Proof.
  intros Hr Hu. pose proof (sr_count _ _ _ Hr) as Hc. pose proof (gw_capacity _ (sr_grid _ _ _ Hr)).
  assert (free = all_slots (capacity d)) as ->.
  { apply set_subseteq_size_eq; [| apply Nat2Z.inj_le; rewrite size_all_slots; lia].
    intros k Hk. apply elem_of_all_slots. by eapply sr_range. }
  intros k Hk. by apply elem_of_all_slots.
Qed.

Lemma free_some m d free : span_rep m d free -> use_count d <> 0 -> exists k, 0 <= k < capacity d /\ (k ∉ free).
Proof.
  intros Hr Hu. destruct (set_choose_or_empty (all_slots (capacity d) ∖ free)) as [[k Hk] | He].
  - apply elem_of_difference in Hk as [Hk Hf]. exists k. by apply elem_of_all_slots in Hk.
  - exfalso. apply Hu. rewrite (sr_count _ _ _ Hr). pose proof (gw_capacity _ (sr_grid _ _ _ Hr)).
    assert (free = all_slots (capacity d)) as ->; [| rewrite size_all_slots; lia].
    apply set_eq. intros k. split; [intros Hk; apply elem_of_all_slots; by eapply sr_range | set_solver].
Qed.

Lemma free_one m d free k : span_rep m d ({[k]} ∪ free) -> (k ∉ free) -> use_count d <> u32 (capacity d - 1) -> free <> ∅.
Proof.
  intros Hr Hk Hu ->. apply Hu. pose proof (sr_count _ _ _ Hr) as Hc. pose proof (gw_capacity _ (sr_grid _ _ _ Hr)).
  unfold UINT32_MAX in *. rewrite union_empty_r_L, size_singleton in Hc. rewrite u32_id; lia.
Qed.

Lemma dll_other st h l1 a l2 : dll st h (l1 ++ a :: l2) -> a ∉ h :: l1 ++ l2.
Proof.
  intros Hl. pose proof (proj1 (proj2 Hl)) as Hnd. rewrite app_comm_cons in Hnd. apply NoDup_app in Hnd as (Hn0 & Hn1 & Hn2).
  apply NoDup_cons in Hn2 as [Hal2 _]. rewrite app_comm_cons, elem_of_app. intros [Hin | Hin]; [| done].
  by apply (Hn1 a Hin); left.
Qed.

(** *** A span whose slots are all free leaves its bucket *)

Lemma erase_step s G Hd V idx a d next :
  cc_inv s G Hd V -> is_class idx -> a ∈ g_B G idx -> cc_spans s !! a = Some d ->
  (forall k, 0 <= k < capacity d -> k ∈ g_free G a) ->
  exists n st1 st2 l1 l2, g_B G idx = l1 ++ a :: l2 /\
    erase (cc_spans s) (bucket_head idx) a = Ok (n, st1) /\ set_next st1 a next = Ok st2 /\ a <> 0 /\
    cc_inv (with_descs s st2) (set_B G idx (l1 ++ l2)) Hd (<[a := (start_page_idx d, page_num d)]> V) /\
    (a ∉ dom V) /\ (exists d', st2 !! a = Some d' /\ sp_next d' = next) /\
    forall Hd0 V0, V0 ⊆ V -> undisturbed Hd0 V0 s (with_descs s st2).
Proof.
  intros Hi Hidx Ha Hda Hall. pose proof (ci_list _ _ _ _ Hi idx Hidx) as Hl.
  destruct (list_elem_of_split _ _ Ha) as (l1 & l2 & HB). rewrite HB in Hl.
  destruct (erase_dll _ _ _ _ _ Hl) as (st1 & Her & Hl1 & _ & _ & Hsd1 & Hf1).
  destruct (dll_mapped _ _ _ a Hl) as [Ha0 _]; [set_solver |].
  destruct (same_data_desc _ _ _ _ Hsd1 Hda) as (d1 & Hd1 & Eq1).
  destruct (set_next_ok st1 a next) as (st2 & Hsn & Hn2 & _ & Hsd2 & Hf2); [done | by eexists |].
  exists (default (bucket_head idx) (head l2)), st1, st2, l1, l2. do 4 (split; [done |]).
  assert (HaV : a ∉ dom V) by (by eapply ci_out).
  assert (Hanl : a ∉ bucket_head idx :: l1 ++ l2).
  { by eapply dll_other. }
  assert (Hl2 : dll st2 (bucket_head idx) (l1 ++ l2)).
  { eapply dll_frame; [exact Hf2 | | done]. intros b Hb ->%list_elem_of_singleton. done. }
  assert (Hsd : same_data (cc_spans s) st2) by (intros b; by rewrite Hsd2).
  assert (Hf : spans_frame (bucket_head idx :: l1 ++ a :: l2) (cc_spans s) st2).
  { intros b Hb. rewrite Hf2, Hf1; [done | done |]. intros ->%list_elem_of_singleton. set_solver. }
  assert (HDa : g_D G !! a = Some (start_page_idx d, page_num d)) by (by eapply (ci_grid s G Hd V)).
  split; [| split; [done | split]].
  - eapply relist_ok; try done.
    + intros b [-> | Hb]%elem_of_cons; [by left | right; left; by rewrite HB].
    + intros b Hb. left. rewrite HB. set_solver.
    + intros b. rewrite dom_insert_L, HB. set_solver.
    + intros b Hb. rewrite dom_insert_L, elem_of_union, elem_of_singleton. intros [-> | HbV]; [set_solver |].
      eapply (ci_out _ _ _ _ Hi idx b Hidx); [rewrite HB; set_solver | done].
    + apply insert_subseteq_l; [done | apply Hi].
    + intros x. unfold object. cbn. rewrite upd_fun_eq, HB. split; intros (b & e & k & Hb & He & Hk & Hfk & ->).
      * exists b, e, k. set_solver.
      * exists b, e, k. split; [| done]. assert (b <> a); [| set_solver]. intros ->.
        rewrite Hda in He. injection He as <-. by apply Hfk, Hall.
  - unfold next_of in Hn2. specialize (Hn2 a). rewrite decide_True in Hn2 by done.
    destruct (st2 !! a) as [d2 |]; [| done]. exists d2. split; [done |]. by injection Hn2.
  - intros Hd0 V0 HV. eapply relist_undisturbed; [done | done | exact Hf | | done].
    intros b [-> | Hb]%elem_of_cons; [by left | right; left; by rewrite HB].
Qed.

(** A span moves to the front of its list. *)
Lemma to_front_step s G Hd V idx a :
  cc_inv s G Hd V -> is_class idx -> a ∈ g_B G idx ->
  exists n st1 st2 l1 l2, g_B G idx = l1 ++ a :: l2 /\
    erase (cc_spans s) (bucket_head idx) a = Ok (n, st1) /\ push_front st1 (bucket_head idx) a = Ok st2 /\
    cc_inv (with_descs s st2) (set_B G idx (a :: l1 ++ l2)) Hd V /\
    forall Hd0 V0, V0 ⊆ V -> undisturbed Hd0 V0 s (with_descs s st2).
Proof.
  intros Hi Hidx Ha. pose proof (ci_list _ _ _ _ Hi idx Hidx) as Hl.
  destruct (list_elem_of_split _ _ Ha) as (l1 & l2 & HB). rewrite HB in Hl.
  destruct (erase_dll _ _ _ _ _ Hl) as (st1 & Her & Hl1 & _ & _ & Hsd1 & Hf1).
  destruct (dll_mapped _ _ _ a Hl) as [Ha0 Hsome]; [set_solver |].
  assert (Hanl : a ∉ bucket_head idx :: l1 ++ l2).
  { by eapply dll_other. }
  destruct (push_front_dll st1 (bucket_head idx) (l1 ++ l2) a Hl1 Hanl Ha0) as (st2 & Hpf & Hl2 & Hsd2 & Hf2).
  { by eapply same_data_is_Some. }
  assert (Hf : spans_frame (bucket_head idx :: l1 ++ a :: l2) (cc_spans s) st2).
  { intros b Hb. rewrite Hf2, Hf1; [done | done |]. set_solver. }
  exists (default (bucket_head idx) (head l2)), st1, st2, l1, l2. do 3 (split; [done |]). split.
  - eapply relist_ok; try done.
    + intros b. by rewrite Hsd2.
    + intros b [-> | Hb]%elem_of_cons; [by left | right; left; by rewrite HB].
    + intros b Hb. left. rewrite HB. set_solver.
    + intros b. rewrite HB. set_solver.
    + intros b Hb. eapply (ci_out _ _ _ _ Hi idx b Hidx). rewrite HB. set_solver.
    + apply Hi.
    + intros x. unfold object. cbn. rewrite upd_fun_eq, HB. split; intros (b & e & k & Hb & ?); exists b, e, k; set_solver.
  - intros Hd0 V0 HV. eapply relist_undisturbed; [done | done | exact Hf | | done].
    intros b [-> | Hb]%elem_of_cons; [by left | right; left; by rewrite HB].
Qed.

(** *** The bitmap path *)

(** [objs] went back to their bitmaps; the spans in [E'] left the bucket and wait
    on the chain at [head']. *)
Record freed s G Hd V (idx : Z) (objs E : list Z) (head' : Z) s' G' V' (E' : list Z) : Prop := {
  fd_inv : cc_inv s' G' (take_back Hd idx (list_to_set objs)) V';
  fd_chain : rchain (cc_spans s') head' (E' ++ E);
  fd_nodup : NoDup E';
  fd_dom : forall a, a ∈ dom V' <-> a ∈ dom V \/ a ∈ E';
  fd_new : forall a, a ∈ E' -> a ∉ dom V;
  fd_sub : V ⊆ V';
  fd_len : (length E' <= length objs)%nat;
  fd_same : g_T G' = g_T G /\ cc_buckets s' = cc_buckets s;
  fd_und : undisturbed (take_back Hd idx (list_to_set objs)) V s s';
  fd_tidy : tidy G -> tidy G';
}.

(** One object went back, and a span may have moved to the chain. *)
Record freed_one s G Hd V (idx x : Z) (E : list Z) s1 G1 V1 (E1 : list Z) (head1 : Z) : Prop := {
  f1_inv : cc_inv s1 G1 (take_back Hd idx {[x]}) V1;
  f1_chain : rchain (cc_spans s1) head1 (E1 ++ E);
  f1_nodup : NoDup E1;
  f1_dom : forall a, a ∈ dom V1 <-> a ∈ dom V \/ a ∈ E1;
  f1_new : forall a, a ∈ E1 -> a ∉ dom V;
  f1_sub : V ⊆ V1;
  f1_len : (length E1 <= 1)%nat;
  f1_same : g_T G1 = g_T G /\ cc_buckets s1 = cc_buckets s;
  f1_und : undisturbed (take_back Hd idx {[x]}) V s s1;
  f1_tidy : tidy G -> tidy G1;
}.

Lemma freed_cons s G Hd V idx x objs E s1 G1 V1 E1 head1 head' s' G' V' E' :
  freed_one s G Hd V idx x E s1 G1 V1 E1 head1 ->
  freed s1 G1 (take_back Hd idx {[x]}) V1 idx objs (E1 ++ E) head' s' G' V' E' ->
  freed s G Hd V idx (x :: objs) E head' s' G' V' (E' ++ E1).
Proof.
  intros [_ _ Hnd1 Hdom1 Hnew1 Hsub1 Hlen1 [HT1 Hb1] Hun1 Htd1] [Hinv Hch Hnd Hdom Hnew Hsub Hlen [HT Hb] Hun Htd].
  assert (Heq : forall j, take_back (take_back Hd idx {[x]}) idx (list_to_set objs) j = take_back Hd idx (list_to_set (x :: objs)) j).
  { intros j. rewrite <- (take_back_app Hd idx [x] objs). unfold take_back. cbn. by rewrite union_empty_r_L. }
  constructor.
  - eapply cc_inv_held; [| exact Hinv]. intros j _. by rewrite Heq.
  - by rewrite <- app_assoc.
  - apply NoDup_app. split_and!; [done | | done]. intros a Ha Ha1. apply (Hnew a Ha), Hdom1. by right.
  - intros a. rewrite Hdom, Hdom1, elem_of_app. tauto.
  - intros a [Ha | Ha]%elem_of_app Hv; [| by apply (Hnew1 a)]. apply (Hnew a Ha), Hdom1. by left.
  - by etrans.
  - rewrite length_app. cbn. lia.
  - split; congruence.
  - eapply undisturbed_trans.
    + eapply undisturbed_mono; [| reflexivity | exact Hun1]. intros j _. rewrite <- Heq. apply take_back_sub.
    + eapply undisturbed_mono; [| exact Hsub1 | exact Hun]. intros j _. by rewrite <- Heq.
  - auto.
Qed.

(** Span [a] of a bucket has taken a slot back; its list becomes [l]. *)
Lemma relist_tidy s G Hd V idx a F l :
  cc_inv s G Hd V -> is_class idx -> a ∈ g_B G idx ->
  (tidy_list (g_free G) (g_B G idx) -> tidy_list (upd_fun (g_free G) a F) l) ->
  (forall b, b ∈ l -> b <> a -> b ∈ g_B G idx) -> (a ∈ l -> busy (set_free G a F) a) ->
  tidy G -> tidy (set_B (set_free G a F) idx l).
Proof.
  intros Hi Hidx Ha Hl Hin Hbusy Ht j Hj. cbn. destruct (decide (j = idx)) as [-> | Hne].
  - rewrite upd_fun_eq. split; [by apply Hl, Ht |]. intros b Hb. destruct (decide (b = a)) as [-> | Hba]; [by apply Hbusy |].
    apply (busy_other G a F b Hba). eapply tidy_busy; [done | done | by apply Hin].
  - rewrite upd_fun_ne by done. assert (Hja : a ∉ g_B G j) by (intros Hb; by eapply Hne, ci_class). split.
    + eapply tidy_ext; [| by apply Ht]. intros b Hb. cbn. rewrite upd_fun_ne; [done |]. by intros ->.
    + intros b Hb. apply (busy_other G a F b); [by intros -> | by eapply tidy_busy].
Qed.

(** A span that took a slot back and is not empty holds an object. *)
Lemma put_busy s G Hd V idx a d' m' F : cc_inv (put_span s a d' m') (set_free G a F) Hd V -> is_class idx -> a ∈ g_B G idx ->
  span_rep m' d' F -> use_count d' <> 0 -> busy (set_free G a F) a.
Proof.
  intros Hi Hidx Ha Hr Hu. destruct (ci_span _ _ _ _ Hi idx a Hidx Ha) as (d & Hda & _ & _ & _ & _ & Hcap).
  unfold cc_spans in Hda. cbn in Hda. rewrite lookup_insert_eq in Hda. injection Hda as <-.
  destruct (free_some _ _ _ Hr Hu) as (k & Hk & Hf). exists k. rewrite <- Hcap. cbn. by rewrite upd_fun_eq.
Qed.

Lemma tidy_without G a F l1 l2 :
  a ∉ l1 ++ l2 -> tidy_list (g_free G) (l1 ++ a :: l2) -> tidy_list (upd_fun (g_free G) a F) (l1 ++ l2).
Proof.
  intros Ha Ht. apply (tidy_ext (g_free G)); [| by apply (tidy_remove _ _ a)].
  intros b Hb. rewrite upd_fun_ne; [done |]. by intros ->.
Qed.

(** The span became empty: it leaves its bucket for the chain. *)
Lemma free_empty s G Hd V idx x E a d' m' k head mode :
  cc_inv s G Hd V -> is_class idx -> a ∈ g_B G idx ->
  let s1 := put_span s a d' m' in let G1 := set_free G a ({[k]} ∪ g_free G a) in
  cc_inv s1 G1 (take_back Hd idx {[x]}) V -> undisturbed (take_back Hd idx {[x]}) V s s1 ->
  span_rep m' d' ({[k]} ∪ g_free G a) -> use_count d' = 0 ->
  rchain (cc_spans s1) head E -> (forall e, e ∈ E -> e ∈ dom V) ->
  exists n st1 st2 G2 V2, erase (cc_spans s1) (bucket_head idx) a = Ok (n, st1) /\
    set_next st1 a head = Ok st2 /\
    freed_one s G Hd V idx x E (match mode with
      | kSpanBitmap => cc_add spans_unpinned_by_direct_release 1 (with_descs s1 st2)
      | kTransferCache => with_descs s1 st2 end) G2 V2 [a] a.
Proof.
  intros Hi Hidx Ha s1 G1 Hi1 Hun Hr Hu Hch HE. set (Hd1 := take_back Hd idx {[x]}) in *.
  destruct (erase_step s1 G1 Hd1 V idx a d' head Hi1 Hidx Ha) as
    (n & st1 & st2 & l1 & l2 & HB & Her & Hsn & Ha0 & Hi2 & HaV & (d2 & Hd2 & Hn2) & Hun2); [apply lookup_insert_eq | |].
  { intros j Hj. cbn. rewrite upd_fun_eq. eapply free_full; [exact Hr | done | done]. }
  assert (Hun3 : undisturbed Hd1 V s (with_descs s1 st2)) by (eapply undisturbed_trans; [exact Hun | by apply Hun2]).
  exists n, st1, st2, (set_B G1 idx (l1 ++ l2)), (<[a := (start_page_idx d', page_num d')]> V). split; [done |]. split; [done |].
  assert (Hone : freed_one s G Hd V idx x E (with_descs s1 st2) (set_B G1 idx (l1 ++ l2)) (<[a := (start_page_idx d', page_num d')]> V) [a] a).
  { constructor; try done.
    - split; [done |]. split; [done |]. exists d2. split; [done |]. rewrite Hn2.
      eapply rchain_ext; [| exact Hch]. intros e He. pose proof (HE e He) as Hv.
      transitivity (cc_spans s !! e); [by apply Hun3 | symmetry; by apply Hun].
    - repeat constructor. set_solver.
    - intros b. rewrite dom_insert_L, elem_of_union, elem_of_singleton, list_elem_of_singleton. tauto.
    - by intros b ->%list_elem_of_singleton.
    - by apply insert_subseteq, not_elem_of_dom.
    - change (g_B G1 idx) with (g_B G idx) in HB. assert (Hal : a ∉ l1 ++ l2).
      { pose proof (ci_list _ _ _ _ Hi idx Hidx) as Hl. rewrite HB in Hl. intros Hal. eapply dll_other; [exact Hl | by right]. }
      apply (relist_tidy s G Hd V); [done | done | done | rewrite HB; by apply tidy_without | | done].
      intros b Hb _. rewrite HB. set_solver. }
  destruct mode; [exact Hone |]; destruct Hone as [Hone1 ? ? ? ? ? ? ? Hone2 ?]; constructor; try done; [by apply cc_inv_stats | by apply undisturbed_stats].
Qed.

(** A slot of a full span came back: the span moves to the front. *)
Lemma free_was_full s G Hd V idx x E a d' m' k head :
  cc_inv s G Hd V -> is_class idx -> a ∈ g_B G idx ->
  let s1 := put_span s a d' m' in let G1 := set_free G a ({[k]} ∪ g_free G a) in
  cc_inv s1 G1 (take_back Hd idx {[x]}) V -> undisturbed (take_back Hd idx {[x]}) V s s1 -> busy G1 a ->
  rchain (cc_spans s1) head E -> (forall e, e ∈ E -> e ∈ dom V) ->
  exists n st1 st2 G2, erase (cc_spans s1) (bucket_head idx) a = Ok (n, st1) /\
    push_front st1 (bucket_head idx) a = Ok st2 /\
    freed_one s G Hd V idx x E (with_descs s1 st2) G2 V [] head.
Proof.
  intros Hi Hidx Ha s1 G1 Hi1 Hun Hbusy Hch HE.
  destruct (to_front_step s1 G1 _ V idx a Hi1 Hidx Ha) as (n & st1 & st2 & l1 & l2 & HB & Her & Hpf & Hi2 & Hun2).
  assert (Hun3 : undisturbed (take_back Hd idx {[x]}) V s (with_descs s1 st2)) by (eapply undisturbed_trans; [exact Hun | by apply Hun2]).
  exists n, st1, st2, (set_B G1 idx (a :: l1 ++ l2)). split; [done |]. split; [done |]. constructor; try done.
  - eapply rchain_ext; [| exact Hch]. intros e He. pose proof (HE e He) as Hv.
    transitivity (cc_spans s !! e); [by apply Hun3 | symmetry; by apply Hun].
  - constructor.
  - intros b. rewrite elem_of_nil. tauto.
  - by intros b ?%elem_of_nil.
  - cbn. lia.
  - change (g_B G1 idx) with (g_B G idx) in HB. apply (relist_tidy s G Hd V); [done | done | done | | | done].
    + rewrite HB. intros Ht. apply tidy_front; [rewrite upd_fun_eq; set_solver |]. apply tidy_without; [| done].
      pose proof (ci_list _ _ _ _ Hi idx Hidx) as Hl. rewrite HB in Hl. intros Hal. eapply dll_other; [exact Hl | by right].
    + intros b Hb Hne. rewrite HB. set_solver.
Qed.

(** Otherwise the span stays where it is. *)
Lemma free_stays s G Hd V idx x E a d' m' k head :
  let s1 := put_span s a d' m' in let G1 := set_free G a ({[k]} ∪ g_free G a) in
  cc_inv s1 G1 (take_back Hd idx {[x]}) V -> undisturbed (take_back Hd idx {[x]}) V s s1 -> busy G1 a ->
  span_rep m' d' ({[k]} ∪ g_free G a) -> (k ∉ g_free G a) -> use_count d' <> u32 (capacity d' - 1) ->
  rchain (cc_spans s1) head E -> freed_one s G Hd V idx x E s1 G1 V [] head.
Proof.
  intros s1 G1 Hi1 Hun Hbusy Hr Hk Hu Hch. constructor; try done.
  - constructor.
  - intros b. rewrite elem_of_nil. tauto.
  - by intros b ?%elem_of_nil.
  - cbn. lia.
  - intros Ht j Hj. split.
    + apply (tidy_ext (g_free G)); [| by apply Ht]. intros b _. cbn.
      destruct (decide (b = a)) as [-> | Hne]; [| by rewrite upd_fun_ne]. rewrite upd_fun_eq.
      pose proof (free_one _ _ _ _ Hr Hk Hu). set_solver.
    + intros b Hb. destruct (decide (b = a)) as [-> | Hne]; [done |]. apply busy_other; [done | by eapply tidy_busy].
Qed.

(** An iteration of the loop. *)
Lemma free_objs_step x objs mode idx s G Hd V head E :
  is_class idx -> cc_inv s G Hd V -> x ∈ Hd idx ->
  rchain (cc_spans s) head E -> (forall a, a ∈ E -> a ∈ dom V) ->
  exists s1 G1 V1 E1 head1, free_objs s idx mode (x :: objs) head = free_objs s1 idx mode objs head1 /\
    freed_one s G Hd V idx x E s1 G1 V1 E1 head1.
Proof.
  intros Hidx Hi Hin Hch HE.
  destruct (free_step s G Hd V idx x Hi Hidx Hin) as
    (a & d & k & d' & m' & Hlk & Ha0 & HaB & Hda & Hk & Hkf & Hfree & Hi1 & Hsg & Hr & Hm).
  cbn [free_objs]. unfold GetSpanOfPtr.
  rewrite (GetSpan_ok _ (g_N G)), bind_Ok_l, Hlk by apply (ci_pages _ _ _ _ Hi).
  rewrite (proj2 (Z.eqb_neq a 0)), (get_span_Some _ _ d), bind_Ok_l by done. rewrite Hfree, bind_Ok_l.
  cbn iota beta zeta.
  assert (Hun : undisturbed (take_back Hd idx {[x]}) V s (put_span s a d' m')).
  { eapply put_span_undisturbed; try done. intros j _. apply take_back_sub. }
  assert (Hch1 : rchain (cc_spans (put_span s a d' m')) head E).
  { eapply rchain_ext; [| exact Hch]. intros e He. apply Hun. by apply HE. }
  destruct (Z.eqb_spec (use_count d') 0) as [Hu0 | Hu0].
  { destruct (free_empty s G Hd V idx x E a d' m' k head mode Hi Hidx HaB Hi1 Hun Hr Hu0 Hch1 HE)
      as (n & st1 & st2 & G2 & V2 & -> & Hsn & Hone).
    rewrite bind_Ok_l. cbn iota beta. rewrite Hsn, bind_Ok_l. by do 5 eexists. }
  pose proof (put_busy _ _ _ _ idx a d' m' _ Hi1 Hidx HaB Hr Hu0) as Hbusy.
  destruct (Z.eqb_spec (use_count d') (u32 (capacity d' - 1))) as [Hu1 | Hu1].
  - destruct (free_was_full s G Hd V idx x E a d' m' k head Hi Hidx HaB Hi1 Hun Hbusy Hch1 HE)
      as (n & st1 & st2 & G2 & -> & Hpf & Hone).
    rewrite bind_Ok_l. cbn iota beta. rewrite Hpf, bind_Ok_l. by do 5 eexists.
  - do 5 eexists. split; [done |]. by eapply free_stays.
Qed.

Lemma free_objs_ok objs mode idx : is_class idx -> forall s G Hd V head E,
  cc_inv s G Hd V -> NoDup objs -> (forall x, x ∈ objs -> x ∈ Hd idx) ->
  rchain (cc_spans s) head E -> (forall a, a ∈ E -> a ∈ dom V) ->
  exists head' s' G' V' E', free_objs s idx mode objs head = Ok (head', s') /\
    freed s G Hd V idx objs E head' s' G' V' E'.
Proof.
  intros Hidx. induction objs as [| x objs IH]; intros s G Hd V head E Hi Hnd Hin Hch HE.
  { exists head, s, G, V, []. split; [done |]. constructor; try done.
    - eapply cc_inv_held; [| done]. intros j Hj. unfold take_back, upd_fun. case_decide; subst; set_solver.
    - set_solver.
    - set_solver. }
  apply NoDup_cons in Hnd as [Hx Hnd].
  destruct (free_objs_step x objs mode idx s G Hd V head E Hidx Hi ltac:(apply Hin; by left) Hch HE)
    as (s1 & G1 & V1 & E1 & head1 & -> & Hone).
  destruct (IH s1 G1 _ V1 head1 (E1 ++ E) (f1_inv _ _ _ _ _ _ _ _ _ _ _ _ Hone) Hnd) as (head' & s' & G' & V' & E' & -> & Hfd).
  - intros y Hy. unfold take_back. rewrite upd_fun_eq, elem_of_difference, elem_of_singleton.
    split; [apply Hin; by right | by intros ->].
  - apply Hone.
  - intros e He. apply (f1_dom _ _ _ _ _ _ _ _ _ _ _ _ Hone). apply elem_of_app in He as [He | He]; [by right | left; by apply HE].
  - exists head', s', G', V', (E' ++ E1). split; [done |]. by eapply freed_cons.
Qed.

(** *** Empty spans go back to the page cache *)

Lemma release_empty_ok fuel count : forall s G Hd V head E,
  cc_inv s G Hd V -> rchain (cc_spans s) head E -> NoDup E -> (forall a, a ∈ E -> a ∈ dom V) ->
  (length E <= fuel)%nat ->
  exists s' G' V', release_empty fuel s count head = Ok s' /\ cc_inv s' G' Hd V' /\ same_cc G G' /\
    V' ⊆ V /\ (forall a, a ∈ dom V' <-> a ∈ dom V /\ (a ∉ E)) /\ cc_buckets s' = cc_buckets s /\
    undisturbed Hd V' s s'.
Proof.
  induction fuel as [| fuel IH]; intros s G Hd V head E Hi Hch Hnd HE Hlen.
  { destruct E as [| e E]; [| cbn in Hlen; lia]. cbn in Hch. subst head. exists s, G, V.
    split; [done |]. split; [done |]. split; [done |]. split; [done |]. split; [set_solver | done]. }
  destruct E as [| e E].
  { cbn in Hch. subst head. exists s, G, V. split; [done |]. split; [done |]. split; [done |]. split; [done |]. split; [set_solver | done]. }
  destruct Hch as (-> & He0 & d & Hd' & Hch). apply NoDup_cons in Hnd as [HeE Hnd].
  cbn [release_empty]. rewrite (proj2 (Z.eqb_neq e 0)), (get_span_Some _ _ d), bind_Ok_l by done. cbn zeta.
  set (s1 := if count then _ else _).
  assert (Hs1 : cc_inv s1 G Hd V /\ cc_spans s1 = cc_spans s /\ cc_buckets s1 = cc_buckets s /\ cc_mem s1 = cc_mem s).
  { subst s1. destruct count; [| done]. split; [by apply cc_inv_stats | done]. }
  destruct Hs1 as (Hi1 & Hsp & Hbk & Hmem).
  assert (HeV : e ∈ dom V) by (apply HE; left). apply elem_of_dom in HeV as [run HeV].
  destruct (ReleaseSpan_step s1 G Hd V e run Hi1 HeV) as (p & G1 & Hrel & Hcc & Hi2 & Hun).
  rewrite Hrel, bind_Ok_l.
  assert (Hdel : forall a, a ∈ dom (delete e V) <-> a ∈ dom V /\ a <> e).
  { intros a. rewrite dom_delete_L. set_solver. }
  destruct (IH (with_pages s1 p) G1 Hd (delete e V) (sp_next d) E Hi2) as (s' & G' & V' & -> & Hi' & Hcc' & Hsub & Hdom & Hb & Hun').
  - eapply rchain_ext; [| exact Hch]. intros a Ha. rewrite <- Hsp. apply Hun, Hdel.
    split; [apply HE; by right | by intros ->].
  - done.
  - intros a Ha. apply Hdel. split; [apply HE; by right | by intros ->].
  - cbn in Hlen. lia.
  - exists s', G', V'. split; [done |]. split; [done |]. destruct Hcc as (? & ? & ? & ? & ?), Hcc' as (? & ? & ? & ? & ?).
    split; [unfold same_cc; split_and!; congruence |]. split; [etrans; [exact Hsub | apply delete_subseteq] |].
    split; [intros a; rewrite Hdom, Hdel; set_solver |]. split; [by rewrite Hb, <- Hbk |].
    assert (Hun1 : undisturbed Hd (delete e V) s s1) by (subst s1; by destruct count).
    eapply undisturbed_trans; [| exact Hun']. eapply undisturbed_mono; [done | exact Hsub |].
    by eapply undisturbed_trans.
Qed.

(** *** One chunk *)

(** What happens to the buckets: the transfer cache takes what fits. *)
Definition absorbed (mode : CentralReleaseMode) s s' (idx n : Z) : Prop :=
  (forall j, j <> idx -> cc_buckets s' j = cc_buckets s j) /\
  same_slice (cc_buckets s idx) (cc_buckets s' idx) /\
  transfer_cache_size (cc_buckets s' idx) =
    match mode with
    | kTransferCache => Z.min (transfer_cache_capacity (cc_buckets s idx)) (transfer_cache_size (cc_buckets s idx) + n)
    | kSpanBitmap => transfer_cache_size (cc_buckets s idx)
    end.

Lemma tc_absorb_ok s G Hd V idx objs :
  cc_inv s G Hd V -> is_class idx -> NoDup objs -> (forall x, x ∈ objs -> x ∈ Hd idx) ->
  exists pushed rest s', absorb s idx objs = Ok (rest, s') /\ objs = pushed ++ rest /\
    cc_inv s' (set_T G idx (g_T G idx ++ pushed)) (take_back Hd idx (list_to_set pushed)) V /\
    absorbed kTransferCache s s' idx (Z.of_nat (length objs)) /\ cc_spans s' = cc_spans s /\
    cc_pages s' = cc_pages s /\
    forall Hd0 V0, (forall j, is_class j -> Hd0 j ⊆ Hd j) -> V0 ⊆ V -> undisturbed Hd0 V0 s s'.
Proof.
  intros Hi Hidx Hnd Hin. unfold absorb. pose proof (ci_tc _ _ _ _ Hi idx Hidx) as Ht.
  destruct (tc_push_loop_ok objs _ _ _ Ht) as (pushed & rest & m' & b' & -> & -> & Ht' & Hsl & Hor & Hfr).
  rewrite bind_Ok_l. apply NoDup_app in Hnd as (Hnp & Hpr & _).
  exists pushed, rest, (with_bucket (with_mem s m') idx b'). split; [done |]. split; [done |].
  assert (Hpin : forall x, x ∈ pushed -> x ∈ Hd idx) by (intros x Hx; apply Hin, elem_of_app; by left).
  split; [| split; [| split; [done | split; [done |]]]].
  - apply (bucket_ok s G Hd V); try done.
    + intros x. unfold take_back. rewrite upd_fun_eq, elem_of_difference, elem_of_list_to_set, elem_of_app.
      destruct (decide (x ∈ pushed)); naive_solver.
    + intros j Hj. unfold take_back. by rewrite upd_fun_ne.
    + apply NoDup_app. split_and!; [by apply Hi | | done]. intros x Hx Hxp.
      eapply (ci_apart _ _ _ _ Hi idx x); [done | done | by apply Hpin].
    + intros x Hx. unfold take_back. rewrite upd_fun_eq, elem_of_difference, elem_of_list_to_set.
      apply elem_of_app in Hx as [Hx | Hx]; [| tauto]. intros [Hxd _]. by eapply (ci_apart _ _ _ _ Hi idx x).
  - split; [| split; [unfold with_bucket, upd_bucket; cbn; by rewrite decide_True |]].
    + intros j Hj. cbn. unfold upd_bucket. by rewrite decide_False.
    + cbn. unfold upd_bucket. rewrite decide_True by done. rewrite (tr_size _ _ _ Ht'), (tr_size _ _ _ Ht).
      pose proof (tr_fits _ _ _ Ht'). destruct Hsl as [_ Hcap]. rewrite Hcap in *. rewrite !length_app in *.
      destruct Hor as [-> | Hor]; cbn [length] in *; lia.
  - intros Hd0 V0 HH HV. eapply bucket_undisturbed; done.
Qed.

Record chunk_done (mode : CentralReleaseMode) s G Hd V (idx : Z) (objs : list Z) s' G' : Prop := {
  cd_inv : cc_inv s' G' (take_back Hd idx (list_to_set objs)) V;
  cd_tc : absorbed mode s s' idx (Z.of_nat (length objs));
  cd_und : undisturbed (take_back Hd idx (list_to_set objs)) V s s';
  cd_tidy : tidy G -> tidy G';
  cd_T : mode = kSpanBitmap -> g_T G' = g_T G;
}.

(** The bitmap half of a chunk. *)
Lemma overflow_ok s G Hd V idx mode rest :
  cc_inv s G Hd V -> is_class idx -> NoDup rest -> (forall x, x ∈ rest -> x ∈ Hd idx) ->
  exists s' G', ('(empty_head, s) ← free_objs s idx mode rest 0;
                 release_empty (length rest) s true empty_head) = Ok s' /\
    cc_inv s' G' (take_back Hd idx (list_to_set rest)) V /\ g_T G' = g_T G /\ cc_buckets s' = cc_buckets s /\
    undisturbed (take_back Hd idx (list_to_set rest)) V s s' /\ (tidy G -> tidy G').
Proof.
  intros Hi Hidx Hnd Hin.
  destruct (free_objs_ok rest mode idx Hidx s G Hd V 0 [] Hi Hnd Hin) as (head & s1 & G1 & V1 & E & -> & Hfd); [done | set_solver |].
  rewrite bind_Ok_l. destruct Hfd as [Hi1 Hch Hnd1 Hdom Hnew Hsub Hlen [HT Hb] Hun Htd]. rewrite app_nil_r in Hch.
  destruct (release_empty_ok (length rest) true s1 G1 _ V1 head E Hi1 Hch Hnd1) as (s2 & G2 & V2 & -> & Hi2 & Hcc & Hsub2 & Hdom2 & Hb2 & Hun2); [| done |].
  { intros a Ha. apply Hdom. by right. }
  assert (V2 = V) as ->.
  { apply map_eq. intros a. destruct (V !! a) as [e |] eqn:Ha.
    - assert (Ha1 : V1 !! a = Some e) by (by eapply lookup_weaken).
      assert (a ∈ dom V2) as [e2 He2]%elem_of_dom.
      { apply Hdom2. rewrite Hdom. assert (a ∈ dom V) by (apply elem_of_dom; by eexists).
        split; [by left |]. intros HaE. by apply (Hnew a). }
      pose proof (lookup_weaken _ _ _ _ He2 Hsub2). congruence.
    - apply not_elem_of_dom. rewrite Hdom2, Hdom. apply not_elem_of_dom in Ha. tauto. }
  destruct Hcc as (HB & HT2 & Hfree & _ & Hcap).
  exists s2, G2. split; [done |]. split; [done |]. split; [congruence |]. split; [congruence |]. split.
  - by eapply undisturbed_trans.
  - intros Ht. apply (tidy_kept G1); [done | done | done | by apply Htd].
Qed.

Lemma release_chunk_ok s G Hd V idx mode objs :
  cc_inv s G Hd V -> is_class idx -> NoDup objs -> (forall x, x ∈ objs -> x ∈ Hd idx) ->
  exists s' G', release_chunk s idx mode objs = Ok s' /\ chunk_done mode s G Hd V idx objs s' G'.
Proof.
  intros Hi Hidx Hnd Hin. unfold release_chunk. destruct mode.
  - destruct (tc_absorb_ok s G Hd V idx objs Hi Hidx Hnd Hin) as (pushed & rest & s1 & -> & -> & Hi1 & Habs & Hsp & _ & Hun).
    rewrite bind_Ok_l. cbn iota beta. apply NoDup_app in Hnd as (_ & Hpr & Hnr). destruct rest as [| r rest].
    { rewrite app_nil_r in *. exists s1. eexists. split; [done |]. constructor; [exact Hi1 | done | | by intros Ht | done].
      apply Hun; [| done]. intros j _. apply take_back_sub. }
    remember (r :: rest) as rs eqn:Hrs. cbn zeta.
    destruct (overflow_ok (cc_add release_transfer_overflow_objects (Z.of_nat (length rs)) s1)
        (set_T G idx (g_T G idx ++ pushed)) (take_back Hd idx (list_to_set pushed)) V idx kTransferCache rs)
      as (s2 & G2 & Heq & Hi2 & HT & Hb & Hun2 & Htd); [by apply cc_inv_stats | done | done | |].
    { intros x Hx. unfold take_back. rewrite upd_fun_eq, elem_of_difference, elem_of_list_to_set.
      split; [apply Hin, elem_of_app; by right |]. intros Hp. by apply (Hpr x). }
    exists s2, G2. split; [destruct rs; [done | exact Heq] |]. constructor; [| | | by intros Ht; apply Htd | done].
    + eapply cc_inv_held; [| exact Hi2]. intros j _. by rewrite take_back_app.
    + unfold absorbed. by rewrite Hb.
    + eapply undisturbed_trans; [apply Hun; [| done]; intros j _; apply take_back_sub |].
      assert (Hun3 : undisturbed (take_back (take_back Hd idx (list_to_set pushed)) idx (list_to_set rs)) V s1 s2)
        by (destruct Hun2; by constructor).
      eapply undisturbed_mono; [| reflexivity | exact Hun3]. intros j _. by rewrite take_back_app.
  - rewrite bind_Ok_l. cbn iota beta. destruct objs as [| r rest].
    { exists s, G. split; [done |]. constructor; try done.
      - eapply cc_inv_held; [| exact Hi]. intros j _. unfold take_back, upd_fun. case_decide; subst; set_solver. }
    remember (r :: rest) as rs eqn:Hrs. cbn zeta.
    destruct (overflow_ok s G Hd V idx kSpanBitmap rs Hi Hidx Hnd Hin) as (s2 & G2 & Heq & Hi2 & HT & Hb & Hun2 & Htd).
    exists s2, G2. split; [destruct rs; [done | exact Heq] |]. constructor; try done. unfold absorbed. by rewrite Hb.
Qed.

(** *** The whole batch *)

Lemma absorbed_trans mode s1 s2 s3 idx n1 n2 : 0 <= n1 -> 0 <= n2 ->
  absorbed mode s1 s2 idx n1 -> absorbed mode s2 s3 idx n2 -> absorbed mode s1 s3 idx (n1 + n2).
Proof.
  intros Hn1 Hn2 (H12 & [HS1 HS2] & Hz12) (H23 & [HS3 HS4] & Hz23). split; [| split; [split; congruence |]].
  - intros j Hj. by rewrite H23, H12.
  - rewrite Hz23, HS2, Hz12. destruct mode; lia.
Qed.

Lemma release_loop_ok fuel : forall s G Hd V idx mode cur l,
  cc_inv s G Hd V -> is_class idx -> seg (cc_mem s) cur l 0 -> (forall x, x ∈ l -> x ∈ Hd idx) ->
  (length l <= fuel)%nat ->
  exists s' G', release_loop fuel s idx mode cur (Z.of_nat (length l)) = Ok (0, s') /\
    chunk_done mode s G Hd V idx l s' G'.
Proof.
  induction fuel as [| fuel IH]; intros s G Hd V idx mode cur l Hi Hidx Hseg Hin Hlen.
  all: assert (Hdone : l = [] -> exists s' G', Ok (cur, s) = Ok (0, s') /\ chunk_done mode s G Hd V idx l s' G').
  1, 3: intros ->; cbn in Hseg; subst cur; exists s, G; split; [done |]; constructor; try done;
    [eapply cc_inv_held; [| exact Hi]; intros j _; unfold take_back, upd_fun; case_decide; subst; set_solver |
     split; [done |]; split; [done |]; pose proof (tr_size _ _ _ (ci_tc _ _ _ _ Hi idx Hidx));
     pose proof (tr_fits _ _ _ (ci_tc _ _ _ _ Hi idx Hidx)); destruct mode; cbn [length]; lia].
  { destruct l; [by apply Hdone | cbn in Hlen; lia]. }
  cbn [release_loop]. destruct (Z.eqb_spec (Z.of_nat (length l)) 0) as [H0l | H0l].
  { apply Hdone. destruct l; [done | cbn in H0l; lia]. }
  assert (Hk : 0 < kMaxBatchSize) by (vm_compute; done).
  set (c := Z.min (Z.of_nat (length l)) kMaxBatchSize). assert (Hc : 0 < c <= Z.of_nat (length l)) by lia.
  pose proof (seg_NoDup _ _ _ Hseg) as Hnd. rewrite <- (take_drop (Z.to_nat c) l) in Hseg, Hnd.
  assert (Hlc : length (take (Z.to_nat c) l) = Z.to_nat c) by (rewrite length_take; lia).
  destruct (read_chain_ok _ _ _ _ Hseg) as (cur' & Hrd & Hseg'). rewrite Hlc in Hrd. rewrite Hrd, bind_Ok_l.
  cbn iota beta. apply NoDup_app in Hnd as (Hn1 & Hn12 & Hn2).
  assert (Hin1 : forall x, x ∈ take (Z.to_nat c) l -> x ∈ Hd idx) by (intros x Hx; by apply Hin, (subseteq_take (Z.to_nat c) l)).
  assert (Hin2 : forall x, x ∈ drop (Z.to_nat c) l -> x ∈ Hd idx).
  { intros x Hx. apply Hin. rewrite <- (take_drop (Z.to_nat c) l). apply elem_of_app. by right. }
  destruct (release_chunk_ok s G Hd V idx mode _ Hi Hidx Hn1 Hin1) as (s1 & G1 & -> & [Hi1 Htc1 Hun1 Htd1 HT1]).
  rewrite bind_Ok_l.
  assert (Hin2' : forall x, x ∈ drop (Z.to_nat c) l -> x ∈ take_back Hd idx (list_to_set (take (Z.to_nat c) l)) idx).
  { intros x Hx. unfold take_back. rewrite upd_fun_eq, elem_of_difference, elem_of_list_to_set.
    split; [by apply Hin2 |]. intros Hx2. by apply (Hn12 x). }
  replace (Z.of_nat (length l) - c) with (Z.of_nat (length (drop (Z.to_nat c) l))) by (rewrite length_drop; lia).
  destruct (IH s1 G1 _ V idx mode cur' (drop (Z.to_nat c) l) Hi1 Hidx) as (s' & G' & -> & [Hi2 Htc2 Hun2 Htd2 HT2]).
  { eapply seg_frame; [| exact Hseg']. intros x Hx. apply Hun1. left. exists idx, x.
    pose proof (Size_range idx Hidx) as Hsz. unfold ALIGNMENT in Hsz. split; [done |]. split; [by apply Hin2' | lia]. }
  { done. }
  { rewrite length_drop. lia. }
  exists s', G'. split; [done |].
  assert (Heq : forall j, take_back (take_back Hd idx (list_to_set (take (Z.to_nat c) l))) idx (list_to_set (drop (Z.to_nat c) l)) j
              = take_back Hd idx (list_to_set l) j).
  { intros j. by rewrite take_back_app, take_drop. }
  constructor.
  - eapply cc_inv_held; [| exact Hi2]. intros j _. by rewrite Heq.
  - replace (Z.of_nat (length l)) with (Z.of_nat (length (take (Z.to_nat c) l)) + Z.of_nat (length (drop (Z.to_nat c) l)))
      by (rewrite Hlc, length_drop; lia). eapply absorbed_trans; [lia | lia | done | done].
  - eapply undisturbed_trans.
    + eapply undisturbed_mono; [| reflexivity | exact Hun1]. intros j _. rewrite <- Heq. apply take_back_sub.
    + eapply undisturbed_mono; [| reflexivity | exact Hun2]. intros j _. by rewrite <- Heq.
  - auto.
  - intros Hm. by rewrite HT2, HT1.
Qed.

Lemma ReleaseBatch_ok s G Hd V idx mode b l :
  cc_inv s G Hd V -> batch_rep (cc_mem s) b idx l -> (forall x, x ∈ l -> x ∈ Hd idx) ->
  exists s' G', ReleaseBatch s b mode = Ok s' /\ chunk_done mode s G Hd V idx l s' G'.
Proof.
  intros Hi Hb Hin. pose proof Hb as ((Hseg & Htail & Hcount) & Hidx & Hcl). cbn in Hseg, Hcount.
  unfold ReleaseBatch. rewrite (batch_empty_rep _ _ _ _ Hb). case_bool_decide as Hl.
  { subst l. destruct (release_loop_ok 0 s G Hd V idx mode 0 [] Hi Hidx) as (s' & G' & Heq & Hcd); try done.
    cbn in Heq. injection Heq as <-. exists s, G'. split; [| done]. unfold batch_destroy. by rewrite AM_DCHECK_true. }
  assert (ob_size_class_idx b = idx) as -> by (destruct l; done).
  rewrite (proj2 (Z.ltb_lt _ _)), AM_DCHECK_true, bind_Ok_l by apply Hidx. rewrite Hcount, Nat2Z.id.
  destruct (release_loop_ok (length l) s G Hd V idx mode (ob_head b) l Hi Hidx Hseg Hin) as (s' & G' & -> & Hcd); [done |].
  rewrite bind_Ok_l. exists s', G'. split; [| done]. unfold batch_destroy. by rewrite !AM_DCHECK_true.
Qed.

(** A list of held objects, linked into a batch and released. *)
Lemma link_release_ok s G Hd V idx mode o objs :
  cc_inv s G Hd V -> is_class idx -> NoDup (o :: objs) -> (forall x, x ∈ o :: objs -> x ∈ Hd idx) ->
  exists h m' b s' G', link_all (cc_mem s) (o :: objs) 0 = Ok (h, m') /\
    make_batch m' h o (Z.of_nat (length (o :: objs))) idx = Ok b /\
    ReleaseBatch (with_mem s m') b mode = Ok s' /\ chunk_done mode s G Hd V idx (o :: objs) s' G'.
Proof.
  intros Hi Hidx Hnd Hin. remember (o :: objs) as l eqn:Hl.
  assert (H0r : 0 ∉ l).
  { intros Hx. by destruct (object_word _ _ _ _ Hi idx 0 Hidx (or_introl (Hin 0 Hx))) as (_ & _ & Hnz & _). }
  destruct (link_all_ok (cc_mem s) l 0 []) as (h & m' & Hlink & Hseg & Hm); [done | done | set_solver | done |].
  rewrite app_nil_r in Hseg. exists h, m'.
  assert (Hi2 : cc_inv (with_mem s m') G Hd V).
  { eapply links_ok; [exact Hi | exact Hm |]. intros x Hx. exists idx. split; [done | left; by apply Hin]. }
  assert (Hch : chain_rep m' (mkChain h o (Z.of_nat (length l))) (rev l)).
  { split; [done |]. split; [subst l; cbn; by rewrite last_snoc | by rewrite length_rev]. }
  destruct (make_batch_rep m' h o (Z.of_nat (length l)) idx (rev l) Hch) as [Hmk Hb];
    [subst l; cbn; by destruct (rev objs) | done |].
  destruct (ReleaseBatch_ok (with_mem s m') G Hd V idx mode _ _ Hi2 Hb) as (s' & G' & Hrel & [Hi3 Htc Hun Htd HT]).
  { intros x. rewrite <- Permutation_rev. apply Hin. }
  exists (mkBatch h o (Z.of_nat (length l)) idx), s', G'. split_and!; try done.
  assert (Heq : list_to_set (C := gset Z) (rev l) = list_to_set l) by (by apply list_to_set_perm_L; rewrite <- Permutation_rev).
  rewrite Heq in Hi3, Hun. rewrite length_rev in Htc. constructor; try done.
  eapply undisturbed_trans; [| exact Hun].
  eapply (links_undisturbed s); [exact Hi | exact Hm | intros j _; apply take_back_sub | done |].
  intros x Hx. exists idx. split; [done |]. split; [left; by apply Hin |].
  unfold take_back. rewrite upd_fun_eq. set_solver.
Qed.
End Release.
