(* ===== verification/CentralFetch.v ===== *)
(** * Taking objects from the central cache

    [FetchBatch]: pop the transfer cache, then carve spans, borrowing a new one
    from the page cache when the bucket has no free slot left; one extra batch is
    prefetched into the transfer cache.  The invariant of its loops, and what the
    caller gets. *)
From S2P Require Import Prelude Config SizeClass FreeList Common Span SpanList Backing PageMap PageCache PageCacheInv.
From S2P Require Import PageCacheAlloc PageCacheMerge PageCacheRelease CentralCache CentralInv CentralSteps CentralRelease.
Open Scope Z_scope.

Lemma class_pages idx : is_class idx ->
  1 <= GetMovePageNum (Size idx) <= MAX_PAGE_NUM /\ 0 < ly_capacity (ComputeSpanLayout (Size idx) (GetMovePageNum (Size idx))).
Proof.
  intros Hidx.
  pose proof (forallb_seqZ (fun i => (1 <=? GetMovePageNum (Size i)) && (GetMovePageNum (Size i) <=? MAX_PAGE_NUM) &&
    (0 <? ly_capacity (ComputeSpanLayout (Size i) (GetMovePageNum (Size i))))) 0 kNumSizeClasses idx) as Hf.
  cbv beta in Hf. assert (Ht : forall b, b = true -> b = true) by done.
  specialize (Hf ltac:(vm_compute; reflexivity) Hidx). clear -Hf. bool_facts. lia.
Qed.

Section Fetch.
Context `{BackingLaws W} `{StaticLayout} `{CentralLayout}.
Implicit Types (s : CentralCache W) (G : ghost) (V : runs) (Hd : held).

(** *** Carving a fresh span *)

(** Writing the descriptor and the first words of a run outside the buckets. *)
Lemma fresh_write_ok s G Hd V a st n d d' ls m' free' cap' :
  cc_inv s G Hd V -> V !! a = Some (st, n) -> cc_spans s !! a = Some d ->
  same_ident d d' -> sp_next d' = sp_next d -> sp_prev d' = sp_prev d ->
  same_except ls (cc_mem s) m' -> (forall w, w ∈ ls -> covers (g_D G) a (w / PAGE_SIZE)) ->
  cc_inv (put_span s a d' m') (set_cap (set_free G a free') a cap') Hd V /\
  undisturbed Hd (delete a V) s (put_span s a d' m').
Proof.
  intros Hi Ha Hda Hid Hnx Hpv Hm Hls.
  assert (HaV : a ∈ dom V) by (apply elem_of_dom; by eexists).
  assert (Hne : forall j b, is_class j -> b ∈ g_B G j -> b <> a) by (intros j b Hj Hb ->; by eapply ci_out).
  assert (Hout : forall j b w, is_class j -> b ∈ g_B G j -> covers (g_D G) b (w / PAGE_SIZE) -> m' !! w = cc_mem s !! w).
  { intros j b w Hj Hb Hc. apply Hm. intros Hw. apply (Hne j b Hj Hb). eapply ci_cover; [done | exact Hc | by apply Hls]. }
  assert (Hsp : forall j b, is_class j -> b ∈ g_B G j -> <[a := d']> (cc_spans s) !! b = cc_spans s !! b).
  { intros j b Hj Hb. apply lookup_insert_ne. intros <-. by eapply Hne. }
  split.
  - constructor; cbn; try apply Hi.
    + apply (pc_inv_desc (cc_pages s)); [apply Hi | |].
      * intros b Hb _. apply lookup_insert_ne. intros <-. apply Hb, (ci_used _ _ _ _ Hi). by left.
      * intros b e Hb He. destruct (decide (b = a)) as [-> |].
        -- exists d'. rewrite lookup_insert_eq. split; [done |]. unfold cc_spans in Hda. congruence.
        -- exists e. by rewrite lookup_insert_ne.
    + intros j Hj. eapply dll_data; [| | by apply (ci_list _ _ _ _ Hi j Hj)]; intros b.
      * unfold next_of, cc_spans. cbn. destruct (decide (b = a)) as [-> |]; [| by rewrite lookup_insert_ne].
        unfold cc_spans in Hda. rewrite lookup_insert_eq, Hda. cbn. by rewrite Hnx.
      * unfold prev_of, cc_spans. cbn. destruct (decide (b = a)) as [-> |]; [| by rewrite lookup_insert_ne].
        unfold cc_spans in Hda. rewrite lookup_insert_eq, Hda. cbn. by rewrite Hpv.
    + intros j b Hj Hb. destruct (ci_span _ _ _ _ Hi j b Hj Hb) as (e & He & Hr & Hrest).
      exists e. unfold cc_spans. cbn. rewrite (Hsp j b Hj Hb), !upd_fun_ne by (by eapply Hne).
      split; [done |]. split; [| done]. eapply span_rep_mem; [| exact Hr]. intros w Hw. eapply Hout; [done | done |].
      by eapply (bitmap_word_cover s G Hd V Hi j b e).
    + intros j x Hj. rewrite (ci_objs _ _ _ _ Hi j x Hj). unfold object, cc_spans. cbn.
      split; intros (b & e & k & Hb & He & Hk & Hf & ->); exists b, e, k; rewrite ?(Hsp j b Hj Hb), ?upd_fun_ne in * by (by eapply Hne); done.
    + intros j Hj. eapply tc_rep_mem; [| by apply (ci_tc _ _ _ _ Hi j Hj)]. intros w Hw. apply Hm. intros Hin.
      eapply cover_not_static; [done | by apply Hls | by apply (ci_slice _ _ _ _ Hi j)].
  - constructor; cbn.
    + intros w Hw. apply Hm. intros Hin. apply Hls in Hin. destruct Hw as [(j & x & Hj & Hx & Hr) | (v & x & k & Hv & Hp)].
      * destruct (object_word _ _ _ _ Hi j x Hj (or_introl Hx)) as (b & Hb & _ & Hob). destruct (Hob w Hr) as [Hc _].
        apply (Hne j b Hj Hb). by eapply ci_cover.
      * apply lookup_delete_Some in Hv as [Hne2 Hv]. apply Hne2. eapply ci_cover; [done | exact Hin |]. exists x, k.
        split; [| done]. eapply lookup_weaken; [done | apply Hi].
    + intros v Hv. unfold cc_spans. cbn. apply lookup_insert_ne. intros <-. rewrite dom_delete_L in Hv. set_solver.
Qed.

(** A carved span enters its bucket at the front. *)
Lemma install_ok s G Hd V idx a d st n :
  cc_inv s G Hd V -> is_class idx -> V !! a = Some (st, n) -> cc_spans s !! a = Some d -> a <> 0 ->
  span_rep (cc_mem s) d (g_free G a) -> size_class_idx d = idx -> start_page_idx d = st -> page_num d = n -> capacity d = g_cap G a ->
  (forall k, 0 <= k < capacity d -> k ∈ g_free G a) ->
  exists st', push_front (cc_spans s) (bucket_head idx) a = Ok st' /\
    cc_inv (with_descs s st') (set_B G idx (a :: g_B G idx)) Hd (delete a V) /\
    undisturbed Hd (delete a V) s (with_descs s st').
Proof.
  intros Hi Hidx Ha Hda Ha0 Hr Hcl Hst Hn Hcap Hall.
  assert (HaV : a ∈ dom V) by (apply elem_of_dom; by eexists).
  assert (HaU : a ∈ g_U G) by (apply (ci_used _ _ _ _ Hi); by left).
  assert (Hnl : a ∉ bucket_head idx :: g_B G idx).
  { intros [-> | Hb]%elem_of_cons; [| by eapply ci_out]. eapply ci_head_dom; [exact Hi | exact Hidx |].
    by eapply ci_used_dom. }
  destruct (push_front_dll _ _ _ a (ci_list _ _ _ _ Hi idx Hidx) Hnl Ha0) as (st' & -> & Hl & Hsd & Hf); [by eexists |].
  exists st'. split; [done |]. split.
  - eapply relist_ok; try done.
    + intros b [-> | [-> | Hb]%elem_of_cons]%elem_of_cons; tauto.
    + intros b [-> | Hb]%elem_of_cons; [right | by left]. exists d. rewrite Hst, Hn. split_and!; try done.
      eapply lookup_weaken; [done | apply Hi].
    + intros b. rewrite dom_delete_L, elem_of_difference, elem_of_singleton, elem_of_cons.
      destruct (decide (b = a)) as [-> |]; tauto.
    + intros b. rewrite dom_delete_L, elem_of_difference, elem_of_singleton. intros [-> | Hb]%elem_of_cons; [tauto |].
      intros [Hv _]. by eapply ci_out.
    + etrans; [apply delete_subseteq | apply Hi].
    + intros x. unfold object. cbn. rewrite upd_fun_eq. split; intros (b & e & k & Hb & He & Hk & Hfk & ->).
      * apply elem_of_cons in Hb as [-> | Hb]; [| by exists b, e, k]. rewrite Hda in He. injection He as <-.
        by apply Hfk in Hall.
      * exists b, e, k. split; [by right | done].
  - eapply relist_undisturbed; [done | done | exact Hf | | apply delete_subseteq].
    intros b [-> | [-> | Hb]%elem_of_cons]%elem_of_cons; [right; right | by left | right; by left].
    rewrite dom_delete_L. set_solver.
Qed.

(** Carving the grid of a run outside the buckets. *)
Lemma init_span_ok s G Hd V idx a d start :
  cc_inv s G Hd V -> is_class idx -> V !! a = Some (start, GetMovePageNum (Size idx)) -> cc_spans s !! a = Some d ->
  exists d1 m1 free, Init (cc_mem s) d (Size idx) = Ok (d1, m1) /\ span_rep m1 d1 free /\
    (forall k, 0 <= k < capacity d1 -> k ∈ free) /\ free <> ∅ /\
    size_class_idx d1 = idx /\ start_page_idx d1 = start /\ page_num d1 = GetMovePageNum (Size idx) /\
    cc_inv (put_span s a d1 m1) (set_cap (set_free G a free) a (capacity d1)) Hd V /\ undisturbed Hd (delete a V) s (put_span s a d1 m1).
Proof.
  intros Hi Hidx Ha Hd1. destruct (class_pages idx Hidx) as [Hpn Hcap]. set (num := GetMovePageNum (Size idx)) in *.
  unfold MAX_PAGE_NUM in Hpn. pose proof (ci_pages _ _ _ _ Hi) as Hp. pose proof (pi_core _ _ _ _ _ _ _ Hp) as Hc.
  assert (HDa : g_D G !! a = Some (start, num)) by (eapply lookup_weaken; [exact Ha | apply Hi]).
  pose proof (co_geom _ _ _ _ _ _ _ Hc _ _ _ HDa) as [Ha0 _ Hs0 Hn0 Htop _ _].
  destruct (co_desc _ _ _ _ _ _ _ Hc _ _ _ HDa) as (d' & Hd' & Hst & Hnum & _). unfold cc_spans in Hd1. rewrite Hd1 in Hd'. injection Hd' as <-.
  pose proof PAGE_LIMIT_bounds as HPL. assert (Hrun : run_ok d).
  { split; [lia |]. split; [lia |]. rewrite Hst, Hnum. pose proof PAGE_LIMIT_le. unfold PAGE_SIZE in *. lia. }
  destruct (Init_rep (cc_mem s) d idx Hidx Hrun) as (m1 & Hinit & Hr & Hm); [by rewrite Hnum |].
  rewrite Hnum in Hinit, Hr, Hm. set (L := ComputeSpanLayout (Size idx) num) in *. set (d1 := with_usage _ _ _) in *.
  destruct (ComputeSpanLayout_ok (Size idx) num) as [HL _]; [pose proof (Size_range idx Hidx); unfold ALIGNMENT, MAX_TC_SIZE in *; lia | lia | done |].
  destruct (fresh_write_ok s G Hd V a start num d d1 (words (GetPageBaseAddr d) 0 (ly_bitmap_num L)) m1 (all_slots (ly_capacity L)) (capacity d1) Hi Ha Hd1)
    as [Hi2 Hun2]; try done.
  { intros w (i & -> & Hir)%elem_of_words. exists start, num. split; [exact HDa |].
    pose proof (GetPageBaseAddr_eq d1 (sr_grid _ _ _ Hr)) as (Hb & _ & _). change (GetPageBaseAddr d1) with (GetPageBaseAddr d) in Hb.
    change (start_page_idx d1) with (start_page_idx d) in Hb. rewrite Hb, Hst.
    destruct HL as [? ? ? ? ? ? ?]. unfold PAGE_SIZE in *. fold L in lo_offset, lo_fits, lo_capacity.
    split; [apply Z.div_le_lower_bound; lia | apply Z.div_lt_upper_bound; nia]. }
  exists d1, m1, (all_slots (ly_capacity L)). split; [done |]. split; [done |]. split; [intros k Hk; by apply elem_of_all_slots |].
  split; [| done]. intros He. pose proof (lo_capacity _ _ _ HL). assert (Hin : 0 ∈ all_slots (ly_capacity L)) by (apply elem_of_all_slots; lia).
  rewrite He in Hin. set_solver.
Qed.

(** What [GetOneSpan] did. *)
Record got_one s G Hd V (idx a : Z) s' G' : Prop := {
  go_inv : cc_inv s' G' Hd V;
  go_und : undisturbed Hd V s s';
  go_bucket : cc_buckets s' = cc_buckets s;
  go_T : g_T G' = g_T G;
  go_oom : a = 0 -> g_B G' = g_B G /\ g_free G' = g_free G /\ g_cap G' = g_cap G /\
    exists p', AllocSpan (cc_pages s) (GetMovePageNum (Size idx)) = Ok (0, p');
  go_new : a <> 0 -> g_B G' = upd_fun (g_B G) idx (a :: g_B G idx) /\ g_free G' a <> ∅ /\
    (forall b, b <> a -> g_free G' b = g_free G b /\ g_cap G' b = g_cap G b) /\ forall j, is_class j -> a ∉ g_B G j;
}.

Lemma GetOneSpan_ok s G Hd V idx :
  cc_inv s G Hd V -> is_class idx ->
  exists a s' G', GetOneSpan s idx (Size idx) = Ok (a, s') /\ got_one s G Hd V idx a s' G'.
Proof.
  intros Hi Hidx. destruct (class_pages idx Hidx) as [Hpn Hcap]. unfold GetOneSpan. cbv zeta. unfold MAX_PAGE_NUM in Hpn.
  destruct (AllocSpan_step s G Hd V (GetMovePageNum (Size idx)) Hi ltac:(lia)) as (a & p' & G1 & Hal & (HB & HT & Hfr & HK & HC) & Hun & Hor).
  rewrite Hal, bind_Ok_l. cbn iota beta zeta.
  destruct Hor as [[-> Hi1] | (start & d & Hgs)].
  { exists 0, (with_pages s p'), G1. split; [done |]. constructor; try done. intros _. split_and!; try done. by exists p'. }
  destruct Hgs as [Ha0 Hi1 HaV Hd1 _ _ _ _].
  rewrite (proj2 (Z.eqb_neq a 0)) by done. unfold cc_spans at 1. cbn [cc_pages with_pages].
  rewrite (get_span_Some _ _ d), bind_Ok_l by done.
  assert (HV1 : <[a := (start, GetMovePageNum (Size idx))]> V !! a = Some (start, GetMovePageNum (Size idx))) by apply lookup_insert_eq.
  destruct (init_span_ok (with_pages s p') G1 Hd _ idx a d start Hi1 Hidx HV1 Hd1)
    as (d1 & m1 & free & Hinit & Hr & Hall & Hne & Ec & Es & En & Hi2 & Hun2).
  cbn [cc_mem with_pages] in Hinit |- *. rewrite Hinit, bind_Ok_l. cbn iota beta zeta.
  set (s2 := put_span (with_pages s p') a d1 m1) in *.
  pose proof (cc_inv_stats s2 _ _ _ fetch_pagecache_spans 1 Hi2) as Hi3. set (s3 := cc_add fetch_pagecache_spans 1 s2) in *.
  assert (Hds : cc_spans s3 !! a = Some d1) by apply lookup_insert_eq.
  set (G2 := set_cap (set_free G1 a free) a (capacity d1)) in *.
  assert (Hfa : g_free G2 a = free /\ g_cap G2 a = capacity d1) by (split; apply upd_fun_eq). destruct Hfa as [Hfa Hca].
  destruct (install_ok s3 _ Hd _ idx a d1 start _ Hi3 Hidx HV1 Hds Ha0) as (st' & Hpf & Hi4 & Hun4); try done.
  { by rewrite Hfa. }
  { intros k Hk. rewrite Hfa. by apply Hall. }
  change (pc_spans (cc_pages s3)) with (cc_spans s3). rewrite Hpf, bind_Ok_l.
  assert (Hdel : delete a (<[a := (start, GetMovePageNum (Size idx))]> V) = V) by (rewrite delete_insert_eq; apply delete_id, not_elem_of_dom, HaV).
  rewrite Hdel in Hi4, Hun2, Hun4.
  exists a, (with_descs s3 st'). eexists. split; [done |]. constructor; [exact Hi4 | | done | exact HT | done |].
  - eapply undisturbed_trans; [exact Hun |]. eapply undisturbed_trans; [exact Hun2 |]. destruct Hun4. by constructor.
  - intros _. cbn. rewrite HB, Hfr, HC, upd_fun_eq. split; [done |]. split; [done |].
    split; [intros b Hb; by rewrite !upd_fun_ne |]. intros j Hj Hb. rewrite <- HB in Hb.
    eapply (ci_out _ _ _ _ Hi1 j a Hj Hb). rewrite dom_insert_L. set_solver.
Qed.

(** *** The loops *)

(** The locals of [FetchBatch] against the state: [l] is the caller's chain, of
    which [g0] objects came from the transfer cache, [p] the prefetched objects. *)
Record fetching s0 Hd V (idx g0 need : Z) (T0 : Z -> list Z) s G (f : fetch) (l p : list Z) : Prop := {
  ft_inv : cc_inv s G (give Hd idx (list_to_set (l ++ p))) V;
  ft_nodup : NoDup (l ++ p);
  ft_new : forall x, x ∈ l ++ p -> x ∉ Hd idx;
  ft_seg : seg (cc_mem s) (fe_head f) l 0;
  ft_tail : fe_tail f = default 0 (last l);
  ft_count : fe_fetched f = Z.of_nat (length l);
  ft_pre : fe_prefetched f = p;
  ft_ext : fe_extracted f = Z.of_nat (length l) - g0 + Z.of_nat (length p);
  ft_need : g0 <= Z.of_nat (length l) <= g0 + need;
  ft_first : p <> [] -> Z.of_nat (length l) = g0 + need;
  ft_und : undisturbed Hd V s0 s;
  ft_bucket : cc_buckets s = cc_buckets s0;
  ft_T : g_T G = T0;
}.

Lemma give_sub Hd idx X j : Hd j ⊆ give Hd idx X j.
Proof. unfold give, upd_fun. case_decide as E; [subst j |]; set_solver. Qed.
Lemma give_give Hd idx X Y j : give (give Hd idx X) idx Y j = give Hd idx (X ∪ Y) j.
Proof. unfold give, upd_fun. case_decide as E; [subst j; rewrite decide_True by done |]; set_solver. Qed.

Lemma put_span_id s a d : cc_spans s !! a = Some d -> put_span s a d (cc_mem s) = s.
Proof.
  intros Ha. unfold put_span, with_descs, with_mem, with_pages, with_spans, cc_spans in *. cbn.
  rewrite insert_id by done. by destruct s as [[] ? ? ?].
Qed.

Section Loops.
Context (s0 : CentralCache W) (Hd : held) (V : runs) (idx g0 need : Z) (T0 : Z -> list Z) (Hidx : is_class idx).
Local Abbreviation fetching' := (fetching s0 Hd V idx g0 need T0).

(** The transition changes neither the chain nor the counters. *)
Lemma fetching_move s G f l p s' G' f' :
  fetching' s G f l p -> cc_inv s' G' (give Hd idx (list_to_set (l ++ p))) V ->
  undisturbed (give Hd idx (list_to_set (l ++ p))) V s s' ->
  cc_buckets s' = cc_buckets s -> g_T G' = g_T G ->
  fe_head f' = fe_head f -> fe_tail f' = fe_tail f -> fe_fetched f' = fe_fetched f ->
  fe_prefetched f' = fe_prefetched f -> fe_extracted f' = fe_extracted f -> fetching' s' G' f' l p.
Proof.
  intros [] Hi' Hun Hb HT E1 E2 E3 E4 E5. constructor; rewrite ?E1, ?E2, ?E3, ?E4, ?E5; try done; try congruence.
  - eapply seg_frame; [| done]. intros x Hx. apply Hun. left. exists idx, x. pose proof (Size_range idx Hidx) as Hsz.
    unfold ALIGNMENT in Hsz. split; [done |]. split; [| lia]. unfold give. rewrite upd_fun_eq. set_solver.
  - eapply undisturbed_trans; [done |]. eapply undisturbed_mono; [| reflexivity | exact Hun].
    intros j _. apply give_sub.
Qed.

Lemma rotate_ok s G f l p b rest :
  fetching' s G f l p -> g_B G idx = b :: rest -> fe_begin f = b ->
  exists f' s', rotate s idx f = Ok (f', s') /\ fetching' s' (set_B G idx (rest ++ [b])) f' l p /\
    fe_extracted f' = fe_extracted f /\ fe_begin f' = default (bucket_head idx) (head (rest ++ [b])).
Proof.
  intros Hf HB Hb. pose proof (ft_inv _ _ _ _ _ _ _ _ _ _ _ _ Hf) as Hi.
  pose proof (ci_list _ _ _ _ Hi idx Hidx) as Hl. rewrite HB in Hl. unfold rotate. rewrite Hb. cbn zeta.
  destruct (erase_dll _ _ [] rest b Hl) as (st1 & -> & Hl1 & _ & _ & Hsd1 & Hf1). rewrite bind_Ok_l. cbn iota beta.
  destruct (dll_mapped _ _ _ b Hl) as [Hb0 Hsome]; [set_solver |].
  destruct (push_back_dll st1 (bucket_head idx) rest b Hl1) as (st2 & -> & Hl2 & Hsd2 & Hf2); [| done | |].
  { apply (dll_other _ _ [] b rest Hl). }
  { by eapply same_data_is_Some. }
  rewrite bind_Ok_l, (sl_begin_dll _ _ _ Hl2), bind_Ok_l.
  assert (Hfr : spans_frame (bucket_head idx :: b :: rest) (cc_spans s) st2).
  { intros c Hc. rewrite Hf2, Hf1; [done | cbn; set_solver | set_solver]. }
  do 2 eexists. split; [done |]. split; [| done].
  eapply fetching_move; [exact Hf | | | done..].
  - eapply relist_ok; try done.
    + intros c. by rewrite Hsd2.
    + intros c [-> | Hc]%elem_of_cons; [by left | right; left; by rewrite HB].
    + intros c Hc. left. rewrite HB. set_solver.
    + intros c. rewrite HB. set_solver.
    + intros c Hc. eapply (ci_out _ _ _ _ Hi idx c Hidx). rewrite HB. set_solver.
    + apply Hi.
    + intros x. unfold object. cbn. rewrite upd_fun_eq, HB. split; intros (c & e & k & Hc & ?); exists c, e, k; set_solver.
  - eapply relist_undisturbed; [exact Hi | done | exact Hfr | | done].
    intros c [-> | Hc]%elem_of_cons; [by left | right; left; by rewrite HB].
Qed.

(** One object, from the bitmap to the chain or to the prefetched ones. *)
Lemma take_object_ok s G f l p b d :
  fetching' s G f l p -> b ∈ g_B G idx -> fe_begin f = b -> cc_spans s !! b = Some d -> g_free G b <> ∅ ->
  exists obj d' m' f' s' free' l' p', AllocObject (cc_mem s) d = Ok (obj, d', m') /\ obj <> 0 /\
    take_object (put_span s b d' m') need obj f = Ok (f', s') /\
    fetching' s' (set_free G b free') f' l' p' /\ fe_extracted f' = fe_extracted f + 1 /\
    fe_begin f' = b /\ busy (set_free G b free') b.
Proof.
  intros Hf HB Hb Hbd Hne. pose proof (ft_inv _ _ _ _ _ _ _ _ _ _ _ _ Hf) as Hi.
  destruct (alloc_step s G _ V idx b d Hi Hidx HB Hbd Hne) as
    (obj & d' & m' & free' & -> & Ho0 & HoH & _ & Hi1 & _ & _ & _ & Hm & k & Hk & Hkf).
  assert (Hbusy : busy (set_free G b free') b).
  { destruct (ci_span _ _ _ _ Hi idx b Hidx HB) as (e & He & _ & _ & _ & _ & Hcap). rewrite Hbd in He. injection He as <-.
    exists k. cbn. by rewrite <- Hcap, upd_fun_eq. }
  assert (Hun1 : undisturbed (give Hd idx (list_to_set (l ++ p))) V s (put_span s b d' m')).
  { by eapply put_span_undisturbed. }
  assert (HoN : obj ∉ l ++ p).
  { intros Hin. apply HoH. unfold give. rewrite upd_fun_eq. set_solver. }
  assert (HoHd : obj ∉ Hd idx) by (intros Hin; by apply HoH, give_sub).
  set (s1 := put_span s b d' m') in *. set (G1 := set_free G b free') in *. destruct Hf.
  assert (Hseg1 : seg (cc_mem s1) (fe_head f) l 0).
  { eapply seg_frame; [| exact ft_seg0]. intros x Hx. apply Hun1. left. exists idx, x. pose proof (Size_range idx Hidx) as Hsz.
    unfold ALIGNMENT in Hsz. split; [done |]. split; [| lia]. unfold give. rewrite upd_fun_eq. set_solver. }
  assert (Hund1 : undisturbed Hd V s0 s1).
  { eapply undisturbed_trans; [done |]. eapply undisturbed_mono; [| reflexivity | exact Hun1]. intros j _. apply give_sub. }
  unfold take_object. destruct (Z.ltb_spec (fe_extracted f) need) as [Hlt | Hge].
  - assert (p = []) as ->. { destruct p; [done |]. rewrite ft_first0 in ft_ext0 by done. cbn [length] in ft_ext0. lia. }
    rewrite app_nil_r in *. cbn [length] in ft_ext0.
    assert (Hlk : same_except [obj] (cc_mem s1) (<[obj := fe_head f]> (cc_mem s1))) by (apply same_except_insert; by left).
    exists obj, d', m'. do 2 eexists. exists free', (obj :: l), []. split; [done |]. split; [done |].
    unfold FreeBlock_set_next. rewrite store_nonnull, bind_Ok_l by done. split; [done |].
    split; [constructor; cbn; rewrite ?app_nil_r; try done; try lia |].
    + eapply cc_inv_held; [| eapply (links_ok s1); [exact Hi1 | exact Hlk |]].
      * intros j _. rewrite give_give. by rewrite (union_comm_L (list_to_set l)).
      * intros x ->%list_elem_of_singleton. exists idx. split; [done |]. left. unfold give. rewrite !upd_fun_eq. set_solver.
    + by constructor.
    + intros x [-> | Hx]%elem_of_cons; [done | by apply ft_new0].
    + split; [done |]. split; [done |]. exists (fe_head f). rewrite lookup_insert_eq. split; [done |].
      eapply seg_frame; [| exact Hseg1]. intros x Hx. apply lookup_insert_ne. by intros <-.
    + destruct (Z.eqb_spec (fe_head f) 0) as [E |].
      * rewrite E in Hseg1. by apply seg_null in Hseg1 as [-> _].
      * destruct l as [| y l]; [cbn in Hseg1; lia |]. rewrite ft_tail0. done.
    + eapply undisturbed_trans; [exact Hund1 |]. eapply (links_undisturbed s1); [exact Hi1 | exact Hlk | | done |].
      * intros j Hj x Hx. by apply give_sub, give_sub.
      * intros x ->%list_elem_of_singleton. exists idx. split; [done |]. split; [| done]. left. unfold give. rewrite !upd_fun_eq. set_solver.
    + done.
  - assert (Hl : Z.of_nat (length l) = g0 + need).
    { destruct p as [| y p]; [cbn [length] in ft_ext0; lia | by apply ft_first0]. }
    exists obj, d', m'. do 2 eexists. exists free', l, (p ++ [obj]). split; [done |]. split; [done |]. split; [done |].
    split; [constructor; cbn; rewrite ?length_app; cbn [length]; try done; try lia; try congruence |].
    + eapply cc_inv_held; [| exact Hi1]. intros j _. rewrite give_give, app_assoc, (list_to_set_app_L (l ++ p)). cbn.
      by rewrite union_empty_r_L.
    + rewrite app_assoc. apply NoDup_app. split_and!; [done | | by apply NoDup_singleton].
      intros x Hx ->%list_elem_of_singleton. done.
    + intros x. rewrite app_assoc, elem_of_app, list_elem_of_singleton. intros [Hx | ->]; [by apply ft_new0 | done].
    + done.
Qed.

Lemma carve_ok fuel target : forall s G f l p b rest,
  fetching' s G f l p -> g_B G idx = b :: rest -> fe_begin f = b -> fe_extracted f <= target ->
  (Z.to_nat (target - fe_extracted f) < fuel)%nat ->
  exists f' s' G' l' p', carve fuel s idx need target f = Ok (f', s') /\ fetching' s' G' f' l' p' /\
    fe_extracted f <= fe_extracted f' <= target /\
    (g_free G b <> ∅ -> fe_extracted f < target -> fe_extracted f < fe_extracted f' /\ busy G' b) /\
    (busy G b -> busy G' b) /\
    (forall j, j <> idx -> g_B G' j = g_B G j) /\ (forall c, c <> b -> g_free G' c = g_free G c) /\ g_cap G' = g_cap G /\
    (g_B G' idx = b :: rest /\ fe_begin f' = b /\ fe_extracted f' = target \/
     g_B G' idx = rest ++ [b] /\ fe_begin f' = default (bucket_head idx) (head (rest ++ [b])) /\ g_free G' b = ∅).
Proof.
  induction fuel as [| fuel IH]; intros s G f l p b rest Hf HB Hb Hle Hfuel; [lia |]. cbn [carve].
  destruct (Z.ltb_spec (fe_extracted f) target) as [Hlt | Hge].
  2:{ exists f, s, G, l, p. split; [done |]. split; [done |]. split; [lia |]. split; [lia |]. do 4 (split; [done |]).
      left. split_and!; [done | done | lia]. }
  pose proof (ft_inv _ _ _ _ _ _ _ _ _ _ _ _ Hf) as Hi.
  assert (HbB : b ∈ g_B G idx) by (rewrite HB; left).
  destruct (ci_span _ _ _ _ Hi idx b Hidx HbB) as (d & Hbd & Hr & _).
  destruct (dll_mapped _ _ _ b (ci_list _ _ _ _ Hi idx Hidx)) as [Hb0 _]; [by right |].
  rewrite Hb, (get_span_Some _ _ d), bind_Ok_l by done.
  destruct (decide (g_free G b = ∅)) as [Hempty | Hne].
  - rewrite Hempty in Hr. rewrite (AllocObject_full _ _ Hr), bind_Ok_l. cbn iota beta zeta.
    change (0 =? 0) with true. cbn iota. rewrite put_span_id by done.
    destruct (rotate_ok s G f l p b rest Hf HB Hb) as (f' & s' & -> & Hf' & He & Hbeg).
    exists f', s', (set_B G idx (rest ++ [b])), l, p. split; [done |]. split; [done |]. split; [lia |].
    split; [done |]. split; [done |]. split; [intros j Hj; cbn; by rewrite upd_fun_ne |]. do 2 (split; [done |]).
    right. cbn. by rewrite upd_fun_eq.
  - destruct (take_object_ok s G f l p b d Hf HbB Hb Hbd Hne) as
      (obj & d' & m' & f1 & s1 & free' & l1 & p1 & -> & Ho0 & Htk & Hf1 & He1 & Hb1 & Hbz).
    rewrite bind_Ok_l. cbn iota beta zeta. rewrite (proj2 (Z.eqb_neq obj 0)), Htk, bind_Ok_l by done. cbn iota beta.
    destruct (IH s1 _ f1 l1 p1 b rest Hf1 HB Hb1) as (f' & s' & G' & l' & p' & -> & Hf' & He' & _ & Hkeep & HBo & Hfo & Hco & Hor); [lia | lia |].
    exists f', s', G', l', p'. split; [done |]. split; [done |]. split; [lia |]. split; [intros _ _; split; [lia | by apply Hkeep] |].
    split; [intros _; by apply Hkeep |]. split; [done |].
    split; [| done]. intros c Hc. rewrite Hfo by done. cbn. by rewrite upd_fun_ne.
Qed.

(** Why a fetch may stay short: no span of the class has a free slot and the page
    cache has no run for a new one. *)
Definition starved G : Prop :=
  (forall a, a ∈ g_B G idx -> g_free G a = ∅) /\
  exists p p', AllocSpan (W := W) p (GetMovePageNum (Size idx)) = Ok (0, p').

(** When the head of a tidy list is full, every span is. *)
Lemma tidy_dry free l a : tidy_list free (a :: l) -> free a = ∅ -> forall b, b ∈ a :: l -> free b = ∅.
Proof.
  unfold tidy_list. rewrite StronglySorted_cons, Forall_forall. intros [Ha _] Hfa b [-> | Hb]%elem_of_cons; [done |].
  by apply Ha.
Qed.

(** A span that is on no list is carved. *)
Lemma tidy_fresh G a F c : (forall j, is_class j -> a ∉ g_B G j) -> tidy G -> tidy (set_cap (set_free G a F) a c).
Proof.
  intros Ha Ht j Hj. split.
  - apply (tidy_ext (g_free G)); [| by apply (tidy_sorted G)]. intros b Hb. cbn. rewrite upd_fun_ne; [done |]. intros ->. by apply (Ha j).
  - intros b Hb. assert (b <> a) by (intros ->; by apply (Ha j)).
    apply (busy_sub G); cbn; [by rewrite upd_fun_ne | by rewrite upd_fun_ne |]. by apply (tidy_busy G j).
Qed.

(** Tidy but for the head [b] of the list, which has free slots. *)
Record tidy_but G (b : Z) (rest : list Z) : Prop := {
  tb_rest : tidy_list (g_free G) rest;
  tb_other : forall j, is_class j -> j <> idx -> tidy_list (g_free G) (g_B G j);
  tb_busy : forall j c, is_class j -> c ∈ g_B G j -> c <> b -> busy G c;
}.

Lemma tidy_but_head G b rest : tidy G -> g_B G idx = b :: rest -> tidy_but G b rest.
Proof.
  intros Ht HB. constructor.
  - pose proof (tidy_sorted G idx Ht Hidx) as Hl. rewrite HB in Hl. by apply StronglySorted_cons in Hl as [_ ?].
  - intros j Hj _. by apply tidy_sorted.
  - intros j c Hj Hc _. by eapply tidy_busy.
Qed.

(** A new head on a tidy list. *)
Lemma tidy_but_new G G' b : tidy G -> (forall j, is_class j -> b ∉ g_B G j) ->
  g_B G' = upd_fun (g_B G) idx (b :: g_B G idx) ->
  (forall c, c <> b -> g_free G' c = g_free G c /\ g_cap G' c = g_cap G c) -> tidy_but G' b (g_B G idx).
Proof.
  intros Ht Hb HB Hsame. assert (Htl : forall j, is_class j -> tidy_list (g_free G') (g_B G j)).
  { intros j Hj. eapply tidy_ext; [| by apply tidy_sorted]. intros c Hc.
    destruct (Hsame c) as [-> _]; [| done]. intros ->. by apply (Hb j). }
  constructor.
  - by apply Htl.
  - intros j Hj Hne. rewrite HB, upd_fun_ne by done. by apply Htl.
  - intros j c Hj Hc Hne. destruct (Hsame c Hne) as [Hf Hk]. apply (busy_sub G); [done | by rewrite Hf |].
    apply (tidy_busy G j c Ht Hj). rewrite HB in Hc. destruct (decide (j = idx)) as [-> | Hji].
    + rewrite upd_fun_eq in Hc. by apply elem_of_cons in Hc as [? | ?].
    + by rewrite upd_fun_ne in Hc.
Qed.

(** The state at the head of the outer loop. *)
Definition ready s G f : Prop := tidy G /\ fe_begin f = default (bucket_head idx) (head (g_B G idx)).

(** Carving from the head of the list and the rotation that follows. *)
Lemma carve_round_ok s G f l p b rest target :
  fetching' s G f l p -> tidy_but G b rest -> g_B G idx = b :: rest -> fe_begin f = b -> g_free G b <> ∅ -> fe_extracted f < target ->
  exists f1 s1 full f' s' G' l' p',
    carve (S (Z.to_nat (target - fe_extracted f))) s idx need target f = Ok (f1, s1) /\
    begin_full s1 f1 = Ok full /\ (if full : bool then rotate s1 idx f1 else Ok (f1, s1)) = Ok (f', s') /\
    fetching' s' G' f' l' p' /\ ready s' G' f' /\ fe_extracted f < fe_extracted f' <= target.
Proof.
  intros Hf [Htl Hto Hbz] HB Hb Hne Hlt. pose proof (ft_inv _ _ _ _ _ _ _ _ _ _ _ _ Hf) as Hi.
  assert (Hnodup : NoDup (b :: rest) /\ forall j, is_class j -> j <> idx -> b ∉ g_B G j).
  { split.
    - pose proof (proj1 (proj2 (ci_list _ _ _ _ Hi idx Hidx))) as Hnd. rewrite HB in Hnd. by apply NoDup_cons in Hnd as [_ ?].
    - intros j Hj Hjne Hbj. apply Hjne. eapply (ci_class _ _ _ _ j idx b); try done. rewrite HB. left. }
  destruct Hnodup as [[Hbr Hnr]%NoDup_cons Hbo].
  destruct (carve_ok (S (Z.to_nat (target - fe_extracted f))) target s G f l p b rest Hf HB Hb)
    as (f1 & s1 & G1 & l1 & p1 & Hcv & Hf1 & He & Hpr & _ & HBo & Hfr & Hcp & Hor); [lia | lia |].
  destruct (Hpr Hne Hlt) as [Hext Hbb].
  assert (Hin : forall j c, is_class j -> c ∈ g_B G1 j -> busy G1 c).
  { intros j c Hj Hc. destruct (decide (c = b)) as [-> | Hcb]; [done |].
    apply (busy_sub G); [by rewrite Hcp | by rewrite Hfr |]. apply (Hbz j c Hj); [| done].
    destruct (decide (j = idx)) as [-> | Hji]; [| by rewrite <- HBo]. rewrite HB.
    destruct Hor as [(HB1 & _) | (HB1 & _)]; rewrite HB1 in Hc; set_solver. }
  assert (Htr : tidy_list (g_free G1) rest).
  { eapply tidy_ext; [| exact Htl]. intros c Hc. rewrite Hfr; [done |]. by intros ->. }
  assert (Hto1 : forall j, is_class j -> j <> idx -> tidy_list (g_free G1) (g_B G1 j)).
  { intros j Hj Hjne. rewrite HBo by done. eapply tidy_ext; [| by apply Hto]. intros c Hc. rewrite Hfr; [done |].
    intros ->. by eapply Hbo. }
  (* the head [c] of the list, whichever it is *)
  assert (Hhead : exists c tl, g_B G1 idx = c :: tl /\ fe_begin f1 = c /\ tidy_list (g_free G1) tl /\
            (g_free G1 c = ∅ -> tidy_list (g_free G1) (tl ++ [c])) /\ (g_free G1 c <> ∅ -> tidy_list (g_free G1) (c :: tl))).
  { destruct Hor as [(HB1 & Hb1 & _) | (HB1 & Hb1 & Hfull)].
    - exists b, rest. split_and!; try done; intros Hfb; [by apply tidy_back | by apply tidy_front].
    - assert (Hall : tidy_list (g_free G1) (rest ++ [b])) by (by apply tidy_back).
      destruct rest as [| c tl]; cbn in HB1, Hb1.
      + exists b, []. split_and!; try done.
      + exists c, (tl ++ [b]). split_and!; try done.
        * by apply StronglySorted_cons in Hall as [_ ?].
        * intros Hfc. apply tidy_back; [done |]. by apply StronglySorted_cons in Hall as [_ ?]. }
  destruct Hhead as (c & tl & HB1 & Hb1 & Htt & Hfullc & Hopenc).
  pose proof (ft_inv _ _ _ _ _ _ _ _ _ _ _ _ Hf1) as Hi1.
  assert (HcB : c ∈ g_B G1 idx) by (rewrite HB1; left).
  destruct (ci_span _ _ _ _ Hi1 idx c Hidx HcB) as (d & Hcd & Hr & _).
  destruct (dll_mapped _ _ _ c (ci_list _ _ _ _ Hi1 idx Hidx)) as [Hc0 _]; [by right |].
  assert (Hbf : begin_full s1 f1 = Ok (bool_decide (g_free G1 c = ∅))).
  { unfold begin_full. rewrite Hb1, (get_span_Some _ _ d), bind_Ok_l by done. by rewrite (IsFull_rep _ _ _ Hr). }
  exists f1, s1, (bool_decide (g_free G1 c = ∅)). case_bool_decide as Hfc.
  - destruct (rotate_ok s1 G1 f1 l1 p1 c tl Hf1 HB1 Hb1) as (f2 & s2 & Hrot & Hf2 & He2 & Hb2).
    exists f2, s2, (set_B G1 idx (tl ++ [c])), l1, p1. do 4 (split; [done |]). split; [split |]; [| cbn; by rewrite upd_fun_eq | lia].
    intros j Hj. cbn. destruct (decide (j = idx)) as [-> | Hjne].
    + rewrite upd_fun_eq. split; [by apply Hfullc |]. intros e He'. apply (Hin idx e Hidx). rewrite HB1. set_solver.
    + rewrite upd_fun_ne by done. split; [by apply Hto1 | by intros e; apply Hin].
  - exists f1, s1, G1, l1, p1. do 4 (split; [done |]). split; [split |]; [| by rewrite HB1 | lia].
    intros j Hj. split; [| by intros e; apply Hin].
    destruct (decide (j = idx)) as [-> | Hjne]; [rewrite HB1; by apply Hopenc | by apply Hto1].
Qed.

(** The check at the head of the outer loop, and the refill. *)
Lemma fetch_refill_ok s G f l p :
  fetching' s G f l p -> ready s G f ->
  exists e dry a s1 G1, sl_empty (cc_spans s) (bucket_head idx) = Ok e /\
    (if e : bool then Ok true else begin_full s f) = Ok dry /\
    (dry = false -> exists b rest, g_B G idx = b :: rest /\ fe_begin f = b /\ g_free G b <> ∅) /\
    (dry = true -> (forall a, a ∈ g_B G idx -> g_free G a = ∅) /\
       GetOneSpan s idx (Size idx) = Ok (a, s1) /\
       got_one s G (give Hd idx (list_to_set (l ++ p))) V idx a s1 G1).
Proof.
  intros Hf [Ht Hbeg]. pose proof (ft_inv _ _ _ _ _ _ _ _ _ _ _ _ Hf) as Hi.
  destruct (GetOneSpan_ok s G _ V idx Hi Hidx) as (a & s1 & G1 & Hg & Hgo).
  rewrite (sl_empty_dll _ _ _ (ci_list _ _ _ _ Hi idx Hidx)).
  destruct (g_B G idx) as [| b rest] eqn:HB.
  { exists true, true, a, s1, G1. split; [done |]. split; [done |]. split; [done |]. intros _. split; [set_solver | done]. }
  cbn in Hbeg. assert (HbB : b ∈ g_B G idx) by (rewrite HB; left).
  destruct (ci_span _ _ _ _ Hi idx b Hidx HbB) as (d & Hbd & Hr & _).
  destruct (dll_mapped _ _ _ b (ci_list _ _ _ _ Hi idx Hidx)) as [Hb0 _]; [by right |].
  exists false, (bool_decide (g_free G b = ∅)), a, s1, G1. split; [done |]. split.
  { unfold begin_full. rewrite Hbeg, (get_span_Some _ _ d), bind_Ok_l by done. by rewrite (IsFull_rep _ _ _ Hr). }
  split; [intros Hfb%bool_decide_eq_false; eauto |]. intros Hfb%bool_decide_eq_true. split; [| done].
  apply tidy_dry; [| done]. rewrite <- HB. by apply Ht.
Qed.

Lemma fetch_loop_ok fuel target : forall s G f l p,
  fetching' s G f l p -> ready s G f -> fe_extracted f <= target ->
  (Z.to_nat (target - fe_extracted f) < fuel)%nat ->
  exists f' s' G' l' p', fetch_loop fuel s idx (Size idx) need target f = Ok (f', s') /\
    fetching' s' G' f' l' p' /\ tidy G' /\ fe_extracted f' <= target /\ (fe_extracted f' = target \/ starved G').
Proof.
  induction fuel as [| fuel IH]; intros s G f l p Hf Hrdy Hle Hfuel; [lia |]. cbn [fetch_loop].
  destruct (Z.ltb_spec (fe_extracted f) target) as [Hlt | Hge].
  2:{ exists f, s, G, l, p. split; [done |]. split; [done |]. split; [apply Hrdy |]. split; [lia |]. left. lia. }
  destruct (fetch_refill_ok s G f l p Hf Hrdy) as (e & dry & a & s1 & G1 & -> & Hdry & Hno & Hyes).
  rewrite bind_Ok_l. cbn beta. rewrite Hdry, bind_Ok_l. cbn iota beta. destruct Hrdy as [Ht Hbeg].
  (* one round from a state whose head has a free slot *)
  assert (Hround : forall sx Gx fx b rest, fetching' sx Gx fx l p -> tidy_but Gx b rest ->
            g_B Gx idx = b :: rest -> fe_begin fx = b -> g_free Gx b <> ∅ -> fe_extracted fx = fe_extracted f ->
            exists f' s' G' l' p', ('(f, s) ← carve (S (Z.to_nat (target - fe_extracted fx))) sx idx need target (count_traversal fx);
                 full ← begin_full s f; '(f, s) ← (if full : bool then rotate s idx f else Ok (f, s));
                 fetch_loop fuel s idx (Size idx) need target f) = Ok (f', s') /\
              fetching' s' G' f' l' p' /\ tidy G' /\ fe_extracted f' <= target /\ (fe_extracted f' = target \/ starved G')).
  { intros sx Gx fx b rest Hfx Htb HB Hb Hne Hex.
    assert (Hfx2 : fetching' sx Gx (count_traversal fx) l p) by (destruct Hfx; by constructor).
    destruct (carve_round_ok sx Gx (count_traversal fx) l p b rest target Hfx2 Htb HB Hb Hne) as
      (f1 & s2 & full & f2 & s3 & G2 & l2 & p2 & Hcv & Hbf & Hrot & Hf2 & Hr2 & Hext); [cbn; lia |].
    cbn [count_traversal fe_extracted] in Hcv, Hext. rewrite Hcv, bind_Ok_l. cbn iota beta.
    rewrite Hbf, bind_Ok_l, Hrot, bind_Ok_l. cbn iota beta. apply (IH _ G2 _ l2 p2); [done | done | lia | lia]. }
  destruct dry.
  - destruct Hyes as (Hfull & -> & Hgo); [done |]. rewrite bind_Ok_l. cbn iota beta.
    destruct Hgo as [Hi1 Hun1 Hb1 HT1 Hoom Hnew]. destruct (Z.eqb_spec a 0) as [-> | Ha0].
    + rewrite bind_Ok_l. cbn iota beta. exists f, s1, G1, l, p. split; [done |]. split; [by eapply fetching_move |].
      destruct Hoom as (HB1 & Hf1 & Hc1 & p' & Hal); [done |]. split; [by apply (tidy_kept G) |].
      split; [lia |]. right. split; [by rewrite HB1, Hf1 | by do 2 eexists].
    + destruct Hnew as (HB1 & Hfa & Hfo & Hano); [done |].
      assert (HBi : g_B G1 idx = a :: g_B G idx) by (by rewrite HB1, upd_fun_eq).
      pose proof (ci_list _ _ _ _ Hi1 idx Hidx) as Hl1. rewrite HBi in Hl1.
      rewrite (sl_begin_dll _ _ _ Hl1), bind_Ok_l. cbn iota beta. rewrite bind_Ok_l. cbn iota beta. cbn [negb head default].
      apply (Hround s1 G1 (set_begin f a) a (g_B G idx)); try done; [by eapply fetching_move | by apply (tidy_but_new G)].
  - destruct Hno as (b & rest & HB & Hb & Hne); [done |]. rewrite bind_Ok_l. cbn iota beta. cbn [negb].
    apply (Hround s G f b rest); try done. by apply tidy_but_head.
Qed.
End Loops.

(** *** The whole call *)

Lemma cc_inv_stats_pos s G Hd V c n : cc_inv s G Hd V -> cc_inv (cc_add_pos c n s) G Hd V.
Proof. intros Hi. unfold cc_add_pos. case_cmp; [by apply cc_inv_stats | done]. Qed.
Lemma stats_pos_same s c n : cc_mem (cc_add_pos c n s) = cc_mem s /\ cc_pages (cc_add_pos c n s) = cc_pages s /\
  cc_buckets (cc_add_pos c n s) = cc_buckets s.
Proof. unfold cc_add_pos. by case_cmp. Qed.

(** The probe of the transfer cache takes its hot end. *)
Lemma fetch_transfer_ok s G Hd V idx n :
  cc_inv s G Hd V -> is_class idx -> 0 <= n ->
  exists objs s' G', fetch_transfer s idx n = Ok (objs, s') /\
    cc_inv s' G' (give Hd idx (list_to_set objs)) V /\ NoDup objs /\ (forall x, x ∈ objs -> x ∉ Hd idx) /\
    Z.of_nat (length objs) = Z.min n (transfer_cache_size (cc_buckets s idx)) /\
    undisturbed Hd V s s' /\ (tidy G -> tidy G') /\ cc_pages s' = cc_pages s.
Proof.
  intros Hi Hidx Hn. pose proof (ci_tc _ _ _ _ Hi idx Hidx) as Ht. pose proof (tr_size _ _ _ Ht) as Hsz.
  set (T := g_T G idx) in *. set (k := Z.to_nat (Z.min n (transfer_cache_size (cc_buckets s idx)))).
  assert (Hk : (k <= length T)%nat) by lia. unfold fetch_transfer. fold k.
  destruct (tc_pop_loop_ok k (cc_mem s) _ T Ht Hk) as (b' & -> & Ht' & Hsl). rewrite bind_Ok_l. cbn iota beta.
  set (objs := rev (drop (length T - k) T)). do 2 eexists. exists (set_T G idx (take (length T - k) T)).
  split; [done |]. pose proof (ci_once _ _ _ _ Hi idx Hidx) as Hnd. fold T in Hnd.
  rewrite <- (take_drop (length T - k) T) in Hnd. apply NoDup_app in Hnd as (Hn1 & Hn12 & Hn2).
  assert (Hob : forall x, x ∈ objs <-> x ∈ drop (length T - k) T).
  { intros x. subst objs. by rewrite <- Permutation_rev. }
  assert (HT : forall x, x ∈ T <-> x ∈ take (length T - k) T \/ x ∈ objs).
  { intros x. rewrite <- (take_drop (length T - k) T) at 1. by rewrite elem_of_app, Hob. }
  assert (Hnot : forall x, x ∈ objs -> x ∉ Hd idx).
  { intros x Hx. apply (ci_apart _ _ _ _ Hi idx x Hidx). fold T. apply HT. by right. }
  split.
  { apply cc_inv_stats_pos. replace s with (with_mem s (cc_mem s)) at 1 by (by destruct s).
    apply (bucket_ok s G Hd V idx b' (cc_mem s) (take (length T - k) T)); try done.
    - intros x. unfold give. rewrite upd_fun_eq. fold T. rewrite HT, elem_of_union, elem_of_list_to_set. tauto.
    - intros j Hj. unfold give. by rewrite upd_fun_ne.
    - intros x Hx. unfold give. rewrite upd_fun_eq, elem_of_union, elem_of_list_to_set. intros [Hin | Hin].
      + apply (ci_apart _ _ _ _ Hi idx x Hidx); [fold T; apply HT; by left | done].
      + apply (Hn12 x Hx). by apply Hob. }
  split; [subst objs; by rewrite <- Permutation_rev |]. split; [done |].
  split; [subst objs; rewrite length_rev, length_drop; lia |].
  set (g := Z.min n _). destruct (stats_pos_same (with_bucket s idx b') fetch_transfer_hit_objects g) as (Em & Ep & _).
  split; [| split; [intros Htd; exact Htd | by rewrite Ep]].
  constructor; [intros w _; by rewrite Em | intros v _; unfold cc_spans; by rewrite Ep].
Qed.

(** Prefetched objects enter the transfer cache; the excess is released. *)
Lemma publish_prefetched_ok s G Hd V idx objs :
  cc_inv s G Hd V -> is_class idx -> NoDup objs -> (forall x, x ∈ objs -> x ∈ Hd idx) ->
  exists s' G', publish_prefetched s idx objs = Ok s' /\
    cc_inv s' G' (take_back Hd idx (list_to_set objs)) V /\
    undisturbed (take_back Hd idx (list_to_set objs)) V s s' /\ (tidy G -> tidy G').
Proof.
  intros Hi Hidx Hnd Hin. destruct objs as [| o objs'].
  { exists s, G. split; [done |]. split; [| done]. eapply cc_inv_held; [| exact Hi]. intros j _.
    unfold take_back, upd_fun. case_decide; subst; set_solver. }
  unfold publish_prefetched. set (objs := o :: objs') in *.
  destruct (tc_absorb_ok s G Hd V idx objs Hi Hidx Hnd Hin) as (pushed & rest & s1 & -> & Heq & Hi1 & Habs & _ & _ & Hun).
  clearbody objs. subst objs. rewrite bind_Ok_l. cbn iota beta. set (H1' := take_back Hd idx (list_to_set pushed)) in *.
  assert (Hun1 : undisturbed H1' V s s1) by (apply Hun; [intros j _; apply take_back_sub | done]).
  destruct rest as [| r rest].
  { rewrite app_nil_r. do 2 eexists. split; [done |]. split; [exact Hi1 |]. split; [done | by intros Ht]. }
  apply NoDup_app in Hnd as (_ & Hpr & Hnr).
  destruct (link_release_ok s1 _ H1' V idx kTransferCache r rest Hi1 Hidx Hnr) as (h & m' & b & s2 & G2 & -> & Hmk & Hrel & [Hi3 _ Hun3 Htd _]).
  { intros x Hx. subst H1'. unfold take_back. rewrite upd_fun_eq, elem_of_difference, elem_of_list_to_set.
    split; [apply Hin, elem_of_app; by right |]. intros Hp. by apply (Hpr x). }
  rewrite bind_Ok_l. cbn iota beta zeta. cbn [cc_mem with_mem]. rewrite Hmk, bind_Ok_l. exists s2, G2. split; [exact Hrel |].
  assert (Hq : forall j, take_back H1' idx (list_to_set (r :: rest)) j = take_back Hd idx (list_to_set (pushed ++ r :: rest)) j).
  { intros j. subst H1'. by rewrite take_back_app. }
  split; [eapply cc_inv_held; [| exact Hi3]; intros j _; by rewrite Hq |]. split; [| intros Ht; by apply Htd].
  eapply undisturbed_mono; [| reflexivity |]; [intros j _; rewrite <- Hq; reflexivity |].
  eapply undisturbed_trans; [eapply undisturbed_mono; [| reflexivity | exact Hun1]; intros j _; apply take_back_sub | exact Hun3].
Qed.

(** What the caller of [FetchBatch] gets. *)
Record fetched_batch s Hd V (idx n : Z) (b : ObjectBatch) s' G' (l : list Z) : Prop := {
  fb_inv : cc_inv s' G' (give Hd idx (list_to_set l)) V;
  fb_rep : batch_rep (cc_mem s') b idx l;
  fb_nodup : NoDup l;
  fb_new : forall x, x ∈ l -> x ∉ Hd idx;
  fb_len : Z.of_nat (length l) <= n;
  fb_und : undisturbed Hd V s s';
  fb_tidy : tidy G';
  fb_short : Z.of_nat (length l) = n \/
    exists p p', AllocSpan (W := W) p (GetMovePageNum (Size idx)) = Ok (0, p');
}.

(** The span-list phase, when the transfer cache gave [l] only. *)
Lemma fetch_spans_ok s G Hd V idx n head tail l :
  cc_inv s G (give Hd idx (list_to_set l)) V -> tidy G -> is_class idx -> NoDup l -> (forall x, x ∈ l -> x ∉ Hd idx) ->
  seg (cc_mem s) head l 0 -> tail = default 0 (last l) -> Z.of_nat (length l) < n <= kMaxBatchSize ->
  exists f s1 s2 G2 l', fetch_spans s idx (Size idx) (n - Z.of_nat (length l))
      (u64 (n - Z.of_nat (length l) + n)) head tail (Z.of_nat (length l)) = Ok (f, s1) /\
    publish_prefetched s1 idx (fe_prefetched f) = Ok s2 /\
    cc_inv s2 G2 (give Hd idx (list_to_set l')) V /\ tidy G2 /\ NoDup l' /\ (forall x, x ∈ l' -> x ∉ Hd idx) /\
    seg (cc_mem s2) (fe_head f) l' 0 /\ fe_tail f = default 0 (last l') /\ fe_fetched f = Z.of_nat (length l') /\
    Z.of_nat (length l') <= n /\ undisturbed Hd V s s2 /\
    (Z.of_nat (length l') = n \/ exists p p', AllocSpan (W := W) p (GetMovePageNum (Size idx)) = Ok (0, p')).
Proof.
  intros Hi Ht Hidx Hnd Hnew Hseg Htail Hlen. assert (HkM : kMaxBatchSize = 512) by (vm_compute; done).
  rewrite u64_id by lia. set (need := n - Z.of_nat (length l)). set (target := need + n).
  unfold fetch_spans. rewrite (sl_begin_dll _ _ _ (ci_list _ _ _ _ Hi idx Hidx)), bind_Ok_l.
  set (f0 := mkFetch _ _ _ _ _ _ _ _).
  assert (Hf0 : fetching s Hd V idx (Z.of_nat (length l)) need (g_T G) s G f0 l []).
  { constructor; cbn; rewrite ?app_nil_r; try done; lia. }
  destruct (fetch_loop_ok s Hd V idx _ need (g_T G) Hidx (S (Z.to_nat target)) target s G f0 l [] Hf0)
    as (f & s1 & G1 & l1 & p1 & -> & Hf1 & Ht1 & Hle & Hor); [by split | cbn; lia | cbn; lia |].
  rewrite bind_Ok_l. cbn iota beta. set (s1' := cc_add_pos spanlist_rotations _ _).
  destruct Hf1 as [Hi1 Hnd1 Hnew1 Hseg1 Htl1 Hct1 Hpre1 Hext1 Hneed1 Hfirst1 Hun1 _ _].
  assert (Hs1 : cc_inv s1' G1 (give Hd idx (list_to_set (l1 ++ p1))) V /\ cc_mem s1' = cc_mem s1 /\ cc_spans s1' = cc_spans s1).
  { subst s1'. split; [by do 3 apply cc_inv_stats_pos |]. unfold cc_spans.
    destruct (stats_pos_same s1 fetch_span_list_objects (fe_extracted f)) as (E1 & E2 & _).
    set (sa := cc_add_pos _ _ s1) in *. destruct (stats_pos_same sa spanlist_traversals (fe_traversals f)) as (E3 & E4 & _).
    set (sb := cc_add_pos _ _ sa) in *. destruct (stats_pos_same sb spanlist_rotations (fe_rotations f)) as (E5 & E6 & _).
    split; [congruence |]. by rewrite E6, E4, E2. }
  destruct Hs1 as (Hi1' & Em & Esp). apply NoDup_app in Hnd1 as (Hn1 & Hn12 & Hn2).
  destruct (publish_prefetched_ok s1' G1 _ V idx p1 Hi1' Hidx Hn2) as (s2 & G2 & Hpub & Hi2 & Hun2 & Htd2).
  { intros x Hx. unfold give. rewrite upd_fun_eq. set_solver. }
  assert (Heq : forall j, take_back (give Hd idx (list_to_set (l1 ++ p1))) idx (list_to_set p1) j = give Hd idx (list_to_set l1) j).
  { intros j. unfold take_back, give. destruct (decide (j = idx)) as [-> | Hne]; [| by rewrite !upd_fun_ne].
    rewrite !upd_fun_eq. apply set_eq. intros x. rewrite elem_of_difference, !elem_of_union, !elem_of_list_to_set, elem_of_app.
    destruct (decide (x ∈ p1)) as [Hx | Hx]; [| tauto]. split; [tauto |]. intros [Hin | Hin].
    - exfalso. apply (Hnew1 x); [apply elem_of_app; by right | done].
    - by exfalso; apply (Hn12 x). }
  assert (Hun2' : undisturbed (give Hd idx (list_to_set l1)) V s1 s2).
  { constructor.
    - intros w Hw. rewrite <- Em. apply Hun2. eapply user_word_mono; [| reflexivity | exact Hw]. intros j _. by rewrite Heq.
    - intros v Hv. rewrite <- Esp. by apply Hun2. }
  exists f, s1', s2, G2, l1. split; [done |]. rewrite Hpre1. split; [done |].
  split; [eapply cc_inv_held; [| exact Hi2]; intros j _; by rewrite Heq |]. split; [by apply Htd2 |]. split; [done |].
  split; [intros x Hx; apply Hnew1, elem_of_app; by left |]. split.
  { eapply seg_frame; [| exact Hseg1]. intros x Hx. apply Hun2'. left. exists idx, x. pose proof (Size_range idx Hidx) as Hsz.
    unfold ALIGNMENT in Hsz. split; [done |]. split; [| lia]. unfold give. rewrite upd_fun_eq. set_solver. }
  split; [done |]. split; [done |]. split; [lia |]. split.
  { eapply undisturbed_trans; [exact Hun1 |]. eapply undisturbed_mono; [| reflexivity | exact Hun2']. intros j _. apply give_sub. }
  destruct Hor as [Hfull | [_ Hst]]; [left | by right].
  destruct p1 as [| y p1]; [cbn [length] in Hext1; lia | rewrite Hfirst1 by done; lia].
Qed.

Lemma FetchBatch_ok s G Hd V idx n :
  cc_inv s G Hd V -> tidy G -> is_class idx -> 0 <= n <= kMaxBatchSize ->
  exists b s' G' l, FetchBatch s idx n = Ok (b, s') /\ fetched_batch s Hd V idx n b s' G' l.
Proof.
  intros Hi Ht Hidx Hn. unfold FetchBatch.
  rewrite (proj2 (Z.ltb_lt _ _)), AM_DCHECK_true, bind_Ok_l by apply Hidx.
  rewrite (proj2 (Z.leb_le _ _)), AM_DCHECK_true, bind_Ok_l by apply Hn.
  destruct (Z.eqb_spec n 0) as [-> | Hn0].
  { exists empty_batch, s, G, []. split; [done |]. constructor; try done; try apply NoDup_nil_2.
    all: try (by apply empty_batch_rep); try (by left); try (intros ? ?%elem_of_nil; done).
    eapply cc_inv_held; [| exact Hi]. intros j _. unfold give, upd_fun. case_decide; subst; set_solver. }
  cbn zeta. destruct (fetch_transfer_ok s G Hd V idx n Hi Hidx) as (l & s1 & G1 & -> & Hi1 & Hnd & Hnew & Hlen & Hun & Htd & _); [lia |].
  specialize (Htd Ht). rewrite bind_Ok_l. cbn iota beta.
  assert (Hobj : forall x, x ∈ l -> x ∈ give Hd idx (list_to_set l) idx).
  { intros x Hx. unfold give. rewrite upd_fun_eq. set_solver. }
  assert (H0l : 0 ∉ l).
  { intros Hx. by destruct (object_word _ _ _ _ Hi1 idx 0 Hidx (or_introl (Hobj 0 Hx))) as (_ & _ & Hnz & _). }
  destruct (link_all_ok (cc_mem s1) (rev l) 0 []) as (head & m' & -> & Hseg & Hm);
    [done | by rewrite <- Permutation_rev | set_solver | by rewrite <- Permutation_rev |].
  rewrite rev_involutive, app_nil_r in Hseg. rewrite bind_Ok_l. cbn iota beta. set (s2 := with_mem s1 m').
  assert (Hm2 : same_except l (cc_mem s1) m') by (intros w Hw; apply Hm; by rewrite <- Permutation_rev).
  assert (Hi2 : cc_inv s2 G1 (give Hd idx (list_to_set l)) V).
  { eapply links_ok; [exact Hi1 | exact Hm2 |]. intros x Hx. exists idx. split; [done | left; by apply Hobj]. }
  assert (Hun2 : undisturbed Hd V s s2).
  { eapply undisturbed_trans; [exact Hun |]. eapply (links_undisturbed s1); [exact Hi1 | exact Hm2 | intros j _; apply give_sub | done |].
    intros x Hx. exists idx. split; [done |]. split; [left; by apply Hobj | by apply Hnew]. }
  assert (Hfin : exists head' tail' l' s3 G3,
    (if Z.of_nat (length l) <? n
     then '(f, s) ← fetch_spans s2 idx (Size idx) (n - Z.of_nat (length l)) (u64 (n - Z.of_nat (length l) + n))
                      head (default 0 (last l)) (Z.of_nat (length l));
          s ← publish_prefetched s idx (fe_prefetched f); Ok (fe_head f, fe_tail f, fe_fetched f, s)
     else Ok (head, default 0 (last l), Z.of_nat (length l), s2)) = Ok (head', tail', Z.of_nat (length l'), s3) /\
    cc_inv s3 G3 (give Hd idx (list_to_set l')) V /\ tidy G3 /\ NoDup l' /\ (forall x, x ∈ l' -> x ∉ Hd idx) /\
    seg (cc_mem s3) head' l' 0 /\ tail' = default 0 (last l') /\ Z.of_nat (length l') <= n /\ undisturbed Hd V s s3 /\
    (Z.of_nat (length l') = n \/ exists p p', AllocSpan (W := W) p (GetMovePageNum (Size idx)) = Ok (0, p'))).
  { destruct (Z.ltb_spec (Z.of_nat (length l)) n) as [Hlt | Hge].
    - destruct (fetch_spans_ok s2 G1 Hd V idx n head _ l Hi2 Htd Hidx Hnd Hnew Hseg eq_refl) as
        (f & s3 & s4 & G4 & l' & -> & Hpub & Hi4 & Ht4 & Hnd4 & Hnew4 & Hseg4 & Htl4 & Hct4 & Hlen4 & Hun4 & Hor); [lia |].
      rewrite bind_Ok_l. cbn iota beta. rewrite Hpub, bind_Ok_l, Hct4.
      exists (fe_head f), (fe_tail f), l', s4, G4. split; [done |]. do 7 (split; [done |]). split; [| done].
      by eapply undisturbed_trans.
    - exists head, (default 0 (last l)), l, s2, G1. split; [done |]. do 6 (split; [done |]). split; [lia |]. split; [done |].
      left. lia. }
  destruct Hfin as (head' & tail' & l' & s3 & G3 & -> & Hi3 & Ht3 & Hnd3 & Hnew3 & Hseg3 & Htl3 & Hlen3 & Hun3 & Hor).
  rewrite bind_Ok_l. cbn iota beta. destruct (Z.eqb_spec (Z.of_nat (length l')) 0) as [E | E].
  { destruct l'; [| cbn in E; lia]. exists empty_batch, s3, G3, []. split; [done |]. constructor; try done; by apply empty_batch_rep. }
  destruct (make_batch_rep (cc_mem s3) head' tail' (Z.of_nat (length l')) idx l') as [Hmk Hb]; [by split | by destruct l' | done |].
  rewrite Hmk, bind_Ok_l. exists (mkBatch head' tail' (Z.of_nat (length l')) idx), s3, G3, l'. split; [done |]. by constructor.
Qed.
End Fetch.
