(* ===== verification/CentralDrain.v ===== *)
(** * Draining the transfer caches

    [DrainTransferCaches] (central_cache.cpp) takes pointers off the cold ends of
    the circular arrays, largest class first, and hands them to the bitmaps; a
    bounded call stays within its budget, an unbounded one empties every array. *)
From S2P Require Import Prelude Config SizeClass FreeList Common Span SpanList Backing PageMap PageCache PageCacheInv.
From S2P Require Import PageCacheAlloc PageCacheMerge PageCacheRelease CentralCache CentralInv CentralSteps CentralRelease.
From S2P Require Import CentralFetch.
Open Scope Z_scope.

(** The bytes in the arrays of the classes below [n]. *)
Fixpoint tc_bytes (T : Z -> list Z) (n : nat) : Z :=
  match n with
  | O => 0
  | S n' => Z.of_nat (length (T (Z.of_nat n'))) * Size (Z.of_nat n') + tc_bytes T n'
  end.

Lemma tc_bytes_ext T T' n : (forall i, 0 <= i < Z.of_nat n -> length (T i) = length (T' i)) -> tc_bytes T n = tc_bytes T' n.
Proof.
  induction n as [| n IH]; intros Heq; [done |]. cbn [tc_bytes]. rewrite IH by (intros; apply Heq; lia).
  by rewrite Heq by lia.
Qed.

(** What a call leaves: of every array a part at the hot end. *)
Definition hot_part (T T' : Z -> list Z) : Prop := forall i, is_class i -> exists n, T' i = drop n (T i).

Lemma hot_part_refl T : hot_part T T.
Proof. intros i _. by exists O. Qed.
Lemma hot_part_trans T1 T2 T3 : hot_part T1 T2 -> hot_part T2 T3 -> hot_part T1 T3.
Proof.
  intros H12 H23 i Hi. destruct (H12 i Hi) as [n En], (H23 i Hi) as [k Ek].
  exists (n + k)%nat. by rewrite Ek, En, drop_drop.
Qed.

Section Drain.
Context {W : Type} `{BackingLaws W} `{StaticLayout} `{CentralLayout}.
Implicit Types (s : CentralCache W) (G : ghost) (V : runs) (Hd : held).

(** Detaching the cold end, under the spin lock. *)
Lemma detach_cold_ok s G Hd V idx n :
  cc_inv s G Hd V -> is_class idx -> 0 < n <= Z.of_nat (length (g_T G idx)) ->
  exists s', detach_cold s idx n = Ok (take (Z.to_nat n) (g_T G idx), s') /\
    cc_inv s' (set_T G idx (drop (Z.to_nat n) (g_T G idx))) (give Hd idx (list_to_set (take (Z.to_nat n) (g_T G idx)))) V /\
    NoDup (take (Z.to_nat n) (g_T G idx)) /\ (forall x, x ∈ take (Z.to_nat n) (g_T G idx) -> x ∉ Hd idx) /\
    undisturbed Hd V s s'.
Proof.
  intros Hi Hidx Hn. pose proof (ci_tc _ _ _ _ Hi idx Hidx) as Ht. pose proof (tr_size _ _ _ Ht) as Hsz.
  pose proof (tr_fits _ _ _ Ht) as Hfit. pose proof (tr_cap _ _ _ Ht) as Hcap.
  set (T := g_T G idx) in *. pose proof (ci_once _ _ _ _ Hi idx Hidx) as Hnd. fold T in Hnd.
  set (k := Z.to_nat n). assert (Hk : (k <= length T)%nat) by lia.
  unfold detach_cold. rewrite Hsz, Z.min_l by lia. rewrite (proj2 (Z.eqb_neq n 0)) by lia. fold k.
  pose proof (tc_read_loop_ok k _ _ T 0 Ht ltac:(lia)) as Hread. rewrite drop_0 in Hread. change (Z.of_nat 0) with 0 in Hread.
  rewrite Hread, bind_Ok_l.
  assert (Hfirst : exists first, (if n =? transfer_cache_capacity (cc_buckets s idx) then Ok 0 else TransferIndex (cc_buckets s idx) n) = Ok first /\
      first = if decide (Z.of_nat k = transfer_cache_capacity (cc_buckets s idx)) then 0 else ring (cc_buckets s idx) (Z.of_nat k)).
  { replace (Z.of_nat k) with n by lia. destruct (Z.eqb_spec n (transfer_cache_capacity (cc_buckets s idx))) as [E | E].
    - exists 0. split; [done |]. by rewrite decide_True.
    - exists (ring (cc_buckets s idx) n). split; [| by rewrite decide_False]. apply (TransferIndex_ok _ _ _ _ Ht). lia. }
  destruct Hfirst as (first & -> & Hf). rewrite bind_Ok_l.
  pose proof (tc_rep_drop _ _ _ k first Ht Hk ltac:(lia) Hf) as Ht'.
  replace (Z.of_nat (length T - k)) with (u64 (Z.of_nat (length T) - n)) in Ht' by (rewrite u64_id by lia; lia).
  eexists. split; [done |]. rewrite <- (take_drop k T) in Hnd. apply NoDup_app in Hnd as (Hn1 & Hn12 & Hn2).
  assert (HT : forall x, x ∈ T <-> x ∈ take k T \/ x ∈ drop k T) by (intros x; rewrite <- elem_of_app, take_drop; done).
  assert (Hnot : forall x, x ∈ T -> x ∉ Hd idx) by (intros x; apply (ci_apart _ _ _ _ Hi idx x Hidx)).
  assert (Ein : forall x, x ∈ give Hd idx (list_to_set (take k T)) idx <-> x ∈ Hd idx \/ x ∈ take k T).
  { intros x. unfold give. by rewrite upd_fun_eq, elem_of_union, elem_of_list_to_set. }
  split; [| split; [done | split]].
  - replace s with (with_mem s (cc_mem s)) at 1 by (by destruct s).
    apply (bucket_ok s G Hd V idx _ (cc_mem s) (drop k T)); try done.
    + intros x. fold T. rewrite HT, Ein. tauto.
    + intros j Hj. unfold give. by rewrite upd_fun_ne.
    + intros x Hx. rewrite Ein. intros [Hin | Hin]; [| by apply (Hn12 x)]. by apply (Hnot x); [apply HT; right |].
  - intros x Hx. apply Hnot, HT. by left.
  - done.
Qed.

(** One round: detach, link, release to the bitmaps. *)
Lemma drain_round_ok s G Hd V idx n :
  cc_inv s G Hd V -> is_class idx -> 0 < n <= Z.of_nat (length (g_T G idx)) ->
  exists objs s1 first rest head m b s' G', detach_cold s idx n = Ok (objs, s1) /\ objs = first :: rest /\
    Z.of_nat (length objs) = n /\ link_all (cc_mem s1) objs 0 = Ok (head, m) /\ make_batch m head first n idx = Ok b /\
    ReleaseBatch (with_mem s1 m) b kSpanBitmap = Ok s' /\ cc_inv s' G' Hd V /\ undisturbed Hd V s s' /\
    (tidy G -> tidy G') /\ g_T G' idx = drop (Z.to_nat n) (g_T G idx) /\ (forall j, j <> idx -> g_T G' j = g_T G j).
Proof.
  intros Hi Hidx Hn. destruct (detach_cold_ok s G Hd V idx n Hi Hidx Hn) as (s1 & Hdet & Hi1 & Hnd & Hnot & Hun1).
  set (objs := take _ _) in *. assert (Hlen : Z.of_nat (length objs) = n) by (subst objs; rewrite length_take; lia).
  clearbody objs. destruct objs as [| first rest]; [cbn in Hlen; lia |].
  destruct (link_release_ok s1 _ _ V idx kSpanBitmap first rest Hi1 Hidx) as
    (h & m & b & s' & G' & Hlink & Hmk & Hrel & [Hi2 _ Hun2 Htd HT]); [done | |].
  { intros x Hx. unfold give. rewrite upd_fun_eq. set_solver. }
  rewrite Hlen in Hmk. set (objs := first :: rest) in *. specialize (HT eq_refl).
  assert (Heq : forall j, take_back (give Hd idx (list_to_set objs)) idx (list_to_set objs) j = Hd j).
  { intros j. unfold take_back, give, upd_fun. case_decide; [subst | done]. rewrite decide_True by done.
    apply set_eq. intros x. rewrite elem_of_difference, elem_of_union, elem_of_list_to_set. split; [tauto |].
    intros Hx. split; [by left | intros Hin; by apply (Hnot x)]. }
  exists objs, s1, first, rest, h, m, b, s', G'. do 6 (split; [done |]).
  split; [eapply cc_inv_held; [| exact Hi2]; intros j _; by rewrite Heq |]. split.
  { eapply undisturbed_trans; [exact Hun1 |]. eapply undisturbed_mono; [| reflexivity | exact Hun2].
    intros j _. by rewrite Heq. }
  split; [intros Ht; apply Htd; exact Ht |]. rewrite HT. cbn.
  split; [apply upd_fun_eq | intros j Hj; by apply upd_fun_ne].
Qed.

(** What a stretch of draining leaves behind. *)
Record drained s G Hd V s' G' : Prop := {
  dr_inv : cc_inv s' G' Hd V;
  dr_und : undisturbed Hd V s s';
  dr_tidy : tidy G -> tidy G';
  dr_hot : hot_part (g_T G) (g_T G');
}.

Lemma drained_refl s G Hd V : cc_inv s G Hd V -> drained s G Hd V s G.
Proof. intros Hi. constructor; [done | done | done | apply hot_part_refl]. Qed.
Lemma drained_trans s1 G1 s2 G2 s3 G3 Hd V :
  drained s1 G1 Hd V s2 G2 -> drained s2 G2 Hd V s3 G3 -> drained s1 G1 Hd V s3 G3.
Proof.
  intros [_ U1 T1 P1] [I2 U2 T2 P2]. constructor; [done | by eapply undisturbed_trans | auto | by eapply hot_part_trans].
Qed.

Lemma tc_length_bound s G Hd V idx : cc_inv s G Hd V -> is_class idx ->
  Z.of_nat (length (g_T G idx)) * Size idx < 2 ^ 50.
Proof.
  intros Hi Hidx. pose proof (ci_tc _ _ _ _ Hi idx Hidx) as Ht. pose proof (tr_fits _ _ _ Ht). pose proof (tr_cap _ _ _ Ht).
  pose proof (Size_range idx Hidx) as Hs. change (2 ^ 50) with 1125899906842624. unfold ALIGNMENT, MAX_TC_SIZE in *. nia.
Qed.

Lemma drain_loop_ok fuel s G Hd V idx unbounded n mb db :
  cc_inv s G Hd V -> is_class idx -> 0 <= n <= Z.of_nat (length (g_T G idx)) -> n <= Z.of_nat fuel ->
  (unbounded = false -> n * Size idx <= mb < W64) -> 0 <= db -> db + n * Size idx < W64 ->
  exists s' G', drain_loop fuel s idx (Size idx) unbounded n mb db =
      Ok (if unbounded then mb else mb - n * Size idx, db + n * Size idx, s') /\
    drained s G Hd V s' G' /\ g_T G' idx = drop (Z.to_nat n) (g_T G idx) /\ (forall j, j <> idx -> g_T G' j = g_T G j).
Proof.
  revert s G n mb db. induction fuel as [| fuel IH]; intros s G n mb db Hi Hidx Hn Hf Hmb Hdb Hov; cbn [drain_loop].
  { assert (n = 0) as -> by lia. cbn. exists s, G. rewrite Z.sub_0_r, Z.add_0_r. split; [by destruct unbounded |].
    split; [by apply drained_refl | done]. }
  destruct (Z.ltb_spec 0 n) as [H0n | H0n].
  2: { assert (n = 0) as -> by lia. cbn. exists s, G. rewrite Z.sub_0_r, Z.add_0_r. split; [by destruct unbounded |].
       split; [by apply drained_refl | done]. }
  set (k := Z.min kMaxBatchSize n). assert (Hk : 0 < k <= n) by (subst k; unfold kMaxBatchSize in *; lia).
  destruct (drain_round_ok s G Hd V idx k Hi Hidx) as (objs & s1 & first & rest & h & m & b & s2 & G2 & -> & -> & Hlen & Hlink & Hmk & Hrel & Hi2 & Hun2 & Htd2 & HT2 & HTo2); [lia |].
  rewrite bind_Ok_l, Hlen. cbn iota beta zeta. rewrite Hlink, bind_Ok_l. cbn iota beta zeta. rewrite Hmk, bind_Ok_l.
  rewrite Hrel, bind_Ok_l. pose proof (Size_range idx Hidx) as Hsz. unfold ALIGNMENT in Hsz.
  rewrite (u64_id (k * _)) by nia. rewrite (u64_id (db + _)) by nia.
  assert (Hr1 : drained s G Hd V s2 G2).
  { constructor; try done. intros i Hi'. destruct (decide (i = idx)) as [-> | Hne]; [by eexists |]. exists O. by rewrite HTo2. }
  destruct (IH s2 G2 (n - k) (if unbounded then mb else u64 (mb - k * Size idx)) (db + k * Size idx)) as (s3 & G3 & -> & Hr2 & HT3 & HTo3);
    try done; try nia.
  { rewrite HT2, length_drop. lia. }
  { intros ->. specialize (Hmb eq_refl). rewrite u64_id by nia. nia. }
  exists s3, G3. split.
  { replace (db + k * Size idx + (n - k) * Size idx) with (db + n * Size idx) by lia. destruct unbounded; [done |].
    specialize (Hmb eq_refl). rewrite u64_id by nia. by replace (mb - k * Size idx - _) with (mb - n * Size idx) by lia. }
  split; [by eapply drained_trans |]. rewrite HT3, HT2, drop_drop. split; [f_equal; lia |].
  intros j Hj. by rewrite HTo3, HTo2.
Qed.

Lemma drain_class_ok s G Hd V idx unbounded mb db :
  cc_inv s G Hd V -> is_class idx -> 0 <= mb < W64 -> 0 <= db -> db + Z.of_nat (length (g_T G idx)) * Size idx < W64 ->
  exists n s' G', drain_class s idx unbounded mb db =
      Ok (if unbounded then mb else mb - n * Size idx, db + n * Size idx, s') /\
    0 <= n <= Z.of_nat (length (g_T G idx)) /\
    drained s G Hd V s' G' /\ g_T G' idx = drop (Z.to_nat n) (g_T G idx) /\ (forall j, j <> idx -> g_T G' j = g_T G j) /\
    if unbounded then n = Z.of_nat (length (g_T G idx))
    else n * Size idx <= mb /\ (n = Z.of_nat (length (g_T G idx)) \/ mb - n * Size idx < Size idx).
Proof.
  intros Hi Hidx Hmb Hdb Hov. pose proof (Size_range idx Hidx) as Hsz. unfold ALIGNMENT in Hsz.
  pose proof (tr_size _ _ _ (ci_tc _ _ _ _ Hi idx Hidx)) as Hsize. unfold drain_class. rewrite Hsize.
  destruct unbounded; cbn [negb andb].
  - rewrite bind_Ok_l. exists (Z.of_nat (length (g_T G idx))).
    destruct (drain_loop_ok (Z.to_nat (Z.of_nat (length (g_T G idx)))) s G Hd V idx true (Z.of_nat (length (g_T G idx))) mb db)
      as (s' & G' & -> & Hr & HT & HTo); try done; try lia.
    exists s', G'. by split_and!; try lia.
  - destruct (Z.ltb_spec mb (Size idx)) as [Hlt | Hge].
    { exists 0, s, G. rewrite Z.mul_0_l, Z.sub_0_r, Z.add_0_r. split_and!; try done; try lia. by apply drained_refl. }
    unfold udiv. rewrite (proj2 (Z.eqb_neq _ _)) by lia. rewrite !bind_Ok_l.
    pose proof (Z.div_mod mb (Size idx) ltac:(lia)). pose proof (Z.mod_pos_bound mb (Size idx) ltac:(lia)).
    set (n := Z.min _ _). assert (Hn : 0 <= n <= mb / Size idx) by (subst n; nia).
    destruct (drain_loop_ok (Z.to_nat n) s G Hd V idx false n mb db) as (s' & G' & -> & Hr & HT & HTo); try done; try nia.
    exists n, s', G'. split_and!; try done; try nia.
Qed.

Lemma tc_bytes_nonneg T n : (Z.of_nat n <= kNumSizeClasses) -> 0 <= tc_bytes T n.
Proof.
  induction n as [| n IH]; intros Hn; [done |]. cbn [tc_bytes].
  pose proof (Size_range (Z.of_nat n) ltac:(lia)). unfold ALIGNMENT in *. specialize (IH ltac:(lia)). nia.
Qed.

Lemma tc_bytes_bound s G Hd V n : cc_inv s G Hd V -> Z.of_nat n <= kNumSizeClasses ->
  tc_bytes (g_T G) n <= Z.of_nat n * 2 ^ 50.
Proof.
  intros Hi. induction n as [| n IH]; intros Hn; [done |]. cbn [tc_bytes].
  pose proof (tc_length_bound s G Hd V (Z.of_nat n) Hi ltac:(split; lia)). specialize (IH ltac:(lia)).
  change (2 ^ 50) with 1125899906842624 in *. lia.
Qed.

Lemma drain_classes_ok n s G Hd V unbounded mb db :
  cc_inv s G Hd V -> Z.of_nat n <= kNumSizeClasses -> 0 <= mb < W64 -> 0 <= db -> db + tc_bytes (g_T G) n < W64 ->
  exists d s' G', drain_classes n s unbounded mb db = Ok (db + d, s') /\ drained s G Hd V s' G' /\
    d = tc_bytes (g_T G) n - tc_bytes (g_T G') n /\ (forall j, Z.of_nat n <= j -> g_T G' j = g_T G j) /\
    if unbounded then forall j, 0 <= j < Z.of_nat n -> g_T G' j = []
    else 0 <= d <= mb /\ forall j, 0 <= j < Z.of_nat n -> g_T G' j <> [] -> mb - d < Size j.
Proof.
  revert s G mb db. induction n as [| n IH]; intros s G mb db Hi Hn Hmb Hdb Hov; cbn [drain_classes].
  { exists 0, s, G. rewrite Z.add_0_r. split; [done |]. split; [by apply drained_refl |].
    destruct unbounded; split_and!; try done; try lia. }
  cbn [tc_bytes] in Hov. set (c := Z.of_nat n) in *. assert (Hc : is_class c) by (split; lia).
  pose proof (tc_bytes_nonneg (g_T G) n ltac:(lia)) as Hnn. pose proof (Size_range c Hc) as Hsz. unfold ALIGNMENT in Hsz.
  destruct (drain_class_ok s G Hd V c unbounded mb db Hi Hc Hmb Hdb) as (k & s1 & G1 & -> & Hk & Hr1 & HT1 & HTo1 & Hcase); [lia |].
  rewrite bind_Ok_l. cbn iota beta.
  assert (Hsame : tc_bytes (g_T G1) n = tc_bytes (g_T G) n) by (apply tc_bytes_ext; intros i Hi'; rewrite HTo1; [done | lia]).
  assert (Hmb1 : 0 <= (if unbounded then mb else mb - k * Size c) < W64) by (destruct unbounded; [done |]; destruct Hcase; nia).
  destruct (IH s1 G1 (if unbounded then mb else mb - k * Size c) (db + k * Size c) (dr_inv _ _ _ _ _ _ Hr1)) as (d & s2 & G2 & -> & Hr2 & Hd2 & HTo2 & Hc2);
    try done; try lia; try nia.
  exists (k * Size c + d), s2, G2. split; [by rewrite Z.add_assoc |]. split; [by eapply drained_trans |].
  assert (HTc : g_T G2 c = drop (Z.to_nat k) (g_T G c)) by (rewrite HTo2 by lia; done).
  split; [cbn [tc_bytes]; fold c; rewrite HTc, length_drop; nia |].
  split; [intros j Hj; rewrite HTo2, HTo1 by lia; done |]. destruct unbounded.
  - intros j Hj. destruct (decide (j = c)) as [-> | Hne]; [| apply Hc2; lia].
    rewrite HTc. apply drop_ge. lia.
  - destruct Hcase as [Hle Hor], Hc2 as [Hd0 Hrest]. split; [nia |]. intros j Hj Hne.
    destruct (decide (j = c)) as [-> | Hnc]; [| specialize (Hrest j ltac:(lia) Hne); lia].
    destruct Hor as [-> | Hlt]; [| lia]. exfalso. apply Hne. rewrite HTc. apply drop_ge. lia.
Qed.

(** What a call of [DrainTransferCaches] does. *)
Record drain_post s G Hd V (max_bytes d : Z) s' G' : Prop := {
  dp_inv : cc_inv s' G' Hd V;
  dp_und : undisturbed Hd V s s';
  dp_tidy : tidy G -> tidy G';
  dp_hot : hot_part (g_T G) (g_T G');
  dp_bytes : d = tc_bytes (g_T G) (Z.to_nat kNumSizeClasses) - tc_bytes (g_T G') (Z.to_nat kNumSizeClasses);
  dp_all : max_bytes = SIZE_MAX -> forall idx, is_class idx -> transfer_cache_size (cc_buckets s' idx) = 0;
  dp_budget : max_bytes <> SIZE_MAX -> 0 <= d <= max_bytes;
  dp_greedy : max_bytes <> SIZE_MAX -> 0 < max_bytes -> forall idx, is_class idx ->
    transfer_cache_size (cc_buckets s' idx) <> 0 -> max_bytes - d < Size idx;
}.

Lemma DrainTransferCaches_ok s G Hd V max_bytes :
  cc_inv s G Hd V -> 0 <= max_bytes < W64 ->
  exists d s' G', DrainTransferCaches s max_bytes = Ok (d, s') /\ drain_post s G Hd V max_bytes d s' G'.
Proof.
  intros Hi Hmax. unfold DrainTransferCaches. destruct (Z.eqb_spec max_bytes 0) as [-> | H0m].
  { exists 0, s, G. split; [done |]. constructor; try done; [apply hot_part_refl | lia]. }
  pose proof (tc_bytes_bound s G Hd V (Z.to_nat kNumSizeClasses) Hi ltac:(rewrite kNumSizeClasses_val; lia)) as Hb.
  rewrite kNumSizeClasses_val in Hb. change (2 ^ 50) with 1125899906842624 in Hb.
  destruct (drain_classes_ok (Z.to_nat kNumSizeClasses) s G Hd V (max_bytes =? SIZE_MAX) max_bytes 0 Hi) as
    (d & s1 & G1 & -> & [Hi1 Hun Htd Hhot] & Hdd & _ & Hc); try lia; try (rewrite kNumSizeClasses_val in *; lia).
  rewrite bind_Ok_l. cbn iota beta. rewrite Z.add_0_l. do 2 eexists. exists G1. split; [done |].
  assert (Hsz : forall idx, is_class idx -> transfer_cache_size (cc_buckets s1 idx) = Z.of_nat (length (g_T G1 idx))).
  { intros idx Hidx. apply (ci_tc _ _ _ _ Hi1 idx Hidx). }
  assert (Hin : forall idx, is_class idx -> 0 <= idx < Z.of_nat (Z.to_nat kNumSizeClasses)).
  { intros idx [? ?]. rewrite kNumSizeClasses_val in *. lia. }
  constructor; try done; try (by apply cc_inv_stats); try (by apply undisturbed_stats); cbn; destruct (Z.eqb_spec max_bytes SIZE_MAX); try done.
  - intros _ idx Hidx. rewrite Hsz by done. rewrite Hc; [done | by apply Hin].
  - intros _. lia.
  - intros _ _ idx Hidx. rewrite Hsz by done. intros Hne. apply Hc; [by apply Hin |]. by destruct (g_T G1 idx).
Qed.
End Drain.
