(* ===== verification/CentralInit.v ===== *)
(** * Construction of the central cache

    [TryInitTransferCache] and the static initialisation (central_cache.cpp): one
    mapping, cut into one slice per size class, or none at all; the fresh cache
    satisfies the invariant with nothing held. *)
From S2P Require Import Prelude Config SizeClass FreeList Common Span SpanList Backing PageMap PageCache PageCacheInv.
From S2P Require Import CentralCache CentralInv.
Open Scope Z_scope.

(** ** Slices *)

Definition ptr_sum (caps : list Z) : Z := foldr Z.add 0 caps.

Lemma ptr_sum_app l1 l2 : ptr_sum (l1 ++ l2) = ptr_sum l1 + ptr_sum l2.
Proof. unfold ptr_sum. induction l1 as [| c l1 IH]; cbn; lia. Qed.
Lemma ptr_sum_nonneg l : (forall c, c ∈ l -> 0 <= c) -> 0 <= ptr_sum l.
Proof.
  induction l as [| c l IH]; intros Hl; [done |]. cbn. assert (0 <= c) by (apply Hl; by left).
  assert (0 <= ptr_sum l) by (apply IH; intros; apply Hl; by right). unfold ptr_sum in *. lia.
Qed.

Section Slices.
Context `{CentralLayout}.

Lemma assign_slices_at caps i p f j :
  assign_slices caps i p f j =
    if decide (i <= j < i + Z.of_nat (length caps))
    then mkBucket (transfer_cache_size (f j)) 0 (nth (Z.to_nat (j - i)) caps 0) (p + 8 * ptr_sum (take (Z.to_nat (j - i)) caps))
    else f j.
Proof.
  revert i p f. induction caps as [| c caps IH]; intros i p f; cbn [assign_slices length].
  { rewrite decide_False by lia. done. }
  rewrite IH. unfold upd_bucket, sizeof_pointer. destruct (decide (j = i)) as [-> | Hne].
  - rewrite decide_False, decide_True by lia. rewrite Z.sub_diag. cbn. by rewrite Z.add_0_r.
  - destruct (decide (i + 1 <= j < i + 1 + Z.of_nat (length caps))).
    + rewrite decide_True by lia. replace (Z.to_nat (j - i)) with (S (Z.to_nat (j - (i + 1)))) by lia.
      cbn [nth take ptr_sum foldr]. f_equal. unfold ptr_sum. lia.
    + by rewrite decide_False by lia.
Qed.
End Slices.

(** The capacities: positive, and their sum is what is mapped. *)
Definition capacities : list Z := fst FillTransferCapacities.

Lemma capacities_ok :
  length capacities = Z.to_nat kNumSizeClasses /\ snd FillTransferCapacities = ptr_sum capacities /\
  forallb (fun c => (0 <? c) && (c <? W32)) capacities = true /\ ptr_sum capacities < W32 /\
  0 < backing_page_num (snd FillTransferCapacities) < W32 /\
  8 * ptr_sum capacities <= backing_page_num (snd FillTransferCapacities) * PAGE_SIZE.
Proof. vm_compute. repeat split; discriminate || congruence. Qed.

Lemma capacities_nth j : 0 <= j < kNumSizeClasses -> 0 < nth (Z.to_nat j) capacities 0 < W32.
Proof.
  intros Hj. destruct capacities_ok as (Hl & _ & Hall & _). rewrite forallb_forall in Hall.
  assert (Hin : List.In (nth (Z.to_nat j) capacities 0) capacities) by (apply nth_In; rewrite Hl; lia).
  apply Hall in Hin. bool_facts. lia.
Qed.

(** Slice [j] ends where slice [j + 1] begins, and all fit the mapping. *)
Lemma slice_room i j : 0 <= i < j -> j <= kNumSizeClasses ->
  ptr_sum (take (Z.to_nat i) capacities) + nth (Z.to_nat i) capacities 0 <= ptr_sum (take (Z.to_nat j) capacities).
Proof.
  intros Hi Hj. destruct capacities_ok as (Hl & _). pose proof (capacities_nth i ltac:(lia)) as Hc.
  set (a := Z.to_nat i). set (b := Z.to_nat j). assert (Hab : (S a <= b <= length capacities)%nat) by lia.
  replace (take b capacities) with (take (S a) capacities ++ take (b - S a) (drop (S a) capacities)).
  2: { rewrite <- (take_drop (S a) (take b capacities)), take_take, Nat.min_l, skipn_firstn_comm by lia. done. }
  rewrite ptr_sum_app, (take_S_r _ _ (nth a capacities 0)), ptr_sum_app by (destruct (nth_lookup_or_length capacities a 0); [done | lia]).
  cbn [ptr_sum foldr]. assert (0 <= ptr_sum (take (b - S a) (drop (S a) capacities))); [| unfold ptr_sum in *; lia].
  apply ptr_sum_nonneg. intros c Hin. apply elem_of_take in Hin as (k & Hk & _). rewrite lookup_drop in Hk.
  pose proof (lookup_lt_Some _ _ _ Hk). pose proof (capacities_nth (Z.of_nat (S a + k)) ltac:(lia)) as Hcc.
  rewrite Nat2Z.id in Hcc. apply (nth_lookup_Some _ _ 0) in Hk. lia.
Qed.

Section Init.
Context {W : Type} `{BackingLaws W} `{StaticLayout} `{CentralLayout}.

(** Where the buckets' sentinels may lie. *)
Definition central_ok (K : gset Z) : Prop := forall idx, is_class idx ->
  bucket_head idx <> 0 /\ bucket_head idx / PAGE_SIZE ∈ K /\ ~ is_head (bucket_head idx).

Lemma bucket_head_inj i j : bucket_head i = bucket_head j -> i = j.
Proof. unfold bucket_head, sizeof_Bucket, CACHE_LINE_SIZE. lia. Qed.

Lemma bucket_lists_ok (st0 : spans) K :
  static_ok K -> central_ok K -> (forall i, 0 <= i <= MAX_PAGE_NUM -> dll st0 (list_head i) []) ->
  exists st, for_range 0 kNumSizeClasses
      (fun i st => SpanList_new (<[bucket_head i := Span_new 0 0]> st) (bucket_head i)) st0 = Ok st /\
    (forall i, 0 <= i <= MAX_PAGE_NUM -> dll st (list_head i) []) /\
    (forall i, is_class i -> dll st (bucket_head i) []).
Proof.
  intros HK HC Hl0.
  destruct (for_range_inv (fun n st => (forall i, 0 <= i <= MAX_PAGE_NUM -> dll st (list_head i) []) /\
      (forall i, 0 <= i < n -> dll st (bucket_head i) [])) 0 kNumSizeClasses
      (fun i st => SpanList_new (<[bucket_head i := Span_new 0 0]> st) (bucket_head i)) st0) as (st & -> & Hp & Hb).
  { rewrite kNumSizeClasses_val. lia. }
  { split; [done | lia]. }
  { intros n st Hn [Hp Hb]. destruct (HC n Hn) as (Hnz & _ & Hnh). set (h := bucket_head n) in *.
    destruct (SpanList_new_dll (<[h := Span_new 0 0]> st) h Hnz) as (st' & -> & Hd & _ & Hf); [rewrite lookup_insert_eq; by eexists |].
    exists st'. split; [done |].
    assert (Hfr : spans_frame [h] st st').
    { intros a Ha. rewrite Hf by done. apply lookup_insert_ne. intros <-. by apply Ha, list_elem_of_singleton. }
    split.
    - intros i Hi. eapply dll_frame; [exact Hfr | | by apply Hp].
      intros a Ha%list_elem_of_singleton Hb'%list_elem_of_singleton. subst. apply Hnh. exists i. by split.
    - intros i Hi. destruct (decide (i = n)) as [-> | Hne]; [done |].
      eapply dll_frame; [exact Hfr | | apply Hb; lia].
      intros a Ha%list_elem_of_singleton Hb'%list_elem_of_singleton. subst. by apply Hne, bucket_head_inj. }
  exists st. split; [done |]. split; [done |]. intros i Hi. by apply Hb.
Qed.

(** An empty page cache, with more static pages. *)
Lemma pc_inv_static (p : PageCache W) K R N st w K' R' :
  pc_inv p ∅ ∅ K R N (fun _ => []) -> (forall i, 0 <= i <= MAX_PAGE_NUM -> dll st (list_head i) []) ->
  bk_rep w R' ∅ N -> K ⊆ K' -> K' ⊆ R' ->
  pc_inv (with_w (with_spans p st) w) ∅ ∅ K' R' N (fun _ => []).
Proof.
  intros [Hc Hw Hr Hm Hp Hs] Hl Hw' HK HKR. constructor; cbn; try done.
  - destruct Hc as [? ? ? ? ? ? ? Hst]. constructor; try done. intros i Hi. destruct (Hst i Hi). split; [done | set_solver].
Qed.

Definition init_ghost (K R N : gset Z) : ghost := mkGhost ∅ ∅ K R N (fun _ => []) (fun _ => []) (fun _ => []) (fun _ => ∅) (fun _ => 0).
Definition none_held : held := fun _ => ∅.

Lemma init_inv (p : PageCache W) K R N bs st :
  pc_inv p ∅ ∅ K R N (fun _ => []) -> central_ok K -> 
  (forall i, is_class i -> dll (pc_spans p) (bucket_head i) []) ->
  (forall i, is_class i -> tc_rep (∅ : mem) (bs i) []) ->
  (forall i w, is_class i -> tc_word (bs i) w -> w / PAGE_SIZE ∈ K) ->
  (forall i j w, is_class i -> is_class j -> i < j -> tc_word (bs i) w -> ~ tc_word (bs j) w) ->
  cc_inv (mkCC p ∅ bs st) (init_ghost K R N) none_held ∅.
Proof.
  intros Hp HC Hl Ht Hw Hd. constructor; cbn; try done; unfold none_held.
  all: try (intros idx a _ Ha; by apply not_elem_of_nil in Ha).
  - intros idx x _. split; [set_solver |]. intros (a & d & k & Ha & _). by apply not_elem_of_nil in Ha.
  - intros idx _. constructor.
  - intros i j w Hi Hj Hne Hwi Hwj. destruct (Z.lt_ge_cases i j); [by apply (Hd i j w Hi Hj) |].
    by apply (Hd j i w Hj Hi ltac:(lia)).
  - intros a. rewrite dom_empty_L. split; [set_solver |]. intros [? | (idx & _ & Ha)]; [set_solver | by apply not_elem_of_nil in Ha].
Qed.

(** The slices of a mapping that starts on page [pid]. *)
Lemma slices_ok pid n (K : gset Z) :
  n = backing_page_num (snd FillTransferCapacities) -> 0 < pid -> pid + n < PAGE_LIMIT -> pages pid n ⊆ K ->
  let bs := assign_slices capacities 0 (pid * PAGE_SIZE) (fun _ => Bucket_new) in
  (forall i, is_class i -> tc_rep (∅ : mem) (bs i) []) /\
  (forall i w, is_class i -> tc_word (bs i) w -> w / PAGE_SIZE ∈ K) /\
  (forall i j w, is_class i -> is_class j -> i < j -> tc_word (bs i) w -> ~ tc_word (bs j) w) /\
  (forall i, is_class i -> transfer_cache_capacity (bs i) = nth (Z.to_nat i) capacities 0).
Proof.
  intros -> Hpid Hlim HK bs. destruct capacities_ok as (Hlen & _ & _ & Htot & Hpn & Hfit).
  assert (Hat : forall i, is_class i -> bs i = mkBucket 0 0 (nth (Z.to_nat i) capacities 0)
             (pid * PAGE_SIZE + 8 * ptr_sum (take (Z.to_nat i) capacities))).
  { intros i [Hi1 Hi2]. subst bs. rewrite assign_slices_at, decide_True by lia. by rewrite Z.sub_0_r. }
  assert (H0s : forall i, 0 <= ptr_sum (take i capacities)).
  { intros i. apply ptr_sum_nonneg. intros c (k & Hk & _)%elem_of_take. pose proof (lookup_lt_Some _ _ _ Hk).
    pose proof (capacities_nth (Z.of_nat k) ltac:(lia)) as Hc. rewrite Nat2Z.id in Hc. apply (nth_lookup_Some _ _ 0) in Hk. lia. }
  assert (Hend : forall i, is_class i ->
             ptr_sum (take (Z.to_nat i) capacities) + nth (Z.to_nat i) capacities 0 <= ptr_sum capacities).
  { intros i [Hi1 Hi2]. rewrite <- (firstn_all capacities) at 3. rewrite Hlen. apply (slice_room i kNumSizeClasses); lia. }
  split; [| split; [| split]].
  - intros i Hi. rewrite Hat by done. pose proof (capacities_nth i Hi) as Hc. specialize (H0s (Z.to_nat i)).
    set (c := nth _ _ _) in *. clearbody c. set (b := ptr_sum (take (Z.to_nat i) capacities)) in *. clearbody b. clear - Hc H0s Hpid.
    constructor; cbn; try lia; try done. unfold PAGE_SIZE. lia.
  - intros i w Hi (k & Hk & ->). rewrite Hat in * by done. unfold slot_of. cbn [transfer_cache transfer_cache_capacity] in *. specialize (Hend i Hi). specialize (H0s (Z.to_nat i)).
    apply HK, elem_of_pages. unfold PAGE_SIZE in *. split; [apply Z.div_le_lower_bound; lia | apply Z.div_lt_upper_bound; lia].
  - intros i j w Hi Hj Hij (k & Hk & ->) (l & Hl & Heq). rewrite !Hat in * by done. unfold slot_of in Heq. cbn [transfer_cache transfer_cache_capacity] in *.
    destruct Hi, Hj. pose proof (slice_room i j ltac:(lia) ltac:(lia)). lia.
  - intros i Hi. by rewrite Hat.
Qed.

Lemma CentralCache_init_ok (p : PageCache W) K R N :
  pc_inv p ∅ ∅ K R N (fun _ => []) -> central_ok K ->
  exists s K' R', CentralCache_init p = Ok s /\ K ⊆ K' /\ cc_inv s (init_ghost K' R' N) none_held ∅ /\
    ((forall i, is_class i -> transfer_cache_capacity (cc_buckets s i) = 0) \/
     forall i, is_class i -> transfer_cache_capacity (cc_buckets s i) = kCapScale * CalculateBatchSize (Size i)).
Proof.
  intros Hp HC. assert (HK : static_ok K) by (intros i Hi; by apply Hp).
  destruct (bucket_lists_ok (pc_spans p) K HK HC) as (st & Hrun & Hl & Hb); [intros i Hi; by apply Hp |].
  unfold CentralCache_init. rewrite Hrun, bind_Ok_l. unfold TryInitTransferCache.
  destruct FillTransferCapacities as [caps total] eqn:Hfill. cbn iota beta zeta. cbn [cc_pages pc_w with_spans].
  pose proof capacities_ok as (Hlen & Htot & _ & _ & Hpn & _). rewrite Hfill in Htot, Hpn. cbn [snd] in Htot, Hpn.
  pose proof (pi_w _ _ _ _ _ _ _ Hp) as Hw. rewrite dom_empty_L in Hw.
  destruct (bk_alloc_ok _ _ _ _ (backing_page_num total) Hw ltac:(lia)) as (q & w' & -> & Hq). rewrite bind_Ok_l. cbn iota beta.
  destruct Hq as [[-> Hw'] | (pid & -> & Hn0 & Hpid & Hlim & Hfresh & Hw')].
  - rewrite Z.eqb_refl, bind_Ok_l. eexists _, K, R. split; [reflexivity |]. split; [reflexivity |]. split; [| by left].
    apply (init_inv (with_w (with_spans p st) w')); [| exact HC | exact Hb | | |].
    + eapply pc_inv_static; [exact Hp | exact Hl | exact Hw' | reflexivity | apply Hp].
    + intros i _. constructor; cbn; try lia. by intros j x Hx.
    + intros i w _ (k & Hk & _). cbn in Hk. lia.
    + intros i j w _ _ _ (k & Hk & _). cbn in Hk. lia.
  - rewrite (proj2 (Z.eqb_neq _ 0)), bind_Ok_l by (unfold PAGE_SIZE; lia).
    assert (Ecaps : caps = capacities) by (unfold capacities; by rewrite Hfill). rewrite Ecaps.
    destruct (slices_ok pid (backing_page_num total) (K ∪ pages pid (backing_page_num total))) as (Ht & Hin & Hap & Hcap);
      [exact (f_equal backing_page_num (eq_sym (f_equal snd Hfill))) | exact Hpid | exact Hlim | apply union_subseteq_r |].
    eexists _, _, _. split; [reflexivity |]. split; [apply union_subseteq_l |]. split.
    + apply (init_inv (with_w (with_spans p st) w')); [| | exact Hb | exact Ht | exact Hin | exact Hap].
      * eapply pc_inv_static; [exact Hp | exact Hl | exact Hw' | apply union_subseteq_l |].
        apply union_mono_r. exact (pi_static _ _ _ _ _ _ _ Hp).
      * intros i Hi. destruct (HC i Hi) as (C1 & C2 & C3). split; [exact C1 |]. split; [| exact C3].
        apply elem_of_union_l. exact C2.
    + right. intros i Hi. cbn [cc_buckets]. etransitivity; [exact (Hcap i Hi) |].
      assert (Hall : forallb (fun i => nth (Z.to_nat i) capacities 0 =? kCapScale * CalculateBatchSize (Size i)) (seqZ 0 kNumSizeClasses) = true)
        by (by vm_compute).
      rewrite forallb_forall in Hall. apply Z.eqb_eq, Hall. apply list_elem_of_In, elem_of_seqZ. destruct Hi. lia.
Qed.
End Init.
