(* ===== verification/CentralSpec.v ===== *)
(** * What the central cache promises

    The contracts of [FetchBatch], [ReleaseBatch], [DrainTransferCaches] and of
    the construction, for clients that know only which objects they hold, with
    runs on a concrete cache. *)
From S2P Require Import Prelude Config SizeClass FreeList Common Span SpanList Backing PageMap PageCache PageCacheInv.
From S2P Require Import PageCacheAlloc PageCacheMerge PageCacheRelease CentralCache CentralInv CentralSteps CentralRelease.
From S2P Require Import CentralFetch CentralDrain CentralInit.
Open Scope Z_scope.

Section Spec.
Context {W : Type} `{BackingLaws W} `{StaticLayout} `{CentralLayout}.
Implicit Types (s : CentralCache W) (G : ghost) (V : runs) (Hd : held).

(** An object that just left the cache shares no byte with what clients hold. *)
Lemma fresh_object s G Hd V idx X x w :
  cc_inv s G (give Hd idx X) V -> is_class idx -> x ∈ X -> (x ∉ Hd idx) -> x <= w < x + Size idx ->
  ~ user_word Hd V w.
Proof.
  intros Hi Hidx Hx Hn Hw [(j & y & Hj & Hy & Hr) | (v & st & n & Hv & Hp)].
  - destruct (objects_apart _ _ _ _ Hi idx j x y w Hidx Hj) as [<- <-]; try done; left.
    + unfold give. rewrite upd_fun_eq. set_solver.
    + by apply give_sub.
  - assert (Hin : x ∈ give Hd idx X idx) by (unfold give; rewrite upd_fun_eq; set_solver).
    destruct (object_word _ _ _ _ Hi idx x Hidx (or_introl Hin)) as (b & Hb & _ & Hob). destruct (Hob w Hw) as [Hcb _].
    assert (b = v) as ->.
    { eapply (ci_cover _ _ _ _ Hi); [exact Hcb |]. exists st, n. split; [| done]. eapply lookup_weaken; [done | apply Hi]. }
    apply (ci_out _ _ _ _ Hi idx v Hidx Hb), elem_of_dom. by eexists.
Qed.

(** C7: [FetchBatch] hands out fresh memory.  From every state of the invariant
    it runs to completion in every build (no failed check, no null access, both
    loops end), returns a canonical batch of at most the requested number of
    distinct objects that nobody held and whose bytes belong to no client,
    writes no client's memory and no client's span, and keeps the invariant and
    the order of the span lists; it returns fewer objects than asked for only
    if the page cache can refuse a span of that class. *)
Theorem FetchBatch_spec s G Hd V idx n :
  cc_inv s G Hd V -> tidy G -> is_class idx -> 0 <= n <= kMaxBatchSize ->
  exists b s' G' l, FetchBatch s idx n = Ok (b, s') /\ fetched_batch s Hd V idx n b s' G' l /\
    forall x w, x ∈ l -> x <= w < x + Size idx -> ~ user_word Hd V w.
Proof.
  intros Hi Ht Hidx Hn. destruct (FetchBatch_ok s G Hd V idx n Hi Ht Hidx Hn) as (b & s' & G' & l & Heq & Hf).
  exists b, s', G', l. split; [done |]. split; [done |]. intros x w Hx Hw.
  eapply fresh_object; [apply Hf | done | by apply elem_of_list_to_set | by apply Hf | done].
Qed.

(** C8: [ReleaseBatch] takes back any batch of objects its client holds, in both
    modes: it runs to completion in every build, the transfer cache of the class
    takes what fits (and only in the mode that asks for it), every other object
    returns to the bitmap of its span, spans that become empty go back to the
    page cache, nothing that still belongs to a client is written, and the
    invariant holds with the objects no longer held. *)
Theorem ReleaseBatch_spec s G Hd V idx mode b l :
  cc_inv s G Hd V -> batch_rep (cc_mem s) b idx l -> (forall x, x ∈ l -> x ∈ Hd idx) ->
  exists s' G', ReleaseBatch s b mode = Ok s' /\ chunk_done mode s G Hd V idx l s' G'.
Proof. intros Hi Hb Hin. by apply ReleaseBatch_ok. Qed.

(** C9: [DrainTransferCaches] empties the arrays within its budget.  From every
    state of the invariant it terminates normally; the bytes it reports are
    exactly the bytes that left the arrays, always from their cold ends; the
    unbounded call leaves every array empty; a bounded one never exceeds its
    budget and stops only when what is left of it is smaller than an object of
    every class that still caches something; clients notice nothing. *)
Theorem DrainTransferCaches_spec s G Hd V max_bytes :
  cc_inv s G Hd V -> 0 <= max_bytes < W64 ->
  exists d s' G', DrainTransferCaches s max_bytes = Ok (d, s') /\ drain_post s G Hd V max_bytes d s' G'.
Proof. intros Hi Hm. by apply DrainTransferCaches_ok. Qed.

(** C10: the fresh central cache satisfies the invariant with nothing held: every
    class has an empty span list and an empty array inside the one mapping, of
    eight batches, disjoint from the others; when the mapping is refused, all
    arrays have capacity zero. *)
Theorem CentralCache_init_spec (p : PageCache W) K R N :
  pc_inv p ∅ ∅ K R N (fun _ => []) -> central_ok K ->
  exists s K' R', CentralCache_init p = Ok s /\ K ⊆ K' /\ cc_inv s (init_ghost K' R' N) none_held ∅ /\
    ((forall i, is_class i -> transfer_cache_capacity (cc_buckets s i) = 0) \/
     forall i, is_class i -> transfer_cache_capacity (cc_buckets s i) = kCapScale * CalculateBatchSize (Size i)).
Proof. intros Hp HC. exact (CentralCache_init_ok p K R N Hp HC). Qed.

Lemma give_take_back Hd idx X j : (forall x, x ∈ X -> x ∉ Hd idx) -> take_back (give Hd idx X) idx X j = Hd j.
Proof.
  intros Hn. unfold take_back, give. destruct (decide (j = idx)) as [-> | Hne]; [| by rewrite !upd_fun_ne].
  rewrite !upd_fun_eq. set_solver.
Qed.

(** Fetching and releasing cancel out: the batch [FetchBatch] returns can be
    released at once, in both modes, and afterwards the clients hold exactly
    what they held, with their memory and their spans as they were. *)
Theorem fetch_release_roundtrip s G Hd V idx n mode :
  cc_inv s G Hd V -> tidy G -> is_class idx -> 0 <= n <= kMaxBatchSize ->
  exists b s1 s2 G2, FetchBatch s idx n = Ok (b, s1) /\ ReleaseBatch s1 b mode = Ok s2 /\
    cc_inv s2 G2 Hd V /\ tidy G2 /\ undisturbed Hd V s s2.
Proof.
  intros Hi Ht Hidx Hn. destruct (FetchBatch_ok s G Hd V idx n Hi Ht Hidx Hn) as (b & s1 & G1 & l & Heq & [Hi1 Hb _ Hnew _ Hun Ht1 _]).
  destruct (ReleaseBatch_ok s1 G1 _ V idx mode b l Hi1 Hb) as (s2 & G2 & Hrel & [Hi2 _ Hun2 Htd _]).
  { intros x Hx. unfold give. rewrite upd_fun_eq. set_solver. }
  assert (Hback : forall j, take_back (give Hd idx (list_to_set l)) idx (list_to_set l) j = Hd j).
  { intros j. apply give_take_back. intros x Hx%elem_of_list_to_set. by apply Hnew. }
  exists b, s1, s2, G2. split; [done |]. split; [done |]. split; [eapply cc_inv_held; [| exact Hi2]; intros j _; by rewrite Hback |].
  split; [by apply Htd |]. eapply undisturbed_trans; [exact Hun |].
  eapply undisturbed_mono; [| reflexivity | exact Hun2]. intros j _. by rewrite Hback.
Qed.
End Spec.

(** ** A concrete central cache *)
Section Sample.
#[local] Existing Instance release_build.
#[local] Existing Instance bump_backing.
#[local] Existing Instance bump_laws.
#[local] Existing Instance sample_layout.

Definition sample_central_layout : CentralLayout := {| buckets_addr := 16384 |}.
#[local] Existing Instance sample_central_layout.

Definition sample_central : CentralCache Z :=
  match CentralCache_init sample_cache with Ok s => s | _ => mkCC sample_cache ∅ (fun _ => Bucket_new) (fun _ => 0) end.

Lemma sample_cache_inv5 :
  pc_inv (H1 := bump_laws) sample_cache ∅ ∅ (pages 1 5) (pages 1 5) ∅ (fun _ => []).
Proof.
  destruct (PageCache_init_ok (H1 := bump_laws) (pages 1 5) (pages 1 5) 16) as (s & Heq & Hi); [| | done |].
  - intros i Hi. unfold list_head, CACHE_LINE_SIZE, MAX_PAGE_NUM in *. simpl. split; [lia |].
    apply elem_of_pages. unfold PAGE_SIZE. split; [apply Z.div_le_lower_bound; lia |].
    apply Z.div_lt_upper_bound; lia.
  - split; [lia |]. split; [intros p Hp%elem_of_pages; lia |]. clear. set_solver.
  - unfold sample_cache. by rewrite Heq.
Qed.

Lemma sample_central_ok : central_ok (pages 1 5).
Proof.
  intros i [Hi1 Hi2]. rewrite kNumSizeClasses_val in Hi2. unfold bucket_head, sizeof_Bucket, CACHE_LINE_SIZE. simpl.
  split; [lia |]. split.
  - apply elem_of_pages. unfold PAGE_SIZE. split; [apply Z.div_le_lower_bound; lia | apply Z.div_lt_upper_bound; lia].
  - intros (j & Hj & Heq). unfold list_head, CACHE_LINE_SIZE, MAX_PAGE_NUM in *. simpl in Heq. lia.
Qed.

Lemma sample_central_inv :
  exists K R, pages 1 5 ⊆ K /\ cc_inv (H1 := bump_laws) sample_central (init_ghost K R ∅) none_held ∅.
Proof.
  destruct (CentralCache_init_ok (H1 := bump_laws) sample_cache _ _ _ sample_cache_inv5 sample_central_ok)
    as (s & K & R & Heq & HK & Hi & _).
  exists K, R. split; [exact HK |]. unfold sample_central. by rewrite Heq.
Qed.

Lemma init_tidy K R N : tidy (init_ghost K R N).
Proof. intros idx _. split; [constructor | intros a Ha; by apply not_elem_of_nil in Ha]. Qed.

(** Two objects of class 3 are out; the prefetched ones are in the array. *)
Lemma sample_fetched : exists b s G l,
  FetchBatch sample_central 3 2 = Ok (b, s) /\
  cc_inv (H1 := bump_laws) s G (give none_held 3 (list_to_set l)) ∅ /\ batch_rep (cc_mem s) b 3 l.
Proof.
  destruct sample_central_inv as (K & R & _ & Hi).
  destruct (FetchBatch_ok (H1 := bump_laws) _ _ _ _ 3 2 Hi (init_tidy K R ∅)) as (b & s & G & l & Heq & Hf); [done | done |].
  exists b, s, G, l. split; [exact Heq |]. split; apply Hf.
Qed.

(** What the runs below give: objects fetched, transfer cache sizes after the
    fetch and after the release of the batch, bytes drained without a limit and
    with a budget of 100. *)
Definition sample_run : outcome (Z * Z * Z * Z * Z) :=
  '(b, s) ← FetchBatch sample_central 3 2;
  n1 ← GetTransferCacheCountForTest s 3;
  s2 ← ReleaseBatch s b kTransferCache;
  n2 ← GetTransferCacheCountForTest s2 3;
  '(d1, _) ← DrainTransferCaches s2 SIZE_MAX;
  '(d2, _) ← DrainTransferCaches s2 100;
  Ok (ob_count b, n1, n2, d1, d2).

Lemma FetchBatch_spec_witness :
  (exists b s' G' l, FetchBatch sample_central 3 2 = Ok (b, s') /\
    fetched_batch (H1 := bump_laws) sample_central none_held ∅ 3 2 b s' G' l /\
    forall x w, x ∈ l -> x <= w < x + Size 3 -> ~ user_word none_held ∅ w) /\
  sample_run = Ok (2, 2, 4, 256, 64).
Proof.
  split; [| by vm_compute]. destruct sample_central_inv as (K & R & _ & Hi).
  apply (FetchBatch_spec (H1 := bump_laws) _ _ _ _ 3 2 Hi (init_tidy K R ∅)); [done | done].
Defined.

Lemma ReleaseBatch_spec_witness :
  exists b s G l, FetchBatch sample_central 3 2 = Ok (b, s) /\
  exists s' G', ReleaseBatch s b kTransferCache = Ok s' /\
    chunk_done (H1 := bump_laws) kTransferCache s G (give none_held 3 (list_to_set l)) ∅ 3 l s' G'.
Proof.
  destruct sample_fetched as (b & s & G & l & Heq & Hi & Hb). exists b, s, G, l. split; [exact Heq |].
  apply (ReleaseBatch_spec (H1 := bump_laws) s G _ _ 3 kTransferCache b l Hi Hb).
  intros x Hx. clear - Hx. unfold give. rewrite upd_fun_eq. set_solver.
Defined.

Lemma DrainTransferCaches_spec_witness :
  exists b s G Hd, FetchBatch sample_central 3 2 = Ok (b, s) /\
  exists d s' G', DrainTransferCaches s SIZE_MAX = Ok (d, s') /\
    drain_post (H1 := bump_laws) s G Hd ∅ SIZE_MAX d s' G'.
Proof.
  destruct sample_fetched as (b & s & G & l & Heq & Hi & _). exists b, s, G, (give none_held 3 (list_to_set l)).
  split; [exact Heq |]. apply (DrainTransferCaches_spec (H1 := bump_laws) s G _ _ SIZE_MAX Hi). unfold SIZE_MAX. lia.
Defined.

Lemma CentralCache_init_spec_witness :
  exists s K' R', CentralCache_init sample_cache = Ok s /\ pages 1 5 ⊆ K' /\
    cc_inv (H1 := bump_laws) s (init_ghost K' R' ∅) none_held ∅ /\
    ((forall i, is_class i -> transfer_cache_capacity (cc_buckets s i) = 0) \/
     forall i, is_class i -> transfer_cache_capacity (cc_buckets s i) = kCapScale * CalculateBatchSize (Size i)).
Proof.
  exact (CentralCache_init_spec (H1 := bump_laws) sample_cache (pages 1 5) (pages 1 5) ∅ sample_cache_inv5 sample_central_ok).
Defined.

Lemma fetch_release_roundtrip_witness :
  exists b s1 s2 G2, FetchBatch sample_central 3 2 = Ok (b, s1) /\ ReleaseBatch s1 b kSpanBitmap = Ok s2 /\
    cc_inv (H1 := bump_laws) s2 G2 none_held ∅ /\ tidy G2 /\ undisturbed none_held ∅ sample_central s2.
Proof.
  destruct sample_central_inv as (K & R & _ & Hi).
  apply (fetch_release_roundtrip (H1 := bump_laws) _ _ _ _ 3 2 kSpanBitmap Hi (init_tidy K R ∅)); [done | done].
Defined.
End Sample.
