(* ===== verification/Sections.v ===== *)
(** * Calls made of critical sections

    A call as a tree of actions on the shared state: between two [Yield]s it holds
    a lock and runs alone, at a [Yield] it holds none and anything may happen.
    Every call in flight owns a share of the state; other calls do not disturb
    what it owns, and it does not disturb what it does not own.  Calls that are
    safe on these terms, one by one, are safe together, any number of them,
    however their sections interleave. *)
From S2P Require Import Prelude.

(** ** Programs *)

Inductive prog (St A : Type) : Type :=
| Ret (a : A)
| Act {B : Type} (f : St -> outcome (B * St)) (k : B -> prog St A)
| Yield (p : prog St A).
Arguments Ret {St A} _.
Arguments Act {St A B} _ _.
Arguments Yield {St A} _.

Fixpoint pbind {St A B} (g : A -> prog St B) (p : prog St A) : prog St B :=
  match p with
  | Ret a => g a
  | Act f k => Act f (fun b => pbind g (k b))
  | Yield p => Yield (pbind g p)
  end.
#[export] Instance prog_bind St : MBind (prog St) := fun A B g p => pbind g p.

(** An action with a result, one that only reads, one that only writes, and a
    computation that does not touch the state. *)
Definition act {St A} (f : St -> outcome (A * St)) : prog St A := Act f Ret.
Definition reading {St A} (f : St -> outcome A) : prog St A := act (fun s => a ← f s; Ok (a, s)).
Definition doing {St} (f : St -> outcome St) : prog St () := act (fun s => s ← f s; Ok ((), s)).
Definition pure {St A} (c : outcome A) : prog St A := reading (fun _ => c).

(** The call when nothing happens meanwhile. *)
Fixpoint alone {St A} (p : prog St A) (s : St) : outcome (A * St) :=
  match p with
  | Ret a => Ok (a, s)
  | Act f k => '(b, s) ← f s; alone (k b) s
  | Yield p => alone p s
  end.

(** One section: up to the next [Yield], or to the end. *)
Fixpoint section {St A} (p : prog St A) (s : St) : outcome (prog St A * St) :=
  match p with
  | Ret a => Ok (Ret a, s)
  | Act f k => '(b, s) ← f s; section (k b) s
  | Yield p => Ok (p, s)
  end.

Section Alone.
Context {St : Type}.

Lemma alone_bind {A B} (p : prog St A) (g : A -> prog St B) s :
  alone (x ← p; g x) s = '(a, s) ← alone p s; alone (g a) s.
Proof.
  unfold mbind, prog_bind. revert s. induction p as [a | B' f k IH | p IH]; intros s; cbn; [done | | apply IH].
  destruct (f s) as [[b s'] | | |]; [apply IH | done..].
Qed.
Lemma alone_act {A} (f : St -> outcome (A * St)) s : alone (act f) s = f s.
Proof. cbn. by destruct (f s) as [[] | | |]. Qed.
Lemma alone_reading {A} (f : St -> outcome A) s : alone (reading f) s = (a ← f s; Ok (a, s)).
Proof. unfold reading. by rewrite alone_act. Qed.
Lemma alone_doing (f : St -> outcome St) s : alone (doing f) s = (s ← f s; Ok ((), s)).
Proof. unfold doing. by rewrite alone_act. Qed.

Lemma alone_pure {A} (c : outcome A) (s : St) : alone (pure c) s = (a ← c; Ok (a, s)).
Proof. apply alone_reading. Qed.

(** Sections one after the other, with nothing in between, are the whole call. *)
Lemma alone_section {A} (p : prog St A) s : alone p s = '(p', s') ← section p s; alone p' s'.
Proof.
  revert s. induction p as [a | B f k IH | p IH]; intros s; cbn; [done | | done].
  destruct (f s) as [[b s'] | | |]; [apply IH | done..].
Qed.

(** A call takes finitely many sections, whatever the states it runs in. *)
Definition next_section {A} (p' p : prog St A) : Prop :=
  (forall a, p <> Ret a) /\ exists s s', section p s = Ok (p', s').

Lemma sections_finite {A} : well_founded (next_section (A := A)).
Proof.
  assert (Hall : forall p : prog St A, Acc next_section p /\ forall s p' s', section p s = Ok (p', s') -> Acc next_section p').
  { induction p as [a | B f k IH | p [IH _]].
    - assert (Ha : Acc next_section (Ret (St := St) a)) by (constructor; intros q [Hq _]; by destruct (Hq a)).
      split; [done |]. intros s p' s' [= <- <-]. done.
    - assert (Hs : forall s p' s', section (Act f k) s = Ok (p', s') -> Acc next_section p').
      { cbn. intros s p' s' ([b s1] & _ & Hk)%bind_Ok_inv. by apply IH in Hk. }
      split; [| done]. constructor. intros q (_ & s & s' & Hq). by apply Hs in Hq.
    - assert (Hs : forall s p' s', section (Yield p) s = Ok (p', s') -> Acc next_section p') by (by intros s p' s' [= <- <-]).
      split; [| done]. constructor. intros q (_ & s & s' & Hq). by apply Hs in Hq. }
  intros p. apply Hall.
Qed.

(** So no schedule keeps it going for ever. *)
Lemma sections_end {A} (ps : nat -> prog St A) : ~ forall i, next_section (ps (S i)) (ps i).
Proof.
  intros Hall. assert (Hno : forall p : prog St A, Acc next_section p -> forall i, ps i <> p).
  { induction 1 as [p _ IH]. intros i <-. by apply (IH (ps (S i)) (Hall i) (S i)). }
  by apply (Hno (ps O) (sections_finite _) O).
Qed.
End Alone.

(** *** Running a program to its end *)

Create Rewrite HintDb alone.

(** The next action: the call and the function fail together, or go on from the same result. *)
Ltac run_action :=
  match goal with
  | |- context [@mbind outcome _ _ _ _ ?c] =>
      lazymatch c with @mbind _ _ _ _ _ _ => fail | alone _ _ => fail | Ok _ => fail | _ => idtac end;
      destruct c as [?r | | |]; [| done..];
      repeat (match goal with r : (_ * _)%type |- _ => destruct r end); rewrite ?bind_Ok_l; cbn iota beta zeta
  end.
Ltac run := repeat first [
  progress rewrite ?alone_bind, ?alone_act, ?alone_doing, ?alone_reading, ?alone_pure, ?bind_Ok_l
  | progress autorewrite with alone
  | progress cbn [alone] | progress cbn iota beta zeta | run_action | done ].

(** ** Ownership *)

(** [own_split whole a b]: the two parts of a share; [own_good s whole]: the state
    is consistent and [whole] is all that is owned in it; [own_quiet a s s']:
    nothing of [a] changed. *)
Class Ownership (St Sh : Type) := {
  own_split : Sh -> Sh -> Sh -> Prop;
  own_good : St -> Sh -> Prop;
  own_quiet : Sh -> St -> St -> Prop
}.

Class OwnershipLaws (St Sh : Type) `{Ownership St Sh} := {
  split_comm T a b : own_split T a b -> own_split T b a;
  split_assoc T T1 a b c : own_split T T1 c -> own_split T1 a b -> exists R, own_split R b c /\ own_split T a R;
  split_unique T T' a b : own_split T a b -> own_split T' a b -> T = T';
  quiet_refl a s : own_quiet a s s;
  quiet_trans a s1 s2 s3 : own_quiet a s1 s2 -> own_quiet a s2 s3 -> own_quiet a s1 s3;
  quiet_part T a b s s' : own_split T a b -> own_quiet T s s' -> own_quiet a s s'
}.

Section Rules.
Context {St Sh : Type} `{OwnershipLaws St Sh}.
Implicit Types (s : St) (R T o : Sh).

Lemma split_swap T T1 R1 a b : own_split T T1 b -> own_split T1 R1 a ->
  exists R, own_split R R1 b /\ own_split T R a.
Proof.
  intros H1 H2%split_comm. destruct (split_assoc _ _ _ _ _ H1 H2) as (R & HR & HT).
  exists R. split; [done | by apply split_comm].
Qed.

Lemma quiet_other T a b s s' : own_split T a b -> own_quiet T s s' -> own_quiet b s s'.
Proof. intros Hs. by eapply quiet_part, split_comm. Qed.

(** A call that owns [o] beside the rest [R], in a section begun in [s0]. *)
Definition at_rest R o s0 s : Prop := exists T, own_split T R o /\ own_good s T /\ own_quiet R s0 s.

(** The call may go on from any later moment: what it owns is still there. *)
Fixpoint wp {A} (p : prog St A) (Q : A -> Sh -> St -> Prop) R s0 s : Prop :=
  match p with
  | Ret a => exists o, at_rest R o s0 s /\ Q a o s
  | Act f k => exists b s', f s = Ok (b, s') /\ wp (k b) Q R s0 s'
  | Yield p => exists o, at_rest R o s0 s /\
      forall R' s', at_rest R' o s' s' -> own_quiet o s s' -> wp p Q R' s' s'
  end.

Definition parked {A} (p : prog St A) (Q : A -> Sh -> St -> Prop) o s : Prop :=
  forall R' s', at_rest R' o s' s' -> own_quiet o s s' -> wp p Q R' s' s'.

Lemma parked_quiet {A} (p : prog St A) Q o s s' : own_quiet o s s' -> parked p Q o s -> parked p Q o s'.
Proof. intros Hq Hp R' s'' Hr Hq'. apply Hp; [done |]. by eapply quiet_trans. Qed.

(** What a call knows at its end must concern only what it owns. *)
Definition stable {A} (Q : A -> Sh -> St -> Prop) : Prop := forall a o s s', own_quiet o s s' -> Q a o s -> Q a o s'.

Lemma wp_bind {A B} (p : prog St A) (g : A -> prog St B) Q Q' R s0 s :
  wp p Q R s0 s -> (forall a o R s0 s, at_rest R o s0 s -> Q a o s -> wp (g a) Q' R s0 s) ->
  wp (x ← p; g x) Q' R s0 s.
Proof.
  unfold mbind, prog_bind. intros Hp Hg. revert R s0 s Hp. induction p as [a | B' f k IH | p IH]; intros R s0 s; cbn.
  - intros (o & Hr & HQ). by eapply Hg.
  - intros (b & s' & Hf & Hk). exists b, s'. split; [done | by apply IH].
  - intros (o & Hr & Hk). exists o. split; [done |]. intros R' s' Hr' Hq. by apply IH, Hk.
Qed.

Lemma wp_assoc {A B C} (p : prog St A) (h : A -> prog St B) (g : B -> prog St C) Q R s0 s :
  wp (y ← p; x ← h y; g x) Q R s0 s -> wp (x ← (y ← p; h y); g x) Q R s0 s.
Proof.
  unfold mbind, prog_bind. revert R s0 s. induction p as [a | B' f k IH | p IH]; intros R s0 s; cbn; [done | |].
  - intros (b & s' & Hf & Hk). exists b, s'. split; [done | by apply IH].
  - intros (o & Hr & Hk). exists o. split; [done |]. intros R' s' Hr' Hq. by apply IH, Hk.
Qed.

Lemma wp_act {A} (f : St -> outcome (A * St)) Q R s0 s a s' o :
  f s = Ok (a, s') -> at_rest R o s0 s' -> Q a o s' -> wp (act f) Q R s0 s.
Proof. intros Hf Hr HQ. exists a, s'. split; [done |]. by exists o. Qed.

(** One action and the rest. *)
Lemma wp_act_then {A B} (f : St -> outcome (A * St)) (g : A -> prog St B) Q R s0 s a s' :
  f s = Ok (a, s') -> wp (g a) Q R s0 s' -> wp (x ← act f; g x) Q R s0 s.
Proof. intros Hf Hg. by exists a, s'. Qed.
Lemma wp_reading_then {A B} (f : St -> outcome A) (g : A -> prog St B) Q R s0 s a :
  f s = Ok a -> wp (g a) Q R s0 s -> wp (x ← reading f; g x) Q R s0 s.
Proof. intros Hf Hg. exists a, s. split; [by rewrite Hf | done]. Qed.
Lemma wp_doing_then {B} (f : St -> outcome St) (g : () -> prog St B) Q R s0 s s' :
  f s = Ok s' -> wp (g ()) Q R s0 s' -> wp (x ← doing f; g x) Q R s0 s.
Proof. intros Hf Hg. exists (), s'. split; [by rewrite Hf | done]. Qed.
Lemma wp_pure_then {A B} (c : outcome A) (g : A -> prog St B) Q R s0 s a :
  c = Ok a -> wp (g a) Q R s0 s -> wp (x ← pure c; g x) Q R s0 s.
Proof. exact (wp_reading_then (fun _ => c) g Q R s0 s a). Qed.
Lemma wp_yield {A} (p : prog St A) Q R s0 s o : at_rest R o s0 s ->
  (forall R' s', at_rest R' o s' s' -> own_quiet o s s' -> wp p Q R' s' s') -> wp (Yield p) Q R s0 s.
Proof. intros Hr Hp. by exists o. Qed.
Lemma wp_yield_then {A B} (p : prog St A) (g : A -> prog St B) Q R s0 s o : at_rest R o s0 s ->
  (forall R' s', at_rest R' o s' s' -> own_quiet o s s' -> wp (x ← p; g x) Q R' s' s') -> wp (x ← Yield p; g x) Q R s0 s.
Proof. intros Hr Hp. by exists o. Qed.
Lemma wp_ret {A} (a : A) Q R s0 s o : at_rest R o s0 s -> Q a o s -> wp (Ret a) Q R s0 s.
Proof. intros Hr HQ. by exists o. Qed.

(** A section that runs to its end gives what it promises. *)
Lemma wp_section {A} (p : prog St A) Q R s0 s : stable Q -> wp p Q R s0 s ->
  exists p' s' o', section p s = Ok (p', s') /\ at_rest R o' s0 s' /\ parked p' Q o' s'.
Proof.
  intros HQ. revert R s0 s. induction p as [a | B f k IH | p IH]; intros R s0 s; cbn.
  - intros (o & Hr & Ha). exists (Ret a), s, o. split; [done |]. split; [done |].
    intros R' s' Hr' Hq. exists o. split; [done |]. by eapply HQ.
  - intros (b & s' & -> & Hk). by apply IH.
  - intros (o & Hr & Hk). by exists p, s, o.
Qed.

Lemma parked_done {A} (a : A) Q o s T R : own_split T R o -> own_good s T -> parked (Ret a) Q o s ->
  exists o' T', own_split T' R o' /\ own_good s T' /\ Q a o' s.
Proof.
  intros Hs Hg Hp. destruct (Hp R s) as (o' & (T' & Hs' & Hg' & _) & HQ).
  { exists T. split; [done |]. split; [done | apply quiet_refl]. }
  { apply quiet_refl. }
  by exists o', T'.
Qed.

Lemma wp_mono {A} (p : prog St A) (Q Q' : A -> Sh -> St -> Prop) R s0 s :
  wp p Q R s0 s -> (forall a o s, Q a o s -> Q' a o s) -> wp p Q' R s0 s.
Proof.
  intros Hp HQ. revert R s0 s Hp. induction p as [a | B f k IH | p IH]; intros R s0 s; cbn.
  - intros (o & Hr & Ha). exists o. split; [done | by apply HQ].
  - intros (b & s' & Hf & Hk). exists b, s'. split; [done | by apply IH].
  - intros (o & Hr & Hk). exists o. split; [done |]. intros R' s' Hr' Hq. by apply IH, Hk.
Qed.

(** *** A call within a call *)

(** What follows from owning [o] alone. *)
Definition kept_by (o : Sh) (J : St -> Prop) : Prop := forall s s', own_quiet o s s' -> J s -> J s'.

(** A call that needs [a] only leaves the rest of its caller's share alone. *)
Lemma at_rest_part R o a F s0 s : own_split o a F -> at_rest R o s0 s ->
  exists RF, own_split RF R F /\ at_rest RF a s s.
Proof.
  intros Ho%split_comm (T & HT%split_comm & Hg & _). destruct (split_swap _ _ _ _ _ HT Ho) as (T1 & HT1 & HTa).
  exists T1. split; [by apply split_comm |]. exists T. split; [done |]. split; [done | apply quiet_refl].
Qed.
Lemma at_rest_whole R RF F o s0 s1 s : own_split RF R F -> own_quiet R s0 s1 -> at_rest RF o s1 s ->
  exists o', own_split o' o F /\ at_rest R o' s0 s.
Proof.
  intros HRF Hq0 (T & HT & Hg & Hq). destruct (split_assoc _ _ _ _ _ HT HRF) as (o' & Ho' & HT').
  exists o'. split; [exact (split_comm _ _ _ Ho') |]. exists T. split; [done |]. split; [done |].
  eapply quiet_trans; [exact Hq0 |]. exact (quiet_part _ _ _ _ _ HRF Hq).
Qed.

Lemma wp_frame {A} (p : prog St A) Q F J : kept_by F J -> forall R RF s0 s1 s, own_split RF R F -> own_quiet R s0 s1 ->
  J s1 -> wp p Q RF s1 s ->
  wp p (fun a o' s => exists o, own_split o' o F /\ Q a o s /\ J s) R s0 s.
Proof.
  intros HJ. induction p as [a | B f k IH | p IH]; intros R RF s0 s1 s HRF Hq0 HJ1; cbn.
  - intros (o & Hr & HQ). destruct (at_rest_whole _ _ _ _ _ _ _ HRF Hq0 Hr) as (o' & Ho' & Hr'). exists o'. split; [done |].
    exists o. split; [done |]. split; [done |]. eapply HJ; [| exact HJ1]. destruct Hr as (T & _ & _ & Hq).
    exact (quiet_other _ _ _ _ _ HRF Hq).
  - intros (b & s' & Hf & Hk). exists b, s'. split; [done |]. by eapply IH.
  - intros (o & Hr & Hk). destruct (at_rest_whole _ _ _ _ _ _ _ HRF Hq0 Hr) as (o' & Ho' & Hr'). exists o'. split; [done |].
    assert (HJs : J s) by (eapply HJ; [| exact HJ1]; destruct Hr as (T & _ & _ & Hq); exact (quiet_other _ _ _ _ _ HRF Hq)).
    intros R' s' Hr2 Hq2. destruct (at_rest_part _ _ _ _ _ _ Ho' Hr2) as (RF' & HRF' & Hr3).
    eapply (IH R' RF' s' s' s' HRF'); [apply quiet_refl | | apply Hk; [done | exact (quiet_part _ _ _ _ _ Ho' Hq2)]].
    eapply HJ; [| exact HJs]. exact (quiet_other _ _ _ _ _ Ho' Hq2).
Qed.

Lemma wp_call {A B} (p : prog St A) (g : A -> prog St B) Q Q' F J R o a s0 s :
  at_rest R o s0 s -> own_split o a F -> kept_by F J -> J s ->
  (forall RF, at_rest RF a s s -> wp p Q RF s s) ->
  (forall b o1 o2 R1 s1 s2, own_split o2 o1 F -> at_rest R1 o2 s1 s2 -> Q b o1 s2 -> J s2 -> wp (g b) Q' R1 s1 s2) ->
  wp (x ← p; g x) Q' R s0 s.
Proof.
  intros Hr Ho HJ HJs Hp Hg. destruct (at_rest_part _ _ _ _ _ _ Ho Hr) as (RF & HRF & Ha).
  eapply wp_bind; [eapply (wp_frame p Q F J HJ R RF s0 s s HRF); [by destruct Hr as (T & _ & _ & Hq) | done | by apply Hp] |].
  intros b o' R1 s1 s2 Hr1 (o1 & Ho1 & HQ & HJ2). by eapply Hg.
Qed.

(** *** Shares of many *)

(** [T] is the pool with the shares [os]. *)
Fixpoint splits T (pool : Sh) (os : list Sh) : Prop :=
  match os with
  | [] => T = pool
  | o :: os => exists T', own_split T T' o /\ splits T' pool os
  end.

(** One of them and the rest. *)
Lemma splits_pick l1 : forall T pool o l2, splits T pool (l1 ++ o :: l2) ->
  exists R, own_split T R o /\ splits R pool (l1 ++ l2) /\
    forall T' o', own_split T' R o' -> splits T' pool (l1 ++ o' :: l2).
Proof.
  induction l1 as [| o1 l1 IH]; intros T pool o l2; cbn.
  - intros (R & HR & Hs). exists R. split; [done |]. split; [done |]. intros T' o' Ho'. by exists R.
  - intros (T1 & HT & (R1 & HR1 & Hs1 & Hback)%IH).
    destruct (split_swap _ _ _ _ _ HT HR1) as (R & HR & HTR). exists R. split; [done |]. split; [by exists R1 |].
    intros T' o' Ho'. destruct (split_swap _ _ _ _ _ Ho' HR) as (T1' & HT1' & HT'). exists T1'. split; [done | by apply Hback].
Qed.

Lemma splits_quiet os : forall T pool s s', splits T pool os -> own_quiet T s s' ->
  own_quiet pool s s' /\ Forall (fun o => own_quiet o s s') os.
Proof.
  induction os as [| o os IH]; intros T pool s s'; cbn; [intros -> Hq; by split; [| constructor] |].
  intros (T' & HT & Hs) Hq. destruct (IH T' pool s s' Hs) as [Hp Hos]; [by eapply quiet_part |].
  split; [done |]. constructor; [by eapply quiet_other | done].
Qed.

(** A part of the pool becomes a share, and a share goes to the pool. *)
Lemma splits_start os : forall T pool pool' o, splits T pool os -> own_split pool pool' o -> splits T pool' (os ++ [o]).
Proof.
  induction os as [| o1 os IH]; intros T pool pool' o; cbn; [intros -> Ho; by exists pool' |].
  intros (T' & HT & Hs) Ho. exists T'. split; [done |]. by eapply IH.
Qed.
Lemma splits_join os : forall R T pool pool' o, splits R pool os -> own_split T R o -> own_split pool' pool o ->
  splits T pool' os.
Proof.
  induction os as [| o1 os IH]; intros R T pool pool' o; cbn.
  - intros -> HT Hp. by eapply split_unique.
  - intros (R' & HR & Hs) HT Hp. destruct (split_swap _ _ _ _ _ HT HR) as (T' & HT' & HTT).
    exists T'. split; [done |]. by eapply IH.
Qed.
(** A share among the others. *)
Lemma splits_unpick l1 : forall T R pool o l2, own_split T R o -> splits R pool (l1 ++ l2) -> splits T pool (l1 ++ o :: l2).
Proof.
  induction l1 as [| o1 l1 IH]; intros T R pool o l2 HT; cbn; [intros Hs; by exists R |].
  intros (T1 & HR & Hs). destruct (split_swap _ _ _ _ _ HT HR) as (X & HX & HTX). exists X. split; [done | by eapply IH].
Qed.
(** A part leaves the pool, or comes to it. *)
Lemma splits_take os : forall R pool pool' b, splits R pool os -> own_split pool pool' b ->
  exists R', own_split R R' b /\ splits R' pool' os.
Proof.
  induction os as [| o os IH]; intros R pool pool' b; cbn; [intros -> Hb; by exists pool' |].
  intros (T1 & HR & Hs) Hb. destruct (IH _ _ _ _ Hs Hb) as (R1 & HR1 & Hs1).
  destruct (split_swap _ _ _ _ _ HR HR1) as (X & HX & HRX). exists X. split; [done | by exists R1].
Qed.
Lemma splits_give os : forall R T pool b, splits R pool os -> own_split T R b ->
  exists pool', own_split pool' pool b /\ splits T pool' os.
Proof.
  induction os as [| o os IH]; intros R T pool b; cbn; [intros -> Hb; by exists T |].
  intros (T1 & HR & Hs) Hb. destruct (split_swap _ _ _ _ _ Hb HR) as (X & HX & HTX).
  destruct (IH _ _ _ _ Hs HX) as (pool' & Hp & Hs'). exists pool'. split; [done | by exists X].
Qed.

(** A call begins: its share and a part of the pool are what it owns. *)
Lemma splits_begin l1 T pool pool' o b l2 : splits T pool (l1 ++ o :: l2) -> own_split pool pool' b ->
  exists o', own_split o' b o /\ splits T pool' (l1 ++ o' :: l2).
Proof.
  intros Hs Hb. destruct (splits_pick _ _ _ _ _ Hs) as (R & HR & HsR & _).
  destruct (splits_take _ _ _ _ _ HsR Hb) as (R' & HR' & HsR').
  destruct (split_assoc _ _ _ _ _ HR HR') as (o' & Ho' & HT). exists o'. split; [done | by eapply splits_unpick].
Qed.
(** A call returns: a part of what it owns goes to the pool. *)
Lemma splits_end l1 T R pool o b o' l2 : splits R pool (l1 ++ l2) -> own_split T R o -> own_split o b o' ->
  exists pool', own_split pool' pool b /\ splits T pool' (l1 ++ o' :: l2).
Proof.
  intros Hs HT Ho. destruct (split_swap _ _ _ _ _ (split_comm _ _ _ HT) Ho) as (X & HX & HTX).
  destruct (splits_give _ _ _ _ _ Hs (split_comm _ _ _ HX)) as (pool' & Hp & Hs'). exists pool'. split; [done | by eapply splits_unpick].
Qed.
Lemma splits_pool os : forall T pool, splits T pool os -> os = [] /\ T = pool \/ exists R, own_split T pool R.
Proof.
  induction os as [| o os IH]; intros T pool; cbn; [intros ->; by left |].
  intros (T' & HT & [[_ ->] | [R HR]]%IH); right; [by eexists |].
  destruct (split_assoc _ _ _ _ _ HT HR) as (R' & _ & HT2). by exists R'.
Qed.
End Rules.

(** ** A part of a larger state *)

Class View (St St1 : Type) := { view : St -> St1; put : St -> St1 -> St }.
Class ViewLaws (St St1 : Type) `{View St St1} := {
  view_put (s : St) (x : St1) : view (put s x) = x;
  put_view (s : St) : put s (view s) = s;
  put_put (s : St) (x y : St1) : put (put s x) y = put s y
}.

(** A program on the part is one on the whole. *)
Fixpoint within_view {St St1 A} `{View St St1} (p : prog St1 A) : prog St A :=
  match p with
  | Ret a => Ret a
  | Act f k => Act (fun s => '(b, x) ← f (view s); Ok (b, put s x)) (fun b => within_view (k b))
  | Yield p => Yield (within_view p)
  end.

Section View.
Context {St St1 Sh : Type} `{ViewLaws St St1} `{OwnershipLaws St1 Sh}.

#[export] Instance view_ownership : Ownership St Sh := {|
  own_split := own_split;
  own_good s T := own_good (view s) T;
  own_quiet a s s' := own_quiet a (view s) (view s')
|}.
#[export] Instance view_ownership_laws : OwnershipLaws St Sh.
Proof.
  constructor; cbn.
  - apply split_comm.
  - apply split_assoc.
  - apply split_unique.
  - intros a s. apply quiet_refl.
  - intros a s1 s2 s3. apply quiet_trans.
  - intros T a b s s'. apply quiet_part.
Qed.

Lemma wp_view {A} (p : prog St1 A) Q R s0 s : wp p Q R (view s0) (view s) ->
  wp (within_view p) (fun a o s => Q a o (view s)) R s0 s.
Proof.
  revert R s0 s. induction p as [a | B f k IH | p IH]; intros R s0 s; cbn; [done | |].
  - intros (b & x & Hf & Hk). exists b, (put s x). rewrite Hf. split; [done |]. apply IH. by rewrite view_put.
  - intros (o & Hr & Hk). exists o. split; [exact Hr |]. intros R' s' Hr' Hq. by apply IH, Hk.
Qed.

Lemma alone_view {A} (p : prog St1 A) s : alone (within_view p) s = '(a, x) ← alone p (view s); Ok (a, put s x).
Proof.
  revert s. induction p as [a | B f k IH | p IH]; intros s; cbn; [by rewrite put_view | | apply IH].
  destruct (f (view s)) as [[b x] | | |]; [| done..]. rewrite !bind_Ok_l, IH, view_put.
  destruct (alone (k b) x) as [[c y] | | |]; [| done..]. by rewrite !bind_Ok_l, put_put.
Qed.
End View.

(** ** Calls in flight *)

(** The state, what the clients hold, and the calls that have begun and not yet
    returned, each with what is left of it. *)
Record flight (St Sh C A : Type) := mkFlight { fl_state : St; fl_pool : Sh; fl_calls : list (C * prog St A) }.
Arguments mkFlight {St Sh C A} _ _ _.
Arguments fl_state {St Sh C A} _.
Arguments fl_pool {St Sh C A} _.
Arguments fl_calls {St Sh C A} _.

Section Flight.
Context {St Sh C A : Type} `{OwnershipLaws St Sh}.
Context (prog_of : C -> prog St A) (pre : C -> Sh -> St -> Prop) (post : C -> A -> Sh -> St -> Prop)
  (client : Sh -> St -> St -> Prop).
Implicit Types (fl : flight St Sh C A).

(** A client begins a call with what it takes; a call runs one section; a call
    returns with what it gives; a client changes what it holds. *)
Inductive flight_step : flight St Sh C A -> flight St Sh C A -> Prop :=
| fl_begin s pool pool' o c cs : own_split pool pool' o -> pre c o s ->
    flight_step (mkFlight s pool cs) (mkFlight s pool' (cs ++ [(c, prog_of c)]))
| fl_run s s' pool c p p' l1 l2 : section p s = Ok (p', s') ->
    flight_step (mkFlight s pool (l1 ++ (c, p) :: l2)) (mkFlight s' pool (l1 ++ (c, p') :: l2))
| fl_return s pool pool' o c a l1 l2 : post c a o s -> own_split pool' pool o ->
    flight_step (mkFlight s pool (l1 ++ (c, Ret a) :: l2)) (mkFlight s pool' (l1 ++ l2))
| fl_client s s' pool cs : client pool s s' -> flight_step (mkFlight s pool cs) (mkFlight s' pool cs).

(** Every call in flight owns a share and can go on from any later moment. *)
Definition flight_inv fl : Prop :=
  exists T os, own_good (fl_state fl) T /\ splits T (fl_pool fl) os /\
    Forall2 (fun cp o => parked cp.2 (post cp.1) o (fl_state fl)) (fl_calls fl) os.

Context (Hpre : forall c R o s0 s, at_rest R o s0 s -> pre c o s -> wp (prog_of c) (post c) R s s).
Context (Hpre_stable : forall c o s s', own_quiet o s s' -> pre c o s -> pre c o s').
Context (Hstable : forall c, stable (post c)).
Context (Hprecise : forall c a o o' s, post c a o s -> post c a o' s -> o = o').
Context (Hclient : forall T pool os s s', own_good s T -> splits T pool os -> client pool s s' ->
  own_good s' T /\ Forall (fun o => own_quiet o s s') os).

(** A call in flight can always run its next section. *)
Lemma flight_run s pool c p l1 l2 : flight_inv (mkFlight s pool (l1 ++ (c, p) :: l2)) ->
  exists p' s', section p s = Ok (p', s') /\ flight_inv (mkFlight s' pool (l1 ++ (c, p') :: l2)).
Proof.
  intros (T & os & Hg & Hs & Hp). cbn in *.
  apply Forall2_app_inv_l in Hp as (os1 & os2' & Hp1 & Hp2 & ->).
  apply Forall2_cons_inv_l in Hp2 as (o & os2 & Hpo & Hp2 & ->). cbn in Hpo.
  destruct (splits_pick os1 T pool o os2 Hs) as (R & HR & HsR & Hback).
  destruct (wp_section p (post c) R s s (Hstable c)) as (p' & s' & o' & Hsec & (T' & HT' & Hg' & Hq) & Hpk).
  { apply Hpo; [| apply quiet_refl]. exists T. split; [done |]. split; [done | apply quiet_refl]. }
  exists p', s'. split; [done |]. exists T', (os1 ++ o' :: os2). cbn. split; [done |]. split; [by apply Hback |].
  destruct (splits_quiet _ _ _ _ _ HsR Hq) as [_ [Hq1 Hq2]%Forall_app].
  assert (Hkeep : forall cs os, Forall2 (fun cp o => parked cp.2 (post cp.1) o s) cs os -> Forall (fun o => own_quiet o s s') os ->
      Forall2 (fun cp o => parked cp.2 (post cp.1) o s') cs os).
  { induction 1 as [| cp x cs xs Hx Hxs IH]; intros Hqs; [constructor |]. apply Forall_cons in Hqs as [Hqx Hqs].
    constructor; [by eapply parked_quiet | by apply IH]. }
  apply Forall2_app; [by apply Hkeep |]. constructor; [done | by apply Hkeep].
Qed.

Lemma flight_step_inv fl fl' : flight_inv fl -> flight_step fl fl' -> flight_inv fl'.
Proof.
  intros Hi Hstep. destruct Hstep as [s pool pool' o c cs Ho Hc | s s' pool c p p' l1 l2 Hrun | s pool pool' o c a l1 l2 Ha Ho | s s' pool cs Hc].
  - destruct Hi as (T & os & Hg & Hs & Hp). cbn in *. exists T, (os ++ [o]). cbn. split; [done |].
    split; [by eapply splits_start |]. apply Forall2_app; [done |]. constructor; [| constructor]. cbn.
    intros R' s' Hr' Hq. eapply Hpre; [exact Hr' | by eapply Hpre_stable].
  - destruct (flight_run _ _ _ _ _ _ Hi) as (q & sq & Hq & Hinv). rewrite Hrun in Hq. by injection Hq as <- <-.
  - destruct Hi as (T & os & Hg & Hs & Hp). cbn in *.
    apply Forall2_app_inv_l in Hp as (os1 & os2' & Hp1 & Hp2 & ->).
    apply Forall2_cons_inv_l in Hp2 as (o1 & os2 & Hpo & Hp2 & ->). cbn in Hpo.
    destruct (splits_pick os1 T pool o1 os2 Hs) as (R & HR & HsR & _).
    destruct (parked_done a (post c) o1 s T R HR Hg Hpo) as (o' & T' & HR' & Hg' & Ha').
    rewrite (Hprecise c a o' o s Ha' Ha) in HR'. exists T', (os1 ++ os2). cbn. split; [done |].
    split; [by eapply splits_join | by apply Forall2_app].
  - destruct Hi as (T & os & Hg & Hs & Hp). cbn in *. destruct (Hclient T pool os s s' Hg Hs Hc) as [Hg' Hqs].
    exists T, os. cbn. split; [done |]. split; [done |]. clear -Hp Hqs H H0.
    induction Hp as [| cp x cs xs Hx Hxs IH]; [constructor |]. apply Forall_cons in Hqs as [Hqx Hqs].
    constructor; [by eapply parked_quiet | by apply IH].
Qed.

Definition flights := rtc flight_step.

Lemma flights_inv fl fl' : flight_inv fl -> flights fl fl' -> flight_inv fl'.
Proof. intros Hi Hr. induction Hr as [| x y z Hxy Hyz IH]; [done |]. apply IH. by eapply flight_step_inv. Qed.

(** A call that has ended can return: what it gives is in nobody else's hands. *)
Lemma flight_done s pool c a l1 l2 : flight_inv (mkFlight s pool (l1 ++ (c, Ret a) :: l2)) ->
  exists o pool', post c a o s /\ own_split pool' pool o.
Proof.
  intros (T & os & Hg & Hs & Hp). cbn in *.
  apply Forall2_app_inv_l in Hp as (os1 & os2' & Hp1 & Hp2 & ->).
  apply Forall2_cons_inv_l in Hp2 as (o1 & os2 & Hpo & Hp2 & ->). cbn in Hpo.
  destruct (splits_pick os1 T pool o1 os2 Hs) as (R & HR & HsR & _).
  destruct (parked_done a (post c) o1 s T R HR Hg Hpo) as (o & T' & HR' & Hg' & Ha). exists o.
  destruct (splits_pool _ _ _ HsR) as [[_ ->] | [R2 HR2]]; [by eexists |].
  apply split_comm in HR2. destruct (split_assoc _ _ _ _ _ HR' HR2) as (pool' & Hpool & _). by exists pool'.
Qed.
(** Two calls that have ended can return, one after the other. *)
Lemma flight_two s pool c1 a1 c2 a2 l1 l2 l3 :
  flight_inv (mkFlight s pool (l1 ++ (c1, Ret a1) :: l2 ++ (c2, Ret a2) :: l3)) ->
  exists o1 o2 pool1 pool2 R T, post c1 a1 o1 s /\ post c2 a2 o2 s /\ own_split pool1 pool o1 /\ own_split pool2 pool1 o2 /\
    (T = pool2 \/ own_split T R pool2) /\ own_good s T.
Proof.
  intros (T & os & Hg & Hs & Hp). cbn in *.
  apply Forall2_app_inv_l in Hp as (os1 & os' & Hp1 & Hp2 & ->).
  apply Forall2_cons_inv_l in Hp2 as (o1 & os2' & Hpo1 & Hp2 & ->).
  apply Forall2_app_inv_l in Hp2 as (os2 & os3' & Hp2 & Hp3 & ->).
  apply Forall2_cons_inv_l in Hp3 as (o2 & os3 & Hpo2 & Hp3 & ->). cbn in *.
  destruct (splits_pick os1 T pool o1 _ Hs) as (R1 & HR1 & HsR1 & _). rewrite app_assoc in HsR1.
  destruct (splits_pick _ R1 pool o2 os3 HsR1) as (R2 & HR2 & HsR2 & _).
  destruct (parked_done a1 (post c1) o1 s T R1 HR1 Hg Hpo1) as (o1' & T1 & HT1 & Hg1 & Ha1).
  destruct (split_swap _ _ _ _ _ HT1 HR2) as (R & HR & HTR).
  destruct (parked_done a2 (post c2) o2 s T1 R HTR Hg1 Hpo2) as (o2' & T2 & HT2 & Hg2 & Ha2).
  exists o1', o2'. destruct (splits_pool _ _ _ HsR2) as [[_ ->] | [X HX]].
  - exists R, T2, R, T2. do 4 (split; [done |]). split; [by left | done].
  - apply split_comm in HX. destruct (split_assoc _ _ _ _ _ HR HX) as (pool1 & Hpool1 & HRX).
    destruct (split_assoc _ _ _ _ _ HT2 HRX) as (pool2 & Hpool2 & HTX).
    exists pool1, pool2, X, T2. do 4 (split; [done |]). split; [by right | done].
Qed.

(** A call goes on to its end; then it can return. *)
Lemma flight_ends c p : Acc next_section p -> forall s pool l1 l2, flight_inv (mkFlight s pool (l1 ++ (c, p) :: l2)) ->
  exists s' a, flights (mkFlight s pool (l1 ++ (c, p) :: l2)) (mkFlight s' pool (l1 ++ (c, Ret a) :: l2)).
Proof.
  induction 1 as [p _ IH]. intros s pool l1 l2 Hi.
  assert (Hmore : (forall a, p <> Ret a) ->
    exists s' a, flights (mkFlight s pool (l1 ++ (c, p) :: l2)) (mkFlight s' pool (l1 ++ (c, Ret a) :: l2))).
  { intros Hne. destruct (flight_run s pool c p l1 l2 Hi) as (p' & s1 & Hsec & Hi1).
    destruct (IH p') with (s := s1) (pool := pool) (l1 := l1) (l2 := l2) as (s' & a & Hrun); [by split; [| exists s, s1] | done |].
    exists s', a. eapply rtc_l; [| exact Hrun]. by apply fl_run. }
  destruct p as [a | B f k | p]; [| by apply Hmore..]. exists s, a. apply rtc_refl.
Qed.

Lemma flight_end cs : forall s pool, flight_inv (mkFlight s pool cs) ->
  exists fl, flights (mkFlight s pool cs) fl /\ fl_calls fl = [].
Proof.
  induction cs as [| [c p] cs IH]; intros s pool Hi; [by eexists; split; [apply rtc_refl |] |].
  destruct (flight_ends c p (sections_finite p) s pool [] cs Hi) as (s1 & a & Hrun).
  pose proof (flights_inv _ _ Hi Hrun) as Hi1. destruct (flight_done s1 pool c a [] cs Hi1) as (o & pool1 & Ha & Ho).
  assert (Hret : flights (mkFlight s1 pool ((c, Ret a) :: cs)) (mkFlight s1 pool1 cs)).
  { apply rtc_once. by apply (fl_return s1 pool pool1 o c a [] cs). }
  destruct (IH s1 pool1) as (fl & Hrun' & Hnil); [by eapply flights_inv |].
  exists fl. split; [| done]. etrans; [exact Hrun |]. by etrans.
Qed.
End Flight.
