(* ===== verification/CentralCalls.v ===== *)
(** * The central cache, one critical section at a time

    [FetchBatch], [ReleaseBatch] and [DrainTransferCaches] (central_cache.cpp) as
    programs with a [Yield] wherever the code holds no lock: between the spin lock
    of a transfer cache, the mutex of a bucket, and the page cache's own locks.
    The mutex of the bucket is released while [GetOneSpan] is in the page cache,
    and empty spans go back to the page cache one by one without it.  A program
    that nobody interrupts is the function of CentralCache. *)
From S2P Require Import Prelude Config SizeClass FreeList Common Span SpanList Backing PageMap PageCache CentralCache Sections.
Open Scope Z_scope.

Section Programs.
Context `{Build} `{StaticLayout} `{CentralLayout} {W : Type} `{Backing W}.
Local Abbreviation prog := (prog (CentralCache W)).

Definition out_of_fuel {A} : prog A := pure NoFuel.

(** ** ReleaseBatch *)

(** The pushes into the transfer cache, under its spin lock. *)
Definition absorb_sections (idx : Z) (objs : list Z) : prog (list Z) := Yield (act (fun s => absorb s idx objs)).

(** One empty span, under the page cache's lock. *)
Definition release_one (count : bool) (head : Z) (s : CentralCache W) : outcome (Z * CentralCache W) :=
  d ← get_span (cc_spans s) head;
  let s := if count then cc_add release_spans_returned_to_pagecache 1 s else s in
  p ← ReleaseSpan (cc_pages s) head;
  Ok (sp_next d, with_pages s p).

Fixpoint release_empty_sections (fuel : nat) (count : bool) (head : Z) : prog () :=
  if head =? 0 then Ret ()
  else match fuel with
  | O => out_of_fuel
  | S fuel' => Yield (next ← act (release_one count head); release_empty_sections fuel' count next)
  end.

Definition release_chunk_sections (idx : Z) (mode : CentralReleaseMode) (objs : list Z) : prog () :=
  rest ← (match mode with kTransferCache => absorb_sections idx objs | kSpanBitmap => Ret objs end);
  match rest with
  | [] => Ret ()
  | _ =>
      head ← Yield (act (fun s =>
        let s := match mode with
                 | kTransferCache => cc_add release_transfer_overflow_objects (Z.of_nat (length rest)) s
                 | kSpanBitmap => s
                 end in
        free_objs s idx mode rest 0));
      release_empty_sections (length rest) true head
  end.

Fixpoint release_loop_sections (fuel : nat) (idx : Z) (mode : CentralReleaseMode) (cur remaining : Z) : prog Z :=
  if remaining =? 0 then Ret cur
  else match fuel with
  | O => out_of_fuel
  | S fuel' =>
      let local_count := Z.min remaining kMaxBatchSize in
      '(objs, cur) ← reading (fun s => read_chain (Z.to_nat local_count) (cc_mem s) cur);
      _ ← release_chunk_sections idx mode objs;
      release_loop_sections fuel' idx mode cur (remaining - local_count)
  end.

Definition ReleaseBatch_sections (batch : ObjectBatch) (mode : CentralReleaseMode) : prog () :=
  if batch_empty batch then _ ← pure (batch_destroy (MarkProcessed batch)); Ret ()
  else
    let idx := ob_size_class_idx batch in
    _ ← pure (AM_DCHECK (idx <? kNumSizeClasses) "idx < SizeClass::kNumSizeClasses");
    cur ← release_loop_sections (Z.to_nat (ob_count batch)) idx mode (ob_head batch) (ob_count batch);
    _ ← pure (AM_DCHECK (cur =? 0) "cur == nullptr");
    _ ← pure (batch_destroy (MarkProcessed batch));
    Ret ().

(** ** FetchBatch *)

(** Called and left with the bucket's mutex held, which is released in between. *)
Definition GetOneSpan_sections (idx aligned_size : Z) : prog Z :=
  span ← Yield (act (fun s =>
    '(span, p) ← AllocSpan (cc_pages s) (GetMovePageNum aligned_size); Ok (span, with_pages s p)));
  if span =? 0 then Yield (Ret 0)
  else
    _ ← Yield (doing (fun s =>
      d ← get_span (cc_spans s) span;
      '(d, m) ← Init (cc_mem s) d aligned_size;
      Ok (put_span s span d m)));
    Yield (act (fun s =>
      let s := cc_add fetch_pagecache_spans 1 s in
      st ← push_front (cc_spans s) (bucket_head idx) span;
      Ok (span, with_descs s st))).

Fixpoint fetch_loop_sections (fuel : nat) (idx aligned_size need target : Z) (f : fetch) : prog fetch :=
  if fe_extracted f <? target
  then match fuel with
  | O => out_of_fuel
  | S fuel' =>
      dry ← reading (fun s => e ← sl_empty (cc_spans s) (bucket_head idx); if e : bool then Ok true else begin_full s f);
      go ← (if dry : bool
            then span ← GetOneSpan_sections idx aligned_size;
                 if span =? 0 then Ret None
                 else first ← reading (fun s => sl_begin (cc_spans s) (bucket_head idx)); Ret (Some (set_begin f first))
            else Ret (Some f));
      match go with
      | None => Ret f
      | Some f =>
          f ← act (fun s => carve (S (Z.to_nat (target - fe_extracted f))) s idx need target (count_traversal f));
          f ← act (fun s => full ← begin_full s f; if full : bool then rotate s idx f else Ok (f, s));
          fetch_loop_sections fuel' idx aligned_size need target f
      end
  end
  else Ret f.

Definition fetch_spans_sections (idx aligned_size need target head tail fetched : Z) : prog fetch :=
  begin ← Yield (reading (fun s => sl_begin (cc_spans s) (bucket_head idx)));
  f ← fetch_loop_sections (S (Z.to_nat target)) idx aligned_size need target
        (mkFetch head tail fetched 0 [] begin 0 0);
  _ ← doing (fun s => Ok (cc_add_pos spanlist_rotations (fe_rotations f)
        (cc_add_pos spanlist_traversals (fe_traversals f)
          (cc_add_pos fetch_span_list_objects (fe_extracted f) s))));
  Ret f.

Definition publish_prefetched_sections (idx : Z) (objs : list Z) : prog () :=
  match objs with
  | [] => Ret ()
  | _ =>
      rest ← absorb_sections idx objs;
      match rest with
      | [] => Ret ()
      | leftover_tail :: _ =>
          leftover_head ← Yield (act (fun s => '(h, m) ← link_all (cc_mem s) rest 0; Ok (h, with_mem s m)));
          b ← reading (fun s => make_batch (cc_mem s) leftover_head leftover_tail (Z.of_nat (length rest)) idx);
          ReleaseBatch_sections b kTransferCache
      end
  end.

Definition FetchBatch_sections (idx preferred_count : Z) : prog ObjectBatch :=
  _ ← pure (AM_DCHECK (idx <? kNumSizeClasses) "idx < SizeClass::kNumSizeClasses");
  _ ← pure (AM_DCHECK (preferred_count <=? kMaxBatchSize) "preferred_count <= SizeClass::kMaxBatchSize");
  if preferred_count =? 0 then Ret empty_batch
  else
    let fetch_num := preferred_count in
    let aligned_size := Size idx in
    objs ← Yield (act (fun s => fetch_transfer s idx fetch_num));
    let grabbed := Z.of_nat (length objs) in
    head ← Yield (act (fun s => '(h, m) ← link_all (cc_mem s) (rev objs) 0; Ok (h, with_mem s m)));
    let tail := default 0 (last objs) in
    '(head, tail, fetched) ←
      (if grabbed <? fetch_num
       then
         let need_for_thread := fetch_num - grabbed in
         let extract_target := u64 (need_for_thread + fetch_num) in
         f ← fetch_spans_sections idx aligned_size need_for_thread extract_target head tail grabbed;
         _ ← publish_prefetched_sections idx (fe_prefetched f);
         Ret (fe_head f, fe_tail f, fe_fetched f)
       else Ret (head, tail, grabbed));
    if fetched =? 0 then Ret empty_batch
    else Yield (reading (fun s => make_batch (cc_mem s) head tail fetched idx)).

(** ** DrainTransferCaches *)

Fixpoint drain_loop_sections (fuel : nat) (idx aligned_size : Z) (unbounded : bool)
    (remaining max_bytes drained_bytes : Z) : prog (Z * Z) :=
  if 0 <? remaining
  then match fuel with
  | O => out_of_fuel
  | S fuel' =>
      objs ← Yield (act (fun s => detach_cold s idx (Z.min kMaxBatchSize remaining)));
      match objs with
      | [] => Ret (max_bytes, drained_bytes)
      | first :: _ =>
          let detached := Z.of_nat (length objs) in
          head ← Yield (act (fun s => '(h, m) ← link_all (cc_mem s) objs 0; Ok (h, with_mem s m)));
          b ← reading (fun s => make_batch (cc_mem s) head first detached idx);
          _ ← ReleaseBatch_sections b kSpanBitmap;
          let batch_bytes := u64 (detached * aligned_size) in
          drain_loop_sections fuel' idx aligned_size unbounded (remaining - detached)
            (if unbounded then max_bytes else u64 (max_bytes - batch_bytes))
            (u64 (drained_bytes + batch_bytes))
      end
  end
  else Ret (max_bytes, drained_bytes).

(** The snapshot is taken under the spin lock. *)
Definition drain_class_sections (idx : Z) (unbounded : bool) (max_bytes drained_bytes : Z) : prog (Z * Z) :=
  let aligned_size := Size idx in
  if negb unbounded && (max_bytes <? aligned_size) then Ret (max_bytes, drained_bytes)
  else
    snapshot_count ← Yield (reading (fun s =>
      let size := transfer_cache_size (cc_buckets s idx) in
      if unbounded then Ok size else q ← udiv max_bytes aligned_size; Ok (Z.min size q)));
    drain_loop_sections (Z.to_nat snapshot_count) idx aligned_size unbounded snapshot_count max_bytes drained_bytes.

Fixpoint drain_classes_sections (n : nat) (unbounded : bool) (max_bytes drained_bytes : Z) : prog Z :=
  match n with
  | O => Ret drained_bytes
  | S n' =>
      '(max_bytes, drained_bytes) ← drain_class_sections (Z.of_nat n') unbounded max_bytes drained_bytes;
      drain_classes_sections n' unbounded max_bytes drained_bytes
  end.

Definition DrainTransferCaches_sections (max_bytes : Z) : prog Z :=
  if max_bytes =? 0 then Ret 0
  else
    let unbounded := max_bytes =? SIZE_MAX in
    drained_bytes ← drain_classes_sections (Z.to_nat kNumSizeClasses) unbounded max_bytes 0;
    _ ← Yield (doing (fun s => Ok (cc_add transfer_cache_drained_bytes drained_bytes s)));
    Ret drained_bytes.
End Programs.

(** ** A call that nobody interrupts *)

Section Uninterrupted.
Context `{Build} `{StaticLayout} `{CentralLayout} {W : Type} `{Backing W}.
Implicit Types (s : CentralCache W).

Lemma alone_release_empty fuel count : forall head s,
  alone (release_empty_sections fuel count head) s = (s ← release_empty fuel s count head; Ok ((), s)).
Proof.
  induction fuel as [| fuel IH]; intros head s; cbn [release_empty_sections release_empty]; destruct (head =? 0); try done.
  cbn [alone]. rewrite alone_bind, alone_act. unfold release_one.
  destruct (get_span (cc_spans s) head) as [d | | |]; [| done..]. rewrite !bind_Ok_l.
  destruct (ReleaseSpan _ head) as [p | | |]; [| done..]. rewrite !bind_Ok_l. apply IH.
Qed.

Lemma alone_release_chunk idx mode objs s :
  alone (release_chunk_sections idx mode objs) s = (s ← release_chunk s idx mode objs; Ok ((), s)).
Proof.
  unfold release_chunk_sections, release_chunk. rewrite alone_bind.
  assert (Hrest : forall rest s, alone (match rest with
    | [] => Ret ()
    | _ => head ← Yield (act (fun s => free_objs (match mode with
               | kTransferCache => cc_add release_transfer_overflow_objects (Z.of_nat (length rest)) s
               | kSpanBitmap => s end) idx mode rest 0));
           release_empty_sections (length rest) true head end) s =
    (s ← match rest with
         | [] => Ok s
         | _ => '(empty_head, s) ← free_objs (match mode with
                  | kTransferCache => cc_add release_transfer_overflow_objects (Z.of_nat (length rest)) s
                  | kSpanBitmap => s end) idx mode rest 0;
                release_empty (length rest) s true empty_head end; Ok ((), s))).
  { intros [| r rest] s1; [done |]. rewrite alone_bind. cbn [alone]. rewrite alone_act.
    destruct (free_objs _ _ _ _ _) as [[head s2] | | |]; [| done..]. rewrite !bind_Ok_l. apply alone_release_empty. }
  destruct mode.
  - unfold absorb_sections. cbn [alone]. rewrite alone_act. destruct (absorb s idx objs) as [[rest s1] | | |]; [| done..].
    rewrite !bind_Ok_l. apply Hrest.
  - cbn [alone]. rewrite !bind_Ok_l. apply Hrest.
Qed.

Lemma alone_release_loop fuel idx mode : forall cur remaining s,
  alone (release_loop_sections fuel idx mode cur remaining) s = release_loop fuel s idx mode cur remaining.
Proof.
  induction fuel as [| fuel IH]; intros cur remaining s; cbn [release_loop_sections release_loop]; destruct (remaining =? 0); try done.
  cbv zeta. rewrite alone_bind, alone_reading. destruct (read_chain _ _ cur) as [[objs cur'] | | |]; [| done..].
  rewrite !bind_Ok_l, alone_bind, alone_release_chunk. destruct (release_chunk s idx mode objs) as [s1 | | |]; [| done..].
  rewrite !bind_Ok_l. apply IH.
Qed.

Lemma alone_ReleaseBatch b mode s :
  alone (ReleaseBatch_sections b mode) s = (s ← ReleaseBatch s b mode; Ok ((), s)).
Proof.
  unfold ReleaseBatch_sections, ReleaseBatch. destruct (batch_empty b).
  { rewrite alone_bind, alone_pure. by destruct (batch_destroy _). }
  cbv zeta. rewrite alone_bind, alone_pure. destruct (AM_DCHECK _ _); [| done..]. rewrite !bind_Ok_l.
  rewrite alone_bind, alone_release_loop. destruct (release_loop _ _ _ _ _ _) as [[cur s1] | | |]; [| done..]. rewrite !bind_Ok_l.
  rewrite alone_bind, alone_pure. destruct (AM_DCHECK _ _); [| done..]. rewrite !bind_Ok_l.
  rewrite alone_bind, alone_pure. by destruct (batch_destroy _).
Qed.

Lemma alone_GetOneSpan idx sz s : alone (GetOneSpan_sections idx sz) s = GetOneSpan s idx sz.
Proof.
  unfold GetOneSpan_sections, GetOneSpan. rewrite alone_bind. cbn [alone]. rewrite alone_act.
  destruct (AllocSpan _ _) as [[span p] | | |]; [| done..]. rewrite !bind_Ok_l. destruct (span =? 0); [done |].
  rewrite alone_bind. cbn [alone]. rewrite alone_doing. destruct (get_span _ span) as [d | | |]; [| done..]. rewrite !bind_Ok_l.
  destruct (Init _ d sz) as [[d' m] | | |]; [| done..]. rewrite !bind_Ok_l. cbn [alone]. by rewrite alone_act.
Qed.

Lemma alone_fetch_loop fuel idx sz need target : forall f s,
  alone (fetch_loop_sections fuel idx sz need target f) s = fetch_loop fuel s idx sz need target f.
Proof.
  induction fuel as [| fuel IH]; intros f s; cbn [fetch_loop_sections fetch_loop]; destruct (fe_extracted f <? target); try done.
  rewrite alone_bind, alone_reading. destruct (sl_empty _ _) as [e | | |]; [| done..]. rewrite !bind_Ok_l.
  destruct (if e then Ok true else begin_full s f) as [dry | | |]; [| done..]. rewrite !bind_Ok_l, alone_bind.
  assert (Htail : forall f s, alone (f ← act (fun s => carve (S (Z.to_nat (target - fe_extracted f))) s idx need target (count_traversal f));
      f ← act (fun s => full ← begin_full s f; if full : bool then rotate s idx f else Ok (f, s));
      fetch_loop_sections fuel idx sz need target f) s =
    ('(f, s) ← carve (S (Z.to_nat (target - fe_extracted f))) s idx need target (count_traversal f);
     full ← begin_full s f; '(f, s) ← (if full : bool then rotate s idx f else Ok (f, s));
     fetch_loop fuel s idx sz need target f)).
  { intros g s1. rewrite alone_bind, alone_act. destruct (carve _ _ _ _ _ _) as [[g2 s2] | | |]; [| done..]. rewrite !bind_Ok_l.
    rewrite alone_bind, alone_act. destruct (begin_full s2 g2) as [full | | |]; [| done..]. rewrite !bind_Ok_l.
    destruct (if full then _ else _) as [[g3 s3] | | |]; [| done..]. rewrite !bind_Ok_l. apply IH. }
  destruct dry; [| cbn [alone]; rewrite !bind_Ok_l; apply Htail].
  rewrite alone_bind, alone_GetOneSpan. destruct (GetOneSpan s idx sz) as [[span s1] | | |]; [| done..]. rewrite !bind_Ok_l.
  destruct (span =? 0); [done |]. rewrite alone_bind, alone_reading. destruct (sl_begin _ _) as [first | | |]; [| done..].
  rewrite !bind_Ok_l. cbn [alone]. rewrite !bind_Ok_l. apply Htail.
Qed.

Lemma alone_publish idx objs s :
  alone (publish_prefetched_sections idx objs) s = (s ← publish_prefetched s idx objs; Ok ((), s)).
Proof.
  unfold publish_prefetched_sections, publish_prefetched. destruct objs as [| o objs]; [done |].
  rewrite alone_bind. unfold absorb_sections. cbn [alone]. rewrite alone_act.
  destruct (absorb s idx (o :: objs)) as [[rest s1] | | |]; [| done..]. rewrite !bind_Ok_l. destruct rest as [| r rest]; [done |].
  rewrite alone_bind. cbn [alone]. rewrite alone_act. destruct (link_all _ _ _) as [[h m] | | |]; [| done..]. rewrite !bind_Ok_l.
  rewrite alone_bind, alone_reading. cbv zeta. cbn [cc_mem with_mem]. destruct (make_batch _ _ _ _ _) as [b | | |]; [| done..].
  rewrite !bind_Ok_l. apply alone_ReleaseBatch.
Qed.

Lemma alone_fetch_spans idx sz need target head tail fetched s :
  alone (fetch_spans_sections idx sz need target head tail fetched) s = fetch_spans s idx sz need target head tail fetched.
Proof.
  unfold fetch_spans_sections, fetch_spans. rewrite alone_bind. cbn [alone]. rewrite alone_reading.
  destruct (sl_begin _ _) as [begin | | |]; [| done..]. rewrite !bind_Ok_l, alone_bind, alone_fetch_loop.
  destruct (fetch_loop _ _ _ _ _ _ _) as [[f s1] | | |]; [| done..]. rewrite !bind_Ok_l, alone_bind, alone_doing.
  by rewrite !bind_Ok_l.
Qed.

Lemma alone_FetchBatch idx n s : alone (FetchBatch_sections idx n) s = FetchBatch s idx n.
Proof.
  unfold FetchBatch_sections, FetchBatch. rewrite alone_bind, alone_pure.
  destruct (AM_DCHECK (idx <? _) _); [| done..]. rewrite !bind_Ok_l.
  rewrite alone_bind, alone_pure. destruct (AM_DCHECK (n <=? _) _); [| done..]. rewrite !bind_Ok_l. destruct (n =? 0); [done |].
  cbv zeta. rewrite alone_bind. cbn [alone]. rewrite alone_act. destruct (fetch_transfer s idx n) as [[objs s1] | | |]; [| done..].
  rewrite !bind_Ok_l, alone_bind. cbn [alone]. rewrite alone_act. destruct (link_all _ _ _) as [[head m] | | |]; [| done..].
  rewrite !bind_Ok_l, alone_bind.
  assert (Hend : forall head tail fetched s, alone (if fetched =? 0 then Ret empty_batch
      else Yield (reading (fun s => make_batch (cc_mem s) head tail fetched idx))) s =
    if fetched =? 0 then Ok (empty_batch, s) else b ← make_batch (cc_mem s) head tail fetched idx; Ok (b, s)).
  { intros h t k s2. destruct (k =? 0); [done |]. exact (alone_reading (fun s => make_batch (cc_mem s) h t k idx) s2). }
  destruct (_ <? n).
  - rewrite alone_bind, alone_fetch_spans. destruct (fetch_spans _ _ _ _ _ _ _ _) as [[f s2] | | |]; [| done..].
    rewrite !bind_Ok_l, alone_bind, alone_publish. destruct (publish_prefetched _ _ _) as [s3 | | |]; [| done..].
    rewrite !bind_Ok_l. cbn [alone]. rewrite !bind_Ok_l. apply Hend.
  - cbn [alone]. rewrite !bind_Ok_l. apply Hend.
Qed.

Lemma alone_drain_loop fuel idx sz unbounded : forall remaining mb db s,
  alone (drain_loop_sections fuel idx sz unbounded remaining mb db) s = drain_loop fuel s idx sz unbounded remaining mb db.
Proof.
  induction fuel as [| fuel IH]; intros remaining mb db s; cbn [drain_loop_sections drain_loop]; destruct (0 <? remaining); try done.
  rewrite alone_bind. cbn [alone]. rewrite alone_act. destruct (detach_cold _ _ _) as [[objs s1] | | |]; [| done..].
  rewrite !bind_Ok_l. destruct objs as [| first rest]; [done |].
  cbv zeta. rewrite alone_bind. cbn [alone]. rewrite alone_act. destruct (link_all _ _ _) as [[h m] | | |]; [| done..].
  rewrite !bind_Ok_l, alone_bind, alone_reading. cbn [cc_mem with_mem]. destruct (make_batch _ _ _ _ _) as [b | | |]; [| done..].
  rewrite !bind_Ok_l, alone_bind, alone_ReleaseBatch. destruct (ReleaseBatch _ _ _) as [s2 | | |]; [| done..]. rewrite !bind_Ok_l. apply IH.
Qed.

Lemma alone_drain_classes n unbounded : forall mb db s,
  alone (drain_classes_sections n unbounded mb db) s = drain_classes n s unbounded mb db.
Proof.
  induction n as [| n IH]; intros mb db s; cbn [drain_classes_sections drain_classes]; [done |]. rewrite alone_bind.
  assert (Hc : alone (drain_class_sections (Z.of_nat n) unbounded mb db) s = drain_class s (Z.of_nat n) unbounded mb db).
  { unfold drain_class_sections, drain_class. destruct (negb unbounded && _); [done |]. rewrite alone_bind. cbn [alone].
    rewrite alone_reading. cbv zeta. destruct unbounded; [rewrite !bind_Ok_l; apply alone_drain_loop |].
    destruct (udiv mb _) as [q | | |]; [| done..]. rewrite !bind_Ok_l. apply alone_drain_loop. }
  rewrite Hc. destruct (drain_class _ _ _ _ _) as [[[mb' db'] s1] | | |]; [| done..]. rewrite !bind_Ok_l. apply IH.
Qed.

Lemma alone_DrainTransferCaches mb s : alone (DrainTransferCaches_sections mb) s = DrainTransferCaches s mb.
Proof.
  unfold DrainTransferCaches_sections, DrainTransferCaches. destruct (mb =? 0); [done |]. cbv zeta.
  rewrite alone_bind, alone_drain_classes. destruct (drain_classes _ _ _ _ _) as [[db s1] | | |]; [| done..].
  rewrite !bind_Ok_l, alone_bind. cbn [alone]. rewrite alone_doing. by rewrite !bind_Ok_l.
Qed.

(** What the concurrent theorems are about is the code of CentralCache: the
    programs of the three operations, run with nothing in between their
    critical sections, do exactly what [FetchBatch], [ReleaseBatch] and
    [DrainTransferCaches] do, on every state and every input, failures
    included. *)
Theorem sections_equivalence :
  (forall idx n s, alone (FetchBatch_sections idx n) s = FetchBatch s idx n) /\
  (forall b mode s, alone (ReleaseBatch_sections b mode) s = (s ← ReleaseBatch s b mode; Ok ((), s))) /\
  (forall mb s, alone (DrainTransferCaches_sections mb) s = DrainTransferCaches s mb).
Proof.
  split; [exact alone_FetchBatch | split; [exact alone_ReleaseBatch | exact alone_DrainTransferCaches]].
Qed.
End Uninterrupted.
