(* ===== verification/CentralShares.v ===== *)
(** * Who owns what while calls are in flight

    The shares of the central cache's state: objects, each with its class, runs of
    pages, and pages set aside for the thread caches.  A call under way owns the objects and runs in its hands, the
    clients own the rest of what is outside the cache; together they own what the
    invariant says is outside, and nothing is owned twice.  Then what every
    critical section does to a share. *)
From S2P Require Import Prelude Config SizeClass FreeList Common Span SpanList Backing PageMap PageCache PageCacheInv.
From S2P Require Import PageCacheAlloc PageCacheMerge PageCacheRelease CentralCache CentralInv CentralSteps CentralRelease CentralFetch.
From S2P Require Import Sections CentralCalls.
Open Scope Z_scope.

(** ** Shares *)

Record share := mkShare { sh_objs : gset (Z * Z); sh_runs : runs; sh_pages : gset Z }.

Definition held_of (O : gset (Z * Z)) : held := fun idx => set_map snd (filter (fun o => o.1 = idx) O).

Lemma elem_of_held O idx x : x ∈ held_of O idx <-> (idx, x) ∈ O.
Proof.
  unfold held_of. rewrite elem_of_map. setoid_rewrite elem_of_filter. split.
  - by intros ([j y] & -> & <- & Hin).
  - intros Hin. by exists (idx, x).
Qed.
Lemma held_of_union O1 O2 idx : held_of (O1 ∪ O2) idx = held_of O1 idx ∪ held_of O2 idx.
Proof. apply set_eq. intros x. rewrite elem_of_union, !elem_of_held, elem_of_union. done. Qed.

(** A call's hands: objects of one class and runs. *)
Definition hand (idx : Z) (l : list Z) (V : runs) : share := mkShare (list_to_set ((fun x => (idx, x)) <$> l)) V ∅.

(** A run of pages whose span is at [a]. *)
Definition run_of (a start num : Z) : share := mkShare ∅ {[a := (start, num)]} ∅.

Lemma held_of_hand idx l V j : held_of (sh_objs (hand idx l V)) j = give (fun _ => ∅) idx (list_to_set l) j.
Proof.
  apply set_eq. intros x. rewrite elem_of_held. cbn. rewrite elem_of_list_to_set, list_elem_of_fmap. unfold give, upd_fun.
  case_decide as E.
  - rewrite union_empty_l_L, elem_of_list_to_set. subst. naive_solver.
  - rewrite elem_of_empty. naive_solver.
Qed.

Section Shares.
Context {W : Type} `{BackingLaws W} `{StaticLayout} `{CentralLayout}.
Implicit Types (s : CentralCache W) (G : ghost) (V : runs) (Hd : held) (o R T : share).

#[export] Instance central_ownership : Ownership (CentralCache W) share := {|
  own_split T a b := (sh_objs T = sh_objs a ∪ sh_objs b /\ sh_objs a ## sh_objs b) /\
    (sh_runs T = sh_runs a ∪ sh_runs b /\ sh_runs a ##ₘ sh_runs b) /\
    sh_pages T = sh_pages a ∪ sh_pages b /\ sh_pages a ## sh_pages b;
  own_good s T := exists G, cc_inv (H1 := reserve_laws (sh_pages T)) s G (held_of (sh_objs T)) (sh_runs T) /\ tidy G;
  own_quiet a s s' := undisturbed (held_of (sh_objs a)) (sh_runs a) s s'
|}.

#[export] Instance central_ownership_laws : OwnershipLaws (CentralCache W) share.
Proof.
  constructor.
  - intros T a b [[E1 D1] [[E2 D2] [E3 D3]]]. split; [split; [by rewrite union_comm_L | done] |].
    split; [split; [by rewrite map_union_comm | done] |]. split; [by rewrite union_comm_L | done].
  - intros T T1 a b c [[E1 D1] [[E2 D2] [E3 D3]]] [[E4 D4] [[E5 D5] [E6 D6]]]. rewrite E4 in *. rewrite E5 in *. rewrite E6 in *.
    apply map_disjoint_union_l in D2 as [D2 D2'].
    exists (mkShare (sh_objs b ∪ sh_objs c) (sh_runs b ∪ sh_runs c) (sh_pages b ∪ sh_pages c)).
    split; cbn; (split; [split; [| set_solver] | split; [split | split; [| set_solver]]]); try done.
    + by rewrite E1, union_assoc_L.
    + by rewrite E2, map_union_assoc.
    + apply map_disjoint_union_r. done.
    + by rewrite E3, union_assoc_L.
  - intros [O V P] [O' V' P'] a b [[E1 _] [[E2 _] [E3 _]]] [[E4 _] [[E5 _] [E6 _]]]. cbn in *. congruence.
  - done.
  - intros a s1 s2 s3. apply undisturbed_trans.
  - intros T a b s s' [[E1 _] [[E2 _] _]]. cbn. apply undisturbed_mono.
    + intros j _. rewrite E1, held_of_union. set_solver.
    + rewrite E2. apply map_union_subseteq_l.
Qed.

(** Nothing in hand. *)
Definition empty_handed : share := mkShare ∅ ∅ ∅.

Lemma empty_split T : own_split T T empty_handed.
Proof.
  cbn. split; [split; [by rewrite union_empty_r_L | apply disjoint_empty_r] |].
  split; [split; [by rewrite map_union_empty | apply map_disjoint_empty_r] | split; [by rewrite union_empty_r_L | apply disjoint_empty_r]].
Qed.
Lemma split_empty T a : own_split T a empty_handed -> T = a.
Proof. intros Hs. eapply split_unique; [exact Hs | apply empty_split]. Qed.

(** What it means to own a hand beside [R]. *)
Record in_hand R idx l V s0 s G : Prop := {
  ih_inv : cc_inv (H1 := reserve_laws (sh_pages R)) s G (give (held_of (sh_objs R)) idx (list_to_set l)) (sh_runs R ∪ V);
  ih_tidy : tidy G;
  ih_new : forall x, x ∈ l -> x ∉ held_of (sh_objs R) idx;
  ih_runs : sh_runs R ##ₘ V;
  ih_und : undisturbed (held_of (sh_objs R)) (sh_runs R) s0 s;
}.

Lemma at_rest_hand R idx l V s0 s : at_rest R (hand idx l V) s0 s <-> exists G, in_hand R idx l V s0 s G.
Proof.
  assert (Heq : forall j, held_of (sh_objs R ∪ sh_objs (hand idx l V)) j = give (held_of (sh_objs R)) idx (list_to_set l) j).
  { intros j. rewrite held_of_union, held_of_hand. unfold give, upd_fun. case_decide; [subst |]; set_solver. }
  split.
  - intros ([O V' P'] & [[E1 D1] [[E2 D2] [E3 D3]]] & (G & Hi & Ht) & Hq). cbn in *. rewrite union_empty_r_L in E3. subst. exists G. constructor; try done.
    + eapply cc_inv_held; [| exact Hi]. intros j _. by rewrite <- Heq.
    + intros x Hx Hin%elem_of_held. apply elem_of_disjoint in D1. apply (D1 (idx, x)); [done |].
      apply elem_of_list_to_set, list_elem_of_fmap. by exists x.
  - intros (G & [Hi Ht Hn Hr Hu]). exists (mkShare (sh_objs R ∪ sh_objs (hand idx l V)) (sh_runs R ∪ V) (sh_pages R)). split; [| split; [| done]].
    + cbn. split; [split; [done |] | split; [done |]].
      * apply elem_of_disjoint. intros [j x] Hin (y & [= -> ->] & Hy)%elem_of_list_to_set%list_elem_of_fmap.
        apply (Hn y Hy). by apply elem_of_held.
      * split; [by rewrite union_empty_r_L | apply disjoint_empty_r].
    + exists G. cbn. split; [| done]. eapply cc_inv_held; [| exact Hi]. intros j _. by rewrite Heq.
Qed.

(** The words of an object in hand stay. *)
Lemma quiet_word idx l V s s' x w : own_quiet (hand idx l V) s s' -> is_class idx -> x ∈ l -> x <= w < x + Size idx ->
  cc_mem s' !! w = cc_mem s !! w.
Proof.
  intros Hq Hidx Hx Hw. apply Hq. left. exists idx, x. split; [done |]. split; [| done].
  rewrite held_of_hand. unfold give. rewrite upd_fun_eq. set_solver.
Qed.
Lemma quiet_seg idx l V s s' l1 h q : own_quiet (hand idx l V) s s' -> is_class idx -> (forall x, x ∈ l1 -> x ∈ l) ->
  seg (cc_mem s) h l1 q -> seg (cc_mem s') h l1 q.
Proof.
  intros Hq Hidx Hl. apply seg_frame. intros x Hx. pose proof (Size_range idx Hidx) as Hs. unfold ALIGNMENT in Hs.
  eapply quiet_word; [exact Hq | done | by apply Hl | lia].
Qed.
Lemma quiet_run idx l V s s' a : own_quiet (hand idx l V) s s' -> a ∈ dom V -> cc_spans s' !! a = cc_spans s !! a.
Proof. intros Hq Ha. by apply Hq. Qed.

(** A smaller hand hears less. *)
Lemma quiet_hand idx l l' V V' s s' : own_quiet (hand idx l V) s s' -> (forall x, x ∈ l' -> x ∈ l) -> V' ⊆ V ->
  own_quiet (hand idx l' V') s s'.
Proof.
  intros Hq Hl HV. eapply undisturbed_mono; [| exact HV | exact Hq]. intros j _. rewrite !held_of_hand.
  unfold give, upd_fun. case_decide; set_solver.
Qed.

Lemma hand_in_inv R idx l V s0 s G s' V' : in_hand R idx l V s0 s G -> V' ⊆ V ->
  undisturbed (give (held_of (sh_objs R)) idx (list_to_set l)) (sh_runs R ∪ V') s s' ->
  undisturbed (held_of (sh_objs R)) (sh_runs R) s s' /\ own_quiet (hand idx l V') s s'.
Proof.
  intros Hh HV Hu. split; eapply undisturbed_mono; try exact Hu.
  - intros j _. apply give_sub.
  - apply map_union_subseteq_l.
  - intros j _. rewrite held_of_hand. unfold give, upd_fun. case_decide; set_solver.
  - cbn. apply map_union_subseteq_r. eapply map_disjoint_weaken_r; [apply Hh | done].
Qed.

(** ** Parts of what is owned *)

Definition part (a T : share) : Prop := sh_objs a ⊆ sh_objs T /\ sh_runs a ⊆ sh_runs T.

Lemma part_split T a b : own_split T a b -> part a T /\ part b T.
Proof.
  intros [[EO _] [[ER DR] _]]. split; split; rewrite ?EO, ?ER; [set_solver | apply map_union_subseteq_l | set_solver | by apply map_union_subseteq_r].
Qed.
Lemma part_held a T idx : part a T -> held_of (sh_objs a) idx ⊆ held_of (sh_objs T) idx.
Proof. intros [HO _] x. rewrite !elem_of_held. apply HO. Qed.
Lemma part_word a T w : part a T -> user_word (held_of (sh_objs a)) (sh_runs a) w -> user_word (held_of (sh_objs T)) (sh_runs T) w.
Proof. intros Hp. apply user_word_mono; [intros j _; by apply part_held | apply Hp]. Qed.

Lemma hand_word i l x w : is_class i -> x ∈ l -> x <= w < x + Size i -> user_word (held_of (sh_objs (hand i l ∅))) ∅ w.
Proof.
  intros Hi Hx Hw. left. exists i, x. split; [done |]. split; [| done]. rewrite held_of_hand. unfold give. rewrite upd_fun_eq. set_solver.
Qed.

(** The words of two shares. *)
Lemma user_apart P s G T c a b w : own_split c a b -> part c T -> cc_inv (H1 := reserve_laws P) s G (held_of (sh_objs T)) (sh_runs T) ->
  user_word (held_of (sh_objs a)) (sh_runs a) w -> ~ user_word (held_of (sh_objs b)) (sh_runs b) w.
Proof.
  intros Hsplit [HO HR] Hi. destruct (part_split _ _ _ Hsplit) as [[HaO HaR] [HbO HbR]]. destruct Hsplit as [[_ DO] [[_ DR] _]].
  assert (Hobj : forall c idx x, c = a \/ c = b -> x ∈ held_of (sh_objs c) idx -> x ∈ held_of (sh_objs T) idx).
  { intros d idx x Hd. apply part_held. destruct Hd as [-> | ->]; (split; [set_solver | by etrans]). }
  assert (Hrun : forall c v e, c = a \/ c = b -> sh_runs c !! v = Some e -> sh_runs T !! v = Some e).
  { intros d v e Hd Hv. eapply lookup_weaken; [exact Hv |]. destruct Hd as [-> | ->]; by etrans. }
  assert (Hcross : forall e e' idx x v, e = a \/ e = b -> e' = a \/ e' = b -> is_class idx -> x ∈ held_of (sh_objs e) idx ->
    x <= w < x + Size idx -> covers (sh_runs e') v (w / PAGE_SIZE) -> False).
  { intros e e' idx x v He He' Hidx Hx Hw (st & n & Hv & Hp). apply (Hrun e') in Hv; [| done].
    destruct (object_word _ _ _ _ Hi idx x Hidx (or_introl (Hobj e idx x He Hx))) as (sp & Hsp & _ & Hob).
    destruct (Hob w Hw) as [Hcov _]. assert (sp = v) as ->.
    { eapply (ci_cover (H1 := reserve_laws P)); [exact Hi | exact Hcov |]. exists st, n. split; [| done]. eapply lookup_weaken; [done | apply Hi]. }
    apply (ci_out _ _ _ _ Hi idx v Hidx Hsp), elem_of_dom. by eexists. }
  intros [(i & x & Hci & Hx & Hwx) | (v & Hv)] [(j & y & Hcj & Hy & Hwy) | (v' & Hv')].
  - destruct (objects_apart _ _ _ _ Hi i j x y w) as [<- <-]; try done; [left; eapply Hobj; [by left | done] | left; eapply Hobj; [by right | done] |].
    apply elem_of_held in Hx, Hy. set_solver.
  - eapply (Hcross a b i x v'); eauto.
  - eapply (Hcross b a j y v); eauto.
  - destruct Hv as (st & n & Hv & Hp), Hv' as (st' & n' & Hv' & Hp').
    assert (v = v') as <-.
    { eapply (ci_cover (H1 := reserve_laws P)); [exact Hi | exists st, n; split; [eapply lookup_weaken; [eapply (Hrun a); [by left | done] | apply Hi] | done] |].
      exists st', n'. split; [eapply lookup_weaken; [eapply (Hrun b); [by right | done] | apply Hi] | done]. }
    by eapply map_disjoint_spec.
Qed.

(** Writing to one's own words. *)
Lemma at_rest_writes R o s0 s m' : at_rest R o s0 s ->
  (forall w, ~ user_word (held_of (sh_objs o)) (sh_runs o) w -> m' !! w = cc_mem s !! w) -> at_rest R o s0 (with_mem s m').
Proof.
  intros (T & HT & (G & Hi & Ht) & Hq) Hm. destruct (part_split _ _ _ HT) as [HpR Hpo]. exists T. split; [done |]. split.
  - exists G. split; [| done]. apply user_writes_ok; [exact Hi |]. intros w Hw. apply Hm. intros Hu. by apply Hw, (part_word o T).
  - eapply quiet_trans; [exact Hq |]. constructor; [| done]. intros w Hw. apply Hm.
    by apply (user_apart (sh_pages T) s G T T R o w).
Qed.

Lemma splits_part T pool os : splits T pool os -> part pool T.
Proof. intros [[_ ->] | [R HR]]%splits_pool; [done | by apply (part_split _ _ _ HR)]. Qed.

(** Writing to the pool's words. *)
Lemma pool_writes T pool os s m : own_good s T -> splits T pool os ->
  (forall w, ~ user_word (held_of (sh_objs pool)) (sh_runs pool) w -> m !! w = cc_mem s !! w) ->
  own_good (with_mem s m) T /\ Forall (fun o => own_quiet o s (with_mem s m)) os.
Proof.
  intros (G & Hi & Ht) Hs Hm.
  pose proof (splits_part _ _ _ Hs) as HpT. split.
  - exists G. split; [| done]. apply user_writes_ok; [exact Hi |]. intros w Hw. apply Hm. intros Hu. by apply Hw, (part_word pool T).
  - apply Forall_forall. intros o (l1 & l2 & ->)%list_elem_of_split. destruct (splits_pick _ _ _ _ _ Hs) as (R & HR & HsR & _).
    constructor; [| done]. intros w Hw. apply Hm. intros Hu.
    eapply (user_apart (sh_pages T) s G T T o R w); [by apply split_comm | done | done | exact Hw |].
    by apply (part_word pool R), Hu; apply (splits_part _ _ _ HsR).
Qed.
End Shares.
