(* ===== verification/CentralCallsRelease.v ===== *)
(** * Giving objects back while calls are in flight

    [ReleaseBatch], one critical section at a time, is safe with anything in
    between that leaves alone what the call has in its hands; it may hold more
    than it gives back. *)
From S2P Require Import Prelude Config SizeClass FreeList Common Span SpanList Backing PageMap PageCache PageCacheInv.
From S2P Require Import PageCacheAlloc PageCacheMerge PageCacheRelease CentralCache CentralInv CentralSteps CentralRelease CentralFetch.
From S2P Require Import Sections CentralCalls CentralShares.
Open Scope Z_scope.

Section Release.
Context {W : Type} `{BackingLaws W} `{StaticLayout} `{CentralLayout}.
Implicit Types (s : CentralCache W) (G : ghost) (V : runs) (Hd : held) (o R T : share).

Lemma take_give Hd idx X Y j : (forall x, x ∈ X -> x ∉ Hd idx) -> X ## Y ->
  take_back (give Hd idx (X ∪ Y)) idx X j = give Hd idx Y j.
Proof.
  intros Hn Hd'. unfold take_back, give, upd_fun. case_decide; [subst j; rewrite decide_True by done | done].
  apply set_eq. intros x. rewrite elem_of_difference, !elem_of_union. specialize (Hn x). set_solver.
Qed.

Lemma at_rest_stats R o s0 s c n : at_rest R o s0 s -> at_rest R o s0 (cc_add c n s).
Proof.
  intros (T & HT & (G & Hi & Ht) & Hq). exists T. split; [done |]. split; [exists G; split; [by apply cc_inv_stats | done] |].
  by apply undisturbed_stats.
Qed.

(** A run in hand goes back. *)
Lemma ReleaseSpan_hand idx l V1 R s0 s e run : at_rest R (hand idx l V1) s0 s -> V1 !! e = Some run ->
  exists p, ReleaseSpan (cc_pages s) e = Ok p /\ at_rest R (hand idx l (delete e V1)) s0 (with_pages s p) /\
    own_quiet (hand idx l (delete e V1)) s (with_pages s p).
Proof.
  intros [G Hh]%at_rest_hand He. pose proof (ih_runs _ _ _ _ _ _ _ Hh) as Hdisj.
  assert (HeT : (sh_runs R ∪ V1) !! e = Some run) by (by apply lookup_union_Some_r).
  destruct (ReleaseSpan_step s G _ _ e run (ih_inv _ _ _ _ _ _ _ Hh) HeT) as (p & G1 & -> & Hsame & Hi2 & Hun).
  exists p. split; [done |]. assert (HeR : sh_runs R !! e = None) by (by eapply map_disjoint_Some_r).
  rewrite delete_union, (delete_id (sh_runs R)) in Hi2, Hun by done.
  destruct (hand_in_inv _ _ _ _ _ _ _ _ (delete e V1) Hh (delete_subseteq _ _) Hun) as [HuR Huo].
  split; [| done]. apply at_rest_hand. exists G1. constructor; [done | | apply Hh | | ].
  - apply (tidy_same G); [done | apply Hh].
  - eapply map_disjoint_weaken_r; [exact Hdisj | apply delete_subseteq].
  - eapply undisturbed_trans; [apply Hh | done].
Qed.

(** One empty span goes back. *)
Lemma release_one_ok idx l V1 R s0 s e run count :
  at_rest R (hand idx l V1) s0 s -> V1 !! e = Some run ->
  forall d, e <> 0 -> cc_spans s !! e = Some d ->
  exists s', release_one count e s = Ok (sp_next d, s') /\ at_rest R (hand idx l (delete e V1)) s0 s' /\
    own_quiet (hand idx l (delete e V1)) s s'.
Proof.
  intros Hr He d He0 Hd. unfold release_one. rewrite (get_span_Some _ e d), bind_Ok_l by done. cbv zeta.
  set (s1 := if count then _ else _).
  assert (Hs1 : at_rest R (hand idx l V1) s0 s1 /\ own_quiet (hand idx l (delete e V1)) s s1).
  { subst s1. destruct count; [split; [by apply at_rest_stats | by apply undisturbed_stats] | done]. }
  destruct Hs1 as [Hr1 Hq1]. destruct (ReleaseSpan_hand idx l V1 R s0 s1 e run Hr1 He) as (p & Hrel & Hr2 & Hq2).
  exists (with_pages s1 p). split; [by rewrite Hrel |]. split; [done |]. eapply quiet_trans; [exact Hq1 | exact Hq2].
Qed.

Lemma wp_release_empty idx l P count : is_class idx -> kept_by (hand idx l ∅) P -> forall fuel E V1 head R s0 s,
  at_rest R (hand idx l V1) s0 s -> rchain (cc_spans s) head E -> NoDup E -> (forall a, a ∈ dom V1 <-> a ∈ E) ->
  (length E <= fuel)%nat -> P s ->
  wp (release_empty_sections fuel count head) (fun _ o s => o = hand idx l ∅ /\ P s) R s0 s.
Proof.
  intros Hidx HP fuel. induction fuel as [| fuel IH]; intros E V1 head R s0 s Hr Hch Hnd HE Hlen HPs.
  all: destruct E as [| e E]; [| try (cbn in Hlen; lia)].
  1, 2: cbn in Hch; subst head; cbn [release_empty_sections]; change (0 =? 0) with true; cbn iota;
    assert (V1 = ∅) as -> by (apply dom_empty_inv_L, set_eq; intros a; rewrite HE; set_solver);
    by eapply wp_ret.
  pose proof Hch as (-> & He0 & _). cbn [release_empty_sections]. rewrite (proj2 (Z.eqb_neq e 0)) by done.
  eapply wp_yield; [exact Hr |]. intros R' s' Hr' Hq.
  assert (HeV : e ∈ dom V1) by (apply HE; left).
  assert (Hch' : rchain (cc_spans s') e (e :: E)).
  { eapply rchain_ext; [| exact Hch]. intros a Ha. by apply (quiet_run idx l V1), HE. }
  destruct Hch' as (_ & _ & d & Hd & Hch'). apply elem_of_dom in HeV as [run Hrun].
  destruct (release_one_ok idx l V1 R' s' s' e run count Hr' Hrun d He0 Hd) as (s2 & Hone & Hr2 & Hq2).
  eapply wp_act_then; [exact Hone |]. apply NoDup_cons in Hnd as [HeE Hnd].
  assert (HE' : forall a, a ∈ dom (delete e V1) <-> a ∈ E).
  { intros a. rewrite dom_delete_L, elem_of_difference, HE, elem_of_singleton, elem_of_cons. split; [tauto |]. intros Ha. split; [by right | by intros ->]. }
  eapply IH; [exact Hr2 | | done | done | cbn in Hlen; lia |].
  - eapply rchain_ext; [| exact Hch']. intros a Ha. by apply (quiet_run idx l (delete e V1)), HE'.
  - eapply HP; [| exact HPs]. eapply undisturbed_trans.
    + eapply quiet_hand; [exact Hq | done | apply map_empty_subseteq].
    + eapply quiet_hand; [exact Hq2 | done | apply map_empty_subseteq].
Qed.

(** The hand after part of it went into the cache. *)
Lemma hand_dropped R idx l1 l2 V s0 s G s' G' V' :
  in_hand R idx (l1 ++ l2) V s0 s G -> NoDup (l1 ++ l2) ->
  cc_inv (H1 := reserve_laws (sh_pages R)) s' G' (take_back (give (held_of (sh_objs R)) idx (list_to_set (l1 ++ l2))) idx (list_to_set l1)) (sh_runs R ∪ V') ->
  tidy G' -> V ⊆ V' -> sh_runs R ##ₘ V' ->
  undisturbed (take_back (give (held_of (sh_objs R)) idx (list_to_set (l1 ++ l2))) idx (list_to_set l1)) (sh_runs R ∪ V) s s' ->
  at_rest R (hand idx l2 V') s0 s' /\ own_quiet (hand idx l2 V) s s'.
Proof.
  intros Hh (Hn1 & Hn12 & Hn2)%NoDup_app Hi' Ht' HV Hdis Hu.
  assert (Heq : forall j, take_back (give (held_of (sh_objs R)) idx (list_to_set (l1 ++ l2))) idx (list_to_set l1) j =
                     give (held_of (sh_objs R)) idx (list_to_set l2) j).
  { intros j. rewrite list_to_set_app_L. apply take_give; [| set_solver].
    intros x Hx%elem_of_list_to_set. apply (ih_new _ _ _ _ _ _ _ Hh), elem_of_app. by left. }
  assert (Hu' : undisturbed (give (held_of (sh_objs R)) idx (list_to_set l2)) (sh_runs R ∪ V) s s').
  { eapply undisturbed_mono; [| reflexivity | exact Hu]. intros j _. by rewrite Heq. }
  split.
  - apply at_rest_hand. exists G'. constructor; [| done | | done |].
    + eapply cc_inv_held; [| exact Hi']. intros j _. by rewrite Heq.
    + intros x Hx. apply (ih_new _ _ _ _ _ _ _ Hh), elem_of_app. by right.
    + eapply undisturbed_trans; [apply Hh |]. eapply undisturbed_mono; [| | exact Hu'];
        [intros j _; apply give_sub | apply map_union_subseteq_l].
  - eapply undisturbed_mono; [| | exact Hu'].
    + intros j _. rewrite held_of_hand. unfold give, upd_fun. case_decide; set_solver.
    + cbn. apply map_union_subseteq_r, Hh.
Qed.

(** What does not fit in the transfer cache stays in hand. *)
Lemma wp_absorb idx objs l P R s0 s : is_class idx -> kept_by (hand idx l ∅) P -> NoDup (objs ++ l) ->
  at_rest R (hand idx (objs ++ l) ∅) s0 s -> P s ->
  wp (absorb_sections idx objs) (fun rest o s => (exists pushed, objs = pushed ++ rest) /\ o = hand idx (rest ++ l) ∅ /\ P s) R s0 s.
Proof.
  intros Hidx HP Hnd Hr HPs. eapply wp_yield; [exact Hr |]. intros R' s' Hr' Hq.
  assert (HPs' : P s').
  { eapply HP; [| exact HPs]. eapply quiet_hand; [exact Hq | | done]. intros x Hx. apply elem_of_app. by right. }
  pose proof (proj1 (at_rest_hand _ _ _ _ _ _) Hr') as [G Hh]. pose proof (proj1 (proj1 (NoDup_app _ _) Hnd)) as Hno.
  destruct (tc_absorb_ok s' G _ _ idx objs (ih_inv _ _ _ _ _ _ _ Hh) Hidx Hno) as (pushed & rest & s2 & Hab & -> & Hi2 & _ & _ & _ & Hun).
  { intros x Hx. unfold give. rewrite upd_fun_eq. set_solver. }
  rewrite <- app_assoc in Hh, Hnd, Hi2. rewrite <- app_assoc in Hun.
  destruct (hand_dropped R' idx pushed (rest ++ l) ∅ s' s' G s2 _ ∅ Hh Hnd Hi2) as [Hr2 Hq2]; [apply Hh | done | apply map_disjoint_empty_r | |].
  { apply Hun; [intros j _; apply take_back_sub | done]. }
  eapply wp_act; [exact Hab | exact Hr2 |]. split; [by exists pushed |]. split; [done |]. eapply HP; [| exact HPs'].
  eapply quiet_hand; [exact Hq2 | | done]. intros x Hx. apply elem_of_app. by right.
Qed.

(** Objects back to their bitmaps: the spans that became empty are in hand. *)
Lemma free_objs_hand idx mode objs l R s0 s : is_class idx -> NoDup (objs ++ l) ->
  at_rest R (hand idx (objs ++ l) ∅) s0 s ->
  exists head s' E V1, free_objs s idx mode objs 0 = Ok (head, s') /\ at_rest R (hand idx l V1) s0 s' /\
    rchain (cc_spans s') head E /\ NoDup E /\ (forall a, a ∈ dom V1 <-> a ∈ E) /\ (length E <= length objs)%nat /\
    own_quiet (hand idx l ∅) s s'.
Proof.
  intros Hidx Hnd Hr. pose proof (proj1 (at_rest_hand _ _ _ _ _ _) Hr) as [G Hh].
  pose proof (proj1 (proj1 (NoDup_app _ _) Hnd)) as Hno.
  destruct (free_objs_ok objs mode idx Hidx s G _ _ 0 [] (ih_inv _ _ _ _ _ _ _ Hh) Hno) as (head & s1 & G1 & V1 & E & Heq & Hfd); [| done | set_solver |].
  { intros x Hx. unfold give. rewrite upd_fun_eq. set_solver. }
  destruct Hfd as [Hi1 Hch HndE Hdom Hnew Hsub Hlen _ Hun Htd]. rewrite app_nil_r in Hch.
  rewrite map_union_empty in Hdom, Hnew, Hsub. set (VE := V1 ∖ sh_runs R).
  assert (HV1 : V1 = sh_runs R ∪ VE) by (symmetry; by apply map_difference_union).
  assert (Hdis : sh_runs R ##ₘ VE) by (apply map_disjoint_difference_r1; reflexivity).
  assert (HVE : forall a, a ∈ dom VE <-> a ∈ E).
  { intros a. unfold VE. rewrite dom_difference_L, elem_of_difference, Hdom. split; [tauto |]. intros Ha. split; [by right | by apply Hnew]. }
  rewrite HV1 in Hi1.
  destruct (hand_dropped R idx objs l ∅ s0 s G s1 G1 VE Hh Hnd Hi1) as [Hr1 Hq1]; [by apply Htd, Hh | apply map_empty_subseteq | done | done |].
  by exists head, s1, E, VE.
Qed.

Lemma wp_release_chunk idx mode objs l P R s0 s : is_class idx -> kept_by (hand idx l ∅) P -> NoDup (objs ++ l) ->
  at_rest R (hand idx (objs ++ l) ∅) s0 s -> P s ->
  wp (release_chunk_sections idx mode objs) (fun _ o s => o = hand idx l ∅ /\ P s) R s0 s.
Proof.
  intros Hidx HP Hnd Hr HPs. unfold release_chunk_sections.
  assert (Hrest : forall rest R s0 s, NoDup (rest ++ l) -> at_rest R (hand idx (rest ++ l) ∅) s0 s -> P s ->
    wp (match rest with
        | [] => Ret ()
        | _ => head ← Yield (act (fun s => free_objs (match mode with
                   | kTransferCache => cc_add release_transfer_overflow_objects (Z.of_nat (length rest)) s
                   | kSpanBitmap => s end) idx mode rest 0));
               release_empty_sections (length rest) true head end) (fun _ o s => o = hand idx l ∅ /\ P s) R s0 s).
  { clear R s0 s Hr HPs. intros [| r rest] R s0 s Hnd' Hr HPs; [by eapply wp_ret |]. remember (r :: rest) as rs eqn:Ers. clear Ers.
    eapply wp_yield_then; [exact Hr |]. intros R' s' Hr' Hq. 
    set (s1 := match mode with kTransferCache => cc_add release_transfer_overflow_objects (Z.of_nat (length rs)) s' | kSpanBitmap => s' end).
    assert (Hr1 : at_rest R' (hand idx (rs ++ l) ∅) s' s1) by (subst s1; destruct mode; [by apply at_rest_stats | done]).
    assert (Hs1 : P s1).
    { eapply HP; [| exact HPs]. eapply undisturbed_trans; [eapply quiet_hand; [exact Hq | | done]; intros x Hx; apply elem_of_app; by right |].
      subst s1. by destruct mode. }
    destruct (free_objs_hand idx mode rs l R' s' s1 Hidx Hnd' Hr1) as (head & s2 & E & V1 & Heq & Hr2 & Hch & HndE & HE & Hlen & Hq2).
    eapply wp_act_then; [exact Heq |]. eapply wp_release_empty; try done. by eapply HP. }
  destruct mode.
  - eapply wp_bind; [by apply (wp_absorb idx objs l P) |]. intros rest o R1 s1 s2 Hr1 ([pushed ->] & -> & HP1).
    apply Hrest; [| done | done]. rewrite <- app_assoc in Hnd. by apply NoDup_app in Hnd as (_ & _ & ?).
  - apply Hrest; done.
Qed.

Lemma wp_release_loop idx mode l0 P : is_class idx -> kept_by (hand idx l0 ∅) P -> forall fuel l cur R s0 s,
  at_rest R (hand idx (l ++ l0) ∅) s0 s -> NoDup (l ++ l0) -> seg (cc_mem s) cur l 0 -> (length l <= fuel)%nat -> P s ->
  wp (release_loop_sections fuel idx mode cur (Z.of_nat (length l))) (fun c o s => c = 0 /\ o = hand idx l0 ∅ /\ P s) R s0 s.
Proof.
  intros Hidx HP fuel. induction fuel as [| fuel IH]; intros l cur R s0 s Hr Hnd Hseg Hlen HPs; cbn [release_loop_sections].
  all: destruct (Z.eqb_spec (Z.of_nat (length l)) 0) as [E | E]; [assert (l = []) as -> by (by destruct l); cbn in Hseg; by eapply wp_ret |].
  { lia. }
  cbv zeta. assert (Hk : 0 < kMaxBatchSize) by (vm_compute; done).
  set (c := Z.min (Z.of_nat (length l)) kMaxBatchSize). assert (Hc : 0 < c <= Z.of_nat (length l)) by lia.
  rewrite <- (take_drop (Z.to_nat c) l) in Hseg, Hnd, Hr.
  assert (Hlc : length (take (Z.to_nat c) l) = Z.to_nat c) by (rewrite length_take; lia).
  destruct (read_chain_ok _ _ _ _ Hseg) as (cur' & Hrd & Hseg'). rewrite Hlc in Hrd. eapply wp_reading_then; [exact Hrd |].
  rewrite <- app_assoc in Hnd, Hr. set (l1 := take (Z.to_nat c) l) in *. set (l2 := drop (Z.to_nat c) l) in *.
  eapply wp_bind; [apply (wp_release_chunk idx mode l1 (l2 ++ l0) (fun s => P s /\ seg (cc_mem s) cur' l2 0)); try done |].
  - intros s1 s2 Hq [HP1 Hs1]. split.
    + eapply HP; [| exact HP1]. eapply quiet_hand; [exact Hq | | done]. intros x Hx. apply elem_of_app. by right.
    + eapply quiet_seg; [exact Hq | done | | done]. intros x Hx. apply elem_of_app. by left.
  - intros _ o R1 s1 s2 Hr1 (-> & HP1 & Hs1).
    replace (Z.of_nat (length l) - c) with (Z.of_nat (length l2)) by (subst l2; rewrite length_drop; lia).
    apply IH; [done | by apply NoDup_app in Hnd as (_ & _ & ?) | done | subst l2; rewrite length_drop; lia | done].
Qed.

Lemma wp_ReleaseBatch idx mode b l l0 P R s0 s : is_class idx -> kept_by (hand idx l0 ∅) P ->
  at_rest R (hand idx (l ++ l0) ∅) s0 s -> NoDup (l ++ l0) -> batch_rep (cc_mem s) b idx l -> P s ->
  wp (ReleaseBatch_sections b mode) (fun _ o s => o = hand idx l0 ∅ /\ P s) R s0 s.
Proof.
  intros Hidx HP Hr Hnd Hb HPs. pose proof Hb as ((Hseg & Htail & Hcount) & _ & Hcl). cbn in Hseg, Hcount.
  unfold ReleaseBatch_sections. rewrite (batch_empty_rep _ _ _ _ Hb). case_bool_decide as Hl.
  { subst l. eapply wp_pure_then; [unfold batch_destroy; by rewrite AM_DCHECK_true |]. by eapply wp_ret. }
  cbv zeta. assert (ob_size_class_idx b = idx) as -> by (destruct l; done).
  eapply wp_pure_then; [rewrite (proj2 (Z.ltb_lt _ _)) by apply Hidx; apply AM_DCHECK_true |]. rewrite Hcount, Nat2Z.id.
  eapply wp_bind; [by apply (wp_release_loop idx mode l0 P) |]. intros c o R1 s1 s2 Hr1 (-> & -> & HP1).
  eapply wp_pure_then; [apply AM_DCHECK_true |].
  eapply wp_pure_then; [unfold batch_destroy; by rewrite AM_DCHECK_true |]. by eapply wp_ret.
Qed.
End Release.
