(* ===== verification/CentralCallsFetch.v ===== *)
(** * Taking objects while calls are in flight

    [FetchBatch] and [DrainTransferCaches], one critical section at a time, are
    safe with anything in between that leaves alone what the call has in its
    hands: the objects taken so far, and the run of a span being carved. *)
From S2P Require Import Prelude Config SizeClass FreeList Common Span SpanList Backing PageMap PageCache PageCacheInv.
From S2P Require Import PageCacheAlloc PageCacheMerge PageCacheRelease CentralCache CentralInv CentralSteps CentralRelease CentralFetch CentralDrain.
From S2P Require Import Sections CentralCalls CentralShares CentralCallsRelease.
Open Scope Z_scope.

(** Whether the page cache can be out of runs for a span of the class. *)
Definition dried_up {W} `{Backing W} `{Build} `{StaticLayout} (idx : Z) : Prop :=
  exists (p p' : PageCache W), AllocSpan p (GetMovePageNum (Size idx)) = Ok (0, p').

Section Fetch.
Context {W : Type} `{BackingLaws W} `{StaticLayout} `{CentralLayout}.
Implicit Types (s : CentralCache W) (G : ghost) (V : runs) (Hd : held) (o R T : share).
Context (idx : Z) (Hidx : is_class idx).

Lemma hand_perm l l' V : l ≡ₚ l' -> hand idx l V = hand idx l' V.
Proof. intros Hl. unfold hand. f_equal. apply list_to_set_perm_L. by rewrite Hl. Qed.

(** *** A span from the page cache *)

(** The run is in hand. *)
Lemma AllocSpan_hand l num R s0 s : 0 <= num < W64 -> at_rest R (hand idx l ∅) s0 s ->
  exists a p', AllocSpan (cc_pages s) num = Ok (a, p') /\
    own_quiet (hand idx l ∅) s (with_pages s p') /\
    (a = 0 /\ at_rest R (hand idx l ∅) s0 (with_pages s p') \/
     a <> 0 /\ exists start d, at_rest R (hand idx l {[a := (start, num)]}) s0 (with_pages s p') /\
       pc_spans p' !! a = Some d /\ start_page_idx d = start /\ page_num d = num /\ aligned_obj_size d = 0).
Proof.
  intros Hnum [G Hh]%at_rest_hand.
  destruct (AllocSpan_step s G _ _ num (ih_inv _ _ _ _ _ _ _ Hh) Hnum)
    as (a & p' & G1 & -> & Hsame & Hun & Hor).
  destruct (hand_in_inv _ _ _ _ _ _ _ _ ∅ Hh (map_empty_subseteq _) Hun) as [HuR Huo].
  assert (Ht : tidy G1) by (apply (tidy_same G); [done | apply Hh]).
  assert (HuR0 : undisturbed (held_of (sh_objs R)) (sh_runs R) s0 (with_pages s p')) by (eapply undisturbed_trans; [apply Hh | done]).
  exists a, p'. split; [done |]. split; [done |]. destruct Hor as [[-> Hi1] | (start & d & [Ha0 Hi1 HaV Hd Hcl Hst Hn _])].
  - left. split; [done |]. apply at_rest_hand. exists G1. constructor; [exact Hi1 | done | apply Hh | apply Hh | done].
  - right. split; [done |]. exists start, d. split; [| by destruct Hcl]. apply at_rest_hand. exists G1. rewrite map_union_empty in *.
    constructor; [| done | apply Hh | | done].
    + rewrite <- insert_union_singleton_r; [done | by apply not_elem_of_dom].
    + apply map_disjoint_singleton_r_2. by apply not_elem_of_dom.
Qed.

(** A carved run that is still in hand. *)
Record carved (a start : Z) s (d : Span) (free : gset Z) : Prop := {
  cv_desc : cc_spans s !! a = Some d;
  cv_rep : span_rep (cc_mem s) d free;
  cv_all : forall k, 0 <= k < capacity d -> k ∈ free;
  cv_open : free <> ∅;
  cv_class : size_class_idx d = idx;
  cv_start : start_page_idx d = start;
  cv_num : page_num d = GetMovePageNum (Size idx);
}.

Lemma carved_quiet a start s s' d free l : own_quiet (hand idx l {[a := (start, GetMovePageNum (Size idx))]}) s s' ->
  carved a start s d free -> carved a start s' d free.
Proof.
  intros Hq []. constructor; try done.
  - rewrite (quiet_run _ _ _ _ _ a Hq); [done |]. rewrite dom_singleton_L. set_solver.
  - eapply span_rep_mem; [| exact cv_rep0]. intros w Hw. apply Hq. right. exists a, start, (GetMovePageNum (Size idx)).
    split; [apply lookup_singleton_eq |]. rewrite <- cv_start0, <- cv_num0. apply bitmap_word_page; [apply cv_rep0 | done].
Qed.

Lemma at_rest_run R l a e s0 s : at_rest R (hand idx l {[a := e]}) s0 s ->
  exists G, in_hand R idx l {[a := e]} s0 s G /\ (sh_runs R ∪ {[a := e]}) !! a = Some e /\
    delete a (sh_runs R ∪ {[a := e]}) = sh_runs R.
Proof.
  intros [G Hh]%at_rest_hand. exists G. split; [done |]. pose proof (ih_runs _ _ _ _ _ _ _ Hh) as Hd.
  apply map_disjoint_singleton_r in Hd. split.
  - rewrite lookup_union_r by done. apply lookup_singleton_eq.
  - by rewrite delete_union, delete_singleton_eq, map_union_empty, delete_id.
Qed.

(** Carving writes the run in hand only. *)
Lemma Init_hand l a start R s0 s : at_rest R (hand idx l {[a := (start, GetMovePageNum (Size idx))]}) s0 s ->
  exists d d1 m1 free, cc_spans s !! a = Some d /\ Init (cc_mem s) d (Size idx) = Ok (d1, m1) /\ a <> 0 /\
    let s' := put_span s a d1 m1 in
    at_rest R (hand idx l {[a := (start, GetMovePageNum (Size idx))]}) s0 s' /\ carved a start s' d1 free /\
    own_quiet (hand idx l ∅) s s'.
Proof.
  intros (G & Hh & Ha & Hdel)%at_rest_run. pose proof (ih_inv _ _ _ _ _ _ _ Hh) as Hi.
  assert (HDa : g_D G !! a = Some (start, GetMovePageNum (Size idx))) by (eapply lookup_weaken; [exact Ha | apply Hi]).
  destruct (co_desc _ _ _ _ _ _ _ (pi_core _ _ _ _ _ _ _ (ci_pages _ _ _ _ Hi)) _ _ _ HDa) as (d & Hd & _).
  destruct (init_span_ok s G _ _ idx a d start Hi Hidx Ha Hd) as (d1 & m1 & free & Hinit & Hr & Hall & Hne & Ec & Es & En & Hi2 & Hun).
  exists d, d1, m1, free. split; [done |]. split; [done |].
  split; [apply (co_geom _ _ _ _ _ _ _ (pi_core _ _ _ _ _ _ _ (ci_pages _ _ _ _ Hi)) _ _ _ HDa) |]. cbv zeta.
  rewrite Hdel in Hun. assert (Hun' : undisturbed (give (held_of (sh_objs R)) idx (list_to_set l)) (sh_runs R ∪ ∅) s
    (put_span s a d1 m1)) by (by rewrite map_union_empty).
  destruct (hand_in_inv _ _ _ _ _ _ _ _ ∅ Hh (map_empty_subseteq _) Hun') as [HuR Huo]. split; [| split; [| done]].
  - apply at_rest_hand. eexists. constructor; [exact Hi2 | | apply Hh | apply Hh | eapply undisturbed_trans; [apply Hh | done]].
    apply tidy_fresh; [| apply Hh]. intros j Hj Hc. eapply (ci_out _ _ _ _ Hi j a Hj Hc), elem_of_dom. by eexists.
  - constructor; try done. apply lookup_insert_eq.
Qed.

(** The span [b] at the head of the bucket has a free slot: a round of carving may
    begin.  A span that was just carved holds no object yet, so the list is tidy
    but for its head. *)
Record open_hand (l : list Z) (b : Z) R s0 s G (rest : list Z) : Prop := {
  oh_inv : cc_inv (H1 := reserve_laws (sh_pages R)) s G (give (held_of (sh_objs R)) idx (list_to_set l)) (sh_runs R);
  oh_tidy : tidy_but idx G b rest;
  oh_list : g_B G idx = b :: rest;
  oh_free : g_free G b <> ∅;
  oh_new : forall x, x ∈ l -> x ∉ held_of (sh_objs R) idx;
  oh_und : own_quiet R s0 s;
}.
Definition open_at (l : list Z) (b : Z) R s0 s : Prop := exists G rest, open_hand l b R s0 s G rest.

Lemma open_begin l b R s0 s : open_at l b R s0 s -> sl_begin (cc_spans s) (bucket_head idx) = Ok b.
Proof.
  intros (G & rest & [Hi _ HB _ _ _]). rewrite (sl_begin_dll _ _ _ (ci_list _ _ _ _ Hi idx Hidx)). by rewrite HB.
Qed.

Lemma at_rest_open l b d R s0 s : at_rest R (hand idx l ∅) s0 s -> sl_begin (cc_spans s) (bucket_head idx) = Ok b ->
  b <> bucket_head idx -> cc_spans s !! b = Some d -> IsFull d = false -> open_at l b R s0 s.
Proof.
  intros [G Hh]%at_rest_hand Hb Hbh Hd Hfull. pose proof (ih_inv _ _ _ _ _ _ _ Hh) as Hi. rewrite map_union_empty in Hi.
  rewrite (sl_begin_dll _ _ _ (ci_list _ _ _ _ Hi idx Hidx)) in Hb. injection Hb as Hb.
  destruct (g_B G idx) as [| b' rest] eqn:HB; cbn in Hb; [by subst |]. subst b'.
  destruct (ci_span _ _ _ _ Hi idx b Hidx) as (d' & Hd' & Hrep & _); [rewrite HB; left |].
  rewrite Hd in Hd'. injection Hd' as <-. rewrite (IsFull_rep _ _ _ Hrep) in Hfull. apply bool_decide_eq_false in Hfull.
  exists G, rest. constructor; try done; [apply (tidy_but_head idx Hidx); [apply Hh | done] | apply Hh | apply Hh].
Qed.

(** The carved span at the front of its bucket. *)
Lemma push_front_hand l a start R s0 s d free : a <> 0 ->
  at_rest R (hand idx l {[a := (start, GetMovePageNum (Size idx))]}) s0 s -> carved a start s d free ->
  exists st', push_front (cc_spans s) (bucket_head idx) a = Ok st' /\ open_at l a R s0 (with_descs s st') /\
    own_quiet (hand idx l ∅) s (with_descs s st').
Proof.
  intros Ha0 (G & Hh & Ha & Hdel)%at_rest_run []. pose proof (ih_inv _ _ _ _ _ _ _ Hh) as Hi.
  destruct (fresh_write_ok s G _ _ a start _ d d [] (cc_mem s) free (capacity d) Hi Ha cv_desc0) as [Hi1 _]; try done.
  { intros w Hw. by apply elem_of_nil in Hw. }
  rewrite put_span_id in Hi1 by done. set (G1 := set_cap (set_free G a free) a (capacity d)) in *.
  assert (Hfa : g_free G1 a = free /\ g_cap G1 a = capacity d) by (split; apply upd_fun_eq). destruct Hfa as [Hfa Hca].
  destruct (install_ok s G1 _ _ idx a d start _ Hi1 Hidx Ha cv_desc0 Ha0) as (st' & Hpf & Hi2 & Hun); try done.
  { by rewrite Hfa. }
  { intros k Hk. rewrite Hfa. by apply cv_all0. }
  rewrite Hdel in Hi2, Hun. exists st'. split; [done |].
  assert (Hun' : undisturbed (give (held_of (sh_objs R)) idx (list_to_set l)) (sh_runs R ∪ ∅) s (with_descs s st')) by (by rewrite map_union_empty).
  destruct (hand_in_inv _ _ _ _ _ _ _ _ ∅ Hh (map_empty_subseteq _) Hun') as [HuR Huo]. split; [| done].
  exists (set_B G1 idx (a :: g_B G1 idx)), (g_B G idx). constructor; cbn [set_B g_B g_free]; try done.
  - apply (tidy_but_new idx Hidx G); [apply Hh | | done |].
    + intros j Hj Hc. eapply (ci_out _ _ _ _ Hi j a Hj Hc), elem_of_dom. by eexists.
    + intros c Hc. cbn. by rewrite !upd_fun_ne.
  - by rewrite upd_fun_eq.
  - by rewrite Hfa.
  - apply Hh.
  - eapply undisturbed_trans; [apply Hh | done].
Qed.

Lemma kept_by_trans l P s1 s2 s3 V V' : kept_by (hand idx l ∅) P ->
  own_quiet (hand idx l V) s1 s2 -> own_quiet (hand idx l V') s2 s3 -> P s1 -> P s3.
Proof.
  intros HP Hq1 Hq2. apply HP. eapply undisturbed_trans; (eapply quiet_hand; [eassumption | done | apply map_empty_subseteq]).
Qed.

(** A new span at the head of the bucket, or none because the page cache is dry. *)
Lemma wp_GetOneSpan {B} (g : Z -> prog _ B) Q l P R s0 s :
  kept_by (hand idx l ∅) P -> at_rest R (hand idx l ∅) s0 s -> P s ->
  (forall R s0 s, at_rest R (hand idx l ∅) s0 s -> P s -> dried_up (W := W) idx -> wp (g 0) Q R s0 s) ->
  (forall a R s0 s, a <> 0 -> open_at l a R s0 s -> P s -> wp (g a) Q R s0 s) ->
  wp (a ← GetOneSpan_sections idx (Size idx); g a) Q R s0 s.
Proof.
  intros HP Hr HPs Hdry Hopen. unfold GetOneSpan_sections. apply wp_assoc. eapply wp_yield_then; [exact Hr |]. intros R1 s1 Hr1 Hq1.
  destruct (class_pages idx Hidx) as [Hpn _]. unfold MAX_PAGE_NUM in Hpn.
  destruct (AllocSpan_hand l (GetMovePageNum (Size idx)) R1 s1 s1 ltac:(lia) Hr1) as (a & p' & Hal & Hq2 & Hor).
  eapply wp_act_then; [by rewrite Hal |]. pose proof (kept_by_trans l P _ _ _ _ _ HP Hq1 Hq2 HPs) as HP2.
  destruct Hor as [[-> Hr2] | (Ha0 & start & _ & Hr2 & _)].
  { change (0 =? 0) with true. cbn iota. eapply wp_yield_then; [exact Hr2 |]. intros R3 s3 Hr3 Hq3.
    apply (Hdry R3 s3 s3); [exact Hr3 | by eapply HP | by exists (cc_pages s1), p']. }
  rewrite (proj2 (Z.eqb_neq a 0)) by done. apply wp_assoc. eapply wp_yield_then; [exact Hr2 |]. intros R3 s3 Hr3 Hq3.
  destruct (Init_hand l a start R3 s3 s3 Hr3) as (d & d1 & m1 & free & Hd & Hinit & _ & Hr4 & Hcv & Hq4).
  eapply wp_doing_then. { cbv beta. rewrite (get_span_Some _ a d), bind_Ok_l by done. by rewrite Hinit. }
  pose proof (kept_by_trans l P _ _ _ _ _ HP Hq3 Hq4 HP2) as HP4. set (s4 := put_span _ _ _ _) in *. clearbody s4.
  eapply wp_yield_then; [exact Hr4 |]. intros R5 s5 Hr5 Hq5. set (s5' := cc_add fetch_pagecache_spans 1 s5).
  assert (Hq5' : own_quiet (hand idx l {[a := (start, GetMovePageNum (Size idx))]}) s4 s5') by (by apply undisturbed_stats).
  pose proof (carved_quiet a start _ _ _ _ _ Hq5' Hcv) as Hcv5. apply (at_rest_stats _ _ _ _ fetch_pagecache_spans 1) in Hr5.
  destruct (push_front_hand l a start R5 s5 s5' d1 free Ha0 Hr5 Hcv5) as (st' & Hpf & Hop & Hq6).
  eapply wp_act_then; [cbv beta zeta; fold s5'; by rewrite Hpf |]. apply (Hopen a R5 s5); [done | exact Hop |].
  by apply (kept_by_trans l P _ _ _ _ _ HP Hq5' Hq6).
Qed.

(** *** The search of the span list *)

(** The locals of [FetchBatch] against what is in hand: [l] the caller's chain, of
    which [g0] objects came from the transfer cache, [p] the prefetched ones. *)
Record chained (g0 need : Z) s (f : fetch) (l p : list Z) : Prop := {
  ch_nodup : NoDup (l ++ p);
  ch_seg : seg (cc_mem s) (fe_head f) l 0;
  ch_tail : fe_tail f = default 0 (last l);
  ch_count : fe_fetched f = Z.of_nat (length l);
  ch_pre : fe_prefetched f = p;
  ch_ext : fe_extracted f = Z.of_nat (length l) - g0 + Z.of_nat (length p);
  ch_need : g0 <= Z.of_nat (length l) <= g0 + need;
  ch_first : p <> [] -> Z.of_nat (length l) = g0 + need;
}.

Lemma chained_quiet g0 need f l p : kept_by (hand idx (l ++ p) ∅) (fun s => chained g0 need s f l p).
Proof.
  intros s s' Hq []. constructor; try done. eapply quiet_seg; [exact Hq | done | | done].
  intros x Hx. apply elem_of_app. by left.
Qed.

Lemma chained_fetching g0 need R s G f l p :
  cc_inv (H1 := reserve_laws (sh_pages R)) s G (give (held_of (sh_objs R)) idx (list_to_set (l ++ p))) (sh_runs R) ->
  (forall x, x ∈ l ++ p -> x ∉ held_of (sh_objs R) idx) -> chained g0 need s f l p ->
  fetching (H1 := reserve_laws (sh_pages R)) s (held_of (sh_objs R)) (sh_runs R) idx g0 need (g_T G) s G f l p.
Proof.
  intros Hi Hnew []. by constructor.
Qed.
Lemma fetching_chained g0 need P Hd V sb tc s G f l p : fetching (H1 := reserve_laws P) sb Hd V idx g0 need tc s G f l p -> chained g0 need s f l p.
Proof. intros []. by constructor. Qed.
Lemma fetching_at_rest g0 need R s0 sb tc s G f l p :
  fetching (H1 := reserve_laws (sh_pages R)) sb (held_of (sh_objs R)) (sh_runs R) idx g0 need tc s G f l p -> tidy G -> own_quiet R s0 sb ->
  at_rest R (hand idx (l ++ p) ∅) s0 s.
Proof.
  intros [] Ht Hq. apply at_rest_hand. exists G. constructor; [by rewrite map_union_empty | done | done | apply map_disjoint_empty_r |].
  eapply undisturbed_trans; [exact Hq | done].
Qed.

Section Loop.
Context (g0 need target : Z).

(** What the loop ends with. *)
Definition searched (f : fetch) (o : share) s : Prop :=
  exists l p, o = hand idx (l ++ p) ∅ /\ chained g0 need s f l p /\ fe_extracted f <= target /\
    (fe_extracted f = target \/ dried_up (W := W) idx).

(** The check of the head, and a new span when it has nothing to offer: either the
    search is over or the head is open. *)
Lemma wp_refill {B} (g : option fetch -> prog _ B) Q f l p (dry : bool) R s0 s :
  at_rest R (hand idx (l ++ p) ∅) s0 s -> chained g0 need s f l p ->
  (dry = false -> open_at (l ++ p) (fe_begin f) R s0 s) ->
  (forall R s0 s, at_rest R (hand idx (l ++ p) ∅) s0 s -> chained g0 need s f l p -> dried_up (W := W) idx -> wp (g None) Q R s0 s) ->
  (forall f' R s0 s, open_at (l ++ p) (fe_begin f') R s0 s -> chained g0 need s f' l p -> fe_extracted f' = fe_extracted f ->
     wp (g (Some f')) Q R s0 s) ->
  wp (go ← (if dry
            then span ← GetOneSpan_sections idx (Size idx);
                 if span =? 0 then Ret None
                 else first ← reading (fun s => sl_begin (cc_spans s) (bucket_head idx)); Ret (Some (set_begin f first))
            else Ret (Some f)); g go) Q R s0 s.
Proof.
  intros Hr Hc Hopen Hno Hyes. destruct dry; [| by apply (Hyes f); [apply Hopen | |]].
  apply wp_assoc, (wp_GetOneSpan _ _ (l ++ p) (fun s => chained g0 need s f l p)); [apply chained_quiet | done | done | |].
  - intros R1 s1 s2 Hr1 Hc1 Hdry. change (0 =? 0) with true. cbn iota. by apply (Hno R1 s1 s2).
  - intros a R1 s1 s2 Ha0 Hop Hc1. rewrite (proj2 (Z.eqb_neq a 0)) by done.
    apply wp_assoc. eapply wp_reading_then; [by eapply open_begin |]. apply (Hyes (set_begin f a) R1 s1 s2); [done | | done].
    destruct Hc1. by constructor.
Qed.

(** From an open head, one round of carving. *)
Lemma carve_open R s0 s f l p : open_at (l ++ p) (fe_begin f) R s0 s -> chained g0 need s f l p ->
  fe_extracted f < target ->
  exists f1 s1 full f2 s2 G2 l2 p2,
    carve (S (Z.to_nat (target - fe_extracted f))) s idx need target (count_traversal f) = Ok (f1, s1) /\
    begin_full s1 f1 = Ok full /\ (if full : bool then rotate s1 idx f1 else Ok (f1, s1)) = Ok (f2, s2) /\
    fetching (H1 := reserve_laws (sh_pages R)) s (held_of (sh_objs R)) (sh_runs R) idx g0 need (g_T G2) s2 G2 f2 l2 p2 /\ ready idx s2 G2 f2 /\
    fe_extracted f < fe_extracted f2 <= target /\ own_quiet R s0 s.
Proof.
  intros (G & rest & [Hi Htb HB Hfree Hnew Hq]) Hc Hlt.
  pose proof (chained_fetching _ _ _ _ _ _ _ _ Hi Hnew Hc) as Hf.
  assert (Hf' : fetching (H1 := reserve_laws (sh_pages R)) s (held_of (sh_objs R)) (sh_runs R) idx g0 need (g_T G) s G (count_traversal f) l p) by (destruct Hf; by constructor).
  destruct (carve_round_ok s _ _ idx g0 need (g_T G) Hidx s G (count_traversal f) l p (fe_begin f) rest target Hf' Htb)
    as (f1 & s1 & full & f2 & s2 & G2 & l2 & p2 & Hcv & Hbf & Hrot & Hf2 & Hr2 & Hext); try done.
  exists f1, s1, full, f2, s2, G2, l2, p2. split; [exact Hcv |]. do 2 (split; [done |]). split; [| done].
  by rewrite (ft_T _ _ _ _ _ _ _ _ _ _ _ _ Hf2).
Qed.

Lemma wp_fetch_loop fuel : forall sb tc R s0 s G f l p,
  own_quiet R s0 sb -> fetching (H1 := reserve_laws (sh_pages R)) sb (held_of (sh_objs R)) (sh_runs R) idx g0 need tc s G f l p -> ready idx s G f ->
  fe_extracted f <= target -> (Z.to_nat (target - fe_extracted f) < fuel)%nat ->
  wp (fetch_loop_sections fuel idx (Size idx) need target f) searched R s0 s.
Proof.
  induction fuel as [| fuel IH]; intros sb tc R s0 s G f l p Hq Hf Hrdy Hle Hfuel; [lia |]. cbn [fetch_loop_sections].
  pose proof (fetching_at_rest _ _ _ _ _ _ _ _ _ _ _ Hf (proj1 Hrdy) Hq) as Hr. pose proof (fetching_chained _ _ _ _ _ _ _ _ _ _ _ _ Hf) as Hc.
  destruct (Z.ltb_spec (fe_extracted f) target) as [Hlt | Hge].
  2: { eapply wp_ret; [exact Hr |]. exists l, p. split; [done |]. split; [done |]. split; [done |]. left. lia. }
  destruct (fetch_refill_ok sb _ _ idx g0 need tc Hidx s G f l p Hf Hrdy) as (e & dry & a & s1 & G1 & He & Hdry & Hno & _).
  eapply wp_reading_then; [rewrite He, bind_Ok_l; exact Hdry |].
  apply (wp_refill _ _ f l p dry); [exact Hr | exact Hc | | |].
  - intros Hd. destruct (Hno Hd) as (b & rest & HB & Hb & Hne). rewrite Hb. exists G, rest.
    pose proof (ft_inv _ _ _ _ _ _ _ _ _ _ _ _ Hf) as Hi. constructor; try done; [by apply (tidy_but_head idx Hidx), HB; apply Hrdy | apply Hf |].
    eapply quiet_trans; [exact Hq | apply Hf].
  - intros R1 s2 s3 Hr3 Hc3 Hdry3. eapply wp_ret; [exact Hr3 |]. exists l, p. do 3 (split; [done |]). by right.
  - intros f' R1 s2 s3 Hop Hc3 He3. rewrite <- He3 in Hlt.
    destruct (carve_open R1 s2 s3 f' l p Hop Hc3 Hlt) as (f4 & s4 & full & f5 & s5 & G5 & l5 & p5 & Hcv & Hbf & Hrot & Hf5 & Hr5 & Hext & Hq3).
    eapply wp_act_then; [exact Hcv |]. eapply wp_act_then; [rewrite Hbf, bind_Ok_l; exact Hrot |].
    eapply IH; [exact Hq3 | exact Hf5 | done | lia | lia].
Qed.
End Loop.

(** The counters of the calls. *)
Lemma stats_pos_quiet R o s0 s c n : at_rest R o s0 s ->
  at_rest R o s0 (cc_add_pos c n s) /\ own_quiet o s (cc_add_pos c n s).
Proof. intros Hr. unfold cc_add_pos. destruct (0 <? n); [split; [by apply at_rest_stats | by apply undisturbed_stats] | done]. Qed.

Lemma wp_fetch_spans n head tail l R s0 s : at_rest R (hand idx l ∅) s0 s -> NoDup l -> seg (cc_mem s) head l 0 ->
  tail = default 0 (last l) -> Z.of_nat (length l) < n <= kMaxBatchSize ->
  wp (fetch_spans_sections idx (Size idx) (n - Z.of_nat (length l)) (u64 (n - Z.of_nat (length l) + n)) head tail (Z.of_nat (length l)))
    (searched (Z.of_nat (length l)) (n - Z.of_nat (length l)) (n - Z.of_nat (length l) + n)) R s0 s.
Proof.
  intros Hr Hnd Hseg Htail Hlen. assert (HkM : kMaxBatchSize = 512) by (vm_compute; done). rewrite u64_id by lia.
  set (need := n - Z.of_nat (length l)). set (target := need + n). unfold fetch_spans_sections.
  eapply wp_yield_then; [exact Hr |]. intros R1 s1 Hr1 Hq1. pose proof (proj1 (at_rest_hand _ _ _ _ _ _) Hr1) as [G Hh].
  assert (Hseg1 : seg (cc_mem s1) head l 0) by (by eapply quiet_seg).
  eapply wp_reading_then; [exact (sl_begin_dll _ _ _ (ci_list _ _ _ _ (ih_inv _ _ _ _ _ _ _ Hh) idx Hidx)) |].
  set (f0 := mkFetch _ _ _ _ _ _ _ _).
  assert (Hc0 : chained (Z.of_nat (length l)) need s1 f0 l []).
  { constructor; cbn; rewrite ?app_nil_r; try done; lia. }
  rewrite <- (app_nil_r l) in Hh. pose proof (ih_inv _ _ _ _ _ _ _ Hh) as Hi0. rewrite map_union_empty in Hi0.
  pose proof (chained_fetching _ _ _ _ _ _ _ _ Hi0 (ih_new _ _ _ _ _ _ _ Hh) Hc0) as Hf0.
  eapply wp_bind; [eapply (wp_fetch_loop _ need target); [| exact Hf0 | split; [apply Hh | done] | cbn; lia | cbn; lia]; apply quiet_refl |].
  intros f o R2 s2 s3 Hr3 (l1 & p1 & -> & Hc3 & Hle & Hor).
  eapply wp_doing_then; [done |].
  destruct (stats_pos_quiet _ _ _ _ fetch_span_list_objects (fe_extracted f) Hr3) as [Hr4 Hq4]. set (s4 := cc_add_pos _ _ s3) in *.
  destruct (stats_pos_quiet _ _ _ _ spanlist_traversals (fe_traversals f) Hr4) as [Hr5 Hq5]. set (s5 := cc_add_pos _ _ s4) in *.
  destruct (stats_pos_quiet _ _ _ _ spanlist_rotations (fe_rotations f) Hr5) as [Hr6 Hq6]. set (s6 := cc_add_pos _ _ s5) in *.
  eapply wp_ret; [exact Hr6 |]. exists l1, p1. split; [done |]. split; [| done].
  eapply chained_quiet; [| exact Hc3]. eapply quiet_trans; [exact Hq4 |]. by eapply quiet_trans.
Qed.

(** Chaining objects in hand writes nothing else. *)
Lemma link_hand ls l V R s0 s : NoDup (ls ++ l) -> at_rest R (hand idx (ls ++ l) V) s0 s ->
  exists h m', link_all (cc_mem s) ls 0 = Ok (h, m') /\ seg m' h (rev ls) 0 /\
    at_rest R (hand idx (ls ++ l) V) s0 (with_mem s m') /\ own_quiet (hand idx l V) s (with_mem s m').
Proof.
  intros (Hn & Hdis & _)%NoDup_app [G Hh]%at_rest_hand. pose proof (ih_inv _ _ _ _ _ _ _ Hh) as Hi.
  set (Hd := give _ _ _) in Hi.
  assert (Hobj : forall x, x ∈ ls -> x ∈ Hd idx).
  { intros x Hx. unfold Hd, give. rewrite upd_fun_eq, list_to_set_app_L. set_solver. }
  assert (H0l : 0 ∉ ls).
  { intros Hx. by destruct (object_word _ _ _ _ Hi idx 0 Hidx (or_introl (Hobj 0 Hx))) as (_ & _ & Hnz & _). }
  destruct (link_all_ok (cc_mem s) ls 0 []) as (h & m' & Hlink & Hseg & Hm); [done | done | set_solver | done |].
  rewrite app_nil_r in Hseg. exists h, m'. split; [done |]. split; [done |].
  assert (Hun : undisturbed (give (held_of (sh_objs R)) idx (list_to_set l)) (sh_runs R ∪ V) s (with_mem s m')).
  { eapply (links_undisturbed (H1 := reserve_laws (sh_pages R)) s); [exact Hi | exact Hm | | done |].
    - intros j _. unfold Hd, give, upd_fun. case_decide; [subst; rewrite list_to_set_app_L |]; set_solver.
    - intros x Hx. exists idx. split; [done |]. split; [left; by apply Hobj |]. unfold give. rewrite upd_fun_eq, elem_of_union, elem_of_list_to_set.
      intros [Hin | Hin]; [| by apply (Hdis x)]. apply (ih_new _ _ _ _ _ _ _ Hh x); [apply elem_of_app; by left | done]. }
  split.
  - apply at_rest_hand. exists G. constructor; try apply Hh.
    + eapply links_ok; [exact Hi | exact Hm |]. intros x Hx. exists idx. split; [done | left; by apply Hobj].
    + eapply undisturbed_trans; [apply Hh |]. eapply undisturbed_mono; [| | exact Hun]; [intros j _; apply give_sub | apply map_union_subseteq_l].
  - eapply undisturbed_mono; [| | exact Hun].
    + intros j _. rewrite held_of_hand. unfold give, upd_fun. case_decide; set_solver.
    + cbn. apply map_union_subseteq_r, Hh.
Qed.

(** Objects in hand go back as a batch. *)
Lemma wp_link_release mode first rest l0 P R s0 s : kept_by (hand idx l0 ∅) P -> NoDup ((first :: rest) ++ l0) ->
  at_rest R (hand idx ((first :: rest) ++ l0) ∅) s0 s -> P s ->
  wp (head ← Yield (act (fun s => '(h, m) ← link_all (cc_mem s) (first :: rest) 0; Ok (h, with_mem s m)));
      b ← reading (fun s => make_batch (cc_mem s) head first (Z.of_nat (length (first :: rest))) idx);
      ReleaseBatch_sections b mode) (fun _ o s => o = hand idx l0 ∅ /\ P s) R s0 s.
Proof.
  intros HP Hnd Hr HPs. remember (first :: rest) as ls eqn:Els. eapply wp_yield_then; [exact Hr |]. intros R1 s1 Hr1 Hq1.
  destruct (link_hand ls l0 ∅ R1 s1 s1 Hnd Hr1) as (h & m' & Hlink & Hseg & Hr2 & Hq2).
  eapply wp_act_then; [by rewrite Hlink |].
  assert (Hch : chain_rep m' (mkChain h first (Z.of_nat (length ls))) (rev ls)).
  { split; [done |]. split; [subst ls; cbn; by rewrite last_snoc | by rewrite length_rev]. }
  destruct (make_batch_rep m' h first (Z.of_nat (length ls)) idx (rev ls) Hch) as [Hmk Hb]; [subst ls; cbn; by destruct (rev rest) | done |].
  eapply wp_reading_then; [exact Hmk |].
  assert (Hperm : ls ++ l0 ≡ₚ rev ls ++ l0) by (by rewrite <- Permutation_rev).
  rewrite (hand_perm _ _ _ Hperm) in Hr2.
  eapply (wp_ReleaseBatch idx mode _ (rev ls) l0 P); [done | done | exact Hr2 | by rewrite <- Hperm | exact Hb |].
  eapply HP; [exact Hq2 |]. eapply HP; [| exact HPs]. eapply quiet_hand; [exact Hq1 | | done].
  intros x Hx. apply elem_of_app. by right.
Qed.

(** The prefetched objects are no longer in hand. *)
Lemma wp_publish p l P R s0 s : kept_by (hand idx l ∅) P -> NoDup (p ++ l) ->
  at_rest R (hand idx (p ++ l) ∅) s0 s -> P s ->
  wp (publish_prefetched_sections idx p) (fun _ o s => o = hand idx l ∅ /\ P s) R s0 s.
Proof.
  intros HP Hnd Hr HPs. destruct p as [| x p]; [by eapply wp_ret |]. unfold publish_prefetched_sections.
  eapply wp_bind; [by apply (wp_absorb idx (x :: p) l P) |]. intros rest o R1 s1 s2 Hr1 ([pushed E] & -> & HP1).
  rewrite E, <- app_assoc in Hnd. apply NoDup_app in Hnd as (_ & _ & Hnd).
  destruct rest as [| y rest]; [by eapply wp_ret |]. by apply wp_link_release.
Qed.

(** ** FetchBatch *)

(** What the caller gets: a batch of objects of the class that nobody else owns, as
    many as it asked for unless the page cache ran out. *)
Definition fetched (n : Z) (b : ObjectBatch) (o : share) s : Prop :=
  exists l, o = hand idx l ∅ /\ batch_rep (cc_mem s) b idx l /\ NoDup l /\ Z.of_nat (length l) <= n /\
    (Z.of_nat (length l) = n \/ dried_up (W := W) idx).

Lemma fetch_transfer_hand n R s0 s : 0 <= n -> at_rest R (hand idx [] ∅) s0 s ->
  exists l s', fetch_transfer s idx n = Ok (l, s') /\ at_rest R (hand idx l ∅) s0 s' /\ NoDup l /\ Z.of_nat (length l) <= n.
Proof.
  intros Hn [G Hh]%at_rest_hand. pose proof (ih_inv _ _ _ _ _ _ _ Hh) as Hi. rewrite map_union_empty in Hi.
  assert (Hi0 : cc_inv (H1 := reserve_laws (sh_pages R)) s G (held_of (sh_objs R)) (sh_runs R)).
  { eapply cc_inv_held; [| exact Hi]. intros j _. unfold give, upd_fun. case_decide; subst; set_solver. }
  destruct (fetch_transfer_ok s G _ _ idx n Hi0 Hidx Hn) as (l & s' & G' & Heq & Hi' & Hnd & Hnew & Hlen & Hun & Htd & _).
  exists l, s'. split; [done |]. split; [| split; [done | lia]]. apply at_rest_hand. exists G'.
  constructor; [by rewrite map_union_empty | apply Htd, Hh | done | apply map_disjoint_empty_r |].
  eapply undisturbed_trans; [apply Hh | done].
Qed.

(** The chain at the end of [FetchBatch]. *)
Definition chain_out (n : Z) (r : Z * Z * Z) (o : share) s : Prop :=
  exists l, o = hand idx l ∅ /\ NoDup l /\ seg (cc_mem s) r.1.1 l 0 /\ r.1.2 = default 0 (last l) /\
    r.2 = Z.of_nat (length l) /\ Z.of_nat (length l) <= n /\ (Z.of_nat (length l) = n \/ dried_up (W := W) idx).

(** The spans, and the prefetched objects published. *)
Lemma wp_fetch_more n head l R s0 s : at_rest R (hand idx l ∅) s0 s -> NoDup l -> seg (cc_mem s) head l 0 ->
  Z.of_nat (length l) < n <= kMaxBatchSize ->
  wp (f ← fetch_spans_sections idx (Size idx) (n - Z.of_nat (length l)) (u64 (n - Z.of_nat (length l) + n)) head
            (default 0 (last l)) (Z.of_nat (length l));
      _ ← publish_prefetched_sections idx (fe_prefetched f);
      Ret (fe_head f, fe_tail f, fe_fetched f)) (chain_out n) R s0 s.
Proof.
  intros Hr Hnd Hseg Hlen. eapply wp_bind; [by apply (wp_fetch_spans n head _ l) |].
  intros f o R5 s5 s6 Hr6 (l1 & p1 & -> & Hc & Hle & Hor). destruct Hc as [Hnd1 Hseg1 Htl1 Hct1 Hpre1 Hext1 Hneed1 Hfirst1].
  assert (Hperm : l1 ++ p1 ≡ₚ p1 ++ l1) by apply Permutation_app_comm. rewrite (hand_perm _ _ _ Hperm) in Hr6. rewrite Hpre1.
  eapply wp_bind; [apply (wp_publish p1 l1 (fun s => seg (cc_mem s) (fe_head f) l1 0)); [| by rewrite <- Hperm | done | done] |].
  { intros sa sb Hq. by eapply quiet_seg. }
  intros _ o R7 s7 s8 Hr8 (-> & Hseg8). eapply wp_ret; [exact Hr8 |].
  exists l1. split; [done |]. split; [by apply NoDup_app in Hnd1 as (? & _) |]. do 3 (split; [done |]). split; [lia |].
  destruct Hor as [Hfull | Hdry]; [left | by right].
  destruct p1 as [| y p1]; [cbn [length] in Hext1; lia | rewrite Hfirst1 by done; lia].
Qed.

Lemma wp_none n R s0 s : at_rest R (hand idx [] ∅) s0 s -> n = 0 \/ dried_up (W := W) idx -> 0 <= n ->
  wp (Ret empty_batch) (fetched n) R s0 s.
Proof.
  intros Hr Hor Hn. eapply wp_ret; [exact Hr |]. exists []. split; [done |].
  split; [by apply empty_batch_rep |]. split; [by apply NoDup_nil_2 |]. split; [done |]. destruct Hor; [left | by right]; done.
Qed.

(** The batch is made of the chain. *)
Lemma wp_batch_out n head tail k o R s0 s : 0 <= n -> at_rest R o s0 s -> chain_out n (head, tail, k) o s ->
  wp (if k =? 0 then Ret empty_batch else Yield (reading (fun s => make_batch (cc_mem s) head tail k idx))) (fetched n) R s0 s.
Proof.
  intros Hn Hr (l & -> & Hnd & Hseg & Htl & Hk & Hlen & Hor). cbn in Hseg, Htl, Hk. subst k. destruct (Z.eqb_spec (Z.of_nat (length l)) 0) as [E | E].
  { assert (l = []) as -> by (by destruct l). apply wp_none; [done | | done]. destruct Hor as [<- |]; [by left | by right]. }
  eapply wp_yield; [exact Hr |]. intros R5 s5 Hr5 Hq5. assert (Hseg5 : seg (cc_mem s5) head l 0) by (by eapply quiet_seg).
  destruct (make_batch_rep (cc_mem s5) head tail (Z.of_nat (length l)) idx l) as [Hmk Hb]; [by split | by destruct l | done |].
  eapply wp_act; [by rewrite Hmk | exact Hr5 |]. by exists l.
Qed.

Lemma wp_FetchBatch n R s0 s : 0 <= n <= kMaxBatchSize -> at_rest R (hand idx [] ∅) s0 s ->
  wp (FetchBatch_sections idx n) (fetched n) R s0 s.
Proof.
  intros Hn Hr. unfold FetchBatch_sections.
  eapply wp_pure_then; [rewrite (proj2 (Z.ltb_lt _ _)) by apply Hidx; apply AM_DCHECK_true |].
  eapply wp_pure_then; [rewrite (proj2 (Z.leb_le _ _)) by apply Hn; apply AM_DCHECK_true |].
  destruct (Z.eqb_spec n 0) as [-> | Hn0]; [by apply wp_none; [| left |] |]. cbv zeta.
  eapply wp_yield_then; [exact Hr |]. intros R1 s1 Hr1 _.
  destruct (fetch_transfer_hand n R1 s1 s1 ltac:(lia) Hr1) as (l & s2 & Heq & Hr2 & Hnd & Hlen).
  eapply wp_act_then; [exact Heq |]. eapply wp_yield_then; [exact Hr2 |]. intros R3 s3 Hr3 _.
  assert (Hrev : l ≡ₚ rev l ++ []) by (by rewrite app_nil_r, <- Permutation_rev).
  rewrite (hand_perm _ _ _ Hrev) in Hr3. destruct (link_hand (rev l) [] ∅ R3 s3 s3) as (h & m' & Hlink & Hseg & Hr4 & _); [by rewrite <- Hrev | done |].
  rewrite <- (hand_perm _ _ _ Hrev) in Hr4. rewrite rev_involutive in Hseg. eapply wp_act_then; [by rewrite Hlink |].
  eapply (wp_bind _ _ (chain_out n)); [| intros [[head tail] k] o R5 s5 s6 Hr6 Hc; apply (wp_batch_out n head tail k o); [lia | done..]].
  destruct (Z.ltb_spec (Z.of_nat (length l)) n) as [Hlt | Hge]; [apply wp_fetch_more; try done; lia |].
  eapply wp_ret; [exact Hr4 |]. exists l. do 5 (split; [done |]). split; [done |]. left. lia.
Qed.

(** ** DrainTransferCaches *)

Lemma detach_hand n R s0 s : 0 < n -> at_rest R (hand idx [] ∅) s0 s ->
  exists l s', detach_cold s idx n = Ok (l, s') /\ at_rest R (hand idx l ∅) s0 s' /\ NoDup l /\ Z.of_nat (length l) <= n.
Proof.
  intros Hn Hr. pose proof (proj1 (at_rest_hand _ _ _ _ _ _) Hr) as [G Hh]. pose proof (ih_inv _ _ _ _ _ _ _ Hh) as Hi.
  rewrite map_union_empty in Hi.
  assert (Hi0 : cc_inv (H1 := reserve_laws (sh_pages R)) s G (held_of (sh_objs R)) (sh_runs R)).
  { eapply cc_inv_held; [| exact Hi]. intros j _. unfold give, upd_fun. case_decide; subst; set_solver. }
  pose proof (tr_size _ _ _ (ci_tc _ _ _ _ Hi idx Hidx)) as Hsz. set (k := Z.min n (transfer_cache_size (cc_buckets s idx))).
  destruct (Z.eqb_spec k 0) as [Ek | Ek].
  { exists [], s. split; [unfold detach_cold; fold k; by rewrite Ek |]. split; [done |]. split; [by apply NoDup_nil_2 | cbn; lia]. }
  assert (Hmin : detach_cold s idx n = detach_cold s idx k).
  { unfold detach_cold. fold k. by replace (Z.min k _) with k by lia. }
  destruct (detach_cold_ok s G _ _ idx k Hi0 Hidx ltac:(lia)) as (s' & Heq & Hi' & Hnd & Hnew & Hun).
  eexists _, s'. split; [rewrite Hmin; exact Heq |]. split; [| split; [done | rewrite length_take; lia]]. apply at_rest_hand. eexists.
  constructor; [rewrite map_union_empty; exact Hi' | apply Hh | done | apply map_disjoint_empty_r |].
  eapply undisturbed_trans; [apply Hh | done].
Qed.

(** A bounded call counts what it drains against its budget. *)
Definition within (unbounded : bool) (total : Z) (r : Z * Z) : Prop :=
  unbounded = false -> 0 <= r.1 /\ 0 <= r.2 /\ r.1 + r.2 = total.

Lemma wp_drain_loop unbounded total (Htotal : total < W64) fuel : forall n mb db R s0 s,
  at_rest R (hand idx [] ∅) s0 s -> n <= Z.of_nat fuel ->
  within unbounded total (mb, db) -> (unbounded = false -> n * Size idx <= mb) ->
  wp (drain_loop_sections fuel idx (Size idx) unbounded n mb db)
    (fun r o s => o = hand idx [] ∅ /\ within unbounded total r) R s0 s.
Proof.
  induction fuel as [| fuel IH]; intros n mb db R s0 s Hr Hf Hw Hb; cbn [drain_loop_sections];
    (destruct (Z.ltb_spec 0 n) as [Hn | Hn]; [| by eapply wp_ret]); [lia |].
  eapply wp_yield_then; [exact Hr |]. intros R1 s1 Hr1 _.
  destruct (detach_hand (Z.min kMaxBatchSize n) R1 s1 s1) as (objs & s2 & Heq & Hr2 & Hnd & Hlen); [unfold kMaxBatchSize; lia | done |].
  eapply wp_act_then; [exact Heq |]. destruct objs as [| first rest]; [by eapply wp_ret |].
  rewrite <- (app_nil_r (first :: rest)) in Hr2, Hnd. cbv zeta.
  assert (Hd : 0 < Z.of_nat (length (first :: rest)) <= n) by (cbn [length] in *; lia).
  pose proof (Size_range idx Hidx) as Hsz. unfold ALIGNMENT in Hsz.
  match goal with |- wp (_ ≫= fun head => _ ≫= fun b => _ ≫= fun _ => ?k) ?Q ?R ?s0 ?s => 
    pose proof (fun p => wp_bind p (fun _ : () => k) (fun _ o s => o = hand idx [] ∅ /\ True) Q R s0 s) as Hbind end.
  apply (Hbind _ (wp_link_release kSpanBitmap first rest [] (fun _ => True) R1 s1 s2 ltac:(done) Hnd Hr2 I)). clear Hbind.
  set (d := Z.of_nat (length (first :: rest))) in *. clearbody d. intros [] o R3 s3 s4 Hr4 (-> & _). apply IH; [done | lia | |].
  all: intros E; destruct (Hw E) as (H0mb & H0db & Hsum); specialize (Hb E); cbn in H0mb, H0db, Hsum; subst unbounded.
  all: assert (Hds : 0 < d * Size idx <= n * Size idx) by nia; rewrite (u64_id (d * _)), (u64_id (mb - _)) by lia.
  - rewrite u64_id by lia. cbn. lia.
  - lia.
Qed.

Lemma wp_drain_class unbounded total mb db R s0 s : total < W64 -> at_rest R (hand idx [] ∅) s0 s ->
  within unbounded total (mb, db) ->
  wp (drain_class_sections idx unbounded mb db) (fun r o s => o = hand idx [] ∅ /\ within unbounded total r) R s0 s.
Proof.
  intros Htotal Hr Hw. pose proof (Size_range idx Hidx) as Hsz. unfold ALIGNMENT in Hsz.
  unfold drain_class_sections. cbv zeta. destruct (negb unbounded && (mb <? Size idx)); [by eapply wp_ret |].
  eapply wp_yield_then; [exact Hr |]. intros R1 s1 Hr1 _. destruct unbounded.
  - eapply wp_reading_then; [done |]. apply wp_drain_loop; [done | done | lia | done | done].
  - eapply wp_reading_then; [unfold udiv; by rewrite (proj2 (Z.eqb_neq _ _)) by lia |].
    destruct (Hw eq_refl) as (H0mb & H0db & Hsum). cbn in H0mb. pose proof (Z.div_mod mb (Size idx) ltac:(lia)).
    pose proof (Z.mod_pos_bound mb (Size idx) ltac:(lia)). apply wp_drain_loop; [done | done | lia | done | intros _; nia].
Qed.
End Fetch.

Section Drain.
Context {W : Type} `{BackingLaws W} `{StaticLayout} `{CentralLayout}.
Implicit Types (s : CentralCache W) (R T : share).

Lemma wp_drain_classes unbounded total n : total < W64 -> Z.of_nat n <= kNumSizeClasses -> forall mb db R s0 s,
  at_rest R empty_handed s0 s -> within unbounded total (mb, db) ->
  wp (drain_classes_sections n unbounded mb db) (fun d o s => o = empty_handed /\ (unbounded = false -> 0 <= d <= total)) R s0 s.
Proof.
  intros Htotal. induction n as [| n IH]; intros Hn mb db R s0 s Hr Hw; cbn [drain_classes_sections].
  - eapply wp_ret; [exact Hr |]. split; [done |]. intros E. destruct (Hw E) as (? & ? & ?). cbn in *. lia.
  - eapply wp_bind; [apply (wp_drain_class (Z.of_nat n)); [split; lia | exact Htotal | exact Hr | exact Hw] |].
    intros [mb' db'] o R1 s1 s2 Hr1 (-> & Hw1). apply IH; [lia | exact Hr1 | exact Hw1].
Qed.

Lemma wp_DrainTransferCaches max_bytes R s0 s : 0 <= max_bytes < W64 -> at_rest R empty_handed s0 s ->
  wp (DrainTransferCaches_sections max_bytes)
    (fun d o s => o = empty_handed /\ (max_bytes <> SIZE_MAX -> 0 <= d <= max_bytes)) R s0 s.
Proof.
  intros Hmax Hr. unfold DrainTransferCaches_sections. destruct (Z.eqb_spec max_bytes 0) as [-> | H0m].
  { eapply wp_ret; [exact Hr |]. split; [done | lia]. }
  cbv zeta. eapply wp_bind.
  { apply (wp_drain_classes (max_bytes =? SIZE_MAX) max_bytes); [lia | rewrite kNumSizeClasses_val; lia | exact Hr |].
    intros _. cbn. lia. }
  intros d o R1 s1 s2 Hr1 (-> & Hd). eapply wp_yield_then; [exact Hr1 |]. intros R3 s3 Hr3 _.
  eapply wp_doing_then; [done |]. eapply wp_ret; [by apply at_rest_stats |]. split; [done |]. intros E. apply Hd. by apply Z.eqb_neq.
Qed.
End Drain.
