(* ===== verification/CentralFlights.v ===== *)
(** * Any number of calls in flight

    The central cache with its clients: calls of [FetchBatch], [ReleaseBatch] and
    [DrainTransferCaches] that begin, run one critical section at a time in any
    order, and return, while the clients write to what they hold.  No section ever
    fails, no object is ever given to two clients, and every call can end. *)
From S2P Require Import Prelude Config SizeClass FreeList Common Span SpanList Backing PageMap PageCache PageCacheInv.
From S2P Require Import PageCacheAlloc PageCacheMerge PageCacheRelease CentralCache CentralInv CentralSteps CentralRelease CentralFetch.
From S2P Require Import CentralInit CentralSpec Sections CentralCalls CentralShares CentralCallsRelease CentralCallsFetch.
Open Scope Z_scope.

(** ** The calls *)

(** The three operations of the central cache, and the two of the page cache that
    requests for whole pages go to (ammalloc.cpp). *)
Inductive call :=
| Fetch (idx preferred_count : Z)
| Release (batch : ObjectBatch) (mode : CentralReleaseMode)
| Drain (max_bytes : Z)
| AllocRun (page_num : Z)
| FreeRun (span : Z).
Inductive answer := Fetched (batch : ObjectBatch) | Released | Drained (bytes : Z) | GotRun (span : Z) | FreedRun.

Section Flights.
Context {W : Type} `{BackingLaws W} `{StaticLayout} `{CentralLayout}.
Implicit Types (s : CentralCache W) (o R T : share).

Definition prog_of (c : call) : prog (CentralCache W) answer :=
  match c with
  | Fetch idx n => b ← FetchBatch_sections idx n; Ret (Fetched b)
  | Release b mode => _ ← ReleaseBatch_sections b mode; Ret Released
  | Drain max_bytes => d ← DrainTransferCaches_sections max_bytes; Ret (Drained d)
  | AllocRun num =>
      span ← act (fun s => '(span, p) ← AllocSpan (cc_pages s) num; Ok (span, with_pages s p)); Ret (GotRun span)
  | FreeRun span => _ ← doing (fun s => p ← ReleaseSpan (cc_pages s) span; Ok (with_pages s p)); Ret FreedRun
  end.

(** A batch and the objects that are in it. *)
Definition batch_of (b : ObjectBatch) (idx : Z) (l : list Z) (o : share) s : Prop :=
  o = hand idx l ∅ /\ batch_rep (cc_mem s) b idx l /\ NoDup l.

(** What a caller must own and know, and what it owns and knows afterwards. *)
Definition pre (c : call) (o : share) s : Prop :=
  match c with
  | Fetch idx n => o = empty_handed /\ is_class idx /\ 0 <= n <= kMaxBatchSize
  | Release b _ => exists idx l, batch_of b idx l o s
  | Drain max_bytes => o = empty_handed /\ 0 <= max_bytes < W64
  | AllocRun num => o = empty_handed /\ 0 <= num < W64
  | FreeRun a => exists start num, o = run_of a start num
  end.
Definition post (c : call) (a : answer) (o : share) s : Prop :=
  match c, a with
  | Fetch idx n, Fetched b => exists l, batch_of b idx l o s /\ Z.of_nat (length l) <= n /\
      (Z.of_nat (length l) = n \/ dried_up (W := W) idx)
  | Release _ _, Released => o = empty_handed
  | Drain max_bytes, Drained d => o = empty_handed /\ (max_bytes <> SIZE_MAX -> 0 <= d <= max_bytes)
  | AllocRun num, GotRun a => a = 0 /\ o = empty_handed \/
      a <> 0 /\ exists d, cc_spans s !! a = Some d /\ o = run_of a (start_page_idx d) num
  | FreeRun _, FreedRun => o = empty_handed
  | _, _ => False
  end.

(** Clients write to the objects and runs they hold. *)
Definition client (pool : share) s s' : Prop :=
  exists m, s' = with_mem s m /\
    forall w, ~ user_word (held_of (sh_objs pool)) (sh_runs pool) w -> m !! w = cc_mem s !! w.

Definition central_step := flight_step prog_of pre post client.
Definition central_flights := rtc central_step.

(** ** What the calls promise *)

Lemma batch_of_quiet b idx l o s s' : own_quiet o s s' -> batch_of b idx l o s -> batch_of b idx l o s'.
Proof.
  intros Hq (-> & ((Hseg & Ht & Hc) & Hidx & Hi) & Hnd). split; [done |]. split; [| done].
  split; [| done]. split; [| done]. exact (quiet_seg idx l ∅ s s' l _ 0 Hq Hidx (fun x Hx => Hx) Hseg).
Qed.
Lemma batch_of_precise b idx l l' o o' s : batch_of b idx l o s -> batch_of b idx l' o' s -> l = l' /\ o = o'.
Proof.
  intros (-> & ((H1s & _) & _) & _) (-> & ((H2s & _) & _) & _).
  by rewrite (seg_functional _ _ _ _ H1s H2s).
Qed.
Lemma batch_of_class b idx l o s : batch_of b idx l o s -> is_class idx.
Proof. by intros (_ & (_ & ? & _) & _). Qed.

Lemma pre_stable c o s s' : own_quiet o s s' -> pre c o s -> pre c o s'.
Proof. intros Hq. destruct c; cbn; try done. intros (idx & l & Hb). exists idx, l. by eapply batch_of_quiet. Qed.
Lemma post_stable c : stable (post c).
Proof.
  intros a o s s' Hq. destruct c, a; cbn; try done.
  - intros (l & Hb & Hrest). exists l. split; [by eapply batch_of_quiet | done].
  - intros [? | (Ha & d & Hd & ->)]; [by left | right]. split; [done |]. exists d. split; [| done].
    rewrite <- Hd. apply Hq. cbn. rewrite dom_singleton_L. set_solver.
Qed.
Lemma post_precise c a o o' s : post c a o s -> post c a o' s -> o = o'.
Proof.
  destruct c, a; cbn; try done; try (by intros -> ->); try (by intros [-> _] [-> _]).
  - intros (l & Hb & _) (l' & Hb' & _). by destruct (batch_of_precise _ _ _ _ _ _ _ Hb Hb').
  - intros [[-> ->] | (Ha & d & Hd & ->)] [[E ->] | (Ha' & d' & Hd' & ->)]; try done. rewrite Hd in Hd'. by injection Hd' as <-.
Qed.

Lemma call_ok c R o s0 s : at_rest R o s0 s -> pre c o s -> wp (prog_of c) (post c) R s s.
Proof.
  intros (T & HT & Hg & _) Hp.
  assert (Hr : at_rest R o s s) by (exists T; split; [done |]; split; [done | apply quiet_refl]).
  destruct c as [idx n | b mode | mb | num | a]; cbn [prog_of].
  - destruct Hp as (-> & Hidx & Hn). eapply wp_bind; [apply (wp_FetchBatch idx Hidx n R s s Hn Hr) |].
    intros b o R1 s1 s2 Hr1 (l & -> & Hb & Hnd & Hlen). eapply wp_ret; [exact Hr1 |]. by exists l.
  - destruct Hp as (idx & l & Hb). pose proof (batch_of_class _ _ _ _ _ Hb) as Hidx. destruct Hb as (-> & Hb & Hnd).
    rewrite <- (app_nil_r l) in Hr, Hnd.
    eapply wp_bind; [by apply (wp_ReleaseBatch idx mode b l [] (fun _ => True)) |].
    intros _ o R1 s1 s2 Hr1 (-> & _). by eapply wp_ret.
  - destruct Hp as (-> & Hmb). eapply wp_bind; [by apply wp_DrainTransferCaches |].
    intros d o R1 s1 s2 Hr1 Hd. by eapply wp_ret.
  - destruct Hp as (-> & Hnum). destruct (AllocSpan_hand 0 [] num R s s Hnum Hr) as (a & p' & Hal & _ & Hor).
    eapply wp_act_then; [by rewrite Hal |]. destruct Hor as [[-> Hr1] | (Ha & start & d & Hr1 & Hd & <- & _)]; (eapply wp_ret; [exact Hr1 |]).
    + by left.
    + right. split; [done |]. by exists d.
  - destruct Hp as (start & num & ->). destruct (ReleaseSpan_hand 0 [] _ R s s a (start, num) Hr) as (p & Hrel & Hr1 & _); [apply lookup_singleton_eq |].
    rewrite delete_singleton_eq in Hr1. eapply wp_doing_then; [by rewrite Hrel |]. by eapply wp_ret.
Qed.

(** ** The clients' writes *)

Lemma client_ok T pool os s s' : own_good s T -> splits T pool os -> client pool s s' ->
  own_good s' T /\ Forall (fun o => own_quiet o s s') os.
Proof. intros Hg Hs (m & -> & Hm). by apply (pool_writes T pool). Qed.

Lemma central_flights_inv s T fl : own_good s T -> central_flights (mkFlight s T []) fl -> flight_inv post fl.
Proof.
  intros Hg. apply (flights_inv prog_of pre post client call_ok pre_stable post_stable post_precise client_ok).
  exists T, []. split; [done |]. split; [done | constructor].
Qed.
Definition apart (i x j y : Z) : Prop := x + Size i <= y \/ y + Size j <= x.

(** C4: the central cache is safe under any interleaving.  From a consistent
    cache, with any number of fetches, releases, drains and page runs in flight,
    their critical sections in any order and the clients writing to what they hold
    meanwhile: no section ever fails, the state is consistent after every one of
    them, what the calls and the clients own is always apart, and a call that has
    ended gives its caller what it promised, which nobody else owns. *)
Theorem calls_interleave s T fl : own_good s T -> central_flights (mkFlight s T []) fl ->
  (exists T' os, own_good (fl_state fl) T' /\ splits T' (fl_pool fl) os /\ length os = length (fl_calls fl)) /\
  forall l1 c p l2, fl_calls fl = l1 ++ (c, p) :: l2 ->
    (exists p' s', section p (fl_state fl) = Ok (p', s')) /\
    (forall a, p = Ret a -> exists o pool', post c a o (fl_state fl) /\ own_split pool' (fl_pool fl) o).
Proof.
  intros Hg Hr. pose proof (central_flights_inv s T fl Hg Hr) as Hi. destruct fl as [s' pool cs]. cbn. split.
  - destruct Hi as (T' & os & Hg' & Hs & Hp). exists T', os. split; [done |]. split; [done |]. symmetry. by eapply Forall2_length.
  - intros l1 c p l2 ->. split; [| intros a ->; exact (flight_done post s' pool c a l1 l2 Hi)].
    destruct (flight_run post post_stable s' pool c p l1 l2 Hi) as (p' & s2 & Hsec & _). by exists p', s2.
Qed.

(** No object is ever given to two callers.  Two fetches that have ended while
    anything else was going on hold batches of objects none of whose bytes
    overlap, nor any byte that a client holds; each has the objects its caller
    asked for unless the page cache can be out of runs for its class. *)
Theorem fetched_apart s T fl i1 n1 b1 i2 n2 b2 l1 l2 l3 : own_good s T -> central_flights (mkFlight s T []) fl ->
  fl_calls fl = l1 ++ (Fetch i1 n1, Ret (Fetched b1)) :: l2 ++ (Fetch i2 n2, Ret (Fetched b2)) :: l3 ->
  exists objs1 objs2, batch_rep (cc_mem (fl_state fl)) b1 i1 objs1 /\ batch_rep (cc_mem (fl_state fl)) b2 i2 objs2 /\
    (Z.of_nat (length objs1) = n1 \/ Z.of_nat (length objs1) < n1 /\ dried_up (W := W) i1) /\
    (Z.of_nat (length objs2) = n2 \/ Z.of_nat (length objs2) < n2 /\ dried_up (W := W) i2) /\
    NoDup objs1 /\ NoDup objs2 /\ (forall x y, x ∈ objs1 -> y ∈ objs2 -> apart i1 x i2 y) /\
    forall w, user_word (held_of (sh_objs (fl_pool fl))) (sh_runs (fl_pool fl)) w ->
      (forall x, x ∈ objs1 -> ~ x <= w < x + Size i1) /\ (forall y, y ∈ objs2 -> ~ y <= w < y + Size i2).
Proof.
  intros Hg Hr Hc. pose proof (central_flights_inv s T fl Hg Hr) as Hi. destruct fl as [s' pool cs]. cbn in *. subst cs.
  destruct (flight_two post _ _ _ _ _ _ _ _ _ Hi) as (o1 & o2 & pool1 & pool2 & R & T' & Hp1 & Hp2 & Hs1 & Hs2 & HT & G & HG & _).
  destruct Hp1 as (objs1 & Hb1 & Hlen1 & Hor1), Hp2 as (objs2 & Hb2 & Hlen2 & Hor2).
  pose proof (batch_of_class _ _ _ _ _ Hb1) as Hc1. pose proof (batch_of_class _ _ _ _ _ Hb2) as Hc2.
  destruct Hb1 as (-> & Hb1 & Hn1), Hb2 as (-> & Hb2 & Hn2). exists objs1, objs2. do 2 (split; [done |]).
  split; [destruct (decide (Z.of_nat (length objs1) = n1)) as [| Hne]; [by left | right; destruct Hor1; [done | split; [lia | done]]] |].
  split; [destruct (decide (Z.of_nat (length objs2) = n2)) as [| Hne]; [by left | right; destruct Hor2; [done | split; [lia | done]]] |].
  do 2 (split; [done |]).
  assert (HpT : part pool2 T') by (destruct HT as [-> | HT]; [done | by apply (part_split _ _ _ HT)]).
  destruct (part_split _ _ _ Hs2) as [Hp12 _]. destruct (part_split _ _ _ Hs1) as [Hp01 Hh1].
  assert (Hp1T : part pool1 T') by (destruct Hp12, HpT; split; by etrans). split.
  - intros x y Hx Hy. pose proof (Size_range i1 Hc1) as Hz1. pose proof (Size_range i2 Hc2) as Hz2. unfold ALIGNMENT in Hz1, Hz2. unfold apart.
    destruct (decide (x + Size i1 <= y)) as [| Hn]; [by left |]. destruct (decide (y + Size i2 <= x)) as [| Hn']; [by right |]. exfalso.
    eapply (user_apart (sh_pages T') s' G T' pool2 pool1 (hand i2 objs2 ∅) (Z.max x y)); [done | done | done | |].
    + eapply part_word; [exact Hh1 |]. eapply hand_word; [done | exact Hx | lia].
    + eapply hand_word; [done | exact Hy | lia].
  - intros w Hu. split; intros x Hx Hw.
    + eapply (user_apart (sh_pages T') s' G T' pool1 pool (hand i1 objs1 ∅) w); [done | done | done | done | exact (hand_word i1 objs1 x w Hc1 Hx Hw)].
    + eapply (user_apart (sh_pages T') s' G T' pool2 pool1 (hand i2 objs2 ∅) w); [done | done | done | exact (part_word pool pool1 w Hp01 Hu) | exact (hand_word i2 objs2 x w Hc2 Hx Hw)].
Qed.

(** Every call ends.  Whatever the other calls and the clients do in between, a
    call in flight takes finitely many critical sections; and from every state that
    an interleaving can reach, all the calls in flight can run to their ends and
    return, so none waits for another. *)
Theorem calls_end s T fl : own_good s T -> central_flights (mkFlight s T []) fl ->
  (forall c p ps, (c, p) ∈ fl_calls fl -> ps O = p -> ~ forall i, next_section (ps (S i)) (ps i)) /\
  exists fl', central_flights fl fl' /\ fl_calls fl' = [].
Proof.
  intros Hg Hr. split; [intros c p ps _ _; apply sections_end |]. destruct fl as [s' pool cs].
  apply (flight_end prog_of pre post client call_ok pre_stable post_stable post_precise client_ok), (central_flights_inv s T _ Hg Hr).
Qed.
End Flights.

(** ** Runs on a concrete cache *)

#[local] Existing Instance release_build.
#[local] Existing Instance bump_backing.
#[local] Existing Instance bump_laws.
#[local] Existing Instance sample_layout.
#[local] Existing Instance sample_central_layout.

Lemma sample_owned : own_good sample_central empty_handed.
Proof.
  destruct sample_central_inv as (K & R & _ & Hi). exists (init_ghost K R ∅). split; [| apply init_tidy].
  eapply cc_inv_held; [| exact (cc_inv_reserve_none (H1 := bump_laws) _ _ _ _ Hi)]. done.
Qed.

(** Two fetches of the same class, a drain and a run of pages begin together. *)
Definition sample_calls : list call := [Fetch 3 2; Fetch 3 2; Drain SIZE_MAX; AllocRun 2].
Definition sample_flight : flight (CentralCache Z) share call answer :=
  mkFlight sample_central empty_handed ((fun c => (c, prog_of c)) <$> sample_calls).

Lemma sample_reached : central_flights (mkFlight sample_central empty_handed []) sample_flight.
Proof.
  assert (Hbegin : forall cs c, pre c empty_handed sample_central ->
    central_step (mkFlight sample_central empty_handed cs) (mkFlight sample_central empty_handed (cs ++ [(c, prog_of c)]))).
  { intros cs c Hc. eapply fl_begin; [exact (empty_split empty_handed) | exact Hc]. }
  unfold sample_flight, sample_calls. cbn [fmap list_fmap].
  eapply rtc_l; [by apply (Hbegin [] (Fetch 3 2)) |]. eapply rtc_l; [by apply Hbegin with (c := Fetch 3 2) |].
  eapply rtc_l; [by apply Hbegin with (c := Drain SIZE_MAX) |]. eapply rtc_l; [by apply Hbegin with (c := AllocRun 2) |].
  apply rtc_refl.
Qed.

(** Both fetches run to their ends. *)
Lemma fetch_ends s pool l1 l2 i n p : flight_inv post (mkFlight s pool (l1 ++ (Fetch i n, p) :: l2)) ->
  exists s' b, central_flights (mkFlight s pool (l1 ++ (Fetch i n, p) :: l2)) (mkFlight s' pool (l1 ++ (Fetch i n, Ret (Fetched b)) :: l2)) /\
    flight_inv post (mkFlight s' pool (l1 ++ (Fetch i n, Ret (Fetched b)) :: l2)).
Proof.
  intros Hi. destruct (flight_ends prog_of pre post client post_stable (Fetch i n) p (sections_finite p) s pool l1 l2 Hi) as (s' & a & Hrun).
  pose proof (flights_inv prog_of pre post client call_ok pre_stable post_stable post_precise client_ok _ _ Hi Hrun) as Hi'.
  destruct (flight_done post s' pool _ a l1 l2 Hi') as (o & pool' & Ha & _). destruct a as [b | | d | r |]; try done. exists s', b. split; [exact Hrun | exact Hi'].
Qed.

Lemma sample_fetches_ended : exists fl b1 b2 l, central_flights (mkFlight sample_central empty_handed []) fl /\
  fl_calls fl = (Fetch 3 2, Ret (Fetched b1)) :: (Fetch 3 2, Ret (Fetched b2)) :: l.
Proof.
  pose proof (central_flights_inv _ _ _ sample_owned sample_reached) as Hi. unfold sample_flight, sample_calls in Hi. cbn [fmap list_fmap] in Hi.
  destruct (fetch_ends _ _ [] _ _ _ _ Hi) as (s1 & b1 & Hr1 & Hi1).
  destruct (fetch_ends _ _ [(Fetch 3 2, Ret (Fetched b1))] _ _ _ _ Hi1) as (s2 & b2 & Hr2 & _).
  eexists _, b1, b2, _. split; [etrans; [exact sample_reached |]; etrans; [exact Hr1 | exact Hr2] | reflexivity].
Qed.

Lemma calls_interleave_witness :
  (exists T' os, own_good sample_central T' /\ splits T' empty_handed os /\ length os = 4%nat) /\
  forall l1 c p l2, fl_calls sample_flight = l1 ++ (c, p) :: l2 ->
    (exists p' s', section p sample_central = Ok (p', s')) /\
    (forall a, p = Ret a -> exists o pool', post c a o sample_central /\ own_split pool' empty_handed o).
Proof. exact (calls_interleave sample_central empty_handed sample_flight sample_owned sample_reached). Defined.

Lemma fetched_apart_witness : exists (fl : flight (CentralCache Z) share call answer) b1 b2 objs1 objs2,
  batch_rep (cc_mem (fl_state fl)) b1 3 objs1 /\ batch_rep (cc_mem (fl_state fl)) b2 3 objs2 /\
  forall x y, x ∈ objs1 -> y ∈ objs2 -> apart 3 x 3 y.
Proof.
  destruct sample_fetches_ended as (fl & b1 & b2 & l & Hr & Hc).
  destruct (fetched_apart sample_central empty_handed fl 3 2 b1 3 2 b2 [] [] l sample_owned Hr Hc)
    as (objs1 & objs2 & Hb1 & Hb2 & _ & _ & _ & _ & Ha & _).
  exists fl, b1, b2, objs1, objs2. split; [exact Hb1 | split; [exact Hb2 | exact Ha]].
Defined.

Lemma calls_end_witness : exists fl, central_flights sample_flight fl /\ fl_calls fl = [].
Proof. exact (proj2 (calls_end sample_central empty_handed sample_flight sample_owned sample_reached)). Defined.
