(* ===== verification/ThreadCache.v ===== *)
(** * The thread cache

    [ThreadCache] (thread_cache.h, thread_cache.cpp): one free list per size class
    owned by a thread, the quota policy, the slow paths that exchange batches
    with the central cache, trimming, and the cooperative trim request.  Every
    operation takes the thread's own state and the process-wide one. *)
From S2P Require Import Prelude Config SizeClass FreeList Common Span SpanList Backing PageMap PageCache CentralCache.
Open Scope Z_scope.

(** ** [quota_policy] *)

Definition kMaxOverages : Z := 3.
Definition kMaxQuotaBatches : Z := 8.

Record QuotaState := mkQuota { q_max_size : Z; q_overages : Z }.

Definition NextAfterRefill (cur_max_size batch : Z) : Z :=
  if cur_max_size <? batch
  then Z.min batch (u64 (cur_max_size + Z.max 1 cur_max_size))
  else if cur_max_size <? u64 (batch * kMaxQuotaBatches)
  then Z.min (u64 (batch * kMaxQuotaBatches)) (u64 (cur_max_size + Z.max 1 (batch / kMaxQuotaBatches)))
  else cur_max_size.

Definition NextAfterOverflow (cur_max_size batch overages : Z) : QuotaState :=
  if cur_max_size <=? batch then mkQuota cur_max_size 0
  else if kMaxOverages <=? u64 (overages + 1)
  then mkQuota (Z.max (u64 (cur_max_size - batch)) batch) 0
  else mkQuota cur_max_size (u64 (overages + 1)).

(** ** State *)

Inductive ThreadCacheTrimMode := kReuse | kRelease.
#[export] Instance ThreadCacheTrimMode_eq_dec : EqDecision ThreadCacheTrimMode.
Proof. solve_decision. Defined.

(** The enumerators' values, and the cast back from the low bit of a request. *)
Definition mode_value (mode : ThreadCacheTrimMode) : Z := match mode with kReuse => 0 | kRelease => 1 end.
Definition mode_of_bit (b : Z) : ThreadCacheTrimMode := if b =? 0 then kReuse else kRelease.

Inductive ThreadCacheStats :=
| stat_reserved_quota_bytes | trim_count | cached_bytes_observed_at_trim | trimmed_bytes | budget_denied_growth.
#[export] Instance ThreadCacheStats_eq_dec : EqDecision ThreadCacheStats.
Proof. solve_decision. Defined.

Record ThreadCache := mkTC {
  free_lists : Z -> FreeList;
  reserved_quota_bytes : Z;
  cache_budget_bytes : Z;
  observed_trim_epoch : Z
}.

(** What the threads share: the central cache, the telemetry, the request word. *)
Record Globals (W : Type) := mkGlobals {
  gl_central : CentralCache W;
  gl_stats : ThreadCacheStats -> Z;
  gl_trim_request : Z
}.
Arguments mkGlobals {W} _ _ _.
Arguments gl_central {W} _.
Arguments gl_stats {W} _ _.
Arguments gl_trim_request {W} _.

Definition kDefaultCacheBudgetBytes : Z := 2 * 1024 * 1024.
Definition kDefaultTrimTargetBytes : Z := kDefaultCacheBudgetBytes / 2.

Definition upd_free_list (f : Z -> FreeList) (idx : Z) (fl : FreeList) : Z -> FreeList :=
  fun j => if decide (j = idx) then fl else f j.
Definition with_list (t : ThreadCache) (idx : Z) (fl : FreeList) : ThreadCache :=
  mkTC (upd_free_list (free_lists t) idx fl) (reserved_quota_bytes t) (cache_budget_bytes t) (observed_trim_epoch t).
Definition with_reserved (t : ThreadCache) (n : Z) : ThreadCache :=
  mkTC (free_lists t) n (cache_budget_bytes t) (observed_trim_epoch t).
Definition with_epoch (t : ThreadCache) (e : Z) : ThreadCache :=
  mkTC (free_lists t) (reserved_quota_bytes t) (cache_budget_bytes t) e.

(** [for (i = 0; i < kNumSizeClasses; ++i) total += f(i)] *)
Definition sum_loop (f : Z -> Z) : Z :=
  fold_left (fun total i => u64 (total + u64 (f i))) (seqZ 0 kNumSizeClasses) 0.

Definition InitialReservedQuotaBytes : Z := sum_loop Size.

Section Ops.
Context `{Build} `{StaticLayout} `{CentralLayout} {W : Type} `{Backing W}.
Implicit Types (t : ThreadCache) (g : Globals W).

Definition with_central g (s : CentralCache W) : Globals W := mkGlobals s (gl_stats g) (gl_trim_request g).
Definition central_mem g : mem := cc_mem (gl_central g).
Definition with_words g (m : mem) : Globals W := with_central g (with_mem (gl_central g) m).
(** [g_thread_cache_stats.c.fetch_add(n)]; [fetch_sub] adds [- n]. *)
Definition tc_add (c : ThreadCacheStats) (n : Z) g : Globals W :=
  mkGlobals (gl_central g) (fun c' => if decide (c' = c) then u64 (gl_stats g c + n) else gl_stats g c')
    (gl_trim_request g).

Definition TrimTargetForMode (mode : ThreadCacheTrimMode) : Z :=
  match mode with kRelease => 0 | kReuse => kDefaultTrimTargetBytes end.

Definition ThreadCache_new (budget : Z) g : ThreadCache * Globals W :=
  let reserved := InitialReservedQuotaBytes in
  (mkTC (fun _ => FreeList_new) reserved (Z.max budget reserved) (Z.shiftr (gl_trim_request g) 1),
   tc_add stat_reserved_quota_bytes reserved g).

(** [~ThreadCache]: the loop exists in debug builds only. *)
Definition ThreadCache_destroy t g : outcome (Globals W) :=
  _ ← (if debug_build
       then for_range 0 kNumSizeClasses
              (fun i _ => AM_CHECK (fl_empty (free_lists t i)) "free_lists_[i].empty()") tt
       else Ok tt);
  Ok (tc_add stat_reserved_quota_bytes (- reserved_quota_bytes t) g).

Definition CachedBytesSnapshot t : Z := sum_loop (fun i => fl_size (free_lists t i) * Size i).

Definition CanSetQuota t (idx next_max_size : Z) : bool :=
  let cur_max_size := fl_max_size (free_lists t idx) in
  if next_max_size <=? cur_max_size then true
  else u64 (u64 (next_max_size - cur_max_size) * Size idx) <=? u64 (cache_budget_bytes t - reserved_quota_bytes t).

Definition SetQuota t g (idx new_max_size : Z) : outcome (ThreadCache * Globals W) :=
  let list := free_lists t idx in
  let cur_max_size := fl_max_size list in
  if cur_max_size =? new_max_size then Ok (t, g)
  else
    let class_size := Size idx in
    let '(t, g) :=
      if cur_max_size <? new_max_size
      then let delta := u64 (u64 (new_max_size - cur_max_size) * class_size) in
           (with_reserved t (u64 (reserved_quota_bytes t + delta)), tc_add stat_reserved_quota_bytes delta g)
      else let delta := u64 (u64 (cur_max_size - new_max_size) * class_size) in
           (with_reserved t (u64 (reserved_quota_bytes t - delta)), tc_add stat_reserved_quota_bytes (- delta) g) in
    list ← set_max_size list new_max_size;
    Ok (with_list t idx list, g).

Definition set_list_overages t (idx n : Z) : ThreadCache := with_list t idx (set_overages (free_lists t idx) n).

(** ** Trimming *)

(** The compare-exchange of [RequestGlobalTrim], when it succeeds. *)
Definition next_request (observed : Z) (mode : ThreadCacheTrimMode) : Z :=
  let next_epoch := u64 (Z.shiftr observed 1 + 1) in
  Z.lor (u64 (Z.shiftl next_epoch 1)) (mode_value mode).
Definition RequestGlobalTrim g (mode : ThreadCacheTrimMode) : Globals W :=
  mkGlobals (gl_central g) (gl_stats g) (next_request (gl_trim_request g) mode).

(** How many objects of a list of [size] leave, and may leave. *)
Definition trim_evictable (mode : ThreadCacheTrimMode) (size batch_num : Z) : Z :=
  match mode with kReuse => size - Z.min size batch_num | kRelease => size end.
Definition trim_evict_count (cached_bytes target_bytes evictable class_size : Z) : outcome Z :=
  if (target_bytes <? cached_bytes) && (0 <? evictable)
  then
    let excess := cached_bytes - target_bytes in
    requested ← udiv (u64 (u64 (excess + class_size) - 1)) class_size;
    Ok (Z.min evictable requested)
  else Ok 0.

Definition release_mode (mode : ThreadCacheTrimMode) : CentralReleaseMode :=
  match mode with kReuse => kTransferCache | kRelease => kSpanBitmap end.

(** Evicts the coldest [evict_count] objects of a list. *)
Definition trim_evict t g (mode : ThreadCacheTrimMode) (idx class_size evict_count cached_bytes : Z)
    : outcome (ThreadCache * Globals W * Z) :=
  if 0 <? evict_count
  then
    '(batch, list, m) ← PopBatchTail (central_mem g) (free_lists t idx) evict_count idx;
    let evicted_bytes := u64 (ob_count batch * class_size) in
    let g := tc_add trimmed_bytes evicted_bytes (with_words g m) in
    s ← ReleaseBatch (gl_central g) batch (release_mode mode);
    Ok (with_list t idx list, with_central g s, u64 (cached_bytes - evicted_bytes))
  else Ok (t, g, cached_bytes).

(** Retracts the quota towards what is left; a trim never grows it. *)
Definition trim_quota t g (mode : ThreadCacheTrimMode) (idx batch_num : Z) : outcome (ThreadCache * Globals W) :=
  let list := free_lists t idx in
  match mode with
  | kRelease =>
      let contracted := Z.max 1 (fl_size list) in
      '(t, g) ← SetQuota t g idx (Z.min (fl_max_size list) contracted);
      Ok (set_list_overages t idx 0, g)
  | kReuse =>
      if batch_num <? fl_max_size list
      then
        let contracted := Z.max batch_num (fl_size list) in
        '(t, g) ← SetQuota t g idx (Z.min (fl_max_size list) contracted);
        Ok (set_list_overages t idx 0, g)
      else Ok (t, g)
  end.

(** One round of the loop of [Trim]. *)
Definition trim_class t g (mode : ThreadCacheTrimMode) (target_bytes idx cached_bytes : Z)
    : outcome (ThreadCache * Globals W * Z) :=
  let class_size := Size idx in
  let batch_num := CalculateBatchSize class_size in
  let evictable := trim_evictable mode (fl_size (free_lists t idx)) batch_num in
  evict_count ← trim_evict_count cached_bytes target_bytes evictable class_size;
  '(t, g, cached_bytes) ← trim_evict t g mode idx class_size evict_count cached_bytes;
  '(t, g) ← trim_quota t g mode idx batch_num;
  Ok (t, g, cached_bytes).

(** The classes [n - 1] down to 0. *)
Fixpoint trim_classes (n : nat) t g (mode : ThreadCacheTrimMode) (target_bytes cached_bytes : Z)
    : outcome (ThreadCache * Globals W) :=
  match n with
  | O => Ok (t, g)
  | S n' =>
      '(t, g, cached_bytes) ← trim_class t g mode target_bytes (Z.of_nat n') cached_bytes;
      trim_classes n' t g mode target_bytes cached_bytes
  end.

Definition Trim t g (mode : ThreadCacheTrimMode) (target_bytes : Z) : outcome (ThreadCache * Globals W) :=
  let cached_bytes := CachedBytesSnapshot t in
  let g := tc_add cached_bytes_observed_at_trim cached_bytes (tc_add trim_count 1 g) in
  trim_classes (Z.to_nat kNumSizeClasses) t g mode target_bytes cached_bytes.

Definition HandleGlobalTrimRequest t g : outcome (ThreadCache * Globals W) :=
  let request := gl_trim_request g in
  let epoch := Z.shiftr request 1 in
  if epoch =? observed_trim_epoch t then Ok (t, g)
  else
    let mode := mode_of_bit (Z.land request 1) in
    '(t, g) ← Trim t g mode (TrimTargetForMode mode);
    Ok (with_epoch t epoch, g).

(** One round of the loop of [ReleaseAll]. *)
Definition release_list t g (i : Z) : outcome (ThreadCache * Globals W) :=
  '(t, g) ←
    (if fl_empty (free_lists t i) then Ok (t, g)
     else
       '(batch, list, m) ← PopBatch (central_mem g) (free_lists t i) (fl_size (free_lists t i)) i;
       let g := with_words g m in
       s ← ReleaseBatch (gl_central g) batch kTransferCache;
       Ok (with_list t i list, with_central g s));
  '(t, g) ← SetQuota t g i 1;
  Ok (set_list_overages t i 0, g).

Definition ReleaseAll t g : outcome (ThreadCache * Globals W) :=
  for_range 0 kNumSizeClasses (fun i tg => release_list tg.1 tg.2 i) (t, g).

(** ** The slow paths *)

Definition AcceptFetchedBatch t g (expected_idx : Z) (batch : ObjectBatch) : outcome (ThreadCache * Globals W) :=
  _ ← AM_DCHECK (expected_idx <? kNumSizeClasses) "expected_idx < SizeClass::kNumSizeClasses";
  _ ← AM_DCHECK (batch_empty batch || (ob_size_class_idx batch =? expected_idx))
        "batch.empty() || batch.size_class_idx() == expected_idx";
  '(list, m) ← PushBatch (central_mem g) (free_lists t expected_idx) batch;
  Ok (with_list t expected_idx list, with_words g m).

(** [list.Pop()] as the value of the call. *)
Definition pop_list t g (idx : Z) : outcome (Z * ThreadCache * Globals W) :=
  '(ptr, list) ← Pop (central_mem g) (free_lists t idx);
  Ok (ptr, with_list t idx list, g).

Definition FetchFromCentralCache t g (idx : Z) : outcome (Z * ThreadCache * Globals W) :=
  '(t, g) ← HandleGlobalTrimRequest t g;
  _ ← AM_DCHECK (fl_empty (free_lists t idx)) "list.empty()";
  let aligned_size := Size idx in
  let batch_num := CalculateBatchSize aligned_size in
  let fetch_num := Z.min batch_num (fl_max_size (free_lists t idx)) in
  '(batch, s) ← FetchBatch (gl_central g) idx fetch_num;
  let g := with_central g s in
  let fetched := ob_count batch in
  if fetched =? 0 then Ok (0, t, g)
  else
    '(t, g) ← AcceptFetchedBatch t g idx batch;
    if fetched <? fetch_num then pop_list t g idx
    else
      let next_max_size := NextAfterRefill (fl_max_size (free_lists t idx)) batch_num in
      '(t, g) ← (if CanSetQuota t idx next_max_size then SetQuota t g idx next_max_size
                 else Ok (t, tc_add budget_denied_growth 1 g));
      pop_list (set_list_overages t idx 0) g idx.

Definition DeallocateSlowPath t g (idx : Z) : outcome (ThreadCache * Globals W) :=
  '(t, g) ← HandleGlobalTrimRequest t g;
  if fl_size (free_lists t idx) <=? fl_max_size (free_lists t idx) then Ok (t, g)
  else
    let aligned_size := Size idx in
    let batch_num := CalculateBatchSize aligned_size in
    '(batch, list, m) ← PopBatchTail (central_mem g) (free_lists t idx) batch_num idx;
    let '(t, g) := (with_list t idx list, with_words g m) in
    g ← (if batch_empty batch then Ok g
         else s ← ReleaseBatch (gl_central g) batch kTransferCache; Ok (with_central g s));
    let q := NextAfterOverflow (fl_max_size (free_lists t idx)) batch_num (fl_overages (free_lists t idx)) in
    '(t, g) ← SetQuota t g idx (q_max_size q);
    Ok (set_list_overages t idx (q_overages q), g).

(** ** The hot paths *)

Definition Allocate t g (original_size : Z) : outcome (Z * ThreadCache * Globals W) :=
  _ ← AM_DCHECK (original_size <=? MAX_TC_SIZE) "original_size <= SizeConfig::MAX_TC_SIZE";
  let idx := Index original_size in
  if negb (fl_empty (free_lists t idx)) then pop_list t g idx
  else FetchFromCentralCache t g idx.

Definition Deallocate t g (ptr idx : Z) : outcome (ThreadCache * Globals W) :=
  _ ← AM_DCHECK (negb (ptr =? 0)) "ptr != nullptr";
  _ ← AM_HCHECK (idx <? kNumSizeClasses) "class index out of range";
  '(list, m) ← Push (central_mem g) (free_lists t idx) ptr;
  let '(t, g) := (with_list t idx list, with_words g m) in
  if fl_max_size list <? fl_size list then DeallocateSlowPath t g idx
  else Ok (t, g).

Definition GetMaxSizeForTest t (idx : Z) : outcome Z :=
  _ ← AM_DCHECK (idx <? kNumSizeClasses) "idx < free_lists_.size()";
  Ok (fl_max_size (free_lists t idx)).
Definition GetOveragesForTest t (idx : Z) : outcome Z :=
  _ ← AM_DCHECK (idx <? kNumSizeClasses) "idx < free_lists_.size()";
  Ok (fl_overages (free_lists t idx)).
End Ops.
