(* ===== verification/ThreadCacheInv.v ===== *)
(** * The thread cache invariant

    What a thread's free lists hold is held by the thread, from the central
    cache's point of view; the quotas add up to the reservation and stay within
    the budget; a list is at most one object longer than its quota, and that only
    just after a decay.  The steps of the slow paths preserve this. *)
From S2P Require Import Prelude Config SizeClass FreeList Common Span SpanList Backing PageMap PageCache PageCacheInv.
From S2P Require Import CentralCache CentralInv CentralSteps CentralRelease CentralFetch ThreadCache.
Open Scope Z_scope.

(** ** Sums over the classes *)

Definition list_sum (f : Z -> Z) (l : list Z) : Z := foldr (fun i a => f i + a) 0 l.
Definition class_sum (f : Z -> Z) : Z := list_sum f (seqZ 0 kNumSizeClasses).

Lemma list_sum_le f f' l : (forall i, i ∈ l -> f i <= f' i) -> list_sum f l <= list_sum f' l.
Proof.
  induction l as [| i l IH]; intros Hle; [done |]. cbn. assert (f i <= f' i) by (apply Hle; by left).
  assert (list_sum f l <= list_sum f' l) by (apply IH; intros; apply Hle; by right). unfold list_sum in *. lia.
Qed.
Lemma list_sum_ext f f' l : (forall i, i ∈ l -> f i = f' i) -> list_sum f l = list_sum f' l.
Proof. intros Heq. apply Z.le_antisymm; apply list_sum_le; intros i Hi; rewrite Heq by done; lia. Qed.
Lemma list_sum_linear f f' c l : list_sum (fun i => f i + c * f' i) l = list_sum f l + c * list_sum f' l.
Proof. induction l as [| i l IH]; cbn; unfold list_sum in *; lia. Qed.
Lemma list_sum_upd f i v l : NoDup l -> i ∈ l -> list_sum (upd_fun f i v) l = list_sum f l - f i + v.
Proof.
  induction l as [| j l IH]; intros Hnd Hi; [by apply not_elem_of_nil in Hi |]. apply NoDup_cons in Hnd as [Hj Hnd].
  cbn. destruct (decide (j = i)) as [-> | Hne].
  - rewrite upd_fun_eq. assert (list_sum (upd_fun f i v) l = list_sum f l); [| unfold list_sum in *; lia].
    apply list_sum_ext. intros k Hk. apply upd_fun_ne. by intros ->.
  - apply elem_of_cons in Hi as [-> | Hi]; [done |]. rewrite upd_fun_ne by done. specialize (IH Hnd Hi).
    unfold list_sum in *. lia.
Qed.
Lemma list_sum_member f l i : (forall j, j ∈ l -> 0 <= f j) -> i ∈ l -> f i <= list_sum f l.
Proof.
  intros Hf. induction l as [| j l IH]; intros Hi; [by apply not_elem_of_nil in Hi |]. cbn.
  assert (0 <= f j) by (apply Hf; by left).
  assert (0 <= list_sum f l).
  { clear IH Hi. induction l as [| k l IH]; [done |]. cbn. assert (0 <= f k) by (apply Hf; right; by left).
    assert (0 <= list_sum f l); [| unfold list_sum in *; lia]. apply IH. intros n [-> | Hn]%elem_of_cons; apply Hf; [by left |].
    by do 2 right. }
  apply elem_of_cons in Hi as [-> | Hi]; [unfold list_sum in *; lia |].
  assert (f i <= list_sum f l); [| unfold list_sum in *; lia]. apply IH; [| done]. intros k Hk. apply Hf. by right.
Qed.

Lemma elem_of_classes i : i ∈ seqZ 0 kNumSizeClasses <-> is_class i.
Proof. rewrite elem_of_seqZ. unfold is_class. lia. Qed.

Lemma class_sum_le f f' : (forall i, is_class i -> f i <= f' i) -> class_sum f <= class_sum f'.
Proof. intros Hle. apply list_sum_le. intros i Hi. by apply Hle, elem_of_classes. Qed.
Lemma class_sum_ext f f' : (forall i, is_class i -> f i = f' i) -> class_sum f = class_sum f'.
Proof. intros Heq. apply list_sum_ext. intros i Hi. by apply Heq, elem_of_classes. Qed.
Lemma class_sum_upd f f' i v : is_class i -> f' i = v -> (forall j, is_class j -> j <> i -> f' j = f j) ->
  class_sum f' = class_sum f - f i + v.
Proof.
  intros Hi <- Hf. rewrite (class_sum_ext f' (upd_fun f i (f' i))).
  - apply list_sum_upd; [apply NoDup_seqZ | by apply elem_of_classes].
  - intros j Hj. destruct (decide (j = i)) as [-> | Hne]; [by rewrite upd_fun_eq | rewrite upd_fun_ne by done; auto].
Qed.
Lemma class_sum_member f i : (forall j, is_class j -> 0 <= f j) -> is_class i -> f i <= class_sum f.
Proof. intros Hf Hi. apply list_sum_member; [| by apply elem_of_classes]. intros j Hj. by apply Hf, elem_of_classes. Qed.
Lemma class_sum_nonneg f : (forall j, is_class j -> 0 <= f j) -> 0 <= class_sum f.
Proof.
  intros Hf. etransitivity; [| apply (class_sum_member f 0 Hf); split; [lia | by rewrite kNumSizeClasses_val]].
  apply Hf. split; [lia | by rewrite kNumSizeClasses_val].
Qed.

Lemma fold_sum f l acc : (forall i, i ∈ l -> 0 <= f i) -> 0 <= acc -> acc + list_sum f l < W64 ->
  fold_left (fun total i => u64 (total + u64 (f i))) l acc = acc + list_sum f l.
Proof.
  revert acc. induction l as [| i l IH]; intros acc Hf Hacc Hlt; cbn in *; [lia |].
  assert (0 <= f i) by (apply Hf; by left). assert (Hf' : forall j, j ∈ l -> 0 <= f j) by (intros; apply Hf; by right).
  assert (0 <= list_sum f l).
  { destruct l as [| j l']; [done |]. etransitivity; [apply (Hf' j); by left | apply list_sum_member; [done | by left]]. }
  unfold list_sum in *. rewrite (u64_id (f i)), u64_id by lia. rewrite IH by (done || lia). lia.
Qed.
Lemma sum_loop_ok f : (forall i, is_class i -> 0 <= f i) -> class_sum f < W64 -> sum_loop f = class_sum f.
Proof. intros Hf Hlt. unfold sum_loop. rewrite fold_sum; [done | | lia | done]. intros i Hi. by apply Hf, elem_of_classes. Qed.

(** ** Invariants *)

(** The thread's own part of the held objects: [C], per class, most recent first. *)
Definition cached (Hd : held) (C : Z -> list Z) : held := fun i => Hd i ∪ list_to_set (C i).

Section Invariant.
Context {W : Type} `{BackingLaws W} `{StaticLayout} `{CentralLayout}.
Implicit Types (s : CentralCache W) (g : Globals W) (t : ThreadCache) (G : ghost) (V : runs) (Hd : held) (C : Z -> list Z).

Record tc_live t s G C Hd V : Prop := {
  tl_cc : cc_inv s G (cached Hd C) V;
  tl_tidy : tidy G;
  tl_list : forall i, is_class i -> FreeList_rep (cc_mem s) (free_lists t i) (C i);
  tl_apart : forall i x, is_class i -> x ∈ C i -> x ∉ Hd i;
}.

(** [x] is what an operation under way may have added on top. *)
Definition list_slack (fl : FreeList) : Z := if fl_overages fl =? 0 then 1 else 0.
Definition quota_bytes t : Z := class_sum (fun i => fl_max_size (free_lists t i) * Size i).

Record quota_ok t (x : Z -> Z) : Prop := {
  qo_max : forall i, is_class i -> 1 <= fl_max_size (free_lists t i);
  qo_ov : forall i, is_class i -> 0 <= fl_overages (free_lists t i) < kMaxOverages;
  qo_size : forall i, is_class i ->
    0 <= fl_size (free_lists t i) <= fl_max_size (free_lists t i) + list_slack (free_lists t i) + x i;
  qo_reserved : reserved_quota_bytes t = quota_bytes t;
  qo_budget : quota_bytes t <= cache_budget_bytes t <= 2 ^ 62;
}.

Record tc_inv t g (x : Z -> Z) G C Hd V : Prop := {
  ti_live : tc_live t (gl_central g) G C Hd V;
  ti_quota : quota_ok t x;
}.

Definition calm : Z -> Z := fun _ => 0.

(** What an operation may change of the rest: clients see nothing, the telemetry
    follows the reservation. *)
Record moved Hd V t g t' g' : Prop := {
  mv_und : undisturbed Hd V (gl_central g) (gl_central g');
  mv_budget : cache_budget_bytes t' = cache_budget_bytes t;
  mv_request : gl_trim_request g' = gl_trim_request g;
  mv_ledger : u64 (gl_stats g' stat_reserved_quota_bytes - reserved_quota_bytes t') =
    u64 (gl_stats g stat_reserved_quota_bytes - reserved_quota_bytes t);
}.

Lemma moved_refl Hd V t g : moved Hd V t g t g.
Proof. constructor; [apply undisturbed_refl | done | done | done]. Qed.
Lemma moved_trans Hd V t1 g1 t2 g2 t3 g3 : moved Hd V t1 g1 t2 g2 -> moved Hd V t2 g2 t3 g3 -> moved Hd V t1 g1 t3 g3.
Proof. intros [U1 B1 R1 L1] [U2 B2 R2 L2]. constructor; [by eapply undisturbed_trans | congruence ..]. Qed.

Lemma cached_sub Hd C i : Hd i ⊆ cached Hd C i.
Proof. apply union_subseteq_l. Qed.
Lemma cached_in Hd C i x : x ∈ C i -> x ∈ cached Hd C i.
Proof. intros Hx. apply elem_of_union_r. by apply elem_of_list_to_set. Qed.

(** ** Facts *)

Lemma tl_size t s G C Hd V i : tc_live t s G C Hd V -> is_class i -> fl_size (free_lists t i) = Z.of_nat (length (C i)).
Proof. intros Hl Hi. apply (tl_list _ _ _ _ _ _ Hl i Hi). Qed.
Lemma tl_nodup t s G C Hd V i : tc_live t s G C Hd V -> is_class i -> NoDup (C i).
Proof. intros Hl Hi. eapply seg_NoDup. apply (tl_list _ _ _ _ _ _ Hl i Hi). Qed.

(** A list whose objects are held survives what the central cache does. *)
Lemma held_link_word Hd V i x : is_class i -> x ∈ Hd i -> user_word Hd V x.
Proof.
  intros Hi Hx. left. exists i, x. pose proof (Size_range i Hi) as Hs. unfold ALIGNMENT in Hs. split_and!; [done | done | lia | lia].
Qed.
Lemma list_kept Hd V s s' i fl l : undisturbed Hd V s s' -> is_class i -> (forall x, x ∈ l -> x ∈ Hd i) ->
  FreeList_rep (cc_mem s) fl l -> FreeList_rep (cc_mem s') fl l.
Proof.
  intros Hu Hi Hin (Hseg & Hr). split; [| done]. eapply seg_frame; [| exact Hseg]. intros a Ha. apply Hu.
  eapply held_link_word; [done | by apply Hin].
Qed.

(** Objects of different lists are different addresses. *)
Lemma lists_apart t s G C Hd V i j x : tc_live t s G C Hd V -> is_class i -> is_class j -> i <> j ->
  x ∈ C i -> x ∉ C j.
Proof.
  intros Hl Hi Hj Hne Hx Hy. pose proof (Size_range i Hi) as Hsi. pose proof (Size_range j Hj) as Hsj. unfold ALIGNMENT in *.
  destruct (objects_apart _ _ _ _ (tl_cc _ _ _ _ _ _ Hl) i j x x x Hi Hj) as [E _]; [| | lia | lia | done]; left; by apply cached_in.
Qed.

Lemma same_links_live t t' s G C Hd V :
  (forall i, is_class i -> fl_head (free_lists t' i) = fl_head (free_lists t i) /\
     fl_size (free_lists t' i) = fl_size (free_lists t i) /\ 1 <= fl_max_size (free_lists t' i)) ->
  tc_live t s G C Hd V -> tc_live t' s G C Hd V.
Proof.
  intros Heq [Hcc Htd Hl Hap]. constructor; try done. intros i Hi. destruct (Heq i Hi) as (E1 & E2 & E3).
  destruct (Hl i Hi) as (? & ? & ? & ?). unfold FreeList_rep. rewrite E1, E2. done.
Qed.

(** ** The total *)
Lemma Size_sum : class_sum Size < 2 ^ 20.
Proof. by vm_compute. Qed.

Definition list_bytes t i : Z := fl_size (free_lists t i) * Size i.

Lemma quota_bound t x i : quota_ok t x -> is_class i -> fl_max_size (free_lists t i) * Size i <= quota_bytes t.
Proof.
  intros Hq Hi. apply (class_sum_member (fun i => fl_max_size (free_lists t i) * Size i)); [| done].
  intros j Hj. pose proof (qo_max _ _ Hq j Hj). pose proof (Size_range j Hj). unfold ALIGNMENT in *. nia.
Qed.

Lemma list_bytes_nonneg t x i : quota_ok t x -> is_class i -> 0 <= list_bytes t i.
Proof. intros Hq Hi. pose proof (qo_size _ _ Hq i Hi). pose proof (Size_range i Hi). unfold ALIGNMENT, list_bytes in *. nia. Qed.

Lemma cached_bound t x : quota_ok t x -> (forall i, is_class i -> x i <= 1) ->
  0 <= class_sum (list_bytes t) < 2 ^ 63.
Proof.
  intros Hq Hx. split; [apply class_sum_nonneg; intros; by eapply list_bytes_nonneg |].
  pose proof (qo_budget _ _ Hq) as Hb. pose proof Size_sum as Hs.
  assert (class_sum (list_bytes t) <= quota_bytes t + 2 * class_sum Size).
  { unfold quota_bytes, class_sum. rewrite <- list_sum_linear. apply list_sum_le. intros i Hi%elem_of_classes.
    pose proof (qo_size _ _ Hq i Hi). specialize (Hx i Hi). pose proof (Size_range i Hi). unfold ALIGNMENT, list_bytes, list_slack in *.
    destruct (fl_overages _ =? 0); nia. }
  change (2 ^ 62) with 4611686018427387904 in *. change (2 ^ 20) with 1048576 in *. change (2 ^ 63) with 9223372036854775808. lia.
Qed.

Lemma CachedBytesSnapshot_ok t x : quota_ok t x -> (forall i, is_class i -> x i <= 1) ->
  CachedBytesSnapshot t = class_sum (list_bytes t).
Proof.
  intros Hq Hx. apply sum_loop_ok; [intros; by eapply list_bytes_nonneg |].
  pose proof (cached_bound t x Hq Hx) as Hb. change (2 ^ 63) with 9223372036854775808 in Hb. unfold list_bytes in Hb. lia.
Qed.

(** Batch sizes of the classes. *)
Lemma class_batch i : is_class i -> 2 <= CalculateBatchSize (Size i) <= kMaxBatchSize.
Proof.
  intros Hi. assert (Hall : forallb (fun i => (2 <=? CalculateBatchSize (Size i)) && (CalculateBatchSize (Size i) <=? kMaxBatchSize))
    (seqZ 0 kNumSizeClasses) = true) by (by vm_compute).
  apply (all_classes _ i Hall) in Hi. bool_facts. lia.
Qed.
End Invariant.
