(* ===== verification/ThreadCacheSteps.v ===== *)
(** * Steps of the thread cache

    Quota changes, handing a part of a list to the central cache, and trimming. *)
From S2P Require Import Prelude Config SizeClass FreeList Common Span SpanList Backing PageMap PageCache PageCacheInv.
From S2P Require Import CentralCache CentralInv CentralSteps CentralRelease CentralFetch ThreadCache ThreadCacheInv.
Open Scope Z_scope.

Section Steps.
Context {W : Type} `{BackingLaws W} `{StaticLayout} `{CentralLayout}.
Implicit Types (s : CentralCache W) (g : Globals W) (t : ThreadCache) (G : ghost) (V : runs) (Hd : held) (C : Z -> list Z).

Lemma upd_free_list_eq f i fl : upd_free_list f i fl i = fl.
Proof. unfold upd_free_list. by rewrite decide_True. Qed.
Lemma upd_free_list_ne f i fl j : j <> i -> upd_free_list f i fl j = f j.
Proof. intros Hne. unfold upd_free_list. by rewrite decide_False. Qed.

(** ** Quotas *)

(** The list of a class with another quota and overage count. *)
Definition requota (fl : FreeList) (n o : Z) : FreeList := mkFreeList (fl_head fl) (fl_size fl) n o.

Record requoted t g (idx n o : Z) t' g' : Prop := {
  rq_list : free_lists t' idx = requota (free_lists t idx) n o;
  rq_other : forall j, j <> idx -> free_lists t' j = free_lists t j;
  rq_central : gl_central g' = gl_central g;
  rq_budget : cache_budget_bytes t' = cache_budget_bytes t;
  rq_reserved : reserved_quota_bytes t' = reserved_quota_bytes t + (n - fl_max_size (free_lists t idx)) * Size idx;
  rq_request : gl_trim_request g' = gl_trim_request g;
  rq_ledger : u64 (gl_stats g' stat_reserved_quota_bytes - reserved_quota_bytes t') =
    u64 (gl_stats g stat_reserved_quota_bytes - reserved_quota_bytes t);
}.

Lemma ledger_add a r d : u64 (u64 (a + d) - (r + d)) = u64 (a - r).
Proof. unfold u64. rewrite Zminus_mod_idemp_l. f_equal. lia. Qed.

Lemma SetQuota_ok t g x idx n o :
  quota_ok t x -> is_class idx -> 1 <= n ->
  n <= fl_max_size (free_lists t idx) \/
    (n - fl_max_size (free_lists t idx)) * Size idx <= cache_budget_bytes t - reserved_quota_bytes t ->
  exists t1 g', SetQuota t g idx n = Ok (t1, g') /\ requoted t g idx n o (set_list_overages t1 idx o) g'.
Proof.
  intros Hq Hidx Hn Hfit. pose proof (qo_max _ _ Hq idx Hidx) as Hmax. pose proof (quota_bound t x idx Hq Hidx) as Hqb.
  pose proof (qo_reserved _ _ Hq) as Hres. pose proof (qo_budget _ _ Hq) as Hbud. change (2 ^ 62) with 4611686018427387904 in Hbud.
  pose proof (Size_range idx Hidx) as Hsz. unfold ALIGNMENT in Hsz.
  assert (0 <= quota_bytes t) by (clear - Hqb Hmax Hsz; nia).
  unfold SetQuota, set_list_overages. set (fl := free_lists t idx) in *. destruct (Z.eqb_spec (fl_max_size fl) n) as [E | Hne].
  { do 2 eexists. split; [reflexivity |]. constructor; cbn; try done.
    - rewrite upd_free_list_eq. unfold set_overages, requota. fold fl. by rewrite E.
    - intros j Hj. by apply upd_free_list_ne.
    - fold fl. lia. }
  assert (Hset : set_max_size fl n = Ok (mkFreeList (fl_head fl) (fl_size fl) n (fl_overages fl))).
  { unfold set_max_size. rewrite (proj2 (Z.leb_le 1 n)), AM_DCHECK_true, bind_Ok_l by done. by rewrite Z.max_l by done. }
  assert (Hlst : forall t1 : ThreadCache, upd_free_list (upd_free_list (free_lists t1) idx (mkFreeList (fl_head fl) (fl_size fl) n (fl_overages fl))) idx
     (set_overages (upd_free_list (free_lists t1) idx (mkFreeList (fl_head fl) (fl_size fl) n (fl_overages fl)) idx) o) idx = requota fl n o).
  { intros t1. by rewrite !upd_free_list_eq. }
  destruct (Z.ltb_spec (fl_max_size fl) n) as [Hlt | Hge].
  - destruct Hfit as [? | Hfit]; [lia |].
    assert (Hd : u64 (u64 (n - fl_max_size fl) * Size idx) = (n - fl_max_size fl) * Size idx) by (rewrite (u64_id (n - _)), u64_id; nia).
    rewrite Hd. set (d := (n - fl_max_size fl) * Size idx) in *. rewrite u64_id by nia. rewrite Hset, bind_Ok_l.
    do 2 eexists. split; [reflexivity |]. constructor; cbn; try done.
    + intros j Hj. by rewrite !upd_free_list_ne.
    + apply ledger_add.
  - assert (Hd : u64 (u64 (fl_max_size fl - n) * Size idx) = (fl_max_size fl - n) * Size idx) by (rewrite (u64_id (_ - n)), u64_id; nia).
    rewrite Hd. set (d := (fl_max_size fl - n) * Size idx) in *. rewrite u64_id by nia. rewrite Hset, bind_Ok_l.
    do 2 eexists. split; [reflexivity |]. constructor; cbn; try done.
    + intros j Hj. by rewrite !upd_free_list_ne.
    + subst d. fold fl. lia.
    + rewrite <- (ledger_add (gl_stats g stat_reserved_quota_bytes) (reserved_quota_bytes t) (- d)). done.
Qed.

Lemma requoted_quota t g x idx n o t' g' :
  quota_ok t x -> is_class idx -> 1 <= n -> 0 <= o < kMaxOverages ->
  n <= fl_max_size (free_lists t idx) \/
    (n - fl_max_size (free_lists t idx)) * Size idx <= cache_budget_bytes t - reserved_quota_bytes t ->
  fl_size (free_lists t idx) <= n + (if o =? 0 then 1 else 0) + x idx ->
  requoted t g idx n o t' g' -> quota_ok t' x.
Proof.
  intros Hq Hidx Hn Ho Hfit Hsize [Hl Hoth _ Hb Hr _ _]. pose proof (Size_range idx Hidx) as Hsz. unfold ALIGNMENT in Hsz.
  assert (Hsum : quota_bytes t' = quota_bytes t - fl_max_size (free_lists t idx) * Size idx + n * Size idx).
  { unfold quota_bytes. eapply (class_sum_upd (fun i => fl_max_size (free_lists t i) * Size i)); [done | by rewrite Hl |].
    intros j Hj Hne. by rewrite Hoth. }
  pose proof (qo_reserved _ _ Hq) as Hres. pose proof (qo_budget _ _ Hq) as Hbud. pose proof (quota_bound t x idx Hq Hidx) as Hqb.
  constructor.
  - intros i Hi. destruct (decide (i = idx)) as [-> | Hne]; [by rewrite Hl | rewrite Hoth by done; by apply Hq].
  - intros i Hi. destruct (decide (i = idx)) as [-> | Hne]; [by rewrite Hl | rewrite Hoth by done; by apply (qo_ov _ _ Hq)].
  - intros i Hi. destruct (decide (i = idx)) as [-> | Hne]; [| rewrite Hoth by done; by apply (qo_size _ _ Hq)].
    rewrite Hl. unfold list_slack. cbn. pose proof (qo_size _ _ Hq idx Hidx). lia.
  - rewrite Hsum, Hr. lia.
  - rewrite Hsum, Hb. split; [| lia]. destruct Hfit; nia.
Qed.

Lemma requoted_live t g s idx n o t' g' G C Hd V :
  tc_live t s G C Hd V -> is_class idx -> 1 <= n -> requoted t g idx n o t' g' -> tc_live t' s G C Hd V.
Proof.
  intros Hl Hidx Hn [El Eo _ _ _ _ _]. eapply same_links_live; [| exact Hl]. intros i Hi.
  destruct (decide (i = idx)) as [-> | Hne]; [by rewrite El | rewrite Eo by done]. split; [done |]. split; [done |].
  apply (tl_list _ _ _ _ _ _ Hl i Hi).
Qed.

Lemma requoted_moved t g idx n o t' g' Hd V : requoted t g idx n o t' g' -> moved Hd V t g t' g'.
Proof. intros [_ _ Ec Eb _ Er El]. constructor; [rewrite Ec; apply undisturbed_refl | done | done | done]. Qed.

Lemma moved_stats Hd V t g c n : c <> stat_reserved_quota_bytes -> moved Hd V t g t (tc_add c n g).
Proof. intros Hc. constructor; [apply undisturbed_refl | done | done |]. cbn. by rewrite decide_False by congruence. Qed.

(** ** Giving back a part of a list *)

Lemma give_back_ok t s G C Hd V idx mode fl m' b keep out :
  tc_live t s G C Hd V -> is_class idx -> C idx ≡ₚ keep ++ out -> same_except (C idx) (cc_mem s) m' ->
  FreeList_rep m' fl keep -> batch_rep m' b idx out ->
  exists s' G', ReleaseBatch (with_mem s m') b mode = Ok s' /\
    tc_live (with_list t idx fl) s' G' (upd_fun C idx keep) Hd V /\ undisturbed Hd V s s'.
Proof.
  intros Hl Hidx Hperm Hm Hkeep Hb. pose proof (tl_nodup _ _ _ _ _ _ idx Hl Hidx) as Hnd. rewrite Hperm in Hnd.
  apply NoDup_app in Hnd as (_ & Hko & _). pose proof (tl_cc _ _ _ _ _ _ Hl) as Hi.
  assert (Hin : forall x, x ∈ C idx <-> x ∈ keep \/ x ∈ out) by (intros x; by rewrite Hperm, elem_of_app).
  assert (Hi1 : cc_inv (with_mem s m') G (cached Hd C) V).
  { eapply links_ok; [exact Hi | exact Hm |]. intros x Hx. exists idx. split; [done |]. left. by apply cached_in. }
  destruct (ReleaseBatch_ok (with_mem s m') G _ V idx mode b out Hi1 Hb) as (s' & G' & Hrel & [Hi2 _ Hun2 Htd2 _]).
  { intros x Hx. apply cached_in, Hin. by right. }
  exists s', G'. split; [exact Hrel |].
  assert (Hsub : forall j x, is_class j -> x ∈ (if decide (j = idx) then keep else C j) ->
             x ∈ take_back (cached Hd C) idx (list_to_set out) j).
  { intros j x Hj Hx. unfold take_back. destruct (decide (j = idx)) as [-> | Hne]; [| rewrite upd_fun_ne by done; by apply cached_in].
    rewrite upd_fun_eq, elem_of_difference, elem_of_list_to_set. split; [apply cached_in, Hin; by left | by apply Hko]. }
  assert (Heq : forall j, is_class j -> cached Hd (upd_fun C idx keep) j = take_back (cached Hd C) idx (list_to_set out) j).
  { intros j Hj. unfold take_back. destruct (decide (j = idx)) as [-> | Hne]; [| unfold cached; by rewrite !upd_fun_ne].
    unfold cached. rewrite !upd_fun_eq. apply set_eq. intros x. pose proof (tl_apart _ _ _ _ _ _ Hl idx x Hidx) as Hap.
    rewrite elem_of_difference, !elem_of_union, !elem_of_list_to_set. specialize (Hko x). rewrite !Hin in *. tauto. }
  split.
  - constructor.
    + eapply cc_inv_held; [exact Heq | exact Hi2].
    + apply Htd2, Hl.
    + intros j Hj. cbn [free_lists with_list]. destruct (decide (j = idx)) as [-> | Hne].
      * rewrite upd_free_list_eq, upd_fun_eq. eapply list_kept; [exact Hun2 | exact Hidx | | exact Hkeep].
        intros x Hx. apply (Hsub idx x Hidx). by rewrite decide_True.
      * rewrite upd_free_list_ne, upd_fun_ne by done. eapply list_kept; [exact Hun2 | exact Hj | |].
        -- intros x Hx. apply (Hsub j x Hj). by rewrite decide_False.
        -- cbn [cc_mem with_mem]. eapply FreeList_rep_frame; [exact Hm | | by apply (tl_list _ _ _ _ _ _ Hl)].
           intros x Hx. by eapply (lists_apart t s G C Hd V j idx).
    + intros j x Hj. destruct (decide (j = idx)) as [-> | Hne]; [rewrite upd_fun_eq | rewrite upd_fun_ne by done].
      * intros Hx. apply (tl_apart _ _ _ _ _ _ Hl idx x Hidx), Hin. by left.
      * by apply (tl_apart _ _ _ _ _ _ Hl).
  - eapply undisturbed_trans.
    + eapply (links_undisturbed s); [exact Hi | exact Hm | intros j _; apply cached_sub | reflexivity |].
      intros x Hx. exists idx. split; [done |]. split; [left; by apply cached_in | by apply (tl_apart _ _ _ _ _ _ Hl)].
    + eapply undisturbed_mono; [| reflexivity | exact Hun2]. intros j Hj. rewrite <- Heq by done. apply cached_sub.
Qed.

(** A list with fewer objects and the same quota. *)
Lemma shorter_quota t x idx fl : quota_ok t x -> is_class idx -> same_quota (free_lists t idx) fl ->
  0 <= fl_size fl <= fl_size (free_lists t idx) -> quota_ok (with_list t idx fl) x.
Proof.
  intros Hq Hidx [Em Eo] Hsz.
  assert (Hsum : quota_bytes (with_list t idx fl) = quota_bytes t).
  { apply class_sum_ext. intros i Hi. cbn. destruct (decide (i = idx)) as [-> | Hne]; [by rewrite upd_free_list_eq, Em | by rewrite upd_free_list_ne]. }
  constructor; cbn [free_lists with_list reserved_quota_bytes cache_budget_bytes]; try (rewrite Hsum; apply Hq).
  - intros i Hi. destruct (decide (i = idx)) as [-> | Hne]; [rewrite upd_free_list_eq, Em | rewrite upd_free_list_ne by done]; by apply Hq.
  - intros i Hi. destruct (decide (i = idx)) as [-> | Hne]; [rewrite upd_free_list_eq, Eo | rewrite upd_free_list_ne by done];
      by apply (qo_ov _ _ Hq).
  - intros i Hi. destruct (decide (i = idx)) as [-> | Hne]; [| rewrite upd_free_list_ne by done; by apply (qo_size _ _ Hq)].
    rewrite upd_free_list_eq. unfold list_slack. rewrite Em, Eo. pose proof (qo_size _ _ Hq idx Hidx) as Hs. unfold list_slack in Hs. lia.
Qed.

Lemma list_bytes_upd t idx fl : is_class idx ->
  class_sum (list_bytes (with_list t idx fl)) = class_sum (list_bytes t) - list_bytes t idx + fl_size fl * Size idx.
Proof.
  intros Hidx. apply class_sum_upd; [done | |].
  - unfold list_bytes. cbn. by rewrite upd_free_list_eq.
  - intros j Hj Hne. unfold list_bytes. cbn. by rewrite upd_free_list_ne.
Qed.
End Steps.
