(* ===== verification/ThreadCacheTrim.v ===== *)
(** * Trimming a thread cache

    [Trim], [HandleGlobalTrimRequest] and [ReleaseAll] (thread_cache.cpp). *)
From S2P Require Import Prelude Config SizeClass FreeList Common Span SpanList Backing PageMap PageCache PageCacheInv.
From S2P Require Import CentralCache CentralInv CentralSteps CentralRelease CentralFetch ThreadCache ThreadCacheInv.
From S2P Require Import ThreadCacheSteps.
Open Scope Z_scope.

Section Trim.
Context {W : Type} `{BackingLaws W} `{StaticLayout} `{CentralLayout}.
Implicit Types (s : CentralCache W) (g : Globals W) (t : ThreadCache) (G : ghost) (V : runs) (Hd : held) (C : Z -> list Z).

Lemma trim_evict_ok t g x G C Hd V mode idx n cached_bytes :
  tc_inv t g x G C Hd V -> (forall i, is_class i -> x i <= 1) -> is_class idx ->
  0 <= n <= fl_size (free_lists t idx) -> cached_bytes = class_sum (list_bytes t) ->
  exists t' g' G' k, trim_evict t g mode idx (Size idx) n cached_bytes = Ok (t', g', class_sum (list_bytes t')) /\
    tc_inv t' g' x G' (upd_fun C idx (take k (C idx))) Hd V /\ moved Hd V t g t' g' /\
    class_sum (list_bytes t') = cached_bytes - n * Size idx /\ fl_size (free_lists t' idx) = fl_size (free_lists t idx) - n /\
    same_quota (free_lists t idx) (free_lists t' idx) /\ (forall j, j <> idx -> free_lists t' j = free_lists t j).
Proof.
  intros [Hl Hq] Hx Hidx Hn ->. pose proof (tl_size _ _ _ _ _ _ idx Hl Hidx) as Hsize. unfold trim_evict.
  destruct (Z.ltb_spec 0 n) as [Hpos | Hz].
  2: { assert (n = 0) as -> by lia. exists t, g, G, (length (C idx)). rewrite Z.mul_0_l, !Z.sub_0_r, take_ge by done.
       split; [done |]. split.
       - constructor; [| done]. destruct Hl as [Hcc Htd Hls Hap]. 
         assert (Hid : forall j, upd_fun C idx (C idx) j = C j) by (intros j; unfold upd_fun; by case_decide; subst).
         constructor; [| done | |].
         + eapply cc_inv_held; [| exact Hcc]. intros j _. unfold cached. by rewrite Hid.
         + intros j Hj. rewrite Hid. by apply Hls.
         + intros j y Hj. rewrite Hid. by apply Hap.
       - split; [apply moved_refl | done]. }
  destruct (PopBatchTail_rep (central_mem g) (free_lists t idx) (C idx) n idx) as (b & fl & m' & -> & Hb & Hkeep & Hm & Hquota);
    [by apply Hl | lia | done |].
  set (k := (length (C idx) - Z.to_nat n)%nat) in *. rewrite bind_Ok_l. cbn iota beta zeta.
  destruct (give_back_ok t (gl_central g) G C Hd V idx (release_mode mode) fl m' b (take k (C idx)) (drop k (C idx)) Hl Hidx)
    as (s' & G' & Hrel & Hl' & Hun); [by rewrite take_drop | | done | done |].
  { eapply same_except_mono; [| exact Hm]. intros y Hy. by eapply elem_of_subseteq; [apply subseteq_take |]. }
  cbn [gl_central tc_add with_words with_central]. change (central_mem g) with (cc_mem (gl_central g)). rewrite Hrel, bind_Ok_l.
  assert (Hcount : ob_count b = n).
  { destruct Hb as ((_ & _ & Hc) & _). cbn in Hc. rewrite Hc, length_drop. lia. }
  assert (Hfl : fl_size fl = fl_size (free_lists t idx) - n).
  { destruct Hkeep as (_ & -> & _). rewrite length_take. lia. }
  pose proof (cached_bound t x Hq Hx) as Hcb. change (2 ^ 63) with 9223372036854775808 in Hcb.
  assert (Hone : list_bytes t idx <= class_sum (list_bytes t)).
  { apply class_sum_member; [intros; by eapply list_bytes_nonneg | done]. }
  pose proof (Size_range idx Hidx) as Hsz. unfold ALIGNMENT in Hsz. unfold list_bytes in Hone at 1.
  rewrite Hcount, (u64_id (n * _)) by nia. rewrite u64_id by nia.
  assert (Hsum : class_sum (list_bytes (with_list t idx fl)) = class_sum (list_bytes t) - n * Size idx).
  { rewrite list_bytes_upd by done. unfold list_bytes at 2. rewrite Hfl. lia. }
  eexists _, _, G', k. split; [by rewrite Hsum |]. split.
  { constructor; [exact Hl' |]. apply shorter_quota; [done | done | done | lia]. }
  split.
  { constructor; [exact Hun | done | done |]. cbn. by rewrite decide_False. }
  split; [done |]. cbn [free_lists with_list]. rewrite upd_free_list_eq. split; [done |]. split; [done |].
  intros j Hj. by apply upd_free_list_ne.
Qed.

Lemma trim_quota_ok t g x G C Hd V mode idx :
  tc_inv t g x G C Hd V -> (forall i, is_class i -> 0 <= x i) -> is_class idx ->
  exists t' g', trim_quota t g mode idx (CalculateBatchSize (Size idx)) = Ok (t', g') /\
    tc_inv t' g' x G C Hd V /\ moved Hd V t g t' g' /\ (forall j, fl_size (free_lists t' j) = fl_size (free_lists t j)) /\
    fl_max_size (free_lists t' idx) <= fl_max_size (free_lists t idx) /\
    (mode = kRelease -> fl_max_size (free_lists t' idx) <= Z.max 1 (fl_size (free_lists t' idx))) /\
    (forall j, j <> idx -> free_lists t' j = free_lists t j).
Proof.
  intros [Hl Hq] Hx Hidx. pose proof (qo_max _ _ Hq idx Hidx) as Hmax. pose proof (class_batch idx Hidx) as Hbn.
  pose proof (qo_size _ _ Hq idx Hidx) as Hsize. specialize (Hx idx Hidx). unfold list_slack in Hsize.
  assert (Hgo : forall c, 1 <= c -> fl_size (free_lists t idx) <= c ->
    exists t1 g', SetQuota t g idx (Z.min (fl_max_size (free_lists t idx)) c) = Ok (t1, g') /\
      tc_inv (set_list_overages t1 idx 0) g' x G C Hd V /\ moved Hd V t g (set_list_overages t1 idx 0) g' /\
      (forall j, fl_size (free_lists (set_list_overages t1 idx 0) j) = fl_size (free_lists t j)) /\
      fl_max_size (free_lists (set_list_overages t1 idx 0) idx) = Z.min (fl_max_size (free_lists t idx)) c /\
      (forall j, j <> idx -> free_lists (set_list_overages t1 idx 0) j = free_lists t j)).
  { intros c Hc1 Hc. destruct (SetQuota_ok t g x idx (Z.min (fl_max_size (free_lists t idx)) c) 0 Hq Hidx) as (t1 & g' & Hset & Hrq); [lia | lia |].
    exists t1, g'. split; [done |]. split.
    { constructor; [rewrite (rq_central _ _ _ _ _ _ _ Hrq); eapply requoted_live; [exact Hl | exact Hidx | | exact Hrq]; lia |].
      apply (requoted_quota t g x idx _ _ _ _ Hq Hidx) in Hrq; [exact Hrq | lia | by split | left; lia |]. cbn.
      destruct (fl_overages _ =? 0); lia. }
    split; [by eapply requoted_moved |]. pose proof (rq_list _ _ _ _ _ _ _ Hrq) as El. pose proof (rq_other _ _ _ _ _ _ _ Hrq) as Eo.
    split; [| split; [by rewrite El | exact Eo]].
    intros j. destruct (decide (j = idx)) as [-> | Hne]; [by rewrite El | by rewrite Eo]. }
  unfold trim_quota. destruct mode.
  - destruct (Z.ltb_spec (CalculateBatchSize (Size idx)) (fl_max_size (free_lists t idx))) as [Hlt | Hge].
    + destruct (Hgo (Z.max (CalculateBatchSize (Size idx)) (fl_size (free_lists t idx)))) as (t1 & g' & -> & Hi & Hmv & Hs & Hm & Ho); [lia | lia |].
      rewrite bind_Ok_l. eexists _, _. split; [reflexivity |]. split; [done |]. split; [done |]. split; [done |]. split; [rewrite Hm; lia | done].
    + exists t, g. split; [done |]. split; [done |]. split; [apply moved_refl |]. split; [done |]. split; [lia | done].
  - destruct (Hgo (Z.max 1 (fl_size (free_lists t idx)))) as (t1 & g' & -> & Hi & Hmv & Hs & Hm & Ho); [lia | lia |].
    rewrite bind_Ok_l. eexists _, _. split; [reflexivity |]. split; [done |]. split; [done |]. split; [done |].
    split; [rewrite Hm; lia |]. split; [| done]. intros _. rewrite Hm, Hs. lia.
Qed.

(** Done with a class: below the target, or nothing more may leave. *)
Definition class_done (mode : ThreadCacheTrimMode) t idx : Prop :=
  match mode with
  | kRelease => fl_size (free_lists t idx) = 0
  | kReuse => fl_size (free_lists t idx) <= CalculateBatchSize (Size idx)
  end.

Lemma trim_evict_count_ok mode t x target idx c :
  quota_ok t x -> is_class idx -> 0 <= target -> c = class_sum (list_bytes t) -> 0 <= c < 2 ^ 63 ->
  let evictable := trim_evictable mode (fl_size (free_lists t idx)) (CalculateBatchSize (Size idx)) in
  exists n, trim_evict_count c target evictable (Size idx) = Ok n /\ 0 <= n <= fl_size (free_lists t idx) /\
    (n = evictable \/ c - n * Size idx <= target).
Proof.
  intros Hq Hidx Htg Hc Hc63 ev. pose proof (Size_range idx Hidx) as Hsz. unfold ALIGNMENT, MAX_TC_SIZE in Hsz.
  pose proof (qo_size _ _ Hq idx Hidx) as Hsize. pose proof (class_batch idx Hidx) as Hbn.
  assert (Hev : 0 <= ev <= fl_size (free_lists t idx)) by (subst ev; unfold trim_evictable; destruct mode; lia).
  change (2 ^ 63) with 9223372036854775808 in Hc63. unfold trim_evict_count.
  destruct (Z.ltb_spec target c) as [Hlt | Hge]; cbn [andb]; [| exists 0; split; [done |]; split; [lia |]; right; lia].
  destruct (Z.ltb_spec 0 ev) as [Hpos | Hz]; [| exists 0; split; [done |]; split; [lia |]; left; lia].
  rewrite (u64_id (_ + Size idx)), u64_id by lia. unfold udiv. rewrite (proj2 (Z.eqb_neq _ 0)), bind_Ok_l by lia.
  set (r := (c - target + Size idx - 1) / Size idx).
  pose proof (Z.div_mod (c - target + Size idx - 1) (Size idx) ltac:(lia)) as Hdiv. fold r in Hdiv.
  pose proof (Z.mod_pos_bound (c - target + Size idx - 1) (Size idx) ltac:(lia)).
  assert (0 <= r) by (apply Z.div_pos; lia).
  exists (Z.min ev r). split; [done |]. split; [lia |]. destruct (Z.min_spec ev r) as [[_ ->] | [_ ->]]; [by left | right]. nia.
Qed.

Lemma trim_class_ok t g x G C Hd V mode target idx :
  tc_inv t g x G C Hd V -> (forall i, is_class i -> 0 <= x i <= 1) -> is_class idx -> 0 <= target ->
  exists t' g' G' k,
    trim_class t g mode target idx (class_sum (list_bytes t)) = Ok (t', g', class_sum (list_bytes t')) /\
    tc_inv t' g' x G' (upd_fun C idx (take k (C idx))) Hd V /\ moved Hd V t g t' g' /\
    (forall j, j <> idx -> free_lists t' j = free_lists t j) /\
    fl_max_size (free_lists t' idx) <= fl_max_size (free_lists t idx) /\
    class_sum (list_bytes t') <= class_sum (list_bytes t) /\
    (class_sum (list_bytes t') <= target \/ class_done mode t' idx).
Proof.
  intros Hi Hx Hidx Htg. pose proof (ti_quota _ _ _ _ _ _ _ Hi) as Hq. unfold trim_class.
  pose proof (cached_bound t x Hq ltac:(intros; apply Hx; done)) as Hcb. pose proof (qo_size _ _ Hq idx Hidx) as Hsize.
  destruct (trim_evict_count_ok mode t x target idx _ Hq Hidx Htg eq_refl Hcb) as (n & -> & Hn & Hor). rewrite bind_Ok_l.
  destruct (trim_evict_ok t g x G C Hd V mode idx n _ Hi ltac:(intros; apply Hx; done) Hidx Hn eq_refl) as
    (t1 & g1 & G1 & k & -> & Hi1 & Hmv1 & Hsum1 & Hs1 & [Hm1 _] & Ho1). rewrite bind_Ok_l. cbn iota beta.
  destruct (trim_quota_ok t1 g1 x G1 _ Hd V mode idx Hi1 ltac:(intros; apply Hx; done) Hidx) as
    (t2 & g2 & -> & Hi2 & Hmv2 & Hs2 & Hm2 & _ & Ho2). rewrite bind_Ok_l. cbn iota beta.
  assert (Hbytes : class_sum (list_bytes t2) = class_sum (list_bytes t1)).
  { apply class_sum_ext. intros j _. unfold list_bytes. by rewrite Hs2. }
  pose proof (Size_range idx Hidx) as Hsz. unfold ALIGNMENT in Hsz.
  exists t2, g2, G1, k. split; [by rewrite Hbytes |]. split; [done |]. split; [by eapply moved_trans |].
  split; [intros j Hj; by rewrite Ho2, Ho1 |]. split; [lia |]. rewrite Hbytes. split; [nia |].
  destruct Hor as [Hev | Hle]; [right | left; lia]. unfold class_done. rewrite Hs2, Hs1, Hev. destruct mode; cbn; lia.
Qed.

(** ** The whole scan *)

Definition same_or_shorter C C' : Prop := forall i, is_class i -> exists k, C' i = take k (C i).

Lemma trim_classes_ok n t g x G C Hd V mode target :
  tc_inv t g x G C Hd V -> (forall i, is_class i -> 0 <= x i <= 1) -> Z.of_nat n <= kNumSizeClasses -> 0 <= target ->
  exists t' g' G' C', trim_classes n t g mode target (class_sum (list_bytes t)) = Ok (t', g') /\
    tc_inv t' g' x G' C' Hd V /\ moved Hd V t g t' g' /\ same_or_shorter C C' /\
    (forall j, Z.of_nat n <= j -> free_lists t' j = free_lists t j) /\
    (forall j, fl_max_size (free_lists t' j) <= fl_max_size (free_lists t j)) /\
    class_sum (list_bytes t') <= class_sum (list_bytes t) /\
    (class_sum (list_bytes t') <= target \/ forall j, 0 <= j < Z.of_nat n -> class_done mode t' j).
Proof.
  revert t g G C. induction n as [| n IH]; intros t g G C Hi Hx Hn Htg; cbn [trim_classes].
  { exists t, g, G, C. split; [done |]. split; [done |]. split; [apply moved_refl |].
    split; [intros i _; exists (length (C i)); by rewrite take_ge |]. split_and!; try done. right. lia. }
  set (c := Z.of_nat n) in *. assert (Hc : is_class c) by (split; lia).
  destruct (trim_class_ok t g x G C Hd V mode target c Hi Hx Hc Htg) as (t1 & g1 & G1 & k & -> & Hi1 & Hmv1 & Ho1 & Hm1 & Hle1 & Hor1).
  rewrite bind_Ok_l. cbn iota beta.
  destruct (IH t1 g1 G1 _ Hi1 Hx ltac:(lia) Htg) as (t2 & g2 & G2 & C2 & -> & Hi2 & Hmv2 & Hsh2 & Ho2 & Hm2 & Hle2 & Hor2).
  exists t2, g2, G2, C2. split; [done |]. split; [done |]. split; [by eapply moved_trans |]. split.
  { intros i Hci. destruct (Hsh2 i Hci) as [k2 ->]. destruct (decide (i = c)) as [-> | Hne]; [| rewrite upd_fun_ne by done; by eexists].
    rewrite upd_fun_eq, take_take. by eexists. }
  split; [intros j Hj; rewrite Ho2, Ho1 by lia; done |]. split.
  { intros j. specialize (Hm2 j). destruct (decide (j = c)) as [-> | Hne]; [lia | by rewrite Ho1 in Hm2]. }
  split; [lia |]. destruct Hor2 as [? | Hd2]; [by left |]. destruct Hor1 as [? | Hd1]; [left; lia |]. right.
  intros j Hj. destruct (decide (j = c)) as [-> | Hne]; [| apply Hd2; lia].
  unfold class_done in *. by rewrite Ho2 by lia.
Qed.

(** What a trim achieves. *)
Record trim_post t g x C Hd V (mode : ThreadCacheTrimMode) (target : Z) t' g' G' C' : Prop := {
  tp_inv : tc_inv t' g' x G' C' Hd V;
  tp_moved : moved Hd V t g t' g';
  tp_sub : same_or_shorter C C';
  tp_quota : forall j, fl_max_size (free_lists t' j) <= fl_max_size (free_lists t j);
  tp_bytes : CachedBytesSnapshot t' <= CachedBytesSnapshot t;
  tp_done : match mode with
            | kRelease => CachedBytesSnapshot t' <= target
            | kReuse => CachedBytesSnapshot t' <= target \/
                forall j, is_class j -> fl_size (free_lists t' j) <= CalculateBatchSize (Size j)
            end;
}.

Lemma Trim_ok t g x G C Hd V mode target :
  tc_inv t g x G C Hd V -> (forall i, is_class i -> 0 <= x i <= 1) -> 0 <= target ->
  exists t' g' G' C', Trim t g mode target = Ok (t', g') /\ trim_post t g x C Hd V mode target t' g' G' C'.
Proof.
  intros Hi Hx Htg. unfold Trim. pose proof (ti_quota _ _ _ _ _ _ _ Hi) as Hq.
  assert (Hx1 : forall i, is_class i -> x i <= 1) by (intros; apply Hx; done).
  rewrite (CachedBytesSnapshot_ok t x Hq Hx1).
  set (g1 := tc_add _ _ _). assert (Hmv1 : moved Hd V t g t g1) by (eapply moved_trans; by apply moved_stats).
  assert (Hi1 : tc_inv t g1 x G C Hd V) by (constructor; [apply Hi | done]).
  destruct (trim_classes_ok (Z.to_nat kNumSizeClasses) t g1 x G C Hd V mode target Hi1 Hx) as
    (t2 & g2 & G2 & C2 & -> & Hi2 & Hmv2 & Hsh2 & _ & Hm2 & Hle2 & Hor2); [rewrite kNumSizeClasses_val; lia | done |].
  pose proof (ti_quota _ _ _ _ _ _ _ Hi2) as Hq2.
  exists t2, g2, G2, C2. split; [done |]. constructor; [done | by eapply moved_trans | done | done | |].
  - by rewrite !(CachedBytesSnapshot_ok _ x) by done.
  - rewrite (CachedBytesSnapshot_ok _ x) by done. 
    assert (Hcl : forall j, is_class j -> 0 <= j < Z.of_nat (Z.to_nat kNumSizeClasses)).
    { intros j [? ?]. rewrite kNumSizeClasses_val in *. lia. }
    destruct mode; [destruct Hor2 as [? | Hd2]; [by left | right; intros j Hj; by apply Hd2, Hcl] |].
    destruct Hor2 as [? | Hd2]; [done |]. 
    assert (class_sum (list_bytes t2) <= class_sum (fun _ => 0)); [| assert (class_sum (fun _ => 0) = 0) by (by vm_compute); lia].
    apply class_sum_le. intros j Hj. unfold list_bytes. by rewrite (Hd2 j (Hcl j Hj)).
Qed.

Lemma HandleGlobalTrimRequest_ok t g x G C Hd V :
  tc_inv t g x G C Hd V -> (forall i, is_class i -> 0 <= x i <= 1) ->
  exists t' g' G' C', HandleGlobalTrimRequest t g = Ok (t', g') /\
    tc_inv t' g' x G' C' Hd V /\ moved Hd V t g t' g' /\ same_or_shorter C C' /\
    observed_trim_epoch t' = Z.shiftr (gl_trim_request g) 1.
Proof.
  intros Hi Hx. unfold HandleGlobalTrimRequest. destruct (Z.eqb_spec (Z.shiftr (gl_trim_request g) 1) (observed_trim_epoch t)) as [E | Hne].
  { exists t, g, G, C. split; [done |]. split; [done |]. split; [apply moved_refl |]. split; [| done].
    intros i _. exists (length (C i)). by rewrite take_ge. }
  set (mode := mode_of_bit _). destruct (Trim_ok t g x G C Hd V mode (TrimTargetForMode mode) Hi Hx) as (t' & g' & G' & C' & -> & [[Hl' Hq'] Hmv Hsh _ _ _]).
  { by destruct mode. }
  rewrite bind_Ok_l. eexists _, _, G', C'. split; [reflexivity |]. split.
  - constructor; [| by destruct Hq'; constructor]. destruct Hl'; by constructor.
  - split; [by destruct Hmv; constructor |]. by split.
Qed.
End Trim.
