(* ===== verification/ThreadCacheAlloc.v ===== *)
(** * Allocating from a thread cache

    The hot path pops the free list of the class; the slow path refills it with a
    batch from the central cache and lets its quota grow within the budget. *)
From S2P Require Import Prelude Config SizeClass FreeList Common Span SpanList Backing PageMap PageCache PageCacheInv.
From S2P Require Import CentralCache CentralInv CentralSteps CentralRelease CentralFetch CentralSpec ThreadCache.
From S2P Require Import ThreadCacheInv ThreadCacheSteps ThreadCacheTrim.
Open Scope Z_scope.

(** ** The quota policy *)

Lemma NextAfterRefill_ok cur batch : 1 <= cur < 2 ^ 63 -> 2 <= batch <= kMaxBatchSize ->
  cur <= NextAfterRefill cur batch <= Z.max cur (batch * kMaxQuotaBatches) /\
  (cur < batch -> NextAfterRefill cur batch = Z.min batch (2 * cur)) /\
  (batch <= cur < batch * kMaxQuotaBatches -> cur < NextAfterRefill cur batch).
Proof.
  unfold kMaxBatchSize, kMaxQuotaBatches, NextAfterRefill, kMaxQuotaBatches.
  change (2 ^ 63) with 9223372036854775808. intros Hc Hb. rewrite (u64_id (batch * 8)), (u64_id (cur + Z.max 1 cur)) by lia.
  assert (0 <= batch / 8 <= batch) by (split; [apply Z.div_pos; lia | apply Z.div_le_upper_bound; lia]).
  destruct (Z.ltb_spec cur batch); [lia |]. rewrite u64_id by lia. destruct (Z.ltb_spec cur (batch * 8)); lia.
Qed.

Lemma NextAfterOverflow_ok cur batch ov : 1 <= cur < 2 ^ 63 -> 2 <= batch <= kMaxBatchSize -> 0 <= ov < kMaxOverages ->
  NextAfterOverflow cur batch ov =
    if decide (cur <= batch) then mkQuota cur 0
    else if decide (ov = kMaxOverages - 1) then mkQuota (Z.max (cur - batch) batch) 0 else mkQuota cur (ov + 1).
Proof.
  unfold kMaxBatchSize, NextAfterOverflow, kMaxOverages. change (2 ^ 63) with 9223372036854775808. intros Hc Hb Ho.
  rewrite (u64_id (ov + 1)) by lia.
  destruct (Z.leb_spec cur batch); [by rewrite decide_True | rewrite decide_False by lia].
  destruct (Z.leb_spec 3 (ov + 1)); [rewrite decide_True, u64_id by lia; done | by rewrite decide_False by lia].
Qed.

Section Alloc.
Context {W : Type} `{BackingLaws W} `{StaticLayout} `{CentralLayout}.
Implicit Types (s : CentralCache W) (g : Globals W) (t : ThreadCache) (G : ghost) (V : runs) (Hd : held) (C : Z -> list Z).

Lemma max_bound t x i : quota_ok t x -> is_class i -> 1 <= fl_max_size (free_lists t i) <= 2 ^ 62.
Proof.
  intros Hq Hi. pose proof (qo_max _ _ Hq i Hi). pose proof (quota_bound t x i Hq Hi). pose proof (qo_budget _ _ Hq).
  pose proof (Size_range i Hi). unfold ALIGNMENT in *. nia.
Qed.

(** ** Popping *)

Lemma pop_list_ok t g G C Hd V idx p l :
  tc_live t (gl_central g) G C Hd V -> is_class idx -> C idx = p :: l ->
  exists fl, pop_list t g idx = Ok (p, with_list t idx fl, g) /\ same_quota (free_lists t idx) fl /\
    fl_size fl = fl_size (free_lists t idx) - 1 /\ p <> 0 /\ (p ∉ Hd idx) /\
    tc_live (with_list t idx fl) (gl_central g) G (upd_fun C idx l) (give Hd idx {[p]}) V.
Proof.
  intros Hl Hidx HC. pose proof (tl_list _ _ _ _ _ _ Hl idx Hidx) as Hr. pose proof (tl_nodup _ _ _ _ _ _ idx Hl Hidx) as Hnd.
  pose proof (tl_size _ _ _ _ _ _ idx Hl Hidx) as Hsz. rewrite HC in *. apply NoDup_cons in Hnd as [Hpl Hnd].
  destruct (Pop_rep _ _ _ _ Hr) as (fl & Hpop & Hr' & Hq). exists fl. unfold pop_list, central_mem. rewrite Hpop, bind_Ok_l.
  split; [done |]. split; [done |]. split; [destruct Hr' as (_ & -> & _); rewrite Hsz; cbn [length]; lia |].
  split; [apply Hr |]. split; [apply (tl_apart _ _ _ _ _ _ Hl idx p Hidx); rewrite HC; by left |].
  destruct Hl as [Hcc Htd Hls Hap]. constructor; [| done | |].
  - eapply cc_inv_held; [| exact Hcc]. intros j _. unfold cached, give. destruct (decide (j = idx)) as [-> | Hne]; [| by rewrite !upd_fun_ne].
    rewrite !upd_fun_eq, HC. set_solver.
  - intros j Hj. cbn. destruct (decide (j = idx)) as [-> | Hne]; [by rewrite upd_free_list_eq, upd_fun_eq |].
    rewrite upd_free_list_ne, upd_fun_ne by done. by apply Hls.
  - intros j y Hj. unfold give. destruct (decide (j = idx)) as [-> | Hne]; [| rewrite !upd_fun_ne by done; by apply Hap].
    rewrite !upd_fun_eq. intros Hy [Hin | ->%elem_of_singleton]%elem_of_union; [| done].
    apply (Hap idx y Hidx); [rewrite HC; by right | done].
Qed.

(** The object handed out shares no byte with what others hold. *)
Lemma given_fresh t s G C Hd V idx p w :
  tc_live t s G C (give Hd idx {[p]}) V -> is_class idx -> (p ∉ Hd idx) -> p <= w < p + Size idx -> ~ user_word Hd V w.
Proof.
  intros Hl Hidx Hp Hw Hu. eapply (fresh_object s G (cached Hd C) V idx {[p]} p w); [| exact Hidx | by apply elem_of_singleton | | exact Hw |].
  - eapply cc_inv_held; [| apply Hl]. intros j _. unfold cached, give.
    destruct (decide (j = idx)) as [-> | Hne]; [rewrite !upd_fun_eq | by rewrite !upd_fun_ne]. set_solver.
  - unfold cached. rewrite elem_of_union, elem_of_list_to_set. intros [? | Hin]; [done |].
    apply (tl_apart _ _ _ _ _ _ Hl idx p Hidx Hin). unfold give. rewrite upd_fun_eq. set_solver.
  - eapply user_word_mono; [intros j _; apply cached_sub | reflexivity | exact Hu].
Qed.

(** ** Accepting a fetched batch *)

Lemma accept_ok t g G C Hd V idx b l :
  cc_inv (gl_central g) G (give (cached Hd C) idx (list_to_set l)) V -> tidy G -> is_class idx ->
  (forall i, is_class i -> FreeList_rep (central_mem g) (free_lists t i) (C i)) ->
  (forall i x, is_class i -> x ∈ C i -> x ∉ Hd i) ->
  batch_rep (central_mem g) b idx l -> (forall x, x ∈ l -> x ∉ cached Hd C idx) -> C idx = [] -> Z.of_nat (length l) < W64 ->
  exists fl m', AcceptFetchedBatch t g idx b = Ok (with_list t idx fl, with_words g m') /\
    same_quota (free_lists t idx) fl /\ fl_size fl = Z.of_nat (length l) /\
    tc_live (with_list t idx fl) (with_mem (gl_central g) m') G (upd_fun C idx l) Hd V /\
    undisturbed Hd V (gl_central g) (with_mem (gl_central g) m').
Proof.
  intros Hi Htd Hidx Hls Hap Hb Hnew HC Hlen. pose proof (Hls idx Hidx) as Hr. rewrite HC in Hr.
  unfold AcceptFetchedBatch. rewrite (proj2 (Z.ltb_lt _ _)), AM_DCHECK_true, bind_Ok_l by apply Hidx.
  assert (Hcl : batch_empty b || (ob_size_class_idx b =? idx) = true).
  { rewrite (batch_empty_rep _ _ _ _ Hb). destruct Hb as (_ & _ & ->). destruct l; [done |]. apply orb_true_iff. right. apply Z.eqb_refl. }
  rewrite Hcl, AM_DCHECK_true, bind_Ok_l.
  destruct (PushBatch_rep _ _ b idx l [] Hb Hr) as (fl & m' & -> & Hr' & Hm & Hq); [set_solver | cbn; lia |].
  rewrite app_nil_r in Hr'. rewrite bind_Ok_l. exists fl, m'. split; [done |]. split; [done |]. split; [by destruct Hr' as (_ & -> & _) |].
  assert (Hgl : forall x, x ∈ l -> x ∈ give (cached Hd C) idx (list_to_set l) idx).
  { intros x Hx. unfold give. rewrite upd_fun_eq. apply elem_of_union_r. by apply elem_of_list_to_set. }
  split.
  - constructor; [| done | |].
    + eapply cc_inv_held; [| eapply links_ok; [exact Hi | exact Hm |]].
      * intros j _. unfold cached, give. destruct (decide (j = idx)) as [-> | Hne]; [rewrite !upd_fun_eq, HC | by rewrite !upd_fun_ne].
        set_solver.
      * intros x Hx. exists idx. split; [done |]. left. by apply Hgl.
    + intros j Hj. cbn. destruct (decide (j = idx)) as [-> | Hne]; [by rewrite upd_free_list_eq, upd_fun_eq |].
      rewrite upd_free_list_ne, upd_fun_ne by done. eapply FreeList_rep_frame; [exact Hm | | by apply Hls].
      intros x Hx Hxl. pose proof (Size_range j Hj) as Hsj. pose proof (Size_range idx Hidx) as Hsi. unfold ALIGNMENT in *.
      destruct (objects_apart _ _ _ _ Hi j idx x x x Hj Hidx) as [E _]; [| | lia | lia | done]; left; [| by apply Hgl].
      apply give_sub. by apply cached_in.
    + intros j x Hj. destruct (decide (j = idx)) as [-> | Hne]; [| rewrite upd_fun_ne by done; by apply Hap].
      rewrite upd_fun_eq. intros Hx Hin. apply (Hnew x Hx). by apply cached_sub.
  - eapply (links_undisturbed (gl_central g)); [exact Hi | exact Hm | | reflexivity |].
    + intros j _. etransitivity; [apply cached_sub | apply give_sub].
    + intros x Hx. exists idx. split; [done |]. split; [left; by apply Hgl |]. intros Hin. apply (Hnew x Hx). by apply cached_sub.
Qed.

(** ** The refill *)

(** What an allocation of class [idx] returns. *)
Record allocated t g Hd V (idx p : Z) t' g' G' C' : Prop := {
  al_moved : moved Hd V t g t' g';
  al_ok : p = 0 /\ tc_inv t' g' calm G' C' Hd V /\
            (exists q q', AllocSpan (W := W) q (GetMovePageNum (Size idx)) = Ok (0, q')) \/
          p <> 0 /\ (p ∉ Hd idx) /\ tc_inv t' g' calm G' C' (give Hd idx {[p]}) V;
}.

Lemma allocated_trans t g t1 g1 Hd V idx p t' g' G' C' :
  moved Hd V t g t1 g1 -> allocated t1 g1 Hd V idx p t' g' G' C' -> allocated t g Hd V idx p t' g' G' C'.
Proof. intros Hm [Hm2 Hok]. constructor; [by eapply moved_trans | done]. Qed.

(** Popping what is there. *)
Lemma pop_allocated t g G C Hd V idx p l :
  tc_inv t g calm G C Hd V -> is_class idx -> C idx = p :: l ->
  exists t', pop_list t g idx = Ok (p, t', g) /\ allocated t g Hd V idx p t' g G (upd_fun C idx l).
Proof.
  intros [Hl Hq] Hidx HC. destruct (pop_list_ok t g G C Hd V idx p l Hl Hidx HC) as (fl & Hpop & Hquota & Hsz & Hnz & Hnew & Hl').
  eexists. split; [exact Hpop |]. constructor; [by constructor |]. right. split; [done |]. split; [done |].
  constructor; [exact Hl' |]. apply shorter_quota; [done | done | done |].
  pose proof (tl_size _ _ _ _ _ _ idx Hl Hidx) as E. rewrite HC in E. cbn [length] in E. lia.
Qed.

(** The quota step after a full refill. *)
Lemma grow_quota_ok t g x idx batch :
  quota_ok t x -> is_class idx -> 2 <= batch <= kMaxBatchSize -> 0 <= x idx ->
  fl_size (free_lists t idx) <= fl_max_size (free_lists t idx) ->
  exists t1 g1 n, (if CanSetQuota t idx (NextAfterRefill (fl_max_size (free_lists t idx)) batch)
                   then SetQuota t g idx (NextAfterRefill (fl_max_size (free_lists t idx)) batch)
                   else Ok (t, tc_add budget_denied_growth 1 g)) = Ok (t1, g1) /\
    1 <= n /\ requoted t g idx n 0 (set_list_overages t1 idx 0) g1 /\ quota_ok (set_list_overages t1 idx 0) x.
Proof.
  intros Hq Hidx Hb Hx Hsz. pose proof (max_bound t x idx Hq Hidx) as Hmax. set (cur := fl_max_size (free_lists t idx)) in *.
  destruct (NextAfterRefill_ok cur batch) as ([Hge Hle] & _ & _); [change (2 ^ 62) with 4611686018427387904 in Hmax; lia | done |].
  set (n := NextAfterRefill cur batch) in *. pose proof (Size_range idx Hidx) as Hs. unfold ALIGNMENT, MAX_TC_SIZE in Hs.
  pose proof (qo_budget _ _ Hq) as Hbud. pose proof (qo_reserved _ _ Hq) as Hres.
  pose proof (quota_bound t x idx Hq Hidx) as Hqb. fold cur in Hqb.
  change (2 ^ 62) with 4611686018427387904 in *. unfold kMaxBatchSize, kMaxQuotaBatches in *.
  assert (Hfin : forall m, 1 <= m -> cur <= m ->
    m <= cur \/ (m - cur) * Size idx <= cache_budget_bytes t - reserved_quota_bytes t -> 
    exists t1 g1, SetQuota t g idx m = Ok (t1, g1) /\ requoted t g idx m 0 (set_list_overages t1 idx 0) g1 /\
      quota_ok (set_list_overages t1 idx 0) x).
  { intros m Hm1 Hmc Hfit. destruct (SetQuota_ok t g x idx m 0 Hq Hidx Hm1 Hfit) as (t1 & g1 & Hset & Hrq).
    exists t1, g1. split; [done |]. split; [done |].
    apply (requoted_quota t g x idx _ _ _ _ Hq Hidx) in Hrq; [exact Hrq | done | by split | done |]. cbn. lia. }
  unfold CanSetQuota. fold cur. destruct (Z.leb_spec n cur) as [Hnc | Hnc].
  { destruct (Hfin n) as (t1 & g1 & Hset & Hrq & Hok); [lia | done | by left |]. exists t1, g1, n. split; [done |]. split; [lia | done]. }
  rewrite (u64_id (n - cur)), (u64_id (_ * _)), u64_id by nia.
  destruct (Z.leb_spec ((n - cur) * Size idx) (cache_budget_bytes t - reserved_quota_bytes t)) as [Hfit | Hno].
  { destruct (Hfin n) as (t1 & g1 & Hset & Hrq & Hok); [lia | done | by right |]. exists t1, g1, n. split; [done |]. split; [lia | done]. }
  destruct (Hfin cur) as (t1 & g1 & Hset & Hrq & Hok); [lia | lia | left; lia |].
  unfold SetQuota in Hset. fold cur in Hset. rewrite Z.eqb_refl in Hset. injection Hset as <- <-.
  eexists _, _, cur. split; [done |]. split; [lia |]. split; [| done].
  destruct Hrq as [R1 R2 R3 R4 R5 R6 R7]. by constructor.
Qed.

Lemma FetchFromCentralCache_ok t g G C Hd V idx :
  tc_inv t g calm G C Hd V -> is_class idx -> C idx = [] ->
  exists p t' g' G' C', FetchFromCentralCache t g idx = Ok (p, t', g') /\ allocated t g Hd V idx p t' g' G' C'.
Proof.
  intros Hi Hidx HC. unfold FetchFromCentralCache.
  destruct (HandleGlobalTrimRequest_ok t g calm G C Hd V Hi) as (t1 & g1 & G1 & C1 & -> & Hi1 & Hmv1 & Hsh1 & _); [done |].
  rewrite bind_Ok_l. cbn iota beta. assert (HC1 : C1 idx = []) by (destruct (Hsh1 idx Hidx) as [k ->]; by rewrite HC, take_nil).
  destruct Hi1 as [Hl1 Hq1]. pose proof (tl_list _ _ _ _ _ _ Hl1 idx Hidx) as Hr1. rewrite HC1 in Hr1.
  rewrite (fl_empty_rep _ _ _ Hr1), AM_DCHECK_true, bind_Ok_l. set (batch := CalculateBatchSize (Size idx)).
  pose proof (class_batch idx Hidx) as Hbat. fold batch in Hbat. pose proof (max_bound t1 _ idx Hq1 Hidx) as Hmax.
  set (n := Z.min batch (fl_max_size (free_lists t1 idx))) in *.
  destruct (FetchBatch_ok (gl_central g1) G1 (cached Hd C1) V idx n) as (b & s2 & G2 & l & -> & [Hi2 Hb _ Hnew Hlen Hun2 Ht2 Hshort]);
    [apply Hl1 | apply Hl1 | done | lia |].
  rewrite bind_Ok_l. cbn iota beta. set (g2 := with_central g1 s2).
  assert (Hcount : ob_count b = Z.of_nat (length l)) by (destruct Hb as ((_ & _ & Hc) & _); exact Hc).
  assert (Hun2' : undisturbed Hd V (gl_central g1) s2) by (eapply undisturbed_mono; [intros j _; apply cached_sub | reflexivity | exact Hun2]).
  assert (Hmv2 : moved Hd V t1 g1 t1 g2) by by constructor.
  assert (Hls2 : forall i, is_class i -> FreeList_rep (central_mem g2) (free_lists t1 i) (C1 i)).
  { intros i Hci. eapply list_kept; [exact Hun2 | exact Hci | | by apply Hl1]. intros x Hx. by apply cached_in. }
  rewrite Hcount. destruct (Z.eqb_spec (Z.of_nat (length l)) 0) as [E | E].
  { destruct l; [| cbn in E; lia]. exists 0, t1, g2, G2, C1. split; [done |].
    constructor; [by eapply moved_trans |]. left. split; [done |]. split.
    - constructor; [| done]. constructor; [| done | exact Hls2 | by apply Hl1].
      eapply cc_inv_held; [| exact Hi2]. intros j _. unfold give, upd_fun. case_decide; subst; set_solver.
    - destruct Hshort as [Hs | Hs]; [cbn in Hs; lia | done]. }
  destruct (accept_ok t1 g2 G2 C1 Hd V idx b l Hi2 Ht2 Hidx Hls2) as (fl & m' & -> & Hquota & Hsz & Hl3 & Hun3);
    [by apply Hl1 | done | done | done | change (2 ^ 62) with 4611686018427387904 in *; lia |].
  rewrite bind_Ok_l. cbn iota beta. set (t3 := with_list t1 idx fl) in *. set (g3 := with_words g2 m').
  assert (Hq3 : quota_ok t3 calm).
  { destruct Hquota as [Em Eo]. destruct Hq1 as [Q1 Q2 Q3 Q4 Q5].
    assert (Hsum : quota_bytes t3 = quota_bytes t1).
    { apply class_sum_ext. intros i Hci. subst t3. cbn. destruct (decide (i = idx)) as [-> | Hne]; [by rewrite upd_free_list_eq, Em | by rewrite upd_free_list_ne]. }
    constructor; subst t3; cbn [free_lists with_list reserved_quota_bytes cache_budget_bytes]; rewrite ?Hsum; try done; intros i Hci.
    all: destruct (decide (i = idx)) as [-> | Hne]; [rewrite upd_free_list_eq; unfold list_slack; rewrite ?Em, ?Eo | rewrite upd_free_list_ne by done]; auto.
    rewrite Hsz. unfold calm. case_cmp; lia. }
  assert (Hmv3 : moved Hd V t g t3 g3).
  { eapply moved_trans; [exact Hmv1 |]. eapply moved_trans; [exact Hmv2 |]. by constructor. }
  assert (Hmx3 : fl_max_size (free_lists t3 idx) = fl_max_size (free_lists t1 idx)) by (subst t3; cbn; rewrite upd_free_list_eq; apply Hquota).
  assert (Hsz3 : fl_size (free_lists t3 idx) = Z.of_nat (length l)) by (subst t3; cbn; by rewrite upd_free_list_eq).
  destruct l as [| p l]; [done |].
  assert (HC3 : upd_fun C1 idx (p :: l) idx = p :: l) by apply upd_fun_eq.
  destruct (Z.ltb_spec (Z.of_nat (length (p :: l))) n) as [Hlt | Hge].
  - destruct (pop_allocated t3 g3 G2 _ Hd V idx p l ltac:(by constructor) Hidx HC3) as (t4 & -> & Hal).
    eexists _, _, _, _, _. split; [done |]. by eapply allocated_trans.
  - destruct (grow_quota_ok t3 g3 calm idx batch Hq3 Hidx Hbat) as (t4 & g4 & k & -> & Hk & Hrq & Hq4); [done | lia |].
    rewrite bind_Ok_l. cbn iota beta.
    destruct (pop_allocated (set_list_overages t4 idx 0) g4 G2 (upd_fun C1 idx (p :: l)) Hd V idx p l) as (t5 & -> & Hal); [| done | exact HC3 |].
    { constructor; [| done]. rewrite (rq_central _ _ _ _ _ _ _ Hrq). eapply requoted_live; [exact Hl3 | exact Hidx | | exact Hrq]. done. }
    eexists _, _, _, _, _. split; [done |]. eapply allocated_trans; [| exact Hal].
    eapply moved_trans; [exact Hmv3 |]. by eapply requoted_moved.
Qed.

Lemma Allocate_ok t g G C Hd V size :
  tc_inv t g calm G C Hd V -> 0 <= size <= MAX_TC_SIZE ->
  exists p t' g' G' C', Allocate t g size = Ok (p, t', g') /\ allocated t g Hd V (Index size) p t' g' G' C'.
Proof.
  intros Hi Hs. unfold Allocate. rewrite (proj2 (Z.leb_le _ _)), AM_DCHECK_true, bind_Ok_l by lia.
  set (idx := Index size). assert (Hidx : is_class idx) by (apply Index_range; lia).
  pose proof (tl_list _ _ _ _ _ _ (ti_live _ _ _ _ _ _ _ Hi) idx Hidx) as Hr. rewrite (fl_empty_rep _ _ _ Hr).
  destruct (C idx) as [| p l] eqn:HC; cbn.
  - by apply (FetchFromCentralCache_ok t g G C).
  - destruct (pop_allocated t g G C Hd V idx p l Hi Hidx HC) as (t' & Heq & Hal). rewrite Heq. by eexists _, _, _, _, _.
Qed.
End Alloc.
