(* ===== verification/ThreadCacheFree.v ===== *)
(** * Giving objects back to a thread cache

    The hot path pushes the object; past the quota, the slow path gives the oldest
    batch to the central cache and may let the quota decay.  [ReleaseAll] and the
    life cycle of a cache are here too. *)
From S2P Require Import Prelude Config SizeClass FreeList Common Span SpanList Backing PageMap PageCache PageCacheInv.
From S2P Require Import CentralCache CentralInv CentralSteps CentralRelease CentralFetch CentralSpec ThreadCache.
From S2P Require Import ThreadCacheInv ThreadCacheSteps ThreadCacheTrim ThreadCacheAlloc.
Open Scope Z_scope.

Section Free.
Context {W : Type} `{BackingLaws W} `{StaticLayout} `{CentralLayout}.
Implicit Types (s : CentralCache W) (g : Globals W) (t : ThreadCache) (G : ghost) (V : runs) (Hd : held) (C : Z -> list Z).

(** One class may be one object over. *)
Definition one_over (idx : Z) : Z -> Z := fun i => if decide (i = idx) then 1 else 0.

Lemma one_over_bounds idx i : is_class i -> 0 <= one_over idx i <= 1.
Proof. intros _. unfold one_over. case_decide; lia. Qed.

Lemma quota_calm t x : quota_ok t x ->
  (forall i, is_class i -> fl_size (free_lists t i) <= fl_max_size (free_lists t i) + list_slack (free_lists t i)) ->
  quota_ok t calm.
Proof.
  intros [Q1 Q2 Q3 Q4 Q5] Hs. constructor; try done. intros i Hi. pose proof (Q3 i Hi). specialize (Hs i Hi). unfold calm. lia.
Qed.

(** ** Overflow *)

(** The new limits of a list that gave a batch back. *)
Lemma overflow_limits cur batch ov size :
  1 <= cur <= 2 ^ 62 -> 2 <= batch <= kMaxBatchSize -> 0 <= ov < kMaxOverages ->
  size = 0 \/ size + batch <= cur + (if ov =? 0 then 1 else 0) + 1 ->
  let q := NextAfterOverflow cur batch ov in
  1 <= q_max_size q <= cur /\ 0 <= q_overages q < kMaxOverages /\
  size <= q_max_size q + (if q_overages q =? 0 then 1 else 0).
Proof.
  change (2 ^ 62) with 4611686018427387904. intros Hc Hb Ho Hs q. subst q.
  rewrite NextAfterOverflow_ok; [| change (2 ^ 63) with 9223372036854775808; lia | done | done].
  unfold kMaxOverages in *. destruct (decide (cur <= batch)); cbn [q_max_size q_overages].
  { change (0 =? 0) with true. cbn iota. unfold kMaxBatchSize in *. destruct (ov =? 0); lia. }
  destruct (decide (ov = 3 - 1)) as [E | E]; cbn [q_max_size q_overages].
  - rewrite E in Hs. change (3 - 1 =? 0) with false in Hs. change (0 =? 0) with true. cbn iota in *. lia.
  - destruct (Z.eqb_spec (ov + 1) 0); destruct (ov =? 0); lia.
Qed.

Lemma DeallocateSlowPath_ok t g G C Hd V idx :
  tc_inv t g (one_over idx) G C Hd V -> is_class idx ->
  exists t' g' G' C', DeallocateSlowPath t g idx = Ok (t', g') /\ tc_inv t' g' calm G' C' Hd V /\
    moved Hd V t g t' g' /\ same_or_shorter C C'.
Proof.
  intros Hi Hidx. unfold DeallocateSlowPath.
  destruct (HandleGlobalTrimRequest_ok t g _ G C Hd V Hi (fun i => one_over_bounds idx i)) as (t1 & g1 & G1 & C1 & -> & [Hl1 Hq1] & Hmv1 & Hsh1 & _).
  rewrite bind_Ok_l. cbn iota beta. pose proof (class_batch idx Hidx) as Hbat. set (batch := CalculateBatchSize (Size idx)) in *.
  assert (Hone : forall i, is_class i -> i <> idx ->
    fl_size (free_lists t1 i) <= fl_max_size (free_lists t1 i) + list_slack (free_lists t1 i)).
  { intros i Hci Hne. pose proof (qo_size _ _ Hq1 i Hci) as Hs. unfold one_over in Hs. rewrite decide_False in Hs by done. lia. }
  assert (Hslack : 0 <= list_slack (free_lists t1 idx) <= 1) by (unfold list_slack; case_cmp; lia).
  destruct (Z.leb_spec (fl_size (free_lists t1 idx)) (fl_max_size (free_lists t1 idx))) as [Hle | Hgt].
  { exists t1, g1, G1, C1. split; [done |]. split; [| done]. constructor; [done |]. eapply quota_calm; [exact Hq1 |].
    intros i Hci. destruct (decide (i = idx)) as [-> | Hne]; [lia | by apply Hone]. }
  destruct (PopBatchTail_rep (central_mem g1) (free_lists t1 idx) (C1 idx) batch idx) as (b & fl & m' & -> & Hb & Hkeep & Hm & Hquota);
    [by apply Hl1 | lia | done |].
  pose proof (tl_size _ _ _ _ _ _ idx Hl1 Hidx) as Hlen. set (k := (length (C1 idx) - Z.to_nat batch)%nat) in *.
  rewrite bind_Ok_l. cbn iota beta zeta.
  destruct (give_back_ok t1 (gl_central g1) G1 C1 Hd V idx kTransferCache fl m' b (take k (C1 idx)) (drop k (C1 idx)) Hl1 Hidx)
    as (s2 & G2 & Hrel & Hl2 & Hun2); [by rewrite take_drop | | done | done |].
  { eapply same_except_mono; [| exact Hm]. intros y Hy. by eapply elem_of_subseteq; [apply subseteq_take |]. }
  rewrite (batch_empty_rep _ _ _ _ Hb), bool_decide_eq_false_2.
  2: { intros E. apply (f_equal length) in E. rewrite length_drop in E. cbn in E. pose proof (qo_max _ _ Hq1 idx Hidx). lia. }
  cbn [gl_central with_words with_central]. rewrite Hrel, !bind_Ok_l.
  assert (Hfl : fl_size fl = Z.of_nat k). { destruct Hkeep as (_ & -> & _). rewrite length_take. lia. }
  set (t2 := with_list t1 idx fl) in *. set (g2 := with_central (with_words g1 m') s2).
  assert (Hq2 : quota_ok t2 (one_over idx)) by (apply shorter_quota; [done | done | done | lia]).
  assert (Ht2 : free_lists t2 idx = fl) by (subst t2; cbn; by rewrite upd_free_list_eq).
  pose proof (qo_size _ _ Hq1 idx Hidx) as Hsz1. unfold one_over in Hsz1. rewrite decide_True in Hsz1 by done.
  destruct Hquota as [Em Eo]. pose proof (max_bound t2 _ idx Hq2 Hidx) as Hmax. rewrite Ht2 in *.
  assert (Hq2c : quota_ok t2 calm).
  { eapply quota_calm; [exact Hq2 |]. intros i Hci. destruct (decide (i = idx)) as [-> | Hne].
    - rewrite Ht2. unfold list_slack. case_cmp; lia.
    - subst t2. cbn. rewrite upd_free_list_ne by done. by apply Hone. }
  pose proof (qo_ov _ _ Hq2c idx Hidx) as Hov. rewrite Ht2 in Hov.
  pose proof (overflow_limits (fl_max_size fl) batch (fl_overages fl) (fl_size fl) Hmax Hbat Hov) as Hq. cbn zeta in Hq.
  specialize (Hq ltac:(unfold list_slack in *; rewrite Em, Eo; lia)).
  set (q := NextAfterOverflow _ _ _) in *. destruct Hq as (Hqm & Hqo & Hqs).
  destruct (SetQuota_ok t2 g2 calm idx (q_max_size q) (q_overages q) Hq2c Hidx) as (t3 & g3 & Hset & Hrq); [lia | rewrite Ht2; lia |].
  rewrite Hset, bind_Ok_l. exists (set_list_overages t3 idx (q_overages q)), g3, G2, (upd_fun C1 idx (take k (C1 idx))).
  split; [done |]. split.
  - constructor; [rewrite (rq_central _ _ _ _ _ _ _ Hrq); eapply requoted_live; [exact Hl2 | exact Hidx | | exact Hrq]; lia |].
    apply (requoted_quota t2 g2 calm idx _ _ _ _ Hq2c Hidx) in Hrq; [exact Hrq | lia | done | left; rewrite Ht2; lia |].
    rewrite Ht2. unfold calm. lia.
  - split.
    + eapply moved_trans; [exact Hmv1 |]. eapply moved_trans; [| by eapply requoted_moved]. by constructor.
    + intros i Hci. destruct (Hsh1 i Hci) as [j Hj]. destruct (decide (i = idx)) as [-> | Hne].
      * rewrite upd_fun_eq, Hj, take_take. by eexists.
      * rewrite upd_fun_ne by done. by exists j.
Qed.

(** ** Freeing *)

Lemma push_ok t g G C Hd V idx p :
  tc_inv t g calm G C Hd V -> is_class idx -> p ∈ Hd idx ->
  exists fl m', Push (central_mem g) (free_lists t idx) p = Ok (fl, m') /\
    tc_inv (with_list t idx fl) (with_words g m') (one_over idx) G (upd_fun C idx (p :: C idx)) (take_back Hd idx {[p]}) V /\
    undisturbed (take_back Hd idx {[p]}) V (gl_central g) (with_mem (gl_central g) m').
Proof.
  intros [Hl Hq] Hidx Hp. assert (Hnc : p ∉ C idx) by (intros Hin; by apply (tl_apart _ _ _ _ _ _ Hl idx p Hidx)).
  pose proof (tl_cc _ _ _ _ _ _ Hl) as Hi. assert (Hpc : p ∈ cached Hd C idx) by by apply cached_sub.
  destruct (object_word _ _ _ _ Hi idx p Hidx (or_introl Hpc)) as (_ & _ & Hnz & _).
  pose proof (tl_size _ _ _ _ _ _ idx Hl Hidx) as Hsz. pose proof (qo_size _ _ Hq idx Hidx) as Hqs. pose proof (max_bound t _ idx Hq Hidx) as Hmax.
  change (2 ^ 62) with 4611686018427387904 in Hmax. unfold calm in Hqs.
  assert (Hslack : 0 <= list_slack (free_lists t idx) <= 1) by (unfold list_slack; case_cmp; lia).
  destruct (Push_rep (central_mem g) (free_lists t idx) (C idx) p) as (fl & m' & -> & Hr & Hm & [Em Eo]);
    [by apply Hl | done | done | lia |].
  exists fl, m'. split; [done |]. assert (Hfl : fl_size fl = fl_size (free_lists t idx) + 1).
  { destruct Hr as (_ & -> & _). cbn [length]. lia. }
  assert (Hin : forall x, x ∈ [p] -> exists i, is_class i /\ (x ∈ cached Hd C i \/ x ∈ g_T G i)).
  { intros x ->%list_elem_of_singleton. exists idx. split; [done | by left]. }
  split; [constructor; [constructor | constructor] |].
  - cbn. eapply cc_inv_held; [| by eapply links_ok]. intros j _. unfold cached, take_back.
    destruct (decide (j = idx)) as [-> | Hne]; [| by rewrite !upd_fun_ne]. rewrite !upd_fun_eq. cbn.
    apply set_eq. intros x. rewrite !elem_of_union, elem_of_difference, elem_of_singleton, elem_of_list_to_set.
    destruct (decide (x = p)) as [-> | ?]; tauto.
  - apply Hl.
  - intros j Hj. cbn. destruct (decide (j = idx)) as [-> | Hne]; [by rewrite upd_free_list_eq, upd_fun_eq |].
    rewrite upd_free_list_ne, upd_fun_ne by done. eapply FreeList_rep_frame; [exact Hm | | by apply Hl].
    intros x Hx ->%list_elem_of_singleton. pose proof (Size_range j Hj) as Hsj. pose proof (Size_range idx Hidx) as Hsi. unfold ALIGNMENT in *.
    destruct (objects_apart _ _ _ _ Hi j idx p p p Hj Hidx) as [E _]; [left; by apply cached_in | by left | lia | lia | done].
  - intros j x Hj. unfold take_back. destruct (decide (j = idx)) as [-> | Hne]; [| rewrite !upd_fun_ne by done; by apply Hl].
    rewrite !upd_fun_eq. intros [-> | Hx]%elem_of_cons; [set_solver |]. intros [Hin' _]%elem_of_difference.
    by apply (tl_apart _ _ _ _ _ _ Hl idx x Hidx).
  - intros i Hci. cbn. destruct (decide (i = idx)) as [-> | Hne]; [rewrite upd_free_list_eq, Em | rewrite upd_free_list_ne by done]; by apply Hq.
  - intros i Hci. cbn. destruct (decide (i = idx)) as [-> | Hne]; [rewrite upd_free_list_eq, Eo | rewrite upd_free_list_ne by done];
      by apply (qo_ov _ _ Hq).
  - intros i Hci. cbn. unfold one_over. destruct (decide (i = idx)) as [-> | Hne].
    + rewrite upd_free_list_eq. unfold list_slack in *. rewrite Em, Eo. lia.
    + rewrite upd_free_list_ne by done. by apply (qo_size _ _ Hq).
  - cbn. rewrite (qo_reserved _ _ Hq). apply class_sum_ext. intros i Hci. cbn.
    destruct (decide (i = idx)) as [-> | Hne]; [by rewrite upd_free_list_eq, Em | by rewrite upd_free_list_ne].
  - cbn. assert (quota_bytes (with_list t idx fl) = quota_bytes t) as ->; [| apply (qo_budget _ _ Hq)].
    apply class_sum_ext. intros i Hci. cbn. destruct (decide (i = idx)) as [-> | Hne]; [by rewrite upd_free_list_eq, Em | by rewrite upd_free_list_ne].
  - eapply (links_undisturbed (gl_central g)); [exact Hi | exact Hm | | reflexivity |].
    + intros j _. etransitivity; [apply take_back_sub | apply cached_sub].
    + intros x ->%list_elem_of_singleton. exists idx. split; [done |]. split; [by left |]. unfold take_back. rewrite upd_fun_eq. set_solver.
Qed.

Lemma Deallocate_ok t g G C Hd V p idx :
  tc_inv t g calm G C Hd V -> is_class idx -> p ∈ Hd idx ->
  exists t' g' G' C', Deallocate t g p idx = Ok (t', g') /\ tc_inv t' g' calm G' C' (take_back Hd idx {[p]}) V /\
    moved (take_back Hd idx {[p]}) V t g t' g'.
Proof.
  intros Hi Hidx Hp. unfold Deallocate. pose proof (ti_live _ _ _ _ _ _ _ Hi) as Hl.
  destruct (object_word _ _ _ _ (tl_cc _ _ _ _ _ _ Hl) idx p Hidx (or_introl (cached_sub Hd C idx p Hp))) as (_ & _ & Hnz & _).
  rewrite (proj2 (Z.eqb_neq p 0)) by done. cbn [negb]. rewrite AM_DCHECK_true, bind_Ok_l.
  rewrite (proj2 (Z.ltb_lt _ _)), AM_HCHECK_true, bind_Ok_l by apply Hidx.
  destruct (push_ok t g G C Hd V idx p Hi Hidx Hp) as (fl & m' & -> & [Hl1 Hq1] & Hun). rewrite bind_Ok_l. cbn iota beta zeta.
  set (t1 := with_list t idx fl) in *. set (g1 := with_words g m') in *.
  assert (Hmv1 : moved (take_back Hd idx {[p]}) V t g t1 g1) by by constructor.
  assert (Ht1 : free_lists t1 idx = fl) by (subst t1; cbn; by rewrite upd_free_list_eq).
  destruct (Z.ltb_spec (fl_max_size fl) (fl_size fl)) as [Hlt | Hge].
  - destruct (DeallocateSlowPath_ok t1 g1 G _ _ V idx ltac:(by constructor) Hidx) as (t2 & g2 & G2 & C2 & -> & Hi2 & Hmv2 & _).
    eexists _, _, G2, C2. split; [done |]. split; [done |]. by eapply moved_trans.
  - eexists _, _, G, _. split; [done |]. split; [| exact Hmv1]. constructor; [exact Hl1 |]. eapply quota_calm; [exact Hq1 |].
    intros i Hci. destruct (decide (i = idx)) as [-> | Hne]; [rewrite Ht1; unfold list_slack; case_cmp; lia |].
    pose proof (qo_size _ _ Hq1 i Hci) as Hs. unfold one_over in Hs. rewrite decide_False in Hs by done. lia.
Qed.

(** ** Draining *)

Lemma release_list_ok t g G C Hd V i :
  tc_inv t g calm G C Hd V -> is_class i ->
  exists t' g' G', release_list t g i = Ok (t', g') /\ tc_inv t' g' calm G' (upd_fun C i []) Hd V /\ moved Hd V t g t' g' /\
    fl_max_size (free_lists t' i) = 1 /\ fl_overages (free_lists t' i) = 0 /\
    (forall j, j <> i -> free_lists t' j = free_lists t j).
Proof.
  intros [Hl Hq] Hi. unfold release_list. pose proof (tl_list _ _ _ _ _ _ Hl i Hi) as Hr. rewrite (fl_empty_rep _ _ _ Hr).
  pose proof (tl_size _ _ _ _ _ _ i Hl Hi) as Hsz.
  assert (Hpop : exists t1 g1 G1, (if bool_decide (C i = []) then Ok (t, g)
     else '(batch, list, m) ← PopBatch (central_mem g) (free_lists t i) (fl_size (free_lists t i)) i;
          s ← ReleaseBatch (gl_central (with_words g m)) batch kTransferCache;
          Ok (with_list t i list, with_central (with_words g m) s)) = Ok (t1, g1) /\
     tc_inv t1 g1 calm G1 (upd_fun C i []) Hd V /\ moved Hd V t g t1 g1 /\ fl_size (free_lists t1 i) = 0 /\
     (forall j, j <> i -> free_lists t1 j = free_lists t j)).
  { case_bool_decide as E.
    - exists t, g, G. split; [done |]. split; [| split; [apply moved_refl | split; [rewrite Hsz, E; done | done]]].
      assert (Hid : forall j, upd_fun C i [] j = C j) by (intros j; unfold upd_fun; case_decide; by subst).
      constructor; [| done]. destruct Hl as [Hcc Htd Hls Hap]. constructor; [| done | |].
      + eapply cc_inv_held; [| exact Hcc]. intros j _. unfold cached. by rewrite Hid.
      + intros j Hj. rewrite Hid. by apply Hls.
      + intros j y Hj. rewrite Hid. by apply Hap.
    - destruct (PopBatch_rep (central_mem g) (free_lists t i) (C i) (fl_size (free_lists t i)) i Hr Hi) as (b & fl & m' & -> & Hb & Hkeep & Hm & Hquota).
      rewrite Hsz, Nat2Z.id in Hb, Hkeep, Hm. rewrite take_ge in Hb, Hm by lia. rewrite drop_all in Hkeep. rewrite bind_Ok_l. cbn iota beta zeta.
      destruct (give_back_ok t (gl_central g) G C Hd V i kTransferCache fl m' b [] (C i) Hl Hi) as (s' & G' & Hrel & Hl' & Hun);
        [done | done | done | done |].
      cbn [gl_central with_words with_central]. rewrite Hrel, bind_Ok_l.
      assert (Hfl : fl_size fl = 0) by (by destruct Hkeep as (_ & -> & _)).
      eexists _, _, G'. split; [reflexivity |]. split; [constructor; [exact Hl' |]; apply shorter_quota; [done | done | done | lia] |].
      split; [by constructor |]. cbn. rewrite upd_free_list_eq. split; [done |]. intros j Hj. by apply upd_free_list_ne. }
  destruct Hpop as (t1 & g1 & G1 & -> & [Hl1 Hq1] & Hmv1 & Hs1 & Ho1). rewrite bind_Ok_l. cbn iota beta.
  pose proof (qo_max _ _ Hq1 i Hi) as Hmax.
  destruct (SetQuota_ok t1 g1 calm i 1 0 Hq1 Hi) as (t2 & g2 & -> & Hrq); [lia | by left |]. rewrite bind_Ok_l. cbn iota beta.
  exists (set_list_overages t2 i 0), g2, G1. split; [done |]. pose proof Hrq as Hrq'.
  apply (requoted_quota t1 g1 calm i _ _ _ _ Hq1 Hi) in Hrq'; [| lia | by split | by left | rewrite Hs1; by unfold calm].
  split; [constructor; [rewrite (rq_central _ _ _ _ _ _ _ Hrq); eapply requoted_live; [exact Hl1 | exact Hi | | exact Hrq]; lia | exact Hrq'] |].
  split; [eapply moved_trans; [exact Hmv1 | by eapply requoted_moved] |]. rewrite (rq_list _ _ _ _ _ _ _ Hrq). split; [done |]. split; [done |].
  intros j Hj. by rewrite (rq_other _ _ _ _ _ _ _ Hrq), Ho1.
Qed.

(** A drained cache: every list empty, every quota at its floor. *)
Definition drained_cache t : Prop := forall i, is_class i ->
  fl_empty (free_lists t i) = true /\ fl_max_size (free_lists t i) = 1 /\ fl_overages (free_lists t i) = 0.

Lemma ReleaseAll_ok t g G C Hd V :
  tc_inv t g calm G C Hd V ->
  exists t' g' G' C', ReleaseAll t g = Ok (t', g') /\ tc_inv t' g' calm G' C' Hd V /\ moved Hd V t g t' g' /\
    drained_cache t' /\ (forall i, is_class i -> C' i = []).
Proof.
  intros Hi. unfold ReleaseAll.
  destruct (for_range_inv (fun n tg => exists G' C', tc_inv tg.1 tg.2 calm G' C' Hd V /\ moved Hd V t g tg.1 tg.2 /\
      forall i, 0 <= i < n -> C' i = [] /\ fl_max_size (free_lists tg.1 i) = 1 /\ fl_overages (free_lists tg.1 i) = 0)
      0 kNumSizeClasses (fun i tg => release_list tg.1 tg.2 i) (t, g)) as ([t' g'] & -> & G' & C' & Hi' & Hmv & Hd').
  - rewrite kNumSizeClasses_val. lia.
  - exists G, C. split; [done |]. split; [apply moved_refl | lia].
  - intros i [t1 g1] Hic (G1 & C1 & Hi1 & Hmv1 & Hd1). cbn [fst snd] in *.
    destruct (release_list_ok t1 g1 G1 C1 Hd V i Hi1 Hic) as (t2 & g2 & G2 & -> & Hi2 & Hmv2 & Hm2 & Ho2 & Hot).
    exists (t2, g2). split; [done |]. exists G2, (upd_fun C1 i []). split; [done |]. split; [by eapply moved_trans |]. cbn.
    intros j Hj. destruct (decide (j = i)) as [-> | Hne]; [by rewrite upd_fun_eq |]. rewrite upd_fun_ne, Hot by done. apply Hd1. lia.
  - cbn [fst snd] in *. exists t', g', G', C'. split; [done |]. split; [done |]. split; [done |]. split; [| intros i Hci; by apply Hd'].
    intros i Hci. destruct (Hd' i Hci) as (E & ? & ?). split; [| done].
    rewrite (fl_empty_rep _ _ _ (tl_list _ _ _ _ _ _ (ti_live _ _ _ _ _ _ _ Hi') i Hci)). by rewrite E.
Qed.

(** ** Life cycle *)

Lemma InitialReserved_ok : InitialReservedQuotaBytes = class_sum Size /\ 0 <= class_sum Size.
Proof. by vm_compute. Qed.

Lemma ThreadCache_new_ok budget g G Hd V :
  cc_inv (gl_central g) G Hd V -> tidy G -> budget <= 2 ^ 62 ->
  exists t g', ThreadCache_new budget g = (t, g') /\ tc_inv t g' calm G (fun _ => []) Hd V /\ drained_cache t /\
    gl_central g' = gl_central g /\ gl_trim_request g' = gl_trim_request g /\ budget <= cache_budget_bytes t /\
    u64 (gl_stats g' stat_reserved_quota_bytes - reserved_quota_bytes t) = u64 (gl_stats g stat_reserved_quota_bytes).
Proof.
  intros Hi Htd Hb. destruct InitialReserved_ok as [Er H0r]. unfold ThreadCache_new. eexists _, _. split; [reflexivity |].
  split; [constructor; [constructor | constructor] |].
  - eapply cc_inv_held; [| exact Hi]. intros j _. unfold cached. set_solver.
  - done.
  - intros i _. apply FreeList_new_rep.
  - intros i y _ Hy. by apply not_elem_of_nil in Hy.
  - done.
  - done.
  - done.
  - cbn. rewrite Er. apply class_sum_ext. intros i _. cbn. lia.
  - unfold quota_bytes. cbn [free_lists cache_budget_bytes fl_max_size FreeList_new].
    assert (class_sum (fun i => 1 * Size i) = class_sum Size) as -> by (apply class_sum_ext; intros; lia).
    rewrite Er. pose proof Size_sum as Hs. change (2 ^ 62) with 4611686018427387904 in *. change (2 ^ 20) with 1048576 in Hs. lia.
  - split; [done |]. split; [done |]. split; [done |]. split; [cbn; lia |].
    cbn [gl_stats tc_add reserved_quota_bytes]. rewrite decide_True by done.
    pose proof (ledger_add (gl_stats g stat_reserved_quota_bytes) 0 InitialReservedQuotaBytes) as E.
    by rewrite Z.add_0_l, Z.sub_0_r in E.
Qed.

Lemma ThreadCache_destroy_ok t g :
  (forall i, is_class i -> fl_empty (free_lists t i) = true) ->
  ThreadCache_destroy t g = Ok (tc_add stat_reserved_quota_bytes (- reserved_quota_bytes t) g).
Proof.
  intros He. unfold ThreadCache_destroy. destruct debug_build; [| done].
  destruct (for_range_inv (fun _ _ => True) 0 kNumSizeClasses (fun i _ => AM_CHECK (fl_empty (free_lists t i)) "free_lists_[i].empty()") tt)
    as ([] & -> & _); [rewrite kNumSizeClasses_val; lia | done | | done].
  intros i [] Hi _. exists tt. by rewrite He.
Qed.
End Free.
