(* ===== verification/ThreadCacheSpec.v ===== *)
(** * What a thread cache promises

    The contracts of the hot paths and of trimming,
    the invariant of whole sessions, and the quota policy, with concrete runs. *)
From S2P Require Import Prelude Config SizeClass FreeList Common Span SpanList Backing PageMap PageCache PageCacheInv.
From S2P Require Import CentralCache CentralInv CentralSteps CentralRelease CentralFetch CentralInit CentralSpec ThreadCache.
From S2P Require Import ThreadCacheInv ThreadCacheSteps ThreadCacheTrim ThreadCacheAlloc ThreadCacheFree.
Open Scope Z_scope.

(** ** The request word *)

Lemma next_request_ok req mode : 0 <= req < W64 ->
  0 <= next_request req mode < W64 /\
  Z.shiftr (next_request req mode) 1 = (Z.shiftr req 1 + 1) mod 2 ^ 63 /\
  mode_of_bit (Z.land (next_request req mode) 1) = mode.
Proof.
  intros Hr. unfold next_request. rewrite !Z.shiftr_div_pow2, Z.shiftl_mul_pow2 by lia. change (2 ^ 1) with 2.
  assert (He : 0 <= req / 2 < 9223372036854775808) by (split; [apply Z.div_pos; lia | apply Z.div_lt_upper_bound; lia]).
  rewrite (u64_id (req / 2 + 1)) by lia. change (2 ^ 63) with 9223372036854775808.
  assert (Hu : u64 ((req / 2 + 1) * 2) = 2 * ((req / 2 + 1) mod 9223372036854775808)).
  { unfold u64. replace 18446744073709551616 with (2 * 9223372036854775808) by lia.
    rewrite (Z.mul_comm _ 2), Z.mul_mod_distr_l by lia. done. }
  rewrite Hu. set (e := _ mod _). assert (Hem : 0 <= e < 9223372036854775808) by (apply Z.mod_pos_bound; lia).
  assert (Hl : Z.lor (2 * e) (mode_value mode) = 2 * e + mode_value mode).
  { symmetry. apply Z.add_nocarry_lor. destruct mode; cbn [mode_value]; [apply Z.land_0_r |].
    change 1 with (Z.ones 1). rewrite Z.land_ones by lia. change (2 ^ 1) with 2. rewrite Z.mul_comm. apply Z.mod_mul. lia. }
  rewrite Hl. assert (Hm : 0 <= mode_value mode <= 1) by (destruct mode; cbn; lia). split; [lia |]. split.
  - rewrite Z.mul_comm, Z.div_add_l, (Z.div_small (mode_value mode)) by lia. lia.
  - change 1 with (Z.ones 1). rewrite Z.land_ones by lia. change (2 ^ 1) with 2.
    replace (2 * e + mode_value mode) with (mode_value mode + e * 2) by lia. rewrite Z.mod_add, Z.mod_small by lia.
    by destruct mode.
Qed.

Section Spec.
Context {W : Type} `{BackingLaws W} `{StaticLayout} `{CentralLayout}.
Implicit Types (s : CentralCache W) (g : Globals W) (t : ThreadCache) (G : ghost) (V : runs) (Hd : held) (C : Z -> list Z).

(** C11: [Allocate] returns fresh memory.  From every state of the invariant it
    runs to completion in every build for every request of at most 32 KiB, keeps
    the invariant (the quotas still add up to the reservation and stay within
    the budget, whatever trim request was pending), touches no memory its
    callers hold, and returns either null or an object of the least class that
    fits the request, which nobody held and none of whose bytes belong to
    anybody. *)
Theorem Allocate_spec t g G C Hd V size :
  tc_inv t g calm G C Hd V -> 0 <= size <= MAX_TC_SIZE ->
  exists p t' g' G' C', Allocate t g size = Ok (p, t', g') /\ allocated t g Hd V (Index size) p t' g' G' C' /\
    size <= Size (Index size) /\
    (p <> 0 -> forall w, p <= w < p + Size (Index size) -> ~ user_word Hd V w).
Proof.
  intros Hi Hs. destruct (Allocate_ok t g G C Hd V size Hi Hs) as (p & t' & g' & G' & C' & Heq & Hal).
  exists p, t', g', G', C'. split; [done |]. split; [done |]. split.
  { pose proof (Index_range size ltac:(lia)). rewrite Index_calc, Size_calc in * by lia.
    apply CalculateIndex_galois; [lia | | lia]. rewrite kNumSizeClasses_val in *. lia. }
  intros Hp w Hw. destruct (al_ok _ _ _ _ _ _ _ _ _ _ Hal) as [[? _] | (_ & Hn & [Hl _])]; [done |].
  eapply given_fresh; [exact Hl | apply Index_range; lia | exact Hn | exact Hw].
Qed.

(** C12: [Deallocate] takes back any held object of a class: it runs to completion
    in every build on both paths, keeps the invariant with the object no longer
    held, and changes no byte of what is still held; past the quota it evicts at
    most one batch and decays the quota, and a list never stays more than one
    object over. *)
Theorem Deallocate_spec t g G C Hd V p idx :
  tc_inv t g calm G C Hd V -> is_class idx -> p ∈ Hd idx ->
  exists t' g' G' C', Deallocate t g p idx = Ok (t', g') /\ tc_inv t' g' calm G' C' (take_back Hd idx {[p]}) V /\
    moved (take_back Hd idx {[p]}) V t g t' g'.
Proof. intros Hi Hidx Hp. by apply (Deallocate_ok t g G C). Qed.

(** C23: what [Trim] reaches.  It always completes, removes objects only from the
    cold ends of the lists, never grows a quota, keeps the invariant and every
    caller's memory.  In release mode no more than [target] bytes stay cached; in
    reuse mode the target is best-effort: either it is met, or no class keeps more
    than one batch. *)
Theorem Trim_spec t g G C Hd V mode target :
  tc_inv t g calm G C Hd V -> 0 <= target ->
  exists t' g' G' C', Trim t g mode target = Ok (t', g') /\ trim_post t g calm C Hd V mode target t' g' G' C'.
Proof. intros Hi Ht. apply (Trim_ok t g calm G C Hd V mode target Hi); [done | exact Ht]. Qed.

(** ** Sessions *)

(** The calls of a thread on its cache; any thread may publish a request. *)
Inductive tc_call :=
| CAllocate (size : Z) | CDeallocate (p idx : Z) | CTrim (mode : ThreadCacheTrimMode) (target : Z)
| CHandle | CReleaseAll | CRequest (mode : ThreadCacheTrimMode).

Definition tc_call_ok Hd (call : tc_call) : Prop :=
  match call with
  | CAllocate size => 0 <= size <= MAX_TC_SIZE
  | CDeallocate p idx => is_class idx /\ p ∈ Hd idx
  | CTrim _ target => 0 <= target
  | _ => True
  end.

Definition tc_exec (call : tc_call) t g : outcome (Z * ThreadCache * Globals W) :=
  match call with
  | CAllocate size => Allocate t g size
  | CDeallocate p idx => '(t, g) ← Deallocate t g p idx; Ok (0, t, g)
  | CTrim mode target => '(t, g) ← Trim t g mode target; Ok (0, t, g)
  | CHandle => '(t, g) ← HandleGlobalTrimRequest t g; Ok (0, t, g)
  | CReleaseAll => '(t, g) ← ReleaseAll t g; Ok (0, t, g)
  | CRequest mode => Ok (0, t, RequestGlobalTrim g mode)
  end.

Definition held_after (call : tc_call) (r : Z) Hd : held :=
  match call with
  | CAllocate size => if decide (r = 0) then Hd else give Hd (Index size) {[r]}
  | CDeallocate p idx => take_back Hd idx {[p]}
  | _ => Hd
  end.

Inductive tc_reach t g Hd : ThreadCache -> Globals W -> held -> Prop :=
| tc_start : tc_reach t g Hd t g Hd
| tc_step t1 g1 Hd1 call r t2 g2 : tc_reach t g Hd t1 g1 Hd1 -> tc_call_ok Hd1 call ->
    tc_exec call t1 g1 = Ok (r, t2, g2) -> tc_reach t g Hd t2 g2 (held_after call r Hd1).

Definition ledger t g : Z := u64 (gl_stats g stat_reserved_quota_bytes - reserved_quota_bytes t).

Lemma tc_exec_ok t g G C Hd V call :
  tc_inv t g calm G C Hd V -> tc_call_ok Hd call ->
  exists r t' g' G' C', tc_exec call t g = Ok (r, t', g') /\ tc_inv t' g' calm G' C' (held_after call r Hd) V /\
    cache_budget_bytes t' = cache_budget_bytes t /\ ledger t' g' = ledger t g.
Proof.
  intros Hi Hok. destruct call as [size | p idx | mode target | | | mode]; cbn [tc_exec tc_call_ok held_after] in *.
  - destruct (Allocate_ok t g G C Hd V size Hi Hok) as (p & t' & g' & G' & C' & -> & [Hmv Hc]).
    exists p, t', g', G', C'. split; [done |]. split; [| by destruct Hmv].
    destruct Hc as [(-> & Hi' & _) | (Hp & _ & Hi')]; [by rewrite decide_True | by rewrite decide_False].
  - destruct Hok as [Hidx Hp]. destruct (Deallocate_ok t g G C Hd V p idx Hi Hidx Hp) as (t' & g' & G' & C' & -> & Hi' & Hmv).
    exists 0, t', g', G', C'. split; [done |]. split; [done | by destruct Hmv].
  - destruct (Trim_ok t g calm G C Hd V mode target Hi) as (t' & g' & G' & C' & -> & [Hi' Hmv _ _ _ _]); [done | done |].
    exists 0, t', g', G', C'. split; [done |]. split; [done | by destruct Hmv].
  - destruct (HandleGlobalTrimRequest_ok t g calm G C Hd V Hi) as (t' & g' & G' & C' & -> & Hi' & Hmv & _); [done |].
    exists 0, t', g', G', C'. split; [done |]. split; [done | by destruct Hmv].
  - destruct (ReleaseAll_ok t g G C Hd V Hi) as (t' & g' & G' & C' & -> & Hi' & Hmv & _).
    exists 0, t', g', G', C'. split; [done |]. split; [done | by destruct Hmv].
  - exists 0, t, (RequestGlobalTrim g mode), G, C. split; [done |]. split; [destruct Hi; by constructor | done].
Qed.

(** C22: every session keeps the invariant and never gets stuck.  Whatever
    well-formed calls a thread makes after its cache was built, in any order and
    with any trim requests in between: the quotas add up to the reservation and
    stay within the budget, the free lists hold distinct objects nobody else
    holds, the telemetry differs from the reservation by the same amount as at
    the start, and the next call completes normally. *)
Theorem session_invariant t g G C Hd V t' g' Hd' :
  tc_inv t g calm G C Hd V -> tc_reach t g Hd t' g' Hd' ->
  (exists G' C', tc_inv t' g' calm G' C' Hd' V) /\ reserved_quota_bytes t' <= cache_budget_bytes t /\ ledger t' g' = ledger t g /\
  forall call, tc_call_ok Hd' call -> exists r t2 g2, tc_exec call t' g' = Ok (r, t2, g2).
Proof.
  intros Hi Hreach.
  assert (Hinv : (exists G' C', tc_inv t' g' calm G' C' Hd' V) /\ cache_budget_bytes t' = cache_budget_bytes t /\ ledger t' g' = ledger t g).
  { induction Hreach as [| t1 g1 Hd1 call r t2 g2 Hr IH Hok Hex]; [by split; [exists G, C |] |].
    destruct IH as ((G1 & C1 & Hi1) & Hb1 & Hl1). destruct (tc_exec_ok t1 g1 G1 C1 Hd1 V call Hi1 Hok) as (r' & t3 & g3 & G3 & C3 & Heq & Hi3 & Hb3 & Hl3).
    rewrite Heq in Hex. injection Hex as -> -> ->. split; [by exists G3, C3 | split; congruence]. }
  destruct Hinv as ((G' & C' & Hi') & Hb & Hl). split; [by exists G', C' |]. split; [| split; [done |]].
  - rewrite <- Hb. destruct Hi' as [_ Hq]. rewrite (qo_reserved _ _ Hq). apply (qo_budget _ _ Hq).
  - intros call Hok. destruct (tc_exec_ok t' g' G' C' Hd' V call Hi' Hok) as (r & t2 & g2 & _ & _ & Heq & _). by eexists _, _, _.
Qed.

(** The life of a cache leaves no trace.  A new cache starts drained with one
    object of quota per class; [ReleaseAll] drains it again, giving every cached
    object back; and destroying the drained cache passes the debug check and
    returns its whole reservation to the telemetry. *)
Theorem cache_lifecycle budget g G Hd V :
  cc_inv (gl_central g) G Hd V -> tidy G -> budget <= 2 ^ 62 ->
  let '(t, g1) := ThreadCache_new budget g in
  tc_inv t g1 calm G (fun _ => []) Hd V /\ drained_cache t /\
  forall t2 g2 Hd2, tc_reach t g1 Hd t2 g2 Hd2 ->
    exists t3 g3 g4 G3, ReleaseAll t2 g2 = Ok (t3, g3) /\ drained_cache t3 /\
      ThreadCache_destroy t3 g3 = Ok g4 /\ cc_inv (gl_central g4) G3 Hd2 V /\
      gl_stats g4 stat_reserved_quota_bytes = u64 (gl_stats g stat_reserved_quota_bytes).
Proof.
  intros Hcc Htd Hb. destruct (ThreadCache_new_ok budget g G Hd V Hcc Htd Hb) as (t & g1 & -> & Hi & Hdr & _ & _ & _ & Hst).
  split; [done |]. split; [done |]. intros t2 g2 Hd2 Hreach.
  assert (Hreached : exists G2 C2, tc_inv t2 g2 calm G2 C2 Hd2 V /\ ledger t2 g2 = ledger t g1).
  { induction Hreach as [| t2 g2 Hd2 call r t3 g3 Hr IH Hok Hex]; [by exists G, (fun _ => []) |].
    destruct IH as (G2 & C2 & Hi2 & Hl2). destruct (tc_exec_ok t2 g2 G2 C2 Hd2 V call Hi2 Hok) as (r' & t4 & g4 & G4 & C4 & Heq & Hi4 & _ & Hl4).
    rewrite Heq in Hex. injection Hex as -> -> ->. exists G4, C4. split; [done | congruence]. }
  destruct Hreached as (G2 & C2 & Hi2 & Hl2).
  destruct (ReleaseAll_ok t2 g2 G2 C2 Hd2 V Hi2) as (t3 & g3 & G3 & C3 & -> & [Hl3 _] & Hmv & Hdr3 & HC3).
  exists t3, g3, (tc_add stat_reserved_quota_bytes (- reserved_quota_bytes t3) g3), G3. split; [done |]. split; [done |].
  split; [apply ThreadCache_destroy_ok; intros i Hci; by apply Hdr3 |]. split.
  - eapply cc_inv_held; [| apply Hl3]. intros j Hj. unfold cached. rewrite (HC3 j Hj). set_solver.
  - cbn [gl_stats tc_add]. rewrite decide_True by done. transitivity (ledger t g1); [| exact Hst].
    rewrite <- Hl2. unfold ledger. by rewrite <- (mv_ledger _ _ _ _ _ _ Hmv), Z.add_opp_r.
Qed.
End Spec.

(** ** The quota policy in the long run *)

Definition refill_steps (n : nat) (batch : Z) : Z := Nat.iter n (fun c => NextAfterRefill c batch) 1.
Definition overflow_step (batch : Z) (q : QuotaState) : QuotaState :=
  NextAfterOverflow (q_max_size q) batch (q_overages q).

(** Quotas warm up and cool down.  For every size class, a quota that starts
    at one object grows strictly with every full refill until it reaches eight
    batches, which takes at most 128 refills, never exceeds them, and stays
    there; and above one batch every third overflow in a row takes exactly one
    batch off the quota, down to one batch and no further. *)
Theorem quota_policy_spec i :
  is_class i ->
  let batch := CalculateBatchSize (Size i) in
  refill_steps 128 batch = kMaxQuotaBatches * batch /\
  (forall cur, 1 <= cur < kMaxQuotaBatches * batch -> cur < NextAfterRefill cur batch <= kMaxQuotaBatches * batch) /\
  (forall cur, kMaxQuotaBatches * batch <= cur < 2 ^ 63 -> NextAfterRefill cur batch = cur) /\
  (forall cur, batch < cur < 2 ^ 63 -> Nat.iter 3 (overflow_step batch) (mkQuota cur 0) = mkQuota (Z.max (cur - batch) batch) 0) /\
  (forall cur ov, 1 <= cur <= batch -> 0 <= ov < kMaxOverages -> overflow_step batch (mkQuota cur ov) = mkQuota cur 0).
Proof.
  intros Hi batch. pose proof (class_batch i Hi) as Hb. fold batch in Hb. unfold kMaxBatchSize in Hb.
  change (2 ^ 63) with 9223372036854775808. split.
  - assert (Hall : forallb (fun i => refill_steps 128 (CalculateBatchSize (Size i)) =? kMaxQuotaBatches * CalculateBatchSize (Size i))
      (seqZ 0 kNumSizeClasses) = true) by (by vm_compute).
    apply (all_classes _ i Hall) in Hi. by apply Z.eqb_eq.
  - unfold kMaxQuotaBatches, kMaxOverages. split; [| split; [| split]].
    + intros cur Hc. destruct (NextAfterRefill_ok cur batch) as (H1 & H2 & H3); [change (2 ^ 63) with 9223372036854775808; lia | done |].
      unfold kMaxQuotaBatches in *. destruct (Z.lt_ge_cases cur batch) as [Hl | Hl]; [specialize (H2 Hl); lia | specialize (H3 ltac:(lia)); lia].
    + intros cur Hc. destruct (NextAfterRefill_ok cur batch) as (H1 & _); [change (2 ^ 63) with 9223372036854775808; lia | done |].
      unfold kMaxQuotaBatches in *. lia.
    + intros cur Hc. assert (Hov : forall ov, 0 <= ov < 3 -> overflow_step batch (mkQuota cur ov) =
        if decide (ov = 2) then mkQuota (Z.max (cur - batch) batch) 0 else mkQuota cur (ov + 1)).
      { intros ov Ho. unfold overflow_step. cbn. rewrite NextAfterOverflow_ok; [| change (2 ^ 63) with 9223372036854775808; lia | done | done].
        by rewrite decide_False by lia. }
      change (Nat.iter 3 ?f ?q) with (f (f (f q))). rewrite (Hov 0), decide_False by lia. change (0 + 1) with 1.
      rewrite (Hov 1), decide_False by lia. change (1 + 1) with 2. by rewrite (Hov 2), decide_True by lia.
    + intros cur ov Hc Ho. unfold overflow_step. cbn. rewrite NextAfterOverflow_ok; [| change (2 ^ 63) with 9223372036854775808; lia | done | done].
      by rewrite decide_True by lia.
Qed.

Lemma quota_policy_spec_witness :
  let batch := CalculateBatchSize (Size 5) in
  refill_steps 128 batch = kMaxQuotaBatches * batch /\
  (forall cur, 1 <= cur < kMaxQuotaBatches * batch -> cur < NextAfterRefill cur batch <= kMaxQuotaBatches * batch) /\
  (forall cur, kMaxQuotaBatches * batch <= cur < 2 ^ 63 -> NextAfterRefill cur batch = cur) /\
  (forall cur, batch < cur < 2 ^ 63 -> Nat.iter 3 (overflow_step batch) (mkQuota cur 0) = mkQuota (Z.max (cur - batch) batch) 0) /\
  (forall cur ov, 1 <= cur <= batch -> 0 <= ov < kMaxOverages -> overflow_step batch (mkQuota cur ov) = mkQuota cur 0).
Proof. apply (quota_policy_spec 5). split; [lia | by rewrite kNumSizeClasses_val]. Defined.

(** ** A concrete thread *)
Section Sample.
#[local] Existing Instance release_build.
#[local] Existing Instance bump_backing.
#[local] Existing Instance bump_laws.
#[local] Existing Instance sample_layout.
#[local] Existing Instance sample_central_layout.

Definition sample_globals : Globals Z := mkGlobals sample_central (fun _ => 0) 0.
Definition sample_thread : ThreadCache * Globals Z := ThreadCache_new kDefaultCacheBudgetBytes sample_globals.

Lemma sample_thread_inv : exists G,
  cc_inv (H1 := bump_laws) (gl_central sample_globals) G none_held ∅ /\ tidy G /\
  tc_inv (H1 := bump_laws) sample_thread.1 sample_thread.2 calm G (fun _ => []) none_held ∅.
Proof.
  destruct sample_central_inv as (K & R & _ & Hi). exists (init_ghost K R ∅). split; [exact Hi |]. split; [apply init_tidy |].
  destruct (ThreadCache_new_ok (H1 := bump_laws) kDefaultCacheBudgetBytes sample_globals _ _ _ Hi (init_tidy K R ∅))
    as (t & g & Heq & Hinv & _); [unfold kDefaultCacheBudgetBytes; lia |].
  unfold sample_thread. rewrite Heq. exact Hinv.
Qed.

(** Three requests, one free and a full drain: pointers differ, one object is
    cached after the free, and nothing is cached at the end. *)
Definition sample_thread_run : outcome (bool * Z * Z * Z) :=
  '(p1, t, g) ← Allocate sample_thread.1 sample_thread.2 40;
  '(p2, t, g) ← Allocate t g 40;
  '(p3, t, g) ← Allocate t g 33;
  let distinct := negb (p1 =? p2) && negb (p2 =? p3) && negb (p1 =? p3) && negb (p1 =? 0) in
  '(t, g) ← Deallocate t g p2 (Index 40);
  let n1 := CachedBytesSnapshot t in
  '(t, g) ← Trim t g kRelease 0;
  let n2 := CachedBytesSnapshot t in
  Ok (distinct, n1, n2, gl_stats g stat_reserved_quota_bytes - reserved_quota_bytes t).

Lemma Allocate_spec_witness :
  (exists p t' g' G' C', Allocate sample_thread.1 sample_thread.2 40 = Ok (p, t', g') /\
    allocated (H1 := bump_laws) sample_thread.1 sample_thread.2 none_held ∅ (Index 40) p t' g' G' C' /\
    40 <= Size (Index 40) /\ (p <> 0 -> forall w, p <= w < p + Size (Index 40) -> ~ user_word none_held ∅ w)) /\
  sample_thread_run = Ok (true, 48, 0, 0).
Proof.
  split; [| by vm_compute]. destruct sample_thread_inv as (G & _ & _ & Hi).
  apply (Allocate_spec (H1 := bump_laws) _ _ G _ _ _ 40 Hi). unfold MAX_TC_SIZE. lia.
Defined.

Lemma sample_allocated : exists p t g G C,
  Allocate sample_thread.1 sample_thread.2 40 = Ok (p, t, g) /\
  tc_inv (H1 := bump_laws) t g calm G C (give none_held (Index 40) {[p]}) ∅.
Proof.
  destruct sample_thread_inv as (G & _ & _ & Hi).
  destruct (Allocate_ok (H1 := bump_laws) _ _ G _ _ _ 40 Hi) as (p & t & g & G' & C' & Heq & [_ Hok]); [unfold MAX_TC_SIZE; lia |].
  exists p, t, g, G', C'. split; [exact Heq |]. destruct Hok as [(Hp & _) | (_ & _ & Hinv)]; [exfalso | exact Hinv].
  assert (Hc : match Allocate sample_thread.1 sample_thread.2 40 with Ok (p, _, _) => p =? 0 | _ => true end = false) by (by vm_compute).
  rewrite Heq, Hp in Hc. discriminate.
Qed.

Lemma Deallocate_spec_witness :
  exists p t g, Allocate sample_thread.1 sample_thread.2 40 = Ok (p, t, g) /\
  exists t' g' G' C', Deallocate t g p (Index 40) = Ok (t', g') /\
    tc_inv (H1 := bump_laws) t' g' calm G' C' (take_back (give none_held (Index 40) {[p]}) (Index 40) {[p]}) ∅ /\
    moved (take_back (give none_held (Index 40) {[p]}) (Index 40) {[p]}) ∅ t g t' g'.
Proof.
  destruct sample_allocated as (p & t & g & G & C & Heq & Hi). exists p, t, g. split; [exact Heq |].
  apply (Deallocate_spec (H1 := bump_laws) t g G C _ _ p (Index 40) Hi).
  - apply Index_range. unfold MAX_TC_SIZE. lia.
  - clear. unfold give. rewrite upd_fun_eq. set_solver.
Defined.

Lemma Trim_spec_witness :
  exists p t g C Hd, Allocate sample_thread.1 sample_thread.2 40 = Ok (p, t, g) /\
  exists t' g' G' C', Trim t g kRelease 0 = Ok (t', g') /\
    trim_post (H1 := bump_laws) t g calm C Hd ∅ kRelease 0 t' g' G' C'.
Proof.
  destruct sample_allocated as (p & t & g & G & C & Heq & Hi). exists p, t, g, C, (give none_held (Index 40) {[p]}).
  split; [exact Heq |]. apply (Trim_spec (H1 := bump_laws) t g G C _ _ kRelease 0 Hi). lia.
Defined.

Lemma session_invariant_witness :
  exists p t g G, Allocate sample_thread.1 sample_thread.2 40 = Ok (p, t, g) /\
  let Hd := held_after (CAllocate 40) p none_held in
  (exists G' C', tc_inv (H1 := bump_laws) t g calm G' C' Hd ∅) /\
  reserved_quota_bytes t <= cache_budget_bytes sample_thread.1 /\ ledger t g = ledger sample_thread.1 sample_thread.2 /\
  (forall call, tc_call_ok Hd call -> exists r t2 g2, tc_exec call t g = Ok (r, t2, g2)) /\
  cc_inv (H1 := bump_laws) (gl_central sample_globals) G none_held ∅.
Proof.
  destruct sample_thread_inv as (G & Hcc & _ & Hi).
  destruct (Allocate_ok (H1 := bump_laws) _ _ G _ _ _ 40 Hi) as (p & t & g & G' & C' & Heq & _); [unfold MAX_TC_SIZE; lia |].
  exists p, t, g, G. split; [exact Heq |]. intros Hd.
  assert (Hr : tc_reach sample_thread.1 sample_thread.2 none_held t g Hd).
  { apply (tc_step _ _ _ _ _ _ (CAllocate 40) p t g (tc_start _ _ _)); [cbn; unfold MAX_TC_SIZE; lia | exact Heq]. }
  destruct (session_invariant (H1 := bump_laws) _ _ G _ _ _ _ _ _ Hi Hr) as (S1 & S2 & S3 & S4).
  split; [exact S1 |]. split; [exact S2 |]. split; [exact S3 |]. split; [exact S4 | exact Hcc].
Defined.

Lemma cache_lifecycle_witness : exists G,
  let '(t, g1) := ThreadCache_new kDefaultCacheBudgetBytes sample_globals in
  tc_inv (H1 := bump_laws) t g1 calm G (fun _ => []) none_held ∅ /\ drained_cache t /\
  forall t2 g2 Hd2, tc_reach t g1 none_held t2 g2 Hd2 ->
    exists t3 g3 g4 G3, ReleaseAll t2 g2 = Ok (t3, g3) /\ drained_cache t3 /\
      ThreadCache_destroy t3 g3 = Ok g4 /\ cc_inv (H1 := bump_laws) (gl_central g4) G3 Hd2 ∅ /\
      gl_stats g4 stat_reserved_quota_bytes = u64 (gl_stats sample_globals stat_reserved_quota_bytes).
Proof.
  destruct sample_thread_inv as (G & Hcc & Htd & _). exists G.
  apply (cache_lifecycle (H1 := bump_laws) kDefaultCacheBudgetBytes sample_globals G none_held ∅ Hcc Htd).
  unfold kDefaultCacheBudgetBytes. lia.
Defined.
End Sample.
