(* ===== verification/ThreadCalls.v ===== *)
(** * The thread cache, one critical section at a time

    The slow paths of [ThreadCache] (thread_cache.cpp) as programs: what the
    thread does to its own lists it does alone, what it asks of the central cache
    is the central cache's program, and the trim request is read at a moment of
    its own.  A program that nobody interrupts is the function of ThreadCache. *)
From S2P Require Import Prelude Config SizeClass FreeList Common Span SpanList Backing PageMap PageCache CentralCache.
From S2P Require Import ThreadCache Sections CentralCalls.
Open Scope Z_scope.

#[export] Instance globals_view {W} : View (Globals W) (CentralCache W) := {| view := gl_central; put := with_central |}.
#[export] Instance globals_view_laws {W} : ViewLaws (Globals W) (CentralCache W).
Proof. by constructor; intros []. Qed.

Section Programs.
Context `{Build} `{StaticLayout} `{CentralLayout} {W : Type} `{Backing W}.
Implicit Types (t : ThreadCache) (g : Globals W).
Local Abbreviation prog := (prog (Globals W)).

Definition central {A} (p : Sections.prog (CentralCache W) A) : prog A := within_view p.

(** ** Trimming *)

Definition trim_evict_sections t (mode : ThreadCacheTrimMode) (idx class_size evict_count cached_bytes : Z)
    : prog (ThreadCache * Z) :=
  if 0 <? evict_count
  then
    '(batch, list) ← act (fun g =>
      '(batch, list, m) ← PopBatchTail (central_mem g) (free_lists t idx) evict_count idx;
      Ok (batch, list, tc_add trimmed_bytes (u64 (ob_count batch * class_size)) (with_words g m)));
    _ ← central (ReleaseBatch_sections batch (release_mode mode));
    Ret (with_list t idx list, u64 (cached_bytes - u64 (ob_count batch * class_size)))
  else Ret (t, cached_bytes).

Definition trim_class_sections t (mode : ThreadCacheTrimMode) (target_bytes idx cached_bytes : Z) : prog (ThreadCache * Z) :=
  let class_size := Size idx in
  let batch_num := CalculateBatchSize class_size in
  let evictable := trim_evictable mode (fl_size (free_lists t idx)) batch_num in
  evict_count ← pure (trim_evict_count cached_bytes target_bytes evictable class_size);
  '(t, cached_bytes) ← trim_evict_sections t mode idx class_size evict_count cached_bytes;
  t ← act (fun g => trim_quota t g mode idx batch_num);
  Ret (t, cached_bytes).

Fixpoint trim_classes_sections (n : nat) t (mode : ThreadCacheTrimMode) (target_bytes cached_bytes : Z) : prog ThreadCache :=
  match n with
  | O => Ret t
  | S n' =>
      '(t, cached_bytes) ← trim_class_sections t mode target_bytes (Z.of_nat n') cached_bytes;
      trim_classes_sections n' t mode target_bytes cached_bytes
  end.

Definition Trim_sections t (mode : ThreadCacheTrimMode) (target_bytes : Z) : prog ThreadCache :=
  let cached_bytes := CachedBytesSnapshot t in
  _ ← doing (fun g => Ok (tc_add cached_bytes_observed_at_trim cached_bytes (tc_add trim_count 1 g)));
  trim_classes_sections (Z.to_nat kNumSizeClasses) t mode target_bytes cached_bytes.

(** The load of the request word. *)
Definition load_request : prog Z := Yield (reading (fun g => Ok (gl_trim_request g))).

Definition HandleGlobalTrimRequest_sections t : prog ThreadCache :=
  request ← load_request;
  let epoch := Z.shiftr request 1 in
  if epoch =? observed_trim_epoch t then Ret t
  else
    let mode := mode_of_bit (Z.land request 1) in
    t ← Trim_sections t mode (TrimTargetForMode mode);
    Ret (with_epoch t epoch).

Definition release_list_sections t (i : Z) : prog ThreadCache :=
  t ← (if fl_empty (free_lists t i) then Ret t
       else
         '(batch, list) ← act (fun g =>
           '(batch, list, m) ← PopBatch (central_mem g) (free_lists t i) (fl_size (free_lists t i)) i;
           Ok (batch, list, with_words g m));
         _ ← central (ReleaseBatch_sections batch kTransferCache);
         Ret (with_list t i list));
  t ← act (fun g => SetQuota t g i 1);
  Ret (set_list_overages t i 0).

Fixpoint release_lists_sections (n : nat) (i : Z) t : prog ThreadCache :=
  match n with
  | O => Ret t
  | S n' => t ← release_list_sections t i; release_lists_sections n' (i + 1) t
  end.
Definition ReleaseAll_sections t : prog ThreadCache := release_lists_sections (Z.to_nat kNumSizeClasses) 0 t.

(** ** The slow paths *)

Definition refill_section t (idx batch_num : Z) : prog ThreadCache :=
  act (fun g =>
    let next_max_size := NextAfterRefill (fl_max_size (free_lists t idx)) batch_num in
    if CanSetQuota t idx next_max_size then SetQuota t g idx next_max_size
    else Ok (t, tc_add budget_denied_growth 1 g)).

Definition FetchFromCentralCache_sections t (idx : Z) : prog (Z * ThreadCache) :=
  t ← HandleGlobalTrimRequest_sections t;
  _ ← pure (AM_DCHECK (fl_empty (free_lists t idx)) "list.empty()");
  let aligned_size := Size idx in
  let batch_num := CalculateBatchSize aligned_size in
  let fetch_num := Z.min batch_num (fl_max_size (free_lists t idx)) in
  batch ← central (FetchBatch_sections idx fetch_num);
  let fetched := ob_count batch in
  if fetched =? 0 then Ret (0, t)
  else
    t ← act (fun g => AcceptFetchedBatch t g idx batch);
    if fetched <? fetch_num then act (fun g => pop_list t g idx)
    else
      t ← refill_section t idx batch_num;
      act (fun g => pop_list (set_list_overages t idx 0) g idx).

Definition DeallocateSlowPath_sections t (idx : Z) : prog ThreadCache :=
  t ← HandleGlobalTrimRequest_sections t;
  if fl_size (free_lists t idx) <=? fl_max_size (free_lists t idx) then Ret t
  else
    let aligned_size := Size idx in
    let batch_num := CalculateBatchSize aligned_size in
    '(batch, list) ← act (fun g =>
      '(batch, list, m) ← PopBatchTail (central_mem g) (free_lists t idx) batch_num idx;
      Ok (batch, list, with_words g m));
    let t := with_list t idx list in
    _ ← (if batch_empty batch then Ret () else central (ReleaseBatch_sections batch kTransferCache));
    let q := NextAfterOverflow (fl_max_size (free_lists t idx)) batch_num (fl_overages (free_lists t idx)) in
    t ← act (fun g => SetQuota t g idx (q_max_size q));
    Ret (set_list_overages t idx (q_overages q)).

(** ** The hot paths *)

Definition Allocate_sections t (original_size : Z) : prog (Z * ThreadCache) :=
  _ ← pure (AM_DCHECK (original_size <=? MAX_TC_SIZE) "original_size <= SizeConfig::MAX_TC_SIZE");
  let idx := Index original_size in
  if negb (fl_empty (free_lists t idx)) then act (fun g => pop_list t g idx)
  else FetchFromCentralCache_sections t idx.

Definition Deallocate_sections t (ptr idx : Z) : prog ThreadCache :=
  _ ← pure (AM_DCHECK (negb (ptr =? 0)) "ptr != nullptr");
  _ ← pure (AM_HCHECK (idx <? kNumSizeClasses) "class index out of range");
  list ← act (fun g =>
    '(list, m) ← Push (central_mem g) (free_lists t idx) ptr; Ok (list, with_words g m));
  let t := with_list t idx list in
  if fl_max_size list <? fl_size list then DeallocateSlowPath_sections t idx
  else Ret t.
End Programs.

(** ** A call that nobody interrupts *)

Section Uninterrupted.
Context `{Build} `{StaticLayout} `{CentralLayout} {W : Type} `{Backing W}.
Implicit Types (t : ThreadCache) (g : Globals W).

Lemma alone_central {A} (p : prog (CentralCache W) A) g :
  alone (central p) g = '(a, s) ← alone p (gl_central g); Ok (a, with_central g s).
Proof. exact (alone_view p g). Qed.

Lemma alone_release t g b mode : alone (central (ReleaseBatch_sections b mode)) g =
  (s ← ReleaseBatch (gl_central g) b mode; Ok ((), with_central g s)).
Proof. rewrite alone_central, alone_ReleaseBatch. by destruct (ReleaseBatch _ b mode). Qed.
#[local] Hint Rewrite alone_release : alone.

Lemma alone_trim_evict t mode idx size n c g : alone (trim_evict_sections t mode idx size n c) g =
  ('(t, g, c) ← trim_evict t g mode idx size n c; Ok (t, c, g)).
Proof. unfold trim_evict_sections, trim_evict. destruct (0 <? n); [| done]. run. Qed.

Lemma alone_trim_class t mode target idx c g : alone (trim_class_sections t mode target idx c) g =
  ('(t, g, c) ← trim_class t g mode target idx c; Ok (t, c, g)).
Proof. unfold trim_class_sections, trim_class. cbv zeta. repeat (run; rewrite ?alone_trim_evict). Qed.

Lemma alone_trim_classes n mode target : forall t c g, alone (trim_classes_sections n t mode target c) g = trim_classes n t g mode target c.
Proof.
  induction n as [| n IH]; intros t c g; cbn [trim_classes_sections trim_classes]; [done |].
  rewrite alone_bind, alone_trim_class. run.
Qed.

Lemma alone_Trim t mode target g : alone (Trim_sections t mode target) g = Trim t g mode target.
Proof. unfold Trim_sections, Trim. run. apply alone_trim_classes. Qed.

Lemma alone_Handle t g : alone (HandleGlobalTrimRequest_sections t) g = HandleGlobalTrimRequest t g.
Proof.
  unfold HandleGlobalTrimRequest_sections, HandleGlobalTrimRequest, load_request. run. destruct (_ =? _); [done |].
  rewrite alone_bind, alone_Trim. run.
Qed.

Lemma alone_release_list t i g : alone (release_list_sections t i) g = release_list t g i.
Proof. unfold release_list_sections, release_list. rewrite alone_bind. destruct (fl_empty (free_lists t i)); run. Qed.

Lemma alone_release_lists n : forall i t g, alone (release_lists_sections n i t) g =
  for_range_nat n i (fun i tg => release_list tg.1 tg.2 i) (t, g).
Proof.
  induction n as [| n IH]; intros i t g; cbn [release_lists_sections for_range_nat]; [done |].
  rewrite alone_bind, alone_release_list. cbn [fst snd]. run.
Qed.
Lemma alone_ReleaseAll t g : alone (ReleaseAll_sections t) g = ReleaseAll t g.
Proof. unfold ReleaseAll_sections, ReleaseAll, for_range. rewrite Z.sub_0_r. apply alone_release_lists. Qed.

Lemma alone_Fetch t idx g : alone (FetchFromCentralCache_sections t idx) g =
  ('(p, t, g) ← FetchFromCentralCache t g idx; Ok (p, t, g)).
Proof.
  unfold FetchFromCentralCache_sections, FetchFromCentralCache, refill_section. cbv zeta. rewrite alone_bind, alone_Handle. run.
  rewrite alone_central, alone_FetchBatch. run. destruct (ob_count _ =? 0); [done |]. run. destruct (ob_count _ <? _); [run |].
  rewrite alone_bind, alone_act. destruct (CanSetQuota _ _ _); run.
Qed.

Lemma alone_DeallocateSlowPath t idx g : alone (DeallocateSlowPath_sections t idx) g = DeallocateSlowPath t g idx.
Proof.
  unfold DeallocateSlowPath_sections, DeallocateSlowPath. cbv zeta. rewrite alone_bind, alone_Handle. run.
  destruct (fl_size _ <=? _); [done |]. run. destruct (batch_empty _); run.
Qed.

Lemma alone_Allocate t size g : alone (Allocate_sections t size) g = ('(p, t, g) ← Allocate t g size; Ok (p, t, g)).
Proof. unfold Allocate_sections, Allocate. run. destruct (negb _); [run | apply alone_Fetch]. Qed.

Lemma alone_Deallocate t p idx g : alone (Deallocate_sections t p idx) g = Deallocate t g p idx.
Proof.
  unfold Deallocate_sections, Deallocate. run. destruct (fl_max_size _ <? fl_size _); [apply alone_DeallocateSlowPath | done].
Qed.
End Uninterrupted.
