(* ===== verification/ThreadShares.v ===== *)
(** * What a thread's cache owns

    The share of a thread: the objects on its free lists and the pages its cache
    lives on.  Owning it beside the rest is the thread cache invariant, with the
    rest in the clients' place; so every lemma about an uninterrupted step of a
    thread cache is a lemma about one critical section. *)
From S2P Require Import Prelude Config SizeClass FreeList Common Span SpanList Backing PageMap PageCache PageCacheInv.
From S2P Require Import PageCacheAlloc PageCacheMerge PageCacheRelease CentralCache CentralInv CentralSteps CentralRelease CentralFetch.
From S2P Require Import ThreadCache ThreadCacheInv ThreadCacheSteps.
From S2P Require Import Sections CentralCalls CentralShares CentralCallsRelease CentralCallsFetch ThreadCalls.
Open Scope Z_scope.

(** ** The share *)

(** The objects on the lists [C], each with its class. *)
Definition objs_of (C : Z -> list Z) : gset (Z * Z) :=
  ⋃ ((fun i => list_to_set ((fun x => (i, x)) <$> C i)) <$> seqZ 0 kNumSizeClasses).
Definition thread_share (C : Z -> list Z) (P : gset Z) : share := mkShare (objs_of C) ∅ P.

Lemma elem_of_objs C i x : (i, x) ∈ objs_of C <-> is_class i /\ x ∈ C i.
Proof.
  unfold objs_of. rewrite elem_of_union_list. split.
  - intros (X & (j & -> & Hj)%list_elem_of_fmap & (y & [= -> ->] & Hy)%elem_of_list_to_set%list_elem_of_fmap).
    by split; [apply elem_of_classes |].
  - intros [Hi Hx]. eexists. split; [apply list_elem_of_fmap; exists i; split; [done | by apply elem_of_classes] |].
    apply elem_of_list_to_set, list_elem_of_fmap. by exists x.
Qed.
Lemma held_of_objs C i : is_class i -> held_of (objs_of C) i = list_to_set (C i).
Proof. intros Hi. apply set_eq. intros x. rewrite elem_of_held, elem_of_objs, elem_of_list_to_set. tauto. Qed.

Section Shares.
Context {W : Type} `{BackingLaws W} `{StaticLayout} `{CentralLayout}.
Implicit Types (s : CentralCache W) (g : Globals W) (t : ThreadCache) (G : ghost) (V : runs) (Hd : held) (C : Z -> list Z).
Implicit Types (o R T F : share) (P : gset Z).

(** ** Owning a share beside the rest *)

Record beside R o s0 s G : Prop := {
  bs_inv : cc_inv (H1 := reserve_laws (sh_pages R ∪ sh_pages o)) s G (held_of (sh_objs R ∪ sh_objs o)) (sh_runs R ∪ sh_runs o);
  bs_tidy : tidy G;
  bs_objs : sh_objs R ## sh_objs o;
  bs_runs : sh_runs R ##ₘ sh_runs o;
  bs_pages : sh_pages R ## sh_pages o;
  bs_und : undisturbed (held_of (sh_objs R)) (sh_runs R) s0 s
}.

Lemma at_rest_beside R o s0 s : at_rest R o s0 s <-> exists G, beside R o s0 s G.
Proof.
  split.
  - intros ([O V P] & [[EO DO] [[ER DR] [EP DP]]] & (G & Hi & Ht) & Hq). cbn in *. subst. exists G. by constructor.
  - intros (G & [Hi Ht DO DR DP Hu]). exists (mkShare (sh_objs R ∪ sh_objs o) (sh_runs R ∪ sh_runs o) (sh_pages R ∪ sh_pages o)).
    split; [done |]. split; [by exists G | done].
Qed.

(** The union of two shares. *)
Definition join (a b : share) : share := mkShare (sh_objs a ∪ sh_objs b) (sh_runs a ∪ sh_runs b) (sh_pages a ∪ sh_pages b).
Lemma join_split a b : sh_objs a ## sh_objs b -> sh_runs a ##ₘ sh_runs b -> sh_pages a ## sh_pages b -> own_split (join a b) a b.
Proof. done. Qed.
Lemma split_join T a b : own_split T a b -> T = join a b.
Proof. destruct T. intros [[EO _] [[ER _] [EP _]]]. cbn in *. by subst. Qed.

(** ** The thread cache *)

Definition lists_ok t C g : Prop := forall i, is_class i -> FreeList_rep (central_mem g) (free_lists t i) (C i).

(** The share [o] is the cache [t]. *)
Record tc_own t (x : Z -> Z) C P o g : Prop := {
  to_share : o = thread_share C P;
  to_lists : lists_ok t C g;
  to_quota : quota_ok t x
}.

(** The same, beside the rest [R], in a section begun in [g0]. *)
Record tc_at R P t (x : Z -> Z) C g0 g : Prop := {
  ta_inv : exists G, tc_inv (H1 := reserve_laws (sh_pages R ∪ P)) t g x G C (held_of (sh_objs R)) (sh_runs R);
  ta_pages : sh_pages R ## P;
  ta_und : undisturbed (held_of (sh_objs R)) (sh_runs R) (gl_central g0) (gl_central g)
}.

Lemma held_cached R C i : is_class i ->
  held_of (sh_objs R ∪ objs_of C) i = cached (held_of (sh_objs R)) C i.
Proof. intros Hi. unfold cached. by rewrite held_of_union, held_of_objs. Qed.

Lemma tc_at_rest R P t x C g0 g : tc_at R P t x C g0 g -> at_rest R (thread_share C P) g0 g /\ tc_own t x C P (thread_share C P) g.
Proof.
  intros [(G & [[Hcc Htd Hls Hap] Hq]) HP Hu]. split; [| by constructor]. apply at_rest_beside. exists G. constructor; try done.
  - cbn. rewrite map_union_empty. eapply cc_inv_held; [| exact Hcc]. intros j Hj. exact (held_cached R C j Hj).
  - apply elem_of_disjoint. intros [j y] Hj (Hc & Hy)%elem_of_objs. apply (Hap j y Hc Hy). by apply elem_of_held.
  - apply map_disjoint_empty_r.
Qed.
Lemma tc_at_intro R P t x C o g0 g : at_rest R o g0 g -> tc_own t x C P o g -> tc_at R P t x C g0 g.
Proof.
  intros (G & Hb)%at_rest_beside [-> Hls Hq]. destruct Hb as [Hcc Htd DO _ DP Hu]. constructor; [| done | done]. exists G.
  cbn in *. rewrite map_union_empty in Hcc. constructor; [| done]. constructor; try done.
  - eapply cc_inv_held; [| exact Hcc]. intros j Hj. symmetry. exact (held_cached R C j Hj).
  - intros i y Hi Hy Hin%elem_of_held. apply elem_of_disjoint in DO. apply (DO (i, y)); [done |]. by apply elem_of_objs.
Qed.

(** An uninterrupted step of the cache, within a section. *)
Lemma tc_at_step R P t x C g0 g t' x' C' g' G :
  tc_at R P t x C g0 g -> tc_inv (H1 := reserve_laws (sh_pages R ∪ P)) t' g' x' G C' (held_of (sh_objs R)) (sh_runs R) ->
  undisturbed (held_of (sh_objs R)) (sh_runs R) (gl_central g) (gl_central g') -> tc_at R P t' x' C' g0 g'.
Proof. intros [_ HP Hu] Hi Hu'. constructor; [by exists G | done | by eapply undisturbed_trans]. Qed.

(** The lists are the owner's business. *)
Lemma thread_word C P i y : is_class i -> y ∈ C i -> user_word (held_of (sh_objs (thread_share C P))) ∅ y.
Proof. intros Hi Hy. eapply held_link_word; [done |]. cbn. rewrite held_of_objs by done. by apply elem_of_list_to_set. Qed.

Lemma lists_quiet t C P g g' : own_quiet (thread_share C P) g g' -> lists_ok t C g -> lists_ok t C g'.
Proof.
  intros Hq Hl i Hi. eapply list_kept; [exact Hq | exact Hi | | by apply Hl].
  intros y Hy. cbn. rewrite held_of_objs by done. by apply elem_of_list_to_set.
Qed.
Lemma tc_own_quiet t x C P o g g' : own_quiet o g g' -> tc_own t x C P o g -> tc_own t x C P o g'.
Proof. intros Hq [-> Hl Hq']. constructor; [done | by eapply lists_quiet | done]. Qed.

(** Another moment. *)
Lemma tc_at_later R R' P t x C g0 g g' : tc_at R P t x C g0 g ->
  at_rest R' (thread_share C P) g' g' -> own_quiet (thread_share C P) g g' -> tc_at R' P t x C g' g'.
Proof.
  intros [_ Ho]%tc_at_rest Hr Hq. eapply tc_at_intro; [exact Hr |]. by eapply tc_own_quiet.
Qed.

(** ** Parts of the lists *)

Lemma objs_upd C i l : is_class i -> forall j y, (j, y) ∈ objs_of (upd_fun C i l) <-> (j <> i /\ (j, y) ∈ objs_of C) \/ (j = i /\ y ∈ l).
Proof.
  intros Hi j y. rewrite !elem_of_objs. destruct (decide (j = i)) as [-> | Hne]; [rewrite upd_fun_eq | rewrite upd_fun_ne by done]; naive_solver.
Qed.

(** Objects leave a list. *)
Lemma thread_split C P i keep out : is_class i -> NoDup (C i) -> C i ≡ₚ keep ++ out ->
  own_split (thread_share C P) (hand i out ∅) (thread_share (upd_fun C i keep) P).
Proof.
  intros Hi Hnd Hp. rewrite Hp in Hnd. apply NoDup_app in Hnd as (_ & Hko & _).
  assert (Hin : forall y, y ∈ C i <-> y ∈ keep \/ y ∈ out) by (intros y; by rewrite Hp, elem_of_app).
  assert (Hh : forall j y, (j, y) ∈ sh_objs (hand i out ∅) <-> j = i /\ y ∈ out).
  { intros j y. cbn. rewrite elem_of_list_to_set, list_elem_of_fmap. naive_solver. }
  split; [split |].
  - apply set_eq. intros [j y]. rewrite elem_of_union, Hh. cbn. rewrite objs_upd by done. rewrite elem_of_objs.
    destruct (decide (j = i)) as [-> | Hne]; [rewrite Hin; naive_solver | naive_solver].
  - apply elem_of_disjoint. intros [j y] [-> Hy]%Hh [[? _] | [_ Hy']]%(objs_upd C i keep Hi); [done | by apply (Hko y)].
  - cbn. split; [split; [by rewrite map_union_empty | apply map_disjoint_empty_l] | set_solver].
Qed.
End Shares.
