(* ===== verification/ThreadCallsTrim.v ===== *)
(** * Trimming a thread cache while calls are in flight

    [Trim], the trim request and [ReleaseAll], one critical section at a time: safe
    with anything in between that leaves the thread's lists alone. *)
From S2P Require Import Prelude Config SizeClass FreeList Common Span SpanList Backing PageMap PageCache PageCacheInv.
From S2P Require Import PageCacheAlloc PageCacheMerge PageCacheRelease CentralCache CentralInv CentralSteps CentralRelease CentralFetch.
From S2P Require Import ThreadCache ThreadCacheInv ThreadCacheSteps ThreadCacheTrim.
From S2P Require Import Sections CentralCalls CentralShares CentralCallsRelease CentralCallsFetch ThreadCalls ThreadShares.
Open Scope Z_scope.

Section Trim.
Context {W : Type} `{BackingLaws W} `{StaticLayout} `{CentralLayout}.
Implicit Types (s : CentralCache W) (g : Globals W) (t : ThreadCache) (G : ghost) (V : runs) (Hd : held) (C : Z -> list Z).
Implicit Types (o R T F : share) (P : gset Z).

(** ** Giving back a part of a list *)

Lemma tl_apart_lists R P t x C g0 g i j y : tc_at R P t x C g0 g -> is_class i -> is_class j -> i <> j -> y ∈ C i -> y ∉ C j.
Proof. intros [(G & [Hl _]) _ _]. by apply (lists_apart (H1 := reserve_laws (sh_pages R ∪ P)) t _ G C _ _ i j y Hl). Qed.
Lemma tc_at_nodup R P t x C g0 g i : tc_at R P t x C g0 g -> is_class i -> NoDup (C i).
Proof. intros [(G & [Hl _]) _ _]. by apply (tl_nodup (H1 := reserve_laws (sh_pages R ∪ P)) t _ G C _ _ i Hl). Qed.
Lemma tc_at_list R P t x C g0 g i : tc_at R P t x C g0 g -> is_class i -> FreeList_rep (central_mem g) (free_lists t i) (C i).
Proof. intros [(G & [Hl _]) _ _]. apply Hl. Qed.
Lemma tc_at_size R P t x C g0 g i : tc_at R P t x C g0 g -> is_class i -> fl_size (free_lists t i) = Z.of_nat (length (C i)).
Proof. intros Ha Hi. by apply (tc_at_list _ _ _ _ _ _ _ _ Ha Hi). Qed.
Lemma tc_at_quota R P t x C g0 g : tc_at R P t x C g0 g -> quota_ok t x.
Proof. by intros [(G & [_ Hq]) _ _]. Qed.

(** The batch popped off the list goes to the central cache, the rest stays. *)
Lemma wp_give_back {A} R P t x C g0 g g1 i mode fl m' b keep out (k : () -> prog (Globals W) A) Q :
  tc_at R P t x C g0 g -> is_class i -> C i ≡ₚ keep ++ out -> same_except (C i) (central_mem g) m' ->
  FreeList_rep m' fl keep -> batch_rep m' b i out -> gl_central g1 = with_mem (gl_central g) m' ->
  (forall R1 g2 g3, at_rest R1 (thread_share (upd_fun C i keep) P) g2 g3 ->
     lists_ok (with_list t i fl) (upd_fun C i keep) g3 -> wp (k ()) Q R1 g2 g3) ->
  wp (u ← central (ReleaseBatch_sections b mode); k u) Q R g0 g1.
Proof.
  intros Ha Hi Hp Hm Hkeep Hb Hg1 Hk. pose proof (tc_at_nodup _ _ _ _ _ _ _ i Ha Hi) as Hnd.
  destruct (tc_at_rest _ _ _ _ _ _ _ Ha) as [Hr _].
  assert (Hr1 : at_rest R (thread_share C P) g0 g1).
  { change (at_rest R (thread_share C P) (gl_central g0) (gl_central g1)). rewrite Hg1. apply at_rest_writes; [exact Hr |].
    intros w Hw. apply Hm. intros Hin. by apply Hw, (thread_word C P i). }
  set (F := thread_share (upd_fun C i keep) P). set (t' := with_list t i fl).
  assert (Hls : lists_ok t' (upd_fun C i keep) g1).
  { intros j Hj. unfold central_mem. rewrite Hg1. cbn. destruct (decide (j = i)) as [-> | Hne]; [by rewrite upd_free_list_eq, upd_fun_eq |].
    rewrite upd_free_list_ne, upd_fun_ne by done. eapply FreeList_rep_frame; [exact Hm | | by eapply tc_at_list].
    intros y Hy. by eapply (tl_apart_lists R P t x C g0 g j i). }
  pose proof (thread_split C P i keep out Hi Hnd Hp) as Hs. rewrite Hp in Hnd. apply NoDup_app in Hnd as (_ & _ & Hno).
  eapply (wp_call (central (ReleaseBatch_sections b mode)) k (fun _ o _ => o = hand i [] ∅) Q F (lists_ok t' (upd_fun C i keep)) R _ _ g0 g1 Hr1 Hs).
  - intros g2 g3 Hq. by apply (lists_quiet t' _ P).
  - exact Hls.
  - intros RF Hr2. eapply wp_mono; [apply wp_view, (wp_ReleaseBatch i mode b out [] (fun _ => True) RF _ _ Hi) |].
    + done.
    + rewrite app_nil_r. exact Hr2.
    + by rewrite app_nil_r.
    + cbn. by rewrite Hg1.
    + done.
    + cbn. by intros _ o g2 [-> _].
  - intros [] o1 o2 R1 g2 g3 Ho Hr2 -> Hls2. apply split_comm, split_empty in Ho. subst o2. by apply (Hk R1 g2 g3).
Qed.

(** ** One class *)

(** Lists do not grow. *)
Definition no_longer t t' : Prop := forall i, is_class i -> fl_size (free_lists t' i) <= fl_size (free_lists t i).

Lemma no_longer_refl t : no_longer t t.
Proof. by intros i _. Qed.
Lemma no_longer_trans t1 t2 t3 : no_longer t1 t2 -> no_longer t2 t3 -> no_longer t1 t3.
Proof. intros H12 H23 i Hi. etransitivity; [by apply H23 | by apply H12]. Qed.

(** The result of a program on a thread's cache. *)
Definition tc_result P (x : Z -> Z) (rel : ThreadCache -> Prop) : ThreadCache -> share -> Globals W -> Prop :=
  fun t' o g => rel t' /\ exists C', tc_own t' x C' P o g.

Lemma wp_tc_ret R P x (rel : ThreadCache -> Prop) t C g0 g : tc_at R P t x C g0 g -> rel t -> wp (Ret t) (tc_result P x rel) R g0 g.
Proof. intros [Hr Ho]%tc_at_rest Hrel. eapply wp_ret; [exact Hr |]. split; [done | by exists C]. Qed.

Lemma trim_evict_count_bounds c target evictable size : 0 <= evictable -> 0 < size < W64 ->
  exists n, trim_evict_count c target evictable size = Ok n /\ 0 <= n <= evictable.
Proof.
  intros He Hs. unfold trim_evict_count. destruct (_ && _); [| exists 0; split; [done | lia]].
  unfold udiv. rewrite (proj2 (Z.eqb_neq _ 0)), bind_Ok_l by lia. eexists. split; [reflexivity |].
  pose proof (u64_range (u64 (c - target + size) - 1)) as Hr.
  assert (0 <= u64 (u64 (c - target + size) - 1) / size) by (apply Z.div_pos; lia). lia.
Qed.

Lemma wp_trim_evict R P t x C g0 g mode i n c :
  tc_at R P t x C g0 g -> is_class i -> 0 <= n <= fl_size (free_lists t i) ->
  wp (trim_evict_sections t mode i (Size i) n c) (fun r => tc_result P x (no_longer t) r.1) R g0 g.
Proof.
  intros Ha Hi Hn. unfold trim_evict_sections. destruct (Z.ltb_spec 0 n) as [Hpos | Hz].
  2: { apply tc_at_rest in Ha as [Hr Ho]. eapply wp_ret; [exact Hr |]. split; [apply no_longer_refl | by exists C]. }
  pose proof (tc_at_size _ _ _ _ _ _ _ i Ha Hi) as Hsize.
  destruct (PopBatchTail_rep (central_mem g) (free_lists t i) (C i) n i) as (b & fl & m' & Hpop & Hb & Hkeep & Hm & Hquota);
    [by eapply tc_at_list | lia | done |].
  set (kk := (length (C i) - Z.to_nat n)%nat) in *. eapply wp_act_then; [by rewrite Hpop, bind_Ok_l |]. cbn iota beta.
  eapply (wp_give_back R P t x C g0 g _ i _ fl m' b (take kk (C i)) (drop kk (C i))); try done; [by rewrite take_drop | |].
  { eapply same_except_mono; [| exact Hm]. intros y Hy. by eapply elem_of_subseteq; [apply subseteq_take |]. }
  intros R1 g2 g3 Hr Hls. eapply wp_ret; [exact Hr |].
  assert (Hfl : 0 <= fl_size fl <= fl_size (free_lists t i)) by (destruct Hkeep as (_ & -> & _); rewrite length_take; lia).
  split; cbn [fst].
  - intros j Hj. cbn. destruct (decide (j = i)) as [-> | Hne]; [rewrite upd_free_list_eq; lia | by rewrite upd_free_list_ne].
  - eexists. constructor; [done | exact Hls |]. apply shorter_quota; [by eapply tc_at_quota | done | done | done].
Qed.

Lemma wp_trim_class R P t x C g0 g mode target i c :
  tc_at R P t x C g0 g -> (forall j, is_class j -> 0 <= x j <= 1) -> is_class i ->
  wp (trim_class_sections t mode target i c) (fun r => tc_result P x (no_longer t) r.1) R g0 g.
Proof.
  intros Ha Hx Hi. unfold trim_class_sections. cbv zeta. pose proof (Size_range i Hi) as Hsz. unfold ALIGNMENT, MAX_TC_SIZE in Hsz.
  pose proof (qo_size _ _ (tc_at_quota _ _ _ _ _ _ _ Ha) i Hi) as Hsize. pose proof (class_batch i Hi) as Hbn.
  set (ev := trim_evictable _ _ _). assert (Hev : 0 <= ev <= fl_size (free_lists t i)) by (subst ev; unfold trim_evictable; destruct mode; lia).
  destruct (trim_evict_count_bounds c target ev (Size i)) as (n & Hn & Hnb); [lia | lia |].
  eapply wp_pure_then; [exact Hn |]. eapply wp_bind; [eapply wp_trim_evict; [exact Ha | exact Hi | lia] |].
  intros [t1 c1] o R1 g1 g2 Hr [Hle [C1 Ho]]. cbn [fst] in *. pose proof (tc_at_intro _ _ _ _ _ _ _ _ Hr Ho) as Ha1.
  destruct Ha1 as [(G & Hinv) HP Hu] eqn:E. clear E.
  destruct (trim_quota_ok (H1 := reserve_laws (sh_pages R1 ∪ P)) t1 g2 x G C1 _ _ mode i Hinv ltac:(intros; apply Hx; done) Hi)
    as (t2 & g3 & Hq & Hinv2 & Hmv & Hs2 & _). eapply wp_act_then; [exact Hq |].
  pose proof (tc_at_step _ _ _ _ _ _ _ _ _ _ _ _ Ha1 Hinv2 (mv_und _ _ _ _ _ _ Hmv)) as Ha2.
  apply tc_at_rest in Ha2 as [Hr2 Ho2]. eapply wp_ret; [exact Hr2 |]. split; [| by exists C1].
  intros j Hj. cbn [fst]. rewrite Hs2. by apply Hle.
Qed.

Lemma wp_trim_classes P x mode target : (forall j, is_class j -> 0 <= x j <= 1) -> forall n R t C g0 g c,
  tc_at R P t x C g0 g -> Z.of_nat n <= kNumSizeClasses ->
  wp (trim_classes_sections n t mode target c) (tc_result P x (no_longer t)) R g0 g.
Proof.
  intros Hx n. induction n as [| n IH]; intros R t C g0 g c Ha Hn; cbn [trim_classes_sections].
  { eapply wp_tc_ret; [exact Ha | apply no_longer_refl]. }
  eapply wp_bind; [eapply wp_trim_class; [exact Ha | exact Hx | split; lia] |].
  intros [t1 c1] o R1 g1 g2 Hr [Hle [C1 Ho]]. cbn [fst] in *.
  eapply wp_mono; [eapply IH; [by eapply tc_at_intro | lia] |]. intros t2 o2 g3 [Hle2 Hc]. split; [by eapply no_longer_trans | done].
Qed.

(** Counting does not touch the caches. *)
Lemma tc_at_stats R P t x C g0 g c n : tc_at R P t x C g0 g -> tc_at R P t x C g0 (tc_add c n g).
Proof. intros [(G & Hi) HP Hu]. constructor; [exists G; by destruct Hi | done | done]. Qed.

Lemma wp_Trim R P t x C g0 g mode target : tc_at R P t x C g0 g -> (forall j, is_class j -> 0 <= x j <= 1) ->
  wp (Trim_sections t mode target) (tc_result P x (no_longer t)) R g0 g.
Proof.
  intros Ha Hx. unfold Trim_sections. cbv zeta. eapply wp_doing_then; [reflexivity |].
  eapply wp_trim_classes; [exact Hx | by do 2 apply tc_at_stats | by rewrite kNumSizeClasses_val].
Qed.

Lemma wp_Handle R P t x C g0 g : tc_at R P t x C g0 g -> (forall j, is_class j -> 0 <= x j <= 1) ->
  wp (HandleGlobalTrimRequest_sections t) (tc_result P x (no_longer t)) R g0 g.
Proof.
  intros Ha Hx. unfold HandleGlobalTrimRequest_sections, load_request. pose proof (proj1 (tc_at_rest _ _ _ _ _ _ _ Ha)) as Hr.
  eapply wp_yield_then; [exact Hr |]. intros R1 g1 Hr1 Hq. pose proof (tc_at_later _ _ _ _ _ _ _ _ _ Ha Hr1 Hq) as Ha1.
  eapply wp_reading_then; [reflexivity |]. cbv zeta. destruct (_ =? _); [eapply wp_tc_ret; [exact Ha1 | apply no_longer_refl] |].
  eapply wp_bind; [eapply wp_Trim; [exact Ha1 | exact Hx] |]. intros t1 o R2 g2 g3 Hr2 [Hle [C1 [-> Hls Hq1]]].
  eapply wp_ret; [exact Hr2 |]. split; [exact Hle |]. exists C1. constructor; [done | exact Hls | by destruct Hq1; constructor].
Qed.

(** ** Draining *)

Lemma wp_release_list R P t C g0 g i : tc_at R P t calm C g0 g -> is_class i ->
  wp (release_list_sections t i) (fun t' o g' => fl_empty (free_lists t' i) = true /\
    (forall j, j <> i -> free_lists t' j = free_lists t j) /\ exists C', tc_own t' calm C' P o g') R g0 g.
Proof.
  intros Ha Hi. unfold release_list_sections. pose proof (tc_at_list _ _ _ _ _ _ _ i Ha Hi) as Hrep.
  eapply (wp_bind _ _ (fun t' o g' => fl_size (free_lists t' i) = 0 /\
    (forall j, j <> i -> free_lists t' j = free_lists t j) /\ exists C', tc_own t' calm C' P o g' /\ C' i = [])).
  { rewrite (fl_empty_rep _ _ _ Hrep). case_bool_decide as E.
    { apply tc_at_rest in Ha as [Hr Ho]. eapply wp_ret; [exact Hr |]. destruct Hrep as (_ & -> & _). rewrite E. split; [done |]. split; [done |]. by exists C. }
    pose proof (tc_at_size _ _ _ _ _ _ _ i Ha Hi) as Hsz.
    destruct (PopBatch_rep (central_mem g) (free_lists t i) (C i) (fl_size (free_lists t i)) i Hrep Hi) as (b & fl & m' & Hpop & Hb & Hkeep & Hm & Hquota).
    rewrite Hsz, Nat2Z.id in Hb, Hkeep, Hm. rewrite take_ge in Hb, Hm by lia. rewrite drop_all in Hkeep.
    eapply wp_act_then; [by rewrite Hpop, bind_Ok_l |]. cbn iota beta.
    eapply (wp_give_back R P t calm C g0 g _ i _ fl m' b [] (C i)); try done. intros R1 g2 g3 Hr Hls. eapply wp_ret; [exact Hr |].
    assert (Hfl : fl_size fl = 0) by (by destruct Hkeep as (_ & -> & _)). cbn. rewrite upd_free_list_eq. split; [done |].
    split; [intros j Hj; by apply upd_free_list_ne |]. eexists. split; [| apply upd_fun_eq]. constructor; [done | exact Hls |].
    apply shorter_quota; [by eapply tc_at_quota | done | done | lia]. }
  intros t1 o R1 g1 g2 Hr (Hs1 & Hoth & C1 & Ho & HC1). pose proof (tc_at_intro _ _ _ _ _ _ _ _ Hr Ho) as Ha1.
  pose proof Ha1 as [(G & [Hl1 Hq1]) _ _].
  destruct (SetQuota_ok t1 g2 calm i 1 0 Hq1 Hi) as (t2 & g3 & Hset & Hrq); [lia | left; by apply Hq1 |].
  eapply wp_act_then; [exact Hset |]. pose proof Hrq as Hrq'.
  apply (requoted_quota t1 g2 calm i _ _ _ _ Hq1 Hi) in Hrq'; [| lia | by split | left; by apply Hq1 | rewrite Hs1; by unfold calm].
  assert (Ha2 : tc_at R1 P (set_list_overages t2 i 0) calm C1 g1 g3).
  { eapply tc_at_step; [exact Ha1 | constructor; [| exact Hrq'] | rewrite (rq_central _ _ _ _ _ _ _ Hrq); apply undisturbed_refl].
    rewrite (rq_central _ _ _ _ _ _ _ Hrq). eapply requoted_live; [exact Hl1 | exact Hi | | exact Hrq]. lia. }
  pose proof (tc_at_list _ _ _ _ _ _ _ i Ha2 Hi) as Hrep2. rewrite HC1 in Hrep2.
  apply tc_at_rest in Ha2 as [Hr2 Ho2]. eapply wp_ret; [exact Hr2 |]. split; [by rewrite (fl_empty_rep _ _ _ Hrep2) |].
  split; [intros j Hj; by rewrite (rq_other _ _ _ _ _ _ _ Hrq), Hoth | by exists C1].
Qed.

Lemma wp_release_lists P : forall n i R t C g0 g, tc_at R P t calm C g0 g -> 0 <= i -> i + Z.of_nat n = kNumSizeClasses ->
  (forall j, 0 <= j < i -> fl_empty (free_lists t j) = true) ->
  wp (release_lists_sections n i t) (tc_result P calm (fun t' => forall j, is_class j -> fl_empty (free_lists t' j) = true)) R g0 g.
Proof.
  induction n as [| n IH]; intros i R t C g0 g Ha H0i Hn He; cbn [release_lists_sections].
  { eapply wp_tc_ret; [exact Ha |]. intros j Hj. apply He. unfold is_class in Hj. lia. }
  eapply wp_bind; [eapply wp_release_list; [exact Ha | split; lia] |]. intros t1 o R1 g1 g2 Hr (Hi & Hoth & C1 & Ho).
  eapply IH; [by eapply tc_at_intro | lia | lia |]. intros j Hj. destruct (decide (j = i)) as [-> | Hne]; [done |].
  rewrite Hoth by done. apply He. lia.
Qed.

Lemma wp_ReleaseAll R P t C g0 g : tc_at R P t calm C g0 g ->
  wp (ReleaseAll_sections t) (tc_result P calm (fun t' => forall j, is_class j -> fl_empty (free_lists t' j) = true)) R g0 g.
Proof. intros Ha. eapply wp_release_lists; [exact Ha | done | by rewrite kNumSizeClasses_val | lia]. Qed.
End Trim.
