(* ===== verification/ThreadCallsAlloc.v ===== *)
(** * Allocating and freeing on a thread cache while calls are in flight

    [Allocate] and [Deallocate] with their slow paths, one critical section at a
    time: the object handed out is the caller's own, whatever the other threads do
    meanwhile, and an object handed in joins the thread's lists. *)
From S2P Require Import Prelude Config SizeClass FreeList Common Span SpanList Backing PageMap PageCache PageCacheInv.
From S2P Require Import PageCacheAlloc PageCacheMerge PageCacheRelease CentralCache CentralInv CentralSteps CentralRelease CentralFetch.
From S2P Require Import ThreadCache ThreadCacheInv ThreadCacheSteps ThreadCacheTrim ThreadCacheAlloc ThreadCacheFree.
From S2P Require Import Sections CentralCalls CentralShares CentralCallsRelease CentralCallsFetch ThreadCalls ThreadShares ThreadCallsTrim.
Open Scope Z_scope.

Section Alloc.
Context {W : Type} `{BackingLaws W} `{StaticLayout} `{CentralLayout}.
Implicit Types (s : CentralCache W) (g : Globals W) (t : ThreadCache) (G : ghost) (V : runs) (Hd : held) (C : Z -> list Z).
Implicit Types (o R T F : share) (P : gset Z).

(** ** Handing out *)

(** The cache and an object of class [idx] at [p]. *)
Definition tc_gave t P (idx p : Z) o g : Prop :=
  exists C', own_split o (hand idx [p] ∅) (thread_share C' P) /\ tc_own t calm C' P (thread_share C' P) g.

Definition alloc_result P (idx : Z) : Z * ThreadCache -> share -> Globals W -> Prop := fun r o g =>
  r.1 = 0 /\ dried_up (W := W) idx /\ (exists C', tc_own r.2 calm C' P o g) \/ r.1 <> 0 /\ tc_gave r.2 P idx r.1 o g.

Lemma wp_pop R P t C g0 g idx p l : tc_at R P t calm C g0 g -> is_class idx -> C idx = p :: l ->
  wp (act (fun g => pop_list t g idx)) (alloc_result P idx) R g0 g.
Proof.
  intros Ha Hidx HC. pose proof Ha as [(G & [Hl Hq]) _ _].
  destruct (pop_list_ok (H1 := reserve_laws (sh_pages R ∪ P)) t g G C _ _ idx p l Hl Hidx HC) as (fl & Hpop & Hquota & Hsz & Hnz & _ & Hl').
  pose proof (tc_at_nodup _ _ _ _ _ _ _ idx Ha Hidx) as Hnd. pose proof (tc_at_size _ _ _ _ _ _ _ idx Ha Hidx) as Hs0. rewrite HC in Hs0. cbn [length] in Hs0.
  eapply wp_act; [exact Hpop | exact (proj1 (tc_at_rest _ _ _ _ _ _ _ Ha)) |]. right. split; [exact Hnz |].
  exists (upd_fun C idx l). split; [apply (thread_split C P idx l [p] Hidx Hnd); rewrite HC; apply Permutation_cons_append |].
  constructor; [done | exact (tl_list _ _ _ _ _ _ Hl') |]. apply shorter_quota; [exact Hq | exact Hidx | exact Hquota | lia].
Qed.

(** ** The refill *)

(** A fetched batch joins the empty list. *)
Lemma accept_at R P t C idx b l o g0 g : at_rest R o g0 g -> own_split o (hand idx l ∅) (thread_share C P) ->
  lists_ok t C g -> quota_ok t calm -> is_class idx -> C idx = [] -> batch_rep (central_mem g) b idx l -> NoDup l ->
  Z.of_nat (length l) <= fl_max_size (free_lists t idx) ->
  exists t' g', AcceptFetchedBatch t g idx b = Ok (t', g') /\ tc_at R P t' calm (upd_fun C idx l) g0 g' /\
    fl_size (free_lists t' idx) = Z.of_nat (length l) /\ fl_max_size (free_lists t' idx) = fl_max_size (free_lists t idx).
Proof.
  intros (G & Hb)%at_rest_beside Ho Hls Hq Hidx HC Hbat Hnd Hlen. destruct Hb as [Hcc Htd DO DR DP Hu]. destruct Ho as [[EO DO1] [[ER _] [EP _]]].
  cbn in ER, EP. rewrite map_union_empty in ER. rewrite union_empty_l_L in EP. rewrite ER, EP in *. rewrite map_union_empty in Hcc.
  assert (Hobj : forall j y, (j, y) ∈ sh_objs o <-> j = idx /\ y ∈ l \/ is_class j /\ y ∈ C j).
  { intros j y. rewrite EO, elem_of_union. cbn [hand thread_share sh_objs]. rewrite elem_of_objs, elem_of_list_to_set, list_elem_of_fmap. naive_solver. }
  assert (Hcc' : cc_inv (H1 := reserve_laws (sh_pages R ∪ P)) (gl_central g) G (give (cached (held_of (sh_objs R)) C) idx (list_to_set l)) (sh_runs R)).
  { eapply cc_inv_held; [| exact Hcc]. intros j Hj. apply set_eq. intros y. rewrite elem_of_held, elem_of_union, Hobj. unfold give, cached.
    destruct (decide (j = idx)) as [-> | Hne]; [rewrite upd_fun_eq | rewrite upd_fun_ne by done];
      rewrite !elem_of_union, elem_of_held, ?elem_of_list_to_set; naive_solver. }
  pose proof (max_bound t calm idx Hq Hidx) as Hmax. change (2 ^ 62) with 4611686018427387904 in Hmax.
  destruct (accept_ok (H1 := reserve_laws (sh_pages R ∪ P)) t g G C (held_of (sh_objs R)) (sh_runs R) idx b l Hcc' Htd Hidx Hls)
    as (fl & m' & Hacc & Hquota & Hsz & Hl3 & Hun3); [| exact Hbat | | exact HC | lia |].
  { intros i y Hi Hy Hin%elem_of_held. apply elem_of_disjoint in DO. apply (DO (i, y) Hin), Hobj. by right. }
  { intros y Hy Hin. unfold cached in Hin. rewrite HC in Hin. apply elem_of_union in Hin as [Hin%elem_of_held | Hin]; [| set_solver].
    apply elem_of_disjoint in DO. apply (DO (idx, y) Hin), Hobj. by left. }
  eexists _, _. split; [exact Hacc |]. split; [| cbn; rewrite upd_free_list_eq; split; [done | apply Hquota]].
  constructor; [| exact DP | eapply undisturbed_trans; [exact Hu | exact Hun3]]. exists G. constructor; [exact Hl3 |].
  destruct Hquota as [Em Eo]. destruct Hq as [Q1 Q2 Q3 Q4 Q5].
  assert (Hsum : quota_bytes (with_list t idx fl) = quota_bytes t).
  { apply class_sum_ext. intros i Hci. cbn. destruct (decide (i = idx)) as [-> | Hne]; [by rewrite upd_free_list_eq, Em | by rewrite upd_free_list_ne]. }
  constructor; cbn [free_lists with_list reserved_quota_bytes cache_budget_bytes]; rewrite ?Hsum; try done; intros i Hci.
  all: destruct (decide (i = idx)) as [-> | Hne]; [rewrite upd_free_list_eq; unfold list_slack; rewrite ?Em, ?Eo | rewrite upd_free_list_ne by done]; auto.
  rewrite Hsz. unfold calm. case_cmp; lia.
Qed.

(** The quota step after a full refill, then the object. *)
Lemma wp_refill_section R P t C g0 g idx p l batch : tc_at R P t calm C g0 g -> is_class idx -> C idx = p :: l ->
  2 <= batch <= kMaxBatchSize -> fl_size (free_lists t idx) <= fl_max_size (free_lists t idx) ->
  wp (t ← refill_section t idx batch; act (fun g => pop_list (set_list_overages t idx 0) g idx)) (alloc_result P idx) R g0 g.
Proof.
  intros Ha Hidx HC Hbat Hsz. pose proof Ha as [(G & [Hl Hq]) _ _].
  destruct (grow_quota_ok t g calm idx batch Hq Hidx Hbat) as (t4 & g4 & k & Hgrow & Hk & Hrq & Hq4); [done | exact Hsz |].
  unfold refill_section. eapply wp_act_then; [exact Hgrow |]. eapply wp_pop; [| exact Hidx | exact HC].
  eapply tc_at_step; [exact Ha | constructor; [| exact Hq4] | rewrite (rq_central _ _ _ _ _ _ _ Hrq); apply undisturbed_refl].
  rewrite (rq_central _ _ _ _ _ _ _ Hrq). eapply requoted_live; [exact Hl | exact Hidx | exact Hk | exact Hrq].
Qed.

Lemma no_longer_nil t t' C C' idx (m m' : mem) : is_class idx -> no_longer t t' -> FreeList_rep m (free_lists t idx) (C idx) ->
  FreeList_rep m' (free_lists t' idx) (C' idx) -> C idx = [] -> C' idx = [].
Proof.
  intros Hidx Hle (_ & E & _) (_ & E' & _) HC. specialize (Hle idx Hidx). rewrite E, E', HC in Hle. cbn in Hle. destruct (C' idx); [done | cbn in Hle; lia].
Qed.

Lemma wp_Fetch R P t C g0 g idx : tc_at R P t calm C g0 g -> is_class idx -> C idx = [] ->
  wp (FetchFromCentralCache_sections t idx) (alloc_result P idx) R g0 g.
Proof.
  intros Ha Hidx HC. unfold FetchFromCentralCache_sections. eapply wp_bind; [eapply wp_Handle; [exact Ha | done] |].
  intros t1 o R1 g1 g2 Hr (Hle & C1 & Ho). pose proof (tc_at_intro _ _ _ _ _ _ _ _ Hr Ho) as Ha1. pose proof Ho as [-> Hls1 Hq1].
  assert (HC1 : C1 idx = []) by (eapply no_longer_nil; [exact Hidx | exact Hle | by eapply tc_at_list | by apply Hls1 | exact HC]).
  pose proof (Hls1 idx Hidx) as Hrep1. rewrite HC1 in Hrep1.
  eapply wp_pure_then; [rewrite (fl_empty_rep _ _ _ Hrep1); apply AM_DCHECK_true |]. cbv zeta.
  pose proof (class_batch idx Hidx) as Hbat. set (batch := CalculateBatchSize (Size idx)) in *. pose proof (max_bound t1 _ idx Hq1 Hidx) as Hmax.
  set (n := Z.min batch (fl_max_size (free_lists t1 idx))) in *.
  eapply (wp_call (central (FetchBatch_sections idx n)) _ (fun b o g => fetched idx n b o (gl_central g)) _ (thread_share C1 P) (lists_ok t1 C1) R1 _ empty_handed g1 g2 Hr).
  - exact (split_comm _ _ _ (empty_split _)).
  - intros g3 g4 Hq. by apply (lists_quiet t1 C1 P).
  - exact Hls1.
  - intros RF Hr2. pose proof (wp_FetchBatch idx Hidx n RF _ _ ltac:(lia) Hr2) as Hf. exact (wp_view _ _ RF g2 g2 Hf).
  - intros b o1 o2 R2 g3 g4 Hsp Hr2 (l & -> & Hb & Hnd & Hlen & Hdry) Hls2.
    assert (Hcount : ob_count b = Z.of_nat (length l)) by (destruct Hb as ((_ & _ & Hc) & _); exact Hc). rewrite Hcount.
    destruct (Z.eqb_spec (Z.of_nat (length l)) 0) as [E | E].
    { destruct l; [| cbn in E; lia]. apply split_comm, split_empty in Hsp. subst o2. eapply wp_ret; [exact Hr2 |]. left. split; [done |].
      split; [destruct Hdry as [Hd | Hd]; [cbn in Hd; lia | exact Hd] |]. exists C1. by constructor. }
    destruct (accept_at R2 P t1 C1 idx b l o2 g3 g4 Hr2 Hsp Hls2 Hq1 Hidx HC1 Hb Hnd) as (t3 & g5 & Hacc & Ha3 & Hs3 & Hm3); [lia |].
    eapply wp_act_then; [exact Hacc |]. destruct l as [| p l]; [done |].
    assert (HC3 : upd_fun C1 idx (p :: l) idx = p :: l) by apply upd_fun_eq.
    destruct (_ <? n); [by eapply wp_pop | eapply wp_refill_section; try done; lia].
Qed.

Lemma wp_Allocate R P t C g0 g size : tc_at R P t calm C g0 g -> 0 <= size <= MAX_TC_SIZE ->
  wp (Allocate_sections t size) (alloc_result P (Index size)) R g0 g.
Proof.
  intros Ha Hs. unfold Allocate_sections. eapply wp_pure_then; [rewrite (proj2 (Z.leb_le _ _)) by lia; apply AM_DCHECK_true |]. cbv zeta.
  assert (Hidx : is_class (Index size)) by (apply Index_range; lia).
  rewrite (fl_empty_rep _ _ _ (tc_at_list _ _ _ _ _ _ _ _ Ha Hidx)). destruct (C (Index size)) as [| p l] eqn:HC; cbn.
  - by eapply wp_Fetch.
  - by eapply wp_pop.
Qed.

(** ** Taking in *)

Lemma wp_DeallocateSlowPath R P t C g0 g idx : tc_at R P t (one_over idx) C g0 g -> is_class idx ->
  wp (DeallocateSlowPath_sections t idx) (tc_result P calm (fun _ => True)) R g0 g.
Proof.
  intros Ha Hidx. unfold DeallocateSlowPath_sections. eapply wp_bind; [eapply wp_Handle; [exact Ha | apply one_over_bounds] |].
  intros t1 o R1 g1 g2 Hr (_ & C1 & Ho). pose proof (tc_at_intro _ _ _ _ _ _ _ _ Hr Ho) as Ha1. pose proof Ho as [_ Hls1 Hq1].
  pose proof (class_batch idx Hidx) as Hbat. cbv zeta. set (batch := CalculateBatchSize (Size idx)) in *.
  assert (Hone : forall i, is_class i -> i <> idx ->
    fl_size (free_lists t1 i) <= fl_max_size (free_lists t1 i) + list_slack (free_lists t1 i)).
  { intros i Hci Hne. pose proof (qo_size _ _ Hq1 i Hci) as Hs. unfold one_over in Hs. rewrite decide_False in Hs by done. lia. }
  assert (Hslack : 0 <= list_slack (free_lists t1 idx) <= 1) by (unfold list_slack; case_cmp; lia).
  destruct (Z.leb_spec (fl_size (free_lists t1 idx)) (fl_max_size (free_lists t1 idx))) as [Hle | Hgt].
  { destruct Ho as [-> _ _]. eapply wp_ret; [exact Hr |]. split; [done |]. exists C1. constructor; [done | exact Hls1 |].
    eapply quota_calm; [exact Hq1 |]. intros i Hci. destruct (decide (i = idx)) as [-> | Hne]; [lia | by apply Hone]. }
  destruct (PopBatchTail_rep (central_mem g2) (free_lists t1 idx) (C1 idx) batch idx) as (b & fl & m' & Hpop & Hb & Hkeep & Hm & Hquota);
    [by apply Hls1 | lia | done |].
  pose proof (tc_at_size _ _ _ _ _ _ _ idx Ha1 Hidx) as Hlen. set (k := (length (C1 idx) - Z.to_nat batch)%nat) in *.
  eapply wp_act_then; [by rewrite Hpop, bind_Ok_l |]. cbn iota beta. rewrite (batch_empty_rep _ _ _ _ Hb), bool_decide_eq_false_2.
  2: { intros E. apply (f_equal length) in E. rewrite length_drop in E. cbn in E. pose proof (qo_max _ _ Hq1 idx Hidx). lia. }
  assert (Hfl : fl_size fl = Z.of_nat k) by (destruct Hkeep as (_ & -> & _); rewrite length_take; lia).
  set (t2 := with_list t1 idx fl) in *.
  assert (Hq2 : quota_ok t2 (one_over idx)) by (apply shorter_quota; [done | done | done | lia]).
  assert (Ht2 : free_lists t2 idx = fl) by (subst t2; cbn; by rewrite upd_free_list_eq). rewrite !Ht2.
  eapply (wp_give_back R1 P t1 _ C1 g1 g2 _ idx _ fl m' b (take k (C1 idx)) (drop k (C1 idx))); try done; [by rewrite take_drop | |].
  { eapply same_except_mono; [| exact Hm]. intros y Hy. by eapply elem_of_subseteq; [apply subseteq_take |]. }
  intros R3 g3 g4 Hr4 Hls2.
  pose proof (qo_size _ _ Hq1 idx Hidx) as Hsz1. unfold one_over in Hsz1. rewrite decide_True in Hsz1 by done.
  destruct Hquota as [Em Eo]. pose proof (max_bound t2 _ idx Hq2 Hidx) as Hmax. rewrite Ht2 in *.
  assert (Hq2c : quota_ok t2 calm).
  { eapply quota_calm; [exact Hq2 |]. intros i Hci. destruct (decide (i = idx)) as [-> | Hne].
    - rewrite Ht2. unfold list_slack. case_cmp; lia.
    - subst t2. cbn. rewrite upd_free_list_ne by done. by apply Hone. }
  pose proof (qo_ov _ _ Hq2c idx Hidx) as Hov. rewrite Ht2 in Hov.
  pose proof (overflow_limits (fl_max_size fl) batch (fl_overages fl) (fl_size fl) Hmax Hbat Hov) as Hq. cbn zeta in Hq.
  specialize (Hq ltac:(unfold list_slack in *; rewrite Em, Eo; lia)). set (q := NextAfterOverflow _ _ _) in *. destruct Hq as (Hqm & Hqo & Hqs).
  destruct (SetQuota_ok t2 g4 calm idx (q_max_size q) (q_overages q) Hq2c Hidx) as (t3 & g5 & Hset & Hrq); [lia | rewrite Ht2; lia |].
  eapply wp_act_then; [exact Hset |].
  assert (Ha4 : tc_at R3 P t2 calm (upd_fun C1 idx (take k (C1 idx))) g3 g4) by (eapply tc_at_intro; [exact Hr4 | by constructor]).
  pose proof Ha4 as [(G & [Hl4 _]) _ _]. eapply wp_tc_ret; [| done].
  eapply tc_at_step; [exact Ha4 | constructor | rewrite (rq_central _ _ _ _ _ _ _ Hrq); apply undisturbed_refl].
  - rewrite (rq_central _ _ _ _ _ _ _ Hrq). eapply requoted_live; [exact Hl4 | exact Hidx | | exact Hrq]. lia.
  - apply (requoted_quota t2 g4 calm idx _ _ _ _ Hq2c Hidx) in Hrq; [exact Hrq | lia | done | left; rewrite Ht2; lia |].
    rewrite Ht2. unfold calm. lia.
Qed.

Lemma tc_inv_held `{!BackingLaws W} t g x G C Hd Hd' V : (forall j, is_class j -> Hd j = Hd' j) -> tc_inv t g x G C Hd V -> tc_inv t g x G C Hd' V.
Proof.
  intros Heq [[Hcc Htd Hls Hap] Hq]. constructor; [| done]. constructor; try done.
  - eapply cc_inv_held; [| exact Hcc]. intros j Hj. unfold cached. by rewrite Heq.
  - intros i y Hi. rewrite <- (Heq i Hi). by apply Hap.
Qed.

(** An object of the caller's joins the list of its class. *)
Lemma push_at R P t C idx p o g0 g : at_rest R o g0 g -> own_split o (hand idx [p] ∅) (thread_share C P) ->
  lists_ok t C g -> quota_ok t calm -> is_class idx ->
  exists fl m', p <> 0 /\ Push (central_mem g) (free_lists t idx) p = Ok (fl, m') /\
    tc_at R P (with_list t idx fl) (one_over idx) (upd_fun C idx (p :: C idx)) g0 (with_words g m').
Proof.
  intros Hr Ho%split_comm Hls Hq Hidx. destruct (at_rest_part _ _ _ _ _ _ Ho Hr) as (RF & HRF & Hr1).
  assert (Ha : tc_at RF P t calm C g g) by (eapply tc_at_intro; [exact Hr1 | by constructor]).
  destruct Ha as [(G & Hi) HP _]. destruct HRF as [[EO DO] [[ER _] [EP _]]]. cbn in ER, EP.
  rewrite map_union_empty in ER. rewrite union_empty_r_L in EP. rewrite ER, EP in *.
  assert (Hin : forall j y, y ∈ held_of (sh_objs RF) j <-> y ∈ held_of (sh_objs R) j \/ j = idx /\ y = p).
  { intros j y. rewrite EO, held_of_union, elem_of_union, (held_of_hand idx [p] ∅). unfold give, upd_fun. case_decide; set_solver. }
  destruct (push_ok (H1 := reserve_laws (sh_pages R ∪ P)) t g G C (held_of (sh_objs RF)) (sh_runs R) idx p Hi Hidx) as (fl & m' & Hpush & Hi' & Hun); [apply Hin; by right |].
  pose proof (tl_cc _ _ _ _ _ _ (ti_live _ _ _ _ _ _ _ Hi)) as Hcc.
  destruct (object_word _ _ _ _ Hcc idx p Hidx (or_introl (cached_sub _ C idx p (proj2 (Hin idx p) (or_intror (conj eq_refl eq_refl)))))) as (_ & _ & Hnz & _).
  exists fl, m'. split; [done |]. split; [done |].
  assert (Heq : forall j, take_back (held_of (sh_objs RF)) idx {[p]} j = held_of (sh_objs R) j).
  { assert (Hp : p ∉ held_of (sh_objs R) idx).
    { rewrite elem_of_held. intros Hp. apply elem_of_disjoint in DO. apply (DO (idx, p) Hp). cbn. set_solver. }
    intros j. apply set_eq. intros y. unfold take_back. destruct (decide (j = idx)) as [-> | Hne].
    - rewrite upd_fun_eq, elem_of_difference, Hin, elem_of_singleton. split; [naive_solver |]. intros Hy. split; [by left | by intros ->].
    - rewrite upd_fun_ne, Hin by done. naive_solver. }
  destruct Hr as (T & _ & _ & Hu). constructor; [| done |].
  - exists G. eapply tc_inv_held; [| exact Hi']. intros j _. apply Heq.
  - eapply undisturbed_trans; [exact Hu |]. eapply undisturbed_mono; [| reflexivity | exact Hun]. intros j _. by rewrite Heq.
Qed.

Lemma wp_Deallocate R P t C idx p o g0 g : at_rest R o g0 g -> own_split o (hand idx [p] ∅) (thread_share C P) ->
  lists_ok t C g -> quota_ok t calm -> is_class idx ->
  wp (Deallocate_sections t p idx) (tc_result P calm (fun _ => True)) R g0 g.
Proof.
  intros Hr Ho Hls Hq Hidx. destruct (push_at R P t C idx p o g0 g Hr Ho Hls Hq Hidx) as (fl & m' & Hnz & Hpush & Ha).
  unfold Deallocate_sections. eapply wp_pure_then; [rewrite (proj2 (Z.eqb_neq p 0)) by done; apply AM_DCHECK_true |].
  eapply wp_pure_then; [rewrite (proj2 (Z.ltb_lt _ _)) by apply Hidx; apply AM_HCHECK_true |].
  eapply wp_act_then; [by rewrite Hpush, bind_Ok_l |]. cbv zeta. destruct (Z.ltb_spec (fl_max_size fl) (fl_size fl)) as [Hlt | Hge].
  - by eapply wp_DeallocateSlowPath.
  - pose proof (tc_at_quota _ _ _ _ _ _ _ Ha) as Hq1. apply tc_at_rest in Ha as [Hr1 [_ Hls1 _]]. eapply wp_ret; [exact Hr1 |]. split; [done |].
    eexists. constructor; [done | exact Hls1 |]. eapply quota_calm; [exact Hq1 |].
    intros i Hci. destruct (decide (i = idx)) as [-> | Hne]; [cbn; rewrite upd_free_list_eq; unfold list_slack; case_cmp; lia |].
    pose proof (qo_size _ _ Hq1 i Hci) as Hs. unfold one_over in Hs. rewrite decide_False in Hs by done. lia.
Qed.
End Alloc.
