(* ===== verification/Ammalloc.v ===== *)
(** * The public interface

    [am_malloc], [am_free] and the trim and purge requests (ammalloc.cpp): the
    calling thread's cache is found through its thread-local pointer and created
    on demand; large requests go to the page cache.  The operations take the
    thread's state and the process-wide one. *)
From S2P Require Import Prelude Config SizeClass FreeList Common Span SpanList Backing PageMap PageCache CentralCache.
From S2P Require Import ThreadCache.
Open Scope Z_scope.

(** ** State *)

(** [ptls] (null, or the address and the contents of the cache), and the flag the
    thread's cleaner sets. *)
Record Thread := mkThread {
  ptls : option (Z * ThreadCache);
  g_ThreadCacheAlreadyDestructed : bool
}.
Definition Thread_new : Thread := mkThread None false.

(** The process: what the caches share, the configuration, and whether the start
    of the scavenger was attempted. *)
Record Process (W : Type) := mkProcess {
  am_globals : Globals W;
  am_config : RuntimeConfig;
  am_started : bool
}.
Arguments mkProcess {W} _ _ _.
Arguments am_globals {W} _.
Arguments am_config {W} _.
Arguments am_started {W} _.

(** [sizeof(ThreadCache)]: forty free lists of four words and three words more,
    on whole cache lines. *)
Definition sizeof_FreeList : Z := 4 * 8.
Definition sizeof_ThreadCache : Z :=
  (kNumSizeClasses * sizeof_FreeList + 3 * 8 + CACHE_LINE_SIZE - 1) / CACHE_LINE_SIZE * CACHE_LINE_SIZE.
Definition tc_page_num : Z := Z.shiftr (sizeof_ThreadCache + PAGE_SIZE - 1) PAGE_SHIFT.

Definition kCooperativeTransferDrainBytes : Z := kDefaultTrimTargetBytes.
Definition kMaxRequestBytes : Z := SIZE_MAX - (PAGE_SIZE - 1).

Section Ops.
Context `{Build} `{StaticLayout} `{CentralLayout} {W : Type} `{Backing W}.
Implicit Types (th : Thread) (pr : Process W) (g : Globals W).

Definition with_globals pr g : Process W := mkProcess g (am_config pr) (am_started pr).
Definition pages_of g : PageCache W := cc_pages (gl_central g).
Definition with_page_cache g (p : PageCache W) : Globals W := with_central g (with_pages (gl_central g) p).

(** ** Thread caches *)

Definition CreateThreadCache th g : outcome (option (Z * ThreadCache) * Globals W) :=
  if g_ThreadCacheAlreadyDestructed th then Ok (None, g)
  else match ptls th with
  | Some tc => Ok (Some tc, g)
  | None =>
      '(ptr, w) ← bk_SystemAlloc tc_page_num (pc_w (pages_of g));
      let g := with_page_cache g (with_w (pages_of g) w) in
      if ptr =? 0 then Ok (None, g)
      else
        let '(t, g) := ThreadCache_new kDefaultCacheBudgetBytes g in
        Ok (Some (ptr, t), g)
  end.

Definition ReleaseThreadCache (tc : option (Z * ThreadCache)) g : outcome (Globals W) :=
  match tc with
  | None => Ok g
  | Some (ptr, t) =>
      g ← ThreadCache_destroy t g;
      p ← system_free (pages_of g) ptr tc_page_num;
      Ok (with_page_cache g p)
  end.

(** [~ThreadCacheCleaner], at thread exit. *)
Definition ThreadCacheCleaner_destroy th pr : outcome (Thread * Process W) :=
  match ptls th with
  | None => Ok (mkThread None true, pr)
  | Some (ptr, t) =>
      '(t, g) ← ReleaseAll t (am_globals pr);
      g ← ReleaseThreadCache (Some (ptr, t)) g;
      Ok (mkThread None true, with_globals pr g)
  end.

(** [Start] and the exceptions it may raise change nothing else here. *)
Definition EnsureScavengerStarted pr : Process W :=
  if negb (enable_scavenger_ (am_config pr)) then pr
  else mkProcess (am_globals pr) (am_config pr) true.

(** ** Allocation *)

Definition thread_allocate th pr (ptr : Z) (t : ThreadCache) (original_size : Z) : outcome (Z * Thread * Process W) :=
  '(p, t, g) ← Allocate t (am_globals pr) original_size;
  Ok (p, mkThread (Some (ptr, t)) (g_ThreadCacheAlreadyDestructed th), with_globals pr g).

Definition am_malloc_slow_path th pr (original_size : Z) : outcome (Z * Thread * Process W) :=
  let pr := EnsureScavengerStarted pr in
  if MAX_TC_SIZE <? original_size
  then
    if kMaxRequestBytes <? original_size then Ok (0, th, pr)
    else
      let aligned_size := AlignUp original_size PAGE_SIZE in
      let page_num := Z.shiftr aligned_size PAGE_SHIFT in
      '(span, p) ← AllocSpan (pages_of (am_globals pr)) page_num;
      let pr := with_globals pr (with_page_cache (am_globals pr) p) in
      if span =? 0 then Ok (0, th, pr)
      else d ← get_span (pc_spans p) span; Ok (GetPageBaseAddr d, th, pr)
  else
    match ptls th with
    | Some (ptr, t) => thread_allocate th pr ptr t original_size
    | None =>
        '(tc, g) ← CreateThreadCache th (am_globals pr);
        let pr := with_globals pr g in
        match tc with
        | None => Ok (0, mkThread None (g_ThreadCacheAlreadyDestructed th), pr)
        | Some (ptr, t) => thread_allocate th pr ptr t original_size
        end
    end.

Definition am_malloc th pr (original_size : Z) : outcome (Z * Thread * Process W) :=
  match ptls th with
  | None => am_malloc_slow_path th pr original_size
  | Some (ptr, t) =>
      if MAX_TC_SIZE <? original_size then am_malloc_slow_path th pr original_size
      else thread_allocate th pr ptr t original_size
  end.

(** ** Release *)

Definition thread_deallocate th pr (ptr : Z) (t : ThreadCache) (p idx : Z) : outcome (Thread * Process W) :=
  '(t, g) ← Deallocate t (am_globals pr) p idx;
  Ok (mkThread (Some (ptr, t)) (g_ThreadCacheAlreadyDestructed th), with_globals pr g).

Definition am_free_slow_path th pr (ptr span aligned_size idx : Z) : outcome (Thread * Process W) :=
  let g := am_globals pr in
  if aligned_size =? 0
  then
    d ← get_span (pc_spans (pages_of g)) span;
    _ ← AM_HCHECK (ptr =? GetPageBaseAddr d) "Invalid large-object pointer.";
    p ← ReleaseSpan (pages_of g) span;
    Ok (th, with_globals pr (with_page_cache g p))
  else
    match ptls th with
    | Some (a, t) => thread_deallocate th pr a t ptr idx
    | None =>
        '(tc, g) ← CreateThreadCache th g;
        let pr := with_globals pr g in
        match tc with
        | None =>
            '(b, m) ← FromSingleObject (central_mem g) ptr idx;
            s ← ReleaseBatch (with_mem (gl_central g) m) b kTransferCache;
            Ok (mkThread None (g_ThreadCacheAlreadyDestructed th), with_globals pr (with_central g s))
        | Some (a, t) => thread_deallocate th pr a t ptr idx
        end
    end.

Definition am_free th pr (ptr : Z) : outcome (Thread * Process W) :=
  if ptr =? 0 then Ok (th, pr)
  else
    let p := pages_of (am_globals pr) in
    span ← GetSpanOfPtr (pc_map p) ptr;
    if span =? 0 then Ok (th, pr)
    else
      d ← get_span (pc_spans p) span;
      _ ← AM_HCHECK (IsUsed d) "Pointer belongs to a released Span.";
      let page_idx := Z.shiftr ptr PAGE_SHIFT in
      _ ← AM_HCHECK ((start_page_idx d <=? page_idx) && (u64 (page_idx - start_page_idx d) <? page_num d))
            "Pointer lies outside the mapped Span.";
      let aligned_size := aligned_obj_size d in
      let idx := size_class_idx d in
      _ ← AM_HCHECK ((aligned_size =? 0) || ((idx <? kNumSizeClasses) && (Size idx =? aligned_size)))
            "Corrupted Span size-class metadata.";
      match ptls th with
      | Some (a, t) =>
          if aligned_size =? 0 then am_free_slow_path th pr ptr span aligned_size idx
          else
            _ ← AM_HCHECK (negb (ObjectSlotOf d ptr =? SIZE_MAX)) "Invalid small-object pointer.";
            thread_deallocate th pr a t ptr idx
      | None => am_free_slow_path th pr ptr span aligned_size idx
      end.

(** ** Trimming *)

Definition am_thread_cache_trim th pr : outcome (Thread * Process W) :=
  match ptls th with
  | None => Ok (th, pr)
  | Some (a, t) =>
      '(t, g) ← HandleGlobalTrimRequest t (am_globals pr);
      '(t, g) ← Trim t g kReuse kDefaultTrimTargetBytes;
      Ok (mkThread (Some (a, t)) (g_ThreadCacheAlreadyDestructed th), with_globals pr g)
  end.

(** [CentralCache::DrainTransferCaches], its result unused. *)
Definition drain_central g (max_bytes : Z) : outcome (Globals W) :=
  '(_, s) ← DrainTransferCaches (gl_central g) max_bytes; Ok (with_central g s).

Definition am_thread_cache_purge th pr : outcome (Thread * Process W) :=
  '(th, g) ← (match ptls th with
              | None => Ok (th, am_globals pr)
              | Some (a, t) =>
                  '(t, g) ← Trim t (am_globals pr) kRelease 0;
                  Ok (mkThread (Some (a, t)) (g_ThreadCacheAlreadyDestructed th), g)
              end);
  g ← drain_central g SIZE_MAX;
  Ok (th, with_globals pr g).

Definition am_request_thread_cache_trim pr : Process W :=
  with_globals pr (RequestGlobalTrim (am_globals pr) kReuse).

Definition am_request_thread_cache_purge pr : outcome (Process W) :=
  let g := RequestGlobalTrim (am_globals pr) kRelease in
  g ← drain_central g kCooperativeTransferDrainBytes;
  Ok (with_globals pr g).
End Ops.
