(* ===== verification/AmmallocInv.v ===== *)
(** * Invariants of the public interface

    The invariant that joins a thread's cache with the central cache, the pages of
    the thread caches, and creating a thread cache. *)
From S2P Require Import Prelude Config SizeClass FreeList Common Span SpanList Backing PageMap PageCache PageCacheInv.
From S2P Require Import CentralCache CentralInv CentralSteps CentralRelease CentralFetch CentralSpec ThreadCache.
From S2P Require Import ThreadCacheInv ThreadCacheSteps ThreadCacheTrim ThreadCacheAlloc ThreadCacheFree Ammalloc.
Open Scope Z_scope.

Section Invariant.
Context {W : Type} `{BackingLaws W} `{StaticLayout} `{CentralLayout}.
Implicit Types (s : CentralCache W) (g : Globals W) (t : ThreadCache) (th : Thread) (pr : Process W).
Implicit Types (G : ghost) (V : runs) (Hd : held) (C : Z -> list Z) (P : gset Z).

(** Only the backing's representation depends on who else owns pages. *)
Lemma cc_inv_relaw P P' s w G Hd V :
  cc_inv (H1 := reserve_laws P) s G Hd V -> P' ## g_R G -> bk_rep w (g_R G ∪ P') (dom (g_D G)) (g_N G) ->
  cc_inv (H1 := reserve_laws P') (with_pages s (with_w (cc_pages s) w)) G Hd V.
Proof.
  intros Hi Hd' Hr. pose proof (ci_pages _ _ _ _ Hi) as [Pc _ Pm Pp Pq Ps].
  constructor; try apply Hi. cbn. constructor; cbn; try done.
Qed.

Lemma cc_inv_reserved P s G Hd V : cc_inv (H1 := reserve_laws P) s G Hd V ->
  P ## g_R G /\ bk_rep (pc_w (cc_pages s)) (g_R G ∪ P) (dom (g_D G)) (g_N G).
Proof. intros Hi. exact (pi_w _ _ _ _ _ _ _ (ci_pages _ _ _ _ Hi)). Qed.

(** ** The invariant *)

(** The page of a thread cache. *)
Definition cache_page P (a : Z) : Prop :=
  exists pid, a = pid * PAGE_SIZE /\ 0 < pid /\ pid + tc_page_num < PAGE_LIMIT /\ pages pid tc_page_num ⊆ P.

Definition own_page (a : Z) : gset Z := pages (a / PAGE_SIZE) tc_page_num.
Definition own th : gset Z := match ptls th with Some (a, _) => own_page a | None => ∅ end.

Lemma own_page_eq pid : own_page (pid * PAGE_SIZE) = pages pid tc_page_num.
Proof. unfold own_page. by rewrite Z.div_mul by (unfold PAGE_SIZE; lia). Qed.
Lemma cache_page_sub P a : cache_page P a -> own_page a ⊆ P.
Proof. intros (pid & -> & _ & _ & HP). by rewrite own_page_eq. Qed.
Lemma cache_page_mono P P' a : own_page a ⊆ P' -> cache_page P a -> cache_page P' a.
Proof. intros Hs (pid & -> & Hp & Hl & _). rewrite own_page_eq in Hs. by exists pid. Qed.

(** Runs handed to clients have no object size. *)
Definition runs_plain s V : Prop := forall v st n, V !! v = Some (st, n) ->
  exists d, cc_spans s !! v = Some d /\ start_page_idx d = st /\ page_num d = n /\ aligned_obj_size d = 0.

Record am_inv P th pr G C Hd V : Prop := {
  ai_thread : match ptls th with
              | Some (a, t) => tc_inv (H1 := reserve_laws P) t (am_globals pr) calm G C Hd V /\ cache_page P a
              | None => cc_inv (H1 := reserve_laws P) (gl_central (am_globals pr)) G Hd V /\ tidy G
              end;
  ai_runs : runs_plain (gl_central (am_globals pr)) V;
}.

Lemma runs_plain_kept s s' Hd V : undisturbed Hd V s s' -> runs_plain s V -> runs_plain s' V.
Proof.
  intros Hu Hp v st n Hv. destruct (Hp v st n Hv) as (d & Hd' & Hr). exists d. split; [| done].
  rewrite (un_span _ _ _ _ Hu); [done |]. apply elem_of_dom. by eexists.
Qed.

Lemma tc_page_num_val : tc_page_num = 1.
Proof. by vm_compute. Qed.

(** Creating a thread cache sets a page aside. *)
Lemma CreateThreadCache_ok P th g G Hd V :
  ptls th = None -> cc_inv (H1 := reserve_laws P) (gl_central g) G Hd V -> tidy G ->
  exists tc g', CreateThreadCache th g = Ok (tc, g') /\ undisturbed Hd V (gl_central g) (gl_central g') /\
    match tc with
    | None => cc_inv (H1 := reserve_laws P) (gl_central g') G Hd V
    | Some (a, t) => exists P', P ⊆ P' /\ own_page a ## P /\ tc_inv (H1 := reserve_laws P') t g' calm G (fun _ => []) Hd V /\ cache_page P' a
    end.
Proof.
  intros Hnone Hi Htd. unfold CreateThreadCache. rewrite Hnone. destruct (g_ThreadCacheAlreadyDestructed th).
  { exists None, g. split; [done |]. split; [apply undisturbed_refl | done]. }
  destruct (cc_inv_reserved _ _ _ _ _ Hi) as [Hdis Hrep].
  destruct (bk_alloc_ok _ _ _ _ tc_page_num Hrep ltac:(rewrite tc_page_num_val; lia)) as (p & w' & Halloc & Hcase).
  change (pc_w (pages_of g)) with (pc_w (cc_pages (gl_central g))). rewrite Halloc, bind_Ok_l. cbn iota beta zeta.
  assert (Hund : undisturbed Hd V (gl_central g) (with_pages (gl_central g) (with_w (cc_pages (gl_central g)) w'))) by by constructor.
  destruct Hcase as [[-> Hr'] | (pid & -> & H0n & Hpid & Hlim & Hfr & Hr')].
  - rewrite Z.eqb_refl. eexists _, _. split; [reflexivity |]. split; [exact Hund |]. by eapply cc_inv_relaw.
  - rewrite (proj2 (Z.eqb_neq _ 0)) by (unfold PAGE_SIZE; lia). set (P' := P ∪ pages pid tc_page_num).
    assert (Hi' : cc_inv (H1 := reserve_laws P') (with_pages (gl_central g) (with_w (cc_pages (gl_central g)) w')) G Hd V).
    { eapply cc_inv_relaw; [exact Hi | clear - Hdis Hfr; set_solver |].
      by replace (g_R G ∪ P') with (g_R G ∪ P ∪ pages pid tc_page_num) by (clear; set_solver). }
    destruct (ThreadCache_new_ok (H1 := reserve_laws P') kDefaultCacheBudgetBytes (with_page_cache g (with_w (pages_of g) w')) G Hd V Hi' Htd)
      as (t & g' & Hnew & Hinv & _ & Hc & _); [unfold kDefaultCacheBudgetBytes; lia |].
    rewrite Hnew. eexists _, _. split; [reflexivity |]. rewrite Hc. split; [exact Hund |]. exists P'.
    split; [apply union_subseteq_l |]. split; [rewrite own_page_eq; clear - Hfr; set_solver |]. split; [exact Hinv |]. exists pid. split_and!; try done. apply union_subseteq_r.
Qed.

(** ** What the page map and the descriptors say of a block *)

Lemma object_span P s G Hd V idx p :
  cc_inv (H1 := reserve_laws P) s G Hd V -> is_class idx -> p ∈ Hd idx ->
  exists a d, GetSpanOfPtr (pc_map (cc_pages s)) p = Ok a /\ a <> 0 /\ p <> 0 /\ get_span (pc_spans (cc_pages s)) a = Ok d /\
    IsUsed d = true /\ (start_page_idx d <= Z.shiftr p PAGE_SHIFT) /\
    u64 (Z.shiftr p PAGE_SHIFT - start_page_idx d) < page_num d /\
    aligned_obj_size d = Size idx /\ size_class_idx d = idx /\ ObjectSlotOf d p <> SIZE_MAX.
Proof.
  intros Hi Hidx Hp. destruct (object_in _ _ _ _ Hi idx p Hidx (or_introl Hp)) as (a & d & k & Ha & Hda & Hk & _ & ->).
  destruct (ci_grid _ _ _ _ Hi idx a d Hidx Ha Hda) as (Hr & Hg & Hsz & Hcl & HD).
  pose proof (Size_range idx Hidx) as Hszr. unfold ALIGNMENT in Hszr.
  destruct (slot_word s G Hd V Hi idx a d k (slot_addr d k)) as (Hc & _ & Hnz & E1); try done; [lia |].
  pose proof (ci_pages _ _ _ _ Hi) as Hpi. pose proof Hc as (st & n & HDa & Hpr).
  destruct (co_geom _ _ _ _ _ _ _ (pi_core _ _ _ _ _ _ _ Hpi) _ _ _ HDa) as [Ha0 _ Hst Hnum Htop _ _].
  destruct (co_desc _ _ _ _ _ _ _ (pi_core _ _ _ _ _ _ _ Hpi) _ _ _ HDa) as (d2 & Hd2 & Est & En & Hus & _).
  unfold cc_spans in Hda. rewrite Hda in Hd2. injection Hd2 as <-. rewrite HD in HDa. injection HDa as <- <-.
  assert (Hpage : Z.shiftr (slot_addr d k) PAGE_SHIFT = slot_addr d k / PAGE_SIZE).
  { unfold PAGE_SHIFT, PAGE_SIZE. rewrite Z.shiftr_div_pow2 by lia. done. }
  exists a, d. split.
  { unfold GetSpanOfPtr. rewrite (GetSpan_ok _ (g_N G)) by apply Hpi. rewrite Hpage. f_equal.
    apply (pi_maps _ _ _ _ _ _ _ Hpi); [lia | done | done]. }
  split; [done |]. split; [done |]. split; [by apply get_span_Some |]. rewrite Hpage. split.
  { rewrite Hus. apply bool_decide_eq_true. apply (ci_used _ _ _ _ Hi). right. by exists idx. }
  split; [lia |]. split; [unfold UINT32_MAX in Hnum; rewrite u64_id; lia |]. split; [done |]. split; [done |].
  rewrite ObjectSlotOf_slot by done. pose proof (gw_capacity _ Hg) as Hcap. unfold UINT32_MAX, SIZE_MAX in *. lia.
Qed.

Lemma run_of_span P s G Hd V a st n d :
  cc_inv (H1 := reserve_laws P) s G Hd V -> V !! a = Some (st, n) -> cc_spans s !! a = Some d ->
  GetSpanOfPtr (pc_map (cc_pages s)) (st * PAGE_SIZE) = Ok a /\ a <> 0 /\ st * PAGE_SIZE <> 0 /\
    get_span (pc_spans (cc_pages s)) a = Ok d /\ IsUsed d = true /\ start_page_idx d = st /\ page_num d = n /\
    0 < n /\ GetPageBaseAddr d = st * PAGE_SIZE /\ Z.shiftr (st * PAGE_SIZE) PAGE_SHIFT = st.
Proof.
  intros Hi Hv Hda. pose proof (ci_pages _ _ _ _ Hi) as Hpi.
  assert (HDa : g_D G !! a = Some (st, n)) by (eapply lookup_weaken; [exact Hv | apply Hi]).
  destruct (co_geom _ _ _ _ _ _ _ (pi_core _ _ _ _ _ _ _ Hpi) _ _ _ HDa) as [Ha0 _ Hst Hnum Htop _ _].
  destruct (co_desc _ _ _ _ _ _ _ (pi_core _ _ _ _ _ _ _ Hpi) _ _ _ HDa) as (d2 & Hd2 & Est & En & Hus & _).
  unfold cc_spans in Hda. rewrite Hda in Hd2. injection Hd2 as <-.
  assert (Hpage : Z.shiftr (st * PAGE_SIZE) PAGE_SHIFT = st).
  { unfold PAGE_SHIFT, PAGE_SIZE. rewrite Z.shiftr_div_pow2 by lia. apply Z.div_mul. lia. }
  split.
  { unfold GetSpanOfPtr. rewrite (GetSpan_ok _ (g_N G)) by apply Hpi. rewrite Hpage. f_equal.
    apply (pi_maps _ _ _ _ _ _ _ Hpi); [lia | done |]. exists st, n. split; [done | lia]. }
  split; [done |]. split; [unfold PAGE_SIZE; lia |]. split; [by apply get_span_Some |]. split.
  { rewrite Hus. apply bool_decide_eq_true. apply (ci_used _ _ _ _ Hi). left. apply elem_of_dom. by eexists. }
  split; [done |]. split; [done |]. split; [lia |]. split; [| done].
  unfold GetPageBaseAddr. rewrite Est, page_shift_spec. apply u64_id. rewrite PAGE_LIMIT_val in Htop.
  unfold PAGE_SIZE. destruct use_57bit_va; lia.
Qed.

Lemma run_span P s G Hd V a st n :
  cc_inv (H1 := reserve_laws P) s G Hd V -> runs_plain s V -> V !! a = Some (st, n) ->
  exists d, GetSpanOfPtr (pc_map (cc_pages s)) (st * PAGE_SIZE) = Ok a /\ a <> 0 /\ st * PAGE_SIZE <> 0 /\
    get_span (pc_spans (cc_pages s)) a = Ok d /\ IsUsed d = true /\ start_page_idx d = st /\ page_num d = n /\
    0 < n /\ aligned_obj_size d = 0 /\ GetPageBaseAddr d = st * PAGE_SIZE /\ Z.shiftr (st * PAGE_SIZE) PAGE_SHIFT = st.
Proof.
  intros Hi Hpl Hv. destruct (Hpl a st n Hv) as (d & Hda & _ & _ & Hal).
  destruct (run_of_span P s G Hd V a st n d Hi Hv Hda) as (? & ? & ? & ? & ? & ? & ? & ? & ? & ?). by exists d.
Qed.
End Invariant.
