(* ===== verification/AmmallocSteps.v ===== *)
(** * The public operations preserve the invariant

    [am_malloc], [am_free], the trimming calls and the thread's cleaner. *)
From S2P Require Import Prelude Config SizeClass FreeList Common Span SpanList Backing PageMap PageCache PageCacheInv.
From S2P Require Import CentralCache CentralInv CentralSteps CentralRelease CentralFetch CentralDrain CentralSpec ThreadCache.
From S2P Require Import ThreadCacheInv ThreadCacheSteps ThreadCacheTrim ThreadCacheAlloc ThreadCacheFree Ammalloc AmmallocInv.
Open Scope Z_scope.

Section Steps.
Context {W : Type} `{BackingLaws W} `{StaticLayout} `{CentralLayout}.
Implicit Types (s : CentralCache W) (g : Globals W) (t : ThreadCache) (th : Thread) (pr : Process W).
Implicit Types (G : ghost) (V : runs) (Hd : held) (C : Z -> list Z) (P : gset Z).

(** Some ghost state satisfies the invariant. *)
Definition am_ok th pr Hd V : Prop := exists P G C, am_inv P th pr G C Hd V.
Definition am_und Hd V pr pr' : Prop := undisturbed Hd V (gl_central (am_globals pr)) (gl_central (am_globals pr')).

(** [gained Hd V p len Hd' V']: the block of [len] bytes at [p] is new. *)
Inductive gained Hd V : Z -> Z -> held -> runs -> Prop :=
| gained_small idx p : is_class idx -> (p ∉ Hd idx) -> gained Hd V p (Size idx) (give Hd idx {[p]}) V
| gained_large a st n : V !! a = None -> gained Hd V (st * PAGE_SIZE) (n * PAGE_SIZE) Hd (<[a := (st, n)]> V).

(** [lost Hd V p Hd' V']: the block at [p] is given up. *)
Inductive lost Hd V : Z -> held -> runs -> Prop :=
| lost_small idx p : is_class idx -> p ∈ Hd idx -> lost Hd V p (take_back Hd idx {[p]}) V
| lost_large a st n : V !! a = Some (st, n) -> lost Hd V (st * PAGE_SIZE) Hd (delete a V).

(** What [am_malloc] returns, and [am_free] leaves; [next] is what holds then. *)
Record malloc_post (next : Thread -> Process W -> held -> runs -> Prop) pr Hd V (size p : Z) th' pr' : Prop := {
  mp_und : am_und Hd V pr pr';
  mp_ok : p = 0 /\ next th' pr' Hd V \/
    p <> 0 /\ exists len Hd' V', gained Hd V p len Hd' V' /\ size <= len /\ next th' pr' Hd' V' /\
      forall w, p <= w < p + len -> ~ user_word Hd V w;
}.
Definition free_post (next : Thread -> Process W -> held -> runs -> Prop) pr Hd' V' th' pr' : Prop :=
  am_und Hd' V' pr pr' /\ next th' pr' Hd' V'.

Lemma malloc_post_mono (n1 n2 : Thread -> Process W -> held -> runs -> Prop) pr Hd V size p th' pr' :
  (forall Hd' V', n1 th' pr' Hd' V' -> n2 th' pr' Hd' V') ->
  malloc_post n1 pr Hd V size p th' pr' -> malloc_post n2 pr Hd V size p th' pr'.
Proof.
  intros Hn [Hu Hok]. constructor; [done |]. destruct Hok as [[? ?] | (? & len & Hd' & V' & ? & ? & ? & ?)]; [left; auto | right].
  split; [done |]. exists len, Hd', V'. auto.
Qed.

(** The pages of other threads stay set aside; a new cache gets a page of its own. *)
Definition am_next P th th' pr' Hd V : Prop :=
  exists P' G' C', P ∖ own th ⊆ P' /\ own th' ## P ∖ own th /\ am_inv P' th' pr' G' C' Hd V.
(** The thread has the cache at [a]. *)
Definition at_page P (a : Z) th' pr' Hd V : Prop :=
  (exists t, ptls th' = Some (a, t)) /\ exists G' C', am_inv P th' pr' G' C' Hd V.

Lemma next_same P th th' pr' Hd V : own th' = own th -> (exists G' C', am_inv P th' pr' G' C' Hd V) -> am_next P th th' pr' Hd V.
Proof. intros E (G' & C' & Hi). exists P, G', C'. rewrite E. split; [set_solver |]. split; [set_solver | done]. Qed.
Lemma next_at P th a t th' pr' Hd V : ptls th = Some (a, t) -> at_page P a th' pr' Hd V -> am_next P th th' pr' Hd V.
Proof. intros E [[t' E'] Hi]. apply next_same; [| done]. unfold own. by rewrite E, E'. Qed.
Lemma next_new P P' th a th' pr' Hd V : ptls th = None -> P ⊆ P' -> own_page a ## P -> at_page P' a th' pr' Hd V ->
  am_next P th th' pr' Hd V.
Proof.
  intros E HP Ha [[t' E'] (G' & C' & Hi)]. exists P', G', C'. unfold own. rewrite E, E'. split; [set_solver |]. split; [set_solver | done].
Qed.

(** ** Small requests *)

Lemma thread_allocate_ok P th pr G C Hd V a t size :
  tc_inv (H1 := reserve_laws P) t (am_globals pr) calm G C Hd V -> cache_page P a ->
  runs_plain (gl_central (am_globals pr)) V -> 0 <= size <= MAX_TC_SIZE ->
  exists p th' pr', thread_allocate th pr a t size = Ok (p, th', pr') /\ malloc_post (at_page P a) pr Hd V size p th' pr'.
Proof.
  intros Hi Hpg Hpl Hs. unfold thread_allocate.
  destruct (Allocate_ok (H1 := reserve_laws P) t (am_globals pr) G C Hd V size Hi Hs) as (p & t' & g' & G' & C' & -> & [Hmv Hc]).
  rewrite bind_Ok_l. eexists _, _, _. split; [reflexivity |].
  assert (Hund : undisturbed Hd V (gl_central (am_globals pr)) (gl_central g')) by apply Hmv.
  assert (Hpl' : runs_plain (gl_central g') V) by by eapply runs_plain_kept.
  constructor; [exact Hund |]. destruct Hc as [(-> & Hi' & _) | (Hp & Hnew & Hi')]; [left | right].
  - split; [done |]. split; [by eexists |]. exists G', C'. by constructor.
  - split; [done |]. exists (Size (Index size)), (give Hd (Index size) {[p]}), V.
    assert (Hidx : is_class (Index size)) by (apply Index_range; lia).
    split; [by constructor |]. split.
    { destruct Hidx as [? Hidx2]. rewrite Index_calc, Size_calc in * by lia.
      apply CalculateIndex_galois; [lia | | lia]. rewrite kNumSizeClasses_val in *. lia. }
    split; [split; [by eexists |]; exists G', C'; by constructor |]. intros w Hw.
    exact (given_fresh (H1 := reserve_laws P) t' _ G' C' Hd V (Index size) p w (ti_live _ _ _ _ _ _ _ Hi') Hidx Hnew Hw).
Qed.

(** ** Large requests *)

Lemma page_count size : MAX_TC_SIZE < size <= kMaxRequestBytes ->
  exists n, Z.shiftr (AlignUp size PAGE_SIZE) PAGE_SHIFT = n /\ 0 <= n < W64 /\ (n <= UINT32_MAX -> size <= n * PAGE_SIZE).
Proof.
  unfold MAX_TC_SIZE, kMaxRequestBytes. change (SIZE_MAX - (PAGE_SIZE - 1)) with 18446744073709547520. intros Hs.
  eexists. split; [reflexivity |]. rewrite Z.shiftr_div_pow2 by (unfold PAGE_SHIFT; done).
  change (2 ^ PAGE_SHIFT) with 4096. change PAGE_SIZE with 4096.
  destruct (Z.eq_dec size 18446744073709547520) as [-> | Hne]; [by vm_compute |].
  rewrite AlignUp_div by lia. rewrite Z.div_mul by lia.
  pose proof (Z.div_mod (size + 4096 - 1) 4096 ltac:(lia)). pose proof (Z.mod_pos_bound (size + 4096 - 1) 4096 ltac:(lia)).
  split; [split; [apply Z.div_pos; lia | apply Z.div_lt_upper_bound; lia] |]. lia.
Qed.

(** The invariant only looks at the globals. *)
Lemma am_inv_scavenger P th pr G C Hd V : am_inv P th pr G C Hd V -> am_inv P th (EnsureScavengerStarted pr) G C Hd V.
Proof. intros Hi. unfold EnsureScavengerStarted. destruct (enable_scavenger_ _); [| done]. destruct Hi; by constructor. Qed.
Lemma scavenger_globals pr : am_globals (EnsureScavengerStarted pr) = am_globals pr.
Proof. unfold EnsureScavengerStarted. by destruct (enable_scavenger_ _). Qed.

(** The central cache's part of the invariant, and putting it back. *)
Lemma am_central P th pr G C Hd V : am_inv P th pr G C Hd V -> exists Hd0,
  cc_inv (H1 := reserve_laws P) (gl_central (am_globals pr)) G Hd0 V /\ (forall j, Hd j ⊆ Hd0 j) /\
  forall s' G' V', cc_inv (H1 := reserve_laws P) s' G' Hd0 V' -> undisturbed Hd0 ∅ (gl_central (am_globals pr)) s' -> tidy G' ->
    runs_plain s' V' -> am_inv P th (with_globals pr (with_central (am_globals pr) s')) G' C Hd V'.
Proof.
  intros [Hth Hpl]. destruct (ptls th) as [[a t] |] eqn:Ht.
  - destruct Hth as [[[Hcc Htd Hls Hap] Hq] Hpg]. exists (cached Hd C). split; [done |]. split; [intros j; apply cached_sub |].
    intros s' G' V' Hcc' Hun Htd' Hpl'. constructor; [| done]. rewrite Ht. split; [| done]. constructor; [| done]. constructor; try done.
    intros i Hi. eapply list_kept; [exact Hun | exact Hi | | by apply Hls]. intros x Hx. by apply cached_in.
  - destruct Hth as [Hcc Htd]. exists Hd. split; [done |]. split; [done |]. intros s' G' V' Hcc' Hun Htd' Hpl'.
    constructor; [| done]. rewrite Ht. by split.
Qed.

Lemma am_tidy P th pr G C Hd V : am_inv P th pr G C Hd V -> tidy G.
Proof. intros [Hth _]. destruct (ptls th) as [[a t] |]; [apply Hth | by apply Hth]. Qed.

Lemma malloc_large_ok P th pr G C Hd V size :
  am_inv P th pr G C Hd V -> MAX_TC_SIZE < size < W64 ->
  exists p th' pr', am_malloc_slow_path th pr size = Ok (p, th', pr') /\ malloc_post (am_next P th) pr Hd V size p th' pr'.
Proof.
  intros Hi0 Hs. unfold am_malloc_slow_path. rewrite (proj2 (Z.ltb_lt _ _)) by apply Hs.
  apply am_inv_scavenger in Hi0 as Hi. set (pr0 := EnsureScavengerStarted pr) in *.
  assert (Eg : am_globals pr0 = am_globals pr) by apply scavenger_globals.
  destruct (Z.ltb_spec kMaxRequestBytes size) as [Hbig | Hfit].
  { exists 0, th, pr0. split; [done |]. constructor; [unfold am_und; rewrite Eg; apply undisturbed_refl |].
    left. split; [done |]. apply next_same; [done | by exists G, C]. }
  destruct (page_count size) as (n & -> & Hn & Hcover); [lia |].
  destruct (am_central _ _ _ _ _ _ _ Hi) as (Hd0 & Hcc & Hsub & Hback). pose proof (am_tidy _ _ _ _ _ _ _ Hi) as Htd.
  destruct (AllocSpan_step (H1 := reserve_laws P) _ _ _ _ n Hcc Hn) as (a & p' & G' & Halloc & Hsame & Hun & Hcase).
  change (pages_of (am_globals pr0)) with (cc_pages (gl_central (am_globals pr0))). rewrite Halloc, bind_Ok_l. cbn iota beta zeta.
  set (s' := with_pages (gl_central (am_globals pr0)) p') in *.
  assert (Htd' : tidy G') by (by apply (tidy_same G)).
  assert (Hund : am_und Hd V pr (with_globals pr0 (with_page_cache (am_globals pr0) p'))).
  { unfold am_und. rewrite <- Eg. cbn. eapply undisturbed_mono; [intros j _; apply Hsub | reflexivity | exact Hun]. }
  assert (Hun0 : undisturbed Hd0 ∅ (gl_central (am_globals pr0)) s').
  { eapply undisturbed_mono; [intros j _; reflexivity | apply map_empty_subseteq | exact Hun]. }
  assert (Hpl : runs_plain s' V) by (eapply runs_plain_kept; [exact Hun | apply Hi]).
  destruct Hcase as [[-> Hcc'] | (st & d & [Hnz Hcc' Hnew Hda Hcl Est En Hgeom])].
  - rewrite Z.eqb_refl. eexists _, _, _. split; [reflexivity |]. constructor; [exact Hund |]. left. split; [done |].
    apply next_same; [done |]. exists G', C. by apply Hback.
  - rewrite (proj2 (Z.eqb_neq a 0)), (get_span_Some _ _ d), bind_Ok_l by done.
    assert (Hbase : GetPageBaseAddr d = st * PAGE_SIZE).
    { unfold GetPageBaseAddr. rewrite Est, page_shift_spec. apply u64_id. pose proof PAGE_LIMIT_val as HPL. unfold PAGE_SIZE.
      destruct use_57bit_va; lia. }
    rewrite Hbase. eexists _, _, _. split; [reflexivity |]. constructor; [exact Hund |]. right. split; [unfold PAGE_SIZE; lia |].
    assert (HVn : V !! a = None) by by apply not_elem_of_dom.
    exists (n * PAGE_SIZE), Hd, (<[a := (st, n)]> V). split; [by constructor |]. split; [apply Hcover; lia |]. split.
    + apply next_same; [done |]. exists G', C. apply Hback; [exact Hcc' | exact Hun0 | exact Htd' |].
      intros v st' n' [[-> [= <- <-]] | [Hne Hv]]%lookup_insert_Some; [| by apply Hpl].
      exists d. split; [exact Hda |]. split; [done |]. split; [done | apply Hcl].
    + intros w Hw Hu.
      assert (Hcv : covers (g_D G') a (w / PAGE_SIZE)).
      { exists st, n. split; [eapply lookup_weaken; [apply lookup_insert_eq | apply Hcc'] |]. unfold PAGE_SIZE in *.
        split; [apply Z.div_le_lower_bound; lia | apply Z.div_lt_upper_bound; lia]. }
      destruct Hu as [(j & x & Hj & Hx & Hr) | (v & st' & n' & Hv & Hp)].
      * destruct (object_word _ _ _ _ Hcc' j x Hj (or_introl (Hsub j x Hx))) as (b & Hb & _ & Hob).
        destruct (Hob w Hr) as [Hcb _]. pose proof (ci_cover _ _ _ _ Hcc' _ _ _ Hcv Hcb) as <-.
        apply (ci_out _ _ _ _ Hcc' j a Hj Hb). rewrite dom_insert_L. set_solver.
      * assert (Hcvv : covers (g_D G') v (w / PAGE_SIZE)).
        { exists st', n'. split; [| done]. eapply lookup_weaken; [| apply Hcc']. rewrite lookup_insert_ne; [done |]. by intros ->; rewrite HVn in Hv. }
        pose proof (ci_cover _ _ _ _ Hcc' _ _ _ Hcv Hcvv) as <-. by rewrite HVn in Hv.
Qed.

(** ** [am_malloc] *)

Lemma malloc_small_ok P th pr G C Hd V size :
  am_inv P th pr G C Hd V -> ptls th = None -> 0 <= size <= MAX_TC_SIZE ->
  exists p th' pr', am_malloc_slow_path th pr size = Ok (p, th', pr') /\ malloc_post (am_next P th) pr Hd V size p th' pr'.
Proof.
  intros Hi0 Hnone Hs. unfold am_malloc_slow_path. rewrite (proj2 (Z.ltb_ge _ _)), Hnone by apply Hs.
  apply am_inv_scavenger in Hi0 as [Hth Hpl]. set (pr0 := EnsureScavengerStarted pr) in *.
  assert (Eg : am_globals pr0 = am_globals pr) by apply scavenger_globals. rewrite Hnone in Hth. destruct Hth as [Hcc Htd].
  destruct (CreateThreadCache_ok P th (am_globals pr0) G Hd V Hnone Hcc Htd) as (tc & g' & -> & Hun & Htc). rewrite bind_Ok_l. cbn iota beta zeta.
  assert (Hpl' : runs_plain (gl_central g') V) by by eapply runs_plain_kept.
  destruct tc as [[a t] |].
  - destruct Htc as (P' & HPP & Hown & Hi & Hpg).
    destruct (thread_allocate_ok P' th (with_globals pr0 g') G _ Hd V a t size Hi Hpg Hpl' Hs) as (p & th' & pr' & -> & Hpost).
    apply (malloc_post_mono _ (am_next P th)) in Hpost as [Hund Hok]; [| intros Hd' V'; by apply next_new].
    exists p, th', pr'. split; [done |]. constructor; [| done]. unfold am_und in *. rewrite <- Eg. by eapply undisturbed_trans.
  - eexists _, _, _. split; [reflexivity |]. constructor; [unfold am_und; rewrite <- Eg; exact Hun |]. left. split; [done |].
    apply next_same; [unfold own; by rewrite Hnone |]. exists G, C. constructor; [| exact Hpl']. cbn. by split.
Qed.

Lemma am_malloc_ok P th pr G C Hd V size :
  am_inv P th pr G C Hd V -> 0 <= size < W64 ->
  exists p th' pr', am_malloc th pr size = Ok (p, th', pr') /\ malloc_post (am_next P th) pr Hd V size p th' pr'.
Proof.
  intros Hi Hs. unfold am_malloc. destruct (ptls th) as [[a t] |] eqn:Hth.
  - destruct (Z.ltb_spec MAX_TC_SIZE size); [apply (malloc_large_ok P th pr G C); [done | lia] |].
    pose proof Hi as [Ht Hpl]. rewrite Hth in Ht. destruct Ht as [Ht Hpg].
    destruct (thread_allocate_ok P th pr G C Hd V a t size Ht Hpg Hpl ltac:(lia)) as (p & th' & pr' & Heq & Hpost).
    exists p, th', pr'. split; [done |]. eapply malloc_post_mono; [| exact Hpost]. intros Hd' V'. by eapply next_at.
  - destruct (Z.lt_ge_cases MAX_TC_SIZE size); [apply (malloc_large_ok P th pr G C); [done | lia] |].
    apply (malloc_small_ok P th pr G C); [done | done | lia].
Qed.

(** ** [am_free] *)

Lemma thread_deallocate_ok P th pr G C Hd V a t p idx :
  tc_inv (H1 := reserve_laws P) t (am_globals pr) calm G C Hd V -> cache_page P a ->
  runs_plain (gl_central (am_globals pr)) V -> is_class idx -> p ∈ Hd idx ->
  exists th' pr', thread_deallocate th pr a t p idx = Ok (th', pr') /\ free_post (at_page P a) pr (take_back Hd idx {[p]}) V th' pr'.
Proof.
  intros Hi Hpg Hpl Hidx Hp. unfold thread_deallocate.
  destruct (Deallocate_ok (H1 := reserve_laws P) t (am_globals pr) G C Hd V p idx Hi Hidx Hp) as (t' & g' & G' & C' & -> & Hi' & Hmv).
  rewrite bind_Ok_l. eexists _, _. split; [reflexivity |].
  assert (Hund : undisturbed (take_back Hd idx {[p]}) V (gl_central (am_globals pr)) (gl_central g')) by apply Hmv.
  split; [exact Hund |]. split; [by eexists |]. exists G', C'. constructor; [cbn; by split |]. by eapply runs_plain_kept.
Qed.

Lemma free_slow_small_ok P th pr G C Hd V p idx span :
  am_inv P th pr G C Hd V -> ptls th = None -> is_class idx -> p ∈ Hd idx ->
  exists th' pr', am_free_slow_path th pr p span (Size idx) idx = Ok (th', pr') /\ free_post (am_next P th) pr (take_back Hd idx {[p]}) V th' pr'.
Proof.
  intros [Hth Hpl] Hnone Hidx Hp. unfold am_free_slow_path. rewrite Hnone in *. destruct Hth as [Hcc Htd].
  pose proof (Size_range idx Hidx) as Hsz. unfold ALIGNMENT in Hsz. rewrite (proj2 (Z.eqb_neq _ 0)) by lia.
  destruct (CreateThreadCache_ok P th (am_globals pr) G Hd V Hnone Hcc Htd) as (tc & g' & -> & Hun & Htc). rewrite bind_Ok_l. cbn iota beta zeta.
  assert (Hpl' : runs_plain (gl_central g') V) by by eapply runs_plain_kept.
  assert (Hun' : undisturbed (take_back Hd idx {[p]}) V (gl_central (am_globals pr)) (gl_central g')).
  { eapply undisturbed_mono; [intros j _; apply take_back_sub | reflexivity | exact Hun]. }
  destruct tc as [[a t] |].
  - destruct Htc as (P' & HPP & Hown & Hi & Hpg).
    destruct (thread_deallocate_ok P' th (with_globals pr g') G _ Hd V a t p idx Hi Hpg Hpl' Hidx Hp) as (th' & pr' & -> & [Hund Hok]).
    exists th', pr'. split; [done |]. split; [| by eapply next_new]. unfold am_und in *. by eapply undisturbed_trans.
  - destruct (object_word _ _ _ _ Htc idx p Hidx (or_introl Hp)) as (_ & _ & Hnz & _).
    destruct (FromSingleObject_spec (central_mem g') p idx Hidx) as [Hfrom _].
    destruct (Hfrom Hnz) as (b & m' & -> & Hb & Hm). rewrite bind_Ok_l. cbn iota beta.
    assert (Hi1 : cc_inv (H1 := reserve_laws P) (with_mem (gl_central g') m') G Hd V).
    { eapply links_ok; [exact Htc | exact Hm |]. intros x ->%list_elem_of_singleton. exists idx. split; [done | by left]. }
    destruct (ReleaseBatch_ok (H1 := reserve_laws P) _ G Hd V idx kTransferCache b [p] Hi1 Hb) as (s2 & G2 & -> & [Hi2 _ Hun2 Htd2 _]).
    { intros x ->%list_elem_of_singleton. done. }
    rewrite bind_Ok_l. eexists _, _. split; [reflexivity |].
    assert (Heq : forall j, is_class j -> take_back Hd idx {[p]} j = take_back Hd idx (list_to_set [p]) j).
    { intros j _. unfold take_back. cbn. by rewrite union_empty_r_L. }
    assert (Hun3 : undisturbed (take_back Hd idx {[p]}) V (gl_central g') s2).
    { eapply undisturbed_trans.
      - eapply (links_undisturbed (H1 := reserve_laws P) (gl_central g')); [exact Htc | exact Hm | intros j _; apply take_back_sub | reflexivity |].
        intros x ->%list_elem_of_singleton. exists idx. split; [done |]. split; [by left |]. unfold take_back. rewrite upd_fun_eq. set_solver.
      - eapply undisturbed_mono; [| reflexivity | exact Hun2]. intros j Hj. by rewrite Heq. }
    split; [unfold am_und; by eapply undisturbed_trans |]. apply next_same; [unfold own; by rewrite Hnone |]. exists G2, C. constructor; cbn.
    + split; [| by apply Htd2]. eapply cc_inv_held; [exact Heq | exact Hi2].
    + by eapply runs_plain_kept.
Qed.

Lemma free_large_ok P th pr G C Hd V a st n :
  am_inv P th pr G C Hd V -> V !! a = Some (st, n) ->
  exists th' pr', am_free_slow_path th pr (st * PAGE_SIZE) a 0 (size_class_idx (default (Span_new 0 0) (cc_spans (gl_central (am_globals pr)) !! a))) = Ok (th', pr') /\
    free_post (am_next P th) pr Hd (delete a V) th' pr'.
Proof.
  intros Hi Hv. destruct (am_central _ _ _ _ _ _ _ Hi) as (Hd0 & Hcc & Hsub & Hback). pose proof (am_tidy _ _ _ _ _ _ _ Hi) as Htd.
  destruct (run_span P _ G Hd0 V a st n Hcc (ai_runs _ _ _ _ _ _ _ Hi) Hv) as (d & _ & _ & _ & Hda & _ & _ & _ & _ & _ & Hbase & _).
  unfold am_free_slow_path. rewrite Z.eqb_refl. unfold pages_of. rewrite Hda, bind_Ok_l, Hbase, Z.eqb_refl, AM_HCHECK_true, bind_Ok_l.
  destruct (ReleaseSpan_step (H1 := reserve_laws P) _ _ _ _ a (st, n) Hcc Hv) as (p' & G' & -> & Hsame & Hcc' & Hun).
  rewrite bind_Ok_l. eexists _, _. split; [reflexivity |]. split.
  - unfold am_und. cbn. eapply undisturbed_mono; [intros j _; apply Hsub | reflexivity | exact Hun].
  - apply next_same; [done |]. exists G', C. apply Hback; [exact Hcc' | | by apply (tidy_same G) |].
    + eapply undisturbed_mono; [intros j _; reflexivity | apply map_empty_subseteq | exact Hun].
    + eapply runs_plain_kept; [exact Hun |]. intros v st' n' [_ Hv']%lookup_delete_Some. by apply (ai_runs _ _ _ _ _ _ _ Hi).
Qed.

(** What [am_free] does with an object a client owns: the checks pass. *)
Lemma am_free_small P th pr G C Hd V idx p :
  am_inv P th pr G C Hd V -> is_class idx -> p ∈ Hd idx ->
  exists a, am_free th pr p = match ptls th with
    | Some (b, t) => thread_deallocate th pr b t p idx
    | None => am_free_slow_path th pr p a (Size idx) idx
    end.
Proof.
  intros Hi Hidx Hp. destruct (am_central _ _ _ _ _ _ _ Hi) as (Hd0 & Hcc & Hsub & _). unfold am_free.
  destruct (object_span P _ G Hd0 V idx p Hcc Hidx (Hsub idx p Hp)) as (a & d & Hlk & Ha0 & Hp0 & Hda & Hus & Hst & Hnum & Hal & Hcl & Hslot).
  rewrite (proj2 (Z.eqb_neq p 0)) by done. unfold pages_of. rewrite Hlk, bind_Ok_l, (proj2 (Z.eqb_neq a 0)) by done.
  rewrite Hda, bind_Ok_l, Hus, AM_HCHECK_true, bind_Ok_l.
  rewrite (proj2 (Z.leb_le _ _) Hst), (proj2 (Z.ltb_lt _ _) Hnum), AM_HCHECK_true, bind_Ok_l, Hal, Hcl.
  rewrite (proj2 (Z.ltb_lt idx _)), Z.eqb_refl, orb_true_r, AM_HCHECK_true, bind_Ok_l by apply Hidx.
  pose proof (Size_range idx Hidx) as Hsz. unfold ALIGNMENT in Hsz. exists a. destruct (ptls th) as [[b t] |]; [| done].
  by rewrite (proj2 (Z.eqb_neq (Size idx) 0)), (proj2 (Z.eqb_neq _ SIZE_MAX)), AM_HCHECK_true, bind_Ok_l by (done || lia).
Qed.

Lemma am_free_ok P th pr G C Hd V p Hd' V' :
  am_inv P th pr G C Hd V -> lost Hd V p Hd' V' ->
  exists th' pr', am_free th pr p = Ok (th', pr') /\ free_post (am_next P th) pr Hd' V' th' pr'.
Proof.
  intros Hi Hlost. destruct Hlost as [idx p Hidx Hp | a st n Hv].
  - destruct (am_free_small P th pr G C Hd V idx p Hi Hidx Hp) as [a ->]. pose proof Hi as [Hth Hpl].
    destruct (ptls th) as [[b t] |] eqn:Hnone; [| by apply (free_slow_small_ok P th pr G C)].
    destruct Hth as [Ht Hpg]. destruct (thread_deallocate_ok P th pr G C Hd V b t p idx Ht Hpg Hpl Hidx Hp) as (th' & pr' & Heq & Hund & Hat).
    exists th', pr'. split; [done |]. split; [done | by eapply next_at].
  - destruct (am_central _ _ _ _ _ _ _ Hi) as (Hd0 & Hcc & Hsub & _). unfold am_free.
    destruct (run_span P _ G Hd0 V a st n Hcc (ai_runs _ _ _ _ _ _ _ Hi) Hv) as (d & Hlk & Ha0 & Hp0 & Hda & Hus & Est & En & Hn0 & Hal & Hbase & Hpage).
    rewrite (proj2 (Z.eqb_neq (st * PAGE_SIZE) 0)) by done. unfold pages_of. rewrite Hlk, bind_Ok_l, (proj2 (Z.eqb_neq a 0)) by done.
    destruct (free_large_ok P th pr G C Hd V a st n Hi Hv) as (th' & pr' & Hfree & Hpost).
    assert (Edd : default (Span_new 0 0) (cc_spans (gl_central (am_globals pr)) !! a) = d).
    { unfold get_span in Hda. unfold cc_spans. rewrite (proj2 (Z.eqb_neq a 0)) in Hda by done.
      destruct (pc_spans _ !! a); cbn in *; congruence. }
    rewrite Edd in Hfree. rewrite Hda, bind_Ok_l, Hus, AM_HCHECK_true, bind_Ok_l, Hpage, Est, Z.leb_refl, Z.sub_diag.
    rewrite (proj2 (Z.ltb_lt (u64 0) _)), AM_HCHECK_true, bind_Ok_l, Hal, Z.eqb_refl, AM_HCHECK_true, bind_Ok_l by (rewrite u64_id; lia).
    destruct (ptls th) as [[b t] |]; by exists th', pr'.
Qed.

(** ** Trimming and purging *)

Lemma thread_moved P th pr G C Hd V a t g' t' : am_inv P th pr G C Hd V -> ptls th = Some (a, t) ->
  (exists G' C', tc_inv (H1 := reserve_laws P) t' g' calm G' C' Hd V) -> moved Hd V t (am_globals pr) t' g' ->
  let th' := mkThread (Some (a, t')) (g_ThreadCacheAlreadyDestructed th) in
  free_post (am_next P th) pr Hd V th' (with_globals pr g').
Proof.
  intros [Hth Hpl] Hs (G' & C' & Hi') Hmv. rewrite Hs in Hth. split; [apply Hmv |].
  apply next_same; [unfold own; by rewrite Hs |]. exists G', C'. constructor; cbn.
  - split; [done | apply Hth].
  - eapply runs_plain_kept; [apply Hmv | done].
Qed.

Lemma am_thread_cache_trim_ok P th pr G C Hd V :
  am_inv P th pr G C Hd V -> exists th' pr', am_thread_cache_trim th pr = Ok (th', pr') /\ free_post (am_next P th) pr Hd V th' pr'.
Proof.
  intros Hi. unfold am_thread_cache_trim. destruct (ptls th) as [[a t] |] eqn:Hth.
  2: { exists th, pr. split; [done |]. split; [apply undisturbed_refl |]. apply next_same; [done | by exists G, C]. }
  pose proof Hi as [Ht _]. rewrite Hth in Ht. destruct Ht as [Ht _].
  destruct (HandleGlobalTrimRequest_ok (H1 := reserve_laws P) _ _ calm _ _ _ _ Ht) as (t1 & g1 & G1 & C1 & -> & Hi1 & Hmv1 & _); [done |].
  rewrite bind_Ok_l. cbn iota beta.
  destruct (Trim_ok (H1 := reserve_laws P) t1 g1 calm G1 C1 Hd V kReuse kDefaultTrimTargetBytes Hi1) as (t2 & g2 & G2 & C2 & -> & [Hi2 Hmv2 _ _ _ _]);
    [done | done |]. rewrite bind_Ok_l. eexists _, _. split; [reflexivity |].
  eapply (thread_moved P th pr); [exact Hi | exact Hth | by exists G2, C2 | by eapply moved_trans].
Qed.

Definition arrays_empty pr : Prop := forall idx, is_class idx ->
  transfer_cache_size (cc_buckets (gl_central (am_globals pr)) idx) = 0.

Definition in_place P th' pr' Hd V : Prop := exists G' C', am_inv P th' pr' G' C' Hd V.

Lemma drain_central_ok P th pr G C Hd V max_bytes :
  am_inv P th pr G C Hd V -> 0 <= max_bytes < W64 ->
  exists g', drain_central (am_globals pr) max_bytes = Ok g' /\ free_post (in_place P) pr Hd V th (with_globals pr g') /\
    (max_bytes = SIZE_MAX -> arrays_empty (with_globals pr g')).
Proof.
  intros Hi Hm. destruct (am_central _ _ _ _ _ _ _ Hi) as (Hd0 & Hcc & Hsub & Hback). unfold drain_central.
  destruct (DrainTransferCaches_ok (H1 := reserve_laws P) _ _ _ _ max_bytes Hcc Hm) as (d & s' & G' & -> & [Hcc' Hun Htd _ _ Hall _ _]).
  rewrite bind_Ok_l. eexists. split; [reflexivity |]. split; [| exact Hall]. split.
  - unfold am_und. cbn. eapply undisturbed_mono; [intros j _; apply Hsub | reflexivity | exact Hun].
  - exists G', C. apply Hback; [exact Hcc' | | apply Htd; by eapply am_tidy |].
    + eapply undisturbed_mono; [intros j _; reflexivity | apply map_empty_subseteq | exact Hun].
    + eapply runs_plain_kept; [exact Hun | apply Hi].
Qed.

(** The bytes a thread caches. *)
Definition thread_bytes th : Z := match ptls th with Some (_, t) => CachedBytesSnapshot t | None => 0 end.

Lemma am_thread_cache_purge_ok P th pr G C Hd V :
  am_inv P th pr G C Hd V ->
  exists th' pr', am_thread_cache_purge th pr = Ok (th', pr') /\ free_post (am_next P th) pr Hd V th' pr' /\
    arrays_empty pr' /\ thread_bytes th' <= 0.
Proof.
  intros Hi. unfold am_thread_cache_purge. assert (H64 : 0 <= SIZE_MAX < W64) by (unfold SIZE_MAX; lia).
  destruct (ptls th) as [[a t] |] eqn:Hth.
  2: { destruct (drain_central_ok P th pr G C Hd V SIZE_MAX Hi H64) as (g' & Hdr & [Hund Hok] & Hall). rewrite bind_Ok_l. cbn iota beta.
       rewrite Hdr, bind_Ok_l. eexists _, _. split; [reflexivity |]. split; [split; [exact Hund | by apply next_same] |].
       split; [by apply Hall |]. unfold thread_bytes. by rewrite Hth. }
  pose proof Hi as [Ht Hpl]. rewrite Hth in Ht. destruct Ht as [Ht Hpg].
  destruct (Trim_ok (H1 := reserve_laws P) t (am_globals pr) calm G C Hd V kRelease 0 Ht) as (t2 & g2 & G2 & C2 & -> & [Hi2 Hmv2 _ _ _ Hz]);
    [done | done |]. rewrite !bind_Ok_l. cbn iota beta. set (th2 := mkThread (Some (a, t2)) (g_ThreadCacheAlreadyDestructed th)).
  assert (Hi3 : am_inv P th2 (with_globals pr g2) G2 C2 Hd V).
  { constructor; cbn; [by split |]. eapply runs_plain_kept; [apply Hmv2 | done]. }
  destruct (drain_central_ok P th2 _ G2 C2 Hd V SIZE_MAX Hi3 H64) as (g' & Hdr & [Hund2 Hok2] & Hall).
  change (am_globals (with_globals pr g2)) with g2 in Hdr. rewrite Hdr, bind_Ok_l. eexists _, _. split; [reflexivity |].
  split; [split; [eapply undisturbed_trans; [apply Hmv2 | exact Hund2] |] |].
  - apply next_same; [unfold own; by rewrite Hth | exact Hok2].
  - split; [by apply Hall | exact Hz].
Qed.

Lemma request_ok P th pr G C Hd V mode : am_inv P th pr G C Hd V ->
  am_inv P th (with_globals pr (RequestGlobalTrim (am_globals pr) mode)) G C Hd V.
Proof.
  intros [Hth Hpl]. constructor; [| exact Hpl]. destruct (ptls th) as [[a t] |]; [| exact Hth].
  destruct Hth as [[Hl Hq] Hpg]. split; [by constructor | done].
Qed.

Lemma am_request_thread_cache_purge_ok P th pr G C Hd V :
  am_inv P th pr G C Hd V -> exists pr', am_request_thread_cache_purge pr = Ok pr' /\ free_post (in_place P) pr Hd V th pr'.
Proof.
  intros Hi. unfold am_request_thread_cache_purge.
  destruct (drain_central_ok P th _ G C Hd V kCooperativeTransferDrainBytes (request_ok P th pr G C Hd V kRelease Hi)) as (g' & Hdr & Hpost & _); [done |].
  change (am_globals (with_globals pr ?g)) with g in Hdr. rewrite Hdr, bind_Ok_l. eexists. split; [reflexivity |]. exact Hpost.
Qed.

(** ** Thread exit *)

(** Exactly the page of the thread's cache leaves the pages set aside. *)
Lemma ThreadCacheCleaner_destroy_exact P th pr G C Hd V :
  am_inv P th pr G C Hd V -> exists pr', ThreadCacheCleaner_destroy th pr = Ok (mkThread None true, pr') /\
    free_post (in_place (P ∖ own th)) pr Hd V (mkThread None true) pr'.
Proof.
  intros Hi. unfold ThreadCacheCleaner_destroy. pose proof Hi as [Ht Hpl]. destruct (ptls th) as [[a t] |] eqn:Hth.
  2: { exists pr. split; [done |]. split; [apply undisturbed_refl |]. unfold own. rewrite Hth, difference_empty_L.
       exists G, C. by constructor. }
  destruct Ht as [Ht (pid & -> & Hpid & Hlim & HP)].
  destruct (ReleaseAll_ok (H1 := reserve_laws P) t (am_globals pr) G C Hd V Ht) as (t2 & g2 & G2 & C2 & -> & [Hl2 _] & Hmv2 & Hdr & HC2).
  rewrite bind_Ok_l. cbn iota beta. unfold ReleaseThreadCache. rewrite ThreadCache_destroy_ok by (intros i Hi'; by apply Hdr). rewrite bind_Ok_l.
  set (g3 := tc_add _ _ g2). assert (Hcc2 : cc_inv (H1 := reserve_laws P) (gl_central g3) G2 Hd V).
  { eapply cc_inv_held; [| apply Hl2]. intros j Hj. unfold cached. rewrite (HC2 j Hj). cbn. by rewrite union_empty_r_L. }
  destruct (cc_inv_reserved _ _ _ _ _ Hcc2) as [Hdis Hrep]. unfold system_free.
  destruct (bk_free_ok _ _ _ _ pid tc_page_num Hrep Hpid) as (w' & Hfree & Hrep'); [by rewrite tc_page_num_val | exact Hlim | |].
  { clear - HP. set_solver. }
  change (pc_w (pages_of g3)) with (pc_w (cc_pages (gl_central g3))). rewrite Hfree, !bind_Ok_l. eexists. split; [reflexivity |].
  assert (Hund : undisturbed Hd V (gl_central (am_globals pr)) (with_pages (gl_central g3) (with_w (pages_of g3) w'))).
  { destruct Hmv2 as [[Hm Hs] _ _ _]. by constructor. }
  split; [exact Hund |]. exists G2, (fun _ => []). unfold own. rewrite Hth, own_page_eq. constructor; cbn.
  - split; [| apply Hl2]. eapply cc_inv_relaw; [exact Hcc2 | clear - Hdis; set_solver |].
    replace (g_R G2 ∪ P ∖ pages pid tc_page_num) with ((g_R G2 ∪ P) ∖ pages pid tc_page_num); [exact Hrep' |].
    clear - Hdis HP. apply set_eq. intros x. specialize (Hdis x). set_solver.
  - eapply runs_plain_kept; [exact Hund | exact Hpl].
Qed.
Lemma ThreadCacheCleaner_destroy_ok P th pr G C Hd V :
  am_inv P th pr G C Hd V -> exists pr', ThreadCacheCleaner_destroy th pr = Ok (mkThread None true, pr') /\
    free_post (am_next P th) pr Hd V (mkThread None true) pr'.
Proof.
  intros Hi. destruct (ThreadCacheCleaner_destroy_exact P th pr G C Hd V Hi) as (pr' & Heq & Hund & G' & C' & Hi').
  exists pr'. split; [exact Heq |]. split; [exact Hund |]. exists (P ∖ own th), G', C'. unfold own at 2. cbn.
  split; [reflexivity |]. split; [clear; set_solver | exact Hi'].
Qed.
End Steps.
