(* ===== verification/AmmallocThreads.v ===== *)
(** * Threads sharing the allocator

    Any number of threads, each with its own cache, whose public calls interleave
    in any order, and their clients writing to the blocks they own.  The abstract
    allocator is a map from the addresses of the live blocks to their lengths;
    the whole system refines it. *)
From S2P Require Import Prelude Config SizeClass FreeList Common Span SpanList Backing PageMap PageCache PageCacheInv.
From S2P Require Import CentralCache CentralInv CentralSteps CentralRelease CentralFetch CentralInit CentralSpec ThreadCache.
From S2P Require Import ThreadCacheInv ThreadCacheFree Ammalloc AmmallocInv AmmallocSteps.
Open Scope Z_scope.

(** ** The system *)

Record Heap (W : Type) := mkHeap {
  hp_threads : list Thread;
  hp_process : Process W
}.
Arguments mkHeap {W} _ _.
Arguments hp_threads {W} _.
Arguments hp_process {W} _.

(** The calls of the public interface, thread exit, and a client's store of [v]
    to the word at [w]. *)
Inductive call :=
| DoMalloc (size : Z)
| DoFree (p : Z)
| DoTrim
| DoPurge
| DoRequestTrim
| DoRequestPurge
| DoExit
| DoStore (w v : Z).
#[export] Instance call_eq_dec : EqDecision call.
Proof. solve_decision. Defined.

Section System.
Context `{Build} `{StaticLayout} `{CentralLayout} {W : Type} `{Backing W}.
Implicit Types (th : Thread) (pr : Process W) (hp : Heap W).

Definition client_store pr (w v : Z) : Process W :=
  let s := gl_central (am_globals pr) in
  with_globals pr (with_central (am_globals pr) (with_mem s (<[w := v]> (cc_mem s)))).

Definition thread_exec (c : call) th pr : outcome (Z * Thread * Process W) :=
  match c with
  | DoMalloc size => am_malloc th pr size
  | DoFree p => '(th, pr) ← am_free th pr p; Ok (0, th, pr)
  | DoTrim => '(th, pr) ← am_thread_cache_trim th pr; Ok (0, th, pr)
  | DoPurge => '(th, pr) ← am_thread_cache_purge th pr; Ok (0, th, pr)
  | DoRequestTrim => Ok (0, th, am_request_thread_cache_trim pr)
  | DoRequestPurge => pr ← am_request_thread_cache_purge pr; Ok (0, th, pr)
  | DoExit => '(th, pr) ← ThreadCacheCleaner_destroy th pr; Ok (0, th, pr)
  | DoStore w v => Ok (0, th, client_store pr w v)
  end.

Definition after hp (k : nat) th pr : Heap W := mkHeap (<[k := th]> (hp_threads hp)) pr.

Definition heap_exec (k : nat) (c : call) hp : outcome (Z * Heap W) :=
  match hp_threads hp !! k with
  | None => UB "no such thread"
  | Some th => '(r, th, pr) ← thread_exec c th (hp_process hp); Ok (r, after hp k th pr)
  end.
End System.

(** ** The abstract allocator *)

(** The live blocks: their lengths, by address. *)
Implicit Types (live : gmap Z Z).

Definition allocated live (w : Z) : Prop := exists p len, live !! p = Some len /\ p <= w < p + len.

(** What a client may call. *)
Definition call_ok live (c : call) : Prop :=
  match c with
  | DoMalloc size => 0 <= size < W64
  | DoFree p => p = 0 \/ is_Some (live !! p)
  | DoStore w v => exists p len, live !! p = Some len /\ p <= w /\ w + 8 <= p + len
  | _ => True
  end.

Definition quiet (c : call) : Prop := match c with DoMalloc _ | DoFree _ => False | _ => True end.
#[export] Instance quiet_dec c : Decision (quiet c).
Proof. destruct c; apply _. Defined.

Inductive spec_step live : call -> Z -> gmap Z Z -> Prop :=
| spec_exhausted size : spec_step live (DoMalloc size) 0 live
| spec_malloc size p len : p <> 0 -> size <= len -> 0 < len -> (forall w, p <= w < p + len -> ~ allocated live w) ->
    spec_step live (DoMalloc size) p (<[p := len]> live)
| spec_free p : spec_step live (DoFree p) 0 (delete p live)
| spec_quiet c : quiet c -> spec_step live c 0 live.

(** ** Blocks of the clients *)

(** Which object or run a block is. *)
Inductive tag := Small (idx p : Z) | Large (a : Z).

Inductive is_block (Hd : held) (V : runs) : tag -> Z -> Z -> Prop :=
| block_small idx p : is_class idx -> p ∈ Hd idx -> is_block Hd V (Small idx p) p (Size idx)
| block_large a st n : V !! a = Some (st, n) -> is_block Hd V (Large a) (st * PAGE_SIZE) (n * PAGE_SIZE).

Definition live_rep live (Hd : held) (V : runs) : Prop :=
  forall p len, live !! p = Some len <-> exists t, is_block Hd V t p len.

(** What the clients and the threads but the [k]-th hold. *)
Definition rest (Hd : held) (Cs : list (Z -> list Z)) (k : nat) : held :=
  fun j => Hd j ∪ ⋃ (imap (fun i C => if decide (i = k) then ∅ else list_to_set (C j)) Cs).

Lemma elem_of_rest Hd Cs k j x :
  x ∈ rest Hd Cs k j <-> x ∈ Hd j \/ exists i C, i <> k /\ Cs !! i = Some C /\ x ∈ C j.
Proof.
  unfold rest. rewrite elem_of_union, elem_of_union_list. apply or_iff_compat_l. split.
  - intros (X & HX & Hx). apply list_elem_of_lookup in HX as [i Hi]. rewrite list_lookup_imap in Hi.
    destruct (Cs !! i) as [C |] eqn:HC; cbn in Hi; [| done]. injection Hi as <-. case_decide as Hk; [set_solver |].
    exists i, C. split; [done |]. split; [done |]. by apply elem_of_list_to_set in Hx.
  - intros (i & C & Hk & HC & Hx). exists (list_to_set (C j)). split; [| by apply elem_of_list_to_set].
    apply list_elem_of_lookup. exists i. rewrite list_lookup_imap, HC. cbn. by rewrite decide_False.
Qed.

(** With its own objects, a thread sees what everybody sees. *)
Lemma elem_of_cached_rest Hd Cs k C j x : Cs !! k = Some C ->
  x ∈ cached (rest Hd Cs k) C j <-> x ∈ Hd j \/ exists i C, Cs !! i = Some C /\ x ∈ C j.
Proof.
  intros HC. unfold cached. rewrite elem_of_union, elem_of_rest, elem_of_list_to_set. split.
  - intros [[? | (i & C1 & _ & ? & ?)] | ?]; [by left | right; by exists i, C1 | right; by exists k, C].
  - intros [? | (i & C1 & Hi & Hx)]; [by do 2 left |]. destruct (decide (i = k)) as [-> | Hne].
    + right. congruence.
    + left. right. by exists i, C1.
Qed.

Lemma rest_give Hd Cs k idx X j : rest (give Hd idx X) Cs k j = give (rest Hd Cs k) idx X j.
Proof. unfold rest, give. destruct (decide (j = idx)) as [-> | Hne]; [rewrite !upd_fun_eq; set_solver | by rewrite !upd_fun_ne]. Qed.

Lemma rest_take_back Hd Cs k idx X j : (forall i C, Cs !! i = Some C -> forall x, x ∈ C idx -> x ∉ X) ->
  rest (take_back Hd idx X) Cs k j = take_back (rest Hd Cs k) idx X j.
Proof.
  intros Hap. apply set_eq. intros x. rewrite elem_of_rest. unfold take_back.
  destruct (decide (j = idx)) as [-> | Hne]; [| by rewrite !upd_fun_ne, elem_of_rest by done].
  rewrite !upd_fun_eq, !elem_of_difference, elem_of_rest. split; [| tauto].
  intros [[? ?] | (i & C & Hi & HC & Hx)]; [tauto |]. split; [right; by exists i, C | by eapply Hap].
Qed.

Lemma rest_insert Hd Cs k C j : rest Hd (<[k := C]> Cs) k j = rest Hd Cs k j.
Proof.
  apply set_eq. intros x. rewrite !elem_of_rest. apply or_iff_compat_l.
  split; intros (i & C1 & Hk & HC & Hx); exists i, C1; (rewrite list_lookup_insert_ne in * by done); done.
Qed.

Section Invariant.
Context {W : Type} `{BackingLaws W} `{StaticLayout} `{CentralLayout}.
Implicit Types (s : CentralCache W) (g : Globals W) (th : Thread) (pr : Process W) (hp : Heap W).
Implicit Types (G : ghost) (V : runs) (Hd : held) (C : Z -> list Z) (Cs : list (Z -> list Z)) (P : gset Z) (k : nat).

(** Different blocks do not overlap. *)
Lemma blocks_apart P s G Hd0 Hd V t u p q l m w :
  cc_inv (H1 := reserve_laws P) s G Hd0 V -> (forall j, Hd j ⊆ Hd0 j) ->
  is_block Hd V t p l -> is_block Hd V u q m -> p <= w < p + l -> q <= w < q + m -> t = u /\ p = q /\ l = m.
Proof.
  intros Hi Hsub Ht Hu Hwp Hwq.
  assert (Hob : forall idx x, is_class idx -> x ∈ Hd idx -> x <= w < x + Size idx ->
            exists b, b ∈ g_B G idx /\ covers (g_D G) b (w / PAGE_SIZE)).
  { intros idx x Hc Hx Hr. destruct (object_word _ _ _ _ Hi idx x Hc (or_introl (Hsub idx x Hx))) as (b & Hb & _ & Hob).
    exists b. split; [done |]. by apply Hob. }
  assert (Hrun : forall a st n, V !! a = Some (st, n) -> st * PAGE_SIZE <= w < st * PAGE_SIZE + n * PAGE_SIZE ->
            covers (g_D G) a (w / PAGE_SIZE)).
  { intros a st n Hv Hr. exists st, n. split; [eapply lookup_weaken; [exact Hv | apply Hi] |]. unfold PAGE_SIZE in *.
    split; [apply Z.div_le_lower_bound; lia | apply Z.div_lt_upper_bound; lia]. }
  destruct Ht as [i x Hci Hx | a st n Hv]; destruct Hu as [j y Hcj Hy | b st' n' Hv'].
  - by destruct (objects_apart _ _ _ _ Hi i j x y w Hci Hcj (or_introl (Hsub i x Hx)) (or_introl (Hsub j y Hy)) Hwp Hwq) as [<- <-].
  - destruct (Hob i x Hci Hx Hwp) as (b' & Hb & Hc). pose proof (ci_cover _ _ _ _ Hi _ _ _ Hc (Hrun b st' n' Hv' Hwq)) as ->.
    exfalso. apply (ci_out _ _ _ _ Hi i b Hci Hb), elem_of_dom. by eexists.
  - destruct (Hob j y Hcj Hy Hwq) as (b' & Hb & Hc). pose proof (ci_cover _ _ _ _ Hi _ _ _ Hc (Hrun a st n Hv Hwp)) as ->.
    exfalso. apply (ci_out _ _ _ _ Hi j a Hcj Hb), elem_of_dom. by eexists.
  - pose proof (ci_cover _ _ _ _ Hi _ _ _ (Hrun a st n Hv Hwp) (Hrun b st' n' Hv' Hwq)) as <-. rewrite Hv in Hv'.
    by injection Hv' as <- <-.
Qed.

Lemma block_pos P s G Hd0 Hd V t p l :
  cc_inv (H1 := reserve_laws P) s G Hd0 V -> (forall j, Hd j ⊆ Hd0 j) -> is_block Hd V t p l -> 0 < l /\ p <> 0.
Proof.
  intros Hi Hsub Ht. destruct Ht as [idx p Hidx Hp | a st n Hv].
  - pose proof (Size_range idx Hidx) as Hsz. unfold ALIGNMENT in Hsz. split; [lia |].
    by destruct (object_word _ _ _ _ Hi idx p Hidx (or_introl (Hsub idx p Hp))) as (_ & _ & Hnz & _).
  - assert (HDa : g_D G !! a = Some (st, n)) by (eapply lookup_weaken; [exact Hv | apply Hi]).
    destruct (co_geom _ _ _ _ _ _ _ (pi_core _ _ _ _ _ _ _ (ci_pages _ _ _ _ Hi)) _ _ _ HDa) as [_ _ Hst Hnum _ _ _].
    unfold PAGE_SIZE. lia.
Qed.

(** The clients' words are those of their blocks. *)
Lemma user_word_block Hd V w : user_word Hd V w <-> exists t p l, is_block Hd V t p l /\ p <= w < p + l.
Proof.
  split.
  - intros [(idx & x & Hidx & Hx & Hr) | (v & st & n & Hv & Hp)].
    + exists (Small idx x), x, (Size idx). by split; [constructor |].
    + exists (Large v), (st * PAGE_SIZE), (n * PAGE_SIZE). split; [by constructor |]. unfold PAGE_SIZE in *.
      pose proof (Z.div_mod w 4096 ltac:(lia)). pose proof (Z.mod_pos_bound w 4096 ltac:(lia)). lia.
  - intros (t & p & l & Hb & Hr). destruct Hb as [idx p Hidx Hp | a st n Hv]; [left; by exists idx, p |].
    right. exists a, st, n. split; [done |]. unfold PAGE_SIZE in *.
    split; [apply Z.div_le_lower_bound; lia | apply Z.div_lt_upper_bound; lia].
Qed.

Lemma allocated_user live Hd V w : live_rep live Hd V -> allocated live w <-> user_word Hd V w.
Proof.
  intros Hl. rewrite user_word_block. split.
  - intros (p & len & [t Hb]%Hl & Hr). by exists t, p, len.
  - intros (t & p & l & Hb & Hr). exists p, l. split; [| done]. apply Hl. by exists t.
Qed.

(** What gaining and losing a block does to the blocks. *)
Lemma gained_blocks Hd V p len Hd' V' : gained Hd V p len Hd' V' ->
  exists t, (forall q m, ~ is_block Hd V t q m) /\ forall u q m, is_block Hd' V' u q m <-> is_block Hd V u q m \/ u = t /\ q = p /\ m = len.
Proof.
  intros Hg. destruct Hg as [idx p Hidx Hp | a st n Hv].
  - exists (Small idx p). split; [intros q m Hb; inversion Hb; by subst |]. intros u q m. split.
    + intros Hb. inversion Hb as [j x Hj Hx | b st n Hb']; subst; [| left; by constructor].
      unfold give in Hx. destruct (decide (j = idx)) as [-> | Hne]; [| rewrite upd_fun_ne in Hx by done; left; by constructor].
      rewrite upd_fun_eq, elem_of_union, elem_of_singleton in Hx. destruct Hx as [Hx | ->]; [left; by constructor | by right].
    + intros [Hb | (-> & -> & ->)]; [destruct Hb as [j x Hj Hx | b st n Hb]; constructor; try done; by apply give_sub |].
      constructor; [done |]. unfold give. rewrite upd_fun_eq. set_solver.
  - exists (Large a). split; [intros q m Hb; inversion Hb; subst; congruence |]. intros u q m. split.
    + intros Hb. inversion Hb as [j x Hj Hx | b st' n' Hb']; subst; [left; by constructor |].
      apply lookup_insert_Some in Hb' as [[-> [= -> ->]] | [Hne Hb']]; [by right | left; by constructor].
    + intros [Hb | (-> & -> & ->)]; [destruct Hb as [j x Hj Hx | b st' n' Hb]; constructor; try done |].
      * rewrite lookup_insert_ne; [done |]. intros ->. by rewrite Hv in Hb.
      * constructor. by rewrite lookup_insert_eq.
Qed.

Lemma lost_blocks Hd V p Hd' V' : lost Hd V p Hd' V' ->
  exists t len, is_block Hd V t p len /\ forall u q m, is_block Hd' V' u q m <-> is_block Hd V u q m /\ u <> t.
Proof.
  intros Hg. destruct Hg as [idx p Hidx Hp | a st n Hv].
  - exists (Small idx p), (Size idx). split; [by constructor |]. intros u q m. split.
    + intros Hb. inversion Hb as [j x Hj Hx | b st n Hb']; subst; [| split; [by constructor | done]].
      unfold take_back in Hx. destruct (decide (j = idx)) as [-> | Hne].
      * rewrite upd_fun_eq, elem_of_difference, elem_of_singleton in Hx. destruct Hx as [Hx Hxp]. split; [by constructor | by intros [= ->]].
      * rewrite upd_fun_ne in Hx by done. split; [by constructor | by intros [= -> ->]].
    + intros [Hb Hne]. destruct Hb as [j x Hj Hx | b st n Hb]; constructor; try done. unfold take_back.
      destruct (decide (j = idx)) as [-> | Hji]; [| by rewrite upd_fun_ne]. rewrite upd_fun_eq, elem_of_difference, elem_of_singleton.
      split; [done |]. by intros ->.
  - exists (Large a), (n * PAGE_SIZE). split; [by constructor |]. intros u q m. split.
    + intros Hb. inversion Hb as [j x Hj Hx | b st' n' Hb']; subst; [split; [by constructor | done] |].
      apply lookup_delete_Some in Hb' as [Hne Hb']. split; [by constructor |]. congruence.
    + intros [Hb Hne]. destruct Hb as [j x Hj Hx | b st' n' Hb]; constructor; try done.
      rewrite lookup_delete_ne; [done |]. congruence.
Qed.

(** ** The invariant of the system *)

Record sys_inv hp P G Cs Hd V : Prop := {
  si_length : length Cs = length (hp_threads hp);
  si_thread : forall k th C, hp_threads hp !! k = Some th -> Cs !! k = Some C ->
    am_inv P th (hp_process hp) G C (rest Hd Cs k) V;
  si_none : forall k th C, hp_threads hp !! k = Some th -> Cs !! k = Some C -> ptls th = None -> forall j, C j = [];
  si_own : forall i k th1 th2, i <> k -> hp_threads hp !! i = Some th1 -> hp_threads hp !! k = Some th2 -> own th1 ## own th2;
}.

Lemma am_inv_held P th pr G C Hd Hd' V : (forall j, is_class j -> Hd j = Hd' j) ->
  am_inv P th pr G C Hd V -> am_inv P th pr G C Hd' V.
Proof.
  intros Heq [Hth Hpl]. constructor; [| done]. destruct (ptls th) as [[a t] |].
  - destruct Hth as [[[Hcc Htd Hls Hap] Hq] Hpg]. split; [| done]. constructor; [| done]. constructor; try done.
    + eapply cc_inv_held; [| exact Hcc]. intros j Hj. unfold cached. by rewrite Heq.
    + intros i x Hi. rewrite <- (Heq i Hi). by apply Hap.
  - split; [| apply Hth]. eapply cc_inv_held; [| apply Hth]. intros j Hj. by rewrite Heq.
Qed.

(** What one thread knows of the rest. *)
Lemma am_apart P th pr G C Hd V i x : am_inv P th pr G C Hd V -> is_class i ->
  (ptls th = None -> C i = []) -> x ∈ C i -> x ∉ Hd i.
Proof.
  intros [Hth _] Hi Hnone Hx. destruct (ptls th) as [[a t] |]; [by apply (tl_apart _ _ _ _ _ _ (ti_live _ _ _ _ _ _ _ (proj1 Hth)) i) |].
  rewrite Hnone in Hx by done. by apply not_elem_of_nil in Hx.
Qed.
Lemma am_own P th pr G C Hd V : am_inv P th pr G C Hd V -> own th ⊆ P.
Proof.
  intros [Hth _]. unfold own. destruct (ptls th) as [[a t] |]; [| apply empty_subseteq].
  apply cache_page_sub, Hth.
Qed.

(** The central cache's part, the same for all threads. *)
Lemma am_cached P th pr G C Hd V : am_inv P th pr G C Hd V -> (ptls th = None -> forall j, C j = []) ->
  cc_inv (H1 := reserve_laws P) (gl_central (am_globals pr)) G (cached Hd C) V.
Proof.
  intros [Hth _] Hnone. destruct (ptls th) as [[a t] |]; [apply Hth |]. eapply cc_inv_held; [| apply Hth].
  intros j _. unfold cached. rewrite Hnone by done. cbn. by rewrite union_empty_r_L.
Qed.

(** Another thread's view survives a step of the process. *)
Lemma am_frame P P' th pr pr' G G' C Hd Hd' V V' U V0 :
  am_inv P th pr G C Hd V -> (ptls th = None -> forall j, C j = []) ->
  cc_inv (H1 := reserve_laws P') (gl_central (am_globals pr')) G' (cached Hd' C) V' -> tidy G' -> runs_plain (gl_central (am_globals pr')) V' ->
  own th ⊆ P' -> am_und U V0 pr pr' -> (forall j x, is_class j -> x ∈ C j -> x ∈ U j /\ (x ∉ Hd' j)) ->
  am_inv P' th pr' G' C Hd' V'.
Proof.
  intros [Hth _] Hnone Hcc' Htd' Hpl' Hown Hu HC. constructor; [| done]. unfold own in Hown. destruct (ptls th) as [[a t] |].
  - destruct Hth as [[[Hcc Htd Hls Hap] Hq] Hpg]. split; [| by eapply cache_page_mono]. constructor; [| done]. constructor; try done.
    + intros i Hi. eapply list_kept; [exact Hu | exact Hi | | by apply Hls]. intros x Hx. by apply HC.
    + intros i x Hi Hx. by apply HC.
  - split; [| done]. eapply cc_inv_held; [| exact Hcc']. intros j _. unfold cached. rewrite Hnone by done. cbn. by rewrite union_empty_r_L.
Qed.

(** *** A step of one thread *)

Lemma thread_step_ok hp P G Cs Hd V k th C th' pr' Hd' V' U V0 :
  sys_inv hp P G Cs Hd V -> hp_threads hp !! k = Some th -> Cs !! k = Some C ->
  am_next P th th' pr' (rest Hd' Cs k) V' -> am_und U V0 (hp_process hp) pr' -> (forall j, rest none_held Cs k j ⊆ U j) ->
  (forall i C1 j x, is_class j -> i <> k -> Cs !! i = Some C1 -> x ∈ C1 j -> x ∉ Hd' j) ->
  exists P' G' Cs', sys_inv (after hp k th' pr') P' G' Cs' Hd' V'.
Proof.
  intros [Hlen Hth Hnone Hown] Hk HCk (P' & G' & C0 & HP & HPo & Hi0) Hu HU Hoth.
  set (C' := if decide (ptls th' = None) then fun _ => [] else C0).
  assert (HC'n : ptls th' = None -> forall j, C' j = []) by (intros E j; unfold C'; by rewrite decide_True).
  assert (Hi' : am_inv P' th' pr' G' C' (rest Hd' Cs k) V').
  { unfold C'. case_decide as E; [| exact Hi0]. destruct Hi0 as [Hi1 ?]. constructor; [| done]. by rewrite E in *. }
  clearbody C'. clear C0 Hi0. pose proof (lookup_lt_Some _ _ _ Hk) as Hklt. set (Cs' := <[k := C']> Cs).
  assert (HCs' : Cs' !! k = Some C') by (apply list_lookup_insert_eq; lia).
  assert (Hcases : forall i th1, <[k := th']> (hp_threads hp) !! i = Some th1 -> i = k /\ th1 = th' \/ i <> k /\ hp_threads hp !! i = Some th1).
  { intros i th1 Hl. destruct (decide (i = k)) as [-> | Hne]; [left | right].
    - rewrite list_lookup_insert_eq in Hl by done. by injection Hl as <-.
    - by rewrite list_lookup_insert_ne in Hl by done. }
  assert (HownP : forall i th1, i <> k -> hp_threads hp !! i = Some th1 -> own th1 ⊆ P ∖ own th).
  { intros i th1 Hne Hl. destruct (lookup_lt_is_Some_2 Cs i) as [C1 HC1]; [rewrite Hlen; by eapply lookup_lt_Some |].
    pose proof (am_own _ _ _ _ _ _ _ (Hth i th1 C1 Hl HC1)) as Hs. pose proof (Hown i k th1 th Hne Hl Hk) as Hd1. set_solver. }
  exists P', G', Cs'. constructor; cbn.
  - unfold Cs'. by rewrite !length_insert.
  - intros i th1 C1 Hl HC1. destruct (Hcases i th1 Hl) as [[-> ->] | [Hne Hl0]].
    + rewrite HCs' in HC1. injection HC1 as <-. eapply am_inv_held; [| exact Hi']. intros j _. symmetry. apply rest_insert.
    + unfold Cs' in HC1. rewrite list_lookup_insert_ne in HC1 by done.
      assert (Hup : forall H j x, x ∈ C1 j -> x ∈ rest H Cs k j) by (intros H' j x Hx; apply elem_of_rest; right; by exists i, C1).
      apply (am_frame P P' th1 (hp_process hp) pr' G G' C1 (rest Hd Cs i) (rest Hd' Cs' i) V V' U V0); try done.
      * by apply Hth.
      * by eapply Hnone.
      * eapply cc_inv_held; [| exact (am_cached _ _ _ _ _ _ _ Hi' HC'n)]. intros j _. apply set_eq. intros x.
        assert (HC1' : Cs' !! i = Some C1) by (unfold Cs'; by rewrite list_lookup_insert_ne).
        rewrite (elem_of_cached_rest Hd' Cs' i C1 j x HC1'), <- (elem_of_cached_rest Hd' Cs' k C' j x HCs').
        unfold cached, Cs'. by rewrite rest_insert.
      * by eapply am_tidy.
      * apply Hi'.
      * etransitivity; [by eapply HownP | exact HP].
      * intros j x Hj Hx. split; [by apply HU, Hup |]. rewrite elem_of_rest. intros [Hx' | (l & C2 & Hli & HC2 & Hx')].
        -- by apply (Hoth i C1 j x).
        -- unfold Cs' in HC2. destruct (decide (l = k)) as [-> | Hlk].
           ++ rewrite list_lookup_insert_eq in HC2 by lia. injection HC2 as <-.
              by apply (am_apart _ _ _ _ _ _ _ j x Hi' Hj (fun E => HC'n E j) Hx'), Hup.
           ++ rewrite list_lookup_insert_ne in HC2 by done.
              apply (am_apart _ _ _ _ _ _ _ j x (Hth i th1 C1 Hl0 HC1) Hj (fun E => Hnone i th1 C1 Hl0 HC1 E j) Hx).
              apply elem_of_rest. right. by exists l, C2.
  - intros i th1 C1 Hl HC1 E. destruct (Hcases i th1 Hl) as [[-> ->] | [Hne Hl0]].
    + rewrite HCs' in HC1. injection HC1 as <-. by apply HC'n.
    + unfold Cs' in HC1. rewrite list_lookup_insert_ne in HC1 by done. by eapply Hnone.
  - intros i l th1 th2 Hil Hl1 Hl2.
    destruct (Hcases i th1 Hl1) as [[-> ->] | [Hne1 Hl1']], (Hcases l th2 Hl2) as [[-> ->] | [Hne2 Hl2']]; [done | | | exact (Hown i l th1 th2 Hil Hl1' Hl2')].
    + pose proof (HownP l th2 Hne2 Hl2'). set_solver.
    + pose proof (HownP i th1 Hne1 Hl1'). set_solver.
Qed.

(** *** The system and the live blocks *)

(** The runs [Vs] are in use by somebody who is not a client: the scavenger. *)
Definition heap_rel (Vs : runs) live hp : Prop :=
  exists P G Cs Hd V, sys_inv hp P G Cs Hd (V ∪ Vs) /\ V ##ₘ Vs /\ live_rep live Hd V.

Definition hp_central hp : CentralCache W := gl_central (am_globals (hp_process hp)).
Definition hp_mem hp : mem := cc_mem (hp_central hp).

(** The descriptors of those runs are left alone. *)
Definition runs_kept (Vs : runs) hp hp' : Prop := forall a, a ∈ dom Vs -> cc_spans (hp_central hp') !! a = cc_spans (hp_central hp) !! a.

(** The clients find what they wrote. *)
Definition contents_kept live live' (c : call) (m m' : mem) : Prop :=
  forall w, allocated live w -> allocated live' w -> (forall v, c <> DoStore w v) -> m' !! w = m !! w.

Definition refined (Vs : runs) live hp (c : call) (r : Z) hp' : Prop :=
  length (hp_threads hp') = length (hp_threads hp) /\ runs_kept Vs hp hp' /\
  exists live', spec_step live c r live' /\ heap_rel Vs live' hp' /\ contents_kept live live' c (hp_mem hp) (hp_mem hp').

Lemma is_block_mono Hd V V' t p l : V ⊆ V' -> is_block Hd V t p l -> is_block Hd V' t p l.
Proof. intros Hs Hb. destruct Hb; constructor; try done. by eapply lookup_weaken. Qed.

Section Live.
Context (P : gset Z) (s : CentralCache W) (G : ghost) (Hd0 Hd : held) (V0 V : runs) (live : gmap Z Z).
Hypothesis Hi : cc_inv (H1 := reserve_laws P) s G Hd0 V0.
Hypothesis Hsub : forall j, Hd j ⊆ Hd0 j.
Hypothesis HV : V ⊆ V0.
Hypothesis Hl : live_rep live Hd V.

Lemma live_block t p l : is_block Hd V t p l -> 0 < l /\ p <> 0.
Proof using Hi Hsub HV. intros Hb. apply (block_pos P s G Hd0 Hd V0 t p l Hi Hsub). by apply (is_block_mono Hd V). Qed.

Lemma live_pos p len : live !! p = Some len -> 0 < len /\ p <> 0.
Proof using Hi Hsub HV Hl. intros [t Ht]%Hl. by eapply live_block. Qed.

Lemma live_gained p len Hd' V' :
  gained Hd V p len Hd' V' -> 0 < len -> (forall w, p <= w < p + len -> ~ user_word Hd V w) ->
  live_rep (<[p := len]> live) Hd' V'.
Proof using Hi Hsub HV Hl.
  intros Hg Hlen Hfr q m. destruct (gained_blocks _ _ _ _ _ _ Hg) as (t & _ & Hb).
  assert (Hp : live !! p = None).
  { destruct (live !! p) as [m' |] eqn:E; [exfalso | done]. destruct (live_pos p m' E) as [Hm _].
    apply (Hfr p); [lia |]. rewrite <- (allocated_user live Hd V) by exact Hl. exists p, m'. split; [done | lia]. }
  rewrite lookup_insert_Some. split.
  - intros [[-> ->] | [Hne [u Hu]%Hl]]; [exists t; apply Hb; by right | exists u; apply Hb; by left].
  - intros [u [Hu | (_ & -> & ->)]%Hb]; [right | by left]. assert (E : live !! q = Some m) by (apply Hl; by exists u).
    split; [| exact E]. intros ->. by rewrite Hp in E.
Qed.

Lemma live_lost p Hd' V' : lost Hd V p Hd' V' -> live_rep (delete p live) Hd' V'.
Proof using Hi Hsub HV Hl.
  intros Hg q m. destruct (lost_blocks _ _ _ _ _ Hg) as (t & len & Ht & Hb). rewrite lookup_delete_Some, (Hl q m). split.
  - intros [Hne [u Hu]]. exists u. apply Hb. split; [done |]. intros ->.
    apply Hne. inversion Ht; subst; inversion Hu; subst; congruence.
  - intros [u [Hu Hne]%Hb]. split; [| by exists u]. intros Heq. subst q.
    destruct (live_block _ _ _ Hu) as [? _]. destruct (live_block _ _ _ Ht) as [? _].
    apply Hne, (blocks_apart P s G Hd0 Hd V0 u t p p m len p Hi Hsub); try lia; by apply (is_block_mono Hd V).
Qed.

Lemma live_owned p : is_Some (live !! p) -> exists Hd' V', lost Hd V p Hd' V'.
Proof using Hl.
  intros [len [t Ht]%Hl]. destruct Ht as [idx p Hidx Hp | a st n Hv]; eexists _, _; econstructor; done.
Qed.
End Live.

(** *** The calls *)

Lemma others_apart hp P G Cs Hd V i C1 j x : sys_inv hp P G Cs Hd V -> is_class j -> Cs !! i = Some C1 -> x ∈ C1 j -> x ∉ Hd j.
Proof.
  intros [Hlen Hth Hnone _] Hj HC1 Hx Hxd. destruct (lookup_lt_is_Some_2 (hp_threads hp) i) as [th Hl]; [rewrite <- Hlen; by eapply lookup_lt_Some |].
  apply (am_apart _ _ _ _ _ _ _ j x (Hth i th C1 Hl HC1) Hj (fun E => Hnone i th C1 Hl HC1 E j) Hx).
  apply elem_of_rest. by left.
Qed.

Lemma next_held P th th' pr' Hd1 Hd2 V : (forall j, Hd1 j = Hd2 j) -> am_next P th th' pr' Hd1 V -> am_next P th th' pr' Hd2 V.
Proof.
  intros Heq (P' & G' & C' & HP & HPo & Hi). exists P', G', C'. split; [done |]. split; [done |].
  eapply (am_inv_held _ _ _ _ _ Hd1); [intros j _; apply Heq | exact Hi].
Qed.

Lemma gained_rest Hd Cs k V p len HR V' : gained (rest Hd Cs k) V p len HR V' ->
  exists Hd', gained Hd V p len Hd' V' /\ (forall j, HR j = rest Hd' Cs k j) /\
    forall i C1 j x, i <> k -> Cs !! i = Some C1 -> x ∈ C1 j -> (x ∉ Hd j) -> x ∉ Hd' j.
Proof.
  intros Hg. inversion Hg as [idx q Hidx Hq | a st n Hv]; subst.
  - rewrite elem_of_rest in Hq. exists (give Hd idx {[p]}). split; [constructor; tauto |]. split; [intros j; symmetry; apply rest_give |].
    intros i C1 j x Hik HC1 Hx Hxd. unfold give. destruct (decide (j = idx)) as [-> | Hne]; [| by rewrite upd_fun_ne].
    rewrite upd_fun_eq, elem_of_union, elem_of_singleton. intros [? | ->]; [done |]. apply Hq. right. by exists i, C1.
  - exists Hd. split; [by constructor |]. by split.
Qed.

Lemma lost_rest Hd Cs k V p Hd' V' : lost Hd V p Hd' V' ->
  (forall i C1 j x, is_class j -> Cs !! i = Some C1 -> x ∈ C1 j -> x ∉ Hd j) ->
  exists HR, lost (rest Hd Cs k) V p HR V' /\ (forall j, HR j = rest Hd' Cs k j) /\ forall j, Hd' j ⊆ Hd j.
Proof.
  intros Hg Hap. inversion Hg as [idx q Hidx Hq | a st n Hv]; subst.
  - exists (take_back (rest Hd Cs k) idx {[p]}). split; [constructor; [done |]; apply elem_of_rest; by left |].
    split; [| intros j; apply take_back_sub]. intros j. symmetry. apply rest_take_back.
    intros i C HC x Hx ->%elem_of_singleton. by apply (Hap i C idx p).
  - exists (rest Hd' Cs k). split; [by econstructor |]. by split.
Qed.

(** The clients' view of a step that keeps their blocks. *)
Lemma kept_contents live live' Hd V U V' c hp hp' :
  (live_rep live Hd V \/ live_rep live' Hd V) -> (forall j, Hd j ⊆ U j) -> V ⊆ V' ->
  am_und U V' (hp_process hp) (hp_process hp') -> contents_kept live live' c (hp_mem hp) (hp_mem hp').
Proof.
  intros Hl HU HV [Hm _] w Hw Hw' _. apply Hm. eapply (user_word_mono Hd U V V'); [intros j _; apply HU | exact HV |].
  destruct Hl as [Hl | Hl]; by eapply (allocated_user _ Hd V w Hl).
Qed.

Lemma gained_pos P th th' pr' Hd V p len Hd' V' : gained Hd V p len Hd' V' -> am_next P th th' pr' Hd' V' -> 0 < len.
Proof.
  intros Hg (P' & G' & C' & _ & _ & Hi). destruct (gained_blocks _ _ _ _ _ _ Hg) as (t & _ & Hb).
  destruct (am_central _ _ _ _ _ _ _ Hi) as (Hd0 & Hcc & Hsub & _).
  destruct (block_pos P' _ G' Hd0 Hd' V' t p len Hcc Hsub) as [Hpos _]; [apply Hb; by right | exact Hpos].
Qed.

Lemma rest_sub Hd Cs k j : Hd j ⊆ rest Hd Cs k j.
Proof. apply union_subseteq_l. Qed.

(** What the clients gain or lose, the scavenger's runs aside. *)
Lemma gained_union Hd V Vs p len Hd' V' : gained Hd (V ∪ Vs) p len Hd' V' -> V ##ₘ Vs ->
  exists V1, gained Hd V p len Hd' V1 /\ V' = V1 ∪ Vs /\ V1 ##ₘ Vs /\ V ⊆ V1.
Proof.
  intros Hg Hdis. inversion Hg as [idx q Hidx Hq | a st n Hv]; subst.
  - exists V. split; [by constructor |]. done.
  - apply lookup_union_None in Hv as [Hv Hvs]. exists (<[a := (st, n)]> V). split; [by constructor |].
    split; [apply insert_union_l |]. split; [by apply map_disjoint_insert_l | by apply insert_subseteq].
Qed.

Lemma lost_union Hd V Vs p Hd' V' : lost Hd V p Hd' V' -> V ##ₘ Vs ->
  lost Hd (V ∪ Vs) p Hd' (V' ∪ Vs) /\ V' ##ₘ Vs /\ V' ⊆ V.
Proof.
  intros Hg Hdis. inversion Hg as [idx q Hidx Hq | a st n Hv]; subst.
  - split; [by constructor |]. done.
  - assert (Hvs : Vs !! a = None) by (eapply map_disjoint_Some_l; [exact Hdis | exact Hv]).
    rewrite <- (delete_id Vs a Hvs) at 2. rewrite <- delete_union. split; [| split; [by apply map_disjoint_delete_l | apply delete_subseteq]].
    apply (lost_large _ _ a st n). by apply lookup_union_Some_l.
Qed.

Section Call.
Context (live : gmap Z Z) (hp : Heap W) (P : gset Z) (G : ghost) (Cs : list (Z -> list Z)) (Hd : held) (V Vs : runs).
Context (k : nat) (th : Thread) (C : Z -> list Z).
Hypothesis Hsys : sys_inv hp P G Cs Hd (V ∪ Vs).
Hypothesis Hdis : V ##ₘ Vs.
Hypothesis Hlive : live_rep live Hd V.
Hypothesis Hth : hp_threads hp !! k = Some th.
Hypothesis HC : Cs !! k = Some C.

Lemma call_inv : am_inv P th (hp_process hp) G C (rest Hd Cs k) (V ∪ Vs).
Proof. exact (si_thread _ _ _ _ _ _ Hsys k th C Hth HC). Qed.

Lemma call_apart i C1 j x : is_class j -> i <> k -> Cs !! i = Some C1 -> x ∈ C1 j -> x ∉ Hd j.
Proof. intros Hj _. by apply (others_apart hp P G Cs Hd (V ∪ Vs)). Qed.

Lemma call_central : exists Hd0,
  cc_inv (H1 := reserve_laws P) (hp_central hp) G Hd0 (V ∪ Vs) /\ (forall j, Hd j ⊆ Hd0 j).
Proof.
  destruct (am_central _ _ _ _ _ _ _ call_inv) as (Hd0 & Hcc & Hsub & _). exists Hd0. split; [exact Hcc |].
  intros j. etransitivity; [apply rest_sub | apply Hsub].
Qed.

Lemma clients_sub : V ⊆ V ∪ Vs.
Proof. apply map_union_subseteq_l. Qed.
Lemma others_sub V1 a : a ∈ dom Vs -> a ∈ dom (V1 ∪ Vs).
Proof. rewrite dom_union. set_solver. Qed.

(** The step of the thread, and what its clients own afterwards. *)
Lemma call_refined c r th' pr' live' Hd' V' U V0 :
  spec_step live c r live' -> live_rep live' Hd' V' -> V' ##ₘ Vs ->
  am_next P th th' pr' (rest Hd' Cs k) (V' ∪ Vs) ->
  am_und U (V0 ∪ Vs) (hp_process hp) pr' -> (forall j, rest none_held Cs k j ⊆ U j) ->
  (forall i C1 j x, is_class j -> i <> k -> Cs !! i = Some C1 -> x ∈ C1 j -> x ∉ Hd' j) ->
  contents_kept live live' c (hp_mem hp) (hp_mem (after hp k th' pr')) -> refined Vs live hp c r (after hp k th' pr').
Proof.
  intros Hspec Hl' Hdis' Hn Hu HU Hap Hk.
  destruct (thread_step_ok hp P G Cs Hd (V ∪ Vs) k th C th' pr' Hd' (V' ∪ Vs) U (V0 ∪ Vs) Hsys Hth HC Hn Hu HU Hap)
    as (P' & G' & Cs' & Hsys').
  split; [apply length_insert |]. split; [intros a Ha; apply Hu, others_sub, Ha |].
  exists live'. split; [done |]. split; [by exists P', G', Cs', Hd', V' | done].
Qed.

Lemma none_rest Hd1 j : rest none_held Cs k j ⊆ rest Hd1 Cs k j.
Proof. intros x. rewrite !elem_of_rest. unfold none_held. set_solver. Qed.

(** Steps after which the clients own what they owned. *)
Lemma quiet_refined c th' pr' : spec_step live c 0 live ->
  free_post (am_next P th) (hp_process hp) (rest Hd Cs k) (V ∪ Vs) th' pr' -> refined Vs live hp c 0 (after hp k th' pr').
Proof.
  intros Hspec [Hu Hn]. eapply (call_refined c 0 th' pr' live Hd V);
    [exact Hspec | exact Hlive | exact Hdis | exact Hn | exact Hu | apply none_rest | exact call_apart |].
  eapply kept_contents; [left; exact Hlive | apply rest_sub | apply clients_sub | exact Hu].
Qed.

Lemma malloc_refined size : 0 <= size < W64 ->
  exists r th' pr', am_malloc th (hp_process hp) size = Ok (r, th', pr') /\ refined Vs live hp (DoMalloc size) r (after hp k th' pr').
Proof.
  intros Hs. destruct (am_malloc_ok P th _ G C _ (V ∪ Vs) size call_inv Hs) as (r & th' & pr' & -> & [Hund Hok]).
  exists r, th', pr'. split; [done |].
  destruct Hok as [[-> Hn] | (Hr & len & HR & V' & Hg & Hlen & Hn & Hfr)]; [apply quiet_refined; [constructor | by split] |].
  destruct (gained_rest _ _ _ _ _ _ _ _ Hg) as (Hd' & Hg' & HRe & Hnew).
  destruct (gained_union _ _ _ _ _ _ _ Hg' Hdis) as (V1 & Hg1 & -> & Hdis1 & HV1).
  assert (Hu0 : forall w, r <= w < r + len -> ~ user_word Hd V w).
  { intros w Hw Hu. apply (Hfr w Hw). eapply user_word_mono; [intros j _; apply rest_sub | apply clients_sub | exact Hu]. }
  pose proof (gained_pos _ _ _ _ _ _ _ _ _ _ Hg Hn) as Hlen0.
  destruct call_central as (Hd0 & Hcc & Hsub).
  eapply (call_refined _ r th' pr' (<[r := len]> live) Hd' V1).
  - constructor; [done | done | done |]. intros w Hw. rewrite (allocated_user live Hd V) by exact Hlive. by apply Hu0.
  - by apply (live_gained P _ G Hd0 Hd (V ∪ Vs) V live Hcc Hsub clients_sub Hlive r len).
  - exact Hdis1.
  - by eapply next_held.
  - exact Hund.
  - apply none_rest.
  - intros i C1 j x Hj Hik HC1 Hx. eapply Hnew; [done | done | done |]. by eapply call_apart.
  - eapply kept_contents; [left; exact Hlive | apply rest_sub | apply clients_sub | exact Hund].
Qed.

Lemma free_refined p : p = 0 \/ is_Some (live !! p) ->
  exists th' pr', am_free th (hp_process hp) p = Ok (th', pr') /\ refined Vs live hp (DoFree p) 0 (after hp k th' pr').
Proof.
  destruct call_central as (Hd0 & Hcc & Hsub). intros [-> | Hp].
  - exists th, (hp_process hp). split; [done |]. apply quiet_refined.
    + rewrite <- (delete_id live 0) at 2; [constructor |]. apply eq_None_not_Some. intros [len Hl].
      by destruct (live_pos P _ G Hd0 Hd (V ∪ Vs) V live Hcc Hsub clients_sub Hlive 0 len Hl).
    + split; [apply undisturbed_refl | apply next_same; [done | exists G, C; exact call_inv]].
  - destruct (live_owned Hd V live Hlive p Hp) as (Hd' & V' & Hlost).
    destruct (lost_union _ _ _ _ _ _ Hlost Hdis) as (HlostU & Hdis' & HV').
    destruct (lost_rest Hd Cs k (V ∪ Vs) p Hd' (V' ∪ Vs) HlostU) as (HR & HlostR & HRe & Hsub').
    { intros i C1 j x Hj HC1. by apply (others_apart hp P G Cs Hd (V ∪ Vs) i C1 j x). }
    destruct (am_free_ok P th _ G C _ (V ∪ Vs) p HR (V' ∪ Vs) call_inv HlostR) as (th' & pr' & -> & [Hund Hn]). exists th', pr'. split; [done |].
    assert (Hl' : live_rep (delete p live) Hd' V') by (by apply (live_lost P _ G Hd0 Hd (V ∪ Vs) V live Hcc Hsub clients_sub Hlive)).
    assert (HRU : forall j, rest Hd' Cs k j ⊆ HR j) by (intros j; by rewrite HRe).
    eapply (call_refined _ 0 th' pr' (delete p live) Hd' V').
    + constructor.
    + exact Hl'.
    + exact Hdis'.
    + by eapply next_held.
    + exact Hund.
    + intros j. etransitivity; [apply none_rest | apply HRU].
    + intros i C1 j x Hj Hik HC1 Hx Hx'. by apply (call_apart i C1 j x Hj Hik HC1 Hx), Hsub'.
    + eapply kept_contents; [right; exact Hl' | | apply map_union_subseteq_l | exact Hund]. intros j. etransitivity; [apply (rest_sub Hd' Cs k) | apply HRU].
Qed.
End Call.

(** A client writing to one of its blocks. *)
Lemma store_inv P th pr G C Hd V w v : am_inv P th pr G C Hd V -> user_word Hd V w -> am_inv P th (client_store pr w v) G C Hd V.
Proof.
  intros [Hth Hpl] Hw. constructor; [| exact Hpl]. destruct (ptls th) as [[a t] |].
  - destruct Hth as [[[Hcc Htd Hls Hap] Hq] Hpg]. split; [| done]. constructor; [| done]. constructor; try done.
    + apply user_write_ok; [exact Hcc |]. eapply user_word_mono; [intros j _; apply cached_sub | reflexivity | exact Hw].
    + intros i Hi. destruct (Hls i Hi) as (Hseg & Hr). split; [| done]. eapply seg_frame; [| exact Hseg]. intros x Hx. apply lookup_insert_ne.
      eapply (user_not_other (H1 := reserve_laws P) _ G (cached Hd C) V Hd V i x w Hcc); try done.
      * intros j _. apply cached_sub.
      * left. by apply cached_in.
      * by apply Hap.
  - split; [apply user_write_ok; [apply Hth | exact Hw] | apply Hth].
Qed.

Lemma store_refined live hp P G Cs Hd V Vs k th w v :
  sys_inv hp P G Cs Hd (V ∪ Vs) -> V ##ₘ Vs -> live_rep live Hd V -> hp_threads hp !! k = Some th -> call_ok live (DoStore w v) ->
  refined Vs live hp (DoStore w v) 0 (after hp k th (client_store (hp_process hp) w v)).
Proof.
  intros [Hlen Hth Hnone Hown] Hdis Hl Hk (p & len & Hp & Hw1 & Hw2). unfold after. rewrite list_insert_id by done.
  assert (Hu : user_word Hd V w) by (rewrite <- (allocated_user live) by done; exists p, len; split; [done | lia]).
  split; [done |]. split; [done |]. exists live. split; [by constructor |]. split.
  - exists P, G, Cs, Hd, V. split; [| done]. constructor; try done. cbn. intros i th1 C1 Hl1 HC1. apply store_inv; [by apply Hth |].
    eapply user_word_mono; [intros j _; apply rest_sub | apply map_union_subseteq_l | exact Hu].
  - intros x _ _ Hne. cbn. apply lookup_insert_ne. intros ->. by apply (Hne v).
Qed.

(** *** Every call of every thread *)

Lemma heap_exec_ok Vs live hp k c :
  heap_rel Vs live hp -> (k < length (hp_threads hp))%nat -> call_ok live c ->
  exists r hp', heap_exec k c hp = Ok (r, hp') /\ refined Vs live hp c r hp'.
Proof.
  intros (P & G & Cs & Hd & V & Hsys & Hdis & Hl) Hk Hc. destruct (lookup_lt_is_Some_2 _ _ Hk) as [th Hth].
  destruct (lookup_lt_is_Some_2 Cs k) as [C HC]; [by rewrite (si_length _ _ _ _ _ _ Hsys) |].
  pose proof (call_inv hp P G Cs Hd V Vs k th C Hsys Hth HC) as Hi.
  assert (Hquiet : forall th' pr', quiet c -> free_post (am_next P th) (hp_process hp) (rest Hd Cs k) (V ∪ Vs) th' pr' ->
            refined Vs live hp c 0 (after hp k th' pr')).
  { intros th' pr' Hq Hpost. apply (quiet_refined live hp P G Cs Hd V Vs k th C Hsys Hdis Hl Hth HC c th' pr'); [by constructor | exact Hpost]. }
  unfold heap_exec. rewrite Hth. destruct c as [size | p | | | | | | w v]; cbn [thread_exec].
  - destruct (malloc_refined live hp P G Cs Hd V Vs k th C Hsys Hdis Hl Hth HC size Hc) as (r & th' & pr' & -> & Hr).
    rewrite bind_Ok_l. by eexists _, _.
  - destruct (free_refined live hp P G Cs Hd V Vs k th C Hsys Hdis Hl Hth HC p Hc) as (th' & pr' & -> & Hr).
    rewrite !bind_Ok_l. by eexists _, _.
  - destruct (am_thread_cache_trim_ok P th _ G C _ (V ∪ Vs) Hi) as (th' & pr' & -> & Hpost). rewrite !bind_Ok_l. eexists _, _. split; [done |]. by apply Hquiet.
  - destruct (am_thread_cache_purge_ok P th _ G C _ (V ∪ Vs) Hi) as (th' & pr' & -> & Hpost & _). rewrite !bind_Ok_l. eexists _, _. split; [done |]. by apply Hquiet.
  - rewrite bind_Ok_l. eexists _, _. split; [done |]. apply Hquiet; [done |]. split; [apply undisturbed_refl |]. apply next_same; [done |].
    exists G, C. by apply request_ok.
  - destruct (am_request_thread_cache_purge_ok P th _ G C _ (V ∪ Vs) Hi) as (pr' & -> & Hu & Hn). rewrite !bind_Ok_l. eexists _, _. split; [done |].
    apply Hquiet; [done |]. split; [exact Hu | by apply next_same].
  - destruct (ThreadCacheCleaner_destroy_ok P th _ G C _ (V ∪ Vs) Hi) as (pr' & -> & Hpost). rewrite !bind_Ok_l. eexists _, _. split; [done |]. by apply Hquiet.
  - rewrite bind_Ok_l. eexists _, _. split; [done |]. by eapply store_refined.
Qed.

(** *** Live blocks never overlap *)
Definition disjoint_blocks live : Prop := forall p q l m, live !! p = Some l -> live !! q = Some m -> p <> q -> p + l <= q \/ q + m <= p.

Lemma heap_disjoint Vs live hp k : heap_rel Vs live hp -> (k < length (hp_threads hp))%nat ->
  disjoint_blocks live /\ forall p len, live !! p = Some len -> 0 < len /\ p <> 0.
Proof.
  intros (P & G & Cs & Hd & V & Hsys & Hdis & Hl) Hk. destruct (lookup_lt_is_Some_2 _ _ Hk) as [th Hth].
  destruct (lookup_lt_is_Some_2 Cs k) as [C HC]; [by rewrite (si_length _ _ _ _ _ _ Hsys) |].
  destruct (call_central hp P G Cs Hd V Vs k th C Hsys Hth HC) as (Hd0 & Hcc & Hsub).
  pose proof (clients_sub V Vs) as HV.
  assert (Hpos : forall p len, live !! p = Some len -> 0 < len /\ p <> 0) by (intros p len; exact (live_pos P _ G Hd0 Hd (V ∪ Vs) V live Hcc Hsub HV Hl p len)).
  split; [| exact Hpos]. intros p q l m Hp Hq Hne. destruct (Hpos p l Hp) as [? _]. destruct (Hpos q m Hq) as [? _].
  apply Hl in Hp as [t Ht]. apply Hl in Hq as [u Hu].
  destruct (Z.le_gt_cases (p + l) q); [by left |]. destruct (Z.le_gt_cases (q + m) p); [by right |]. exfalso.
  destruct (blocks_apart P _ G Hd0 Hd (V ∪ Vs) t u p q l m (Z.max p q) Hcc Hsub) as (_ & ? & _);
    [by apply (is_block_mono Hd V) | by apply (is_block_mono Hd V) | lia | lia | done].
Qed.

End Invariant.
