(* ===== verification/AmmallocSpec.v ===== *)
(** * What the public interface promises

    The contracts of one thread's calls and the refinement of the abstract
    allocator by any number of threads, with concrete runs. *)
From S2P Require Import Prelude Config SizeClass FreeList Common Span SpanList Backing PageMap PageCache PageCacheInv.
From S2P Require Import CentralCache CentralInv CentralSteps CentralRelease CentralFetch CentralInit CentralSpec ThreadCache.
From S2P Require Import ThreadCacheInv ThreadCacheTrim ThreadCacheFree ThreadCacheSpec Ammalloc AmmallocInv AmmallocSteps AmmallocThreads.
Open Scope Z_scope.

Section Spec.
Context {W : Type} `{BackingLaws W} `{StaticLayout} `{CentralLayout}.
Implicit Types (g : Globals W) (th : Thread) (pr : Process W) (hp : Heap W) (live : gmap Z Z).
Implicit Types (G : ghost) (V : runs) (Hd : held) (C : Z -> list Z) (P : gset Z).

(** ** One thread's calls *)

(** C13: [am_malloc] gives fresh memory of the size asked for.  From every state of
    the invariant and for every request it returns, in every build, with the
    invariant of a state in which the client owns either what it owned (null
    was returned) or one block more: of at least [size] bytes, none of which
    belonged to a client or to another thread's cache.  Nothing the clients own
    is written, and the pages of other threads' caches stay theirs. *)
Theorem am_malloc_spec P th pr G C Hd V size :
  am_inv P th pr G C Hd V -> 0 <= size < W64 ->
  exists p th' pr', am_malloc th pr size = Ok (p, th', pr') /\ malloc_post (am_next P th) pr Hd V size p th' pr'.
Proof. apply am_malloc_ok. Qed.

(** C14: [am_free] takes back any block a client owns, small or large, on whatever
    thread it is called and whether or not that thread has a cache: no check
    fails, the invariant holds without the block, and nothing else the clients
    own is written. *)
Theorem am_free_spec P th pr G C Hd V p Hd' V' :
  am_inv P th pr G C Hd V -> lost Hd V p Hd' V' ->
  exists th' pr', am_free th pr p = Ok (th', pr') /\ free_post (am_next P th) pr Hd' V' th' pr'.
Proof. apply am_free_ok. Qed.

Lemma gained_lost Hd V p len Hd' V' : gained Hd V p len Hd' V' ->
  exists Hd2 V2, lost Hd' V' p Hd2 V2 /\ V2 = V /\ forall j, Hd2 j = Hd j.
Proof.
  intros Hg. destruct Hg as [idx p Hidx Hp | a st n Hv].
  - exists (take_back (give Hd idx {[p]}) idx {[p]}), V. split; [constructor; [done |]; unfold give; rewrite upd_fun_eq; set_solver |].
    split; [done |]. intros j. apply give_take_back. by intros x ->%elem_of_singleton.
  - exists Hd, (delete a (<[a := (st, n)]> V)). split; [apply (lost_large _ _ a st n), lookup_insert_eq |].
    by rewrite delete_insert_id.
Qed.

(** C15: malloc and free cancel out: what [am_malloc] returned can be freed at
    once, by this thread, and the clients then own exactly what they owned
    before, unwritten throughout. *)
Theorem malloc_free_roundtrip P th pr G C Hd V size :
  am_inv P th pr G C Hd V -> 0 <= size < W64 ->
  exists p th1 pr1 th2 pr2, am_malloc th pr size = Ok (p, th1, pr1) /\ am_free th1 pr1 p = Ok (th2, pr2) /\
    am_und Hd V pr pr2 /\ am_ok th2 pr2 Hd V.
Proof.
  intros Hi Hs. destruct (am_malloc_ok P th pr G C Hd V size Hi Hs) as (p & th1 & pr1 & Heq & [Hu Hok]).
  destruct Hok as [[-> (P1 & G1 & C1 & _ & _ & Hi1)] | (Hp & len & Hd1 & V1 & Hg & _ & (P1 & G1 & C1 & _ & _ & Hi1) & _)].
  { exists 0, th1, pr1, th1, pr1. split; [done |]. split; [done |]. split; [done |]. by exists P1, G1, C1. }
  destruct (gained_lost _ _ _ _ _ _ Hg) as (Hd2 & V2 & Hl & -> & Hback).
  destruct (am_free_ok P1 th1 pr1 G1 C1 Hd1 V1 p Hd2 V Hi1 Hl) as (th2 & pr2 & Hfree & [Hu2 (P2 & G2 & C2 & _ & _ & Hi2)]).
  exists p, th1, pr1, th2, pr2. split; [done |]. split; [done |]. split.
  - eapply undisturbed_trans; [exact Hu |]. eapply undisturbed_mono; [| reflexivity | exact Hu2]. intros j _. by rewrite Hback.
  - exists P2, G2, C2. eapply am_inv_held; [| exact Hi2]. intros j _. apply Hback.
Qed.

Lemma thread_bytes_nonneg P th pr G C Hd V : am_inv P th pr G C Hd V -> 0 <= thread_bytes th.
Proof.
  intros [Hth _]. unfold thread_bytes. destruct (ptls th) as [[a t] |]; [| done]. destruct Hth as [[_ Hq] _].
  rewrite (CachedBytesSnapshot_ok t calm Hq) by done. by apply (cached_bound t calm Hq).
Qed.

(** C21: a purge leaves nothing behind: it returns, the calling thread caches no
    bytes, every transfer cache is empty, the clients' memory is untouched and
    the invariant holds; the thread keeps its cache, and no thread gets one. *)
Theorem am_thread_cache_purge_spec P th pr G C Hd V :
  am_inv P th pr G C Hd V ->
  exists th' pr', am_thread_cache_purge th pr = Ok (th', pr') /\ free_post (am_next P th) pr Hd V th' pr' /\
    arrays_empty pr' /\ thread_bytes th' = 0 /\ (ptls th' = None <-> ptls th = None).
Proof.
  intros Hi. destruct (am_thread_cache_purge_ok P th pr G C Hd V Hi) as (th' & pr' & Heq & Hpost & Ha & Hb).
  exists th', pr'. split; [done |]. split; [done |]. split; [done |]. split.
  { destruct Hpost as [_ (P' & G' & C' & _ & _ & Hi')]. pose proof (thread_bytes_nonneg _ _ _ _ _ _ _ Hi'). lia. }
  unfold am_thread_cache_purge in Heq. destruct (ptls th) as [[a t] |] eqn:Hth.
  - destruct (Trim t (am_globals pr) kRelease 0) as [[t2 g2] | | |]; [| discriminate ..]. rewrite !bind_Ok_l in Heq. cbn iota beta in Heq.
    destruct (drain_central g2 SIZE_MAX) as [g3 | | |]; [| discriminate ..]. by injection Heq as <- _.
  - rewrite bind_Ok_l in Heq. cbn iota beta in Heq.
    destruct (drain_central (am_globals pr) SIZE_MAX) as [g3 | | |]; [| discriminate ..]. injection Heq as <- _. by rewrite Hth.
Qed.

(** C16: a thread that exits gives everything back: its cleaner returns and leaves
    a state in which nobody but the clients holds an object, and the pages that
    belong to thread caches are those of before less exactly the page of this
    one's ([P ∖ own th]: the page allocator counts the page among the free ones
    again); the clients' memory is untouched; and no cache is created
    afterwards: later requests of at most 32 KiB get null, while blocks can still
    be freed. *)
Theorem thread_exit_spec P th pr G C Hd V :
  am_inv P th pr G C Hd V ->
  exists pr', ThreadCacheCleaner_destroy th pr = Ok (mkThread None true, pr') /\
    am_und Hd V pr pr' /\
    (exists G' C', am_inv (P ∖ own th) (mkThread None true) pr' G' C' Hd V) /\
    (forall size, 0 <= size <= MAX_TC_SIZE -> exists pr2, am_malloc (mkThread None true) pr' size = Ok (0, mkThread None true, pr2)) /\
    forall p Hd' V', lost Hd V p Hd' V' -> exists th2 pr2, am_free (mkThread None true) pr' p = Ok (th2, pr2).
Proof.
  intros Hi. destruct (ThreadCacheCleaner_destroy_exact P th pr G C Hd V Hi) as (pr' & Heq & [Hu (G' & C' & Hi')]).
  exists pr'. split; [done |]. split; [done |]. split; [by exists G', C' |]. split.
  - intros size Hs. unfold am_malloc, am_malloc_slow_path. cbn. rewrite (proj2 (Z.ltb_ge _ _)) by lia. by eexists.
  - intros p Hd' V' Hl. destruct (am_free_ok (P ∖ own th) _ pr' G' C' Hd V p Hd' V' Hi' Hl) as (th2 & pr2 & Hf & _). by exists th2, pr2.
Qed.

(** Requests near the top of the address space fail cleanly: [am_malloc]
    returns null for more than [SIZE_MAX - PAGE_SIZE + 1] bytes, without rounding
    them up (which would wrap), leaving all caches as they are. *)
Theorem am_malloc_huge th pr size : kMaxRequestBytes < size ->
  exists pr', am_malloc th pr size = Ok (0, th, pr') /\ am_globals pr' = am_globals pr /\ am_config pr' = am_config pr.
Proof.
  intros Hs. exists (EnsureScavengerStarted pr). assert (Hbig : MAX_TC_SIZE < size).
  { assert (MAX_TC_SIZE < kMaxRequestBytes) by (by vm_compute). lia. }
  split; [| unfold EnsureScavengerStarted; by destruct (enable_scavenger_ _)].
  unfold am_malloc, am_malloc_slow_path. rewrite (proj2 (Z.ltb_lt _ _) Hbig), (proj2 (Z.ltb_lt _ _) Hs). by destruct (ptls th) as [[a t] |].
Qed.

(** C17: what [am_free] does with pointers that are not its caller's.  In every
    build null and addresses the page map does not know are ignored.  With the
    checks of a hardened or debug build, a pointer whose page is mapped to a
    descriptor is rejected with the first violated condition: the span is
    released; the pointer lies outside the span's pages; the descriptor's class
    does not fit its object size; the pointer is inside a large block but not
    its start; or, on a thread that has a cache (without one the pointer goes on
    to the central cache unexamined), it is not the start of a slot of a span of
    small objects. *)
Theorem am_free_foreign th pr p :
  (p = 0 \/ GetSpanOfPtr (pc_map (pages_of (am_globals pr))) p = Ok 0 -> am_free th pr p = Ok (th, pr)) /\
  forall a d, am_hardened || debug_build = true -> p <> 0 -> a <> 0 ->
    GetSpanOfPtr (pc_map (pages_of (am_globals pr))) p = Ok a -> get_span (pc_spans (pages_of (am_globals pr))) a = Ok d ->
    let page := Z.shiftr p PAGE_SHIFT in
    let inside := start_page_idx d <= page /\ u64 (page - start_page_idx d) < page_num d in
    let sound := aligned_obj_size d = 0 \/ size_class_idx d < kNumSizeClasses /\ Size (size_class_idx d) = aligned_obj_size d in
    (IsUsed d = false -> am_free th pr p = Abort "Pointer belongs to a released Span.") /\
    (IsUsed d = true -> ~ inside -> am_free th pr p = Abort "Pointer lies outside the mapped Span.") /\
    (IsUsed d = true -> inside -> ~ sound -> am_free th pr p = Abort "Corrupted Span size-class metadata.") /\
    (IsUsed d = true -> inside -> aligned_obj_size d = 0 -> p <> GetPageBaseAddr d ->
      am_free th pr p = Abort "Invalid large-object pointer.") /\
    (IsUsed d = true -> inside -> sound -> aligned_obj_size d <> 0 -> ptls th <> None -> ObjectSlotOf d p = SIZE_MAX ->
      am_free th pr p = Abort "Invalid small-object pointer.").
Proof.
  split.
  { unfold am_free. intros [-> | E]; [done |]. destruct (p =? 0); [done |]. by rewrite E, bind_Ok_l. }
  intros a d Hb Hp Ha Hlk Hget page inside sound.
  assert (Hfail : forall msg, AM_HCHECK false msg = Abort msg) by (intros msg; unfold AM_HCHECK; by rewrite Hb).
  assert (Hin : (start_page_idx d <=? page) && (u64 (page - start_page_idx d) <? page_num d) = bool_decide inside).
  { apply Bool.eq_iff_eq_true. rewrite andb_true_iff, Z.leb_le, Z.ltb_lt. by rewrite bool_decide_eq_true. }
  assert (Hso : (aligned_obj_size d =? 0) || ((size_class_idx d <? kNumSizeClasses) && (Size (size_class_idx d) =? aligned_obj_size d)) =
      bool_decide sound).
  { apply Bool.eq_iff_eq_true. rewrite orb_true_iff, andb_true_iff, !Z.eqb_eq, Z.ltb_lt. by rewrite bool_decide_eq_true. }
  unfold am_free. rewrite (proj2 (Z.eqb_neq p 0)), Hlk, bind_Ok_l, (proj2 (Z.eqb_neq a 0)), Hget, bind_Ok_l by done.
  fold page. rewrite Hin, Hso. split_and!.
  - intros Hus. by rewrite Hus, Hfail.
  - intros Hus Hni. by rewrite Hus, AM_HCHECK_true, bind_Ok_l, (bool_decide_eq_false_2 inside), Hfail.
  - intros Hus Hi Hns. by rewrite Hus, (bool_decide_eq_true_2 inside), !AM_HCHECK_true, !bind_Ok_l, (bool_decide_eq_false_2 sound), Hfail.
  - intros Hus Hi Hal Hne. rewrite Hus, (bool_decide_eq_true_2 inside), (bool_decide_eq_true_2 sound), !AM_HCHECK_true, !bind_Ok_l by (done || by left).
    unfold am_free_slow_path. rewrite Hal, Z.eqb_refl, Hget, bind_Ok_l, (proj2 (Z.eqb_neq p _)), Hfail by done. by destruct (ptls th) as [[? ?] |].
  - intros Hus Hi Hs Hal Htc Hslot. rewrite Hus, (bool_decide_eq_true_2 inside), (bool_decide_eq_true_2 sound), !AM_HCHECK_true, !bind_Ok_l by done.
    destruct (ptls th) as [[b t] |]; [| done]. by rewrite (proj2 (Z.eqb_neq _ 0)), Hslot, Z.eqb_refl, Hfail.
Qed.

(** ** Any number of threads *)

(** The system refines the abstract allocator.  In every state related to a
    map of live blocks, whatever runs [Vs] the scavenger holds, every call a client may make, on any of the threads,
    returns; its effect on the live blocks is a step of the abstract allocator
    (a new block is nonempty, at least as long as asked, and overlaps no live
    block; the freed block is gone; nothing else changes them), the new state is
    related to the new map, and every word of the blocks that were and stay live
    keeps its value, but for the client's own store. *)
Theorem heap_refines Vs live hp k c :
  heap_rel Vs live hp -> (k < length (hp_threads hp))%nat -> call_ok live c ->
  exists r hp', heap_exec k c hp = Ok (r, hp') /\ refined Vs live hp c r hp'.
Proof. apply heap_exec_ok. Qed.

(** Live blocks never overlap, and none is empty or at null. *)
Theorem heap_blocks_disjoint Vs live hp k : heap_rel Vs live hp -> (k < length (hp_threads hp))%nat ->
  disjoint_blocks live /\ forall p len, live !! p = Some len -> 0 < len /\ p <> 0.
Proof. apply heap_disjoint. Qed.

(** A fresh process is related to the empty map, however many threads start. *)
Definition heap_new (n : nat) g (cfg : RuntimeConfig) : Heap W := mkHeap (replicate n Thread_new) (mkProcess g cfg false).

Lemma thread_new_inv g cfg G Hd : cc_inv (gl_central g) G Hd ∅ -> tidy G -> am_inv ∅ Thread_new (mkProcess g cfg false) G (fun _ => []) Hd ∅.
Proof. intros Hi Ht. constructor; [split; [by apply cc_inv_reserve_none | done] |]. intros v st n Hv. by rewrite lookup_empty in Hv. Qed.

Lemma rest_none n k j : rest none_held (replicate n (fun _ => [])) k j = ∅.
Proof.
  apply set_eq. intros x. rewrite elem_of_rest. unfold none_held. split; [| set_solver].
  intros [? | (i & C & _ & HC & Hx)]; [done |]. apply lookup_replicate in HC as [-> _]. by apply not_elem_of_nil in Hx.
Qed.

Lemma heap_new_rel n g cfg G : cc_inv (gl_central g) G none_held ∅ -> tidy G -> heap_rel ∅ ∅ (heap_new n g cfg).
Proof.
  intros Hi Ht. exists ∅, G, (replicate n (fun _ => [])), none_held, ∅. rewrite map_union_empty. split; [| split].
  - constructor; cbn.
    + by rewrite !length_replicate.
    + intros k th C [-> _]%lookup_replicate [-> _]%lookup_replicate. eapply (am_inv_held _ _ _ _ _ none_held); [| by apply thread_new_inv].
      intros j _. by rewrite rest_none.
    + intros k th C _ [-> _]%lookup_replicate. done.
    + intros i k th1 th2 _ [-> _]%lookup_replicate [-> _]%lookup_replicate. unfold own. cbn. set_solver.
  - apply map_disjoint_empty_r.
  - intros p len. rewrite lookup_empty. split; [done |]. intros [t Hb]. inversion Hb as [i x Hi' Hx | a st m Hv]; subst.
    + unfold none_held in Hx. set_solver.
    + by rewrite lookup_empty in Hv.
Qed.

End Spec.

(** ** Concrete runs *)
Section Sample.
#[local] Existing Instance release_build.
#[local] Existing Instance bump_backing.
#[local] Existing Instance bump_laws.
#[local] Existing Instance sample_layout.
#[local] Existing Instance sample_central_layout.

Definition sample_process : Process Z := mkProcess sample_globals RuntimeConfig_default false.

Lemma sample_am_inv : exists G, am_inv (H1 := bump_laws) ∅ Thread_new sample_process G (fun _ => []) none_held ∅.
Proof. destruct sample_thread_inv as (G & Hcc & Htd & _). exists G. by apply thread_new_inv. Qed.

(** A small block, a large one, their release by the same thread, a purge:
    whether the blocks are there, and the bytes cached before and after. *)
Definition sample_am_run : outcome (bool * bool * Z * Z) :=
  '(p1, th, pr) ← am_malloc Thread_new sample_process 40;
  '(p2, th, pr) ← am_malloc th pr 100000;
  '(th, pr) ← am_free th pr p1;
  '(th, pr) ← am_free th pr p2;
  let b1 := thread_bytes th in
  '(th, pr) ← am_thread_cache_purge th pr;
  Ok (negb (p1 =? 0), negb (p2 =? 0), b1, thread_bytes th).

Lemma am_malloc_spec_witness :
  (exists p th' pr', am_malloc Thread_new sample_process 40 = Ok (p, th', pr') /\
    malloc_post (am_next (H1 := bump_laws) ∅ Thread_new) sample_process none_held ∅ 40 p th' pr') /\
  sample_am_run = Ok (true, true, 48, 0).
Proof.
  split; [| by vm_compute]. destruct sample_am_inv as [G Hi].
  apply (am_malloc_spec (H1 := bump_laws) ∅ _ _ G _ _ _ 40 Hi). done.
Defined.

(** One block of [size] bytes is out. *)
Lemma sample_block size : 0 <= size < W64 ->
  match am_malloc Thread_new sample_process size with Ok (p, _, _) => p =? 0 | _ => true end = false ->
  exists p len th pr P G C Hd V, am_malloc Thread_new sample_process size = Ok (p, th, pr) /\
    gained none_held ∅ p len Hd V /\ am_inv (H1 := bump_laws) P th pr G C Hd V.
Proof.
  intros Hs Hnz. destruct sample_am_inv as [G Hi].
  destruct (am_malloc_ok (H1 := bump_laws) ∅ _ _ G _ _ _ size Hi Hs) as (p & th & pr & Heq & [_ Hok]).
  rewrite Heq in Hnz. destruct Hok as [[-> _] | (_ & len & Hd & V & Hg & _ & (P & G' & C & _ & _ & Hi') & _)]; [done |].
  by exists p, len, th, pr, P, G', C, Hd, V.
Qed.

Lemma am_free_spec_witness :
  exists p th pr P Hd' V', am_malloc Thread_new sample_process 100000 = Ok (p, th, pr) /\
  exists th' pr', am_free th pr p = Ok (th', pr') /\ free_post (am_next (H1 := bump_laws) P th) pr Hd' V' th' pr'.
Proof.
  destruct (sample_block 100000) as (p & len & th & pr & P & G & C & Hd & V & Heq & Hg & Hi); [done | by vm_compute |].
  destruct (gained_lost _ _ _ _ _ _ Hg) as (Hd2 & V2 & Hl & _ & _). exists p, th, pr, P, Hd2, V2. split; [exact Heq |].
  apply (am_free_spec (H1 := bump_laws) P th pr G C Hd V p Hd2 V2 Hi Hl).
Defined.

Lemma malloc_free_roundtrip_witness :
  exists p th1 pr1 th2 pr2, am_malloc Thread_new sample_process 40 = Ok (p, th1, pr1) /\ am_free th1 pr1 p = Ok (th2, pr2) /\
    am_und none_held ∅ sample_process pr2 /\ am_ok (H1 := bump_laws) th2 pr2 none_held ∅.
Proof.
  destruct sample_am_inv as [G Hi]. apply (malloc_free_roundtrip (H1 := bump_laws) ∅ _ _ G _ _ _ 40 Hi). done.
Defined.

Lemma am_thread_cache_purge_spec_witness :
  exists p th pr P Hd V, am_malloc Thread_new sample_process 40 = Ok (p, th, pr) /\
  exists th' pr', am_thread_cache_purge th pr = Ok (th', pr') /\ free_post (am_next (H1 := bump_laws) P th) pr Hd V th' pr' /\
    arrays_empty pr' /\ thread_bytes th' = 0 /\ (ptls th' = None <-> ptls th = None).
Proof.
  destruct (sample_block 40) as (p & len & th & pr & P & G & C & Hd & V & Heq & _ & Hi); [done | by vm_compute |].
  exists p, th, pr, P, Hd, V. split; [exact Heq |]. apply (am_thread_cache_purge_spec (H1 := bump_laws) P th pr G C Hd V Hi).
Defined.

Lemma thread_exit_spec_witness :
  exists p th pr P Hd V, am_malloc Thread_new sample_process 40 = Ok (p, th, pr) /\
  exists pr', ThreadCacheCleaner_destroy th pr = Ok (mkThread None true, pr') /\ am_und Hd V pr pr' /\
    (exists G' C', am_inv (H1 := bump_laws) (P ∖ own th) (mkThread None true) pr' G' C' Hd V) /\
    (forall size, 0 <= size <= MAX_TC_SIZE -> exists pr2, am_malloc (mkThread None true) pr' size = Ok (0, mkThread None true, pr2)) /\
    forall p Hd' V', lost Hd V p Hd' V' -> exists th2 pr2, am_free (mkThread None true) pr' p = Ok (th2, pr2).
Proof.
  destruct (sample_block 40) as (p & len & th & pr & P & G & C & Hd & V & Heq & _ & Hi); [done | by vm_compute |].
  exists p, th, pr, P, Hd, V. split; [exact Heq |]. apply (thread_exit_spec (H1 := bump_laws) P th pr G C Hd V Hi).
Defined.

Lemma am_malloc_huge_witness :
  exists pr', am_malloc Thread_new sample_process SIZE_MAX = Ok (0, Thread_new, pr') /\
    am_globals pr' = am_globals sample_process /\ am_config pr' = am_config sample_process.
Proof. apply am_malloc_huge. by vm_compute. Defined.

(** *** Two threads *)
Definition sample_heap : Heap Z := heap_new 2 sample_globals RuntimeConfig_default.

Lemma sample_heap_rel : heap_rel (H1 := bump_laws) ∅ ∅ sample_heap.
Proof. destruct sample_thread_inv as (G & Hcc & Htd & _). by apply (heap_new_rel (H1 := bump_laws) 2 _ _ G). Qed.

(** Thread 0 allocates, thread 1 frees and allocates the same size: whether there
    was a block, and the bytes each thread caches in the end. *)
Definition sample_heap_run : outcome (bool * list Z) :=
  '(p, hp) ← heap_exec 0 (DoMalloc 40) sample_heap;
  '(_, hp) ← heap_exec 1 (DoFree p) hp;
  Ok (negb (p =? 0), map thread_bytes (hp_threads hp)).

Lemma heap_refines_witness :
  (exists r hp', heap_exec 1 (DoMalloc 40) sample_heap = Ok (r, hp') /\ refined (H1 := bump_laws) ∅ ∅ sample_heap (DoMalloc 40) r hp') /\
  sample_heap_run = Ok (true, [0; 48]).
Proof. split; [| by vm_compute]. apply (heap_refines (H1 := bump_laws) ∅ ∅ sample_heap 1 (DoMalloc 40) sample_heap_rel); [cbn; lia | done]. Defined.

Lemma heap_blocks_disjoint_witness : exists live hp, heap_exec 1 (DoMalloc 40) sample_heap = Ok (live.1, hp) /\
  disjoint_blocks live.2 /\ forall p len, live.2 !! p = Some len -> 0 < len /\ p <> 0.
Proof.
  destruct (heap_exec_ok (H1 := bump_laws) ∅ ∅ sample_heap 1 (DoMalloc 40) sample_heap_rel) as (r & hp & Heq & Hlen & _ & live & _ & Hrel & _); [cbn; lia | done |].
  exists (r, live), hp. split; [exact Heq |]. apply (heap_blocks_disjoint (H1 := bump_laws) ∅ live hp 0 Hrel). rewrite Hlen. cbn. lia.
Defined.

End Sample.

(** *** A hardened build *)
Section Hardened.
#[local] Existing Instance hardened_build.
#[local] Existing Instance bump_backing.
#[local] Existing Instance sample_layout.
#[local] Existing Instance sample_central_layout.

(** A block of 25 pages, its descriptor, and an address inside it. *)
Definition hard_run : Z * Thread * Process Z :=
  got (am_malloc Thread_new sample_process 100000) (0, Thread_new, sample_process).
Definition hard_span : Z := got (GetSpanOfPtr (pc_map (pages_of (am_globals hard_run.2))) (hard_run.1.1 + 4096)) 0.
Definition hard_desc : Span := got (get_span (pc_spans (pages_of (am_globals hard_run.2))) hard_span) (Span_new 0 0).

Lemma am_free_foreign_witness :
  am_free Thread_new hard_run.2 12345 = Ok (Thread_new, hard_run.2) /\
  am_free Thread_new hard_run.2 (hard_run.1.1 + 4096) = Abort "Invalid large-object pointer.".
Proof.
  split.
  - apply (am_free_foreign Thread_new hard_run.2 12345). right. by vm_compute.
  - refine (proj1 (proj2 (proj2 (proj2 (proj2 (am_free_foreign Thread_new hard_run.2 (hard_run.1.1 + 4096)) hard_span hard_desc _ _ _ _ _)))) _ _ _ _);
      by vm_compute.
Defined.
End Hardened.
