(* ===== verification/TrimProtocol.v ===== *)
(** * The cooperative trim request

    A published request at the safepoints of a thread: the allocation that finds
    its list empty, the free that overflows its list, and the explicit trim. *)
From S2P Require Import Prelude Config SizeClass FreeList Common Span SpanList Backing PageMap PageCache PageCacheInv.
From S2P Require Import CentralCache CentralInv CentralSteps CentralRelease CentralFetch CentralDrain CentralInit CentralSpec ThreadCache.
From S2P Require Import ThreadCacheInv ThreadCacheSteps ThreadCacheTrim ThreadCacheAlloc ThreadCacheFree ThreadCacheSpec.
From S2P Require Import Ammalloc AmmallocInv AmmallocSteps AmmallocSpec.
Open Scope Z_scope.

Section Protocol.
Context {W : Type} `{BackingLaws W} `{StaticLayout} `{CentralLayout}.
Implicit Types (s : CentralCache W) (g : Globals W) (t : ThreadCache) (th : Thread) (pr : Process W).
Implicit Types (G : ghost) (V : runs) (Hd : held) (C : Z -> list Z) (P : gset Z).

(** ** What the counters say *)

(** [n] runs of [Trim] were counted between [g] and [g']. *)
Definition trims (n : nat) g g' : Prop := gl_stats g' trim_count = Nat.iter n (fun c => u64 (c + 1)) (gl_stats g trim_count).

(** [n] trims, the same requests seen and the same request word. *)
Record quiet (n : nat) t g t' g' : Prop := {
  qt_epoch : observed_trim_epoch t' = observed_trim_epoch t;
  qt_request : gl_trim_request g' = gl_trim_request g;
  qt_trims : trims n g g';
}.

Lemma quiet_refl t g : quiet 0 t g t g.
Proof. by constructor. Qed.
Lemma quiet_trans n m t1 g1 t2 g2 t3 g3 : quiet n t1 g1 t2 g2 -> quiet m t2 g2 t3 g3 -> quiet (m + n) t1 g1 t3 g3.
Proof.
  intros [E1 R1 T1] [E2 R2 T2]. constructor; [congruence | congruence |]. unfold trims in *. by rewrite Nat.iter_add, <- T1.
Qed.
Lemma quiet_trans0 n t1 g1 t2 g2 t3 g3 : quiet n t1 g1 t2 g2 -> quiet 0 t2 g2 t3 g3 -> quiet n t1 g1 t3 g3.
Proof. apply (quiet_trans n 0). Qed.
Lemma quiet_step t1 g1 t2 g2 n t3 g3 : quiet 0 t1 g1 t2 g2 -> quiet n t2 g2 t3 g3 -> quiet n t1 g1 t3 g3.
Proof. intros Q1 Q2. rewrite <- (Nat.add_0_r n). by eapply quiet_trans. Qed.

Lemma quiet_stats t g c n : c <> trim_count -> quiet 0 t g t (tc_add c n g).
Proof. intros Hc. constructor; [done | done |]. unfold trims. cbn. by rewrite decide_False. Qed.
Lemma quiet_central t g s : quiet 0 t g t (with_central g s).
Proof. by constructor. Qed.

Lemma SetQuota_quiet t g i n t' g' : SetQuota t g i n = Ok (t', g') -> quiet 0 t g t' g'.
Proof.
  unfold SetQuota. case_cmp; [intros E; inv_ok; apply quiet_refl |].
  case_cmp; intros E; inv_ok; (eapply (quiet_trans0 0); [by apply (quiet_stats t g stat_reserved_quota_bytes) | by constructor]).
Qed.

Lemma trim_class_quiet t g mode target i c t' g' c' : trim_class t g mode target i c = Ok (t', g', c') -> quiet 0 t g t' g'.
Proof.
  unfold trim_class. intros E. inv_ok. destruct x0 as [[t1 g1] c1]. inv_ok. destruct x0 as [t2 g2]. inv_ok.
  apply (quiet_step t g t1 g1).
  - revert Hx0. unfold trim_evict. case_cmp; intros E; inv_ok; [| apply quiet_refl]. destruct x0 as [[b l] m]. inv_ok.
    by eapply (quiet_trans0 0); [by apply (quiet_stats t g trimmed_bytes (u64 (ob_count b * Size i))) | by constructor].
  - revert Hx1. unfold trim_quota. destruct mode; [case_cmp; [| intros E; inv_ok; apply quiet_refl] |];
      intros E; inv_ok; destruct x0 as [t3 g3]; inv_ok; (eapply (quiet_trans0 0); [by eapply SetQuota_quiet | by constructor]).
Qed.

Lemma trim_classes_quiet n mode target : forall t g c t' g', trim_classes n t g mode target c = Ok (t', g') -> quiet 0 t g t' g'.
Proof.
  induction n as [| n IH]; cbn; intros t g c t' g' E; [inv_ok; apply quiet_refl |].
  apply bind_Ok_inv in E as ([[t1 g1] c1] & E1 & E2). eapply quiet_step; [by eapply trim_class_quiet | by eapply IH].
Qed.

Lemma Trim_quiet t g mode target t' g' : Trim t g mode target = Ok (t', g') -> quiet 1 t g t' g'.
Proof.
  unfold Trim. intros E. eapply (quiet_trans0 1); [| by eapply trim_classes_quiet].
  constructor; [done | done |]. unfold trims. cbn. by rewrite decide_False, decide_True by done.
Qed.

(** ** Handling a request *)

Lemma handle_cases t g x G C Hd V :
  tc_inv t g x G C Hd V -> (forall i, is_class i -> 0 <= x i <= 1) ->
  let epoch := Z.shiftr (gl_trim_request g) 1 in
  let mode := mode_of_bit (Z.land (gl_trim_request g) 1) in
  observed_trim_epoch t = epoch /\ HandleGlobalTrimRequest t g = Ok (t, g) \/
  observed_trim_epoch t <> epoch /\ exists t1 g1 G1 C1, Trim t g mode (TrimTargetForMode mode) = Ok (t1, g1) /\
    trim_post t g x C Hd V mode (TrimTargetForMode mode) t1 g1 G1 C1 /\
    HandleGlobalTrimRequest t g = Ok (with_epoch t1 epoch, g1) /\
    HandleGlobalTrimRequest (with_epoch t1 epoch) g1 = Ok (with_epoch t1 epoch, g1) /\
    gl_trim_request g1 = gl_trim_request g /\ trims 1 g g1.
Proof.
  intros Hi Hx epoch mode. unfold HandleGlobalTrimRequest at 1 2. fold epoch mode.
  destruct (Z.eqb_spec epoch (observed_trim_epoch t)) as [E | Hne]; [by left | right]. split; [done |].
  destruct (Trim_ok t g x G C Hd V mode (TrimTargetForMode mode) Hi Hx) as (t1 & g1 & G1 & C1 & Heq & Hp); [by destruct mode |].
  destruct (Trim_quiet _ _ _ _ _ _ Heq) as [_ Er Et]. exists t1, g1, G1, C1. rewrite Heq, bind_Ok_l.
  split; [done |]. split; [done |]. split; [done |]. split; [| done].
  unfold HandleGlobalTrimRequest. rewrite Er. cbn. fold epoch. by rewrite Z.eqb_refl.
Qed.

End Protocol.

Section Safepoints.
Context {W : Type} `{BackingLaws W} `{StaticLayout} `{CentralLayout}.
Implicit Types (s : CentralCache W) (g : Globals W) (t : ThreadCache) (th : Thread) (pr : Process W).
Implicit Types (G : ghost) (V : runs) (Hd : held) (C : Z -> list Z) (P : gset Z).

(** A safepoint of the thread whose cache is [t], at [a].  The call returns with
    the epoch seen, the request word as it was and [k] trims of its own counted,
    and one more when the epoch was new; then it is a trim of the mode asked for,
    to that mode's target, followed by the call itself with the epoch seen. *)
Definition safepoint (k : nat) (x : Z -> Z) P C Hd V (mode : ThreadCacheTrimMode)
    (call : Thread -> Process W -> outcome (Thread * Process W)) (a : Z) t (fl : bool) pr : Prop :=
  let g := am_globals pr in
  let epoch := Z.shiftr (gl_trim_request g) 1 in
  exists t' pr', call (mkThread (Some (a, t)) fl) pr = Ok (mkThread (Some (a, t')) fl, pr') /\
    observed_trim_epoch t' = epoch /\ gl_trim_request (am_globals pr') = gl_trim_request g /\
    trims (if decide (observed_trim_epoch t = epoch) then k else S k) g (am_globals pr') /\
    (observed_trim_epoch t <> epoch -> exists t1 g1 G1 C1,
      Trim t g mode (TrimTargetForMode mode) = Ok (t1, g1) /\
      trim_post (H1 := reserve_laws P) t g x C Hd V mode (TrimTargetForMode mode) t1 g1 G1 C1 /\
      call (mkThread (Some (a, t)) fl) pr = call (mkThread (Some (a, with_epoch t1 epoch)) fl) (with_globals pr g1)).

(** A call of a thread as one of its cache. *)
Definition on_cache (f : ThreadCache -> Globals W -> outcome (ThreadCache * Globals W)) th pr : outcome (Thread * Process W) :=
  match ptls th with
  | None => Ok (th, pr)
  | Some (a, t) =>
      '(t, g) ← f t (am_globals pr);
      Ok (mkThread (Some (a, t)) (g_ThreadCacheAlreadyDestructed th), with_globals pr g)
  end.

Lemma safepoint_intro k x P G C Hd V call f a t fl pr :
  let g := am_globals pr in
  tc_inv (H1 := reserve_laws P) t g x G C Hd V -> (forall i, is_class i -> 0 <= x i <= 1) ->
  (forall t g G1 C1, tc_inv (H1 := reserve_laws P) t g x G1 C1 Hd V -> same_or_shorter C C1 ->
    call (mkThread (Some (a, t)) fl) (with_globals pr g) = on_cache f (mkThread (Some (a, t)) fl) (with_globals pr g)) ->
  (forall t g t1 g1, HandleGlobalTrimRequest t g = Ok (t1, g1) -> HandleGlobalTrimRequest t1 g1 = Ok (t1, g1) -> f t g = f t1 g1) ->
  (forall t g t' g', HandleGlobalTrimRequest t g = Ok (t, g) -> f t g = Ok (t', g') -> quiet k t g t' g') ->
  (exists t' g', f t g = Ok (t', g')) ->
  safepoint k x P C Hd V (mode_of_bit (Z.land (gl_trim_request g) 1)) call a t fl pr.
Proof.
  intros g Hi Hx Hcall Hseen Hquiet (t' & g' & Hf). assert (Epr : pr = with_globals pr g) by (subst g; by destruct pr).
  assert (Hrun : forall t1 g1 G1 C1, tc_inv (H1 := reserve_laws P) t1 g1 x G1 C1 Hd V -> same_or_shorter C C1 -> f t1 g1 = Ok (t', g') ->
    call (mkThread (Some (a, t1)) fl) (with_globals pr g1) = Ok (mkThread (Some (a, t')) fl, with_globals pr g')).
  { intros t1 g1 G1 C1 Hi1 Hsh Hf1. rewrite (Hcall t1 g1 G1 C1 Hi1 Hsh). unfold on_cache. cbn [ptls am_globals with_globals]. by rewrite Hf1. }
  pose proof (Hrun t g G C Hi ltac:(intros i _; exists (length (C i)); by rewrite take_ge) Hf) as Erun. rewrite <- Epr in Erun.
  exists t', (with_globals pr g'). split; [exact Erun |]. fold g.
  destruct (handle_cases (H1 := reserve_laws P) t g x G C Hd V Hi Hx) as [[Ho Hh] | (Ho & t1 & g1 & G1 & C1 & Htr & Hp & Hh & Hagain & Hr & Ht)].
  - destruct (Hquiet _ _ _ _ Hh Hf) as [E1 E2 E3]. rewrite decide_True by done. split; [congruence |]. by split.
  - pose proof (Hseen _ _ _ _ Hh Hagain) as Ef. rewrite Ef in Hf. destruct (Hquiet _ _ _ _ Hagain Hf) as [E1 E2 E3].
    rewrite decide_False by done. split; [done |]. split; [cbn; congruence |].
    split; [unfold trims in *; cbn [am_globals with_globals]; rewrite E3, Ht; by rewrite (Nat.iter_succ_r k) |].
    intros _. exists t1, g1, G1, C1. split; [done |]. split; [done |]. rewrite Erun. symmetry. apply (Hrun _ _ G1 C1); [| apply Hp | done].
    destruct (tp_inv _ _ _ _ _ _ _ _ _ _ _ _ Hp) as [Hl Hq]. constructor; [by destruct Hl; constructor | by destruct Hq; constructor].
Qed.

(** ** The three safepoints *)

Lemma pop_list_quiet t g i p t' g' : pop_list t g i = Ok (p, t', g') -> quiet 0 t g t' g'.
Proof. unfold pop_list. intros E. inv_ok. destruct x as [q l]. inv_ok. by constructor. Qed.

Lemma Fetch_quiet t g i p t' g' : HandleGlobalTrimRequest t g = Ok (t, g) -> FetchFromCentralCache t g i = Ok (p, t', g') -> quiet 0 t g t' g'.
Proof.
  intros Hh. unfold FetchFromCentralCache. rewrite Hh, bind_Ok_l. intros E. inv_ok. destruct x0 as [b s]. cbn iota beta zeta in E.
  eapply (quiet_step _ _ t (with_central g s)); [by constructor |]. destruct (ob_count b =? 0); [inv_ok; apply quiet_refl |].
  inv_ok. destruct x0 as [t1 g1]. eapply (quiet_step _ _ t1 g1).
  { revert Hx1. unfold AcceptFetchedBatch. intros E1. inv_ok. destruct x2 as [l m]. inv_ok. by constructor. }
  destruct (ob_count b <? _); [by eapply pop_list_quiet |]. inv_ok. destruct x0 as [t2 g2].
  eapply (quiet_step _ _ t2 g2); [| eapply (quiet_step _ _ (set_list_overages t2 i 0) g2); [by constructor | by eapply pop_list_quiet]].
  revert Hx2. destruct (CanSetQuota _ _ _); [apply SetQuota_quiet | intros E1; inv_ok; by apply quiet_stats].
Qed.

Lemma DeallocateSlowPath_quiet t g i t' g' :
  HandleGlobalTrimRequest t g = Ok (t, g) -> DeallocateSlowPath t g i = Ok (t', g') -> quiet 0 t g t' g'.
Proof.
  intros Hh. unfold DeallocateSlowPath. rewrite Hh, bind_Ok_l. cbn iota beta. case_cmp; intros E; inv_ok; [apply quiet_refl |].
  destruct x as [[b l] m]. inv_ok. destruct x0 as [t1 g1]. inv_ok. apply (quiet_trans0 0 _ _ t1 g'); [| by constructor].
  eapply (quiet_step _ _ (with_list t i l) x); [| by eapply SetQuota_quiet].
  revert Hx0. destruct (batch_empty b); intros E; inv_ok; by constructor.
Qed.

Lemma malloc_safepoint P pr G C Hd V a t fl mode size :
  am_inv P (mkThread (Some (a, t)) fl) pr G C Hd V -> mode_of_bit (Z.land (gl_trim_request (am_globals pr)) 1) = mode ->
  0 <= size <= MAX_TC_SIZE -> fl_empty (free_lists t (Index size)) = true ->
  safepoint 0 calm P C Hd V mode (fun th pr => '(_, th, pr) ← am_malloc th pr size; Ok (th, pr)) a t fl pr.
Proof.
  intros [[Hi _] _] <- Hs He. cbn [ptls] in Hi. set (idx := Index size) in *. assert (Hidx : is_class idx) by (apply Index_range; lia).
  set (f := fun t g => '(_, t, g) ← FetchFromCentralCache t g idx; Ok (t, g)).
  assert (Hnil : C idx = []).
  { rewrite (fl_empty_rep _ _ _ (tl_list _ _ _ _ _ _ (ti_live _ _ _ _ _ _ _ Hi) idx Hidx)) in He. by apply bool_decide_eq_true in He. }
  eapply (safepoint_intro 0 calm P G C Hd V _ f); [exact Hi | done | | | |].
  - intros t1 g1 G1 C1 Hi1 Hsh. unfold am_malloc, thread_allocate, Allocate, on_cache, f. cbn [ptls am_globals with_globals].
    rewrite (proj2 (Z.ltb_ge _ _)), (proj2 (Z.leb_le _ _)), AM_DCHECK_true, bind_Ok_l by lia. cbv zeta. fold idx.
    rewrite (fl_empty_rep _ _ _ (tl_list _ _ _ _ _ _ (ti_live _ _ _ _ _ _ _ Hi1) idx Hidx)).
    destruct (Hsh idx Hidx) as [n ->]. rewrite Hnil, take_nil. cbn [negb bool_decide].
    destruct (FetchFromCentralCache t1 g1 idx) as [[[p t2] g2] | | |]; done.
  - intros t1 g1 t2 g2 E1 E2. unfold f, FetchFromCentralCache. by rewrite E1, E2.
  - intros t1 g1 t2 g2 E1 E2. unfold f in E2. inv_ok. destruct x as [[p t3] g3]. inv_ok. by eapply Fetch_quiet.
  - destruct (FetchFromCentralCache_ok (H1 := reserve_laws P) t (am_globals pr) G C Hd V idx Hi Hidx Hnil) as (p & t' & g' & G' & C' & E & _).
    exists t', g'. unfold f. by rewrite E.
Qed.

Lemma free_safepoint P pr G C Hd V a t fl mode idx p :
  am_inv P (mkThread (Some (a, t)) fl) pr G C Hd V -> mode_of_bit (Z.land (gl_trim_request (am_globals pr)) 1) = mode ->
  is_class idx -> p ∈ Hd idx -> fl_max_size (free_lists t idx) <= fl_size (free_lists t idx) ->
  exists l m, Push (central_mem (am_globals pr)) (free_lists t idx) p = Ok (l, m) /\
    let t2 := with_list t idx l in
    let pr2 := with_globals pr (with_words (am_globals pr) m) in
    let slow := on_cache (fun t g => DeallocateSlowPath t g idx) in
    am_free (mkThread (Some (a, t)) fl) pr p = slow (mkThread (Some (a, t2)) fl) pr2 /\
    safepoint 0 (one_over idx) P (upd_fun C idx (p :: C idx)) (take_back Hd idx {[p]}) V mode slow a t2 fl pr2.
Proof.
  intros Hai <- Hidx Hp Hfull. destruct (am_free_small P _ pr G C Hd V idx p Hai Hidx Hp) as [b Hfree]. cbn [ptls] in Hfree.
  pose proof Hai as [[Hi _] _]. cbn [ptls] in Hi.
  destruct (push_ok (H1 := reserve_laws P) t (am_globals pr) G C Hd V idx p Hi Hidx Hp) as (l & m & Hpush & Hi2 & _).
  exists l, m. split; [exact Hpush |]. cbv zeta. pose proof (ti_live _ _ _ _ _ _ _ Hi) as Hl.
  destruct (object_word _ _ _ _ (tl_cc _ _ _ _ _ _ Hl) idx p Hidx (or_introl (cached_sub Hd C idx p Hp))) as (_ & _ & Hnz & _).
  assert (Hover : fl_max_size l < fl_size l).
  { pose proof (tl_size _ _ _ _ _ _ idx (ti_live _ _ _ _ _ _ _ Hi2) Hidx) as Hs2. pose proof (tl_size _ _ _ _ _ _ idx Hl Hidx) as Hs1.
    cbn in Hs2. rewrite upd_free_list_eq, upd_fun_eq in Hs2. cbn in Hs2.
    assert (fl_max_size l = fl_max_size (free_lists t idx)); [| lia]. revert Hpush. unfold Push. rewrite (proj2 (Z.eqb_neq p 0)) by done. intros E. by inv_ok. }
  split.
  - rewrite Hfree. unfold thread_deallocate, Deallocate. rewrite (proj2 (Z.eqb_neq p 0)) by done. cbn [negb].
    rewrite AM_DCHECK_true, bind_Ok_l, (proj2 (Z.ltb_lt _ _)), AM_HCHECK_true, bind_Ok_l by apply Hidx.
    rewrite Hpush, bind_Ok_l. cbn iota beta zeta. by rewrite (proj2 (Z.ltb_lt _ _) Hover).
  - apply (safepoint_intro 0 (one_over idx) P G _ _ V _ (fun t g => DeallocateSlowPath t g idx) a (with_list t idx l) fl
      (with_globals pr (with_words (am_globals pr) m))).
    + exact Hi2.
    + intros i. apply one_over_bounds.
    + done.
    + intros t1 g1 t2 g2 E1 E2. unfold DeallocateSlowPath. by rewrite E1, E2.
    + intros t1 g1 t2 g2. apply DeallocateSlowPath_quiet.
    + destruct (DeallocateSlowPath_ok (H1 := reserve_laws P) _ _ _ _ _ V idx Hi2 Hidx) as (t' & g' & G' & C' & E & _). by exists t', g'.
Qed.

Lemma trim_safepoint P pr G C Hd V a t fl mode :
  am_inv P (mkThread (Some (a, t)) fl) pr G C Hd V -> mode_of_bit (Z.land (gl_trim_request (am_globals pr)) 1) = mode ->
  safepoint 1 calm P C Hd V mode am_thread_cache_trim a t fl pr.
Proof.
  intros [[Hi _] _] <-. cbn [ptls] in Hi. set (f := fun t g => '(t, g) ← HandleGlobalTrimRequest t g; Trim t g kReuse kDefaultTrimTargetBytes).
  eapply (safepoint_intro 1 calm P G C Hd V _ f); [exact Hi | done | | | |].
  - intros t1 g1 G1 C1 _ _. unfold am_thread_cache_trim, on_cache, f. cbn [ptls am_globals with_globals].
    destruct (HandleGlobalTrimRequest t1 g1) as [[t2 g2] | | |]; [| reflexivity ..]. by rewrite !bind_Ok_l.
  - intros t1 g1 t2 g2 E1 E2. unfold f. by rewrite E1, E2.
  - intros t1 g1 t2 g2 E1. unfold f. rewrite E1, bind_Ok_l. apply Trim_quiet.
  - unfold f. destruct (HandleGlobalTrimRequest_ok (H1 := reserve_laws P) t (am_globals pr) calm G C Hd V Hi) as (t1 & g1 & G1 & C1 & -> & Hi1 & _); [done |].
    rewrite bind_Ok_l. destruct (Trim_ok (H1 := reserve_laws P) t1 g1 calm G1 C1 Hd V kReuse kDefaultTrimTargetBytes Hi1) as (t2 & g2 & _ & _ & E & _);
      [done | done |]. by exists t2, g2.
Qed.

Lemma drain_central_request g n g' : drain_central g n = Ok g' -> gl_trim_request g' = gl_trim_request g.
Proof. unfold drain_central. intros E. inv_ok. destruct x as [d s]. by inv_ok. Qed.

Lemma purge_steps th pr th' pr' a t : ptls th = Some (a, t) -> am_thread_cache_purge th pr = Ok (th', pr') ->
  exists t' g' g2, Trim t (am_globals pr) kRelease 0 = Ok (t', g') /\ th' = mkThread (Some (a, t')) (g_ThreadCacheAlreadyDestructed th) /\
    drain_central g' SIZE_MAX = Ok g2 /\ pr' = with_globals pr g2.
Proof.
  intros Hth Heq. unfold am_thread_cache_purge in Heq. rewrite Hth in Heq.
  destruct (Trim t (am_globals pr) kRelease 0) as [[t' g'] | | |]; [| discriminate ..]. rewrite !bind_Ok_l in Heq. cbn iota beta in Heq.
  destruct (drain_central g' SIZE_MAX) as [g2 | | |] eqn:Hdr; [| discriminate ..]. injection Heq as <- <-. by exists t', g', g2.
Qed.

Lemma purge_unseen P pr G C Hd V a t fl :
  am_inv P (mkThread (Some (a, t)) fl) pr G C Hd V ->
  exists t' pr', am_thread_cache_purge (mkThread (Some (a, t)) fl) pr = Ok (mkThread (Some (a, t')) fl, pr') /\
    observed_trim_epoch t' = observed_trim_epoch t /\ gl_trim_request (am_globals pr') = gl_trim_request (am_globals pr).
Proof.
  intros Hi. destruct (am_thread_cache_purge_ok P _ pr G C Hd V Hi) as (th' & pr' & Heq & _).
  destruct (purge_steps (mkThread (Some (a, t)) fl) pr th' pr' a t eq_refl Heq) as (t' & g' & g2 & Htr & -> & Hdr & ->).
  exists t', (with_globals pr g2). split; [exact Heq |]. destruct (Trim_quiet _ _ _ _ _ _ Htr) as [Eo Er _].
  split; [exact Eo |]. rewrite <- Er. exact (drain_central_request _ _ _ Hdr).
Qed.

(** C24: a published trim request is carried out by the next safepoint of an owner
    that has not seen it, and only once.  Publishing bumps the epoch (modulo
    2^63) and records the mode.  While that request is the latest, an [am_malloc]
    of the thread that finds its list empty, the slow path that an [am_free]
    takes when it overflows its list, and [am_thread_cache_trim] return with the
    epoch seen and the request as it was; they count exactly one trim more than
    their own (none, none and one) if the epoch was new to the thread, and no
    more than their own if not; and in the first case they do what a trim of the
    published mode to that mode's target does, followed by the same call with the
    epoch seen.  [am_thread_cache_purge] is not such a safepoint, though
    ammalloc.h:52 calls it one: it leaves the request unseen. *)
Theorem trim_request_protocol P pr G C Hd V a t fl g0 mode :
  let th := mkThread (Some (a, t)) fl in
  let g := am_globals pr in
  am_inv P th pr G C Hd V -> 0 <= gl_trim_request g0 < W64 ->
  gl_trim_request g = gl_trim_request (RequestGlobalTrim g0 mode) ->
  Z.shiftr (gl_trim_request g) 1 = (Z.shiftr (gl_trim_request g0) 1 + 1) mod 2 ^ 63 /\
  (forall size, 0 <= size <= MAX_TC_SIZE -> fl_empty (free_lists t (Index size)) = true ->
    safepoint 0 calm P C Hd V mode (fun th pr => '(_, th, pr) ← am_malloc th pr size; Ok (th, pr)) a t fl pr) /\
  (forall idx p, is_class idx -> p ∈ Hd idx -> fl_max_size (free_lists t idx) <= fl_size (free_lists t idx) ->
    exists l m, Push (central_mem g) (free_lists t idx) p = Ok (l, m) /\
      let t2 := with_list t idx l in
      let pr2 := with_globals pr (with_words g m) in
      let slow := on_cache (fun t g => DeallocateSlowPath t g idx) in
      am_free th pr p = slow (mkThread (Some (a, t2)) fl) pr2 /\
      safepoint 0 (one_over idx) P (upd_fun C idx (p :: C idx)) (take_back Hd idx {[p]}) V mode slow a t2 fl pr2) /\
  safepoint 1 calm P C Hd V mode am_thread_cache_trim a t fl pr /\
  exists t' pr', am_thread_cache_purge th pr = Ok (mkThread (Some (a, t')) fl, pr') /\
    observed_trim_epoch t' = observed_trim_epoch t /\ gl_trim_request (am_globals pr') = gl_trim_request g.
Proof.
  intros th g Hi Hr Hreq. destruct (next_request_ok (gl_trim_request g0) mode Hr) as (_ & Hep & Hmode).
  assert (Hm : mode_of_bit (Z.land (gl_trim_request g) 1) = mode) by (by rewrite Hreq).
  split; [by rewrite Hreq |]. split; [intros size; by apply malloc_safepoint with (1 := Hi) |].
  split; [intros idx p; by apply free_safepoint with (1 := Hi) |]. split; [by apply trim_safepoint with (1 := Hi) |].
  by apply (purge_unseen P pr G C Hd V).
Qed.
End Safepoints.

(** ** A concrete run *)
Section Sample.
#[local] Existing Instance release_build.
#[local] Existing Instance bump_backing.
#[local] Existing Instance bump_laws.
#[local] Existing Instance sample_layout.
#[local] Existing Instance sample_central_layout.

(** A thread caches one object; a release is published; it refills twice, purges
    and trims.  The trims counted after each of the four. *)
Definition sample_request_run : outcome (list Z) :=
  let count pr := gl_stats (am_globals pr) trim_count in
  '(p, th, pr) ← am_malloc Thread_new sample_process 40;
  '(th, pr) ← am_free th pr p;
  let pr := with_globals pr (RequestGlobalTrim (am_globals pr) kRelease) in
  '(_, th, pr1) ← am_malloc th pr 5000;
  '(_, th, pr2) ← am_malloc th pr1 9000;
  '(th, pr3) ← am_thread_cache_purge th pr2;
  '(th, pr4) ← am_thread_cache_trim th pr3;
  Ok [count pr1; count pr2; count pr3; count pr4].

(** A thread with a cache, just after a request was published. *)
Lemma sample_requested : exists P pr G C Hd V a t fl,
  am_inv (H1 := bump_laws) P (mkThread (Some (a, t)) fl) (with_globals pr (RequestGlobalTrim (am_globals pr) kRelease)) G C Hd V /\
  0 <= gl_trim_request (am_globals pr) < W64.
Proof.
  destruct (sample_block 40) as (p & len & th & pr & P & G & C & Hd & V & Heq & _ & Hi); [done | by vm_compute |].
  assert (Hc : match am_malloc Thread_new sample_process 40 with
    | Ok (_, th, pr) => bool_decide (is_Some (ptls th)) && (0 <=? gl_trim_request (am_globals pr)) && (gl_trim_request (am_globals pr) <? W64)
    | _ => false end = true) by (by vm_compute).
  rewrite Heq in Hc. apply andb_true_iff in Hc as [[Hs%bool_decide_eq_true H0%Z.leb_le]%andb_true_iff Hlt%Z.ltb_lt].
  destruct th as [[[a t] |] fl]; [| by destruct Hs]. exists P, pr, G, C, Hd, V, a, t, fl. split; [| by split].
  by apply (request_ok (H1 := bump_laws)).
Qed.

Lemma trim_request_protocol_witness :
  (exists P pr G C Hd V a t fl, let pr1 := with_globals pr (RequestGlobalTrim (am_globals pr) kRelease) in
    am_inv (H1 := bump_laws) P (mkThread (Some (a, t)) fl) pr1 G C Hd V /\
    Z.shiftr (gl_trim_request (am_globals pr1)) 1 = (Z.shiftr (gl_trim_request (am_globals pr)) 1 + 1) mod 2 ^ 63 /\
    safepoint (H1 := bump_laws) 1 calm P C Hd V kRelease am_thread_cache_trim a t fl pr1) /\
  sample_request_run = Ok [1; 1; 2; 3].
Proof.
  split; [| by vm_compute]. destruct sample_requested as (P & pr & G & C & Hd & V & a & t & fl & Hi & Hr).
  exists P, pr, G, C, Hd, V, a, t, fl. split; [exact Hi |].
  destruct (trim_request_protocol (H1 := bump_laws) P _ G C Hd V a t fl (am_globals pr) kRelease Hi Hr eq_refl) as (E & _ & _ & Hs & _).
  split; [exact E | exact Hs].
Defined.
End Sample.
