(* ===== verification/Scavenger.v ===== *)
(** * The scavenger (include/ammalloc/page_heap_scavenger.h, src/page_heap_scavenger.cpp)

    A pass of the background thread: for every bucket of the page cache, idle free
    runs are taken off the list under the lock, given back to the kernel with
    [MADV_DONTNEED] without it, and put back.  The three phases are separate
    operations, since other threads run between them.  Starting, stopping and the
    timed wait of the thread are in ScavengerThread. *)
From S2P Require Import Prelude Config SizeClass FreeList Common Span SpanList Backing PageMap PageCache CentralCache.
Open Scope Z_scope.

(** [madvise(ptr, size, MADV_DONTNEED)]: whether it succeeded. *)
Class Madvise (W : Type) := { bk_madvise : Z -> Z -> W -> bool * W }.

(** It maps and unmaps nothing. *)
Class MadviseLaws (W : Type) `{BackingLaws W} `{Madvise W} := {
  bk_madvise_ok w R S N p n : bk_rep w R S N -> bk_rep (bk_madvise p n w).2 R S N
}.

Definition kIdleThresholdMs : Z := 10000.

(** ** State *)

Inductive ScavengerStats :=
| scavenge_passes | scavenged_spans | scavenged_bytes | madvise_success_count | madvise_failed_count.
#[export] Instance ScavengerStats_eq_dec : EqDecision ScavengerStats.
Proof. solve_decision. Defined.

(** What the pass reads and writes: the page cache with the memory of its runs,
    and the telemetry. *)
Record Scavenged (W : Type) := mkScavenged {
  sc_central : CentralCache W;
  sc_stats : ScavengerStats -> Z
}.
Arguments mkScavenged {W} _ _.
Arguments sc_central {W} _.
Arguments sc_stats {W} _ _.

Section Ops.
Context `{Build} `{StaticLayout} {W : Type} `{Backing W} `{Madvise W}.
Implicit Types (s : Scavenged W).

Definition sc_add (c : ScavengerStats) (n : Z) s : Scavenged W :=
  mkScavenged (sc_central s) (fun c' => if decide (c' = c) then u64 (sc_stats s c + n) else sc_stats s c').
Definition ResetStats s : Scavenged W := mkScavenged (sc_central s) (fun _ => 0).

Definition sc_spans s : spans := cc_spans (sc_central s).
Definition with_sc_spans s (st : spans) : Scavenged W := mkScavenged (with_descs (sc_central s) st) (sc_stats s).

Definition idle (now last : Z) : bool := kIdleThresholdMs <=? u64 (now - last).

(** The scan of one list under the lock; [head] and [tail] delimit the detached
    runs, chained through [next]. *)
Fixpoint detach_loop (fuel : nat) (now h it head tail : Z) s : outcome (Z * Scavenged W) :=
  if it =? sl_end h then Ok (head, s)
  else match fuel with
  | O => NoFuel
  | S fuel' =>
      d ← get_span (sc_spans s) it;
      if IsUsed d || negb (IsCommitted d)
      then it ← iter_next (sc_spans s) it; detach_loop fuel' now h it head tail s
      else if idle now (last_used_time_ms d)
      then
        let cur := it in
        '(it, st) ← erase (sc_spans s) h cur;
        st ← upd_span st cur (fun d => SetUsed d true);
        let s := sc_add scavenged_spans 1 (with_sc_spans s st) in
        if head =? 0 then detach_loop fuel' now h it cur cur s
        else
          st ← set_next (sc_spans s) tail cur;
          st ← set_next st cur 0;
          detach_loop fuel' now h it head cur (with_sc_spans s st)
      else it ← iter_next (sc_spans s) it; detach_loop fuel' now h it head tail s
  end.

Definition scavenge_detach (fuel : nat) (now i : Z) s : outcome (Z * Scavenged W) :=
  let h := list_head i in
  it ← sl_begin (sc_spans s) h;
  detach_loop fuel now h it 0 0 s.

(** The kernel drops the contents of the range. *)
Definition discard (m : mem) (ptr size : Z) : mem := filter (fun wv => ~ (ptr <= wv.1 < ptr + size)) m.

(** One run handed to the kernel. *)
Definition reclaim_run (cur : Z) s : outcome (Scavenged W) :=
  d ← get_span (sc_spans s) cur;
  let start_ptr := GetPageBaseAddr d in
  let size := u32 (Z.shiftl (page_num d) PAGE_SHIFT) in
  let c := sc_central s in
  let '(ok, w) := bk_madvise start_ptr size (pc_w (cc_pages c)) in
  let s := mkScavenged (with_pages c (with_w (cc_pages c) w)) (sc_stats s) in
  if ok : bool then
    st ← upd_span (sc_spans s) cur (fun d => SetCommitted d false);
    let s := with_sc_spans s st in
    let s := mkScavenged (with_mem (sc_central s) (discard (cc_mem (sc_central s)) start_ptr size)) (sc_stats s) in
    Ok (sc_add scavenged_bytes size (sc_add madvise_success_count 1 s))
  else Ok (sc_add madvise_failed_count 1 s).

(** The system calls, without the lock. *)
Fixpoint scavenge_reclaim (fuel : nat) (cur : Z) s : outcome (Scavenged W) :=
  if cur =? 0 then Ok s
  else match fuel with
  | O => NoFuel
  | S fuel' =>
      s ← reclaim_run cur s;
      next ← iter_next (sc_spans s) cur;
      scavenge_reclaim fuel' next s
  end.

(** Back to the list, under the lock. *)
Fixpoint scavenge_reattach (fuel : nat) (i cur : Z) s : outcome (Scavenged W) :=
  if cur =? 0 then Ok s
  else match fuel with
  | O => NoFuel
  | S fuel' =>
      next ← iter_next (sc_spans s) cur;
      let '(now, w) := bk_now (pc_w (cc_pages (sc_central s))) in
      let s := mkScavenged (with_pages (sc_central s) (with_w (cc_pages (sc_central s)) w)) (sc_stats s) in
      st ← upd_span (sc_spans s) cur (fun d => with_time (SetUsed d false) now);
      st ← push_back st (list_head i) cur;
      scavenge_reattach fuel' i next (with_sc_spans s st)
  end.

Definition scavenge_bucket (fuel : nat) (now i : Z) s : outcome (Scavenged W) :=
  '(head, s) ← scavenge_detach fuel now i s;
  s ← scavenge_reclaim fuel head s;
  scavenge_reattach fuel i head s.

(** [for (i = MAX_PAGE_NUM; i > 0; --i)] *)
Definition ScavengeOnePass (fuel : nat) s : outcome (Scavenged W) :=
  let s := sc_add scavenge_passes 1 s in
  let '(now, w) := bk_now (pc_w (cc_pages (sc_central s))) in
  let s := mkScavenged (with_pages (sc_central s) (with_w (cc_pages (sc_central s)) w)) (sc_stats s) in
  for_range 0 MAX_PAGE_NUM (fun j s => scavenge_bucket fuel now (MAX_PAGE_NUM - j) s) s.
End Ops.
