(* ===== verification/ScavengerSteps.v ===== *)
(** * The phases of a scavenger pass preserve the invariant

    The runs a pass has detached are runs the scavenger holds, like any client:
    so whatever other threads do in between, nobody else allocates, merges or
    writes them. *)
From S2P Require Import Prelude Config SizeClass FreeList Common Span SpanList Backing PageMap PageCache PageCacheInv.
From S2P Require Import PageCacheMerge CentralCache CentralInv CentralSteps Scavenger.
Open Scope Z_scope.

(** ** Descriptors and lists *)

Section Core.
Context `{Build} `{StaticLayout}.
Implicit Types (st : spans) (D : runs) (U X K R : gset Z) (L : Z -> list Z).

(** Writing members the invariant does not look at. *)
Lemma core_same st D U X K R L a d d' :
  core st D U X K R L -> a ∈ X -> st !! a = Some d ->
  start_page_idx d' = start_page_idx d -> page_num d' = page_num d -> owner_shard_id d' = owner_shard_id d ->
  IsUsed d' = IsUsed d -> (clean d -> clean d') -> core (<[a := d']> st) D U X K R L.
Proof.
  intros Hc Ha Hd Es En Eo Eu Ecl. pose proof (co_held _ _ _ _ _ _ _ Hc a Ha) as [[s n] HD]%elem_of_dom.
  destruct (co_desc _ _ _ _ _ _ _ Hc a s n HD) as (e & He & Hs & Hn & Hu & Ho & Hcl). rewrite Hd in He. injection He as <-.
  pose proof (core_set st D U X K R L a d' Hc (or_introl Ha)) as Hset.
  rewrite Es, En, Eo, Eu, Hs, Hn in Hset. rewrite (insert_id D) in Hset by done.
  replace ({[a]} ∪ X) with X in Hset by (clear - Ha; set_solver).
  replace (if IsUsed d then {[a]} ∪ U else U ∖ {[a]}) with U in Hset.
  - apply Hset; [by apply (co_geom _ _ _ _ _ _ _ Hc) | done |]. intros Hf. apply Ecl, Hcl.
    rewrite Hf in Hu. symmetry in Hu. by apply bool_decide_eq_false in Hu.
  - rewrite Hu. case_bool_decide; clear Hset; set_solver.
Qed.

Lemma kept_insert st st' D U X K R L U0 a d :
  core st D U X K R L -> a ∈ dom D -> (a ∉ U0) -> kept U0 K st' (<[a := d]> st').
Proof.
  intros Hc [[s n] HD]%elem_of_dom Ha b Hb. apply lookup_insert_ne. intros <-. destruct Hb as [Hb | [Hb _]]; [done |].
  by apply (rg_own _ _ _ _ _ (co_geom _ _ _ _ _ _ _ Hc _ _ _ HD)).
Qed.

(** Taking a run off its list and marking it used. *)
Lemma core_take st D U K R L i a l1 l2 :
  core st D U U K R L -> 0 <= i <= MAX_PAGE_NUM -> L i = l1 ++ a :: l2 ->
  exists st1 d, erase st (list_head i) a = Ok (default (list_head i) (head l2), st1) /\
    a <> 0 /\ st1 !! a = Some d /\ clean d /\ sp_next d = 0 /\ (a ∉ U) /\ (exists start, D !! a = Some (start, i)) /\
    core (<[a := SetUsed d true]> st1) D ({[a]} ∪ U) ({[a]} ∪ U) K R (upd_list L i (l1 ++ l2)) /\
    kept U K st (<[a := SetUsed d true]> st1) /\ same_data st st1.
Proof.
  intros Hc Hi HL. pose proof (co_lists _ _ _ _ _ _ _ Hc i Hi) as Hdl. rewrite HL in Hdl.
  destruct (erase_dll st (list_head i) l1 l2 a Hdl) as (st1 & Her & Hl & Hnx & _ & Hs & Hf).
  destruct (core_unlist st st1 D U U K R L i a l1 l2 Hc Hi HL Hl Hs) as (Hc1 & HaU & start & HD); [by rewrite HL |].
  destruct (co_desc _ _ _ _ _ _ _ Hc1 a start i HD) as (d & Hd & Es & En & Hu & Ho & Hcl).
  destruct (co_geom _ _ _ _ _ _ _ Hc1 a start i HD) as [Ha0 Hown H1' H2' H3' H4' H5'].
  exists st1, d. split; [done |]. split; [done |]. split; [done |]. split; [by apply Hcl |]. split.
  { unfold next_of in Hnx. rewrite Hd in Hnx. by injection Hnx. }
  split; [done |]. split; [by exists start |]. split.
  - pose proof (core_set st1 D U ({[a]} ∪ U) K R _ a (SetUsed d true) Hc1) as Hset. rewrite IsUsed_SetUsed in Hset.
    cbn [start_page_idx page_num owner_shard_id SetUsed with_flags] in Hset. rewrite Es, En, (insert_id D) in Hset by done.
    replace ({[a]} ∪ ({[a]} ∪ U)) with ({[a]} ∪ U) in Hset by (clear; set_solver).
    apply Hset; [left; clear; set_solver | by constructor | done | done].
  - split; [| exact Hs]. eapply kept_trans; [| eapply kept_insert; [exact Hc1 | apply elem_of_dom; by eexists | done]].
    eapply kept_frame; [exact Hc | reflexivity | exact Hi | exact Hf |]. intros b. rewrite HL. intros [-> | Hb]%elem_of_cons; tauto.
Qed.

(** Putting a run at the end of its list. *)
Lemma core_push_back st D U X K R L a start num :
  core st D U X K R L -> a ∈ X -> D !! a = Some (start, num) -> num <= MAX_PAGE_NUM ->
  exists st', push_back st (list_head num) a = Ok st' /\
    core st' D U (X ∖ {[a]}) K R (upd_list L num (L num ++ [a])) /\
    same_data st st' /\ spans_frame (a :: list_head num :: L num) st st'.
Proof.
  intros Hc HaX Ha Hn. pose proof (rg_num _ _ _ _ _ (co_geom _ _ _ _ _ _ _ Hc _ _ _ Ha)).
  assert (Hdom : a ∈ dom D) by (apply elem_of_dom; by eexists).
  destruct (core_dom _ _ _ _ _ _ _ _ Hc Hdom) as [Ha0 Hm].
  destruct (push_back_dll st (list_head num) (L num) a) as (st' & Heq & Hl & Hs & Hf);
    [by apply Hc; lia | | done | done |].
  { intros Hin. destruct (co_in_list _ _ _ _ _ _ _ num a Hc ltac:(lia) Hin) as [-> | [_ HX]]; [| done].
    eapply (co_not_head _ _ _ _ _ _ _ _ Hc); [exact Hdom |]. exists num. split; [lia | done]. }
  exists st'. split; [done |]. split; [| done].
  eapply (core_relist st st'); [exact Hc | lia | exact Hl | exact Hs | exact Hf | | | |].
  - intros b Hb. apply elem_of_cons in Hb as [-> | Hb]; [tauto |].
    apply elem_of_cons in Hb as [-> | Hb]; tauto.
  - pose proof (co_held _ _ _ _ _ _ _ Hc). set_solver.
  - intros b. rewrite elem_of_app, list_elem_of_singleton, (co_member _ _ _ _ _ _ _ Hc) by lia. split.
    + intros [[HbX Hb] | ->]; [split; [set_solver | done] | split; [set_solver | eauto]].
    + intros [HbX Hb]. destruct (decide (b = a)); [by right | left]. split; [set_solver | done].
  - intros b s n Hb Hne. assert (b <> a) by (intros ->; congruence). set_solver.
Qed.

(** The next position of the scan. *)
Lemma iter_next_dll st h l1 a l2 : dll st h (l1 ++ a :: l2) -> iter_next st a = Ok (default h (head l2)).
Proof.
  intros Hl. pose proof Hl as (Hp & _). destruct (dll_mapped _ _ _ a Hl) as [H0' [d Hd]]; [set_solver |].
  unfold iter_next. rewrite (get_span_Some _ _ d H0' Hd), bind_Ok_l. f_equal.
  rewrite <- app_assoc, app_comm_cons in Hp. change ((a :: l2) ++ [h]) with (a :: (l2 ++ [h])) in Hp. apply path_app in Hp as [_ Hp].
  assert (Hn : next_of st a = Some (default h (head l2))) by (destruct l2; cbn in Hp; apply Hp).
  unfold next_of in Hn. rewrite Hd in Hn. cbn in Hn. congruence.
Qed.

(** Appending to the chain of detached runs. *)
Lemma rchain_snoc st r l t c dt dc p q : rchain st r (l ++ [t]) -> NoDup (l ++ [t; c]) -> st !! t = Some dt -> c <> 0 ->
  rchain (<[c := with_links dc 0 p]> (<[t := with_links dt c q]> st)) r (l ++ [t; c]).
Proof.
  revert r. induction l as [| a l IH]; intros r; cbn.
  - intros (-> & Ht & _) [Hnd _]%NoDup_cons Hdt Hc. split; [done |]. split; [done |].
    exists (with_links dt c q). rewrite lookup_insert_ne, lookup_insert_eq by set_solver. split; [done |]. cbn.
    split; [done |]. split; [done |]. exists (with_links dc 0 p). by rewrite lookup_insert_eq.
  - intros (-> & Ha & d & Hd & Hr) [Hna Hnd]%NoDup_cons Hdt Hc. split; [done |]. split; [done |]. exists d.
    rewrite !lookup_insert_ne by set_solver. split; [done |]. by apply IH.
Qed.
End Core.

(** ** Detaching *)

Section Detach.
Context {W : Type} `{BackingLaws W} `{StaticLayout} `{Madvise W}.
Implicit Types (s : Scavenged W) (st : spans) (D : runs) (U K R : gset Z) (L : Z -> list Z) (dn : list Z).

(** A detached run. *)
Definition off st D (i a : Z) : Prop := (exists d, st !! a = Some d /\ clean d) /\ exists start, D !! a = Some (start, i).

Record detaching st0 st D U K R L (i : Z) dn (hd tl : Z) : Prop := {
  dt_core : core st D (list_to_set dn ∪ U) (list_to_set dn ∪ U) K R L;
  dt_kept : kept U K st0 st;
  dt_nodup : NoDup dn;
  dt_new : forall a, a ∈ dn -> a ∉ U;
  dt_off : forall a, a ∈ dn -> off st D i a;
  dt_chain : rchain st hd dn;
  dt_tail : dn = [] \/ exists l, dn = l ++ [tl];
  dt_data : forall b, b ∉ dn -> span_data <$> st !! b = span_data <$> st0 !! b;
}.

(** The runs the scan takes: free, committed and idle. *)
Definition reclaimable (now : Z) st (a : Z) : bool :=
  match st !! a with
  | Some d => negb (IsUsed d) && IsCommitted d && idle now (last_used_time_ms d)
  | None => false
  end.
Lemma reclaimable_data now st st' a : span_data <$> st !! a = span_data <$> st' !! a -> reclaimable now st a = reclaimable now st' a.
Proof.
  intros Heq. unfold reclaimable. destruct (st !! a) as [d |], (st' !! a) as [d' |]; try done.
  assert (Heq' : span_data d = span_data d') by (cbn in Heq; congruence). clear Heq. rename Heq' into Heq.
  assert (E1 : flags d = flags d') by (change (flags (span_data d) = flags (span_data d')); by rewrite Heq).
  assert (E2 : last_used_time_ms d = last_used_time_ms d') by (change (last_used_time_ms (span_data d) = last_used_time_ms (span_data d')); by rewrite Heq).
  unfold IsUsed, IsCommitted. by rewrite E1, E2.
Qed.

(** One more run detached. *)
Lemma detaching_take st0 st D U K R L i dn hd tl l1 a l2 :
  detaching st0 st D U K R L i dn hd tl -> 0 <= i <= MAX_PAGE_NUM -> L i = l1 ++ a :: l2 ->
  exists st1 d, erase st (list_head i) a = Ok (default (list_head i) (head l2), st1) /\ a <> 0 /\ st1 !! a = Some d /\
    let st2 := <[a := SetUsed d true]> st1 in
    (dn = [] -> detaching st0 st2 D U K R (upd_list L i (l1 ++ l2)) i [a] a a) /\
    (dn <> [] -> exists st3 st4, set_next st2 tl a = Ok st3 /\ set_next st3 a 0 = Ok st4 /\
       detaching st0 st4 D U K R (upd_list L i (l1 ++ l2)) i (dn ++ [a]) hd a).
Proof.
  intros [Hc Hk Hnd Hnew Hoff Hch Htl Hdata] Hi HL.
  destruct (core_take _ _ _ _ _ _ i a l1 l2 Hc Hi HL) as (st1 & d & Her & Ha0 & Hd & Hcl & Hnx & HaX & (start & HD) & Hc2 & Hk2 & Hsd).
  exists st1, d. split; [done |]. split; [done |]. split; [done |]. set (st2 := <[a := SetUsed d true]> st1) in *.
  apply not_elem_of_union in HaX as [Han HaU]. rewrite elem_of_list_to_set in Han.
  assert (Ha2 : st2 !! a = Some (SetUsed d true)) by apply lookup_insert_eq.
  assert (Hk0 : kept U K st0 st2).
  { eapply kept_trans; [exact Hk |]. eapply kept_mono; [| exact Hk2]. clear. set_solver. }
  assert (Hst2 : forall b, b ∈ dn -> st2 !! b = st !! b).
  { intros b Hb. apply Hk2. left. apply elem_of_union_l. by apply elem_of_list_to_set. }
  split.
  - intros ->. cbn in *. rewrite union_empty_l_L in Hc2. constructor.
    + replace (list_to_set [a] ∪ U) with ({[a]} ∪ U) by (clear; set_solver). exact Hc2.
    + exact Hk0.
    + apply NoDup_singleton.
    + by intros b ->%list_elem_of_singleton.
    + intros b ->%list_elem_of_singleton. split; [by eexists | by exists start].
    + cbn. split; [done |]. split; [done |]. by eexists.
    + right. by exists [].
    + intros b Hb. unfold st2. rewrite lookup_insert_ne by set_solver. rewrite (Hsd b). apply Hdata. apply not_elem_of_nil.
  - intros Hne. destruct Htl as [-> | [l Hl]]; [done |].
    assert (Hta : tl <> a) by (intros <-; apply Han; rewrite Hl; set_solver).
    assert (Htdn : tl ∈ dn) by (rewrite Hl; set_solver).
    destruct (Hoff tl Htdn) as [(dt & Hdt & Hct) [startt HDt]]. pose proof Hdt as Hdt2. rewrite <- Hst2 in Hdt2 by done.
    assert (Ht0 : tl <> 0) by (apply (co_geom _ _ _ _ _ _ _ Hc _ _ _ HDt)).
    unfold set_next, upd_span. rewrite (get_span_Some _ _ _ Ht0 Hdt2). eexists _, _. split; [reflexivity |].
    rewrite (get_span_Some _ a (SetUsed d true)) by (done || by rewrite lookup_insert_ne). split; [reflexivity |].
    set (st4 := <[a := with_links (SetUsed d true) 0 _]> (<[tl := with_links dt a (sp_prev dt)]> st2)).
    assert (Hc3 : core st4 D ({[a]} ∪ (list_to_set dn ∪ U)) ({[a]} ∪ (list_to_set dn ∪ U)) K R (upd_list L i (l1 ++ l2))).
    { apply (core_same _ _ _ _ _ _ _ a (SetUsed d true)); try done; [| clear; set_solver | by rewrite lookup_insert_ne].
      apply (core_same _ _ _ _ _ _ _ tl dt); try done. clear - Htdn. set_solver. }
    constructor.
    + replace (list_to_set (dn ++ [a]) ∪ U) with ({[a]} ∪ (list_to_set dn ∪ U)); [exact Hc3 |].
      rewrite list_to_set_app_L. clear. set_solver.
    + eapply kept_trans; [exact Hk0 |]. eapply kept_trans.
      * eapply (kept_insert _ _ _ _ _ _ _ _ _ tl); [exact Hc2 | apply elem_of_dom; by eexists | by apply Hnew].
      * eapply (kept_insert st2 _ _ _ _ _ _ _ _ a); [exact Hc2 | apply elem_of_dom; by eexists | done].
    + apply NoDup_app. split; [done |]. split; [by intros b Hb ->%list_elem_of_singleton | apply NoDup_singleton].
    + intros b [Hb | ->%list_elem_of_singleton]%elem_of_app; [by apply Hnew | done].
    + intros b Hb. destruct (decide (b = a)) as [-> | Hba].
      { split; [exists (with_links (SetUsed d true) 0 (sp_prev (SetUsed d true))); split; [apply lookup_insert_eq | done] | by exists start]. }
      apply elem_of_app in Hb as [Hb | Hb%list_elem_of_singleton]; [| done]. destruct (Hoff b Hb) as [(db & Hdb & Hcb) HDb].
      split; [| done]. unfold st4. rewrite lookup_insert_ne by done. destruct (decide (b = tl)) as [-> | Hbt].
      * rewrite lookup_insert_eq. eexists. split; [done |]. done.
      * rewrite lookup_insert_ne, Hst2 by done. by exists db.
    + rewrite Hl, <- app_assoc. apply rchain_snoc; [| | exact Hdt2 | exact Ha0].
      * rewrite <- Hl. eapply rchain_ext; [| exact Hch]. exact Hst2.
      * change (l ++ [tl; a]) with (l ++ [tl] ++ [a]). rewrite app_assoc, <- Hl. apply NoDup_app. split; [done |].
        split; [by intros b Hb ->%list_elem_of_singleton | apply NoDup_singleton].
    + right. by exists dn.
    + intros b Hb. apply not_elem_of_app in Hb as [Hb Hba]. unfold st4, st2.
      rewrite !lookup_insert_ne by (clear - Hb Hba Htdn; set_solver). rewrite (Hsd b). by apply Hdata.
Qed.

Lemma detach_loop_ok now i st0 D U K R : 0 <= i <= MAX_PAGE_NUM -> forall l2 l1 fuel s dn hd tl L,
  detaching st0 (sc_spans s) D U K R L i dn hd tl -> L i = l1 ++ l2 -> (length l2 <= fuel)%nat ->
  exists hd' s' dn' tl' L', detach_loop fuel now (list_head i) (default (list_head i) (head l2)) hd tl s = Ok (hd', s') /\
    detaching st0 (sc_spans s') D U K R L' i dn' hd' tl' /\ sc_central s' = with_descs (sc_central s) (sc_spans s') /\
    dn' = dn ++ filter (fun a => reclaimable now st0 a = true) l2.
Proof.
  intros Hi. induction l2 as [| a l2 IH]; intros l1 fuel s dn hd tl L Hdt HL Hf.
  { exists hd, s, dn, tl, L. split; [destruct fuel; cbn; by rewrite Z.eqb_refl |]. split; [done |]. split; [| by rewrite app_nil_r].
    unfold sc_spans, cc_spans, with_descs, with_spans, with_pages. by destruct (sc_central s) as [[] ? ? ?]. }
  pose proof (co_lists _ _ _ _ _ _ _ (dt_core _ _ _ _ _ _ _ _ _ _ _ Hdt) i Hi) as Hdl. rewrite HL in Hdl.
  assert (Hah : a <> list_head i) by (intros ->; destruct Hdl as (_ & [Hnd _]%NoDup_cons & _); set_solver).
  destruct fuel as [| fuel]; [cbn in Hf; lia |]. change (default (list_head i) (head (a :: l2))) with a.
  cbn [detach_loop]. unfold sl_end. rewrite (proj2 (Z.eqb_neq _ _) Hah).
  destruct (dll_mapped _ _ _ a Hdl) as [Ha0 [d Hd]]; [set_solver |]. rewrite (get_span_Some _ a d Ha0 Hd), bind_Ok_l.
  assert (Hskip : exists hd' s' dn' tl' L',
    (it ← iter_next (sc_spans s) a; detach_loop fuel now (list_head i) it hd tl s) = Ok (hd', s') /\
    detaching st0 (sc_spans s') D U K R L' i dn' hd' tl' /\ sc_central s' = with_descs (sc_central s) (sc_spans s') /\
    dn' = dn ++ filter (fun a => reclaimable now st0 a = true) l2).
  { rewrite (iter_next_dll _ _ l1 a l2 Hdl), bind_Ok_l. apply (IH (l1 ++ [a]) fuel s dn hd tl L Hdt); [by rewrite <- app_assoc | cbn in Hf; lia]. }
  assert (Hadn : a ∉ dn).
  { intros Hin. assert (HaL : a ∈ L i) by (rewrite HL; set_solver). apply (co_member _ _ _ _ _ _ _ (dt_core _ _ _ _ _ _ _ _ _ _ _ Hdt)) in HaL as [HaX _]; [| done].
    apply HaX, elem_of_union_l. by apply elem_of_list_to_set. }
  assert (Hrec : reclaimable now st0 a = negb (IsUsed d || negb (IsCommitted d)) && idle now (last_used_time_ms d)).
  { rewrite <- (reclaimable_data now (sc_spans s) st0 a) by (by apply (dt_data _ _ _ _ _ _ _ _ _ _ _ Hdt)). unfold reclaimable. rewrite Hd.
    by destruct (IsUsed d), (IsCommitted d). }
  rewrite filter_cons. destruct (_ || _); [rewrite decide_False in * by (by rewrite Hrec); exact Hskip |].
  destruct (idle now _); [clear Hskip; rewrite decide_True by (by rewrite Hrec) | rewrite decide_False in * by (by rewrite Hrec); exact Hskip].
  destruct (detaching_take _ _ _ _ _ _ _ _ _ _ _ _ _ _ Hdt Hi HL) as (st1 & d1 & -> & _ & Hd1 & Hfirst & Hnext).
  rewrite bind_Ok_l. cbn iota beta zeta. unfold upd_span at 1. rewrite (get_span_Some _ _ _ Ha0 Hd1), !bind_Ok_l.
  set (s2 := sc_add scavenged_spans 1 _). destruct (decide (dn = [])) as [-> | Hne].
  - pose proof (dt_chain _ _ _ _ _ _ _ _ _ _ _ Hdt) as Hh. cbn in Hh. subst hd. rewrite Z.eqb_refl.
    destruct (IH l1 fuel s2 [a] a a _ (Hfirst eq_refl)) as (hd' & s' & dn' & tl' & L' & Heq & Hdt' & Hs' & Hdn');
      [unfold upd_list; by rewrite decide_True | cbn in Hf; lia |].
    exists hd', s', dn', tl', L'. split; [done |]. split; [done |]. by split.
  - assert (Hhd : hd <> 0).
    { pose proof (dt_chain _ _ _ _ _ _ _ _ _ _ _ Hdt) as Hh. destruct dn as [| b dn]; [done |]. cbn in Hh. by destruct Hh as (-> & ? & _). }
    rewrite (proj2 (Z.eqb_neq _ _) Hhd). destruct (Hnext Hne) as (st3 & st4 & Hs3 & Hs4 & Hdt4).
    change (sc_spans s2) with (<[a := SetUsed d1 true]> st1). rewrite Hs3, bind_Ok_l, Hs4, bind_Ok_l.
    destruct (IH l1 fuel (with_sc_spans s2 st4) (dn ++ [a]) hd a _ Hdt4) as (hd' & s' & dn' & tl' & L' & Heq & Hdt' & Hs' & Hdn');
      [unfold upd_list; by rewrite decide_True | cbn in Hf; lia |].
    exists hd', s', dn', tl', L'. split; [done |]. split; [done |]. split; [done |]. by rewrite Hdn', <- app_assoc.
Qed.
End Detach.

(** ** The phases on the central cache's invariant *)

Section Phases.
Context {W : Type} `{BackingLaws W} `{StaticLayout} `{CentralLayout} `{!Madvise W} `{!MadviseLaws W}.
Implicit Types (s : CentralCache W) (x : Scavenged W) (G : ghost) (V : runs) (Hd : held) (dn : list Z).

(** The scavenger holds the runs [dn] of [i] pages, chained from [hd]. *)
Record detached s V (i : Z) dn (hd : Z) : Prop := {
  de_chain : rchain (cc_spans s) hd dn;
  de_nodup : NoDup dn;
  de_off : forall a, a ∈ dn -> off (cc_spans s) V i a;
}.

(** It depends on the held descriptors only. *)
Lemma detached_kept s s' V V' i dn hd :
  detached s V i dn hd -> (forall a, a ∈ dn -> cc_spans s' !! a = cc_spans s !! a) ->
  (forall a, a ∈ dn -> V' !! a = V !! a) -> detached s' V' i dn hd.
Proof.
  intros [Hc Hnd Ho] Hs HV. constructor; [by eapply rchain_ext | done |]. intros a Ha. unfold off. rewrite Hs, HV by done. by apply Ho.
Qed.

Lemma list_length_dom s G Hd V i : cc_inv s G Hd V -> 0 <= i <= MAX_PAGE_NUM -> (length (g_L G i) <= size (g_D G))%nat.
Proof.
  intros Hi Hr. pose proof (pi_core _ _ _ _ _ _ _ (ci_pages _ _ _ _ Hi)) as Hc.
  destruct (co_lists _ _ _ _ _ _ _ Hc i Hr) as (_ & [_ Hnd]%NoDup_cons & _).
  rewrite <- size_dom, <- (size_list_to_set (C := gset Z) _ Hnd). apply subseteq_size. intros a Ha%elem_of_list_to_set.
  apply (co_member _ _ _ _ _ _ _ Hc) in Ha as (_ & st & Ha); [| done]. apply elem_of_dom. by eexists.
Qed.

Lemma with_descs_pages s st : with_descs s st = with_pages s (with_spans (cc_pages s) st).
Proof. done. Qed.

Lemma scavenge_detach_ok fuel now i x G Hd V :
  cc_inv (sc_central x) G Hd V -> 1 <= i <= MAX_PAGE_NUM -> (size (g_D G) <= fuel)%nat ->
  exists hd x' G' V' dn, scavenge_detach fuel now i x = Ok (hd, x') /\ same_cc G G' /\ g_D G' = g_D G /\
    cc_inv (sc_central x') G' Hd V' /\ undisturbed Hd V (sc_central x) (sc_central x') /\
    V ⊆ V' /\ dom V' = dom V ∪ list_to_set dn /\ (forall a, a ∈ dn -> a ∉ dom V) /\ detached (sc_central x') V' i dn hd /\
    dn = filter (fun a => reclaimable now (sc_spans x) a = true) (g_L G i).
Proof.
  intros Hi Hr Hf. pose proof (ci_pages _ _ _ _ Hi) as [Pc Pw Pm Pp Pq Ps]. assert (Hr0 : 0 <= i <= MAX_PAGE_NUM) by lia.
  set (st0 := sc_spans x). assert (Hdt : detaching st0 (sc_spans x) (g_D G) (g_U G) (g_K G) (g_R G) (g_L G) i [] 0 0).
  { constructor; [| done | constructor | by intros a Ha%elem_of_nil | by intros a Ha%elem_of_nil | done | by left | done].
    change (list_to_set [] ∪ g_U G) with (∅ ∪ g_U G). by rewrite union_empty_l_L. }
  unfold scavenge_detach. rewrite (sl_begin_dll _ _ (g_L G i)) by (by apply (co_lists _ _ _ _ _ _ _ Pc)). rewrite bind_Ok_l.
  destruct (detach_loop_ok now i st0 _ _ _ _ Hr0 (g_L G i) [] fuel x [] 0 0 _ Hdt eq_refl)
    as (hd & x' & dn & tl & L' & -> & [Hc Hk Hnd Hnew Hoff Hch _ _] & Hx' & Hdn); [etransitivity; [by eapply list_length_dom | exact Hf] |].
  set (V' := V ∪ filter (fun kv => kv.1 ∈ dn) (g_D G)).
  assert (HV : V ⊆ V') by apply map_union_subseteq_l.
  assert (HnV : forall a, a ∈ dn -> a ∉ dom V) by (intros a Ha HaV; apply (Hnew a Ha), (ci_used _ _ _ _ Hi); by left).
  assert (HdnV : forall a, a ∈ dn -> V' !! a = g_D G !! a).
  { intros a Ha. unfold V'. rewrite lookup_union_r by (apply not_elem_of_dom; auto). destruct (Hoff a Ha) as [_ [st Hst]].
    rewrite Hst. by apply map_lookup_filter_Some. }
  assert (Hdom : dom V' = dom V ∪ list_to_set dn).
  { unfold V'. rewrite dom_union_L. apply set_eq. intros a. rewrite !elem_of_union, elem_of_list_to_set. apply or_iff_compat_l. split.
    - intros [e [_ Hin]%map_lookup_filter_Some]%elem_of_dom. exact Hin.
    - intros Ha. destruct (Hoff a Ha) as [_ [st Hst]]. apply elem_of_dom. exists (st, i). by apply map_lookup_filter_Some. }
  exists hd, x', (set_pages G (g_D G) (list_to_set dn ∪ g_U G) (g_R G) (g_N G) L'), V', dn.
  split; [done |]. split; [done |]. split; [done |]. rewrite Hx', with_descs_pages. split; [| split].
  - apply (pages_ok (sc_central x) G Hd V _ _ _ _ _ _ (g_U G)); try done.
    + intros idx a Hidx Ha. split; [| done]. by eapply ci_B_used.
    + intros a. rewrite Hdom, !elem_of_union, (ci_used _ _ _ _ Hi a). tauto.
    + apply map_union_least; [apply Hi | apply map_filter_subseteq].
    + intros idx a Hidx Ha. rewrite Hdom, elem_of_union, elem_of_list_to_set. intros [Hv | Hin]; [by eapply ci_out |].
      apply (Hnew a Hin). by eapply ci_B_used.
  - constructor; [done |]. intros v Hv. apply Hk. left. apply (ci_used _ _ _ _ Hi). by left.
  - split; [done |]. split; [done |]. split; [done |]. split; [| exact Hdn]. constructor; [exact Hch | done |]. intros a Ha.
    destruct (Hoff a Ha) as [? ?]. split; [done |]. by rewrite HdnV.
Qed.

(** *** The system calls *)

Definition minus V dn : runs := filter (fun kv => kv.1 ∉ dn) V.

Lemma lookup_minus V dn a : a ∉ dn -> minus V dn !! a = V !! a.
Proof. intros Ha. unfold minus. destruct (V !! a) eqn:E; [by apply map_lookup_filter_Some | apply map_lookup_filter_None; by left]. Qed.
Lemma minus_sub V dn : minus V dn ⊆ V.
Proof. apply map_filter_subseteq. Qed.
Lemma minus_cons V a dn : minus V (a :: dn) = minus (delete a V) dn.
Proof.
  apply map_eq. intros b. apply option_eq. intros e. unfold minus. rewrite !map_lookup_filter_Some, lookup_delete_Some. cbn.
  rewrite not_elem_of_cons. split; intros Hb; destruct_and!; [by split_and! |]. split_and!; [done | congruence | done].
Qed.

Lemma minus_back V V' dn : V ⊆ V' -> dom V' = dom V ∪ list_to_set dn -> (forall a, a ∈ dn -> a ∉ dom V) -> minus V' dn = V.
Proof.
  intros Hsub Hdom Hnew. apply map_eq. intros a. destruct (decide (a ∈ dn)) as [Ha | Ha].
  - trans (@None (Z * Z)); [apply map_lookup_filter_None; right; by intros e _ Hn; cbn in Hn | symmetry; by apply not_elem_of_dom, Hnew].
  - rewrite lookup_minus by done. apply option_eq. intros e. split; [| intros He; by eapply lookup_weaken].
    intros He. assert (Hin : a ∈ dom V') by (apply elem_of_dom; by eexists). rewrite Hdom, elem_of_union, elem_of_list_to_set in Hin.
    destruct Hin as [[e' He']%elem_of_dom | ?]; [| done]. rewrite He'. pose proof (lookup_weaken _ _ _ _ He' Hsub). congruence.
Qed.

Lemma cc_inv_w s w G Hd V : cc_inv s G Hd V -> bk_rep w (g_R G) (dom (g_D G)) (g_N G) ->
  cc_inv (with_pages s (with_w (cc_pages s) w)) G Hd V.
Proof.
  intros Hi Hw. pose proof (ci_pages _ _ _ _ Hi) as [Pc _ Pm Pp Pq Ps]. constructor; try apply Hi. by constructor.
Qed.

(** Writing flags or the time of a held run. *)
Lemma desc_ok s G Hd V a d d' :
  cc_inv s G Hd V -> a ∈ dom V -> cc_spans s !! a = Some d ->
  start_page_idx d' = start_page_idx d -> page_num d' = page_num d -> owner_shard_id d' = owner_shard_id d ->
  IsUsed d' = IsUsed d -> (clean d -> clean d') ->
  cc_inv (with_descs s (<[a := d']> (cc_spans s))) G Hd V /\ undisturbed Hd (delete a V) s (with_descs s (<[a := d']> (cc_spans s))).
Proof.
  intros Hi Ha Hd' E1 E2 E3 E4 E5. pose proof (ci_pages _ _ _ _ Hi) as [Pc Pw Pm Pp Pq Ps].
  assert (HaU : a ∈ g_U G) by (apply (ci_used _ _ _ _ Hi); by left). rewrite with_descs_pages. split.
  - pose proof (pages_ok s G Hd V (with_spans (cc_pages s) (<[a := d']> (cc_spans s))) (g_D G) (g_U G) (g_R G) (g_N G) (g_L G)
      (g_U G ∖ {[a]}) V Hi) as Hok.
    replace (set_pages G (g_D G) (g_U G) (g_R G) (g_N G) (g_L G)) with G in Hok by by destruct G.
    apply Hok; [| | | apply Hi | apply Hi | apply Hi].
    + constructor; try done. by eapply core_same.
    + eapply kept_insert; [exact Pc | by apply (co_used _ _ _ _ _ _ _ Pc) | clear; set_solver].
    + intros idx b Hidx Hb. split; [| done]. apply elem_of_difference. split; [by eapply ci_B_used |].
      rewrite elem_of_singleton. intros ->. by eapply ci_out.
  - constructor; [done |]. intros v. rewrite dom_delete_L. intros [_ Hne]%elem_of_difference. apply lookup_insert_ne. set_solver.
Qed.

Lemma lookup_discard (m : mem) ptr size w : ~ (ptr <= w < ptr + size) -> discard m ptr size !! w = m !! w.
Proof. intros Hw. unfold discard. destruct (m !! w) eqn:E; [by apply map_lookup_filter_Some | apply map_lookup_filter_None; by left]. Qed.

(** The kernel may drop the contents of a held run. *)
Lemma discard_ok s G Hd V a st n :
  cc_inv s G Hd V -> V !! a = Some (st, n) ->
  let m' := discard (cc_mem s) (st * PAGE_SIZE) (n * PAGE_SIZE) in
  cc_inv (with_mem s m') G Hd V /\ undisturbed Hd (delete a V) s (with_mem s m').
Proof.
  intros Hi Ha m'.
  assert (Hin : forall w, st * PAGE_SIZE <= w < st * PAGE_SIZE + n * PAGE_SIZE -> covers V a (w / PAGE_SIZE)).
  { intros w Hw. exists st, n. split; [done |]. unfold PAGE_SIZE in *.
    split; [apply Z.div_le_lower_bound; lia | apply Z.div_lt_upper_bound; lia]. }
  assert (HVD : forall b p, covers V b p -> covers (g_D G) b p).
  { intros b p (st' & n' & Hb & Hp). exists st', n'. split; [| done]. eapply lookup_weaken; [exact Hb | apply Hi]. }
  split.
  - apply user_writes_ok; [exact Hi |]. intros w Hw. apply lookup_discard. intros Hr. apply Hw. right. exists a. by apply Hin.
  - constructor; [| done]. intros w Hw. apply lookup_discard. intros Hr. pose proof (HVD _ _ (Hin w Hr)) as Hc.
    destruct Hw as [(j & y & Hj & Hy & Hyr) | (v & Hcv)].
    + destruct (object_word _ _ _ _ Hi j y Hj (or_introl Hy)) as (b & Hb & _ & Hob). destruct (Hob w Hyr) as [Hcb _].
      pose proof (ci_cover _ _ _ _ Hi _ _ _ Hc Hcb) as <-. apply (ci_out _ _ _ _ Hi j a Hj Hb), elem_of_dom. by eexists.
    + apply covers_delete in Hcv as [Hne Hcv]. apply Hne, (ci_cover _ _ _ _ Hi v a _ (HVD _ _ Hcv) Hc).
Qed.

Lemma run_size s G Hd V a st i d : cc_inv s G Hd V -> V !! a = Some (st, i) -> cc_spans s !! a = Some d -> i <= MAX_PAGE_NUM ->
  a <> 0 /\ GetPageBaseAddr d = st * PAGE_SIZE /\ u32 (Z.shiftl (page_num d) PAGE_SHIFT) = i * PAGE_SIZE /\ page_num d = i.
Proof.
  intros Hi Ha Hd' Hi2. assert (HDa : g_D G !! a = Some (st, i)) by (eapply lookup_weaken; [exact Ha | apply Hi]).
  pose proof (pi_core _ _ _ _ _ _ _ (ci_pages _ _ _ _ Hi)) as Hc.
  destruct (co_geom _ _ _ _ _ _ _ Hc _ _ _ HDa) as [Ha0 _ Hst Hnum Htop _ _].
  destruct (co_desc _ _ _ _ _ _ _ Hc _ _ _ HDa) as (d2 & Hd2 & Es & En & _). unfold cc_spans in Hd'. rewrite Hd' in Hd2. injection Hd2 as <-.
  split; [done |]. split.
  - unfold GetPageBaseAddr. rewrite Es, page_shift_spec. apply u64_id. rewrite PAGE_LIMIT_val in Htop.
    unfold PAGE_SIZE. destruct use_57bit_va; lia.
  - rewrite En, page_shift_spec. split; [| done]. apply u32_id. unfold MAX_PAGE_NUM, PAGE_SIZE in *. lia.
Qed.

(** One run given to the kernel. *)
Lemma reclaim_run_ok x G Hd V i a d st :
  cc_inv (sc_central x) G Hd V -> V !! a = Some (st, i) -> cc_spans (sc_central x) !! a = Some d -> clean d -> i <= MAX_PAGE_NUM ->
  exists x1 d1, reclaim_run a x = Ok x1 /\ cc_inv (sc_central x1) G Hd V /\ undisturbed Hd (delete a V) (sc_central x) (sc_central x1) /\
    cc_spans (sc_central x1) !! a = Some d1 /\ clean d1 /\ sp_next d1 = sp_next d.
Proof.
  intros Hi Hst Hda Hcl Hr. destruct (run_size _ _ _ _ _ _ _ _ Hi Hst Hda Hr) as (Ha0 & Hbase & Hsz & Hpn).
  unfold reclaim_run. rewrite (get_span_Some _ a d), bind_Ok_l, Hbase, Hsz by done.
  pose proof (bk_madvise_ok _ _ _ _ (st * PAGE_SIZE) (i * PAGE_SIZE) (pi_w _ _ _ _ _ _ _ (ci_pages _ _ _ _ Hi))) as Hw.
  cbv zeta. destruct (bk_madvise _ _ _) as [ok w]. cbn [snd] in Hw. pose proof (cc_inv_w _ w _ _ _ Hi Hw) as Hi1.
  set (s1 := with_pages (sc_central x) (with_w (cc_pages (sc_central x)) w)) in *.
  assert (HaV : a ∈ dom V) by (apply elem_of_dom; by eexists).
  assert (Hu1 : undisturbed Hd (delete a V) (sc_central x) s1) by by constructor.
  destruct ok.
  - unfold upd_span. change (sc_spans (mkScavenged s1 (sc_stats x))) with (cc_spans s1). rewrite (get_span_Some _ a d) by done.
    destruct (desc_ok s1 G Hd V a d (SetCommitted d false) Hi1 HaV Hda) as [Hi2 Hu2]; [done | done | done | apply IsUsed_SetCommitted | done |].
    destruct (discard_ok _ G Hd V a st i Hi2 Hst) as [Hi3 Hu3]. rewrite !bind_Ok_l. eexists _, (SetCommitted d false). split; [reflexivity |].
    split; [exact Hi3 |]. split; [eapply undisturbed_trans; [exact Hu1 |]; eapply undisturbed_trans; [exact Hu2 | exact Hu3] |].
    split; [apply lookup_insert_eq | by split].
  - eexists _, d. split; [reflexivity |]. split; [exact Hi1 |]. split; [exact Hu1 |]. by split.
Qed.

(** [next] is what the loop goes on with. *)
Lemma reclaim_one fuel x G Hd V i a dn :
  cc_inv (sc_central x) G Hd V -> detached (sc_central x) V i (a :: dn) a -> 1 <= i <= MAX_PAGE_NUM ->
  exists next x1, scavenge_reclaim (S fuel) a x = scavenge_reclaim fuel next x1 /\
    cc_inv (sc_central x1) G Hd V /\ undisturbed Hd (delete a V) (sc_central x) (sc_central x1) /\
    detached (sc_central x1) V i (a :: dn) a /\ detached (sc_central x1) V i dn next.
Proof.
  intros Hi Hde Hr. destruct (de_off _ _ _ _ _ Hde a) as [(d & Hda & Hcl) (st & Hst)]; [by left |].
  pose proof (de_chain _ _ _ _ _ Hde) as (_ & Ha0 & _). pose proof (de_nodup _ _ _ _ _ Hde) as [Hnin Hnd]%NoDup_cons.
  destruct (reclaim_run_ok x G Hd V i a d st Hi Hst Hda Hcl ltac:(lia)) as (x1 & d1 & Hrun & Hi2 & Hu2 & Hd1 & Hcl1 & Hnx).
  cbn [scavenge_reclaim]. rewrite (proj2 (Z.eqb_neq a 0)), Hrun, bind_Ok_l by done. unfold iter_next.
  change (sc_spans x1) with (cc_spans (sc_central x1)). rewrite (get_span_Some _ a d1), !bind_Ok_l, Hnx by done.
  exists (sp_next d), x1. split; [done |]. split; [exact Hi2 |]. split; [exact Hu2 |].
  assert (Hrest : detached (sc_central x1) V i dn (sp_next d)).
  { apply (detached_kept (sc_central x) _ V V i dn (sp_next d)); [constructor | | done].
    - pose proof (de_chain _ _ _ _ _ Hde) as (_ & _ & e & He & Hch). rewrite Hda in He. by injection He as <-.
    - exact Hnd.
    - intros b Hb. apply (de_off _ _ _ _ _ Hde). by right.
    - intros b Hb. apply (un_span _ _ _ _ Hu2). rewrite dom_delete_L. apply elem_of_difference.
      destruct (de_off _ _ _ _ _ Hde b) as [_ (stb & Hstb)]; [by right |]. split; [apply elem_of_dom; by eexists |].
      rewrite elem_of_singleton. by intros ->. }
  split; [| exact Hrest]. constructor.
  - split; [done |]. split; [done |]. exists d1. split; [done |]. rewrite Hnx. apply Hrest.
  - apply Hde.
  - intros b [-> | Hb]%elem_of_cons; [| by apply Hrest]. split; [by exists d1 | by exists st].
Qed.

Lemma scavenge_reclaim_ok i Hd V : forall dn fuel hd x G,
  cc_inv (sc_central x) G Hd V -> detached (sc_central x) V i dn hd -> 1 <= i <= MAX_PAGE_NUM -> (length dn <= fuel)%nat ->
  exists x', scavenge_reclaim fuel hd x = Ok x' /\ cc_inv (sc_central x') G Hd V /\
    undisturbed Hd (minus V dn) (sc_central x) (sc_central x') /\ detached (sc_central x') V i dn hd.
Proof.
  induction dn as [| a dn IH]; intros fuel hd x G Hi Hde Hr Hf.
  { pose proof (de_chain _ _ _ _ _ Hde) as Hh. cbn in Hh. subst hd. exists x. split; [by destruct fuel |]. split; [done |].
    split; [apply undisturbed_refl | done]. }
  pose proof (de_chain _ _ _ _ _ Hde) as (-> & _). destruct fuel as [| fuel]; [cbn in Hf; lia |].
  destruct (reclaim_one fuel x G Hd V i a dn Hi Hde Hr) as (next & x1 & -> & Hi1 & Hu1 & Hde1 & Hde1').
  destruct (IH fuel next x1 G Hi1 Hde1' Hr) as (x2 & -> & Hi2 & Hu2 & Hde2); [cbn in Hf; lia |].
  exists x2. split; [done |]. split; [done |]. pose proof (de_nodup _ _ _ _ _ Hde) as [Hnin Hnd]%NoDup_cons.
  destruct (de_off _ _ _ _ _ Hde1 a) as [(d & Hda & Hcl) (st & Hst)]; [by left |].
  assert (Hda2 : cc_spans (sc_central x2) !! a = Some d).
  { rewrite (un_span _ _ _ _ Hu2); [done |]. apply elem_of_dom. exists (st, i). by rewrite lookup_minus. }
  split.
  - rewrite minus_cons. eapply undisturbed_trans.
    + eapply undisturbed_mono; [intros j _; reflexivity | apply minus_sub | exact Hu1].
    + eapply undisturbed_mono; [intros j _; reflexivity | | exact Hu2]. rewrite <- minus_cons. apply map_subseteq_spec. intros b e.
      unfold minus. rewrite !map_lookup_filter_Some, not_elem_of_cons. tauto.
  - constructor; [| apply Hde |].
    + split; [done |]. pose proof (de_chain _ _ _ _ _ Hde1) as (_ & Ha0 & e & He & Hch). split; [done |]. exists d. split; [done |].
      pose proof (de_chain _ _ _ _ _ Hde2) as Hch2. rewrite Hda in He. injection He as <-.
      destruct dn as [| b dn']; [exact Hch |]. destruct Hch as [-> _]. pose proof Hch2 as [-> _]. exact Hch2.
    + intros b [-> | Hb]%elem_of_cons; [| by apply Hde2]. split; [by exists d | by exists st].
Qed.

(** *** Putting the runs back *)

(** The descriptor store of one run's return. *)
Lemma reattach_core st D U K R L i a d start now :
  core st D U U K R L -> a ∈ U -> st !! a = Some d -> D !! a = Some (start, i) -> clean d -> i <= MAX_PAGE_NUM ->
  exists st2, push_back (<[a := with_time (SetUsed d false) now]> st) (list_head i) a = Ok st2 /\
    core st2 D (U ∖ {[a]}) (U ∖ {[a]}) K R (upd_list L i (L i ++ [a])) /\ kept (U ∖ {[a]}) K st st2.
Proof.
  intros Hc Ha Hd' HD Hcl Hi. set (d' := with_time (SetUsed d false) now).
  pose proof (core_free st D U K R L a start i d d' Hc Ha HD Hd' eq_refl eq_refl eq_refl (IsUsed_SetUsed d false) Hcl) as Hc1.
  destruct (core_push_back _ _ _ _ _ _ _ a start i Hc1 Ha HD Hi) as (st2 & Hp & Hc2 & _ & Hf).
  exists st2. split; [done |]. split; [done |].
  pose proof (rg_num _ _ _ _ _ (co_geom _ _ _ _ _ _ _ Hc _ _ _ HD)). eapply kept_trans.
  - apply (kept_insert st st D U U K R L); [exact Hc | apply elem_of_dom; by eexists | clear; set_solver].
  - eapply (kept_push _ _ _ _ _ _ _ _ _ _ a); [exact Hc1 | clear; set_solver | | apply elem_of_dom; by eexists | clear; set_solver | exact Hf]. lia.
Qed.

Lemma reattach_one fuel x G Hd V i a dn :
  cc_inv (sc_central x) G Hd V -> detached (sc_central x) V i (a :: dn) a -> 1 <= i <= MAX_PAGE_NUM ->
  exists next x1 G1, scavenge_reattach (S fuel) i a x = scavenge_reattach fuel i next x1 /\
    same_cc G G1 /\ g_D G1 = g_D G /\ cc_inv (sc_central x1) G1 Hd (delete a V) /\
    undisturbed Hd (delete a V) (sc_central x) (sc_central x1) /\ detached (sc_central x1) (delete a V) i dn next.
Proof.
  intros Hi Hde Hr. destruct (de_off _ _ _ _ _ Hde a) as [(d & Hda & Hcl) (st & Hst)]; [by left |].
  pose proof (de_chain _ _ _ _ _ Hde) as (_ & Ha0 & e & He & Hch). rewrite Hda in He. injection He as <-.
  pose proof (de_nodup _ _ _ _ _ Hde) as [Hnin Hnd]%NoDup_cons.
  cbn [scavenge_reattach]. rewrite (proj2 (Z.eqb_neq a 0)) by done. unfold iter_next at 1, sc_spans at 1.
  rewrite (get_span_Some _ a d), !bind_Ok_l by done.
  pose proof (bk_now_ok _ _ _ _ (pi_w _ _ _ _ _ _ _ (ci_pages _ _ _ _ Hi))) as Hw.
  destruct (bk_now _) as [now w]. cbn [snd] in Hw. pose proof (cc_inv_w _ w _ _ _ Hi Hw) as Hi1.
  set (s1 := with_pages (sc_central x) (with_w (cc_pages (sc_central x)) w)) in *.
  pose proof (ci_pages _ _ _ _ Hi1) as [Pc Pw Pm Pp Pq Ps].
  assert (HaV : a ∈ dom V) by (apply elem_of_dom; by eexists).
  assert (HaU : a ∈ g_U G) by (apply (ci_used _ _ _ _ Hi); by left).
  assert (HDa : g_D G !! a = Some (st, i)) by (eapply lookup_weaken; [exact Hst | apply Hi]).
  destruct (reattach_core _ _ _ _ _ _ i a d st now Pc HaU Hda HDa Hcl) as (st2 & Hp & Hc2 & Hk2); [lia |].
  cbn iota beta zeta. unfold upd_span. change (sc_spans (mkScavenged s1 (sc_stats x))) with (cc_spans s1).
  rewrite (get_span_Some _ a d), !bind_Ok_l by done.
  change (cc_spans (sc_central (mkScavenged s1 (sc_stats x)))) with (pc_spans (cc_pages s1)). rewrite Hp, bind_Ok_l.
  set (G1 := set_pages G (g_D G) (g_U G ∖ {[a]}) (g_R G) (g_N G) (upd_list (g_L G) i (g_L G i ++ [a]))).
  exists (sp_next d), (with_sc_spans (mkScavenged s1 (sc_stats x)) st2), G1. split; [done |]. split; [done |]. split; [done |].
  assert (Hother : forall v, v ∈ dom (delete a V) -> v ∈ g_U G ∖ {[a]}).
  { intros v. rewrite dom_delete_L. intros [Hv Hne]%elem_of_difference. apply elem_of_difference. split; [| done].
    apply (ci_used _ _ _ _ Hi). by left. }
  assert (Hund : undisturbed Hd (delete a V) (sc_central x) (with_descs s1 st2)).
  { constructor; [done |]. intros v Hv. apply Hk2. left. by apply Hother. }
  split; [| split; [exact Hund |]].
  - apply (pages_ok s1 G Hd V (with_spans (cc_pages s1) st2) _ _ _ _ _ (g_U G ∖ {[a]})); try done.
    + intros idx b Hidx Hb. split; [| done]. apply elem_of_difference. split; [by eapply ci_B_used |].
      rewrite elem_of_singleton. intros ->. by eapply ci_out.
    + intros b. rewrite dom_delete_L, !elem_of_difference, elem_of_singleton, (ci_used _ _ _ _ Hi b).
      split; [tauto |]. intros [? | (j & Hj & Hb)]; [tauto |]. split; [eauto |]. intros ->. by eapply ci_out.
    + etransitivity; [apply delete_subseteq | apply Hi].
    + intros idx b Hidx Hb. rewrite dom_delete_L, elem_of_difference. intros [HbV _]. by eapply ci_out.
  - apply (detached_kept (sc_central x) _ V _ i dn (sp_next d)); [constructor; [done | done |] | |].
    + intros b Hb. apply (de_off _ _ _ _ _ Hde). by right.
    + intros b Hb. apply (un_span _ _ _ _ Hund). rewrite dom_delete_L. apply elem_of_difference.
      destruct (de_off _ _ _ _ _ Hde b) as [_ (stb & Hstb)]; [by right |]. split; [apply elem_of_dom; by eexists |].
      rewrite elem_of_singleton. by intros ->.
    + intros b Hb. rewrite lookup_delete_ne; [done |]. by intros ->.
Qed.

Lemma scavenge_reattach_ok i Hd : forall dn fuel hd x G V,
  cc_inv (sc_central x) G Hd V -> detached (sc_central x) V i dn hd -> 1 <= i <= MAX_PAGE_NUM -> (length dn <= fuel)%nat ->
  exists x' G', scavenge_reattach fuel i hd x = Ok x' /\ same_cc G G' /\ g_D G' = g_D G /\
    cc_inv (sc_central x') G' Hd (minus V dn) /\ undisturbed Hd (minus V dn) (sc_central x) (sc_central x').
Proof.
  induction dn as [| a dn IH]; intros fuel hd x G V Hi Hde Hr Hf.
  { pose proof (de_chain _ _ _ _ _ Hde) as Hh. cbn in Hh. subst hd. exists x, G. split; [by destruct fuel |]. split; [done |]. split; [done |].
    assert (minus V [] = V) as ->; [| split; [done | apply undisturbed_refl]].
    unfold minus. apply map_filter_id. intros b e _. apply not_elem_of_nil. }
  pose proof (de_chain _ _ _ _ _ Hde) as (-> & _). destruct fuel as [| fuel]; [cbn in Hf; lia |].
  destruct (reattach_one fuel x G Hd V i a dn Hi Hde Hr) as (next & x1 & G1 & -> & E1 & ED & Hi1 & Hu1 & Hde1).
  destruct (IH fuel next x1 G1 _ Hi1 Hde1 Hr) as (x2 & G2 & -> & F1 & FD & Hi2 & Hu2); [cbn in Hf; lia |].
  exists x2, G2. split; [done |]. split; [by eapply same_cc_trans |]. split; [congruence |]. rewrite minus_cons. split; [done |].
  eapply undisturbed_trans; [| exact Hu2]. eapply undisturbed_mono; [intros j _; reflexivity | apply minus_sub | exact Hu1].
Qed.
End Phases.
