(* ===== verification/ScavengerSpec.v ===== *)
(** * What a scavenger pass promises

    A pass keeps the invariant and the clients' memory, alone or with other
    threads running between its phases; what it takes; and when a run counts as
    idle. *)
From S2P Require Import Prelude Config SizeClass FreeList Common Span SpanList Backing PageMap PageCache PageCacheInv.
From S2P Require Import CentralCache CentralInv CentralSteps CentralInit CentralSpec Scavenger ScavengerSteps.
Open Scope Z_scope.

Section Spec.
Context {W : Type} `{BackingLaws W} `{StaticLayout} `{CentralLayout} `{!Madvise W} `{!MadviseLaws W}.
Implicit Types (s : CentralCache W) (x : Scavenged W) (G : ghost) (V : runs) (Hd : held) (dn : list Z).

(** What other threads may do meanwhile: anything but to the runs [dn]. *)
Definition left_alone dn s V s' V' : Prop :=
  forall a, a ∈ dn -> cc_spans s' !! a = cc_spans s !! a /\ V' !! a = V !! a.

Lemma undisturbed_left_alone dn s s' Hd V V' : undisturbed Hd V s s' -> (forall a, a ∈ dn -> a ∈ dom V /\ V' !! a = V !! a) ->
  left_alone dn s V s' V'.
Proof. intros Hu Hdn a Ha. destruct (Hdn a Ha) as [HaV HV]. split; [by apply Hu | done]. Qed.

Lemma dn_length s V i dn hd G Hd : cc_inv s G Hd V -> detached s V i dn hd -> (length dn <= size (g_D G))%nat.
Proof.
  intros Hi Hde. rewrite <- size_dom, <- (size_list_to_set (C := gset Z) _ (de_nodup _ _ _ _ _ Hde)). apply subseteq_size.
  intros a Ha%elem_of_list_to_set. destruct (de_off _ _ _ _ _ Hde a Ha) as [_ [st Hst]]. apply elem_of_dom. exists (st, i).
  eapply lookup_weaken; [exact Hst | apply Hi].
Qed.

Lemma detached_alone s s' V V' i dn hd : detached s V i dn hd -> left_alone dn s V s' V' -> detached s' V' i dn hd.
Proof. intros Hde Hl. apply (detached_kept s s' V V'); [done | |]; intros a Ha; by apply Hl. Qed.

(** The runs a scan at the time [now] takes off a list are, in the list's order,
    those that are committed and last used either ten seconds or more before
    [now], or after it: a run that another thread frees once the pass has read
    its clock has [last_used_time_ms > now], and the unsigned difference wraps
    (page_heap_scavenger.cpp:77), so that such a run is taken at once, although
    ten seconds are documented as the minimum idle time. *)
Definition taken (now : Z) (st : spans) (l dn : list Z) : Prop :=
  sublist dn l /\ forall a d, a ∈ l -> st !! a = Some d -> 0 <= last_used_time_ms d < W64 ->
    a ∈ dn <-> IsCommitted d = true /\
      (10000 <= now - last_used_time_ms d \/ 0 < last_used_time_ms d - now <= W64 - 10000).

Lemma idle_iff now last : 0 <= now < W64 -> 0 <= last < W64 ->
  idle now last = true <-> 10000 <= now - last \/ 0 < last - now <= W64 - 10000.
Proof.
  intros Hn Hl. unfold idle, kIdleThresholdMs. rewrite Z.leb_le. destruct (decide (last <= now)) as [Hle | Hgt].
  - rewrite u64_id by lia. lia.
  - unfold u64. rewrite <- (Z.mod_add _ 1), Z.mod_small by lia. lia.
Qed.

Lemma filter_sublist' {A} (Q : A -> Prop) `{forall y : A, Decision (Q y)} (l : list A) : sublist (filter Q l) l.
Proof. induction l as [| y l IH]; [constructor |]. rewrite filter_cons. case_decide; by constructor. Qed.

(** Every run on a list is free. *)
Lemma listed_free s G Hd V i a d : cc_inv s G Hd V -> 1 <= i <= MAX_PAGE_NUM -> a ∈ g_L G i -> cc_spans s !! a = Some d -> IsUsed d = false.
Proof.
  intros Hi Hr Ha Hd'. pose proof (pi_core _ _ _ _ _ _ _ (ci_pages _ _ _ _ Hi)) as Hco.
  destruct (proj1 (co_member _ _ _ _ _ _ _ Hco i a ltac:(lia)) Ha) as (HU & st & HD).
  destruct (co_desc _ _ _ _ _ _ _ Hco _ _ _ HD) as (d' & E & _ & _ & Hus & _). unfold cc_spans in Hd'. rewrite E in Hd'. injection Hd' as ->.
  rewrite Hus. by apply bool_decide_eq_false.
Qed.

Lemma taken_filter now s G Hd V i : 0 <= now < W64 -> cc_inv s G Hd V -> 1 <= i <= MAX_PAGE_NUM ->
  taken now (cc_spans s) (g_L G i) (filter (fun a => reclaimable now (cc_spans s) a = true) (g_L G i)).
Proof.
  intros Hn Hi Hr. split; [apply filter_sublist' |]. intros a d Ha Hda Hl.
  rewrite list_elem_of_filter. unfold reclaimable. rewrite Hda, (listed_free s G Hd V i a d) by done. cbn [negb andb].
  rewrite andb_true_iff, idle_iff by done. tauto.
Qed.

(** C18: the three phases of one bucket may be interleaved with anything: the scan
    takes exactly the free runs of the list that are committed and were last
    used ten seconds or more before the pass read its clock, or after that
    reading ([taken]), and from then on the scavenger holds them like a client;
    whatever happens before the system calls, and again before the runs are put
    back, as long as it keeps the invariant and leaves those runs alone, every
    phase completes, keeps the invariant, touches nobody's memory (the kernel
    may drop the contents of the runs taken), and in the end the runs are free
    again. *)
Theorem scavenge_interleaved fuel now i x G Hd V :
  cc_inv (sc_central x) G Hd V -> 0 <= now < W64 -> 1 <= i <= MAX_PAGE_NUM -> (size (g_D G) <= fuel)%nat ->
  exists hd x1 G1 V1 dn, scavenge_detach fuel now i x = Ok (hd, x1) /\ cc_inv (sc_central x1) G1 Hd V1 /\
    undisturbed Hd V (sc_central x) (sc_central x1) /\
    taken now (sc_spans x) (g_L G i) dn /\ minus V1 dn = V /\ (forall a, a ∈ dn -> a ∉ dom V) /\
    forall x2 G2 Hd2 V2, cc_inv (sc_central x2) G2 Hd2 V2 -> left_alone dn (sc_central x1) V1 (sc_central x2) V2 ->
      exists x3, scavenge_reclaim fuel hd x2 = Ok x3 /\ cc_inv (sc_central x3) G2 Hd2 V2 /\
        undisturbed Hd2 (minus V2 dn) (sc_central x2) (sc_central x3) /\
        forall x4 G4 Hd4 V4, cc_inv (sc_central x4) G4 Hd4 V4 -> left_alone dn (sc_central x3) V2 (sc_central x4) V4 ->
          exists x5 G5, scavenge_reattach fuel i hd x4 = Ok x5 /\ cc_inv (sc_central x5) G5 Hd4 (minus V4 dn) /\
            undisturbed Hd4 (minus V4 dn) (sc_central x4) (sc_central x5).
Proof.
  intros Hi Hnow Hr Hf. destruct (scavenge_detach_ok fuel now i x G Hd V Hi Hr Hf)
    as (hd & x1 & G1 & V1 & dn & -> & _ & ED & Hi1 & Hu1 & HV & Hdom & Hnew & Hde & Hdn).
  assert (Hlen : (length dn <= fuel)%nat) by (etransitivity; [by eapply dn_length | by rewrite ED]).
  exists hd, x1, G1, V1, dn. split; [done |]. split; [done |]. split; [done |].
  split; [rewrite Hdn; by apply (taken_filter _ _ _ Hd V) |]. split; [by apply minus_back |].
  split; [done |]. intros x2 G2 Hd2 V2 Hi2 Hl2. pose proof (detached_alone _ _ _ _ _ _ _ Hde Hl2) as Hde2.
  destruct (scavenge_reclaim_ok i Hd2 V2 dn fuel hd x2 G2 Hi2 Hde2 Hr Hlen) as (x3 & -> & Hi3 & Hu3 & Hde3).
  exists x3. split; [done |]. split; [done |]. split; [done |]. intros x4 G4 Hd4 V4 Hi4 Hl4.
  pose proof (detached_alone _ _ _ _ _ _ _ Hde3 Hl4) as Hde4.
  destruct (scavenge_reattach_ok i Hd4 dn fuel hd x4 G4 V4 Hi4 Hde4 Hr Hlen) as (x5 & G5 & -> & _ & _ & Hi5 & Hu5).
  by exists x5, G5.
Qed.
End Spec.

Section Pass.
Context {W : Type} `{BackingLaws W} `{StaticLayout} `{CentralLayout} `{!Madvise W} `{!MadviseLaws W}.
Implicit Types (s : CentralCache W) (x : Scavenged W) (G : ghost) (V : runs) (Hd : held) (dn : list Z).

Lemma scavenge_bucket_ok fuel now i x G Hd V :
  cc_inv (sc_central x) G Hd V -> 1 <= i <= MAX_PAGE_NUM -> (size (g_D G) <= fuel)%nat ->
  exists x' G', scavenge_bucket fuel now i x = Ok x' /\ same_cc G G' /\ g_D G' = g_D G /\
    cc_inv (sc_central x') G' Hd V /\ undisturbed Hd V (sc_central x) (sc_central x').
Proof.
  intros Hi Hr Hf. unfold scavenge_bucket. destruct (scavenge_detach_ok fuel now i x G Hd V Hi Hr Hf)
    as (hd & x1 & G1 & V1 & dn & -> & E1 & ED & Hi1 & Hu1 & HV & Hdom & Hnew & Hde & Hdn). rewrite bind_Ok_l. cbn iota beta.
  assert (Hlen : (length dn <= fuel)%nat) by (etransitivity; [by eapply dn_length | by rewrite ED]).
  pose proof (minus_back V V1 dn HV Hdom Hnew) as Hm.
  destruct (scavenge_reclaim_ok i Hd V1 dn fuel hd x1 G1 Hi1 Hde Hr Hlen) as (x2 & -> & Hi2 & Hu2 & Hde2). rewrite bind_Ok_l.
  destruct (scavenge_reattach_ok i Hd dn fuel hd x2 G1 V1 Hi2 Hde2 Hr Hlen) as (x3 & G3 & -> & F1 & FD & Hi3 & Hu3).
  rewrite Hm in *. exists x3, G3. split; [done |]. split; [by eapply same_cc_trans |]. split; [congruence |]. split; [done |].
  eapply undisturbed_trans; [exact Hu1 |]. by eapply undisturbed_trans.
Qed.

Lemma ScavengeOnePass_ok fuel x G Hd V :
  cc_inv (sc_central x) G Hd V -> (size (g_D G) <= fuel)%nat ->
  exists x' G', ScavengeOnePass fuel x = Ok x' /\ same_cc G G' /\ g_D G' = g_D G /\
    cc_inv (sc_central x') G' Hd V /\ undisturbed Hd V (sc_central x) (sc_central x').
Proof.
  intros Hi Hf. unfold ScavengeOnePass.
  pose proof (bk_now_ok _ _ _ _ (pi_w _ _ _ _ _ _ _ (ci_pages _ _ _ _ Hi))) as Hw. cbv zeta.
  change (sc_central (sc_add scavenge_passes 1 x)) with (sc_central x).
  destruct (bk_now _) as [now w]. cbn [snd] in Hw. pose proof (cc_inv_w _ w _ _ _ Hi Hw) as Hi1.
  set (x1 := mkScavenged (with_pages (sc_central x) (with_w (cc_pages (sc_central x)) w)) _).
  assert (Hu1 : undisturbed Hd V (sc_central x) (sc_central x1)) by by constructor.
  destruct (for_range_inv (fun _ y => exists G', same_cc G G' /\ g_D G' = g_D G /\ cc_inv (sc_central y) G' Hd V /\
    undisturbed Hd V (sc_central x) (sc_central y)) 0 MAX_PAGE_NUM (fun j y => scavenge_bucket fuel now (MAX_PAGE_NUM - j) y) x1)
    as (x' & -> & G' & ?); [done | by exists G | | by exists x', G'].
  intros j y Hj (G1 & E1 & ED & Hi2 & Hu2).
  destruct (scavenge_bucket_ok fuel now (MAX_PAGE_NUM - j) y G1 Hd V Hi2) as (y' & G2 & -> & F1 & FD & Hi3 & Hu3);
    [lia | by rewrite ED |].
  exists y'. split; [done |]. exists G2. split; [by eapply same_cc_trans |]. split; [congruence |]. split; [done |].
  by eapply undisturbed_trans.
Qed.

(** A whole pass is invisible to the clients: it visits every bucket and
    completes (as many steps as there are descriptors suffice for each scan),
    keeps the invariant with the same runs, touches no memory a client or a
    thread cache holds, and leaves the buckets of the central cache in order. *)
Theorem ScavengeOnePass_spec fuel x G Hd V :
  cc_inv (sc_central x) G Hd V -> (size (g_D G) <= fuel)%nat ->
  exists x' G', ScavengeOnePass fuel x = Ok x' /\ same_cc G G' /\ g_D G' = g_D G /\
    cc_inv (sc_central x') G' Hd V /\ undisturbed Hd V (sc_central x) (sc_central x').
Proof. apply ScavengeOnePass_ok. Qed.

End Pass.

(** ** Concrete runs *)

(** A kernel that always agrees, and one that always refuses. *)
Definition bump_madvise (ok : bool) : Madvise Z := {| bk_madvise _ _ w := (ok, w) |}.
Definition bump_madvise_laws `{Build} ok : @MadviseLaws Z _ bump_backing bump_laws (bump_madvise ok).
Proof. by constructor. Defined.

Section Sample.
#[local] Existing Instance release_build.
#[local] Existing Instance bump_backing.
#[local] Existing Instance bump_laws.
#[local] Existing Instance sample_layout.
#[local] Existing Instance sample_central_layout.

(** The central cache after a fetch; the rest of the first refill is a free run. *)
Definition sample_scavenged : Scavenged Z :=
  mkScavenged match FetchBatch sample_central 3 2 with Ok (_, s) => s | _ => sample_central end (fun _ => 0).

(** Its bucket scavenged twice at 20 s: runs taken, bytes given back, calls that
    succeeded and failed, and whether the run is still committed. *)
Definition sample_pass `{!Madvise Z} : outcome (Z * Z * Z * Z * bool) :=
  x ← scavenge_bucket 8 20000 64 sample_scavenged;
  x ← scavenge_bucket 8 20000 64 x;
  a ← sl_begin (sc_spans x) (list_head 64);
  d ← get_span (sc_spans x) a;
  Ok (sc_stats x scavenged_spans, sc_stats x scavenged_bytes, sc_stats x madvise_success_count,
      sc_stats x madvise_failed_count, IsCommitted d).

(** The free run last used at 1001 ms: how many runs a scan takes whose pass read
    the clock at 1000 ms, at 11001 ms and at 11000 ms. *)
Definition sample_early : outcome (Z * Z * Z) :=
  a ← sl_begin (sc_spans sample_scavenged) (list_head 64);
  st ← upd_span (sc_spans sample_scavenged) a (fun d => with_time d 1001);
  '(_, x0) ← scavenge_detach 8 1000 64 (with_sc_spans sample_scavenged st);
  '(_, x1) ← scavenge_detach 8 11001 64 (with_sc_spans sample_scavenged st);
  '(_, x2) ← scavenge_detach 8 11000 64 (with_sc_spans sample_scavenged st);
  Ok (sc_stats x0 scavenged_spans, sc_stats x1 scavenged_spans, sc_stats x2 scavenged_spans).

Definition agreeing : Madvise Z := bump_madvise true.
Definition agreeing_laws : @MadviseLaws Z _ _ _ agreeing := bump_madvise_laws true.
#[local] Existing Instance agreeing.
#[local] Existing Instance agreeing_laws.

Lemma sample_scavenged_inv : exists G Hd,
  cc_inv (H1 := bump_laws) (sc_central sample_scavenged) G Hd ∅.
Proof.
  destruct sample_fetched as (b & s & G & l & Heq & Hi & _). exists G, (give none_held 3 (list_to_set l)).
  unfold sample_scavenged. rewrite Heq. exact Hi.
Qed.

Lemma scavenge_interleaved_witness :
  (exists fuel G Hd, exists hd x1 G1 V1 dn, scavenge_detach fuel 20000 64 sample_scavenged = Ok (hd, x1) /\
    cc_inv (H1 := bump_laws) (sc_central x1) G1 Hd V1 /\ undisturbed Hd ∅ (sc_central sample_scavenged) (sc_central x1) /\
    taken 20000 (sc_spans sample_scavenged) (g_L G 64) dn /\ minus V1 dn = ∅ /\
    (forall a, a ∈ dn -> a ∉ dom (∅ : runs)) /\
    forall x2 G2 Hd2 V2, cc_inv (H1 := bump_laws) (sc_central x2) G2 Hd2 V2 -> left_alone dn (sc_central x1) V1 (sc_central x2) V2 ->
      exists x3, scavenge_reclaim fuel hd x2 = Ok x3 /\ cc_inv (H1 := bump_laws) (sc_central x3) G2 Hd2 V2 /\
        undisturbed Hd2 (minus V2 dn) (sc_central x2) (sc_central x3) /\
        forall x4 G4 Hd4 V4, cc_inv (H1 := bump_laws) (sc_central x4) G4 Hd4 V4 -> left_alone dn (sc_central x3) V2 (sc_central x4) V4 ->
          exists x5 G5, scavenge_reattach fuel 64 hd x4 = Ok x5 /\ cc_inv (H1 := bump_laws) (sc_central x5) G5 Hd4 (minus V4 dn) /\
            undisturbed Hd4 (minus V4 dn) (sc_central x4) (sc_central x5)) /\
  sample_pass = Ok (1, 262144, 1, 0, false) /\ sample_pass (Madvise0 := bump_madvise false) = Ok (2, 0, 0, 2, true) /\
  sample_early = Ok (1, 1, 0).
Proof.
  split; [| split_and!; by vm_compute]. destruct sample_scavenged_inv as (G & Hd & Hi). exists (size (g_D G)), G, Hd.
  apply (scavenge_interleaved (H1 := bump_laws) _ 20000 64 sample_scavenged G Hd ∅ Hi); [lia | unfold MAX_PAGE_NUM; lia | reflexivity].
Defined.

Lemma ScavengeOnePass_spec_witness :
  exists fuel G Hd, exists x' G', ScavengeOnePass fuel sample_scavenged = Ok x' /\ same_cc G G' /\ g_D G' = g_D G /\
    cc_inv (H1 := bump_laws) (sc_central x') G' Hd ∅ /\ undisturbed Hd ∅ (sc_central sample_scavenged) (sc_central x').
Proof.
  destruct sample_scavenged_inv as (G & Hd & Hi). exists (size (g_D G)), G, Hd.
  apply (ScavengeOnePass_spec (H1 := bump_laws) _ sample_scavenged G Hd ∅ Hi). reflexivity.
Defined.
End Sample.
