(* ===== verification/AmmallocServer.v ===== *)
(** * The allocator with its background thread

    The scavenger as one more thread of the system: its program counter, a step of
    it at a time, between any calls of the others.  The runs it has taken off the
    page cache are in nobody else's hands. *)
From S2P Require Import Prelude Config SizeClass FreeList Common Span SpanList Backing PageMap PageCache PageCacheInv.
From S2P Require Import PageCacheMerge CentralCache CentralInv CentralSteps CentralRelease CentralInit CentralSpec ThreadCache ThreadCacheInv Ammalloc.
From S2P Require Import AmmallocInv AmmallocSteps AmmallocThreads AmmallocSpec Scavenger ScavengerSteps ScavengerSpec.
Open Scope Z_scope.

(** ** State *)

(** Where the background thread is: waiting; about to scan bucket [i]; with the
    lock released, about to hand the run [cur] of the chain [hd] to the kernel;
    about to put the chain back. *)
Inductive scav_phase :=
| Resting
| Scanning (now i : Z)
| Reclaiming (now i hd cur : Z)
| Reattaching (now i hd : Z).

Record Server (W : Type) := mkServer {
  sv_heap : Heap W;
  sv_stats : ScavengerStats -> Z;
  sv_phase : scav_phase
}.
Arguments mkServer {W} _ _ _.
Arguments sv_heap {W} _.
Arguments sv_stats {W} _ _.
Arguments sv_phase {W} _.

Section Ops.
Context `{Build} `{StaticLayout} `{CentralLayout} {W : Type} `{Backing W} `{!Madvise W}.
Implicit Types (hp : Heap W) (v : Server W) (x : Scavenged W).

Definition hp_put hp (s : CentralCache W) : Heap W :=
  let pr := hp_process hp in mkHeap (hp_threads hp) (with_globals pr (with_central (am_globals pr) s)).

(** What a pass works on. *)
Definition sv_scavenged v : Scavenged W := mkScavenged (hp_central (sv_heap v)) (sv_stats v).
Definition sv_put v x (ph : scav_phase) : Server W := mkServer (hp_put (sv_heap v) (sc_central x)) (sc_stats x) ph.

Definition pass_begin x : Z * Scavenged W :=
  let x := sc_add scavenge_passes 1 x in
  let '(now, w) := bk_now (pc_w (cc_pages (sc_central x))) in
  (now, mkScavenged (with_pages (sc_central x) (with_w (cc_pages (sc_central x)) w)) (sc_stats x)).

(** One step of the background thread: what it does under one hold of the page
    cache's lock, or one system call without it.  A pass begins only in a
    process that has started the scavenger. *)
Definition phase_step (fuel : nat) (started : bool) (ph : scav_phase) x : outcome (scav_phase * Scavenged W) :=
  match ph with
  | Resting => if started then let '(now, x) := pass_begin x in Ok (Scanning now MAX_PAGE_NUM, x) else Ok (Resting, x)
  | Scanning now i =>
      if 0 <? i then '(hd, x) ← scavenge_detach fuel now i x; Ok (Reclaiming now i hd hd, x) else Ok (Resting, x)
  | Reclaiming now i hd cur =>
      if cur =? 0 then Ok (Reattaching now i hd, x)
      else x ← reclaim_run cur x; next ← iter_next (sc_spans x) cur; Ok (Reclaiming now i hd next, x)
  | Reattaching now i hd => x ← scavenge_reattach fuel i hd x; Ok (Scanning now (i - 1), x)
  end.

Definition scavenger_step (fuel : nat) v : outcome (Server W) :=
  '(ph, x) ← phase_step fuel (am_started (hp_process (sv_heap v))) (sv_phase v) (sv_scavenged v); Ok (sv_put v x ph).

Fixpoint scavenger_steps (n fuel : nat) v : outcome (Server W) :=
  match n with O => Ok v | S n' => v ← scavenger_step fuel v; scavenger_steps n' fuel v end.

(** What may happen next: a call by the [k]-th thread, or a step of the scavenger. *)
Inductive event := Call (k : nat) (c : call) | Scavenge.

Definition server_exec (e : event) v : outcome (Z * Server W) :=
  match e with
  | Call k c => '(r, hp) ← heap_exec k c (sv_heap v); Ok (r, mkServer hp (sv_stats v) (sv_phase v))
  | Scavenge => v ← scavenger_step (size (sc_spans (sv_scavenged v))) v; Ok (0, v)
  end.
End Ops.

(** ** A pass nobody interrupts is [ScavengeOnePass] *)

Section Uninterrupted.
Context `{Build} `{StaticLayout} `{CentralLayout} {W : Type} `{Backing W} `{!Madvise W}.
Implicit Types (hp : Heap W) (v : Server W) (x : Scavenged W).

Lemma sv_put_put v x ph x' ph' : sv_put (sv_put v x ph) x' ph' = sv_put v x' ph'.
Proof. done. Qed.
Lemma sv_scavenged_put v x ph : sv_scavenged (sv_put v x ph) = x.
Proof. by destruct x. Qed.

Definition reaches (fuel : nat) v v' : Prop := exists n, scavenger_steps n fuel v = Ok v'.

Lemma reaches_refl fuel v : reaches fuel v v.
Proof. by exists O. Qed.
Lemma reaches_step fuel v v1 v' : scavenger_step fuel v = Ok v1 -> reaches fuel v1 v' -> reaches fuel v v'.
Proof. intros Hs [n Hn]. exists (S n). cbn. by rewrite Hs, bind_Ok_l. Qed.
Lemma reaches_trans fuel v v1 v' : reaches fuel v v1 -> reaches fuel v1 v' -> reaches fuel v v'.
Proof.
  intros [n Hn] Hr. revert v Hn. induction n as [| n IH]; intros v; cbn; [by intros [= <-] |].
  intros (v2 & Hs & Hn)%bind_Ok_inv. eapply reaches_step; [exact Hs | by apply IH].
Qed.

Lemma reclaim_reaches fuel now i hd v : forall k cur x x',
  scavenge_reclaim k cur x = Ok x' -> reaches fuel (sv_put v x (Reclaiming now i hd cur)) (sv_put v x' (Reattaching now i hd)).
Proof.
  induction k as [| k IH]; intros cur x x'; cbn [scavenge_reclaim].
  all: destruct (cur =? 0) eqn:E; [intros [= <-]; eapply reaches_step; [| apply reaches_refl] |]; [| try done].
  all: try (unfold scavenger_step, phase_step; cbn [sv_phase sv_put]; by rewrite E, sv_scavenged_put, bind_Ok_l, sv_put_put).
  intros (x1 & Hr & (next & Hn & Hl)%bind_Ok_inv)%bind_Ok_inv. eapply reaches_step; [| exact (IH next x1 x' Hl)].
  unfold scavenger_step, phase_step. cbn [sv_phase sv_put]. by rewrite E, sv_scavenged_put, Hr, bind_Ok_l, Hn.
Qed.

Lemma bucket_reaches fuel now i v x x' : 0 < i -> scavenge_bucket fuel now i x = Ok x' ->
  reaches fuel (sv_put v x (Scanning now i)) (sv_put v x' (Scanning now (i - 1))).
Proof.
  intros Hi ([hd x1] & Hdt & (x2 & Hrc & Hra)%bind_Ok_inv)%bind_Ok_inv. eapply reaches_step.
  { unfold scavenger_step, phase_step. cbn [sv_phase sv_put]. by rewrite (proj2 (Z.ltb_lt _ _) Hi), sv_scavenged_put, Hdt, !bind_Ok_l. }
  rewrite sv_put_put. eapply reaches_trans; [exact (reclaim_reaches fuel now i hd v fuel hd x1 x2 Hrc) |].
  eapply reaches_step; [| apply reaches_refl]. unfold scavenger_step, phase_step. cbn [sv_phase sv_put].
  by rewrite sv_scavenged_put, Hra, !bind_Ok_l.
Qed.

Lemma buckets_reach fuel now v : forall n i x x', i + Z.of_nat n = MAX_PAGE_NUM ->
  for_range_nat n i (fun j s => scavenge_bucket fuel now (MAX_PAGE_NUM - j) s) x = Ok x' ->
  reaches fuel (sv_put v x (Scanning now (Z.of_nat n))) (sv_put v x' (Scanning now 0)).
Proof.
  induction n as [| n IH]; intros i x x' Hi; cbn [for_range_nat]; [intros [= <-]; apply reaches_refl |].
  intros (x1 & Hb & Hr)%bind_Ok_inv. replace (MAX_PAGE_NUM - i) with (Z.of_nat (S n)) in Hb by lia.
  eapply reaches_trans; [eapply bucket_reaches; [lia | exact Hb] |].
  replace (Z.of_nat (S n) - 1) with (Z.of_nat n) by lia. apply (IH (i + 1)); [lia | exact Hr].
Qed.

Lemma pass_reaches fuel v x' : sv_phase v = Resting -> am_started (hp_process (sv_heap v)) = true ->
  ScavengeOnePass fuel (sv_scavenged v) = Ok x' -> reaches fuel v (sv_put v x' Resting).
Proof.
  intros Hp Hs Hpass. destruct (pass_begin (sv_scavenged v)) as [now x1] eqn:Hb.
  assert (Hloop : for_range 0 MAX_PAGE_NUM (fun j s => scavenge_bucket fuel now (MAX_PAGE_NUM - j) s) x1 = Ok x').
  { revert Hpass Hb. unfold ScavengeOnePass, pass_begin. cbv zeta. destruct (bk_now _) as [now' w]. intros Hpass [= <- <-]. exact Hpass. }
  eapply reaches_step; [unfold scavenger_step, phase_step; rewrite Hp, Hs, Hb, bind_Ok_l; reflexivity |].
  eapply reaches_trans.
  - apply (buckets_reach fuel now v (Z.to_nat (MAX_PAGE_NUM - 0)) 0 x1 x'); [done | exact Hloop].
  - eapply reaches_step; [| apply reaches_refl]. unfold scavenger_step, phase_step. cbn [sv_phase sv_put].
    by rewrite sv_scavenged_put.
Qed.
End Uninterrupted.

(** ** A step of the background on the system's invariant *)

Section Background.
Context {W : Type} `{BackingLaws W} `{StaticLayout} `{CentralLayout}.
Implicit Types (s : CentralCache W) (hp : Heap W) (G : ghost) (V Vs : runs) (Hd : held) (Cs : list (Z -> list Z)) (P : gset Z).

(** What the clients and all the threads hold. *)
Definition everything Hd Cs : held := rest Hd Cs (length Cs).

Lemma elem_of_everything Hd Cs k C j x : Cs !! k = Some C -> x ∈ everything Hd Cs j <-> x ∈ cached (rest Hd Cs k) C j.
Proof.
  intros HC. rewrite (elem_of_cached_rest Hd Cs k C j x HC). unfold everything. rewrite elem_of_rest. apply or_iff_compat_l.
  split; intros (i & C1 & Hi); exists i, C1; [tauto |]. split; [| done]. destruct Hi as [Hi _]. apply lookup_lt_Some in Hi. lia.
Qed.

Lemma sys_central hp P G Cs Hd V : sys_inv hp P G Cs Hd V -> (0 < length (hp_threads hp))%nat ->
  cc_inv (H1 := reserve_laws P) (hp_central hp) G (everything Hd Cs) V /\ tidy G /\ runs_plain (hp_central hp) V.
Proof.
  intros [Hlen Hth Hnone _] Hlt. destruct (lookup_lt_is_Some_2 _ _ Hlt) as [th Hl].
  destruct (lookup_lt_is_Some_2 Cs 0) as [C HC]; [by rewrite Hlen |]. pose proof (Hth _ _ _ Hl HC) as Hi.
  split; [| split; [by eapply am_tidy | apply Hi]]. eapply cc_inv_held; [| exact (am_cached _ _ _ _ _ _ _ Hi (Hnone _ _ _ Hl HC))].
  intros j _. apply set_eq. intros x. exact (elem_of_everything Hd Cs 0 C j x HC).
Qed.

Lemma sys_put hp P G Cs Hd V s' G' V' V0 :
  sys_inv hp P G Cs Hd V -> cc_inv (H1 := reserve_laws P) s' G' (everything Hd Cs) V' -> tidy G' -> runs_plain s' V' ->
  undisturbed (everything Hd Cs) V0 (hp_central hp) s' -> sys_inv (hp_put hp s') P G' Cs Hd V'.
Proof.
  intros [Hlen Hth Hnone Hown] Hcc Htd Hpl Hu. constructor; [done | | done | done]. cbn. intros k th C Hl HC.
  pose proof (Hth k th C Hl HC) as Hi.
  apply (am_frame P P th (hp_process hp) _ G G' C (rest Hd Cs k) (rest Hd Cs k) V V' (everything Hd Cs) V0); try done.
  - by eapply Hnone.
  - eapply cc_inv_held; [| exact Hcc]. intros j _. apply set_eq. intros x. symmetry. exact (elem_of_everything Hd Cs k C j x HC).
  - by eapply am_own.
  - intros j x Hj Hx. split; [| exact (am_apart _ _ _ _ _ _ _ j x Hi Hj (fun E => Hnone k th C Hl HC E j) Hx)].
    apply (elem_of_everything Hd Cs k C j x HC). unfold cached. apply elem_of_union_r. by apply elem_of_list_to_set.
Qed.


(** Runs without an object size among the scavenger's. *)
Lemma plain_union P s G Hd V Vs : cc_inv (H1 := reserve_laws P) s G Hd (V ∪ Vs) -> runs_plain s V ->
  (forall a, a ∈ dom Vs -> exists d, cc_spans s !! a = Some d /\ clean d) -> runs_plain s (V ∪ Vs).
Proof.
  intros Hi Hp Hc a st n Ha. destruct (V !! a) as [[st' n'] |] eqn:E.
  { rewrite (lookup_union_Some_l _ _ _ _ E) in Ha. injection Ha as -> ->. by apply Hp. }
  rewrite lookup_union_r in Ha by done. destruct (Hc a) as (d & Hda & Hcl); [apply elem_of_dom; by eexists |].
  assert (HDa : g_D G !! a = Some (st, n)).
  { eapply lookup_weaken; [| apply Hi]. by rewrite lookup_union_r. }
  destruct (co_desc _ _ _ _ _ _ _ (pi_core _ _ _ _ _ _ _ (ci_pages _ _ _ _ Hi)) _ _ _ HDa) as (d2 & Hd2 & Es & En & _).
  unfold cc_spans in Hda. rewrite Hda in Hd2. injection Hd2 as <-. exists d. split; [done |]. split; [done |]. split; [done |]. apply Hcl.
Qed.

(** The clients see nothing of it. *)
Lemma background_rel hp P G Cs Hd V Vs Vs' s' G' live :
  sys_inv hp P G Cs Hd (V ∪ Vs) -> (0 < length (hp_threads hp))%nat -> live_rep live Hd V -> V ##ₘ Vs' -> same_cc G G' ->
  cc_inv (H1 := reserve_laws P) s' G' (everything Hd Cs) (V ∪ Vs') ->
  (forall a, a ∈ dom Vs' -> exists d, cc_spans s' !! a = Some d /\ clean d) ->
  undisturbed (everything Hd Cs) V (hp_central hp) s' ->
  heap_rel Vs' live (hp_put hp s') /\ forall w, allocated live w -> cc_mem s' !! w = hp_mem hp !! w.
Proof.
  intros Hsys Hlt Hl Hdis Hcc Hi Hcl Hu. destruct (sys_central _ _ _ _ _ _ Hsys Hlt) as (Hi0 & Htd & Hpl). split.
  - exists P, G', Cs, Hd, V. split; [| done]. eapply sys_put; [exact Hsys | exact Hi | by eapply tidy_same | | exact Hu].
    eapply plain_union; [exact Hi | | exact Hcl]. eapply runs_plain_kept; [exact Hu |].
    intros a st n Ha. apply Hpl. by apply lookup_union_Some_l.
  - intros w Hw. apply (un_mem _ _ _ _ Hu). rewrite (allocated_user live Hd V) in Hw by done.
    eapply user_word_mono; [intros j _; apply rest_sub | reflexivity | exact Hw].
Qed.
End Background.

(** ** The scavenger's runs *)

Section Scavenging.
Context {W : Type} `{BackingLaws W} `{StaticLayout} `{CentralLayout} `{!Madvise W} `{!MadviseLaws W}.
Implicit Types (s : CentralCache W) (x : Scavenged W) (hp : Heap W) (v : Server W) (G : ghost) (V Vs : runs) (Hd : held) (dn : list Z).
Implicit Types (P : gset Z) (live : gmap Z Z).

#[export] Instance reserve_madvise P : @MadviseLaws W _ _ (reserve_laws P) _.
Proof. constructor. intros w R S N p n [HP Hr]. split; [done | by apply bk_madvise_ok]. Qed.

Lemma rchain_next (st st' : spans) r al : (forall a, a ∈ al -> next_of st' a = next_of st a) -> rchain st r al -> rchain st' r al.
Proof.
  revert r. induction al as [| a al IH]; intros r Heq; cbn; [done |]. intros (-> & Ha & d & Hd & Hr). split; [done |]. split; [done |].
  pose proof (Heq a ltac:(by left)) as Hn. unfold next_of in Hn. rewrite Hd in Hn. destruct (st' !! a) as [d' |]; [| done].
  injection Hn as Hn. exists d'. split; [done |]. rewrite Hn. apply IH; [| done]. intros b Hb. apply Heq. by right.
Qed.

Lemma rchain_suffix (st : spans) r d1 d2 : rchain st r (d1 ++ d2) -> exists q, rchain st q d2.
Proof. revert r. induction d1 as [| a d1 IH]; intros r; [by exists r |]. intros (_ & _ & d & _ & Hr). by eapply IH. Qed.

(** Whose runs are whose, phase by phase. *)
Definition scavenging s Vs (ph : scav_phase) : Prop :=
  match ph with
  | Resting => Vs = ∅
  | Scanning _ i => Vs = ∅ /\ 0 <= i <= MAX_PAGE_NUM
  | Reclaiming _ i hd cur => 1 <= i <= MAX_PAGE_NUM /\ exists dn todo, detached s Vs i (dn ++ todo) hd /\
      dom Vs = list_to_set (dn ++ todo) /\ rchain (cc_spans s) cur todo
  | Reattaching _ i hd => 1 <= i <= MAX_PAGE_NUM /\ exists dn, detached s Vs i dn hd /\ dom Vs = list_to_set dn
  end.

(** Nothing anybody else does matters. *)
Lemma scavenging_kept s s' Vs ph : (forall a, a ∈ dom Vs -> cc_spans s' !! a = cc_spans s !! a) -> scavenging s Vs ph -> scavenging s' Vs ph.
Proof.
  intros Hk. destruct ph as [| now i | now i hd cur | now i hd]; cbn; [done | done | |].
  - intros (Hi & dn & todo & Hde & Hdom & Hch). split; [done |]. exists dn, todo.
    assert (Hk' : forall a, a ∈ dn ++ todo -> cc_spans s' !! a = cc_spans s !! a).
    { intros a Ha. apply Hk. rewrite Hdom. by apply elem_of_list_to_set. }
    split; [by eapply detached_kept |]. split; [done |]. eapply rchain_ext; [| exact Hch]. intros a Ha. apply Hk', elem_of_app. by right.
  - intros (Hi & dn & Hde & Hdom). split; [done |]. exists dn. split; [| done]. eapply detached_kept; [exact Hde | | done].
    intros a Ha. apply Hk. rewrite Hdom. by apply elem_of_list_to_set.
Qed.

Lemma detached_clean s Vs i dn hd : detached s Vs i dn hd -> dom Vs = list_to_set dn ->
  forall a, a ∈ dom Vs -> exists d, cc_spans s !! a = Some d /\ clean d.
Proof. intros Hde -> a Ha%elem_of_list_to_set. by destruct (de_off _ _ _ _ _ Hde a Ha) as [? _]. Qed.

(** The scavenger's runs among all runs. *)
Lemma detached_union s V Vs i dn hd : V ##ₘ Vs -> dom Vs = list_to_set dn -> detached s Vs i dn hd <-> detached s (V ∪ Vs) i dn hd.
Proof.
  intros Hdis Hdom. assert (Heq : forall a, a ∈ dn -> (V ∪ Vs) !! a = Vs !! a).
  { intros a Ha. apply lookup_union_r. assert (Hin : a ∈ dom Vs) by (rewrite Hdom; by apply elem_of_list_to_set).
    apply elem_of_dom in Hin as [e He]. eapply map_disjoint_Some_r; [exact Hdis | exact He]. }
  split; intros Hde; (eapply detached_kept; [exact Hde | done |]); intros a Ha; [by apply Heq | symmetry; by apply Heq].
Qed.

Lemma minus_union V Vs dn : V ##ₘ Vs -> dom Vs = list_to_set dn -> minus (V ∪ Vs) dn = V.
Proof.
  intros Hdis Hdom. apply minus_back; [apply map_union_subseteq_l | by rewrite dom_union_L, Hdom |].
  intros a Ha HaV. apply map_disjoint_dom in Hdis. apply (Hdis a HaV). rewrite Hdom. by apply elem_of_list_to_set.
Qed.

Lemma store_size s G Hd V : cc_inv s G Hd V -> (size (g_D G) <= size (cc_spans s))%nat.
Proof.
  intros Hi. rewrite <- !size_dom. apply subseteq_size. intros a [[st n] Ha]%elem_of_dom.
  destruct (co_desc _ _ _ _ _ _ _ (pi_core _ _ _ _ _ _ _ (ci_pages _ _ _ _ Hi)) _ _ _ Ha) as (d & Hda & _).
  apply elem_of_dom. exists d. exact Hda.
Qed.
End Scavenging.

(** ** The scavenger's steps *)

Section Steps.
Context {W : Type} `{BackingLaws W} `{StaticLayout} `{CentralLayout} `{!Madvise W} `{!MadviseLaws W}.
Implicit Types (s : CentralCache W) (x : Scavenged W) (hp : Heap W) (v : Server W) (G : ghost) (V Vs : runs) (Hd : held) (dn : list Z).
Implicit Types (P : gset Z) (live : gmap Z Z) (Cs : list (Z -> list Z)).

(** The state seen by the clients, whatever runs the scavenger holds. *)
Definition server_rel live v : Prop :=
  exists Vs, heap_rel Vs live (sv_heap v) /\ scavenging (hp_central (sv_heap v)) Vs (sv_phase v).

Definition words_kept live hp hp' : Prop := forall w, allocated live w -> hp_mem hp' !! w = hp_mem hp !! w.

(** What a step achieves. *)
Definition step_done live v (o : outcome (Server W)) : Prop :=
  exists v', o = Ok v' /\ server_rel live v' /\ hp_threads (sv_heap v') = hp_threads (sv_heap v) /\ words_kept live (sv_heap v) (sv_heap v').

Lemma none_clean s : forall a, a ∈ dom (∅ : runs) -> exists d, cc_spans s !! a = Some d /\ clean d.
Proof. intros a Ha. rewrite dom_empty_L in Ha. by apply not_elem_of_empty in Ha. Qed.

(** *** Beside anything that holds the objects [Hd] and the runs [V] *)

Section Step.
Context (P : gset Z) (x : Scavenged W) (G : ghost) (Hd : held) (V Vs : runs).
Hypothesis Hc : cc_inv (H1 := reserve_laws P) (sc_central x) G Hd (V ∪ Vs).
Hypothesis Hdis : V ##ₘ Vs.

Record phase_done (ph' : scav_phase) x' G' Vs' : Prop := {
  pd_same : same_cc G G';
  pd_dis : V ##ₘ Vs';
  pd_inv : cc_inv (H1 := reserve_laws P) (sc_central x') G' Hd (V ∪ Vs');
  pd_clean : forall a, a ∈ dom Vs' -> exists d, cc_spans (sc_central x') !! a = Some d /\ clean d;
  pd_und : undisturbed Hd V (sc_central x) (sc_central x');
  pd_phase : scavenging (sc_central x') Vs' ph'
}.
Definition phase_ok (o : outcome (scav_phase * Scavenged W)) : Prop :=
  exists ph' x' G' Vs', o = Ok (ph', x') /\ phase_done ph' x' G' Vs'.

Lemma begin_ok : Vs = ∅ -> let '(now, x') := pass_begin x in phase_ok (Ok (Scanning now MAX_PAGE_NUM, x')).
Proof using Hc Hdis.
  intros HVs. unfold pass_begin. cbv zeta. change (sc_central (sc_add scavenge_passes 1 x)) with (sc_central x).
  pose proof (bk_now_ok _ _ _ _ (pi_w _ _ _ _ _ _ _ (ci_pages _ _ _ _ Hc))) as Hw.
  destruct (bk_now _) as [now w]. cbn [snd] in Hw. pose proof (cc_inv_w _ w _ _ _ Hc Hw) as Hi1.
  do 4 eexists. split; [reflexivity |]. apply (Build_phase_done _ _ G ∅); [done | apply map_disjoint_empty_r | by rewrite <- HVs | apply none_clean | by constructor |].
  split; [done |]. unfold MAX_PAGE_NUM. lia.
Qed.

Lemma rest_ok : Vs = ∅ -> phase_ok (Ok (Resting, x)).
Proof using Hc Hdis.
  intros HVs. do 4 eexists. split; [reflexivity |].
  apply (Build_phase_done _ _ G ∅); [done | apply map_disjoint_empty_r | by rewrite <- HVs | apply none_clean | apply undisturbed_refl | done].
Qed.

Lemma detach_ok fuel now i : Vs = ∅ -> 1 <= i <= MAX_PAGE_NUM -> (size (sc_spans x) <= fuel)%nat ->
  phase_ok ('(hd, x) ← scavenge_detach fuel now i x; Ok (Reclaiming now i hd hd, x)).
Proof using Hc Hdis.
  intros HVs Hi Hf. pose proof Hc as Hc0. rewrite HVs, map_union_empty in Hc0.
  destruct (scavenge_detach_ok (H1 := reserve_laws P) fuel now i _ G _ V Hc0 Hi) as
    (hd & x' & G' & V' & dn & -> & Hcc & ED & Hi1 & Hu1 & HV & Hdom & Hnew & Hde & Hdn);
    [etransitivity; [exact (store_size (H1 := reserve_laws P) _ _ _ _ Hc0) | exact Hf] |]. rewrite bind_Ok_l. cbn iota beta.
  assert (HU : V ∪ V' ∖ V = V') by (by apply map_difference_union).
  assert (Hdis0 : V ##ₘ V' ∖ V) by (by apply map_disjoint_difference_r1).
  assert (Hdom' : dom (V' ∖ V) = list_to_set dn).
  { rewrite dom_difference_L, Hdom. apply set_eq. intros a. rewrite elem_of_difference, elem_of_union, elem_of_list_to_set.
    split; [tauto |]. intros Ha. split; [by right | by apply Hnew]. }
  assert (Hde' : detached (sc_central x') (V' ∖ V) i dn hd) by (apply (detached_union _ V); [done | done | by rewrite HU]).
  do 4 eexists. split; [reflexivity |].
  apply (Build_phase_done _ _ G' (V' ∖ V)); [done | done | by rewrite HU | by eapply detached_clean | exact Hu1 |].
  split; [done |]. exists [], dn. split; [done |]. split; [done |]. apply Hde.
Qed.

Lemma turn_ok now i hd : scavenging (sc_central x) Vs (Reclaiming now i hd 0) -> phase_ok (Ok (Reattaching now i hd, x)).
Proof using Hc Hdis.
  intros (Hi & dn & todo & Hde & Hdom & Hch).
  assert (Ht : todo = []) by (destruct todo as [| b l]; [done | by destruct Hch as (<- & ? & _)]). rewrite Ht, app_nil_r in Hde, Hdom.
  do 4 eexists. split; [reflexivity |].
  apply (Build_phase_done _ _ G Vs); [done | done | done | by eapply detached_clean | apply undisturbed_refl |].
  split; [done |]. by exists dn.
Qed.

Lemma reclaim_ok now i hd cur : scavenging (sc_central x) Vs (Reclaiming now i hd cur) -> cur <> 0 ->
  phase_ok (x ← reclaim_run cur x; next ← iter_next (sc_spans x) cur; Ok (Reclaiming now i hd next, x)).
Proof using Hc Hdis MadviseLaws0.
  intros (Hi & dn & todo & Hde & Hdom & Hch) Hcur.
  destruct todo as [| a todo]; [done |]. pose proof Hch as (-> & Ha0 & d & Hda & Hch').
  pose proof (proj1 (detached_union _ V Vs _ _ _ Hdis Hdom) Hde) as HdeU.
  destruct (de_off _ _ _ _ _ HdeU a) as [(d2 & Hd2 & Hcl) (st & Hst)]; [apply elem_of_app; right; by left |].
  rewrite Hda in Hd2. injection Hd2 as <-.
  destruct (reclaim_run_ok (H1 := reserve_laws P) x G _ (V ∪ Vs) i a d st Hc Hst Hda Hcl) as
    (x' & d1 & -> & Hi1 & Hu1 & Hd1 & Hcl1 & Hnx); [lia |]. rewrite bind_Ok_l. unfold iter_next.
  change (sc_spans x') with (cc_spans (sc_central x')). rewrite (get_span_Some _ a d1), !bind_Ok_l, Hnx by done.
  assert (Hk : forall b, b ∈ dom Vs -> b <> a -> cc_spans (sc_central x') !! b = cc_spans (sc_central x) !! b).
  { intros b Hb Hne. apply (un_span _ _ _ _ Hu1). rewrite dom_delete_L, dom_union_L. clear - Hb Hne. set_solver. }
  assert (Hin : forall b, b ∈ dn ++ a :: todo -> b ∈ dom Vs) by (intros b Hb; rewrite Hdom; by apply elem_of_list_to_set).
  assert (Hde1 : detached (sc_central x') Vs i (dn ++ a :: todo) hd).
  { destruct Hde as [Hc0 Hnd Hoff]. constructor; [| done |].
    - eapply rchain_next; [| exact Hc0]. intros b Hb. unfold next_of. destruct (decide (b = a)) as [-> | Hne]; [| by rewrite Hk by auto].
      rewrite Hd1, Hda. cbn. by rewrite Hnx.
    - intros b Hb. destruct (Hoff b Hb) as [Hcb ?]. split; [| done]. destruct (decide (b = a)) as [-> | Hne]; [by exists d1 | by rewrite Hk by auto]. }
  do 4 eexists. split; [reflexivity |].
  apply (Build_phase_done _ _ G Vs); [done | done | done | by eapply detached_clean | |].
  - eapply undisturbed_mono; [intros j _; reflexivity | | exact Hu1]. apply map_subseteq_spec. intros b e Hb.
    apply lookup_delete_Some. split; [| by apply lookup_union_Some_l]. intros <-.
    assert (a ∈ dom Vs) as [e' He']%elem_of_dom by (apply Hin, elem_of_app; right; by left).
    exact (proj1 (map_disjoint_spec V Vs) Hdis a _ _ Hb He').
  - split; [done |]. exists (dn ++ [a]), todo. rewrite <- app_assoc. split; [done |]. split; [done |].
    eapply rchain_ext; [| exact Hch']. intros b Hb. apply Hk; [apply Hin, elem_of_app; right; by right |]. intros ->.
    pose proof (de_nodup _ _ _ _ _ Hde) as Hnd. apply NoDup_app in Hnd as (_ & _ & Hnd). apply NoDup_cons in Hnd as [Hnd _]. done.
Qed.

Lemma reattach_ok fuel now i hd : scavenging (sc_central x) Vs (Reattaching now i hd) -> (size (sc_spans x) <= fuel)%nat ->
  phase_ok (x ← scavenge_reattach fuel i hd x; Ok (Scanning now (i - 1), x)).
Proof using Hc Hdis.
  intros (Hi & dn & Hde & Hdom) Hf.
  pose proof (proj1 (detached_union _ V Vs _ _ _ Hdis Hdom) Hde) as HdeU.
  destruct (scavenge_reattach_ok (H1 := reserve_laws P) i _ dn fuel hd _ G _ Hc HdeU Hi) as (x' & G' & -> & Hcc & ED & Hi1 & Hu1).
  { etransitivity; [exact (dn_length (H1 := reserve_laws P) _ _ _ _ _ _ _ Hc HdeU) |].
    etransitivity; [exact (store_size (H1 := reserve_laws P) _ _ _ _ Hc) | exact Hf]. }
  rewrite bind_Ok_l. rewrite (minus_union V Vs dn Hdis Hdom) in Hi1, Hu1. do 4 eexists. split; [reflexivity |].
  apply (Build_phase_done _ _ G' ∅); [done | apply map_disjoint_empty_r | by rewrite map_union_empty | apply none_clean | exact Hu1 |].
  split; [done |]. lia.
Qed.

Lemma phase_step_ok started ph : scavenging (sc_central x) Vs ph -> phase_ok (phase_step (size (sc_spans x)) started ph x).
Proof using Hc Hdis MadviseLaws0.
  intros Hph. unfold phase_step. destruct ph as [| now i | now i hd cur | now i hd].
  - destruct started; [pose proof (begin_ok Hph) as Hb; by destruct (pass_begin x) | by apply rest_ok].
  - destruct Hph as [HVs Hi]. destruct (Z.ltb_spec 0 i); [apply detach_ok; [done | lia | done] | by apply rest_ok].
  - destruct (Z.eqb_spec cur 0) as [-> | Hne]; [by apply turn_ok | by apply reclaim_ok].
  - by apply reattach_ok.
Qed.
End Step.

(** *** Among the threads *)

Lemma scavenger_step_ok live v : server_rel live v -> (0 < length (hp_threads (sv_heap v)))%nat ->
  step_done live v (scavenger_step (size (sc_spans (sv_scavenged v))) v).
Proof.
  intros (Vs & (P & G & Cs & Hd & V & Hsys & Hdis & Hl) & Hph) Hlt. unfold scavenger_step.
  pose proof (proj1 (sys_central _ _ _ _ _ _ Hsys Hlt)) as Hc.
  destruct (phase_step_ok P (sv_scavenged v) G (everything Hd Cs) V Vs Hc Hdis (am_started (hp_process (sv_heap v))) (sv_phase v) Hph)
    as (ph' & x' & G' & Vs' & -> & [Hsame Hdis' Hi Hcl Hu Hph']).
  rewrite bind_Ok_l. exists (sv_put v x' ph'). split; [done |].
  destruct (background_rel (sv_heap v) P G Cs Hd V Vs Vs' (sc_central x') G' live) as [Hrel Hk]; [done .. |].
  split; [by exists Vs' |]. split; [done |]. exact Hk.
Qed.

(** ** Every event *)

Definition sv_mem v : mem := hp_mem (sv_heap v).

(** What the abstract allocator does: a step for a call, nothing for the scavenger. *)
Definition event_spec live (e : event) (r : Z) (live' : gmap Z Z) : Prop :=
  match e with Call _ c => spec_step live c r live' | Scavenge => live' = live end.
Definition event_contents live live' (e : event) (m m' : mem) : Prop :=
  match e with Call _ c => contents_kept live live' c m m' | Scavenge => forall w, allocated live w -> m' !! w = m !! w end.
Definition event_ok live v (e : event) : Prop :=
  match e with Call k c => (k < length (hp_threads (sv_heap v)))%nat /\ call_ok live c | Scavenge => True end.

Lemma server_exec_ok live v e : server_rel live v -> (0 < length (hp_threads (sv_heap v)))%nat -> event_ok live v e ->
  exists r v', server_exec e v = Ok (r, v') /\ length (hp_threads (sv_heap v')) = length (hp_threads (sv_heap v)) /\
    exists live', event_spec live e r live' /\ server_rel live' v' /\ event_contents live live' e (sv_mem v) (sv_mem v').
Proof.
  intros Hrel Hlt He. destruct e as [k c |]; cbn [server_exec].
  - destruct Hrel as (Vs & Hrel & Hph). destruct He as [Hk Hc].
    destruct (heap_exec_ok Vs live _ k c Hrel Hk Hc) as (r & hp' & -> & Hlen & Hkept & live' & Hs & Hr & Hm). rewrite bind_Ok_l.
    exists r, (mkServer hp' (sv_stats v) (sv_phase v)). split; [done |]. split; [done |]. exists live'. split; [done |]. split; [| exact Hm].
    exists Vs. split; [done |]. by eapply scavenging_kept.
  - destruct (scavenger_step_ok live v Hrel Hlt) as (v' & -> & Hrel' & Hth & Hm). rewrite bind_Ok_l.
    exists 0, v'. split; [done |]. split; [by rewrite Hth |]. by exists live.
Qed.
End Steps.
