(* ===== verification/AmmallocClients.v ===== *)
(** * The clients

    What the clients of the allocator own and wrote, what of it a call changes, and
    that a step of the abstract allocator keeps their knowledge right. *)
From S2P Require Import Prelude FreeList Ammalloc AmmallocThreads.
Open Scope Z_scope.

(** ** The clients' bookkeeping *)

(** What the clients know: the blocks they own with the sizes they asked for, and
    the words they stored there. *)
Record client := mkClient {
  owned : gmap Z Z;
  shadow : gmap Z Z
}.

Definition client_after (c : call) (r : Z) (cl : client) : client :=
  match c with
  | DoMalloc size => if decide (r = 0) then cl else mkClient (<[r := size]> (owned cl)) (shadow cl)
  | DoFree p =>
      let n := default 0 (owned cl !! p) in
      mkClient (delete p (owned cl)) (filter (fun wv => ~ (p <= wv.1 < p + n)) (shadow cl))
  | DoStore w v => mkClient (owned cl) (<[w := v]> (shadow cl))
  | _ => cl
  end.

Definition client_new : client := mkClient ∅ ∅.

Section Clients.
Implicit Types (rel : gmap Z Z -> Prop) (m : mem) (cl : client) (live : gmap Z Z).

(** The clients' knowledge is right: their blocks are live and at least as long
    as they asked for, and memory holds what they stored. *)
Definition within (asked live : gmap Z Z) : Prop :=
  dom asked = dom live /\ forall p n len, asked !! p = Some n -> live !! p = Some len -> n <= len.

Record knows (rel : gmap Z Z -> Prop) (m : mem) cl : Prop := {
  kn_live : exists live, rel live /\ within (owned cl) live;
  kn_shadow : forall w v, shadow cl !! w = Some v -> allocated (owned cl) w /\ m !! w = Some v;
}.

Lemma within_lookup asked live p n : within asked live -> asked !! p = Some n -> exists len, live !! p = Some len /\ n <= len.
Proof.
  intros [Hdom Hle] Hp. destruct (live !! p) as [len |] eqn:E; [exists len; split; [done | by eapply Hle] | exfalso].
  apply not_elem_of_dom in E. rewrite <- Hdom in E. apply E, elem_of_dom. by eexists.
Qed.
Lemma within_allocated asked live w : within asked live -> allocated asked w -> allocated live w.
Proof.
  intros Hw (p & n & Hp & Hr). destruct (within_lookup _ _ _ _ Hw Hp) as (len & Hlen & Hle). exists p, len. split; [done | lia].
Qed.
Lemma within_insert asked live p n len : within asked live -> n <= len -> within (<[p := n]> asked) (<[p := len]> live).
Proof.
  intros [Hdom Hle] Hn. split; [by rewrite !dom_insert_L, Hdom |]. intros q m l Hq Hl.
  destruct (decide (q = p)) as [-> | Hne]; [rewrite lookup_insert_eq in *; congruence |]. rewrite lookup_insert_ne in * by done. by eapply Hle.
Qed.
Lemma within_delete asked live p : within asked live -> within (delete p asked) (delete p live).
Proof.
  intros [Hdom Hle]. split; [by rewrite !dom_delete_L, Hdom |]. intros q m l Hq Hl.
  apply lookup_delete_Some in Hq as [_ Hq], Hl as [_ Hl]. by eapply Hle.
Qed.

Lemma call_ok_within asked live c : within asked live -> call_ok asked c -> call_ok live c.
Proof.
  intros Hw. destruct c as [size | p | | | | | | w v]; cbn; try done.
  - intros [-> | [n Hp]]; [by left | right]. destruct (within_lookup _ _ _ _ Hw Hp) as (len & Hlen & _). by exists len.
  - intros (p & n & Hp & H1' & H2'). destruct (within_lookup _ _ _ _ Hw Hp) as (len & Hlen & Hle). exists p, len. split; [done | lia].
Qed.

(** The words the clients remember survive a call. *)
Lemma knows_mem cl rel m m' live live' c w v :
  knows rel m cl -> within (owned cl) live -> contents_kept live live' c m m' ->
  shadow cl !! w = Some v -> allocated live' w -> (forall v, c <> DoStore w v) -> m' !! w = Some v.
Proof.
  intros [_ Hs] Hw Hk Hv Ha Hne. destruct (Hs w v Hv) as [Hal Hm]. rewrite Hk; [exact Hm | by eapply within_allocated | done | done].
Qed.

Lemma knows_malloc cl rel rel' m m' live live' size r :
  knows rel m cl -> within (owned cl) live -> spec_step live (DoMalloc size) r live' -> rel' live' ->
  contents_kept live live' (DoMalloc size) m m' -> knows rel' m' (client_after (DoMalloc size) r cl).
Proof.
  intros Hk Hw Hs Hr Hc. cbn. inversion Hs as [sz | sz q len Hq Hle Hpos Hfr | | c Hquiet]; subst; [| | done].
  - rewrite decide_True by done. constructor; [by exists live' |]. intros w v Hv. destruct (kn_shadow _ _ _ Hk w v Hv) as [Ha _].
    split; [done |]. eapply knows_mem; try done. by eapply within_allocated.
  - rewrite decide_False by done. pose proof (within_insert _ _ r size len Hw Hle) as Hw'. constructor; [by exists (<[r := len]> live) |].
    cbn. intros w v Hv. destruct (kn_shadow _ _ _ Hk w v Hv) as [(p & n & Hp & Hr') _].
    assert (Hpr : p <> r).
    { intros ->. apply (Hfr w); [| by eapply within_allocated; [| exists r, n]].
      destruct (within_lookup _ _ _ _ Hw Hp) as (l & Hl & Hnl). exfalso. apply (Hfr r); [lia |]. exists r, l. split; [done | lia]. }
    assert (Ha : allocated (<[r := size]> (owned cl)) w) by (exists p, n; by rewrite lookup_insert_ne).
    split; [done |]. eapply knows_mem; try done. by eapply within_allocated.
Qed.

Lemma knows_free cl rel rel' m m' live live' p r :
  knows rel m cl -> within (owned cl) live -> spec_step live (DoFree p) r live' -> rel' live' ->
  contents_kept live live' (DoFree p) m m' -> knows rel' m' (client_after (DoFree p) r cl).
Proof.
  intros Hk Hw Hs Hr Hc. inversion Hs as [| | | c Hquiet]; subst; [| done]. pose proof (within_delete _ _ p Hw) as Hw'.
  constructor; cbn; [by exists (delete p live) |]. intros w v [Hv Hout]%map_lookup_filter_Some. cbn in Hout.
  destruct (kn_shadow _ _ _ Hk w v Hv) as [(q & n & Hq & Hr') _].
  assert (Hqp : p <> q) by (intros ->; rewrite Hq in Hout; cbn in Hout; lia).
  assert (Ha : allocated (delete p (owned cl)) w) by (exists q, n; by rewrite lookup_delete_ne).
  split; [done |]. eapply knows_mem; try done. by eapply within_allocated.
Qed.

Lemma knows_quiet cl rel rel' m m' live live' c r :
  knows rel m cl -> within (owned cl) live -> quiet c -> spec_step live c r live' -> rel' live' -> call_ok (owned cl) c ->
  contents_kept live live' c m m' -> (forall w v, c = DoStore w v -> m' !! w = Some v) ->
  knows rel' m' (client_after c r cl).
Proof.
  intros Hk Hw Hq Hs Hr Hok Hc Hst. assert (live' = live) as -> by (inversion Hs; subst; done).
  assert (Hown : owned (client_after c r cl) = owned cl) by (destruct c; done). constructor; rewrite Hown; [by exists live |].
  intros w v Hv. destruct (decide (c = DoStore w v)) as [-> | Hne].
  - split; [| by apply Hst]. destruct Hok as (p & n & Hp & ? & ?). exists p, n. split; [done | lia].
  - assert (Hv' : shadow cl !! w = Some v /\ forall v, c <> DoStore w v).
    { destruct c as [| | | | | | | w' v']; try done; cbn in Hv. apply lookup_insert_Some in Hv as [[-> ->] | [Hww Hv]]; [done |].
      split; [done |]. by intros v2 [= -> ->]. }
    destruct Hv' as [Hv' Hn]. destruct (kn_shadow _ _ _ Hk w v Hv') as [Ha _]. split; [done |].
    eapply knows_mem; try done. by eapply within_allocated.
Qed.

(** What leaves the blocks and their words alone changes nothing the clients know. *)
Lemma knows_kept cl rel rel' m m' live : knows rel m cl -> within (owned cl) live -> rel' live ->
  (forall w, allocated live w -> m' !! w = m !! w) -> knows rel' m' cl.
Proof.
  intros [_ Hs] Hw Hr Hc. constructor; [by exists live |]. intros w v Hv. destruct (Hs w v Hv) as [Ha Hm].
  split; [done |]. rewrite Hc; [done | by eapply within_allocated].
Qed.

End Clients.
