(* ===== verification/AmmallocSessions.v ===== *)
(** * Sessions

    The clients of the system whose calls run one at a time: no order of their
    calls and of the scavenger's steps breaks what they know. *)
From S2P Require Import Prelude Config SizeClass FreeList Common Span SpanList Backing PageMap PageCache PageCacheInv.
From S2P Require Import CentralCache CentralInv CentralSteps CentralRelease CentralInit CentralSpec ThreadCache ThreadCacheSpec Ammalloc.
From S2P Require Import AmmallocInv AmmallocSteps AmmallocThreads AmmallocSpec Scavenger ScavengerSteps ScavengerSpec AmmallocServer AmmallocClients.
Open Scope Z_scope.

Section Sessions.
Context {W : Type} `{BackingLaws W} `{StaticLayout} `{CentralLayout} `{!Madvise W} `{!MadviseLaws W}.
Implicit Types (g : Globals W) (u : Server W) (cl : client) (live : gmap Z Z) (G : ghost).

(** ** Sessions *)

Definition server_knows cl u : Prop := knows (fun live => server_rel live u) (sv_mem u) cl.

(** A session: calls by the threads in any order, and steps of the scavenger at any
    time. *)
Inductive session u : Server W -> client -> Prop :=
| session_start : session u u client_new
| session_call u1 cl k c r u2 : session u u1 cl -> (k < length (hp_threads (sv_heap u1)))%nat -> call_ok (owned cl) c ->
    server_exec (Call k c) u1 = Ok (r, u2) -> session u u2 (client_after c r cl)
| session_scavenge u1 cl r u2 : session u u1 cl -> server_exec Scavenge u1 = Ok (r, u2) -> session u u2 cl.

Lemma store_done k w v u r u' : server_exec (Call k (DoStore w v)) u = Ok (r, u') -> sv_mem u' !! w = Some v.
Proof.
  cbn [server_exec]. unfold heap_exec. destruct (hp_threads (sv_heap u) !! k) as [th |]; [| done]. cbn [thread_exec].
  rewrite !bind_Ok_l. intros [= _ <-]. apply lookup_insert_eq.
Qed.

(** What the clients know after an event. *)
Definition after_event (e : event) (r : Z) cl : client := match e with Call _ c => client_after c r cl | Scavenge => cl end.
Definition new_block (e : event) (r : Z) cl : Prop :=
  forall k size, e = Call k (DoMalloc size) -> r <> 0 -> forall w, r <= w < r + size -> ~ allocated (owned cl) w.

Lemma event_ok_within asked live u e : within asked live -> event_ok asked u e -> event_ok live u e.
Proof. intros Hw. destruct e as [k c |]; [| done]. intros [Hk Hc]. split; [done | by eapply call_ok_within]. Qed.

Lemma knows_step cl u e : server_knows cl u -> (0 < length (hp_threads (sv_heap u)))%nat -> event_ok (owned cl) u e ->
  exists r u', server_exec e u = Ok (r, u') /\ server_knows (after_event e r cl) u' /\
    length (hp_threads (sv_heap u')) = length (hp_threads (sv_heap u)) /\ new_block e r cl.
Proof.
  intros Hk Hlt Hok. destruct (kn_live _ _ _ Hk) as (live & Hrel & Hw).
  destruct (server_exec_ok live u e Hrel Hlt (event_ok_within _ _ _ _ Hw Hok)) as (r & u' & Heq & Hlen & live' & Hs & Hr & Hc).
  exists r, u'. split; [done |]. destruct e as [k c |]; cbn [event_spec event_contents after_event] in *.
  - destruct Hok as [Hkt Hok]. split; [| split; [done |]].
    + destruct (decide (quiet c)) as [Hq |]; [| destruct c as [size | p | | | | | |]; try (exfalso; by cbn in *)].
      * eapply knows_quiet; try done. intros w v ->. by eapply store_done.
      * by eapply knows_malloc.
      * by eapply knows_free.
    + intros k' size [= -> ->] Hnz w Hw' Ha. inversion Hs as [| sz q len Hq Hle Hpos Hfr | |]; subst; try done.
      apply (Hfr w); [lia | by eapply within_allocated].
  - subst live'. split; [eapply knows_kept; [exact Hk | exact Hw | exact Hr | exact Hc] |]. by split.
Qed.

Definition server_new (n : nat) g (cfg : RuntimeConfig) : Server W := mkServer (heap_new n g cfg) (fun _ => 0) Resting.

Lemma server_new_rel n g cfg G : cc_inv (gl_central g) G none_held ∅ -> tidy G -> server_rel ∅ (server_new n g cfg).
Proof. intros Hi Ht. exists ∅. split; [by eapply heap_new_rel | done]. Qed.

Lemma server_new_knows n g cfg G : cc_inv (gl_central g) G none_held ∅ -> tidy G -> server_knows client_new (server_new n g cfg).
Proof.
  intros Hi Ht. constructor.
  - exists ∅. split; [by eapply server_new_rel |]. split; [done |]. intros p m len Hp.
    change (owned client_new) with (∅ : gmap Z Z) in Hp. by apply lookup_empty_Some in Hp.
  - intros w v Hv. change (shadow client_new) with (∅ : gmap Z Z) in Hv. by apply lookup_empty_Some in Hv.
Qed.

Lemma session_knows n g cfg G u cl :
  cc_inv (gl_central g) G none_held ∅ -> tidy G -> session (server_new (S n) g cfg) u cl ->
  length (hp_threads (sv_heap u)) = S n /\ server_knows cl u.
Proof.
  intros Hi Ht Hses. induction Hses as [| u1 cl1 k c r u2 Hs IH Hk Hok Hex | u1 cl1 r u2 Hs IH Hex].
  - split; [apply length_replicate | by eapply server_new_knows].
  - destruct IH as [Hlen Hkn]. destruct (knows_step cl1 u1 (Call k c) Hkn) as (r' & u' & Heq & Hkn' & Hlen' & _); [lia | done |].
    rewrite Heq in Hex. injection Hex as <- <-. split; [congruence | done].
  - destruct IH as [Hlen Hkn]. destruct (knows_step cl1 u1 Scavenge Hkn) as (r' & u' & Heq & Hkn' & Hlen' & _); [lia | done |].
    rewrite Heq in Hex. injection Hex as <- <-. split; [congruence | done].
Qed.

(** Whatever the clients do, the allocator keeps its promise.  Start any
    number of threads on a fresh allocator and let them call the public
    interface in any order, exit, free each other's blocks and write to the
    blocks they own, as long as they free only blocks they own and write inside
    the sizes they asked for, while the scavenger runs its passes, a step at a
    time, between any two calls.  Then in every state reached: the blocks owned
    are at least as long as asked and do not overlap, every word holds what was
    last stored there, and the next event, a call of any thread or a step of the
    scavenger, completes, a new block overlapping nothing that is owned. *)
Theorem session_safety n g cfg G u cl :
  cc_inv (gl_central g) G none_held ∅ -> tidy G -> session (server_new (S n) g cfg) u cl ->
  length (hp_threads (sv_heap u)) = S n /\ server_knows cl u /\
  (forall p q a b, owned cl !! p = Some a -> owned cl !! q = Some b -> p <> q -> p + a <= q \/ q + b <= p) /\
  forall e, event_ok (owned cl) u e -> exists r u', server_exec e u = Ok (r, u') /\ new_block e r cl.
Proof.
  intros Hi Ht Hses. destruct (session_knows n g cfg G u cl Hi Ht Hses) as [Hlen Hkn]. split; [done |]. split; [done |]. split.
  - intros p q a b Hp Hq Hne. destruct (kn_live _ _ _ Hkn) as (live & (Vs & Hrel & _) & Hw).
    destruct (heap_disjoint Vs live (sv_heap u) 0 Hrel) as [Hd _]; [lia |].
    destruct (within_lookup _ _ _ _ Hw Hp) as (l & Hl & ?). destruct (within_lookup _ _ _ _ Hw Hq) as (m & Hm & ?).
    destruct (Hd p q l m Hl Hm Hne); [left | right]; lia.
  - intros e Hok. destruct (knows_step cl u e Hkn) as (r & u' & Heq & _ & _ & Hf); [lia | done |]. by exists r, u'.
Qed.

(** The allocator with its scavenger refines the abstract allocator, a map from
    the addresses of the live blocks to their lengths.  In every state related
    to such a map, every call a client may make, on any of the threads, and
    every step of the scavenger completes; a call's effect on the live blocks is
    a step of the abstract allocator (a new block is nonempty, at least as long
    as asked, and overlaps no live block; the freed block is gone; nothing else
    changes them), the scavenger's step is none; the new state is related to the
    new map, and every word of the blocks that were and stay live keeps its
    value, but for the client's own store. *)
Theorem server_refines live u e :
  server_rel live u -> (0 < length (hp_threads (sv_heap u)))%nat -> event_ok live u e ->
  exists r u', server_exec e u = Ok (r, u') /\ length (hp_threads (sv_heap u')) = length (hp_threads (sv_heap u)) /\
    exists live', event_spec live e r live' /\ server_rel live' u' /\ event_contents live live' e (sv_mem u) (sv_mem u').
Proof. apply server_exec_ok. Qed.

(** A pass nobody interrupts ends, and is the function [ScavengeOnePass]: from
    every state in which the scavenger rests, some number of its steps alone
    bring it back to rest, in the state and with the telemetry the function
    computes, with as much fuel for each loop as there are descriptors. *)
Theorem pass_uninterrupted live u :
  server_rel live u -> (0 < length (hp_threads (sv_heap u)))%nat -> sv_phase u = Resting -> am_started (hp_process (sv_heap u)) = true ->
  let fuel := size (sc_spans (sv_scavenged u)) in
  exists n x, scavenger_steps n fuel u = Ok (sv_put u x Resting) /\ ScavengeOnePass fuel (sv_scavenged u) = Ok x.
Proof.
  intros (Vs & (P & G & Cs & Hd & V & Hsys & _ & _) & _) Hlt Hph Hst fuel.
  destruct (sys_central _ _ _ _ _ _ Hsys Hlt) as (Hi & _ & _).
  destruct (ScavengeOnePass_ok (H1 := reserve_laws P) fuel (sv_scavenged u) G _ _ Hi) as (x & G' & Heq & _);
    [exact (store_size (H1 := reserve_laws P) _ _ _ _ Hi) |].
  destruct (pass_reaches fuel u x Hph Hst Heq) as [n Hn]. by exists n, x.
Qed.
End Sessions.

(** ** Concrete runs *)

Section Sample.
#[local] Existing Instance release_build.
#[local] Existing Instance bump_backing.
#[local] Existing Instance bump_laws.
#[local] Existing Instance sample_layout.
#[local] Existing Instance sample_central_layout.
#[local] Existing Instance agreeing.
#[local] Existing Instance agreeing_laws.

Definition sample_server : Server Z := server_new 2 sample_globals RuntimeConfig_default.

Lemma sample_server_rel : server_rel (H1 := bump_laws) ∅ sample_server.
Proof. destruct sample_thread_inv as (G & Hcc & Htd & _). by apply (server_new_rel (H1 := bump_laws) 2 _ _ G). Qed.

(** Thread 0 allocates, which starts the scavenger; a pass begins; thread 1 writes
    to the block. *)
Definition sample_first : Z * Server Z := got (server_exec (Call 0 (DoMalloc 40)) sample_server) (0, sample_server).
Definition sample_scan : Z * Server Z := got (server_exec Scavenge sample_first.2) sample_first.
Definition sample_store : Z * Server Z := got (server_exec (Call 1 (DoStore sample_first.1 7)) sample_scan.2) sample_scan.

Lemma session_next u u1 cl k c d : session u u1 cl -> (k <? length (hp_threads (sv_heap u1)))%nat = true -> call_ok (owned cl) c ->
  is_Ok (server_exec (Call k c) u1) = true ->
  session u (got (server_exec (Call k c) u1) d).2 (client_after c (got (server_exec (Call k c) u1) d).1 cl).
Proof.
  intros Hs Hk Hc Hok. apply (session_call u u1 cl k c); [exact Hs | by apply Nat.ltb_lt | exact Hc |].
  rewrite (got_Ok _ d Hok) at 1. by destruct (got _ _).
Qed.
Lemma session_next_scan u u1 cl d : session u u1 cl -> is_Ok (server_exec Scavenge u1) = true -> session u (got (server_exec Scavenge u1) d).2 cl.
Proof.
  intros Hs Hok. apply (session_scavenge u u1 cl (got (server_exec Scavenge u1) d).1); [exact Hs |].
  rewrite (got_Ok _ d Hok) at 1. by destruct (got _ _).
Qed.

Lemma sample_session : session sample_server sample_store.2 (mkClient {[sample_first.1 := 40]} {[sample_first.1 := 7]}).
Proof.
  pose proof (session_next sample_server sample_server client_new 0 (DoMalloc 40) (0, sample_server) (session_start _)) as S1.
  fold sample_first in S1. replace (client_after _ _ _) with (mkClient {[sample_first.1 := 40]} ∅) in S1.
  2: { cbn [client_after]. rewrite decide_False; [reflexivity |]. by vm_compute. }
  assert (S2 : session sample_server sample_scan.2 (mkClient {[sample_first.1 := 40]} ∅)).
  { refine (session_next_scan sample_server sample_first.2 _ sample_first (S1 _ _ _) _); [by vm_compute | split; by vm_compute | by vm_compute | by vm_compute]. }
  refine (session_next sample_server sample_scan.2 _ 1 (DoStore sample_first.1 7) sample_scan S2 _ _ _).
  - by vm_compute.
  - exists sample_first.1, 40. split; [apply lookup_singleton_eq | lia].
  - by vm_compute.
Qed.

Lemma server_refines_witness :
  exists r u', server_exec (Call 1 (DoMalloc 40)) sample_server = Ok (r, u') /\ length (hp_threads (sv_heap u')) = 2%nat /\
    exists live', event_spec ∅ (Call 1 (DoMalloc 40)) r live' /\ server_rel (H1 := bump_laws) live' u' /\
      event_contents ∅ live' (Call 1 (DoMalloc 40)) (sv_mem sample_server) (sv_mem u').
Proof. apply (server_refines (H1 := bump_laws) ∅ sample_server _ sample_server_rel); [cbn; lia | split; [cbn; lia | done]]. Defined.

(** A large block freed, and the largest bucket scavenged at 20 s while thread 1
    allocates with its run in the kernel's hands: the telemetry, and that the
    bucket's run is back and decommitted. *)
Definition sample_interleaved : outcome (Z * Z * Z * bool) :=
  '(p, u) ← server_exec (Call 0 (DoMalloc 100000)) sample_server;
  '(_, u) ← server_exec (Call 0 (DoFree p)) u;
  '(_, u) ← server_exec Scavenge (mkServer (sv_heap u) (sv_stats u) (Scanning 20000 MAX_PAGE_NUM));
  '(_, u) ← server_exec Scavenge u;
  '(q, u) ← server_exec (Call 1 (DoMalloc 100000)) u;
  '(_, u) ← server_exec Scavenge u;
  '(_, u) ← server_exec Scavenge u;
  a ← sl_begin (sc_spans (sv_scavenged u)) (list_head MAX_PAGE_NUM);
  d ← get_span (sc_spans (sv_scavenged u)) a;
  Ok (sv_stats u scavenged_spans, sv_stats u scavenged_bytes, Z.abs (q - p), IsCommitted d).

Lemma session_safety_witness :
  (let cl := mkClient {[sample_first.1 := 40]} {[sample_first.1 := 7]} in let u := sample_store.2 in
  length (hp_threads (sv_heap u)) = 2%nat /\ server_knows (H1 := bump_laws) cl u /\
  (forall p q a b, owned cl !! p = Some a -> owned cl !! q = Some b -> p <> q -> p + a <= q \/ q + b <= p) /\
  forall e, event_ok (owned cl) u e -> exists r u', server_exec e u = Ok (r, u') /\ new_block e r cl) /\
  sample_interleaved = Ok (1, 524288, 544768, false).
Proof.
  split; [| by vm_compute].
  destruct sample_thread_inv as (G & Hcc & Htd & _).
  exact (session_safety (H1 := bump_laws) 1 sample_globals RuntimeConfig_default G _ _ Hcc Htd sample_session).
Defined.

Lemma sample_first_rel : exists live, server_rel (H1 := bump_laws) live sample_first.2 /\ (0 < length (hp_threads (sv_heap sample_first.2)))%nat.
Proof.
  destruct (server_exec_ok (H1 := bump_laws) ∅ sample_server (Call 0 (DoMalloc 40)) sample_server_rel) as (r & u & Heq & Hlen & live & _ & Hrel & _);
    [cbn; lia | split; [cbn; lia | done] |].
  exists live. unfold sample_first. rewrite Heq. cbn [got snd]. split; [exact Hrel |]. rewrite Hlen. cbn. lia.
Qed.

Lemma pass_uninterrupted_witness :
  let u := sample_first.2 in let fuel := size (sc_spans (sv_scavenged u)) in
  exists n x, scavenger_steps n fuel u = Ok (sv_put u x Resting) /\ ScavengeOnePass fuel (sv_scavenged u) = Ok x.
Proof.
  destruct sample_first_rel as (live & Hrel & Hlt).
  apply (pass_uninterrupted (H1 := bump_laws) live sample_first.2 Hrel Hlt); by vm_compute.
Defined.
End Sample.
