(* ===== verification/AmmallocCalls.v ===== *)
(** * The public interface, one critical section at a time

    [am_malloc], [am_free] and the other entry points (ammalloc.cpp) as programs on
    the process: a [Yield] wherever the thread is about to take a lock or to read
    or write a word it shares.  A call that nobody interrupts is the call of
    Ammalloc. *)
From S2P Require Import Prelude Config SizeClass FreeList Common Span SpanList Backing PageMap PageCache CentralCache.
From S2P Require Import ThreadCache Ammalloc AmmallocThreads Sections CentralCalls ThreadCalls.
Open Scope Z_scope.

#[export] Instance process_view {W} : View (Process W) (Globals W) := {| view := am_globals; put := with_globals |}.
#[export] Instance process_view_laws {W} : ViewLaws (Process W) (Globals W).
Proof. by constructor; intros []. Qed.

Section Programs.
Context `{Build} `{StaticLayout} `{CentralLayout} {W : Type} `{Backing W}.
Implicit Types (th : Thread) (pr : Process W) (g : Globals W).
Local Abbreviation prog := (prog (Process W)).

Definition globals {A} (p : Sections.prog (Globals W) A) : prog A := within_view p.

(** ** Thread caches *)

Definition CreateThreadCache_sections th : Sections.prog (Globals W) (option (Z * ThreadCache)) :=
  if g_ThreadCacheAlreadyDestructed th then Ret None
  else match ptls th with
  | Some tc => Ret (Some tc)
  | None =>
      ptr ← Yield (act (fun g =>
        '(ptr, w) ← bk_SystemAlloc tc_page_num (pc_w (pages_of g));
        Ok (ptr, with_page_cache g (with_w (pages_of g) w))));
      if ptr =? 0 then Ret None
      else t ← Yield (act (fun g => Ok (ThreadCache_new kDefaultCacheBudgetBytes g))); Ret (Some (ptr, t))
  end.

Definition ReleaseThreadCache_sections (tc : option (Z * ThreadCache)) : Sections.prog (Globals W) () :=
  match tc with
  | None => Ret ()
  | Some (ptr, t) =>
      _ ← doing (ThreadCache_destroy t);
      Yield (doing (fun g => p ← system_free (pages_of g) ptr tc_page_num; Ok (with_page_cache g p)))
  end.

Definition ThreadCacheCleaner_sections th : prog Thread :=
  match ptls th with
  | None => Ret (mkThread None true)
  | Some (ptr, t) =>
      t ← globals (ReleaseAll_sections t);
      _ ← globals (ReleaseThreadCache_sections (Some (ptr, t)));
      Ret (mkThread None true)
  end.

Definition EnsureScavengerStarted_section : prog () := Yield (doing (fun pr => Ok (EnsureScavengerStarted pr))).

(** ** Allocation *)

Definition thread_allocate_sections th (ptr : Z) (t : ThreadCache) (original_size : Z) : prog (Z * Thread) :=
  '(p, t) ← globals (Allocate_sections t original_size);
  Ret (p, mkThread (Some (ptr, t)) (g_ThreadCacheAlreadyDestructed th)).

(** A span for a large request, under the page cache's lock. *)
Definition alloc_span (page_num : Z) pr : outcome (Z * Process W) :=
  '(span, p) ← AllocSpan (pages_of (am_globals pr)) page_num;
  Ok (span, with_globals pr (with_page_cache (am_globals pr) p)).

Definition am_malloc_slow_path_sections th (original_size : Z) : prog (Z * Thread) :=
  _ ← EnsureScavengerStarted_section;
  if MAX_TC_SIZE <? original_size
  then
    if kMaxRequestBytes <? original_size then Ret (0, th)
    else
      let aligned_size := AlignUp original_size PAGE_SIZE in
      let page_num := Z.shiftr aligned_size PAGE_SHIFT in
      span ← Yield (act (alloc_span page_num));
      if span =? 0 then Ret (0, th)
      else d ← Yield (reading (fun pr => get_span (pc_spans (pages_of (am_globals pr))) span)); Ret (GetPageBaseAddr d, th)
  else
    match ptls th with
    | Some (ptr, t) => thread_allocate_sections th ptr t original_size
    | None =>
        tc ← globals (CreateThreadCache_sections th);
        match tc with
        | None => Ret (0, mkThread None (g_ThreadCacheAlreadyDestructed th))
        | Some (ptr, t) => thread_allocate_sections th ptr t original_size
        end
    end.

Definition am_malloc_sections th (original_size : Z) : prog (Z * Thread) :=
  match ptls th with
  | None => am_malloc_slow_path_sections th original_size
  | Some (ptr, t) =>
      if MAX_TC_SIZE <? original_size then am_malloc_slow_path_sections th original_size
      else thread_allocate_sections th ptr t original_size
  end.

(** ** Release *)

Definition thread_deallocate_sections th (ptr : Z) (t : ThreadCache) (p idx : Z) : prog Thread :=
  t ← globals (Deallocate_sections t p idx);
  Ret (mkThread (Some (ptr, t)) (g_ThreadCacheAlreadyDestructed th)).

(** A single object past the thread caches. *)
Definition release_single_sections (ptr idx : Z) : Sections.prog (Globals W) () :=
  b ← act (fun g => '(b, m) ← FromSingleObject (central_mem g) ptr idx; Ok (b, with_words g m));
  central (ReleaseBatch_sections b kTransferCache).

Definition am_free_slow_path_sections th (ptr span aligned_size idx : Z) : prog Thread :=
  if aligned_size =? 0
  then
    d ← reading (fun pr => get_span (pc_spans (pages_of (am_globals pr))) span);
    _ ← pure (AM_HCHECK (ptr =? GetPageBaseAddr d) "Invalid large-object pointer.");
    _ ← Yield (doing (fun pr =>
      p ← ReleaseSpan (pages_of (am_globals pr)) span; Ok (with_globals pr (with_page_cache (am_globals pr) p))));
    Ret th
  else
    match ptls th with
    | Some (a, t) => thread_deallocate_sections th a t ptr idx
    | None =>
        tc ← globals (CreateThreadCache_sections th);
        match tc with
        | None => _ ← globals (release_single_sections ptr idx); Ret (mkThread None (g_ThreadCacheAlreadyDestructed th))
        | Some (a, t) => thread_deallocate_sections th a t ptr idx
        end
    end.

(** The lookup in the page map takes no lock, nor does reading the descriptor,
    whose fields do not change while the block is live: one moment. *)
Definition am_free_sections th (ptr : Z) : prog Thread :=
  if ptr =? 0 then Ret th
  else
    span ← Yield (reading (fun pr => GetSpanOfPtr (pc_map (pages_of (am_globals pr))) ptr));
    if span =? 0 then Ret th
    else
      d ← reading (fun pr => get_span (pc_spans (pages_of (am_globals pr))) span);
      _ ← pure (AM_HCHECK (IsUsed d) "Pointer belongs to a released Span.");
      let page_idx := Z.shiftr ptr PAGE_SHIFT in
      _ ← pure (AM_HCHECK ((start_page_idx d <=? page_idx) && (u64 (page_idx - start_page_idx d) <? page_num d))
                  "Pointer lies outside the mapped Span.");
      let aligned_size := aligned_obj_size d in
      let idx := size_class_idx d in
      _ ← pure (AM_HCHECK ((aligned_size =? 0) || ((idx <? kNumSizeClasses) && (Size idx =? aligned_size)))
                  "Corrupted Span size-class metadata.");
      match ptls th with
      | Some (a, t) =>
          if aligned_size =? 0 then am_free_slow_path_sections th ptr span aligned_size idx
          else
            _ ← pure (AM_HCHECK (negb (ObjectSlotOf d ptr =? SIZE_MAX)) "Invalid small-object pointer.");
            thread_deallocate_sections th a t ptr idx
      | None => am_free_slow_path_sections th ptr span aligned_size idx
      end.

(** ** Trimming *)

Definition am_thread_cache_trim_sections th : prog Thread :=
  match ptls th with
  | None => Ret th
  | Some (a, t) =>
      t ← globals (HandleGlobalTrimRequest_sections t);
      t ← globals (Trim_sections t kReuse kDefaultTrimTargetBytes);
      Ret (mkThread (Some (a, t)) (g_ThreadCacheAlreadyDestructed th))
  end.

Definition drain_central_sections (max_bytes : Z) : prog () :=
  _ ← globals (central (DrainTransferCaches_sections max_bytes)); Ret ().

Definition am_thread_cache_purge_sections th : prog Thread :=
  th ← (match ptls th with
        | None => Ret th
        | Some (a, t) =>
            t ← globals (Trim_sections t kRelease 0);
            Ret (mkThread (Some (a, t)) (g_ThreadCacheAlreadyDestructed th))
        end);
  _ ← drain_central_sections SIZE_MAX;
  Ret th.

(** The compare-exchange that succeeds. *)
Definition request_section (mode : ThreadCacheTrimMode) : prog () :=
  Yield (doing (fun pr => Ok (with_globals pr (RequestGlobalTrim (am_globals pr) mode)))).

(** ** Every call of a thread *)

Definition thread_sections (c : call) th : prog (Z * Thread) :=
  match c with
  | DoMalloc size => am_malloc_sections th size
  | DoFree p => th ← am_free_sections th p; Ret (0, th)
  | DoTrim => th ← am_thread_cache_trim_sections th; Ret (0, th)
  | DoPurge => th ← am_thread_cache_purge_sections th; Ret (0, th)
  | DoRequestTrim => _ ← request_section kReuse; Ret (0, th)
  | DoRequestPurge =>
      _ ← request_section kRelease;
      _ ← drain_central_sections kCooperativeTransferDrainBytes; Ret (0, th)
  | DoExit => th ← ThreadCacheCleaner_sections th; Ret (0, th)
  | DoStore w v => _ ← doing (fun pr => Ok (client_store pr w v)); Ret (0, th)
  end.
End Programs.

(** ** A call that nobody interrupts *)

Section Uninterrupted.
Context `{Build} `{StaticLayout} `{CentralLayout} {W : Type} `{Backing W}.
Implicit Types (th : Thread) (pr : Process W) (g : Globals W).

Lemma alone_globals {A} (p : prog (Globals W) A) pr :
  alone (globals p) pr = '(a, g) ← alone p (am_globals pr); Ok (a, with_globals pr g).
Proof. exact (alone_view p pr). Qed.

Lemma alone_Create th g : alone (CreateThreadCache_sections th) g = CreateThreadCache th g.
Proof.
  unfold CreateThreadCache_sections, CreateThreadCache. destruct (g_ThreadCacheAlreadyDestructed th); [done |].
  destruct (ptls th); [done |]. run. destruct (_ =? 0); [done |]. run.
Qed.

Lemma alone_ReleaseThreadCache tc g : alone (ReleaseThreadCache_sections tc) g = (g ← ReleaseThreadCache tc g; Ok ((), g)).
Proof. unfold ReleaseThreadCache_sections, ReleaseThreadCache. destruct tc as [[ptr t] |]; [run | done]. Qed.

Lemma alone_Cleaner th pr : alone (ThreadCacheCleaner_sections th) pr = ThreadCacheCleaner_destroy th pr.
Proof.
  unfold ThreadCacheCleaner_sections, ThreadCacheCleaner_destroy. destruct (ptls th) as [[ptr t] |]; [| done].
  rewrite alone_bind, alone_globals, alone_ReleaseAll. run. rewrite alone_globals, alone_ReleaseThreadCache. cbn [am_globals with_globals]. run.
Qed.

Lemma alone_thread_allocate th ptr t size pr : alone (thread_allocate_sections th ptr t size) pr =
  ('(p, th, pr) ← thread_allocate th pr ptr t size; Ok (p, th, pr)).
Proof. unfold thread_allocate_sections, thread_allocate. rewrite alone_bind, alone_globals, alone_Allocate. run. Qed.

Lemma alone_malloc_slow th size pr : alone (am_malloc_slow_path_sections th size) pr =
  ('(p, th, pr) ← am_malloc_slow_path th pr size; Ok (p, th, pr)).
Proof.
  unfold am_malloc_slow_path_sections, am_malloc_slow_path, EnsureScavengerStarted_section, alloc_span. run. destruct (MAX_TC_SIZE <? size).
  - destruct (_ <? size); [done |]. run. destruct (_ =? 0); [done |]. run.
    change (pages_of (am_globals (with_globals _ (with_page_cache _ p)))) with p. run.
  - destruct (ptls th) as [[ptr t] |]; [apply alone_thread_allocate |]. rewrite alone_bind, alone_globals, alone_Create. run.
    destruct o as [[ptr t] |]; [apply alone_thread_allocate | done].
Qed.

Lemma alone_malloc th size pr : alone (am_malloc_sections th size) pr = ('(p, th, pr) ← am_malloc th pr size; Ok (p, th, pr)).
Proof.
  unfold am_malloc_sections, am_malloc. destruct (ptls th) as [[ptr t] |]; [| apply alone_malloc_slow].
  destruct (_ <? size); [apply alone_malloc_slow | apply alone_thread_allocate].
Qed.

Lemma alone_thread_deallocate th ptr t p idx pr :
  alone (thread_deallocate_sections th ptr t p idx) pr = thread_deallocate th pr ptr t p idx.
Proof. unfold thread_deallocate_sections, thread_deallocate. rewrite alone_bind, alone_globals, alone_Deallocate. run. Qed.

Lemma alone_release_single p idx g : alone (release_single_sections p idx) g =
  ('(b, m) ← FromSingleObject (central_mem g) p idx;
   s ← ReleaseBatch (with_mem (gl_central g) m) b kTransferCache; Ok ((), with_central g s)).
Proof. unfold release_single_sections. run. by rewrite alone_release. Qed.

Lemma alone_free_slow th p span size idx pr :
  alone (am_free_slow_path_sections th p span size idx) pr = am_free_slow_path th pr p span size idx.
Proof.
  unfold am_free_slow_path_sections, am_free_slow_path. destruct (size =? 0); [run |].
  destruct (ptls th) as [[a t] |]; [apply alone_thread_deallocate |]. rewrite alone_bind, alone_globals, alone_Create. run.
  destruct o as [[a t] |]; [apply alone_thread_deallocate |]. rewrite alone_bind, alone_globals, alone_release_single.
  cbn [am_globals with_globals]. run.
Qed.

Lemma alone_free th p pr : alone (am_free_sections th p) pr = am_free th pr p.
Proof.
  unfold am_free_sections, am_free. destruct (p =? 0); [done |]. run. destruct (_ =? 0); [done |]. run.
  destruct (ptls th) as [[a t] |]; [| apply alone_free_slow]. destruct (aligned_obj_size _ =? 0); [apply alone_free_slow |].
  run. apply alone_thread_deallocate.
Qed.

Lemma alone_trim th pr : alone (am_thread_cache_trim_sections th) pr = am_thread_cache_trim th pr.
Proof.
  unfold am_thread_cache_trim_sections, am_thread_cache_trim. destruct (ptls th) as [[a t] |]; [| done].
  rewrite alone_bind, alone_globals, alone_Handle. run. rewrite alone_globals, alone_Trim. cbn [am_globals with_globals]. run.
Qed.

Lemma alone_drain mb pr : alone (drain_central_sections mb) pr = (g ← drain_central (am_globals pr) mb; Ok ((), with_globals pr g)).
Proof.
  unfold drain_central_sections, drain_central. rewrite alone_bind, alone_globals, alone_central, alone_DrainTransferCaches. run.
Qed.

Lemma alone_purge th pr : alone (am_thread_cache_purge_sections th) pr = am_thread_cache_purge th pr.
Proof.
  unfold am_thread_cache_purge_sections, am_thread_cache_purge. rewrite alone_bind. destruct (ptls th) as [[a t] |].
  - rewrite alone_bind, alone_globals, alone_Trim. run. rewrite alone_drain. cbn [am_globals with_globals]. run.
  - run. rewrite alone_drain. run.
Qed.

(** The programs compute what the calls compute. *)
Lemma alone_thread c th pr : alone (thread_sections c th) pr = ('(r, th, pr) ← thread_exec c th pr; Ok (r, th, pr)).
Proof.
  destruct c as [size | p | | | | | | w v]; cbn [thread_sections thread_exec]; [apply alone_malloc | | | | run | | | run]; rewrite alone_bind.
  - rewrite alone_free. run.
  - rewrite alone_trim. run.
  - rewrite alone_purge. run.
  - unfold request_section, am_request_thread_cache_purge. run. rewrite alone_drain. cbn [am_globals with_globals]. run.
  - rewrite alone_Cleaner. run.
Qed.
End Uninterrupted.
