(* ===== verification/AmmallocCallsInv.v ===== *)
(** * The public calls while others are in flight

    Every entry point, one critical section at a time, on what its thread owns: its
    cache with the pages it lives on, and the block handed in.  The call ends with
    what its thread owns then, and the block handed out. *)
From S2P Require Import Prelude Config SizeClass FreeList Common Span SpanList Backing PageMap PageCache PageCacheInv.
From S2P Require Import CentralCache CentralInv CentralSteps CentralRelease CentralFetch ThreadCache ThreadCacheInv ThreadCacheFree.
From S2P Require Import Ammalloc AmmallocInv AmmallocSteps AmmallocThreads.
From S2P Require Import Sections CentralCalls CentralShares CentralCallsRelease CentralCallsFetch.
From S2P Require Import ThreadCalls ThreadShares ThreadCallsTrim ThreadCallsAlloc AmmallocCalls.
Open Scope Z_scope.

Section Calls.
Context {W : Type} `{BackingLaws W} `{StaticLayout} `{CentralLayout}.
Implicit Types (s : CentralCache W) (g : Globals W) (t : ThreadCache) (th : Thread) (pr : Process W).
Implicit Types (G : ghost) (V : runs) (Hd : held) (C : Z -> list Z) (P : gset Z) (R o : share).

(** ** What a thread owns *)

(** Its cache, if it has one, with the page the cache lives on. *)
Definition cache_own (tc : option (Z * ThreadCache)) o g : Prop :=
  match tc with
  | None => o = empty_handed
  | Some (a, t) => (exists C, tc_own t calm C (own_page a) o g) /\ cache_page (own_page a) a
  end.
Definition thread_own th o pr : Prop := cache_own (ptls th) o (am_globals pr).

Lemma cache_own_quiet tc o g g' : own_quiet o g g' -> cache_own tc o g -> cache_own tc o g'.
Proof. destruct tc as [[a t] |]; [| done]. intros Hq [[C Ho] Hp]. split; [| done]. exists C. by eapply tc_own_quiet. Qed.
Lemma thread_own_quiet th o pr pr' : own_quiet o pr pr' -> thread_own th o pr -> thread_own th o pr'.
Proof. apply cache_own_quiet. Qed.

(** A block of [len] bytes at [p]. *)
Inductive block_own : Z -> Z -> share -> Process W -> Prop :=
| own_small idx p pr : is_class idx -> block_own p (Size idx) (hand idx [p] ∅) pr
| own_large a st n d pr : cc_spans (gl_central (am_globals pr)) !! a = Some d -> aligned_obj_size d = 0 ->
    block_own (st * PAGE_SIZE) (n * PAGE_SIZE) (run_of a st n) pr.

Lemma block_own_quiet p len o pr pr' : own_quiet o pr pr' -> block_own p len o pr -> block_own p len o pr'.
Proof.
  intros Hq Hb. destruct Hb as [| a st n d pr Hd Ha]; [by constructor |]. econstructor; [| exact Ha]. rewrite <- Hd. apply Hq.
  cbn. rewrite dom_singleton_L. set_solver.
Qed.

Lemma wp_globals {A} (p : prog (Globals W) A) Q R pr0 pr : wp p Q R (am_globals pr0) (am_globals pr) ->
  wp (globals p) (fun a o pr => Q a o (am_globals pr)) R pr0 pr.
Proof. intros Hp. exact (wp_view p Q R pr0 pr Hp). Qed.

(** ** Creating and releasing a cache *)

(** Pages set aside. *)
Definition pages_share P : share := mkShare ∅ ∅ P.

Lemma at_rest_pages R P s0 s : at_rest R (pages_share P) s0 s <->
  (exists G, cc_inv (H1 := reserve_laws (sh_pages R ∪ P)) s G (held_of (sh_objs R)) (sh_runs R) /\ tidy G) /\
  sh_pages R ## P /\ undisturbed (held_of (sh_objs R)) (sh_runs R) s0 s.
Proof.
  rewrite at_rest_beside. split.
  - intros (G & [Hi Ht DO DR DP Hu]). cbn in *. rewrite map_union_empty, union_empty_r_L in Hi. split; [by exists G | done].
  - intros ((G & Hi & Ht) & DP & Hu). exists G. constructor; cbn; try done; [| apply map_disjoint_empty_r].
    by rewrite map_union_empty, union_empty_r_L.
Qed.

Lemma thread_share_none C P : (forall i, is_class i -> C i = []) -> thread_share C P = pages_share P.
Proof.
  intros HC. unfold thread_share, pages_share. f_equal. apply set_eq. intros [i x]. rewrite elem_of_objs, elem_of_empty.
  split; [| done]. intros [Hi Hx]. rewrite HC in Hx by done. by apply not_elem_of_nil in Hx.
Qed.

Lemma wp_Create R th g0 g : ptls th = None -> at_rest R empty_handed g0 g ->
  wp (CreateThreadCache_sections th) cache_own R g0 g.
Proof.
  intros Hnone Hr. unfold CreateThreadCache_sections. rewrite Hnone. destruct (g_ThreadCacheAlreadyDestructed th); [by eapply wp_ret |].
  eapply wp_yield_then; [exact Hr |]. intros R1 g1 Hr1 _.
  apply (at_rest_pages R1 ∅ (gl_central g1) (gl_central g1)) in Hr1 as ((G & Hcc & Htd) & _ & Hu). rewrite union_empty_r_L in Hcc.
  destruct (cc_inv_reserved _ _ _ _ _ Hcc) as [Hdis Hrep].
  destruct (bk_alloc_ok _ _ _ _ tc_page_num Hrep ltac:(rewrite tc_page_num_val; lia)) as (p & w' & Halloc & Hcase).
  eapply wp_act_then; [unfold pages_of; by rewrite Halloc |]. set (g2 := with_page_cache _ _).
  assert (Hu2 : undisturbed (held_of (sh_objs R1)) (sh_runs R1) (gl_central g1) (gl_central g2)) by by constructor.
  destruct Hcase as [[-> Hr'] | (pid & -> & H0n & Hpid & Hlim & Hfr & Hr')].
  - change (0 =? 0) with true. cbn iota. eapply wp_ret; [| done]. apply (at_rest_pages R1 ∅ (gl_central g1) (gl_central g2)).
    rewrite union_empty_r_L. split; [| split; [apply disjoint_empty_r | done]]. exists G. split; [by eapply cc_inv_relaw | done].
  - rewrite (proj2 (Z.eqb_neq _ 0)) by (unfold PAGE_SIZE; lia).
    assert (Hr2 : at_rest R1 (pages_share (pages pid tc_page_num)) g1 g2).
    { apply (at_rest_pages R1 _ (gl_central g1) (gl_central g2)). split; [| split; [clear - Hfr; set_solver | done]]. exists G. split; [| done].
      eapply cc_inv_relaw; [exact Hcc | clear - Hdis Hfr; set_solver |].
      by replace (g_R G ∪ (sh_pages R1 ∪ pages pid tc_page_num)) with (g_R G ∪ sh_pages R1 ∪ pages pid tc_page_num) by (clear; set_solver). }
    eapply wp_yield_then; [exact Hr2 |]. intros R3 g3 Hr3 _. apply (at_rest_pages R3 _ (gl_central g3) (gl_central g3)) in Hr3 as ((G3 & Hcc3 & Htd3) & HP3 & Hu3).
    destruct (ThreadCache_new_ok (H1 := reserve_laws (sh_pages R3 ∪ pages pid tc_page_num)) kDefaultCacheBudgetBytes g3 G3 _ _ Hcc3 Htd3)
      as (t & g4 & Hnew & Hinv & _ & Hc & _); [unfold kDefaultCacheBudgetBytes; lia |].
    eapply wp_act_then; [by rewrite Hnew |].
    assert (Ha : tc_at R3 (own_page (pid * PAGE_SIZE)) t calm (fun _ => []) g3 g4).
    { rewrite own_page_eq. constructor; [by exists G3 | done |]. rewrite Hc. exact Hu3. }
    apply tc_at_rest in Ha as [Hr4 Ho4]. eapply wp_ret; [exact Hr4 |]. split; [by eexists |]. exists pid. by rewrite own_page_eq.
Qed.

Lemma wp_ReleaseCache R a t C g0 g : tc_at R (own_page a) t calm C g0 g -> cache_page (own_page a) a ->
  (forall i, is_class i -> fl_empty (free_lists t i) = true) ->
  wp (ReleaseThreadCache_sections (Some (a, t))) (fun _ o _ => o = empty_handed) R g0 g.
Proof.
  intros Ha (pid & -> & Hpid & Hlim & _) He. unfold ReleaseThreadCache_sections. rewrite own_page_eq in Ha.
  eapply wp_doing_then; [by rewrite ThreadCache_destroy_ok |].
  assert (HC : forall i, is_class i -> C i = []).
  { intros i Hi. pose proof (fl_empty_rep _ _ _ (tc_at_list _ _ _ _ _ _ _ i Ha Hi)) as E. rewrite He in E by done. symmetry in E. by apply bool_decide_eq_true in E. }
  pose proof (tc_at_stats _ _ _ _ _ _ _ stat_reserved_quota_bytes (- reserved_quota_bytes t) Ha) as Ha1.
  apply tc_at_rest in Ha1 as [Hr1 _]. rewrite (thread_share_none C _ HC) in Hr1.
  eapply wp_yield; [exact Hr1 |]. intros R2 g2 Hr2 _. apply (at_rest_pages R2 _ (gl_central g2) (gl_central g2)) in Hr2 as ((G & Hcc & Htd) & HP & Hu).
  destruct (cc_inv_reserved _ _ _ _ _ Hcc) as [Hdis Hrep].
  destruct (bk_free_ok _ _ _ _ pid tc_page_num Hrep Hpid) as (w' & Hfree & Hrep'); [by rewrite tc_page_num_val | exact Hlim | clear; set_solver |].
  eexists (), _. unfold system_free. split; [unfold pages_of; by rewrite Hfree |].
  set (g3 := with_page_cache _ _). exists empty_handed. split; [| done]. apply (at_rest_pages R2 ∅ (gl_central g2) (gl_central g3)).
  rewrite union_empty_r_L. split; [| split; [apply disjoint_empty_r | by constructor]]. exists G. split; [| done].
  eapply cc_inv_relaw; [exact Hcc | clear - Hdis; set_solver |].
  replace (g_R G ∪ sh_pages R2) with ((g_R G ∪ (sh_pages R2 ∪ pages pid tc_page_num)) ∖ pages pid tc_page_num); [exact Hrep' |].
  clear - Hdis HP. apply set_eq. intros x. specialize (Hdis x). specialize (HP x). set_solver.
Qed.

(** ** Allocation *)

(** The process's own members are nobody's. *)
Lemma at_rest_globals R o pr0 pr pr' : am_globals pr' = am_globals pr -> at_rest R o pr0 pr -> at_rest R o pr0 pr'.
Proof. unfold at_rest. cbn. by intros ->. Qed.

Definition gave_block (size r : Z) th o pr : Prop :=
  exists len ob ot, own_split o ob ot /\ block_own r len ob pr /\ thread_own th ot pr /\ size <= len.
Definition malloc_result (size : Z) : Z * Thread -> share -> Process W -> Prop := fun rt o pr =>
  rt.1 = 0 /\ thread_own rt.2 o pr \/ rt.1 <> 0 /\ gave_block size rt.1 rt.2 o pr.

Lemma Size_Index size : 0 <= size <= MAX_TC_SIZE -> is_class (Index size) /\ size <= Size (Index size).
Proof.
  intros Hs. assert (Hidx : is_class (Index size)) by (apply Index_range; lia). split; [done |].
  destruct Hidx as [? Hidx2]. rewrite Index_calc, Size_calc in * by lia.
  apply CalculateIndex_galois; [lia | | lia]. rewrite kNumSizeClasses_val in *. lia.
Qed.

Lemma wp_thread_allocate R th a t size C pr0 pr :
  tc_at R (own_page a) t calm C (am_globals pr0) (am_globals pr) -> cache_page (own_page a) a -> 0 <= size <= MAX_TC_SIZE ->
  wp (thread_allocate_sections th a t size) (malloc_result size) R pr0 pr.
Proof.
  intros Ha Hpg Hs. unfold thread_allocate_sections. destruct (Size_Index size Hs) as [Hidx Hle].
  eapply wp_bind; [eapply wp_globals, wp_Allocate; [exact Ha | exact Hs] |].
  intros [p t'] o R1 pr1 pr2 Hr Hres. eapply wp_ret; [exact Hr |]. unfold alloc_result in Hres. cbn [fst snd] in Hres.
  destruct Hres as [(-> & _ & C' & Ho) | (Hp & C' & Hsp & Ho)]; [left | right].
  - split; [done |]. split; [by exists C' | done].
  - split; [done |]. exists (Size (Index size)), (hand (Index size) [p] ∅), (thread_share C' (own_page a)).
    split; [exact Hsp |]. split; [by constructor |]. split; [| exact Hle]. split; [by exists C' | done].
Qed.

(** A span of pages for a large block. *)
Definition span_result (n a : Z) o pr : Prop :=
  a = 0 /\ o = empty_handed \/
  a <> 0 /\ exists st d, o = run_of a st n /\ cc_spans (gl_central (am_globals pr)) !! a = Some d /\
    start_page_idx d = st /\ page_num d = n /\ aligned_obj_size d = 0.

Lemma wp_alloc_span n R pr : 0 <= n < W64 -> at_rest R empty_handed pr pr -> wp (act (alloc_span n)) (span_result n) R pr pr.
Proof.
  intros Hn Hr.
  destruct (AllocSpan_hand 0 [] n R (gl_central (am_globals pr)) (gl_central (am_globals pr)) Hn Hr) as (a & p' & Hal & _ & Hor).
  assert (Heq : alloc_span n pr = Ok (a, with_globals pr (with_page_cache (am_globals pr) p'))).
  { unfold alloc_span, pages_of. by rewrite Hal, bind_Ok_l. }
  destruct Hor as [[-> Hr1] | (Ha & st & d & Hr1 & Hd & Est & En & Hal0)].
  - eapply wp_act; [exact Heq | exact Hr1 | by left].
  - eapply wp_act; [exact Heq | exact Hr1 |]. right. split; [exact Ha |]. exists st, d. done.
Qed.

(** What is part of a share is among everything outside. *)
Lemma part_run R o b F s0 s G a e : beside R o s0 s G -> own_split o b F -> sh_runs b !! a = Some e ->
  (sh_runs R ∪ sh_runs o) !! a = Some e.
Proof.
  intros Hb (_ & [ER DR] & _) Ha. assert (Ho : sh_runs o !! a = Some e) by (rewrite ER; by apply lookup_union_Some_l).
  rewrite lookup_union_r; [done |]. eapply map_disjoint_Some_r; [apply Hb | exact Ho].
Qed.
Lemma part_obj R o b F i x : own_split o b F -> (i, x) ∈ sh_objs b -> x ∈ held_of (sh_objs R ∪ sh_objs o) i.
Proof. intros ([EO _] & _) Hx. rewrite elem_of_held, EO. clear - Hx. set_solver. Qed.

Lemma wp_malloc_large R th o size pr0 pr : at_rest R o pr0 pr -> thread_own th o pr -> MAX_TC_SIZE < size < W64 ->
  wp (am_malloc_slow_path_sections th size) (malloc_result size) R pr0 pr.
Proof.
  intros Hr Hth Hs. unfold am_malloc_slow_path_sections, EnsureScavengerStarted_section.
  eapply wp_yield_then; [exact Hr |]. intros R1 pr1 Hr1 Hq1. apply (thread_own_quiet th o _ _ Hq1) in Hth.
  eapply wp_doing_then; [reflexivity |]. set (pr2 := EnsureScavengerStarted pr1). assert (Eg : am_globals pr2 = am_globals pr1) by apply scavenger_globals.
  assert (Hr2 : at_rest R1 o pr1 pr2) by by eapply at_rest_globals. assert (Hth2 : thread_own th o pr2) by (unfold thread_own; by rewrite Eg).
  rewrite (proj2 (Z.ltb_lt _ _)) by apply Hs. destruct (Z.ltb_spec kMaxRequestBytes size) as [Hbig | Hfit].
  { eapply wp_ret; [exact Hr2 | by left]. }
  destruct (page_count size) as (n & En & Hn & Hcover); [lia |]. cbv zeta. rewrite En.
  eapply wp_yield_then; [exact Hr2 |]. intros R3 pr3 Hr3 Hq3. apply (thread_own_quiet th o _ _ Hq3) in Hth2.
  eapply (wp_call (act (alloc_span n)) _ (span_result n) _ o (thread_own th o)); [exact Hr3 | apply split_comm, empty_split | | exact Hth2 | by intros RF; apply wp_alloc_span |].
  { intros p1 p2. apply thread_own_quiet. }
  intros a ob o4 R4 pr4 pr5 Hsp Hr5 Hres Hth5. destruct Hres as [[-> ->] | (Ha & st & d & -> & Hd & Est & End & Hal)].
  { apply split_comm, split_empty in Hsp. subst o4. change (0 =? 0) with true. cbn iota. eapply wp_ret; [exact Hr5 | by left]. }
  rewrite (proj2 (Z.eqb_neq a 0)) by done. eapply wp_yield_then; [exact Hr5 |]. intros R6 pr6 Hr6 Hq6.
  assert (Hth6 : thread_own th o pr6) by (eapply thread_own_quiet; [exact (quiet_other _ _ _ _ _ Hsp Hq6) | exact Hth5]).
  assert (Hd6 : cc_spans (gl_central (am_globals pr6)) !! a = Some d).
  { rewrite <- Hd. apply (quiet_part _ _ _ _ _ Hsp Hq6). cbn. rewrite dom_singleton_L. set_solver. }
  pose proof Hr6 as Hb. apply (at_rest_beside R6 o4 (gl_central (am_globals pr6))) in Hb as [G Hb].
  assert (Hrun : (sh_runs R6 ∪ sh_runs o4) !! a = Some (st, n)) by (eapply part_run; [exact Hb | exact Hsp | apply lookup_singleton_eq]).
  destruct (run_of_span _ _ _ _ _ a st n d (bs_inv _ _ _ _ _ Hb) Hrun Hd6) as (_ & _ & Hnz & Hget & _ & _ & _ & Hn0 & Hbase & _).
  eapply wp_reading_then; [exact Hget |]. rewrite Hbase. eapply wp_ret; [exact Hr6 |]. right. split; [exact Hnz |].
  exists (n * PAGE_SIZE), (run_of a st n), o. split; [exact Hsp |]. split; [by econstructor |]. split; [exact Hth6 |]. apply Hcover.
  destruct (co_geom _ _ _ _ _ _ _ (pi_core _ _ _ _ _ _ _ (ci_pages _ _ _ _ (bs_inv _ _ _ _ _ Hb))) a st n) as [_ _ _ Hnum _ _ _]; [| lia].
  eapply lookup_weaken; [exact Hrun | apply (ci_runs _ _ _ _ (bs_inv _ _ _ _ _ Hb))].
Qed.

Lemma wp_malloc R th o size pr0 pr : at_rest R o pr0 pr -> thread_own th o pr -> 0 <= size < W64 ->
  wp (am_malloc_sections th size) (malloc_result size) R pr0 pr.
Proof.
  intros Hr Hth Hs. unfold am_malloc_sections. unfold thread_own in Hth. destruct (ptls th) as [[a t] |] eqn:Hpt.
  - destruct (Z.ltb_spec MAX_TC_SIZE size) as [Hbig | Hsmall].
    { apply (wp_malloc_large R th o); [exact Hr | unfold thread_own; by rewrite Hpt | lia]. }
    destruct Hth as [[C Ho] Hpg]. eapply wp_thread_allocate; [eapply tc_at_intro; [exact Hr | exact Ho] | exact Hpg | lia].
  - destruct (Z.lt_ge_cases MAX_TC_SIZE size) as [Hbig | Hsmall].
    { apply (wp_malloc_large R th o); [exact Hr | unfold thread_own; by rewrite Hpt | lia]. }
    cbn in Hth. subst o. unfold am_malloc_slow_path_sections, EnsureScavengerStarted_section.
    eapply wp_yield_then; [exact Hr |]. intros R1 pr1 Hr1 _. eapply wp_doing_then; [reflexivity |].
    pose proof (at_rest_globals R1 _ pr1 pr1 _ (scavenger_globals pr1) Hr1) as Hr2.
    rewrite (proj2 (Z.ltb_ge _ _)), Hpt by lia. eapply wp_bind; [eapply wp_globals, wp_Create; [exact Hpt | exact Hr2] |].
    intros tc o R3 pr3 pr4 Hr4 Htc. destruct tc as [[a t] |].
    + destruct Htc as [[C Ho] Hpg]. eapply wp_thread_allocate; [eapply tc_at_intro; [exact Hr4 | exact Ho] | exact Hpg | lia].
    + eapply wp_ret; [exact Hr4 |]. left. by split.
Qed.

(** ** Release *)

(** Quiet calls: the thread owns its cache, as before. *)
Definition thread_result : Thread -> share -> Process W -> Prop := fun th o pr => thread_own th o pr.

Lemma wp_thread_deallocate R th a t p idx C o pr0 pr :
  at_rest R o pr0 pr -> own_split o (hand idx [p] ∅) (thread_share C (own_page a)) -> lists_ok t C (am_globals pr) -> quota_ok t calm ->
  cache_page (own_page a) a -> is_class idx -> wp (thread_deallocate_sections th a t p idx) thread_result R pr0 pr.
Proof.
  intros Hr Ho Hls Hq Hpg Hidx. unfold thread_deallocate_sections.
  eapply wp_bind; [eapply wp_globals, wp_Deallocate; [exact Hr | exact Ho | exact Hls | exact Hq | exact Hidx] |].
  intros t' o' R1 pr1 pr2 Hr1 [_ Hres]. eapply wp_ret; [exact Hr1 |]. by split.
Qed.

(** The same, from what the thread and the block own. *)
Lemma wp_cache_deallocate R th a t p idx ob ot o pr0 pr : at_rest R o pr0 pr -> own_split o ob ot -> ob = hand idx [p] ∅ ->
  cache_own (Some (a, t)) ot (am_globals pr) -> is_class idx -> wp (thread_deallocate_sections th a t p idx) thread_result R pr0 pr.
Proof.
  intros Hr Ho -> [[C [-> Hls Hq]] Hpg] Hidx. by eapply wp_thread_deallocate.
Qed.

Lemma wp_release_single R idx p g0 g : at_rest R (hand idx [p] ∅) g0 g -> is_class idx -> p <> 0 ->
  wp (release_single_sections p idx) (fun _ o _ => o = empty_handed) R g0 g.
Proof.
  intros Hr Hidx Hp. unfold release_single_sections. destruct (FromSingleObject_spec (central_mem g) p idx Hidx) as [Hfrom _].
  destruct (Hfrom Hp) as (b & m' & Hb & Hrep & Hm). eapply wp_act_then; [by rewrite Hb, bind_Ok_l |].
  eapply wp_mono; [eapply (wp_view (ReleaseBatch_sections b kTransferCache)), (wp_ReleaseBatch idx _ b [p] [] (fun _ => True)) |].
  - exact Hidx.
  - done.
  - rewrite app_nil_r. apply (at_rest_writes R (hand idx [p] ∅) (gl_central g0) (gl_central g)); [exact Hr |]. intros w Hw.
    apply Hm. intros ->%list_elem_of_singleton. apply Hw. apply hand_word with (x := p); [exact Hidx | by left |].
    pose proof (Size_range idx Hidx) as Hsz. unfold ALIGNMENT in Hsz. lia.
  - apply NoDup_singleton.
  - exact Hrep.
  - done.
  - cbn. by intros _ o1 g1 [-> _].
Qed.

(** A thread without a cache may have one made. *)
Lemma wp_create_then {A} R th F o pr0 pr (k : option (Z * ThreadCache) -> prog (Process W) A) Q :
  at_rest R o pr0 pr -> own_split o F empty_handed -> ptls th = None ->
  (forall tc o1 o2 R1 pr1 pr2, at_rest R1 o2 pr1 pr2 -> own_split o2 F o1 -> cache_own tc o1 (am_globals pr2) -> wp (k tc) Q R1 pr1 pr2) ->
  wp (tc ← globals (CreateThreadCache_sections th); k tc) Q R pr0 pr.
Proof.
  intros Hr Ho Hnone Hk.
  eapply (wp_call (globals (CreateThreadCache_sections th)) k (fun tc o pr => cache_own tc o (am_globals pr)) Q F (fun _ => True));
    [exact Hr | exact (split_comm _ _ _ Ho) | done | done | |].
  - intros RF Hr1. by eapply wp_globals, wp_Create.
  - intros tc o1 o2 R1 pr1 pr2 Hsp Hr1 Htc _. eapply Hk; [exact Hr1 | exact (split_comm _ _ _ Hsp) | exact Htc].
Qed.

Lemma wp_free_small R th o ob ot p idx span pr0 pr : at_rest R o pr0 pr -> own_split o ob ot -> ob = hand idx [p] ∅ ->
  thread_own th ot pr -> ptls th = None -> is_class idx -> p <> 0 ->
  wp (am_free_slow_path_sections th p span (Size idx) idx) thread_result R pr0 pr.
Proof.
  intros Hr Ho -> Hth Hnone Hidx Hp. unfold am_free_slow_path_sections. pose proof (Size_range idx Hidx) as Hsz. unfold ALIGNMENT in Hsz.
  rewrite (proj2 (Z.eqb_neq _ 0)), Hnone by lia. unfold thread_own in Hth. rewrite Hnone in Hth. cbn in Hth. subst ot.
  eapply wp_create_then; [exact Hr | exact Ho | exact Hnone |]. intros tc o1 o2 R1 pr1 pr2 Hr1 Ho1 Htc. destruct tc as [[a t] |].
  - by eapply wp_cache_deallocate.
  - cbn in Htc. subst o1. apply split_empty in Ho1. subst o2.
    eapply wp_bind; [eapply wp_globals, wp_release_single; [exact Hr1 | exact Hidx | exact Hp] |].
    cbn beta. intros _ o3 R3 pr3 pr4 Hr3 ->. eapply wp_ret; [exact Hr3 | done].
Qed.

Lemma wp_free_large R th o a st n d ot pr0 pr : at_rest R o pr0 pr -> own_split o (run_of a st n) ot -> thread_own th ot pr ->
  get_span (pc_spans (pages_of (am_globals pr))) a = Ok d -> GetPageBaseAddr d = st * PAGE_SIZE ->
  wp (am_free_slow_path_sections th (st * PAGE_SIZE) a 0 (size_class_idx d)) thread_result R pr0 pr.
Proof.
  intros Hr Ho Hth Hget Hbase. unfold am_free_slow_path_sections. change (0 =? 0) with true. cbn iota.
  eapply wp_reading_then; [exact Hget |]. rewrite Hbase, Z.eqb_refl. eapply wp_pure_then; [apply AM_HCHECK_true |].
  eapply wp_yield_then; [exact Hr |]. intros R1 pr1 Hr1 Hq1.
  eapply (wp_call (doing _) _ (fun _ o1 _ => o1 = empty_handed) _ ot (thread_own th ot)); [exact Hr1 | exact Ho | | | |].
  - intros p1 p2. apply thread_own_quiet.
  - eapply thread_own_quiet; [exact (quiet_other _ _ _ _ _ Ho Hq1) | exact Hth].
  - intros RF Hr2.
    destruct (ReleaseSpan_hand 0 [] {[a := (st, n)]} RF (gl_central (am_globals pr1)) (gl_central (am_globals pr1)) a (st, n) Hr2 (lookup_singleton_eq _ _))
      as (p & Hrel & Hr3 & _). rewrite delete_singleton_eq in Hr3.
    eapply wp_act; [unfold pages_of; rewrite Hrel, !bind_Ok_l; reflexivity | exact Hr3 | done].
  - intros _ o1 o2 R2 pr2 pr3 Hsp Hr2 -> Hth2. apply split_comm, split_empty in Hsp. subst o2. eapply wp_ret; [exact Hr2 | exact Hth2].
Qed.

(** A pointer is the block handed in. *)
Lemma wp_free R th o ob ot p len pr0 pr : at_rest R o pr0 pr -> own_split o ob ot -> block_own p len ob pr -> thread_own th ot pr ->
  wp (am_free_sections th p) thread_result R pr0 pr.
Proof.
  intros Hr Ho Hblk Hth. unfold am_free_sections.
  assert (Hp0 : p <> 0).
  { pose proof (proj1 (at_rest_beside R o (gl_central (am_globals pr0)) (gl_central (am_globals pr))) Hr) as [G Hb].
    destruct Hblk as [idx p pr Hidx | a st n d pr Hd Hal].
    - destruct (object_word _ _ _ _ (bs_inv _ _ _ _ _ Hb) idx p Hidx) as (_ & _ & Hnz & _); [| exact Hnz]. left.
      eapply part_obj; [exact Ho |]. cbn. clear. set_solver.
    - assert (Hrun : (sh_runs R ∪ sh_runs o) !! a = Some (st, n)) by (eapply part_run; [exact Hb | exact Ho | apply lookup_singleton_eq]).
      by destruct (run_of_span _ _ _ _ _ a st n d (bs_inv _ _ _ _ _ Hb) Hrun Hd) as (_ & _ & Hnz & _). }
  rewrite (proj2 (Z.eqb_neq p 0)) by exact Hp0. eapply wp_yield_then; [exact Hr |]. intros R1 pr1 Hr1 Hq1.
  apply (block_own_quiet _ _ _ _ _ (quiet_part _ _ _ _ _ Ho Hq1)) in Hblk.
  apply (thread_own_quiet th ot _ _ (quiet_other _ _ _ _ _ Ho Hq1)) in Hth. clear Hr Hq1 R pr0 pr.
  pose proof (proj1 (at_rest_beside R1 o (gl_central (am_globals pr1)) (gl_central (am_globals pr1))) Hr1) as [G Hb].
  pose proof (bs_inv _ _ _ _ _ Hb) as Hcc. inversion Hblk as [idx q pr Hidx | a st n d pr Hd Hal]; subst.
  - destruct (object_span _ _ _ _ _ idx p Hcc Hidx) as (a & d & Hlk & Ha0 & _ & Hda & Hus & Hst & Hnum & Hal & Hcl & Hslot).
    { eapply part_obj; [exact Ho |]. cbn. clear. set_solver. }
    eapply wp_reading_then; [exact Hlk |]. rewrite (proj2 (Z.eqb_neq a 0)) by done. eapply wp_reading_then; [exact Hda |].
    eapply wp_pure_then; [rewrite Hus; apply AM_HCHECK_true |].
    eapply wp_pure_then; [rewrite (proj2 (Z.leb_le _ _) Hst), (proj2 (Z.ltb_lt _ _) Hnum); apply AM_HCHECK_true |].
    rewrite Hal, Hcl. eapply wp_pure_then; [rewrite (proj2 (Z.ltb_lt idx _)), Z.eqb_refl, orb_true_r by apply Hidx; apply AM_HCHECK_true |].
    pose proof (Size_range idx Hidx) as Hsz. unfold ALIGNMENT in Hsz.
    destruct (ptls th) as [[b t] |] eqn:Hpt; [| by eapply wp_free_small].
    rewrite (proj2 (Z.eqb_neq (Size idx) 0)) by lia.
    eapply wp_pure_then; [rewrite (proj2 (Z.eqb_neq _ SIZE_MAX)) by done; apply AM_HCHECK_true |].
    unfold thread_own in Hth. rewrite Hpt in Hth. by eapply wp_cache_deallocate.
  - assert (Hrun : (sh_runs R1 ∪ sh_runs o) !! a = Some (st, n)) by (eapply part_run; [exact Hb | exact Ho | apply lookup_singleton_eq]).
    destruct (run_of_span _ _ _ _ _ a st n d Hcc Hrun Hd) as (Hlk & Ha0 & _ & Hda & Hus & Est & En & Hn0 & Hbase & Hpage).
    eapply wp_reading_then; [exact Hlk |]. rewrite (proj2 (Z.eqb_neq a 0)) by done. eapply wp_reading_then; [exact Hda |].
    eapply wp_pure_then; [rewrite Hus; apply AM_HCHECK_true |]. rewrite Hpage, Est, Z.leb_refl, Z.sub_diag, Hal, Z.eqb_refl.
    eapply wp_pure_then; [rewrite (proj2 (Z.ltb_lt (u64 0) _)) by (rewrite u64_id; lia); apply AM_HCHECK_true |].
    eapply wp_pure_then; [apply AM_HCHECK_true |].
    destruct (ptls th) as [[b t] |]; by eapply wp_free_large.
Qed.

Lemma wp_free_null R th o pr0 pr : at_rest R o pr0 pr -> thread_own th o pr -> wp (am_free_sections th 0) thread_result R pr0 pr.
Proof. intros Hr Hth. unfold am_free_sections. change (0 =? 0) with true. cbn iota. by eapply wp_ret. Qed.

(** ** Trimming and draining *)

(** The central cache's program while the thread keeps what it owns. *)
Lemma wp_drain {A} R th o mb pr0 pr (k : () -> prog (Process W) A) Q : at_rest R o pr0 pr -> thread_own th o pr -> 0 <= mb < W64 ->
  (forall R1 pr1 pr2, at_rest R1 o pr1 pr2 -> thread_own th o pr2 -> wp (k ()) Q R1 pr1 pr2) ->
  wp (u ← drain_central_sections mb; k u) Q R pr0 pr.
Proof.
  intros Hr Hth Hmb Hk.
  eapply (wp_call (drain_central_sections mb) k (fun _ o1 _ => o1 = empty_handed) Q o (thread_own th o));
    [exact Hr | exact (split_comm _ _ _ (empty_split o)) | | exact Hth | |].
  - intros p1 p2. apply thread_own_quiet.
  - intros RF Hr1. unfold drain_central_sections. eapply wp_bind.
    + eapply wp_globals. exact (wp_view _ _ RF (am_globals pr) (am_globals pr) (wp_DrainTransferCaches mb RF _ _ Hmb Hr1)).
    + intros d o1 R1 pr1 pr2 Hr2 [Hd _]. eapply wp_ret; [exact Hr2 | exact Hd].
  - intros [] o1 o2 R1 pr1 pr2 Hsp Hr2 -> Hth2. apply split_comm, split_empty in Hsp. subst o2. by apply (Hk R1 pr1 pr2).
Qed.

Lemma wp_thread_trim R th o pr0 pr : at_rest R o pr0 pr -> thread_own th o pr -> wp (am_thread_cache_trim_sections th) thread_result R pr0 pr.
Proof.
  intros Hr Hth. unfold am_thread_cache_trim_sections. unfold thread_own in Hth. destruct (ptls th) as [[a t] |] eqn:Hpt.
  2: { eapply wp_ret; [exact Hr |]. unfold thread_result, thread_own. by rewrite Hpt. }
  destruct Hth as [[C Ho] Hpg]. eapply wp_bind; [eapply wp_globals, wp_Handle; [eapply tc_at_intro; [exact Hr | exact Ho] | done] |].
  intros t1 o1 R1 pr1 pr2 Hr1 [_ [C1 Ho1]]. eapply wp_bind; [eapply wp_globals, wp_Trim; [eapply tc_at_intro; [exact Hr1 | exact Ho1] | done] |].
  intros t2 o2 R2 pr3 pr4 Hr2 [_ Ho2]. eapply wp_ret; [exact Hr2 | by split].
Qed.

Lemma wp_thread_purge R th o pr0 pr : at_rest R o pr0 pr -> thread_own th o pr -> wp (am_thread_cache_purge_sections th) thread_result R pr0 pr.
Proof.
  intros Hr Hth. unfold am_thread_cache_purge_sections. eapply (wp_bind _ _ thread_result).
  - unfold thread_own in Hth. destruct (ptls th) as [[a t] |] eqn:Hpt.
    2: { eapply wp_ret; [exact Hr |]. unfold thread_result, thread_own. by rewrite Hpt. }
    destruct Hth as [[C Ho] Hpg]. eapply wp_bind; [eapply wp_globals, wp_Trim; [eapply tc_at_intro; [exact Hr | exact Ho] | done] |].
    intros t1 o1 R1 pr1 pr2 Hr1 [_ Ho1]. eapply wp_ret; [exact Hr1 | by split].
  - intros th1 o1 R1 pr1 pr2 Hr1 Hth1. eapply wp_drain; [exact Hr1 | exact Hth1 | unfold SIZE_MAX; lia |].
    intros R2 pr3 pr4 Hr2 Hth2. by eapply wp_ret.
Qed.

(** The request word is nobody's. *)
Lemma at_rest_request R o pr0 pr mode : at_rest R o pr0 pr -> at_rest R o pr0 (with_globals pr (RequestGlobalTrim (am_globals pr) mode)).
Proof. done. Qed.
Lemma cache_own_request tc o g mode : cache_own tc o g -> cache_own tc o (RequestGlobalTrim g mode).
Proof. destruct tc as [[a t] |]; [| done]. intros [[C [? ? ?]] ?]. split; [| done]. by exists C. Qed.

Lemma wp_request {A} R th o mode pr0 pr (k : () -> prog (Process W) A) Q : at_rest R o pr0 pr -> thread_own th o pr ->
  (forall R1 pr1 pr2, at_rest R1 o pr1 pr2 -> thread_own th o pr2 -> wp (k ()) Q R1 pr1 pr2) ->
  wp (u ← request_section mode; k u) Q R pr0 pr.
Proof.
  intros Hr Hth Hk. eapply wp_yield_then; [exact Hr |]. intros R1 pr1 Hr1 Hq. eapply wp_doing_then; [reflexivity |].
  apply Hk; [by apply at_rest_request |]. apply cache_own_request. by eapply thread_own_quiet.
Qed.

(** ** Thread exit *)

Lemma wp_Cleaner R th o pr0 pr : at_rest R o pr0 pr -> thread_own th o pr ->
  wp (ThreadCacheCleaner_sections th) (fun th' o _ => th' = mkThread None true /\ o = empty_handed) R pr0 pr.
Proof.
  intros Hr Hth. unfold ThreadCacheCleaner_sections, thread_own in *. destruct (ptls th) as [[a t] |]; [| by eapply wp_ret].
  destruct Hth as [[C Ho] Hpg]. eapply wp_bind; [eapply wp_globals, wp_ReleaseAll; eapply tc_at_intro; [exact Hr | exact Ho] |].
  intros t1 o1 R1 pr1 pr2 Hr1 [He [C1 Ho1]].
  eapply wp_bind; [eapply wp_globals, wp_ReleaseCache; [eapply tc_at_intro; [exact Hr1 | exact Ho1] | exact Hpg | exact He] |].
  cbn beta. intros _ o2 R2 pr3 pr4 Hr2 ->. by eapply wp_ret.
Qed.

(** ** Every call *)

(** What a call takes: what its thread owns, and the block it frees. *)
Definition call_pre (c : call) th o pr : Prop :=
  match c with
  | DoMalloc size => 0 <= size < W64 /\ thread_own th o pr
  | DoFree p => p = 0 /\ thread_own th o pr \/
      exists ob ot len, own_split o ob ot /\ block_own p len ob pr /\ thread_own th ot pr
  | DoStore _ _ => False
  | _ => thread_own th o pr
  end.
Definition call_post (c : call) : Z * Thread -> share -> Process W -> Prop := fun rt o pr =>
  match c with
  | DoMalloc size => malloc_result size rt o pr
  | DoExit => rt = (0, mkThread None true) /\ o = empty_handed
  | _ => rt.1 = 0 /\ thread_own rt.2 o pr
  end.

Lemma call_pre_quiet c th o pr pr' : own_quiet o pr pr' -> call_pre c th o pr -> call_pre c th o pr'.
Proof.
  intros Hq. pose proof (thread_own_quiet th o _ _ Hq) as Ht. destruct c as [size | p | | | | | | w v]; cbn; try tauto.
  intros [[? ?] | (ob & ot & len & Ho & Hb & Hth)]; [left; auto | right]. exists ob, ot, len. split; [done |].
  split; [exact (block_own_quiet _ _ _ _ _ (quiet_part _ _ _ _ _ Ho Hq) Hb) | exact (thread_own_quiet _ _ _ _ (quiet_other _ _ _ _ _ Ho Hq) Hth)].
Qed.

Lemma call_post_stable c : stable (call_post c).
Proof.
  intros [r th] o pr pr' Hq. pose proof (thread_own_quiet th o _ _ Hq) as Ht.
  destruct c as [size | p | | | | | | w v]; unfold call_post, malloc_result, gave_block; cbn [fst snd]; try tauto.
  intros [[? ?] | (Hr & len & ob & ot & Ho & Hb & Hth & Hle)]; [left; auto | right]. split; [done |]. exists len, ob, ot. split; [done |].
  split; [exact (block_own_quiet _ _ _ _ _ (quiet_part _ _ _ _ _ Ho Hq) Hb) |].
  split; [exact (thread_own_quiet _ _ _ _ (quiet_other _ _ _ _ _ Ho Hq) Hth) | done].
Qed.

Lemma wp_zero (p : prog (Process W) Thread) R pr0 pr : wp p thread_result R pr0 pr ->
  wp (th ← p; Ret (0, th)) (fun rt o pr => rt.1 = 0 /\ thread_own rt.2 o pr) R pr0 pr.
Proof. intros Hp. eapply wp_bind; [exact Hp |]. intros th o R1 pr1 pr2 Hr Hth. eapply wp_ret; [exact Hr | by split]. Qed.

Lemma wp_thread c th o R pr : at_rest R o pr pr -> call_pre c th o pr -> wp (thread_sections c th) (call_post c) R pr pr.
Proof.
  intros Hr Hp. destruct c as [size | p | | | | | | w v]; cbn [thread_sections call_post].
  - destruct Hp as [Hs Hth]. by eapply wp_malloc.
  - eapply wp_zero. destruct Hp as [[-> Hth] | (ob & ot & len & Ho & Hb & Hth)]; [by eapply wp_free_null | by eapply wp_free].
  - eapply wp_zero. by eapply wp_thread_trim.
  - eapply wp_zero. by eapply wp_thread_purge.
  - eapply wp_request; [exact Hr | exact Hp |]. intros R1 pr1 pr2 Hr1 Hth. eapply wp_ret; [exact Hr1 | by split].
  - eapply wp_request; [exact Hr | exact Hp |]. intros R1 pr1 pr2 Hr1 Hth.
    eapply wp_drain; [exact Hr1 | exact Hth | by unfold kCooperativeTransferDrainBytes, kDefaultTrimTargetBytes, kDefaultCacheBudgetBytes |].
    intros R2 pr3 pr4 Hr2 Hth2. eapply wp_ret; [exact Hr2 | by split].
  - eapply wp_bind; [by eapply wp_Cleaner |]. cbn beta. intros th' o1 R1 pr1 pr2 Hr1 [-> ->]. by eapply wp_ret.
  - destruct Hp.
Qed.
End Calls.
