(* ===== verification/AmmallocBlocks.v ===== *)
(** * Blocks and shares

    A client's block is an object or a run of pages; how the clients' pool, and the
    map of the live blocks that describes it, change when a block is handed in or
    out. *)
From S2P Require Import Prelude Config SizeClass FreeList Common Span SpanList Backing PageMap PageCache PageCacheInv.
From S2P Require Import CentralCache CentralInv CentralSteps CentralRelease CentralFetch ThreadCache ThreadCacheInv ThreadCacheFree.
From S2P Require Import Ammalloc AmmallocInv AmmallocSteps AmmallocThreads AmmallocSpec.
From S2P Require Import Sections CentralCalls CentralShares ThreadCalls ThreadShares AmmallocCalls AmmallocCallsInv.
Open Scope Z_scope.

Section Blocks.
Context {W : Type} `{BackingLaws W} `{StaticLayout} `{CentralLayout}.
Implicit Types (s : CentralCache W) (pr : Process W) (live : gmap Z Z) (G : ghost) (V : runs) (Hd : held) (R T o b pool : share).

(** What the clients hold is what the live blocks are made of. *)
Record pool_rep live pool pr : Prop := {
  pl_live : live_rep live (held_of (sh_objs pool)) (sh_runs pool);
  pl_plain : runs_plain (gl_central (am_globals pr)) (sh_runs pool)
}.

Lemma pool_rep_quiet live pool pr pr' : own_quiet pool pr pr' -> pool_rep live pool pr -> pool_rep live pool pr'.
Proof. intros Hq [Hl Hp]. constructor; [done |]. eapply runs_plain_kept; [exact Hq | exact Hp]. Qed.

Lemma live_rep_ext live Hd Hd' V : (forall j, Hd j = Hd' j) -> live_rep live Hd V -> live_rep live Hd' V.
Proof.
  intros Heq Hl p len. rewrite (Hl p len). split; intros [t Hb]; exists t; inversion Hb; subst; constructor; try done; [rewrite <- Heq | rewrite Heq]; done.
Qed.

(** The clients find what they wrote. *)
Lemma pool_contents live pool pr pr' w : pool_rep live pool pr -> own_quiet pool pr pr' -> allocated live w ->
  cc_mem (gl_central (am_globals pr')) !! w = cc_mem (gl_central (am_globals pr)) !! w.
Proof. intros [Hl _] Hq Hw. apply Hq. by apply (allocated_user live _ _ w Hl). Qed.

Lemma part_trans o R T : part o R -> part R T -> part o T.
Proof. intros [? ?] [? ?]. split; by etrans. Qed.

(** A block is an object or a run of what it is owned with. *)
Lemma block_own_block p len b pr : block_own p len b pr -> exists t, is_block (held_of (sh_objs b)) (sh_runs b) t p len.
Proof.
  intros Hb. destruct Hb as [idx p pr Hidx | a st n d pr Hda Hal].
  - exists (Small idx p). constructor; [done |]. apply elem_of_held. cbn. set_solver.
  - exists (Large a). constructor. apply lookup_singleton_eq.
Qed.
Lemma block_word p len b pr w : block_own p len b pr -> p <= w < p + len -> user_word (held_of (sh_objs b)) (sh_runs b) w.
Proof. intros [t Hb]%block_own_block Hw. apply user_word_block. by exists t, p, len. Qed.

(** ** A block handed out *)

Lemma block_gained pool pool' b p len pr : own_split pool' pool b -> block_own p len b pr ->
  exists Hd', gained (held_of (sh_objs pool)) (sh_runs pool) p len Hd' (sh_runs pool') /\ forall j, Hd' j = held_of (sh_objs pool') j.
Proof.
  intros ([EO DO] & [ER DR] & _) Hb. destruct Hb as [idx p pr Hidx | a st n d pr Hda Hal]; cbn in EO, DO, ER, DR.
  - exists (give (held_of (sh_objs pool)) idx {[p]}). rewrite map_union_empty in ER. rewrite ER. split.
    + constructor; [done |]. rewrite elem_of_held. set_solver.
    + intros j. rewrite EO, held_of_union. apply set_eq. intros x. rewrite elem_of_union, !elem_of_held. unfold give, upd_fun.
      case_decide as E; subst; rewrite ?elem_of_union, ?elem_of_held; set_solver.
  - exists (held_of (sh_objs pool)). rewrite union_empty_r_L in EO. rewrite EO. split; [| done].
    assert (Hn : sh_runs pool !! a = None) by (eapply map_disjoint_Some_r; [exact DR | apply lookup_singleton_eq]).
    rewrite ER, <- insert_union_singleton_r by done. by constructor.
Qed.

(** The runs of a block have no object size. *)
Lemma block_plain T b p len pr : own_good pr T -> part b T -> block_own p len b pr -> runs_plain (gl_central (am_globals pr)) (sh_runs b).
Proof.
  intros (G & Hi & _) [_ HR] Hb. destruct Hb as [idx p pr Hidx | a st n d pr Hda Hal]; intros v st' n'; cbn; [by rewrite lookup_empty |].
  intros [-> [= -> ->]]%lookup_singleton_Some.
  destruct (run_of_span _ _ _ _ _ v st' n' d Hi) as (_ & _ & _ & _ & _ & Est & En & _); [| done | by exists d].
  eapply lookup_weaken; [| exact HR]. apply lookup_singleton_eq.
Qed.

Lemma pool_gain live pool pool' b T p len pr : own_good pr T -> part pool' T -> own_split pool' pool b -> block_own p len b pr ->
  pool_rep live pool pr ->
  pool_rep (<[p := len]> live) pool' pr /\ 0 < len /\ p <> 0 /\ forall w, p <= w < p + len -> ~ allocated live w.
Proof.
  intros Hg HpT Hs Hb [Hl Hpl]. pose proof Hg as (G & Hi & _). destruct (part_split _ _ _ Hs) as [Hpp Hpb].
  pose proof (part_trans _ _ _ Hpp HpT) as HppT. pose proof (part_trans _ _ _ Hpb HpT) as HpbT.
  destruct (block_own_block _ _ _ _ Hb) as [t Ht].
  destruct (block_pos _ _ _ _ _ _ t p len Hi (fun j => part_held b T j HpbT)) as [Hlen Hp]; [by eapply is_block_mono; [apply HpbT |] |].
  assert (Hfr : forall w, p <= w < p + len -> ~ user_word (held_of (sh_objs pool)) (sh_runs pool) w).
  { intros w Hw. eapply (user_apart _ _ _ T pool' b pool); [by apply split_comm | exact HpT | exact Hi |]. by eapply block_word. }
  split; [| split; [done |]; split; [done |]; intros w Hw; rewrite (allocated_user live _ _ w Hl); by apply Hfr].
  destruct (block_gained _ _ _ _ _ _ Hs Hb) as (Hd' & Hgain & Heq). constructor.
  - apply (live_rep_ext _ Hd'); [exact Heq |].
    apply (live_gained _ _ _ _ _ _ _ live Hi (fun j => part_held pool T j HppT) (proj2 HppT) Hl); [exact Hgain | done | exact Hfr].
  - destruct Hs as (_ & [-> _] & _). intros a st n [Ha | [_ Ha]]%lookup_union_Some_raw; [by apply Hpl |].
    by apply (block_plain T b p len pr Hg HpbT Hb).
Qed.

(** ** A block handed in *)

Lemma block_lost live pool pr p len : pool_rep live pool pr -> live !! p = Some len ->
  exists pool' b Hd', own_split pool pool' b /\ block_own p len b pr /\
    lost (held_of (sh_objs pool)) (sh_runs pool) p Hd' (sh_runs pool') /\ forall j, Hd' j = held_of (sh_objs pool') j.
Proof.
  intros [Hl Hp] [t Hb]%Hl. destruct Hb as [idx p Hidx Hx%elem_of_held | a st n Ha].
  - exists (mkShare (sh_objs pool ∖ {[(idx, p)]}) (sh_runs pool) (sh_pages pool)), (hand idx [p] ∅),
      (take_back (held_of (sh_objs pool)) idx {[p]}). split; [| split; [by constructor |]; split; [constructor; [done | by apply elem_of_held] |]].
    + cbn. rewrite map_union_empty, !union_empty_r_L, difference_union_L. split; [split; [set_solver | set_solver] |].
      split; [split; [done | apply map_disjoint_empty_r] | split; [done | apply disjoint_empty_r]].
    + intros j. apply set_eq. intros x. rewrite elem_of_held. cbn. unfold take_back, upd_fun.
      case_decide as E; subst; rewrite ?elem_of_difference, !elem_of_held; set_solver.
  - destruct (Hp a st n Ha) as (d & Hd & _ & _ & Hal).
    exists (mkShare (sh_objs pool) (delete a (sh_runs pool)) (sh_pages pool)), (run_of a st n), (held_of (sh_objs pool)).
    split; [| split; [by econstructor |]; split; [by apply (lost_large _ _ a st n) | done]].
    cbn. rewrite !union_empty_r_L, <- insert_union_singleton_r, insert_delete_id by (done || apply lookup_delete_eq).
    split; [split; [done | apply disjoint_empty_r] |]. split; [split; [done |] | split; [done | apply disjoint_empty_r]].
    apply map_disjoint_singleton_r_2, lookup_delete_eq.
Qed.

Lemma pool_lose live pool T p len pr : own_good pr T -> part pool T -> pool_rep live pool pr -> live !! p = Some len ->
  exists pool' b, own_split pool pool' b /\ block_own p len b pr /\ pool_rep (delete p live) pool' pr.
Proof.
  intros (G & Hi & _) HpT Hp Hlen. destruct (block_lost _ _ _ _ _ Hp Hlen) as (pool' & b & Hd' & Hs & Hb & Hlost & Heq).
  exists pool', b. split; [done |]. split; [done |]. destruct Hp as [Hl Hpl]. constructor.
  - apply (live_rep_ext _ Hd'); [exact Heq |].
    exact (live_lost _ _ _ _ _ _ _ live Hi (fun j => part_held pool T j HpT) (proj2 HpT) Hl p Hd' _ Hlost).
  - intros a st n Ha. apply Hpl. eapply lookup_weaken; [exact Ha |]. apply (part_split _ _ _ Hs).
Qed.

Lemma pool_pos live pool T p len pr : own_good pr T -> part pool T -> pool_rep live pool pr -> live !! p = Some len -> 0 < len /\ p <> 0.
Proof.
  intros (G & Hi & _) HpT [Hl _]. exact (live_pos _ _ _ _ _ _ _ live Hi (fun j => part_held pool T j HpT) (proj2 HpT) Hl p len).
Qed.

(** Live blocks do not overlap. *)
Lemma pool_disjoint live pool T pr : own_good pr T -> part pool T -> pool_rep live pool pr -> disjoint_blocks live.
Proof.
  intros Hg HpT Hp p q l n Hl Hm Hne. pose proof Hg as (G & Hi & _).
  destruct (pool_pos _ _ _ _ _ _ Hg HpT Hp Hl) as [? _]. destruct (pool_pos _ _ _ _ _ _ Hg HpT Hp Hm) as [? _].
  destruct (decide (p + l <= q)) as [| Hn1]; [by left |]. destruct (decide (q + n <= p)) as [| Hn2]; [by right |]. exfalso.
  apply (pl_live _ _ _ Hp) in Hl as [t Ht]. apply (pl_live _ _ _ Hp) in Hm as [u Hu].
  destruct (blocks_apart _ _ _ _ _ _ t u p q l n (Z.max p q) Hi (fun j => part_held pool T j HpT)) as (_ & ? & _); [| | lia | lia | done];
    by apply (is_block_mono _ (sh_runs pool)); [apply HpT |].
Qed.
End Blocks.
