(* ===== verification/AmmallocMachine.v ===== *)
(** * The whole allocator, one critical section at a time

    Any number of threads inside public calls at the same time, each with what is
    left of its call, and the scavenger inside a pass: the next thing to happen is
    a critical section of one of the threads, a step of the scavenger, or the
    beginning or the end of a call.  The clients write to their blocks meanwhile. *)
From S2P Require Import Prelude Config SizeClass FreeList Common Span SpanList Backing PageMap PageCache PageCacheInv.
From S2P Require Import CentralCache CentralInv CentralSteps CentralRelease CentralFetch CentralInit CentralSpec ThreadCache ThreadCacheInv ThreadCacheFree.
From S2P Require Import Ammalloc AmmallocInv AmmallocSteps AmmallocThreads AmmallocSpec Scavenger ScavengerSteps AmmallocServer AmmallocSessions.
From S2P Require Import Sections CentralCalls CentralShares CentralCallsRelease CentralCallsFetch.
From S2P Require Import ThreadCalls ThreadShares ThreadCallsTrim ThreadCallsAlloc AmmallocCalls AmmallocCallsInv AmmallocBlocks.
Open Scope Z_scope.

(** ** State *)

(** A thread between calls, or inside one, with what is left of it. *)
Inductive activity (W : Type) :=
| Idle (th : Thread)
| Calling (c : call) (p : prog (Process W) (Z * Thread)).
Arguments Idle {W} _.
Arguments Calling {W} _ _.

Record Machine (W : Type) := mkMachine {
  mc_process : Process W;
  mc_threads : list (activity W);
  mc_stats : ScavengerStats -> Z;
  mc_phase : scav_phase
}.
Arguments mkMachine {W} _ _ _ _.
Arguments mc_process {W} _.
Arguments mc_threads {W} _.
Arguments mc_stats {W} _ _.
Arguments mc_phase {W} _.

(** What may happen next: the [k]-th thread enters a call, runs one critical
    section of it, or leaves it; a client stores a word; the scavenger takes a
    step. *)
Inductive action := Enter (k : nat) (c : call) | Run (k : nat) | Leave (k : nat) | Write (w v : Z) | Sweep.

Section Ops.
Context `{Build} `{StaticLayout} `{CentralLayout} {W : Type} `{Backing W} `{!Madvise W}.
Implicit Types (m : Machine W) (pr : Process W).

Definition with_thread m (k : nat) (x : activity W) : Machine W :=
  mkMachine (mc_process m) (<[k := x]> (mc_threads m)) (mc_stats m) (mc_phase m).
Definition with_process m pr : Machine W := mkMachine pr (mc_threads m) (mc_stats m) (mc_phase m).
Definition mc_central m : CentralCache W := gl_central (am_globals (mc_process m)).
Definition mc_mem m : mem := cc_mem (mc_central m).
Definition mc_scavenged m : Scavenged W := mkScavenged (mc_central m) (mc_stats m).

Definition machine_exec (a : action) m : outcome (Z * Machine W) :=
  match a with
  | Enter k c =>
      match mc_threads m !! k with
      | Some (Idle th) => Ok (0, with_thread m k (Calling c (thread_sections c th)))
      | _ => UB "not an idle thread"
      end
  | Run k =>
      match mc_threads m !! k with
      | Some (Calling c p) =>
          '(p, pr) ← section p (mc_process m); Ok (0, with_thread (with_process m pr) k (Calling c p))
      | _ => UB "no call under way"
      end
  | Leave k =>
      match mc_threads m !! k with
      | Some (Calling c (Ret (r, th))) => Ok (r, with_thread m k (Idle th))
      | _ => UB "no call has ended"
      end
  | Write w v => Ok (0, with_process m (client_store (mc_process m) w v))
  | Sweep =>
      let x := mc_scavenged m in
      '(ph, x) ← phase_step (size (sc_spans x)) (am_started (mc_process m)) (mc_phase m) x;
      let g := am_globals (mc_process m) in
      Ok (0, mkMachine (with_globals (mc_process m) (with_central g (sc_central x))) (mc_threads m) (sc_stats x) ph)
  end.

Definition machine_new (n : nat) (g : Globals W) (cfg : RuntimeConfig) : Machine W :=
  mkMachine (mkProcess g cfg false) (replicate n (Idle Thread_new)) (fun _ => 0) Resting.

(** ** What the clients may do *)

Definition is_store (c : call) : Prop := match c with DoStore _ _ => True | _ => False end.

(** Where a thread is: between calls, inside one, at the end of one. *)
Definition thread_idle m (k : nat) : bool := match mc_threads m !! k with Some (Idle _) => true | _ => false end.
Definition thread_ended m (k : nat) : bool := match mc_threads m !! k with Some (Calling _ (Ret _)) => true | _ => false end.
Definition thread_inside m (k : nat) : bool :=
  match mc_threads m !! k with Some (Calling _ (Ret _)) => false | Some (Calling _ _) => true | _ => false end.

Definition action_ok (asked : gmap Z Z) m (a : action) : Prop :=
  match a with
  | Enter k c => thread_idle m k = true /\ call_ok asked c /\ ~ is_store c
  | Run k => thread_inside m k = true
  | Leave k => thread_ended m k = true
  | Write w v => call_ok asked (DoStore w v)
  | Sweep => True
  end.

Lemma thread_idle_inv m k : thread_idle m k = true -> exists th, mc_threads m !! k = Some (Idle th).
Proof. unfold thread_idle. destruct (_ !! _) as [[th |] |]; [by eexists | done..]. Qed.
Lemma thread_ended_inv m k : thread_ended m k = true -> exists c r th, mc_threads m !! k = Some (Calling c (Ret (r, th))).
Proof. unfold thread_ended. destruct (_ !! _) as [[| c [[r th] | |]] |]; try done. intros _. by exists c, r, th. Qed.
Lemma thread_inside_inv m k : thread_inside m k = true -> exists c p, mc_threads m !! k = Some (Calling c p) /\ forall a, p <> Ret a.
Proof. unfold thread_inside. destruct (_ !! _) as [[| c [| |]] |]; try done; intros _; by eexists _, _. Qed.

(** The call an action belongs to. *)
Definition call_of m (k : nat) : option call := match mc_threads m !! k with Some (Calling c _) => Some c | _ => None end.

(** The abstract allocator: a block is gone when the call that frees it begins, and
    there when the call that allocates it ends. *)
Inductive action_spec (live : gmap Z Z) m : action -> Z -> gmap Z Z -> Prop :=
| as_free k p live' : spec_step live (DoFree p) 0 live' -> action_spec live m (Enter k (DoFree p)) 0 live'
| as_enter k c : (forall p, c <> DoFree p) -> action_spec live m (Enter k c) 0 live
| as_run k : action_spec live m (Run k) 0 live
| as_malloc k size r live' : call_of m k = Some (DoMalloc size) -> spec_step live (DoMalloc size) r live' -> action_spec live m (Leave k) r live'
| as_leave k c : call_of m k = Some c -> (forall size, c <> DoMalloc size) -> action_spec live m (Leave k) 0 live
| as_write w v : action_spec live m (Write w v) 0 live
| as_sweep : action_spec live m Sweep 0 live.

(** The clients' words. *)
Definition action_contents live live' (a : action) (m m' : mem) : Prop :=
  forall w, allocated live w -> allocated live' w -> (forall v, a <> Write w v) -> m' !! w = m !! w.
End Ops.

(** ** The invariant *)

Section Machine.
Context {W : Type} `{BackingLaws W} `{StaticLayout} `{CentralLayout} `{!Madvise W} `{!MadviseLaws W}.
Implicit Types (m : Machine W) (pr : Process W) (live : gmap Z Z) (G : ghost) (V Vs : runs) (Hd : held) (P : gset Z) (R T o pool : share).

(** What an activity owns. *)
Definition activity_own pr (x : activity W) o : Prop :=
  match x with
  | Idle th => thread_own th o pr
  | Calling c p => ~ is_store c /\ parked p (call_post c) o pr
  end.

Lemma activity_quiet pr pr' x o : own_quiet o pr pr' -> activity_own pr x o -> activity_own pr' x o.
Proof.
  intros Hq. destruct x as [th | c p]; cbn [activity_own]; [by apply thread_own_quiet |]. intros [Hs Hp]. split; [done |]. by eapply parked_quiet.
Qed.

Definition runs_share (Vs : runs) : share := mkShare ∅ Vs ∅.

Record machine_at live m T pool Vs (os : list share) : Prop := {
  ma_good : own_good (mc_central m) T;
  ma_splits : splits T pool (runs_share Vs :: os);
  ma_scav : scavenging (mc_central m) Vs (mc_phase m);
  ma_threads : Forall2 (activity_own (mc_process m)) (mc_threads m) os;
  ma_pool : pool_rep live pool (mc_process m)
}.
Definition machine_rel live m : Prop := exists T pool Vs os, machine_at live m T pool Vs os.

(** The same, with the runs in the scavenger's hands. *)
Definition machine_with Vs live m : Prop := exists T pool os, machine_at live m T pool Vs os.
Lemma machine_rel_with live m : machine_rel live m <-> exists Vs, machine_with Vs live m.
Proof. split; [intros (T & pool & Vs & os & Hm); by exists Vs, T, pool, os | intros (Vs & T & pool & os & Hm); by exists T, pool, Vs, os]. Qed.

(** ** Steps *)

Lemma others_elem (os : list share) k i o : os !! i = Some o -> i <> k -> o ∈ take k os ++ drop (S k) os.
Proof.
  intros Hi Hne. apply elem_of_app. destruct (decide (i < k)%nat); [left | right]; apply list_elem_of_lookup.
  - exists i. by rewrite lookup_take_lt.
  - exists (i - S k)%nat. rewrite lookup_drop. by replace (S k + (i - S k))%nat with i by lia.
Qed.

Lemma threads_step pr pr' (ths : list (activity W)) os k y o' : Forall2 (activity_own pr) ths os -> (k < length ths)%nat ->
  Forall (fun o => own_quiet o pr pr') (take k os ++ drop (S k) os) -> activity_own pr' y o' ->
  Forall2 (activity_own pr') (<[k := y]> ths) (<[k := o']> os).
Proof.
  intros [Hlen Hall]%Forall2_same_length_lookup Hk Hq Hy. apply Forall2_same_length_lookup. rewrite !length_insert. split; [done |].
  intros i x o Hx Ho. destruct (decide (i = k)) as [-> | Hne].
  - rewrite list_lookup_insert_eq in Hx by done. rewrite list_lookup_insert_eq in Ho by lia. by injection Hx as <-; injection Ho as <-.
  - rewrite list_lookup_insert_ne in Hx by done. rewrite list_lookup_insert_ne in Ho by done. eapply activity_quiet; [| by eapply Hall].
    rewrite Forall_forall in Hq. apply Hq. by eapply others_elem.
Qed.
Lemma threads_quiet pr pr' (ths : list (activity W)) os : Forall2 (activity_own pr) ths os ->
  Forall (fun o => own_quiet o pr pr') os -> Forall2 (activity_own pr') ths os.
Proof.
  intros [Hlen Hall]%Forall2_same_length_lookup Hq. apply Forall2_same_length_lookup. split; [done |]. intros i x o Hx Ho.
  eapply activity_quiet; [| by eapply Hall]. rewrite Forall_forall in Hq. apply Hq. by eapply list_elem_of_lookup_2.
Qed.

(** One thread's share, and the rest. *)
Record thread_at live m T pool Vs os (k : nat) o R : Prop := {
  tt_share : os !! k = Some o;
  tt_rest : own_split T R o;
  tt_others : splits R pool ((runs_share Vs :: take k os) ++ drop (S k) os);
  tt_back : forall T' o', own_split T' R o' -> splits T' pool (runs_share Vs :: <[k := o']> os)
}.

Lemma thread_at_intro live m T pool Vs os k x : machine_at live m T pool Vs os -> mc_threads m !! k = Some x ->
  exists o R, thread_at live m T pool Vs os k o R /\ activity_own (mc_process m) x o.
Proof.
  intros [_ Hs _ Hth _] Hk. destruct (Forall2_lookup_l _ _ _ _ _ Hth Hk) as (o & Ho & Hx).
  rewrite <- (take_drop_middle os k o Ho) in Hs.
  destruct (splits_pick (runs_share Vs :: take k os) T pool o (drop (S k) os) Hs) as (R & HR & HsR & Hback).
  exists o, R. split; [| done]. constructor; [done | done | done |]. intros T' o' HT'.
  rewrite insert_take_drop by (by eapply lookup_lt_Some). by apply (Hback T' o').
Qed.

(** Nothing that the rest owns changed. *)
Lemma rest_quiet live m T pool Vs os k o R pr' : machine_at live m T pool Vs os -> thread_at live m T pool Vs os k o R ->
  own_quiet R (mc_process m) pr' ->
  own_quiet pool (mc_process m) pr' /\ own_quiet (runs_share Vs) (mc_process m) pr' /\
    Forall (fun o => own_quiet o (mc_process m) pr') (take k os ++ drop (S k) os).
Proof.
  intros _ [_ _ Hs _] Hq. destruct (splits_quiet _ _ _ _ _ Hs Hq) as [Hp Hos]. cbn [app] in Hos. apply Forall_cons in Hos as [Hr Hos]. done.
Qed.

Lemma scav_quiet Vs pr pr' ph : own_quiet (runs_share Vs) pr pr' -> scavenging (gl_central (am_globals pr)) Vs ph ->
  scavenging (gl_central (am_globals pr')) Vs ph.
Proof. intros Hq. apply scavenging_kept. intros a Ha. by apply Hq. Qed.

(** What a step of the machine achieves. *)
Definition stepped_to (rel : gmap Z Z -> Machine W -> Prop) live m (a : action) : Prop :=
  exists r m', machine_exec a m = Ok (r, m') /\ length (mc_threads m') = length (mc_threads m) /\
    exists live', action_spec live m a r live' /\ rel live' m' /\ action_contents live live' a (mc_mem m) (mc_mem m').
Definition stepped live m (a : action) : Prop := stepped_to machine_rel live m a.

Lemma stepped_weaken (rel rel' : gmap Z Z -> Machine W -> Prop) live m a :
  (forall live' m', rel live' m' -> rel' live' m') -> stepped_to rel live m a -> stepped_to rel' live m a.
Proof. intros Hr (r & m' & ? & ? & live' & ? & ? & ?). exists r, m'. split; [done |]. split; [done |]. exists live'. auto. Qed.

(** The scavenger stays where it is, its runs as they are. *)
Definition scav_kept Vs m live' m' : Prop :=
  machine_with Vs live' m' /\ mc_phase m' = mc_phase m /\
    forall v, v ∈ dom Vs -> cc_spans (mc_central m') !! v = cc_spans (mc_central m) !! v.

(** A critical section. *)
Lemma run_ok Vs live m k c p : machine_with Vs live m -> mc_threads m !! k = Some (Calling c p) -> stepped_to (scav_kept Vs m) live m (Run k).
Proof.
  intros (T & pool & os & Hm) Hk. destruct (thread_at_intro live m T pool Vs os k _ Hm Hk) as (o & R & Ht & Hs & Hp).
  pose proof Hm as [Hg Hsp Hsc Hth Hp0]. assert (Hr : at_rest R o (mc_process m) (mc_process m)).
  { exists T. split; [apply Ht |]. split; [exact Hg | apply quiet_refl]. }
  destruct (wp_section p (call_post c) R _ _ (call_post_stable c) (Hp R _ Hr (quiet_refl _ _))) as (p' & pr' & o' & Hsec & (T' & HT' & Hg' & Hq) & Hp').
  destruct (rest_quiet _ _ _ _ _ _ _ _ _ _ Hm Ht Hq) as (Hqp & Hqr & Hqo).
  exists 0, (with_thread (with_process m pr') k (Calling c p')). cbn [machine_exec]. rewrite Hk, Hsec, bind_Ok_l. split; [done |].
  split; [apply length_insert |]. exists live. split; [constructor |]. split; [split; [| split; [done | intros v Hv; by apply Hqr]] |].
  - exists T', pool, (<[k := o']> os). constructor; cbn.
    + exact Hg'.
    + by apply Ht.
    + by eapply scav_quiet.
    + eapply threads_step; [exact Hth | by eapply lookup_lt_Some | exact Hqo | by split].
    + by eapply pool_rep_quiet.
  - intros w Hw _ _. by eapply (pool_contents live pool).
Qed.

(** A call begins. *)
Lemma call_parked c th o pr : call_pre c th o pr -> parked (thread_sections c th) (call_post c) o pr.
Proof. intros Hp R' pr' Hr Hq. eapply wp_thread; [exact Hr |]. by eapply call_pre_quiet. Qed.

(** One thread goes on, with another share, and the pool with what it gave or took. *)
Lemma with_thread_at live live' m T T' pool pool' Vs os k y o' : machine_at live m T pool Vs os -> (k < length (mc_threads m))%nat ->
  own_good (mc_process m) T' -> splits T' pool' (runs_share Vs :: <[k := o']> os) -> activity_own (mc_process m) y o' ->
  pool_rep live' pool' (mc_process m) -> scav_kept Vs m live' (with_thread m k y).
Proof.
  intros [_ _ Hsc Hth _] Hk Hg Hs Hy Hp. split; [| done]. exists T', pool', (<[k := o']> os). constructor; cbn; [exact Hg | exact Hs | exact Hsc | | exact Hp].
  eapply threads_step; [exact Hth | exact Hk | | exact Hy]. apply Forall_forall. intros o _. apply quiet_refl.
Qed.

Lemma machine_part live m T pool Vs os : machine_at live m T pool Vs os -> part pool T.
Proof. intros [_ Hs _ _ _]. by eapply splits_part. Qed.

Lemma enter_keeps live m T pool Vs os k th c o : machine_at live m T pool Vs os -> mc_threads m !! k = Some (Idle th) ->
  os !! k = Some o -> ~ is_store c -> call_pre c th o (mc_process m) -> scav_kept Vs m live (with_thread m k (Calling c (thread_sections c th))).
Proof.
  intros Hm Hk Ho Hst Hpre. pose proof Hm as [Hg Hs _ _ Hp].
  eapply with_thread_at; [exact Hm | by eapply lookup_lt_Some | exact Hg | | split; [exact Hst | exact (call_parked _ _ _ _ Hpre)] | exact Hp].
  rewrite list_insert_id by done. exact Hs.
Qed.

Lemma enter_free live m T pool Vs os k th p len : machine_at live m T pool Vs os -> mc_threads m !! k = Some (Idle th) -> live !! p = Some len ->
  scav_kept Vs m (delete p live) (with_thread m k (Calling (DoFree p) (thread_sections (DoFree p) th))).
Proof.
  intros Hm Hk Hlen. pose proof Hm as [Hg Hs _ _ Hp]. destruct (thread_at_intro _ _ _ _ _ _ _ _ Hm Hk) as (ot & R & Ht & Hth).
  destruct (pool_lose _ _ T _ _ _ Hg (machine_part _ _ _ _ _ _ Hm) Hp Hlen) as (pool' & b & Hb & Hblk & Hp').
  destruct (splits_begin (runs_share Vs :: take k os) T pool pool' ot b (drop (S k) os)) as (o' & Ho' & Hs').
  { cbn [app]. rewrite take_drop_middle by apply Ht. exact Hs. }
  { exact Hb. }
  pose proof (lookup_lt_Some _ _ _ (tt_share _ _ _ _ _ _ _ _ _ Ht)) as Hko.
  eapply with_thread_at; [exact Hm | by eapply lookup_lt_Some | exact Hg | rewrite insert_take_drop by done; exact Hs' | | exact Hp'].
  split; [by intros [] |]. apply call_parked. right. by exists b, ot, len.
Qed.

Lemma enter_ok Vs live m k c : machine_with Vs live m -> action_ok live m (Enter k c) -> stepped_to (scav_kept Vs m) live m (Enter k c).
Proof.
  intros (T & pool & os & Hm) ([th Hk]%thread_idle_inv & Hc & Hst). destruct (thread_at_intro _ _ _ _ _ _ _ _ Hm Hk) as (o & R & Ht & Hth).
  eexists 0, _. split; [cbn [machine_exec]; by rewrite Hk |]. split; [apply length_insert |].
  assert (Hex : exists live', action_spec live m (Enter k c) 0 live' /\ scav_kept Vs m live' (with_thread m k (Calling c (thread_sections c th)))).
  { assert (Hcase : (exists p, c = DoFree p) \/ forall p, c <> DoFree p) by (destruct c; naive_solver).
    destruct Hcase as [[p ->] | Hnf].
    - exists (delete p live). split; [constructor; constructor |]. destruct Hc as [-> | [len Hlen]]; [| by eapply enter_free].
      rewrite delete_id; [eapply enter_keeps; [exact Hm | exact Hk | apply Ht | by intros [] | by left] |].
      destruct (live !! 0) as [len |] eqn:E; [exfalso | done].
      by destruct (pool_pos _ _ _ _ _ _ (ma_good _ _ _ _ _ _ Hm) (machine_part _ _ _ _ _ _ Hm) (ma_pool _ _ _ _ _ _ Hm) E).
    - exists live. split; [constructor; naive_solver |]. eapply enter_keeps; [exact Hm | exact Hk | apply Ht | done |].
      by destruct c; cbn in *; naive_solver. }
  destruct Hex as (live' & Hspec & Hrel). exists live'. split; [exact Hspec |]. split; [exact Hrel |]. done.
Qed.

(** A call returns. *)
Lemma leave_ok Vs live m k c r th : machine_with Vs live m -> mc_threads m !! k = Some (Calling c (Ret (r, th))) ->
  stepped_to (scav_kept Vs m) live m (Leave k).
Proof.
  intros (T & pool & os & Hm) Hk. destruct (thread_at_intro _ _ _ _ _ _ _ _ Hm Hk) as (o & R & Ht & Hst & Hpk).
  pose proof Hm as [Hg Hs _ _ Hp]. destruct (parked_done _ _ _ _ _ _ (tt_rest _ _ _ _ _ _ _ _ _ Ht) Hg Hpk) as (o' & T' & HT' & Hg' & Hpost).
  eexists r, _. split; [cbn [machine_exec]; by rewrite Hk |]. split; [apply length_insert |].
  assert (Hc : call_of m k = Some c) by (unfold call_of; by rewrite Hk).
  assert (Hkeep : thread_own th o' (mc_process m) -> scav_kept Vs m live (with_thread m k (Idle th))).
  { intros Hth. eapply with_thread_at; [exact Hm | by eapply lookup_lt_Some | exact Hg' | by apply Ht | exact Hth | exact Hp]. }
  assert (Hex : exists live', action_spec live m (Leave k) r live' /\ scav_kept Vs m live' (with_thread m k (Idle th))).
  { assert (Hcase : (exists size, c = DoMalloc size) \/ forall size, c <> DoMalloc size) by (destruct c; naive_solver).
    destruct Hcase as [[size ->] | Hnm].
    - unfold call_post, malloc_result, gave_block in Hpost. cbn [fst snd] in Hpost.
      destruct Hpost as [[-> Hth] | (Hr & len & ob & ot & Hsp & Hb & Hth & Hle)].
      { exists live. split; [eapply as_malloc; [exact Hc | constructor] | by apply Hkeep]. }
      destruct (splits_end _ T' R pool o' ob ot (drop (S k) os) (tt_others _ _ _ _ _ _ _ _ _ Ht) HT' Hsp) as (pool' & Hp' & Hs').
      assert (HpT : part pool' T') by by eapply splits_part.
      destruct (pool_gain live pool pool' ob T' r len _ Hg' HpT Hp' Hb Hp) as (Hp2 & Hpos & Hr0 & Hfr).
      exists (<[r := len]> live). split; [eapply as_malloc; [exact Hc | by constructor] |].
      pose proof (lookup_lt_Some _ _ _ (tt_share _ _ _ _ _ _ _ _ _ Ht)) as Hko.
      eapply with_thread_at; [exact Hm | by eapply lookup_lt_Some | exact Hg' | rewrite insert_take_drop by done; exact Hs' | exact Hth | exact Hp2].
    - exists live. assert (r = 0 /\ thread_own th o' (mc_process m)) as [-> Hth].
      { by destruct c; cbn in *; naive_solver. }
      split; [eapply as_leave; [exact Hc | naive_solver] | by apply Hkeep]. }
  destruct Hex as (live' & Hspec & Hrel). exists live'. split; [exact Hspec |]. split; [exact Hrel |]. done.
Qed.

(** A client's store. *)
Lemma write_ok Vs live m w v : machine_with Vs live m -> call_ok live (DoStore w v) -> stepped_to (scav_kept Vs m) live m (Write w v).
Proof.
  intros (T & pool & os & [Hg Hsp Hsc Hth Hp0]) (p & len & Hp & Hw1 & Hw2).
  assert (Hu : user_word (held_of (sh_objs pool)) (sh_runs pool) w) by (apply (allocated_user live _ _ w (pl_live _ _ _ Hp0)); exists p, len; split; [done | lia]).
  set (pr' := client_store (mc_process m) w v). set (mem' := <[w := v]> (cc_mem (mc_central m))).
  destruct (pool_writes T pool (runs_share Vs :: os) (mc_central m) mem' Hg Hsp) as [Hg' Hq].
  { intros x Hx. apply lookup_insert_ne. by intros ->. }
  apply Forall_cons in Hq as [Hqr Hqo]. exists 0, (with_process m pr'). split; [done |]. split; [done |]. exists live. split; [constructor |]. split; [split; [| done] |].
  - exists T, pool, os. constructor; cbn; try done.
    + by apply (scav_quiet Vs (mc_process m) pr').
    + by apply (threads_quiet (mc_process m) pr').
    + by destruct Hp0.
  - intros x _ _ Hne. apply lookup_insert_ne. intros ->. by apply (Hne v).
Qed.

(** A step of the scavenger. *)
Lemma sweep_ok live m : machine_rel live m -> stepped live m Sweep.
Proof.
  intros (T & pool & Vs & os & [Hg Hsp Hsc Hth Hp0]).
  destruct (splits_pick [] T pool (runs_share Vs) os Hsp) as (R & HR & HsR & Hback).
  assert (Hr : at_rest R (runs_share Vs) (mc_central m) (mc_central m)) by (exists T; split; [done |]; split; [done | apply quiet_refl]).
  apply at_rest_beside in Hr as (G & [Hc Htd _ Hdis _ _]). cbn [runs_share sh_objs sh_runs sh_pages] in *.
  destruct (phase_step_ok (sh_pages R ∪ ∅) (mc_scavenged m) G _ (sh_runs R) Vs Hc Hdis (am_started (mc_process m)) (mc_phase m) Hsc)
    as (ph' & x' & G' & Vs' & Hstep & [Hsame Hdis' Hc' _ Hu Hsc']).
  set (pr' := with_globals (mc_process m) (with_central (am_globals (mc_process m)) (sc_central x'))).
  assert (Hq : own_quiet R (mc_process m) pr').
  { cbn. eapply undisturbed_mono; [| reflexivity | exact Hu]. intros j _. rewrite held_of_union. set_solver. }
  assert (Hr' : at_rest R (runs_share Vs') (mc_central m) (sc_central x')).
  { apply at_rest_beside. exists G'. constructor; cbn; [exact Hc' | by eapply tidy_same | apply disjoint_empty_r | exact Hdis' | apply disjoint_empty_r | exact Hq]. }
  destruct Hr' as (T' & HT' & Hg' & _). destruct (splits_quiet _ _ _ _ _ HsR Hq) as [Hqp Hqo].
  eexists 0, _. split; [cbn [machine_exec]; cbv zeta; rewrite Hstep, bind_Ok_l; reflexivity |]. split; [done |]. exists live. split; [constructor |]. split.
  - exists T', pool, Vs', os. constructor; cbn; try done.
    + by apply (Hback T' (runs_share Vs')).
    + by apply (threads_quiet (mc_process m) pr').
    + by apply (pool_rep_quiet live pool (mc_process m) pr').
  - intros w Hw _ _. apply Hqp. by apply (allocated_user live _ _ w (pl_live _ _ _ Hp0)).
Qed.

(** Whatever the threads and the clients do leaves the scavenger alone. *)
Lemma thread_step Vs live m a : machine_with Vs live m -> action_ok live m a -> a <> Sweep -> stepped_to (scav_kept Vs m) live m a.
Proof.
  intros Hm Ha Hne. destruct a as [k c | k | k | w v |]; [| | | | done].
  - by apply enter_ok.
  - destruct (thread_inside_inv m k Ha) as (c & p & Hk & _). by eapply run_ok.
  - destruct (thread_ended_inv m k Ha) as (c & r & th & Hk). by eapply leave_ok.
  - by apply write_ok.
Qed.

Lemma machine_step live m a : machine_rel live m -> action_ok live m a -> stepped live m a.
Proof.
  intros Hm Ha. assert (Hcase : a = Sweep \/ a <> Sweep) by (destruct a; (by left) || by right).
  destruct Hcase as [-> | Hne]; [by apply sweep_ok |]. apply machine_rel_with in Hm as [Vs Hm].
  eapply stepped_weaken; [| by apply (thread_step Vs)]. intros live' m' [Hw _]. apply machine_rel_with. by exists Vs.
Qed.

Lemma machine_disjoint live m : machine_rel live m -> disjoint_blocks live.
Proof.
  intros (T & pool & Vs & os & Hm). eapply pool_disjoint; [apply Hm | | apply Hm]. by eapply machine_part.
Qed.

(** ** A fresh process *)

Lemma splits_empty n : splits empty_handed empty_handed (replicate n empty_handed).
Proof. induction n as [| n IH]; [done |]. exists empty_handed. split; [apply empty_split | exact IH]. Qed.

Lemma machine_new_rel n g cfg G : cc_inv (gl_central g) G none_held ∅ -> tidy G -> machine_rel ∅ (machine_new n g cfg).
Proof.
  intros Hi Ht. exists empty_handed, empty_handed, ∅, (replicate n empty_handed). constructor; cbn.
  - exists G. split; [| done]. eapply cc_inv_held; [| exact (cc_inv_reserve_none _ _ _ _ Hi)]. done.
  - exact (splits_empty (S n)).
  - done.
  - apply Forall2_replicate. done.
  - constructor.
    + intros p len. rewrite lookup_empty. split; [done |]. intros [t Hb]. inversion Hb as [i x Hi' Hx | a st m Hv]; subst.
      * by apply elem_of_held in Hx.
      * by destruct (lookup_empty_Some _ _ Hv).
    + intros v st m Hv. by destruct (lookup_empty_Some _ _ Hv).
Qed.
End Machine.
