(* ===== verification/AmmallocInterleavings.v ===== *)
(** * Interleavings

    The clients of the allocator whose calls interleave, one critical section at a
    time, and what they can rely on; that the calls under way can all end; and that
    a call nobody interrupts is the function of Ammalloc. *)
From S2P Require Import Prelude Config SizeClass FreeList Common Span SpanList Backing PageMap PageCache PageCacheInv.
From S2P Require Import CentralCache CentralInv CentralSteps CentralRelease CentralFetch CentralInit CentralSpec ThreadCache ThreadCacheInv ThreadCacheSpec.
From S2P Require Import Ammalloc AmmallocInv AmmallocSteps AmmallocThreads AmmallocSpec Scavenger ScavengerSteps ScavengerSpec AmmallocServer AmmallocClients.
From S2P Require Import Sections CentralCalls CentralShares ThreadCalls ThreadShares AmmallocCalls AmmallocCallsInv AmmallocBlocks AmmallocMachine.
Open Scope Z_scope.

Section Interleavings.
Context {W : Type} `{BackingLaws W} `{StaticLayout} `{CentralLayout} `{!Madvise W} `{!MadviseLaws W}.
Implicit Types (g : Globals W) (m : Machine W) (cl : client) (live : gmap Z Z) (G : ghost) (a : action).

(** C2: the allocator refines the abstract allocator, a map from the addresses of
    the live blocks to their lengths, however its threads interleave.  In every
    state related to such a map, with any number of calls under way, every next
    step succeeds: a thread's entering a call that its client may make, its next
    critical section, its return, a client's store to a live block, and the
    scavenger's next step.  The step's effect on the live blocks is the abstract
    allocator's: the freed block is gone when the call that frees it begins; a
    new block, nonempty, at least as long as asked and overlapping no live block,
    is there when the call that allocates it returns; nothing else changes them.
    The new state is related to the new map, and every word of the blocks that
    were and stay live keeps its value, but for the client's own store. *)
Theorem machine_refines live m a : machine_rel live m -> action_ok live m a ->
  exists r m', machine_exec a m = Ok (r, m') /\ length (mc_threads m') = length (mc_threads m) /\
    exists live', action_spec live m a r live' /\ machine_rel live' m' /\ action_contents live live' a (mc_mem m) (mc_mem m').
Proof. apply machine_step. Qed.

(** ** The clients *)

(** What the clients know after an action: a block is given up when the call that
    frees it begins, and owned when the call that allocates it returns. *)
Definition action_after m a (r : Z) cl : client :=
  match a with
  | Enter _ (DoFree p) => client_after (DoFree p) r cl
  | Leave k => match call_of m k with Some (DoMalloc size) => client_after (DoMalloc size) r cl | _ => cl end
  | Write w v => client_after (DoStore w v) r cl
  | _ => cl
  end.

Inductive interleaving m : Machine W -> client -> Prop :=
| interleaving_start : interleaving m m client_new
| interleaving_step m1 cl a r m2 : interleaving m m1 cl -> action_ok (owned cl) m1 a -> machine_exec a m1 = Ok (r, m2) ->
    interleaving m m2 (action_after m1 a r cl).

Definition machine_knows cl m : Prop := knows (fun live => machine_rel live m) (mc_mem m) cl.

(** The memory an allocation returns with is nobody's. *)
Definition fresh_block m a (r : Z) cl : Prop :=
  forall k size, a = Leave k -> call_of m k = Some (DoMalloc size) -> r <> 0 -> forall w, r <= w < r + size -> ~ allocated (owned cl) w.

Lemma action_ok_within asked live m a : within asked live -> action_ok asked m a -> action_ok live m a.
Proof.
  intros Hw. destruct a as [k c | k | k | w v |]; cbn [action_ok]; try done.
  - intros (? & ? & ?). split; [done |]. split; [by eapply call_ok_within | done].
  - intros Hok. by apply (call_ok_within asked live (DoStore w v)).
Qed.

Lemma action_contents_kept live live' a (mm mm' : mem) c : action_contents live live' a mm mm' ->
  (forall w v, a = Write w v -> c = DoStore w v) -> contents_kept live live' c mm mm'.
Proof. intros Hc Ha w Hw Hw' Hne. apply Hc; [done | done |]. intros v Hv. by apply (Hne v), Ha. Qed.

Lemma write_done w v m r m' : machine_exec (Write w v) m = Ok (r, m') -> mc_mem m' !! w = Some v.
Proof. intros [= _ <-]. apply lookup_insert_eq. Qed.

Lemma knows_action_to (rel : gmap Z Z -> Prop) (rel' : gmap Z Z -> Machine W -> Prop) cl m a :
  knows rel (mc_mem m) cl -> action_ok (owned cl) m a -> (forall live, rel live -> action_ok live m a -> stepped_to rel' live m a) ->
  exists r m', machine_exec a m = Ok (r, m') /\ knows (fun live => rel' live m') (mc_mem m') (action_after m a r cl) /\
    length (mc_threads m') = length (mc_threads m) /\ fresh_block m a r cl.
Proof.
  intros Hk Hok Hstep. destruct (kn_live _ _ _ Hk) as (live & Hrel & Hw).
  destruct (Hstep live Hrel (action_ok_within _ _ _ _ Hw Hok)) as (r & m' & Heq & Hlen & live' & Hs & Hr & Hc).
  exists r, m'. split; [done |].
  assert (Hsame : live' = live -> (forall w v, a <> Write w v) -> knows (fun live => rel' live m') (mc_mem m') cl).
  { intros -> Hne. eapply knows_kept; [exact Hk | exact Hw | exact Hr |]. intros w Ha. apply Hc; [exact Ha | exact Ha | intros v; apply Hne]. }
  assert (Hck : forall c, (forall w v, a = Write w v -> c = DoStore w v) -> contents_kept live live' c (mc_mem m) (mc_mem m')).
  { intros c. by apply action_contents_kept. }
  destruct Hs as [k p live' Hsp | k c Hne | k | k size r live' Hcall Hsp | k c Hcall Hne | w v |]; cbn [action_after].
  - split; [| by split]. eapply knows_free; [exact Hk | exact Hw | exact Hsp | exact Hr | by apply Hck].
  - split; [| by split]. destruct c; by apply Hsame || naive_solver.
  - split; [by apply Hsame | by split].
  - rewrite Hcall. split; [| split; [done |]].
    + eapply knows_malloc; [exact Hk | exact Hw | exact Hsp | exact Hr | by apply Hck].
    + intros k' size' [= <-] Hcall' Hnz w Hw' Ha. rewrite Hcall in Hcall'. injection Hcall' as <-.
      inversion Hsp as [| sz q len Hq Hle Hpos Hfr | |]; subst; try done. apply (Hfr w); [lia | by eapply within_allocated].
  - rewrite Hcall. split; [| split; [done |]].
    + destruct c; by apply Hsame || naive_solver.
    + intros k' size' [= <-] Hcall' Hnz. done.
  - split; [| by split]. apply (knows_quiet cl _ _ (mc_mem m) (mc_mem m') live live (DoStore w v) 0 Hk Hw); try done.
    + by constructor.
    + apply Hck. by intros w' v' [= -> ->].
    + intros w' v' [= <- <-]. by eapply write_done.
  - split; [by apply Hsame | by split].
Qed.

Lemma knows_action cl m a : machine_knows cl m -> action_ok (owned cl) m a ->
  exists r m', machine_exec a m = Ok (r, m') /\ machine_knows (action_after m a r cl) m' /\
    length (mc_threads m') = length (mc_threads m) /\ fresh_block m a r cl.
Proof. intros Hk Hok. apply (knows_action_to _ _ cl m a Hk Hok). intros live. apply machine_step. Qed.

Lemma machine_new_knows n g cfg G : cc_inv (gl_central g) G none_held ∅ -> tidy G -> machine_knows client_new (machine_new n g cfg).
Proof.
  intros Hi Ht. constructor.
  - exists ∅. split; [by eapply machine_new_rel |]. split; [done |]. intros p q len Hp. by destruct (lookup_empty_Some _ _ Hp).
  - intros w v Hv. by destruct (lookup_empty_Some _ _ Hv).
Qed.

Lemma interleaving_knows n g cfg G m cl :
  cc_inv (gl_central g) G none_held ∅ -> tidy G -> interleaving (machine_new n g cfg) m cl ->
  length (mc_threads m) = n /\ machine_knows cl m.
Proof.
  intros Hi Ht Hrun. induction Hrun as [| m1 cl1 a r m2 _ [Hlen Hkn] Hok Hex].
  - split; [apply length_replicate | by eapply machine_new_knows].
  - destruct (knows_action cl1 m1 a Hkn Hok) as (r' & m' & Heq & Hkn' & Hlen' & _).
    rewrite Heq in Hex. injection Hex as <- <-. split; [congruence | done].
Qed.

(** C1: whatever the clients do, and however their calls interleave, the allocator
    keeps its promise.  Start any number of threads on a fresh allocator and let
    them enter, run and leave calls of the public interface, exit, free each
    other's blocks and write to the blocks they own, as long as they free only
    blocks they own and write inside the sizes they asked for; let every lock
    release be followed by sections of any other threads, and the scavenger run
    its passes, a step at a time, in between.  Then in every state reached: the
    blocks owned are at least as long as asked and do not overlap, every word
    holds what was last stored there, and every next step, of any thread or of the
    scavenger, succeeds, a block that is returned overlapping nothing that is
    owned. *)
Theorem interleaving_safety n g cfg G m cl :
  cc_inv (gl_central g) G none_held ∅ -> tidy G -> interleaving (machine_new n g cfg) m cl ->
  length (mc_threads m) = n /\ machine_knows cl m /\
  (forall p q x y, owned cl !! p = Some x -> owned cl !! q = Some y -> p <> q -> p + x <= q \/ q + y <= p) /\
  forall a, action_ok (owned cl) m a -> exists r m', machine_exec a m = Ok (r, m') /\ fresh_block m a r cl.
Proof.
  intros Hi Ht Hrun. destruct (interleaving_knows n g cfg G m cl Hi Ht Hrun) as [Hlen Hkn]. split; [done |]. split; [done |]. split.
  - intros p q x y Hp Hq Hne. destruct (kn_live _ _ _ Hkn) as (live & Hrel & Hw).
    destruct (within_lookup _ _ _ _ Hw Hp) as (l & Hl & ?). destruct (within_lookup _ _ _ _ Hw Hq) as (k & Hk & ?).
    destruct (machine_disjoint live m Hrel p q l k Hl Hk Hne); [left | right]; lia.
  - intros a Hok. destruct (knows_action cl m a Hkn Hok) as (r & m' & Heq & _ & _ & Hf). by exists r, m'.
Qed.

(** ** The calls under way can end *)

Lemma run_section k m c p r m' : mc_threads m !! k = Some (Calling c p) -> thread_inside m k = true -> machine_exec (Run k) m = Ok (r, m') ->
  exists p' pr', section p (mc_process m) = Ok (p', pr') /\ next_section p' p /\ m' = with_thread (with_process m pr') k (Calling c p').
Proof.
  intros Hk Hin Hex. destruct (thread_inside_inv m k Hin) as (c' & q & Hk' & Hne). rewrite Hk in Hk'. injection Hk' as <- <-.
  cbn [machine_exec] in Hex. rewrite Hk in Hex. apply bind_Ok_inv in Hex as ([p' pr'] & Hsec & [= _ <-]). exists p', pr'.
  split; [done |]. split; [| done]. split; [done |]. by exists (mc_process m), pr'.
Qed.

(** Alone, a thread gets to the end of its call. *)
Section Ends.
Context (n : nat) (g : Globals W) (cfg : RuntimeConfig) (G : ghost).
Hypothesis Hi : cc_inv (gl_central g) G none_held ∅.
Hypothesis Ht : tidy G.

Lemma interleaving_next m cl a : interleaving (machine_new n g cfg) m cl -> action_ok (owned cl) m a ->
  exists r m', machine_exec a m = Ok (r, m') /\ interleaving (machine_new n g cfg) m' (action_after m a r cl).
Proof using All.
  intros Hrun Hok. destruct (interleaving_knows n g cfg G m cl Hi Ht Hrun) as [_ Hkn].
  destruct (knows_action cl m a Hkn Hok) as (r & m' & Heq & _). exists r, m'. split; [done |]. by eapply interleaving_step.
Qed.

Lemma call_settles k c p : Acc next_section p -> forall m cl, interleaving (machine_new n g cfg) m cl -> mc_threads m !! k = Some (Calling c p) ->
  exists m' cl' th, interleaving (machine_new n g cfg) m' cl' /\ mc_threads m' = <[k := Idle th]> (mc_threads m).
Proof using All.
  induction 1 as [p _ IH]. intros m cl Hrun Hk.
  assert (Hcase : (exists r th, p = Ret (r, th)) \/ thread_inside m k = true).
  { unfold thread_inside. rewrite Hk. destruct p as [[r th] | |]; [left; by exists r, th | by right..]. }
  destruct Hcase as [(r & th & ->) | Hin].
  - destruct (interleaving_next m cl (Leave k) Hrun) as (r' & m' & Hex & Hrun'); [cbn; unfold thread_ended; by rewrite Hk |].
    cbn [machine_exec] in Hex. rewrite Hk in Hex. injection Hex as _ <-. by eexists _, _, th.
  - destruct (interleaving_next m cl (Run k) Hrun Hin) as (r' & m' & Hex & Hrun').
    destruct (run_section k m c p r' m' Hk Hin Hex) as (p' & pr' & _ & Hnext & ->).
    destruct (IH p' Hnext _ _ Hrun') as (m2 & cl2 & th & Hrun2 & Heq).
    { cbn. apply list_lookup_insert_eq. by eapply lookup_lt_Some. }
    exists m2, cl2, th. split; [done |]. rewrite Heq. cbn. by rewrite list_insert_insert_eq.
Qed.

Lemma all_settle m cl : interleaving (machine_new n g cfg) m cl -> forall j,
  exists m' cl', interleaving (machine_new n g cfg) m' cl' /\ forall k, (k < j)%nat -> (k < n)%nat -> thread_idle m' k = true.
Proof using All.
  intros Hrun. induction j as [| j (m1 & cl1 & Hrun1 & Hidle)]; [exists m, cl; split; [done | lia] |].
  destruct (interleaving_knows n g cfg G m1 cl1 Hi Ht Hrun1) as [Hlen _].
  destruct (mc_threads m1 !! j) as [[th | c p] |] eqn:Hj.
  - exists m1, cl1. split; [done |]. intros k Hk Hkn. destruct (decide (k = j)) as [-> |]; [unfold thread_idle; by rewrite Hj | apply Hidle; lia].
  - destruct (call_settles j c p (sections_finite p) m1 cl1 Hrun1 Hj) as (m2 & cl2 & th & Hrun2 & Heq). exists m2, cl2. split; [done |].
    intros k Hk Hkn. unfold thread_idle. rewrite Heq. destruct (decide (k = j)) as [-> | Hne]; [rewrite list_lookup_insert_eq; [done | lia] |].
    rewrite list_lookup_insert_ne by done. apply Hidle; lia.
  - exists m1, cl1. split; [done |]. intros k Hk Hkn. apply lookup_ge_None in Hj. apply Hidle; lia.
Qed.
End Ends.

(** From every state that an interleaving can reach, all the calls under way can run
    to their ends and return. *)
Theorem calls_settle n g cfg G m cl :
  cc_inv (gl_central g) G none_held ∅ -> tidy G -> interleaving (machine_new n g cfg) m cl ->
  exists m' cl', interleaving (machine_new n g cfg) m' cl' /\ forall k, (k < n)%nat -> thread_idle m' k = true.
Proof.
  intros Hi Ht Hrun. destruct (all_settle n g cfg G Hi Ht m cl Hrun n) as (m' & cl' & Hrun' & Hidle). exists m', cl'. split; [done |]. intros k Hk. by apply Hidle.
Qed.

(** ** A call nobody interrupts *)

(** One action after the other; the result is the last one's. *)
Fixpoint machine_runs (acts : list action) (r : Z) m : outcome (Z * Machine W) :=
  match acts with [] => Ok (r, m) | a :: acts => '(r, m) ← machine_exec a m; machine_runs acts r m end.

Lemma machine_runs_app l1 l2 r m : machine_runs (l1 ++ l2) r m = '(r, m) ← machine_runs l1 r m; machine_runs l2 r m.
Proof.
  revert r m. induction l1 as [| a l1 IH]; intros r m; cbn; [done |]. destruct (machine_exec a m) as [[r' m'] | | |]; [| done..]. by rewrite !bind_Ok_l.
Qed.

Lemma runs_alone k c m p : Acc next_section p -> (k < length (mc_threads m))%nat -> forall pr r th pr', alone p pr = Ok ((r, th), pr') ->
  exists j, machine_runs (replicate j (Run k)) 0 (with_thread (with_process m pr) k (Calling c p)) =
    Ok (0, with_thread (with_process m pr') k (Calling c (Ret (r, th)))).
Proof.
  intros Hacc Hk. induction Hacc as [p _ IH]. intros pr r th pr' Hal.
  assert (Hcase : (exists x, p = Ret x) \/ forall x, p <> Ret x) by (destruct p; [by left; eexists | by right..]).
  destruct Hcase as [[x ->] | Hne]; [exists O; by injection Hal as <- <- |].
  rewrite alone_section in Hal. apply bind_Ok_inv in Hal as ([p' pr1] & Hsec & Hal).
  destruct (IH p') with (pr := pr1) (r := r) (th := th) (pr' := pr') as [j Hj]; [split; [done |]; by exists pr, pr1 | done |].
  exists (S j). cbn [replicate machine_runs machine_exec with_thread with_process mc_threads mc_process].
  rewrite list_lookup_insert_eq by done. rewrite Hsec, !bind_Ok_l. unfold with_thread, with_process in *. cbn in *. by rewrite list_insert_insert_eq.
Qed.

(** A call nobody interrupts is the function of Ammalloc: from every state in
    which a thread is between calls, entering the call, some number of its
    sections and its return, with nothing in between, give the result, the thread
    and the state that the function computes, whenever it computes any; so what is
    proved of the functions is proved of the calls made of sections. *)
Theorem call_uninterrupted m k th c r th' pr' :
  mc_threads m !! k = Some (Idle th) -> thread_exec c th (mc_process m) = Ok (r, th', pr') ->
  exists j, machine_runs (Enter k c :: replicate j (Run k) ++ [Leave k]) 0 m = Ok (r, with_thread (with_process m pr') k (Idle th')).
Proof.
  intros Hk Hex. pose proof (alone_thread c th (mc_process m)) as Hal. rewrite Hex in Hal. rewrite bind_Ok_l in Hal.
  assert (Hlt : (k < length (mc_threads m))%nat) by by eapply lookup_lt_Some.
  destruct (runs_alone k c m (thread_sections c th) (sections_finite _) Hlt _ _ _ _ Hal) as [j Hj]. exists j.
  cbn [machine_runs machine_exec]. rewrite Hk, bind_Ok_l, machine_runs_app.
  replace (with_thread m k _) with (with_thread (with_process m (mc_process m)) k (Calling c (thread_sections c th))) by by destruct m.
  rewrite Hj, bind_Ok_l. cbn. rewrite list_lookup_insert_eq by done. unfold with_thread, with_process. cbn. by rewrite list_insert_insert_eq.
Qed.
End Interleavings.

(** ** Concrete runs *)

#[export] Instance call_ok_dec live c : Decision (call_ok live c).
Proof.
  destruct c as [size | p | | | | | | w v]; cbn [call_ok]; [apply _ .. |].
  exact (decide (map_Exists (fun p len => p <= w /\ w + 8 <= p + len) live)).
Defined.
#[export] Instance is_store_dec c : Decision (is_store c).
Proof. destruct c; apply _. Defined.
#[export] Instance action_ok_dec {W} asked (m : Machine W) a : Decision (action_ok asked m a).
Proof. destruct a; cbn [action_ok]; apply _. Defined.

Section Play.
Context `{Build} `{StaticLayout} `{CentralLayout} {W : Type} `{Backing W} `{!Madvise W}.

(** A schedule that the clients may follow, with what they know at its end. *)
Fixpoint play (acts : list action) (m : Machine W) (cl : client) : option (Machine W * client) :=
  match acts with
  | [] => Some (m, cl)
  | a :: acts =>
      if decide (action_ok (owned cl) m a)
      then match machine_exec a m with Ok (r, m') => play acts m' (action_after m a r cl) | _ => None end
      else None
  end.

Lemma play_interleaving acts m0 m cl m' cl' : interleaving m0 m cl -> play acts m cl = Some (m', cl') -> interleaving m0 m' cl'.
Proof.
  revert m cl. induction acts as [| a acts IH]; intros m cl Hrun; cbn; [by intros [= <- <-] |].
  case_decide as Hok; [| done]. destruct (machine_exec a m) as [[r m1] | | |] eqn:Hex; try done. apply IH. by eapply interleaving_step.
Qed.
End Play.

Section Sample.
#[local] Existing Instance release_build.
#[local] Existing Instance bump_backing.
#[local] Existing Instance bump_laws.
#[local] Existing Instance sample_layout.
#[local] Existing Instance sample_central_layout.
#[local] Existing Instance agreeing.
#[local] Existing Instance agreeing_laws.

Definition sample_machine : Machine Z := machine_new 2 sample_globals RuntimeConfig_default.

Lemma sample_machine_rel : machine_rel (H1 := bump_laws) ∅ sample_machine.
Proof. destruct sample_thread_inv as (G & Hcc & Htd & _). by apply (machine_new_rel (H1 := bump_laws) 2 _ _ G). Qed.

(** Two threads allocate, one a large block and one a small one, their sections and
    the scavenger's steps in between each other; both return, a client writes to the
    small block; then thread 1 frees the large block, which thread 0 owned, while
    thread 0 allocates: the state with both inside their calls. *)
Definition sample_schedule : list action :=
  [Enter 0 (DoMalloc 100000); Enter 1 (DoMalloc 40); Run 0; Run 1; Sweep; Run 1; Run 0; Run 1; Run 0; Sweep; Run 1; Run 0; Sweep] ++
  replicate 9 (Run 1) ++ [Leave 1; Leave 0; Write 471552 7; Enter 1 (DoFree 368640); Enter 0 (DoMalloc 40); Run 1; Run 0; Sweep; Run 0].
Definition sample_played : Machine Z * client := default (sample_machine, client_new) (play sample_schedule sample_machine client_new).

Lemma sample_interleaving : interleaving sample_machine sample_played.1 sample_played.2.
Proof.
  assert (Hsome : match play sample_schedule sample_machine client_new with Some _ => true | None => false end = true) by by vm_compute.
  unfold sample_played. destruct (play sample_schedule sample_machine client_new) as [[m cl] |] eqn:E; [| done].
  eapply play_interleaving; [apply interleaving_start | exact E].
Qed.

Lemma machine_refines_witness :
  exists r m', machine_exec (Enter 1 (DoMalloc 40)) sample_machine = Ok (r, m') /\ length (mc_threads m') = 2%nat /\
    exists live', action_spec ∅ sample_machine (Enter 1 (DoMalloc 40)) r live' /\ machine_rel (H1 := bump_laws) live' m' /\
      action_contents ∅ live' (Enter 1 (DoMalloc 40)) (mc_mem sample_machine) (mc_mem m').
Proof.
  apply (machine_refines (H1 := bump_laws) ∅ sample_machine _ sample_machine_rel).
  split; [by vm_compute | split; [split; by vm_compute | by intros []]].
Defined.

Lemma interleaving_safety_witness :
  (let m := sample_played.1 in let cl := sample_played.2 in
  length (mc_threads m) = 2%nat /\ machine_knows (H1 := bump_laws) cl m /\
  (forall p q x y, owned cl !! p = Some x -> owned cl !! q = Some y -> p <> q -> p + x <= q \/ q + y <= p) /\
  forall a, action_ok (owned cl) m a -> exists r m', machine_exec a m = Ok (r, m') /\ fresh_block m a r cl) /\
  map_to_list (owned sample_played.2) = [(471552, 40)] /\ mc_mem sample_played.1 !! 471552 = Some 7 /\
  thread_inside sample_played.1 0 = true /\ thread_inside sample_played.1 1 = true.
Proof.
  split; [| split; [by vm_compute | split; [by vm_compute | split; by vm_compute]]]. destruct sample_thread_inv as (G & Hcc & Htd & _).
  exact (interleaving_safety (H1 := bump_laws) 2 sample_globals RuntimeConfig_default G _ _ Hcc Htd sample_interleaving).
Defined.

Definition sample_whole : Z * Thread * Process Z := got (thread_exec (DoMalloc 40) Thread_new (mc_process sample_machine)) (0, Thread_new, mc_process sample_machine).

Lemma call_uninterrupted_witness :
  (exists j, machine_runs (Enter 1 (DoMalloc 40) :: replicate j (Run 1) ++ [Leave 1]) 0 sample_machine =
    Ok (sample_whole.1.1, with_thread (with_process sample_machine sample_whole.2) 1 (Idle sample_whole.1.2))) /\ sample_whole.1.1 = 369152.
Proof.
  split; [| by vm_compute]. apply (call_uninterrupted sample_machine 1 Thread_new (DoMalloc 40)); [done |].
  unfold sample_whole. rewrite (got_Ok (thread_exec _ _ _) (0, Thread_new, mc_process sample_machine)) at 1; [by destruct (got _ _) as [[? ?] ?] | by vm_compute].
Defined.
End Sample.
