(* ===== verification/AmmallocPasses.v ===== *)
(** * Every pass of the scavenger ends

    Threads, clients and the scavenger interleave for ever; a pass that keeps
    getting its turns is over after finitely many of them. *)
From S2P Require Import Prelude Config SizeClass FreeList Common Span SpanList Backing PageMap PageCache PageCacheInv PageCacheMerge.
From S2P Require Import CentralCache CentralInv CentralSteps CentralRelease CentralFetch CentralInit CentralSpec ThreadCache ThreadCacheInv ThreadCacheSpec.
From S2P Require Import Ammalloc AmmallocInv AmmallocSteps AmmallocThreads AmmallocSpec Scavenger ScavengerSteps ScavengerSpec AmmallocServer AmmallocClients.
From S2P Require Import Sections CentralCalls CentralShares ThreadCalls ThreadShares AmmallocCalls AmmallocCallsInv AmmallocBlocks AmmallocMachine AmmallocInterleavings.
Open Scope Z_scope.

(** ** The chain a pass walks *)

Lemma rchain_same (st : spans) r al bl : rchain st r al -> rchain st r bl -> al = bl.
Proof.
  revert r bl. induction al as [| a al IH]; intros r [| b bl]; cbn; [done | by intros -> (<- & ? & _) | by intros (-> & ? & _) |].
  intros (-> & _ & d & Hd & Ha) (<- & _ & d' & Hd' & Hb). rewrite Hd in Hd'. injection Hd' as <-. f_equal. by eapply IH.
Qed.

Section Reclaim.
Context `{Build} `{StaticLayout} `{CentralLayout} {W : Type} `{Backing W} `{!Madvise W}.
Implicit Types (x : Scavenged W).

(** Handing a run to the kernel moves no link. *)
Lemma reclaim_run_next cur x x' : reclaim_run cur x = Ok x' -> forall b, next_of (sc_spans x') b = next_of (sc_spans x) b.
Proof.
  unfold reclaim_run. intros (d & Hd & E)%bind_Ok_inv. cbv zeta in E. destruct (bk_madvise _ _ _) as [ok w]. intros b.
  destruct ok; [| injection E as <-; done]. apply bind_Ok_inv in E as (st & Hst & E). injection E as <-. change (next_of st b = next_of (sc_spans x) b).
  unfold upd_span in Hst. apply bind_Ok_inv in Hst as (d' & Hd' & [= <-]). change (sc_spans _) with (sc_spans x) in Hd'.
  unfold get_span in Hd'. destruct (cur =? 0); [done |]. change (next_of (<[cur := SetCommitted d' false]> (sc_spans x)) b = next_of (sc_spans x) b).
  destruct (sc_spans x !! cur) as [e |] eqn:He; [| done]. injection Hd' as <-.
  unfold next_of. destruct (decide (b = cur)) as [-> | Hne]; [by rewrite lookup_insert_eq, He | by rewrite lookup_insert_ne].
Qed.
End Reclaim.

Section Passes.
Context {W : Type} `{BackingLaws W} `{StaticLayout} `{CentralLayout} `{!Madvise W} `{!MadviseLaws W}.
Implicit Types (g : Globals W) (m : Machine W) (cl : client) (G : ghost) (Vs : runs).

(** An endless execution: the machine and what the clients know, one action that
    they may take after the other. *)
Definition execution (ms : nat -> Machine W * client) (acts : nat -> action) : Prop :=
  forall i, action_ok (owned (ms i).2) (ms i).1 (acts i) /\
    exists r, machine_exec (acts i) (ms i).1 = Ok (r, (ms (S i)).1) /\ (ms (S i)).2 = action_after (ms i).1 (acts i) r (ms i).2.

Section Execution.
Context (n : nat) (g : Globals W) (cfg : RuntimeConfig) (G : ghost) (ms : nat -> Machine W * client) (acts : nat -> action).
Hypothesis Hi : cc_inv (gl_central g) G none_held ∅.
Hypothesis Ht : tidy G.
Hypothesis Hstart : interleaving (machine_new n g cfg) (ms O).1 (ms O).2.
Hypothesis Hrun : execution ms acts.
Hypothesis Hfair : forall i, exists j, (i <= j)%nat /\ acts j = Sweep.

#[local] Abbreviation phase i := (mc_phase (ms i).1).
#[local] Abbreviation spans_at i := (cc_spans (mc_central (ms i).1)).

(** The runs in the scavenger's hands at moment [i]. *)
Definition holding Vs i : Prop := knows (fun live => machine_with Vs live (ms i).1) (mc_mem (ms i).1) (ms i).2.

Lemma reached_at i : interleaving (machine_new n g cfg) (ms i).1 (ms i).2.
Proof using Hstart Hrun.
  induction i as [| i IH]; [exact Hstart |]. destruct (Hrun i) as (Hok & r & Hex & ->). by eapply interleaving_step.
Qed.

Lemma some_runs i : exists Vs, holding Vs i.
Proof using Hi Ht Hstart Hrun MadviseLaws0.
  destruct (interleaving_knows n g cfg G _ _ Hi Ht (reached_at i)) as [_ [(live & Hrel & Hw) Hs]].
  apply machine_rel_with in Hrel as [Vs Hv]. exists Vs. constructor; [by exists live | exact Hs].
Qed.

Lemma holding_scav Vs i : holding Vs i -> scavenging (mc_central (ms i).1) Vs (phase i).
Proof. intros [(live & (T & pool & os & Hm) & _) _]. apply Hm. Qed.

(** What the others do leaves the pass where it is. *)
Lemma others_step Vs i : holding Vs i -> acts i <> Sweep ->
  holding Vs (S i) /\ phase (S i) = phase i /\ forall v, v ∈ dom Vs -> spans_at (S i) !! v = spans_at i !! v.
Proof using Hrun MadviseLaws0.
  intros Hk Hne. destruct (Hrun i) as (Hok & r & Hex & Ecl).
  destruct (knows_action_to _ (scav_kept Vs (ms i).1) _ _ (acts i) Hk Hok) as (r' & m' & Heq & [(live & (Hm & Hp & Hs) & Hw) Hsh] & _).
  { intros live Hl Hok'. by apply thread_step. }
  rewrite Heq in Hex. injection Hex as -> ->. rewrite <- Ecl in *. split; [| by split]. constructor; [by exists live | exact Hsh].
Qed.

Lemma next_turn Vs d : forall i, holding Vs i -> acts (i + d)%nat = Sweep ->
  exists j, (i <= j)%nat /\ acts j = Sweep /\ holding Vs j /\ phase j = phase i /\ forall v, v ∈ dom Vs -> spans_at j !! v = spans_at i !! v.
Proof using Hrun MadviseLaws0.
  assert (Hdec : forall a, a = Sweep \/ a <> Sweep) by (intros []; (by left) || by right).
  induction d as [| d IH]; intros i Hk Hd; (destruct (Hdec (acts i)) as [Hs | Hs]; [by exists i |]); [by rewrite Nat.add_0_r in Hd |].
  destruct (others_step Vs i Hk Hs) as (Hk1 & Hp1 & Hs1). destruct (IH (S i) Hk1) as (j & Hj & Ha & Hkj & Hpj & Hsj).
  { by replace (S i + d)%nat with (i + S d)%nat by lia. }
  exists j. split; [lia |]. split; [done |]. split; [done |]. split; [congruence |]. intros v Hv. by rewrite Hsj, Hs1.
Qed.

Lemma turn Vs i : holding Vs i ->
  exists j, (i <= j)%nat /\ holding Vs j /\ phase j = phase i /\ (forall v, v ∈ dom Vs -> spans_at j !! v = spans_at i !! v) /\
    exists x, phase_step (size (spans_at j)) (am_started (mc_process (ms j).1)) (phase i) (mc_scavenged (ms j).1) = Ok (phase (S j), x) /\
      sc_central x = mc_central (ms (S j)).1.
Proof using Hrun Hfair MadviseLaws0.
  intros Hk. destruct (Hfair i) as (j0 & Hj0 & Ha0). destruct (next_turn Vs (j0 - i) i Hk) as (j & Hj & Ha & Hkj & Hpj & Hsj).
  { by replace (i + (j0 - i))%nat with j0 by lia. }
  exists j. split; [done |]. split; [done |]. split; [done |]. split; [done |].
  destruct (Hrun j) as (_ & r & Hex & _). rewrite Ha in Hex. cbn [machine_exec] in Hex. cbv zeta in Hex.
  apply bind_Ok_inv in Hex as ([ph x] & Hstep & E). rewrite Hpj in Hstep. exists x. injection E as _ E. rewrite <- E. by split.
Qed.

Lemma reattach_turn i now k hd : phase i = Reattaching now k hd -> exists j, (i <= j)%nat /\ phase j = Scanning now (k - 1).
Proof using Hi Ht Hstart Hrun Hfair MadviseLaws0.
  intros Hp. destruct (some_runs i) as [Vs Hk]. destruct (turn Vs i Hk) as (j & Hj & _ & _ & _ & x & Hstep & _).
  rewrite Hp in Hstep. cbn [phase_step] in Hstep. apply bind_Ok_inv in Hstep as (x1 & _ & [= E _]). exists (S j). split; [lia | done].
Qed.

Lemma reclaim_turns now k hd todo : forall i cur Vs, holding Vs i -> phase i = Reclaiming now k hd cur -> rchain (spans_at i) cur todo ->
  (forall v, v ∈ todo -> v ∈ dom Vs) -> exists j, (i <= j)%nat /\ phase j = Scanning now (k - 1).
Proof using Hi Ht Hstart Hrun Hfair MadviseLaws0.
  induction todo as [| a todo IH]; intros i cur Vs Hk Hp Hch Hin; destruct (turn Vs i Hk) as (j & Hj & _ & _ & Hs & x & Hstep & Hx);
    rewrite Hp in Hstep; cbn [phase_step] in Hstep.
  - cbn in Hch. rewrite Hch, Z.eqb_refl in Hstep. injection Hstep as E _. destruct (reattach_turn (S j) now k hd) as (l & Hl & Hpl); [done |].
    exists l. split; [lia | done].
  - assert (Hchj : rchain (spans_at j) cur (a :: todo)) by (eapply rchain_ext; [| exact Hch]; intros v Hv; by apply Hs, Hin).
    pose proof Hchj as (-> & Ha0 & _). rewrite (proj2 (Z.eqb_neq a 0)) in Hstep by done.
    apply bind_Ok_inv in Hstep as (x1 & Hrec & (next & Hnext & E)%bind_Ok_inv). injection E as E ->.
    assert (Hch1 : rchain (spans_at (S j)) a (a :: todo)).
    { eapply rchain_next; [| exact Hchj]. intros b _. rewrite <- Hx. exact (reclaim_run_next a _ _ Hrec b). }
    destruct Hch1 as (_ & _ & d & Hd & Hch1). unfold iter_next in Hnext. apply bind_Ok_inv in Hnext as (d' & Hd' & [= <-]).
    unfold get_span in Hd'. rewrite (proj2 (Z.eqb_neq a 0)) in Hd' by done. change (sc_spans x) with (cc_spans (sc_central x)) in Hd'.
    rewrite Hx, Hd in Hd'. injection Hd' as <-.
    destruct (some_runs (S j)) as [Vs' Hk']. pose proof (holding_scav Vs' (S j) Hk') as Hsc. rewrite <- E in Hsc.
    destruct Hsc as (_ & dn & todo' & _ & Hdom & Hch'). rewrite <- (rchain_same _ _ _ _ Hch1 Hch') in Hdom.
    destruct (IH (S j) (sp_next d) Vs' Hk') as (l & Hl & Hpl); [done | exact Hch1 | | exists l; split; [lia | done]].
    intros v Hv. rewrite Hdom. apply elem_of_list_to_set, elem_of_app. by right.
Qed.

Lemma scan_turns now b : forall i k, phase i = Scanning now k -> k <= Z.of_nat b -> exists j, (i <= j)%nat /\ phase j = Resting.
Proof using Hi Ht Hstart Hrun Hfair MadviseLaws0.
  induction b as [| b IH]; intros i k Hp Hb; destruct (some_runs i) as [Vs Hk]; destruct (turn Vs i Hk) as (j & Hj & _ & _ & _ & x & Hstep & _);
    rewrite Hp in Hstep; cbn [phase_step] in Hstep; (destruct (Z.ltb_spec 0 k); [| injection Hstep as E _; exists (S j); split; [lia | done]]); [lia |].
  apply bind_Ok_inv in Hstep as ([hd x1] & _ & [= E _]). destruct (some_runs (S j)) as [Vs' Hk'].
  pose proof (holding_scav Vs' (S j) Hk') as Hsc. rewrite <- E in Hsc. destruct Hsc as (_ & dn & todo & _ & Hdom & Hch).
  destruct (reclaim_turns now k hd todo (S j) hd Vs' Hk') as (l & Hl & Hpl); [done | exact Hch | |].
  { intros v Hv. rewrite Hdom. apply elem_of_list_to_set, elem_of_app. by right. }
  destruct (IH l (k - 1) Hpl) as (l' & Hl' & Hr); [lia |]. exists l'. split; [lia | done].
Qed.

Lemma pass_over i : exists j, (i <= j)%nat /\ phase j = Resting.
Proof using Hi Ht Hstart Hrun Hfair MadviseLaws0.
  destruct (some_runs i) as [Vs Hk]. pose proof (holding_scav Vs i Hk) as Hsc. destruct (phase i) as [| now k | now k hd cur | now k hd] eqn:Hp.
  - by exists i.
  - destruct Hsc as [_ Hr]. by apply (scan_turns now (Z.to_nat k) i k Hp); lia.
  - destruct Hsc as (Hr & dn & todo & _ & Hdom & Hch). destruct (reclaim_turns now k hd todo i cur Vs Hk Hp Hch) as (j & Hj & Hpj).
    { intros v Hv. rewrite Hdom. apply elem_of_list_to_set, elem_of_app. by right. }
    destruct (scan_turns now (Z.to_nat k) j (k - 1) Hpj) as (l & Hl & Hr'); [lia |]. exists l. split; [lia | done].
  - destruct (reattach_turn i now k hd Hp) as (j & Hj & Hpj).
    destruct (scan_turns now (Z.to_nat k) j (k - 1) Hpj) as (l & Hl & Hr'); [destruct Hsc; lia |]. exists l. split; [lia | done].
Qed.
End Execution.

(** C19: every pass of the scavenger ends.  Take an endless execution from any state
    that an interleaving reaches: in every step a thread enters a call that its
    client may make, runs one critical section or leaves it, a client writes to a
    block of its own, or the scavenger takes a step (one hold of the page cache's
    lock, or one system call).  If the scavenger keeps getting its turns, then
    from every moment on there is one at which it rests: however many runs the
    others free into the buckets meanwhile, no chain it walks is endless and no
    bucket is scanned for ever. *)
Theorem pass_ends n g cfg G ms acts :
  cc_inv (gl_central g) G none_held ∅ -> tidy G -> interleaving (machine_new n g cfg) (ms O).1 (ms O).2 -> execution ms acts ->
  (forall i, exists j, (i <= j)%nat /\ acts j = Sweep) ->
  forall i, exists j, (i <= j)%nat /\ mc_phase (ms j).1 = Resting.
Proof. intros Hi Ht Hstart Hrun Hfair i. exact (pass_over n g cfg G ms acts Hi Ht Hstart Hrun Hfair i). Qed.

(** The execution in which only the scavenger acts. *)
Definition sweep_on m : Machine W := match machine_exec Sweep m with Ok (_, m') => m' | _ => m end.
Definition sweeping m cl (i : nat) : Machine W * client := (Nat.iter i sweep_on m, cl).

Lemma sweeping_execution n g cfg G m cl : cc_inv (gl_central g) G none_held ∅ -> tidy G -> interleaving (machine_new n g cfg) m cl ->
  execution (sweeping m cl) (fun _ => Sweep).
Proof.
  intros Hi Ht Hrun. assert (Hall : forall i, interleaving (machine_new n g cfg) (Nat.iter i sweep_on m) cl /\
    exists r, machine_exec Sweep (Nat.iter i sweep_on m) = Ok (r, sweep_on (Nat.iter i sweep_on m))).
  { assert (Hone : forall m1, interleaving (machine_new n g cfg) m1 cl -> exists r, machine_exec Sweep m1 = Ok (r, sweep_on m1)).
    { intros m1 Hm1. destruct (interleaving_next n g cfg G Hi Ht m1 cl Sweep Hm1) as (r & m2 & Heq & _); [done |]. exists r. unfold sweep_on. by rewrite Heq. }
    induction i as [| i [IH [r Hr]]]; [by split; [| apply Hone] |].
    assert (Hnext : interleaving (machine_new n g cfg) (Nat.iter (S i) sweep_on m) cl).
    { exact (interleaving_step (machine_new n g cfg) _ cl Sweep r _ IH Logic.I Hr). }
    split; [exact Hnext | by apply Hone]. }
  intros i. split; [exact Logic.I |]. destruct (Hall i) as [_ [r Hr]]. exists r. by split.
Qed.
End Passes.

(** ** A concrete run *)
Section Sample.
#[local] Existing Instance release_build.
#[local] Existing Instance bump_backing.
#[local] Existing Instance bump_laws.
#[local] Existing Instance sample_layout.
#[local] Existing Instance sample_central_layout.
#[local] Existing Instance agreeing.
#[local] Existing Instance agreeing_laws.

(** With two threads inside their calls and a pass begun, the scavenger left alone
    comes to rest. *)
Lemma pass_ends_witness :
  (exists j, (0 <= j)%nat /\ mc_phase (sweeping sample_played.1 sample_played.2 j).1 = Resting) /\
  match mc_phase sample_played.1 with Resting => false | _ => true end = true.
Proof.
  split; [| by vm_compute]. destruct sample_thread_inv as (G & Hcc & Htd & _). pose proof sample_interleaving as Hs. revert Hs.
  generalize (sample_played.1), (sample_played.2). intros m cl Hs.
  apply (pass_ends (H1 := bump_laws) 2 sample_globals RuntimeConfig_default G (sweeping m cl) (fun _ => Sweep) Hcc Htd).
  - exact Hs.
  - exact (sweeping_execution (H1 := bump_laws) 2 sample_globals RuntimeConfig_default G m cl Hcc Htd Hs).
  - intros i. by exists i.
Defined.
End Sample.
