(* ===== verification/AmmallocLeaks.v ===== *)
(** * Nothing leaks

    When the clients have freed all their blocks, the threads have exited and the
    scavenger rests, the memory of the allocator is its own again: after the
    transfer caches are drained no run of pages is in use, and the page cache can
    give back every one. *)
From S2P Require Import Prelude Config SizeClass FreeList Common Span SpanList Backing PageMap PageCache PageCacheInv PageCacheReset.
From S2P Require Import CentralCache CentralInv CentralSteps CentralRelease CentralFetch CentralDrain CentralInit CentralSpec ThreadCache ThreadCacheSpec.
From S2P Require Import Ammalloc AmmallocInv AmmallocThreads Scavenger ScavengerSteps AmmallocServer AmmallocClients.
From S2P Require Import Sections CentralCalls CentralShares ThreadCalls ThreadShares AmmallocCalls AmmallocCallsInv AmmallocBlocks.
From S2P Require Import ScavengerSpec AmmallocMachine AmmallocInterleavings.
Open Scope Z_scope.

(** ** A central cache whose objects are all back *)

Section Central.
Context {W : Type} `{BackingLaws W} `{StaticLayout} `{CentralLayout}.
Implicit Types (s : CentralCache W) (G : ghost) (V : runs) (Hd : held).

(** A span on a list holds an object, which is somewhere. *)
Lemma no_span_left s G Hd V idx : cc_inv s G Hd V -> tidy G -> is_class idx -> Hd idx = ∅ -> g_T G idx = [] -> g_B G idx = [].
Proof.
  intros Hi Ht Hidx HH HT. destruct (g_B G idx) as [| a l] eqn:HB; [done |]. exfalso.
  assert (Ha : a ∈ g_B G idx) by (rewrite HB; left). destruct (tidy_busy _ _ _ Ht Hidx Ha) as (k & Hk & Hf).
  destruct (ci_span _ _ _ _ Hi idx a Hidx Ha) as (d & Hd' & _ & _ & _ & _ & Hcap). rewrite <- Hcap in Hk.
  destruct (proj2 (ci_objs _ _ _ _ Hi idx (slot_addr d k) Hidx)) as [Hx | Hx]; [by exists a, d, k | |].
  - rewrite HH in Hx. set_solver.
  - rewrite HT in Hx. by apply not_elem_of_nil in Hx.
Qed.

Lemma no_run_left s G Hd : cc_inv s G Hd ∅ -> (forall idx, is_class idx -> g_B G idx = []) -> g_U G = ∅.
Proof.
  intros Hi HB. apply set_eq. intros a. rewrite (ci_used _ _ _ _ Hi a), dom_empty_L. split; [| set_solver].
  intros [? | (idx & Hidx & Ha)]; [done |]. rewrite HB in Ha by done. by apply not_elem_of_nil in Ha.
Qed.

(** No page is known as part of a run in use. *)
Lemma pages_unused p D K R N L pid : pc_inv p D ∅ K R N L -> 0 <= pid -> pm_lookup (pc_map p) pid <> 0 ->
  exists d, pc_spans p !! pm_lookup (pc_map p) pid = Some d /\ IsUsed d = false.
Proof.
  intros Hp Hpid Hnz. destruct (proj1 (pi_maps _ _ _ _ _ _ _ Hp pid _ Hpid Hnz) eq_refl) as (st & n & HD & _).
  destruct (co_desc _ _ _ _ _ _ _ (pi_core _ _ _ _ _ _ _ Hp) _ _ _ HD) as (d & Hd & _ & _ & Hu & _).
  exists d. split; [done |]. rewrite Hu. by apply bool_decide_eq_false.
Qed.

(** The lists of the page cache are no longer than the descriptors are many. *)
Lemma list_length_le p D U K R N L i : pc_inv p D U K R N L -> 0 <= i <= MAX_PAGE_NUM -> (length (L i) <= size (pc_spans p))%nat.
Proof.
  intros Hp Hi. pose proof (pi_core _ _ _ _ _ _ _ Hp) as Hc.
  pose proof (proj1 (proj2 (co_lists _ _ _ _ _ _ _ Hc i Hi))) as Hnd. apply NoDup_cons in Hnd as [_ Hnd].
  rewrite <- (size_list_to_set (C := gset Z)) by done. rewrite <- size_dom. apply subseteq_size. intros a Ha%elem_of_list_to_set.
  apply (co_member _ _ _ _ _ _ _ Hc i a Hi) in Ha as (_ & st & HD).
  destruct (co_desc _ _ _ _ _ _ _ Hc _ _ _ HD) as (d & Hd & _). apply elem_of_dom. by exists d.
Qed.
End Central.

(** ** The machine at rest *)

(** A thread that has exited, or never had a cache. *)
Definition thread_gone {W} (x : activity W) : bool :=
  match x with Idle th => match ptls th with None => true | Some _ => false end | Calling _ _ => false end.
Definition at_peace {W} (m : Machine W) : bool :=
  forallb thread_gone (mc_threads m) && match mc_phase m with Resting => true | _ => false end.

Section Machine.
Context {W : Type} `{BackingLaws W} `{StaticLayout} `{CentralLayout} `{!Madvise W} `{!MadviseLaws W}.
Implicit Types (m : Machine W) (s : CentralCache W) (pr : Process W) (G : ghost) (V : runs) (Hd : held) (P : gset Z) (T pool o : share).

(** No live block: the clients hold nothing. *)
Lemma no_block_left Hd V : live_rep ∅ Hd V -> (forall idx, is_class idx -> Hd idx = ∅) /\ V = ∅.
Proof.
  intros Hl. assert (Hno : forall t p len, ~ is_block Hd V t p len).
  { intros t p len Hb. pose proof (proj2 (Hl p len) (ex_intro _ t Hb)) as E. by rewrite lookup_empty in E. }
  split.
  - intros idx Hidx. apply set_eq. intros x. split; [| set_solver]. intros Hx. by destruct (Hno _ _ _ (block_small _ V idx x Hidx Hx)).
  - apply map_empty. intros a. apply eq_None_not_Some. intros [[st n] Ha]. by destruct (Hno _ _ _ (block_large Hd V a st n Ha)).
Qed.

(** Threads that are gone own nothing. *)
Lemma gone_empty pr (ths : list (activity W)) os : forallb thread_gone ths = true -> Forall2 (activity_own pr) ths os ->
  os = replicate (length os) empty_handed.
Proof.
  intros Hg Hall. revert Hg. induction Hall as [| x o ths os Hx _ IH]; cbn; [done |]. intros [Hgx Hg]%andb_true_iff.
  rewrite <- IH by done. f_equal. destruct x as [[[tc |] dead] | c p]; done.
Qed.

Lemma splits_gone n : forall T pool, splits T pool (replicate n empty_handed) -> T = pool.
Proof.
  induction n as [| n IH]; intros T pool; cbn; [done |]. intros (T' & HT & Hs). apply split_empty in HT as ->. by apply IH.
Qed.

(** The machine without clients: all that is outside the cache is pages set aside. *)
Lemma machine_at_peace m : machine_rel ∅ m -> at_peace m = true ->
  exists P G Hd, cc_inv (H1 := reserve_laws P) (mc_central m) G Hd ∅ /\ tidy G /\ forall idx, is_class idx -> Hd idx = ∅.
Proof.
  intros (T & pool & Vs & os & [(G & Hi & Ht) Hs Hsc Hth [Hl _]]) [Hg Hph]%andb_true_iff.
  destruct (mc_phase m) eqn:Hm; try done. cbn in Hsc. subst Vs. rewrite (gone_empty _ _ _ Hg Hth) in Hs.
  assert (T = pool) as ->. { apply (splits_gone (S (length os))). exact Hs. }
  destruct (no_block_left _ _ Hl) as [Hd HV]. exists (sh_pages pool), G, (held_of (sh_objs pool)). rewrite HV in Hi. by split.
Qed.

(** What is left of the central and the page cache when nobody holds anything. *)
Record given_back s : Prop := {
  gb_lists : forall idx, is_class idx -> transfer_cache_size (cc_buckets s idx) = 0 /\ sl_empty (cc_spans s) (bucket_head idx) = Ok true;
  gb_unused : forall pid, 0 <= pid -> pm_lookup (pc_map (cc_pages s)) pid <> 0 ->
    exists d, cc_spans s !! pm_lookup (pc_map (cc_pages s)) pid = Some d /\ IsUsed d = false;
  gb_reset : forall fuel, (size (cc_spans s) <= fuel)%nat -> exists p R, PageCache_Reset fuel (cc_pages s) = Ok p /\ bk_rep (pc_w p) R ∅ ∅ /\
    forall pid, 0 <= pid -> pm_lookup (pc_map p) pid = 0 /\ (pid ∈ R -> pm_lookup (pc_map (cc_pages s)) pid = 0)
}.

Lemma given_back_ok P s G Hd : cc_inv (H1 := reserve_laws P) s G Hd ∅ -> tidy G -> (forall idx, is_class idx -> Hd idx = ∅) ->
  (forall idx, is_class idx -> transfer_cache_size (cc_buckets s idx) = 0) -> given_back s.
Proof.
  intros Hi Ht HH Hsz. assert (HB : forall idx, is_class idx -> g_B G idx = []).
  { intros idx Hidx. apply (no_span_left (H1 := reserve_laws P) s G Hd ∅); try done; [by apply HH |].
    pose proof (tr_size _ _ _ (ci_tc _ _ _ _ Hi idx Hidx)) as Hn. rewrite Hsz in Hn by done. apply length_zero_iff_nil. lia. }
  pose proof (ci_pages _ _ _ _ Hi) as Hp. rewrite (no_run_left (H1 := reserve_laws P) s G Hd Hi HB) in Hp. constructor.
  - intros idx Hidx. split; [by apply Hsz |]. rewrite (sl_empty_dll _ _ _ (ci_list _ _ _ _ Hi idx Hidx)). by rewrite HB.
  - intros pid. apply (pages_unused (H1 := reserve_laws P) (cc_pages s) _ _ _ _ _ pid Hp).
  - intros fuel Hf. destruct (Reset_ok (H1 := reserve_laws P) _ _ _ _ _ _ fuel Hp) as (p & R & L & Hres & Hp' & _ & HR & Hz).
    { intros i Hr. etrans; [exact (list_length_le (H1 := reserve_laws P) _ _ _ _ _ _ _ i Hp Hr) | exact Hf]. }
    exists p, (R ∪ P). destruct (pi_w _ _ _ _ _ _ _ Hp') as [_ Hw]. rewrite dom_empty_L in Hw.
    split; [exact Hres |]. split; [exact Hw |]. intros pid Hpid. split; [apply Hz |]. intros [Hin | Hin]%elem_of_union.
    + apply HR in Hin. destruct Hin as [[_ ?] | [_ ?]]; [done | lia].
    + destruct (decide (pm_lookup (pc_map (cc_pages s)) pid = 0)) as [| Hnz]; [done | exfalso].
      destruct (proj1 (pi_maps _ _ _ _ _ _ _ Hp pid _ Hpid Hnz) eq_refl) as (st & n & HD & Hr).
      pose proof (rg_pages _ _ _ _ _ (co_geom _ _ _ _ _ _ _ (pi_core _ _ _ _ _ _ _ Hp) _ _ _ HD) pid) as HinR.
      destruct (cc_inv_reserved _ _ _ _ _ Hi) as [Hdis _]. apply (Hdis pid Hin), HinR. by apply elem_of_pages.
Qed.

(** C3: nothing leaks.  However the calls of any number of threads and the
    scavenger's steps interleaved since the start, once the clients have freed
    every block, the threads have exited and the scavenger rests, one unbounded
    drain of the transfer caches leaves nothing in use: every transfer cache and
    every bucket's span list is empty, every page that the page map knows belongs
    to a free run, and resetting the page cache succeeds, forgets every page, and
    leaves the page allocator with none of the runs' pages handed out and both
    metadata pools empty. *)
Theorem nothing_leaks n g cfg G m cl :
  cc_inv (gl_central g) G none_held ∅ -> tidy G -> interleaving (machine_new n g cfg) m cl ->
  owned cl = ∅ -> at_peace m = true ->
  exists d s, DrainTransferCaches (mc_central m) SIZE_MAX = Ok (d, s) /\ given_back s.
Proof.
  intros Hi Ht Hrun Hno Hpeace. destruct (interleaving_knows n g cfg G m cl Hi Ht Hrun) as [_ Hkn].
  destruct (kn_live _ _ _ Hkn) as (live & Hrel & Hdom & _). rewrite Hno, dom_empty_L in Hdom.
  symmetry in Hdom. apply dom_empty_iff_L in Hdom. subst live.
  destruct (machine_at_peace m Hrel Hpeace) as (P & G1 & Hd & Hi1 & Ht1 & HH).
  destruct (DrainTransferCaches_ok (H1 := reserve_laws P) _ G1 Hd ∅ SIZE_MAX Hi1) as (d & s & G2 & Heq & [Hi2 _ Ht2 _ _ Hall _ _]); [done |].
  exists d, s. split; [exact Heq |]. apply (given_back_ok P s G2 Hd Hi2 (Ht2 Ht1) HH). by apply Hall.
Qed.
End Machine.

(** ** A concrete run *)

Section Sample.
#[local] Existing Instance release_build.
#[local] Existing Instance bump_backing.
#[local] Existing Instance bump_laws.
#[local] Existing Instance sample_layout.
#[local] Existing Instance sample_central_layout.
#[local] Existing Instance agreeing.
#[local] Existing Instance agreeing_laws.

(** Two threads allocate, each frees what the other allocated, both exit, and the
    scavenger, which began a pass meanwhile, comes back to rest. *)
Definition sample_ending : list action :=
  [Enter 0 (DoMalloc 100000); Enter 1 (DoMalloc 40)] ++ concat (replicate 4 [Run 0; Run 1]) ++ [Leave 0; Sweep] ++ replicate 9 (Run 1) ++
  [Leave 1; Enter 1 (DoFree 364544); Enter 0 (DoFree 467456)] ++ concat (replicate 3 [Run 1; Run 0]) ++ [Run 0; Leave 0; Leave 1] ++
  [Enter 0 DoExit; Enter 1 DoExit; Run 1; Run 0; Run 1; Run 0; Run 0; Leave 1; Leave 0] ++ replicate 385 Sweep.
Definition sample_ended : Machine Z * client := default (sample_machine, mkClient {[0 := 0]} ∅) (play sample_ending sample_machine client_new).

Lemma sample_end_interleaving : interleaving sample_machine sample_ended.1 sample_ended.2.
Proof.
  assert (Hsome : match play sample_ending sample_machine client_new with Some _ => true | None => false end = true) by by vm_compute.
  unfold sample_ended. destruct (play sample_ending sample_machine client_new) as [[m cl] |] eqn:E; [| done].
  eapply play_interleaving; [apply interleaving_start | exact E].
Qed.

Definition sample_drain : outcome (Z * CentralCache Z) := DrainTransferCaches (mc_central sample_ended.1) SIZE_MAX.

Lemma nothing_leaks_witness :
  (exists d s, DrainTransferCaches (mc_central sample_ended.1) SIZE_MAX = Ok (d, s) /\ given_back s) /\
  match sample_drain with Ok (d, s) => (d, is_Ok (PageCache_Reset (size (cc_spans s)) (cc_pages s))) | _ => (0, false) end = (96, true).
Proof.
  split; [| by vm_compute]. destruct sample_thread_inv as (G & Hcc & Htd & _).
  apply (nothing_leaks (H1 := bump_laws) 2 sample_globals RuntimeConfig_default G _ sample_ended.2 Hcc Htd sample_end_interleaving);
    [| by vm_compute]. apply map_to_list_empty_iff. by vm_compute.
Defined.
End Sample.
