(* ===== verification/ScavengerThread.v ===== *)
(** * The life of the scavenger's thread (PageHeapScavenger::Start, Stop and ScavengeLoop
    of src/page_heap_scavenger.cpp)

    The controller, which calls [Start] and [Stop] one at a time, and the threads it
    has created, each with its own stop token and its position in [ScavengeLoop];
    one access to shared state per step.  [std::jthread], the condition variable
    and the mutex are modelled as the standard describes them: a wait releases
    the mutex and ends when its time is up or the token is asked to stop, [join]
    waits for the thread to end, and the creation of a thread may throw. *)
From S2P Require Import Prelude.
Open Scope Z_scope.

(** ** State *)

(** Before the mutex is taken; at the loop's condition; inside [cv_.wait_for], with
    the mutex released; woken, before the mutex is taken again; with the wait's
    result; in [ScavengeOnePass]; about to lock again; ended. *)
Inductive loop_pc :=
| LoopEnter
| LoopTest
| LoopWaiting
| LoopWoken
| LoopTested (stop_requested : bool)
| LoopPass
| LoopRelock
| LoopDone.
#[export] Instance loop_pc_eq_dec : EqDecision loop_pc.
Proof. solve_decision. Defined.

Record loop_thread := mkLoop { lt_pc : loop_pc; lt_stop : bool }.

(** The controller: outside, or in [Stop], waiting in [join]. *)
Inductive caller_pc := CallerIdle | CallerJoining.

(** The threads created so far, oldest first; whether [scavenge_thread_] is
    joinable (it stands for the newest); the owner of [mutex_]; the passes begun. *)
Record PageHeapScavenger := mkScavenger {
  loops : list loop_thread;
  joinable : bool;
  mutex_ : option nat;
  passes : nat;
  caller : caller_pc
}.
Definition PageHeapScavenger_new : PageHeapScavenger := mkScavenger [] false None 0 CallerIdle.
Implicit Types (s : PageHeapScavenger) (l : loop_thread) (k : nat).

(** ** Steps *)

Definition move_loop s k (p : loop_pc) (stop : bool) (m : option nat) (n : nat) : PageHeapScavenger :=
  mkScavenger (<[k := mkLoop p stop]> (loops s)) (joinable s) m n (caller s).

(** [lock()] by thread [k]: blocks while the mutex is taken. *)
Definition lock_then s k (p : loop_pc) (stop : bool) : option PageHeapScavenger :=
  match mutex_ s with None => Some (move_loop s k p stop (Some k) (passes s)) | Some _ => None end.

(** A step of [ScavengeLoop]; [timed_out]: the wait's time is up. *)
Definition ScavengeLoop s k (timed_out : bool) : option PageHeapScavenger :=
  l ← loops s !! k;
  let stop := lt_stop l in
  match lt_pc l with
  | LoopEnter => lock_then s k LoopTest stop
  | LoopTest => Some (move_loop s k (if stop then LoopDone else LoopWaiting) stop None (passes s))
  | LoopWaiting => if stop || timed_out then Some (move_loop s k LoopWoken stop (mutex_ s) (passes s)) else None
  | LoopWoken => lock_then s k (LoopTested stop) stop
  | LoopTested true => Some (move_loop s k LoopDone stop None (passes s))
  | LoopTested false => Some (move_loop s k LoopPass stop None (S (passes s)))
  | LoopPass => Some (move_loop s k LoopRelock stop (mutex_ s) (passes s))
  | LoopRelock => lock_then s k LoopTest stop
  | LoopDone => None
  end.

(** [Start]; [created]: the operating system agreed to a new thread. *)
Definition Start s (created : bool) : option PageHeapScavenger :=
  match caller s with
  | CallerJoining => None
  | CallerIdle =>
      if joinable s || negb created then Some s
      else Some (mkScavenger (loops s ++ [mkLoop LoopEnter false]) true (mutex_ s) (passes s) CallerIdle)
  end.

(** [Stop] up to [join]; the token is that of the thread [scavenge_thread_] stands for. *)
Definition Stop s : option PageHeapScavenger :=
  match caller s with
  | CallerJoining => None
  | CallerIdle =>
      if joinable s
      then
        let k := pred (length (loops s)) in
        l ← loops s !! k;
        Some (mkScavenger (<[k := mkLoop (lt_pc l) true]> (loops s)) true (mutex_ s) (passes s) CallerJoining)
      else Some s
  end.

(** The return from [join]. *)
Definition Stop_join s : option PageHeapScavenger :=
  match caller s with
  | CallerIdle => None
  | CallerJoining =>
      l ← loops s !! pred (length (loops s));
      match lt_pc l with
      | LoopDone => Some (mkScavenger (loops s) false (mutex_ s) (passes s) CallerIdle)
      | _ => None
      end
  end.

Inductive action := CallStart (created : bool) | CallStop | StopReturns | LoopStep (k : nat) (timed_out : bool).

Definition cstep s (a : action) : option PageHeapScavenger :=
  match a with
  | CallStart created => Start s created
  | CallStop => Stop s
  | StopReturns => Stop_join s
  | LoopStep k timed_out => ScavengeLoop s k timed_out
  end.

Inductive reachable : PageHeapScavenger -> Prop :=
| reach_new : reachable PageHeapScavenger_new
| reach_step s a s' : reachable s -> cstep s a = Some s' -> reachable s'.

(** ** Invariant *)

Definition holds_mutex (p : loop_pc) : bool := match p with LoopTest | LoopTested _ => true | _ => false end.

Record inv s : Prop := {
  iv_last : forall k l, loops s !! k = Some l -> lt_pc l <> LoopDone -> joinable s = true /\ S k = length (loops s);
  iv_some : joinable s = true -> loops s <> [];
  iv_mutex : forall k, mutex_ s = Some k <-> exists l, loops s !! k = Some l /\ holds_mutex (lt_pc l) = true;
  iv_join : caller s = CallerJoining -> joinable s = true /\
    forall k l, S k = length (loops s) -> loops s !! k = Some l -> lt_stop l = true;
}.

Lemma loops_insert s k l p stop j l' : loops s !! k = Some l -> <[k := mkLoop p stop]> (loops s) !! j = Some l' ->
  j = k /\ l' = mkLoop p stop \/ j <> k /\ loops s !! j = Some l'.
Proof.
  intros Hk Hj. destruct (decide (j = k)) as [-> | Hne]; [left | right].
  - rewrite list_lookup_insert_eq in Hj by (by eapply lookup_lt_Some). by injection Hj as <-.
  - by rewrite list_lookup_insert_ne in Hj.
Qed.

(** Moving the thread that is not done, the mutex following. *)
Lemma move_loop_inv s k l p m n : inv s -> loops s !! k = Some l -> lt_pc l <> LoopDone ->
  (m = if holds_mutex p then Some k else if holds_mutex (lt_pc l) then None else mutex_ s) ->
  (holds_mutex p = true -> mutex_ s = None) -> inv (move_loop s k p (lt_stop l) m n).
Proof.
  intros [Hl Hs Hm Hj] Hk Hnd -> Hfree. destruct (Hl k l Hk Hnd) as [Hjn Hlast].
  constructor; cbn; rewrite ?length_insert.
  - intros j l' Hl' Hnd'. destruct (loops_insert _ _ _ _ _ _ _ Hk Hl') as [[-> ->] | [_ Hj']]; [done | by eapply Hl].
  - intros _ Hnil. apply (f_equal length) in Hnil. rewrite length_insert in Hnil. cbn in Hnil. lia.
  - intros j. destruct (decide (j = k)) as [-> | Hne].
    + rewrite list_lookup_insert_eq by (by eapply lookup_lt_Some). destruct (holds_mutex p) eqn:Hp; [naive_solver |].
      split; [| intros (? & [= <-] & Hx); cbn in Hx; congruence]. destruct (holds_mutex (lt_pc l)) eqn:Hpl; [done |].
      intros (l0 & Hl0 & Hx)%Hm. congruence.
    + rewrite list_lookup_insert_ne by done. rewrite <- Hm. destruct (holds_mutex p) eqn:Hp; [rewrite Hfree by done; naive_solver |].
      destruct (holds_mutex (lt_pc l)) eqn:Hpl; [| done].
      assert (Hmk : mutex_ s = Some k) by (apply Hm; by exists l). rewrite Hmk. naive_solver.
  - intros Hc. destruct (Hj Hc) as [? Hst]. split; [done |]. intros j l' Hjl Hl'.
    destruct (loops_insert _ _ _ _ _ _ _ Hk Hl') as [[-> ->] | [_ Hj']]; [cbn; by apply (Hst k) | by apply (Hst j)].
Qed.

Lemma loop_inv s k t s' : inv s -> ScavengeLoop s k t = Some s' -> inv s'.
Proof.
  intros Hi. unfold ScavengeLoop, lock_then. destruct (loops s !! k) as [[p stop] |] eqn:Hk; [| done]. cbn.
  pose proof (fun q => move_loop_inv s k (mkLoop p stop) q) as Hset. cbn in Hset. intros Hs'.
  destruct p as [| | | | [] | | |]; try discriminate Hs'.
  - destruct (mutex_ s) eqn:Hm; [discriminate Hs' |]. injection Hs' as <-. by apply Hset.
  - injection Hs' as <-. by destruct stop; apply Hset.
  - destruct (_ || _); [| discriminate Hs']. injection Hs' as <-. by apply Hset.
  - destruct (mutex_ s) eqn:Hm; [discriminate Hs' |]. injection Hs' as <-. by apply Hset.
  - injection Hs' as <-. by apply Hset.
  - injection Hs' as <-. by apply Hset.
  - injection Hs' as <-. by apply Hset.
  - destruct (mutex_ s) eqn:Hm; [discriminate Hs' |]. injection Hs' as <-. by apply Hset.
Qed.

Lemma start_inv s created s' : inv s -> Start s created = Some s' -> inv s'.
Proof.
  intros Hi. pose proof Hi as [Hl Hs Hm Hj]. unfold Start. destruct (caller s); [| done].
  destruct (joinable s) eqn:Hjn; cbn; [by intros [= <-] |]. destruct created; cbn; [| by intros [= <-]]. intros [= <-].
  assert (Hnew : forall k l, (loops s ++ [mkLoop LoopEnter false]) !! k = Some l ->
    loops s !! k = Some l \/ k = length (loops s) /\ l = mkLoop LoopEnter false).
  { intros k l [Hk | [Hge Hk]]%lookup_app_Some; [by left |]. apply list_lookup_singleton_Some in Hk as [? <-]. right. split; [lia | done]. }
  constructor; cbn.
  - intros k l [Hk | [-> ->]]%Hnew Hnd; [by destruct (Hl k l Hk Hnd) |]. split; [done |]. rewrite length_app. cbn. lia.
  - intros _ Hnil. by apply app_eq_nil in Hnil as [_ ?].
  - intros k. rewrite Hm. split; intros (l & Hk & Hp).
    + exists l. split; [by apply lookup_app_l_Some | done].
    + destruct (Hnew k l Hk) as [Hk' | [-> ->]]; [by exists l | done].
  - done.
Qed.

Lemma stop_inv s s' : inv s -> Stop s = Some s' -> inv s'.
Proof.
  intros Hi. pose proof Hi as [Hl Hs Hm Hj]. unfold Stop. destruct (caller s); [| done].
  destruct (joinable s) eqn:Hjn; [| by intros [= <-]]. set (k := pred _).
  destruct (loops s !! k) as [l |] eqn:Hk; [| done]. cbn. intros [= <-].
  constructor; cbn; rewrite ?length_insert.
  - intros j l' Hl' Hnd. destruct (loops_insert _ _ _ _ _ _ _ Hk Hl') as [[-> ->] | [_ Hj']]; [| by destruct (Hl j l' Hj' Hnd)].
    split; [done |]. pose proof (lookup_lt_Some _ _ _ Hk). lia.
  - intros _ Hnil. apply (f_equal length) in Hnil. rewrite length_insert in Hnil. pose proof (lookup_lt_Some _ _ _ Hk). cbn in Hnil. lia.
  - intros j. rewrite Hm. destruct (decide (j = k)) as [-> | Hne].
    + rewrite list_lookup_insert_eq by (by eapply lookup_lt_Some). rewrite Hk. naive_solver.
    + by rewrite list_lookup_insert_ne.
  - intros _. split; [done |]. intros j l' Hjl Hl'. destruct (loops_insert _ _ _ _ _ _ _ Hk Hl') as [[-> ->] | [Hne _]]; [done | lia].
Qed.

Lemma join_inv s s' : inv s -> Stop_join s = Some s' -> inv s'.
Proof.
  intros Hi. pose proof Hi as [Hl Hs Hm Hj]. unfold Stop_join. destruct (caller s) eqn:Hc; [done |].
  destruct (loops s !! _) as [l |] eqn:Hk; [| done]. cbn. destruct (lt_pc l) eqn:Hp; try done. intros [= <-].
  constructor; cbn; try done. intros j l' Hl' Hnd. destruct (Hl j l' Hl' Hnd) as [_ Hlast].
  replace (pred (length (loops s))) with j in Hk by lia. congruence.
Qed.

Lemma reachable_inv_thread s : reachable s -> inv s.
Proof.
  induction 1 as [| s a s' _ IH Hs].
  - constructor; cbn; try done. intros k. split; [done |]. by intros (l & Hl & _).
  - destruct a as [created | | | k t]; cbn in Hs; [by eapply start_inv | by eapply stop_inv | by eapply join_inv | by eapply loop_inv].
Qed.

(** ** What Stop waits for *)

(** Steps a thread asked to stop still takes. *)
Definition steps_left (p : loop_pc) : nat :=
  match p with
  | LoopDone => 0 | LoopTest => 1 | LoopTested true => 1 | LoopEnter => 2 | LoopRelock => 2 | LoopWoken => 2
  | LoopWaiting => 3 | LoopPass => 3 | LoopTested false => 4
  end.
(** Passes it still begins. *)
Definition passes_left (p : loop_pc) : nat := match p with LoopTested false => 1 | _ => 0 end.

(** Nobody else has the mutex. *)
Lemma mutex_free s k l : inv s -> loops s !! k = Some l -> lt_pc l <> LoopDone -> holds_mutex (lt_pc l) = false -> mutex_ s = None.
Proof.
  intros Hi Hk Hnd Hp. destruct (iv_last _ Hi k l Hk Hnd) as [_ Hlast].
  destruct (mutex_ s) as [j |] eqn:Hm; [| done]. apply (iv_mutex _ Hi) in Hm as (l' & Hj & Hp').
  assert (Hnd' : lt_pc l' <> LoopDone) by (intros E; by rewrite E in Hp'). destruct (iv_last _ Hi j l' Hj Hnd') as [_ Hlj].
  assert (j = k) as -> by lia. congruence.
Qed.

(** A thread is blocked by nothing but its wait. *)
Lemma loop_enabled s k l : inv s -> loops s !! k = Some l -> lt_pc l <> LoopDone -> is_Some (ScavengeLoop s k true).
Proof.
  intros Hi Hk Hnd. pose proof (mutex_free s k l Hi Hk Hnd) as Hfree. unfold ScavengeLoop, lock_then. rewrite Hk. cbn.
  destruct (lt_pc l) as [| | | | [] | | |]; try done; cbn in *; rewrite ?Hfree, ?orb_true_r by done; by eexists.
Qed.

Lemma stopped_step s k l t : inv s -> loops s !! k = Some l -> lt_pc l <> LoopDone -> lt_stop l = true ->
  exists s' p, ScavengeLoop s k t = Some s' /\ loops s' !! k = Some (mkLoop p true) /\ length (loops s') = length (loops s) /\
    caller s' = caller s /\ steps_left (lt_pc l) = S (steps_left p) /\ (passes s' + passes_left p = passes s + passes_left (lt_pc l))%nat.
Proof.
  intros Hi Hk Hnd Hst. pose proof (lookup_lt_Some _ _ _ Hk) as Hlt.
  pose proof (mutex_free s k l Hi Hk Hnd) as Hfree.
  unfold ScavengeLoop, lock_then. rewrite Hk. cbn. rewrite Hst. destruct (lt_pc l) as [| | | | [] | | |]; try done; cbn in *.
  all: rewrite ?Hfree by done; eexists _, _; split; [reflexivity |]; cbn;
    rewrite list_lookup_insert_eq, length_insert by done; split_and!; try done; try lia.
Qed.

(** The loop's thread alone, from [s]; the flags say when its waits are over. *)
Fixpoint loop_run s k (ts : list bool) : option PageHeapScavenger :=
  match ts with [] => Some s | t :: ts' => s ← ScavengeLoop s k t; loop_run s k ts' end.

Lemma stopped_run k : forall n s l ts, reachable s -> loops s !! k = Some l -> lt_stop l = true -> steps_left (lt_pc l) = n -> length ts = n ->
  exists s', loop_run s k ts = Some s' /\ reachable s' /\ loops s' !! k = Some (mkLoop LoopDone true) /\ length (loops s') = length (loops s) /\
    caller s' = caller s /\ passes s' = (passes s + passes_left (lt_pc l))%nat.
Proof.
  induction n as [| n IH]; intros s l ts Hr Hk Hst Hn Hts.
  - destruct ts; [| done]. exists s. assert (Hd : lt_pc l = LoopDone) by (by destruct (lt_pc l) as [| | | | [] | | |]). split; [done |].
    split; [done |]. split; [rewrite Hk; destruct l; cbn in *; congruence |]. rewrite Hd. cbn. split_and!; [done | done | lia].
  - destruct ts as [| t ts]; [done |]. assert (Hnd : lt_pc l <> LoopDone) by (intros E; by rewrite E in Hn).
    destruct (stopped_step s k l t (reachable_inv_thread s Hr) Hk Hnd Hst) as (s1 & p & Hs1 & Hk1 & Hlen & Hc & Hleft & Hp).
    destruct (IH s1 (mkLoop p true) ts) as (s' & Hrun & Hr' & Hk' & Hlen' & Hc' & Hp'); try done.
    + by apply (reach_step s (LoopStep k t)).
    + cbn. lia.
    + cbn in Hts. lia.
    + exists s'. cbn [loop_run]. rewrite Hs1. cbn. split; [done |]. split; [done |]. split; [done |]. cbn in Hp'. split_and!; [congruence | congruence | lia].
Qed.

(** C20: [Start] and [Stop] control at most one scavenger.  However they are called,
    and however the threads run: at most one thread has not ended; the mutex is
    held only at the loop's tests, never during a wait or a pass; a thread is
    never blocked but in its wait; when [scavenge_thread_] is not joinable (never
    started, or [Stop] has returned), no thread runs and no pass is under way;
    and a [Stop] that waits returns after at most four more steps of the
    thread, whether its wait is over or not, which begins at most one more pass. *)
Theorem scavenger_thread_control s :
  reachable s ->
  (forall i j li lj, loops s !! i = Some li -> loops s !! j = Some lj -> lt_pc li <> LoopDone -> lt_pc lj <> LoopDone -> i = j) /\
  (forall k l, mutex_ s = Some k -> loops s !! k = Some l -> lt_pc l <> LoopWaiting /\ lt_pc l <> LoopPass) /\
  (forall k l, loops s !! k = Some l -> lt_pc l <> LoopDone -> is_Some (ScavengeLoop s k true)) /\
  (joinable s = false -> forall k l, loops s !! k = Some l -> lt_pc l = LoopDone) /\
  (caller s = CallerJoining -> exists n, (n <= 4)%nat /\ forall ts, length ts = n ->
     exists s1 s2, loop_run s (pred (length (loops s))) ts = Some s1 /\ Stop_join s1 = Some s2 /\ joinable s2 = false /\
       (passes s2 <= S (passes s))%nat).
Proof.
  intros Hr. pose proof (reachable_inv_thread s Hr) as Hi. pose proof Hi as [Hl Hs Hm Hj]. split; [| split; [| split; [| split]]].
  - intros i j li lj Hli Hlj Hni Hnj. destruct (Hl i li Hli Hni), (Hl j lj Hlj Hnj). lia.
  - intros k l (l' & Hk & Hp)%Hm Hk'. rewrite Hk in Hk'. injection Hk' as ->. by destruct (lt_pc l).
  - intros k l. by apply loop_enabled.
  - intros Hjn k l Hk. destruct (decide (lt_pc l = LoopDone)) as [| Hnd]; [done |]. destruct (Hl k l Hk Hnd). congruence.
  - intros Hc. destruct (Hj Hc) as [Hjn Hst]. destruct (lookup_lt_is_Some_2 (loops s) (pred (length (loops s)))) as [l Hk].
    { pose proof (Hs Hjn). destruct (loops s); [done | cbn; lia]. }
    pose proof (lookup_lt_Some _ _ _ Hk) as Hlt. assert (Hstop : lt_stop l = true) by (eapply (Hst _ l); [| exact Hk]; lia).
    exists (steps_left (lt_pc l)). split; [destruct (lt_pc l) as [| | | | [] | | |]; cbn; lia |]. intros ts Hts.
    destruct (stopped_run _ _ s l ts Hr Hk Hstop eq_refl Hts) as (s1 & Hrun & _ & Hk1 & Hlen & Hc1 & Hp).
    exists s1, (mkScavenger (loops s1) false (mutex_ s1) (passes s1) CallerIdle). split; [done |]. split; [| split; [done |]].
    + unfold Stop_join. rewrite Hc1, Hc, Hlen, Hk1. done.
    + cbn. rewrite Hp. destruct (lt_pc l) as [| | | | [] | | |]; cbn; lia.
Qed.

(** ** A concrete run *)

Fixpoint run_actions s (acts : list action) : option PageHeapScavenger :=
  match acts with [] => Some s | a :: acts' => s ← cstep s a; run_actions s acts' end.
Lemma run_actions_reachable acts : forall s s', reachable s -> run_actions s acts = Some s' -> reachable s'.
Proof.
  induction acts as [| a acts IH]; intros s s' Hr; cbn; [by intros [= <-] |]. destruct (cstep s a) as [s1 |] eqn:E; [| done].
  apply IH. by eapply reach_step.
Qed.

(** Started twice, one full wait and a pass, a second wait, and [Stop] called after it. *)
Definition sample_life : list action :=
  [CallStart true; CallStart true; LoopStep 0 false; LoopStep 0 false; LoopStep 0 true; LoopStep 0 false; LoopStep 0 false;
   LoopStep 0 false; LoopStep 0 false; LoopStep 0 false; LoopStep 0 true; LoopStep 0 false; CallStop].
Definition sample_stopping : PageHeapScavenger := default PageHeapScavenger_new (run_actions PageHeapScavenger_new sample_life).

Lemma scavenger_thread_control_witness :
  (exists n, (n <= 4)%nat /\ forall ts, length ts = n ->
     exists s1 s2, loop_run sample_stopping 0 ts = Some s1 /\ Stop_join s1 = Some s2 /\ joinable s2 = false /\ (passes s2 <= 2)%nat) /\
  sample_stopping = mkScavenger [mkLoop (LoopTested false) true] true (Some 0%nat) 1 CallerJoining.
Proof.
  split; [| reflexivity]. assert (Hr : reachable sample_stopping).
  { apply (run_actions_reachable sample_life PageHeapScavenger_new); [constructor | reflexivity]. }
  apply (scavenger_thread_control sample_stopping Hr). reflexivity.
Defined.
