(* ===== verification/Binary64.v ===== *)
(** * Doubles (the arithmetic of HistogramPercentileNs in src/lock_instrumentation.cpp)

    The binary64 numbers of [SpecFloat], which define IEEE 754 arithmetic with
    rounding to nearest: the conversion from [size_t], the product and the
    conversion of a ceiling back to [size_t].  The lemmas bound the product of a
    fraction and a count: it is rounded, but never above the count. *)
From Stdlib Require Import SpecFloat.
From S2P Require Import Prelude.
Open Scope Z_scope.

Abbreviation double := spec_float.
#[export] Instance double_eq_dec : EqDecision double.
Proof. solve_decision. Defined.
Definition d_zero : double := S754_zero false.
Definition d_one : double := S754_finite false 4503599627370496 (-52).
(** [static_cast<double>(n)], [x * y], and [static_cast<size_t>(std::ceil(x))];
    the last conversion is undefined outside the range of [size_t]. *)
Definition d_of_size (n : Z) : double := binary_normalize 53 1024 n 0 false.
Definition d_mul (x y : double) : double := SFmul 53 1024 x y.
Definition size_of_ceil (x : double) : outcome Z :=
  match x with
  | S754_zero _ => Ok 0
  | S754_finite s m e =>
      let v := if s then Zneg m else Zpos m in
      let c := if 0 <=? e then v * 2 ^ e else - ((- v) / 2 ^ (- e)) in
      if (0 <=? c) && (c <=? SIZE_MAX) then Ok c else UB "double out of the range of size_t"
  | _ => UB "double out of the range of size_t"
  end.


(** ** Right shifts of a mantissa *)

Lemma iter_pos_nat {A} (f : A -> A) p x : SpecFloat.iter_pos f p x = Nat.iter (Pos.to_nat p) f x.
Proof.
  revert x. induction p as [p IH | p IH |]; intros x; cbn [SpecFloat.iter_pos].
  - rewrite !IH, Pos2Nat.inj_xI. replace (S (2 * Pos.to_nat p)) with (Pos.to_nat p + (Pos.to_nat p + 1))%nat by lia.
    rewrite !Nat.iter_add. done.
  - rewrite !IH, Pos2Nat.inj_xO. replace (2 * Pos.to_nat p)%nat with (Pos.to_nat p + Pos.to_nat p)%nat by lia.
    rewrite Nat.iter_add. done.
  - done.
Qed.

Lemma shr_1_ok m r s :
  0 <= m -> exists r' s', shr_1 (Build_shr_record m r s) = Build_shr_record (m / 2) r' s' /\
  (m mod 2 = 0 -> r = false -> s = false -> r' = false /\ s' = false).
Proof.
  intros Hm. destruct m as [| [p | p |] | p]; try lia; cbn [shr_1].
  - exists false, (r || s). split; [done |]. intros _ -> ->. done.
  - exists true, (r || s). rewrite Pos2Z.inj_xI. split.
    + f_equal. replace (2 * Zpos p + 1) with (1 + Zpos p * 2) by lia. rewrite Z.div_add by lia. done.
    + replace (2 * Zpos p + 1) with (1 + Zpos p * 2) by lia. rewrite Z.mod_add by lia. done.
  - exists false, (r || s). rewrite Pos2Z.inj_xO. split.
    + f_equal. rewrite Z.mul_comm, Z.div_mul by lia. done.
    + intros _ -> ->. done.
  - exists true, (r || s). split; done.
Qed.

Lemma shr_iter_ok n m :
  0 <= m -> exists r s, Nat.iter n shr_1 (Build_shr_record m false false) =
    Build_shr_record (m / 2 ^ Z.of_nat n) r s /\ (m mod 2 ^ Z.of_nat n = 0 -> r = false /\ s = false).
Proof.
  intros Hm. induction n as [| n (r & s & IH & Hex)].
  { exists false, false. simpl. rewrite Z.div_1_r. done. }
  rewrite Nat.iter_succ, IH. pose proof (Z.pow_pos_nonneg 2 (Z.of_nat n) ltac:(lia) ltac:(lia)).
  destruct (shr_1_ok (m / 2 ^ Z.of_nat n) r s) as (r' & s' & -> & Hex').
  { apply Z.div_pos; lia. }
  exists r', s'. rewrite Nat2Z.inj_succ, Z.pow_succ_r by lia.
  rewrite (Z.mul_comm 2), Z.div_div by lia. split; [done |].
  intros Hmod. rewrite Z.rem_mul_r in Hmod by lia.
  pose proof (Z.mod_pos_bound m (2 ^ Z.of_nat n) ltac:(lia)).
  pose proof (Z.mod_pos_bound (m / 2 ^ Z.of_nat n) 2 ltac:(lia)).
  destruct Hex as [-> ->]; [nia |]. apply Hex'; [nia | done | done].
Qed.

(** ** Rounding *)

Lemma Zdigits2_log2 m : 0 < m -> Zdigits2 m = Z.log2 m + 1.
Proof.
  destruct m as [| p | p]; try lia. intros _. unfold Zdigits2.
  induction p as [p IH | p IH |]; [| | done]; cbn [digits2_pos]; rewrite Pos2Z.inj_succ, IH by lia.
  - rewrite Pos2Z.inj_xI, Z.log2_succ_double by lia. lia.
  - rewrite Pos2Z.inj_xO, Z.log2_double by lia. lia.
Qed.

(** The exponent a mantissa is shifted to: 53 significant bits, or the subnormal
    range. *)
Definition exp_of (m e : Z) : Z := Z.max (Z.log2 m + 1 + e - 53) (-1074).

Lemma shr_fexp_ok m e :
  0 < m -> let k := exp_of m e - e in
  exists r s, shr_fexp 53 1024 m e loc_Exact = (Build_shr_record (m / 2 ^ Z.max k 0) r s, e + Z.max k 0) /\
    (m mod 2 ^ Z.max k 0 = 0 -> r = false /\ s = false).
Proof.
  intros Hm k. unfold shr_fexp, shr, shr_record_of_loc. rewrite Zdigits2_log2 by done.
  change (fexp 53 1024 (Z.log2 m + 1 + e)) with (exp_of m e). fold k.
  destruct k as [| p | p] eqn:Hk.
  - exists false, false. simpl. rewrite Z.div_1_r, Z.add_0_r. done.
  - rewrite iter_pos_nat. destruct (shr_iter_ok (Pos.to_nat p) m ltac:(lia)) as (r & s & -> & Hex).
    exists r, s. rewrite positive_nat_Z in *. rewrite Z.max_l by lia. done.
  - exists false, false. rewrite Z.max_r by lia. simpl. rewrite Z.div_1_r, Z.add_0_r. done.
Qed.

Lemma exp_of_neg m e N :
  0 < m -> e <= 0 -> m <= N * 2 ^ (- e) -> N < 2 ^ 53 -> exp_of m e <= 0.
Proof.
  intros Hm He HmN HN. unfold exp_of. apply Z.max_lub; [| lia].
  assert (m < 2 ^ (53 - e)).
  { replace (53 - e) with (53 + - e) by lia. rewrite Z.pow_add_r by lia.
    pose proof (Z.pow_pos_nonneg 2 (- e)). nia. }
  assert (Z.log2 m < 53 - e) by (apply Z.log2_lt_pow2; lia). lia.
Qed.

(** One shift-and-round step does not leave [0, N]. *)
Lemma round_step_le m k A :
  0 < m -> 0 <= k -> m <= A * 2 ^ k -> forall r s, (m mod 2 ^ k = 0 -> r = false /\ s = false) ->
  0 <= round_nearest_even (m / 2 ^ k) (loc_of_shr_record (Build_shr_record (m / 2 ^ k) r s)) <= A.
Proof.
  intros Hm Hk HmA r s Hex. pose proof (Z.pow_pos_nonneg 2 k ltac:(lia) Hk) as Hp.
  assert (0 <= m / 2 ^ k) by (apply Z.div_pos; lia).
  assert (Hle : m / 2 ^ k <= A) by (apply Z.div_le_upper_bound; lia).
  assert (Hlt : m mod 2 ^ k <> 0 -> m / 2 ^ k < A).
  { intros Hmod. apply Z.div_lt_upper_bound; [lia |].
    destruct (Z.eq_dec m (A * 2 ^ k)) as [-> |]; [rewrite Z.mod_mul in Hmod; lia | lia]. }
  destruct (Z.eq_dec (m mod 2 ^ k) 0) as [H0 | H0].
  - destruct (Hex H0) as [-> ->]. simpl. lia.
  - specialize (Hlt H0). destruct r, s; simpl; try case_match; lia.
Qed.

(** A step that only rounds up or down: the result is one of the two neighbours. *)
Lemma round_step_near m k r s :
  0 < m -> 0 <= k -> (m mod 2 ^ k = 0 -> r = false /\ s = false) ->
  let p := round_nearest_even (m / 2 ^ k) (loc_of_shr_record (Build_shr_record (m / 2 ^ k) r s)) * 2 ^ k in
  m - 2 ^ k < p <= m + 2 ^ k /\ (k = 0 -> p = m).
Proof.
  intros Hm Hk Hex p. pose proof (Z.pow_pos_nonneg 2 k ltac:(lia) Hk) as Hp.
  pose proof (Z.div_mod m (2 ^ k) ltac:(lia)) as Hdm. pose proof (Z.mod_pos_bound m (2 ^ k) ltac:(lia)) as Hmod.
  assert (Hr : round_nearest_even (m / 2 ^ k) (loc_of_shr_record (Build_shr_record (m / 2 ^ k) r s)) = m / 2 ^ k \/
    round_nearest_even (m / 2 ^ k) (loc_of_shr_record (Build_shr_record (m / 2 ^ k) r s)) = m / 2 ^ k + 1 /\ m mod 2 ^ k <> 0).
  { destruct (Z.eq_dec (m mod 2 ^ k) 0) as [H0 | H0]; [destruct (Hex H0) as [-> ->]; by left |].
    destruct r, s; cbn; try case_match; auto. }
  subst p. split; [destruct Hr as [-> | [-> ?]]; nia |]. intros ->. change (2 ^ 0) with 1 in *. rewrite Z.mod_1_r in Hr.
  destruct Hr as [-> | [_ ?]]; [rewrite Z.div_1_r; lia | done].
Qed.

(** The mantissa after the first step has at most 53 bits, or is [2^53]; the
    second step does not round. *)
Lemma second_step_exact m e k m1 :
  0 < m -> k = Z.max (exp_of m e - e) 0 -> 0 < m1 <= m / 2 ^ k + 1 ->
  let k2 := Z.max (exp_of m1 (e + k) - (e + k)) 0 in m1 / 2 ^ k2 * 2 ^ k2 = m1 /\ m1 <= 2 ^ 53.
Proof.
  intros Hm Hk Hm1 k2. pose proof (Z.log2_spec m Hm) as [_ Hlog]. pose proof (Z.log2_nonneg m).
  assert (Hk0 : 0 <= k) by lia. pose proof (Z.pow_pos_nonneg 2 k ltac:(lia) Hk0) as Hp.
  assert (Hq : m / 2 ^ k < 2 ^ 53).
  { apply Z.div_lt_upper_bound; [lia |]. rewrite <- Z.pow_add_r by lia.
    eapply Z.lt_le_trans; [exact Hlog |]. apply Z.pow_le_mono_r; [lia |]. unfold exp_of in Hk. lia. }
  split; [| lia]. assert (Hl : Z.log2 m1 <= 53) by (apply Z.log2_le_mono with (b := 2 ^ 53); lia).
  assert (Hk2 : k2 = 0 \/ k2 = 1 /\ Z.log2 m1 = 53) by (subst k2; unfold exp_of in *; lia).
  destruct Hk2 as [-> | [-> H53]]; [rewrite Z.div_1_r; lia |].
  assert (m1 = 2 ^ 53) as -> by (pose proof (Z.log2_spec m1 ltac:(lia)) as Hs; rewrite H53 in Hs; lia). done.
Qed.

(** [c] is the ceiling of [q * 2^E]. *)
Lemma ceil_bounds q E : 0 <= q -> E <= 0 ->
  let c := if 0 <=? E then q * 2 ^ E else - (- q / 2 ^ (- E)) in q <= c * 2 ^ (- E) /\ (c - 1) * 2 ^ (- E) < q.
Proof.
  intros Hq HE c. subst c. case_cmp; [replace E with 0 by lia; cbn; lia |].
  pose proof (Z.pow_pos_nonneg 2 (- E) ltac:(lia) ltac:(lia)) as Hp.
  pose proof (Z.div_mod (- q) (2 ^ (- E)) ltac:(lia)). pose proof (Z.mod_pos_bound (- q) (2 ^ (- E)) ltac:(lia)). nia.
Qed.

(** A real number [m * 2^e] of at most [N] rounds to a number [p * 2^e], a
    neighbour on its exponent, whose ceiling is in [0, N]. *)
Lemma round_le m e N :
  0 < Zpos m -> e <= 0 -> Zpos m <= N * 2 ^ (- e) -> N < 2 ^ 53 ->
  exists c p, size_of_ceil (binary_round_aux 53 1024 false (Zpos m) e loc_Exact) = Ok c /\ 0 <= c <= N /\
    p <= c * 2 ^ (- e) /\ (c - 1) * 2 ^ (- e) < p /\
    let k := Z.max (exp_of (Zpos m) e - e) 0 in
    Zpos m - 2 ^ k < p <= Zpos m + 2 ^ k /\ (k = 0 -> p = Zpos m) /\ p <= 2 ^ (53 + k).
Proof.
  intros Hm He HmN HN. unfold binary_round_aux.
  assert (H0N : 0 <= N) by (pose proof (Z.pow_pos_nonneg 2 (- e)); nia).
  pose proof (exp_of_neg _ _ _ Hm He HmN HN) as Hex1.
  destruct (shr_fexp_ok (Zpos m) e Hm) as (r & s & -> & Hr). cbn [shr_m].
  set (k := Z.max (exp_of (Zpos m) e - e) 0) in *.
  assert (Hk : 0 <= k) by (unfold k; lia). assert (Hek : e + k <= 0) by (unfold k; lia).
  destruct (round_step_le (Zpos m) k (N * 2 ^ (- (e + k))) Hm Hk) with (r := r) (s := s) as [Hn0 HnN].
  { rewrite <- Z.mul_assoc, <- Z.pow_add_r by lia. replace (- (e + k) + k) with (- e) by lia. done. }
  { done. }
  pose proof (round_step_near (Zpos m) k r s Hm Hk Hr) as Hnear. cbv zeta in Hnear.
  assert (Hup : round_nearest_even (Zpos m / 2 ^ k) (loc_of_shr_record (Build_shr_record (Zpos m / 2 ^ k) r s)) <= Zpos m / 2 ^ k + 1)
    by (destruct r, s; cbn; try case_match; lia).
  set (m1 := round_nearest_even _ _) in *. pose proof (Z.pow_pos_nonneg 2 k ltac:(lia) Hk) as Hpk.
  pose proof (Z.pow_pos_nonneg 2 (- e) ltac:(lia) ltac:(lia)) as Hpe.
  destruct (decide (m1 = 0)) as [Hz | Hz].
  { rewrite Hz in *. assert (Hz2 : exists x e2, shr_fexp 53 1024 0 (e + k) loc_Exact = (x, e2) /\ shr_m x = 0).
    { unfold shr_fexp, shr, shr_record_of_loc. case_match; [by eexists _, _ | | by eexists _, _].
      rewrite iter_pos_nat. destruct (shr_iter_ok (Pos.to_nat p) 0 ltac:(lia)) as (r2 & s2 & -> & _).
      eexists _, _. split; [done |]. simpl. apply Z.div_0_l. apply Z.pow_nonzero; lia. }
    destruct Hz2 as (x & e2 & -> & ->). exists 0, 0. rewrite Z.mul_0_l in Hnear.
    pose proof (Z.pow_pos_nonneg 2 (53 + k) ltac:(lia) ltac:(lia)). split; [done | lia]. }
  pose proof (exp_of_neg m1 (e + k) N ltac:(lia) Hek HnN HN) as Hex2.
  destruct (shr_fexp_ok m1 (e + k) ltac:(lia)) as (r2 & s2 & -> & _). cbn [shr_m].
  destruct (second_step_exact (Zpos m) e k m1 Hm eq_refl ltac:(lia)) as [Hexact H53]. cbv zeta in Hexact.
  set (k2 := Z.max (exp_of m1 (e + k) - (e + k)) 0) in *. assert (Hk2 : 0 <= k2) by (unfold k2; lia).
  pose proof (Z.pow_pos_nonneg 2 k2 ltac:(lia) Hk2) as Hpk2. assert (He2 : e + k + k2 <= 0) by (unfold k2; lia).
  assert (Epow : 2 ^ (- e) = 2 ^ k * 2 ^ k2 * 2 ^ (- (e + k + k2))) by (rewrite <- !Z.pow_add_r by lia; f_equal; lia).
  assert (EpowN : 2 ^ (- (e + k)) = 2 ^ k2 * 2 ^ (- (e + k + k2))) by (rewrite <- Z.pow_add_r by lia; f_equal; lia).
  pose proof (Z.pow_pos_nonneg 2 (- (e + k + k2)) ltac:(lia) ltac:(lia)) as HpE.
  destruct (m1 / 2 ^ k2) as [| q | q] eqn:Eq; [lia | | nia].
  rewrite (proj2 (Z.leb_le _ _)) by lia. unfold size_of_ceil.
  destruct (ceil_bounds (Zpos q) (e + k + k2) ltac:(lia) He2) as [Hc1 Hc2]. cbv zeta.
  set (c := if 0 <=? e + k + k2 then _ else _) in *.
  assert (Hc0 : 0 <= c <= N) by (split; [nia |]; assert ((c - 1) * 2 ^ (- (e + k + k2)) < N * 2 ^ (- (e + k + k2))) by nia; nia).
  exists c, (m1 * 2 ^ k). rewrite (proj2 (Z.leb_le _ _)), (proj2 (Z.leb_le _ _)) by (unfold SIZE_MAX; lia).
  split; [done |]. split; [done |]. split; [rewrite Epow; nia |]. split; [rewrite Epow; nia |]. split; [apply Hnear |].
  split; [apply Hnear |]. rewrite Z.pow_add_r by lia. nia.
Qed.

(** The ceiling of a rounded number is the number's own ceiling, up to a relative
    error of one unit in the last of 52 places (and 1 stands for 0). *)
Lemma round_ceil m e N :
  0 < Zpos m -> e <= 0 -> Zpos m <= N * 2 ^ (- e) -> N < 2 ^ 53 ->
  exists c, size_of_ceil (binary_round_aux 53 1024 false (Zpos m) e loc_Exact) = Ok c /\ 0 <= c <= N /\
    (2 ^ 52 - 1) * Zpos m <= 2 ^ 52 * 2 ^ (- e) * Z.max 1 c /\ 2 ^ 52 * 2 ^ (- e) * (c - 1) < (2 ^ 52 + 1) * Zpos m.
Proof.
  intros Hm He HmN HN. destruct (round_le m e N Hm He HmN HN) as (c & p & Hc & Hc0 & Hp1 & Hp2 & Hnear & Hex & H53).
  exists c. split; [done |]. split; [done |]. pose proof (Z.pow_pos_nonneg 2 (- e) ltac:(lia) ltac:(lia)) as Hpe.
  pose proof (Z.log2_spec (Zpos m) Hm) as [Hl1 Hl2]. pose proof (Z.log2_nonneg (Zpos m)).
  set (k := Z.max (exp_of (Zpos m) e - e) 0) in *.
  destruct (Z.le_gt_cases k (Z.max (Z.log2 (Zpos m) - 52) 0)) as [Hn | Hsub].
  - assert (Hpm : (2 ^ 52 - 1) * Zpos m <= 2 ^ 52 * p <= (2 ^ 52 + 1) * Zpos m).
    { destruct (Z.eq_dec k 0) as [-> |]; [rewrite (Hex eq_refl); lia |].
      assert (2 ^ 52 * 2 ^ k <= Zpos m); [| lia]. etransitivity; [| exact Hl1]. rewrite <- Z.pow_add_r by lia. apply Z.pow_le_mono_r; lia. }
    split; nia.
  - assert (Hkv : k = - 1074 - e) by (unfold k, exp_of in *; lia).
    assert (Hsmall : Zpos m < 2 ^ (53 + k)) by (eapply Z.lt_le_trans; [exact Hl2 |]; apply Z.pow_le_mono_r; unfold k, exp_of in *; lia).
    assert (Hbig : 2 ^ (53 + k) < 2 ^ (- e)) by (apply Z.pow_lt_mono_r; lia).
    assert (c <= 1) by nia. split; nia.
Qed.

(** ** Counts and fractions *)

Lemma pos_iter_xO p d : Zpos (Pos.iter xO p d) = Zpos p * 2 ^ Zpos d.
Proof.
  revert p. induction d as [| d IH] using Pos.peano_ind; intros p; [simpl; lia |].
  rewrite Pos.iter_succ, Pos2Z.inj_xO, IH, Pos2Z.inj_succ, Z.pow_succ_r by lia. lia.
Qed.

(** A number of at most 53 bits on its exponent is not rounded. *)
Lemma round_exact m e k :
  0 <= k -> exp_of (Zpos m * 2 ^ k) e = e + k -> -1074 <= e + k <= 971 -> Z.log2 (Zpos m) < 53 ->
  forall m', Zpos m' = Zpos m * 2 ^ k ->
  binary_round_aux 53 1024 false (Zpos m') e loc_Exact = S754_finite false m (e + k).
Proof.
  intros Hk Hexp He Hlog m' Hm'. unfold binary_round_aux. pose proof (Z.pow_pos_nonneg 2 k ltac:(lia) Hk).
  destruct (shr_fexp_ok (Zpos m') e ltac:(lia)) as (r & s & -> & Hr). cbn [shr_m].
  rewrite Hm', Hexp in *. replace (e + k - e) with k in * by lia. rewrite Z.max_l in * by lia.
  rewrite Z.mod_mul, Z.div_mul in * by lia. destruct (Hr eq_refl) as [-> ->]. cbn [loc_of_shr_record round_nearest_even].
  destruct (shr_fexp_ok (Zpos m) (e + k) ltac:(lia)) as (r2 & s2 & -> & _). cbn [shr_m].
  rewrite Z.max_r by (unfold exp_of; lia). rewrite Z.div_1_r, Z.add_0_r.
  rewrite (proj2 (Z.leb_le _ _)) by lia. done.
Qed.

(** [static_cast<double>(n)] is exact below [2^53]. *)
Lemma d_of_size_exact n :
  0 < n < 2 ^ 53 -> exists m, d_of_size n = S754_finite false m (Z.log2 n - 52) /\
    Zpos m = n * 2 ^ (52 - Z.log2 n) /\ Z.log2 (Zpos m) = 52.
Proof.
  intros Hn. destruct n as [| p | p]; try lia.
  assert (Hlog : 0 <= Z.log2 (Zpos p) < 53) by (split; [apply Z.log2_nonneg | apply Z.log2_lt_pow2; lia]).
  set (d := Z.log2 (Zpos p)) in *.
  assert (Hm : exists m, shl_align p 0 (fexp 53 1024 (Zpos (digits2_pos p) + 0)) = (m, d - 52) /\
             Zpos m = Zpos p * 2 ^ (52 - d)).
  { change (Zpos (digits2_pos p)) with (Zdigits2 (Zpos p)). rewrite Zdigits2_log2 by lia. fold d.
    unfold fexp, emin. rewrite Z.max_l by lia. unfold shl_align.
    replace (d + 1 + 0 - 53 - 0) with (d - 52) by lia. replace (d + 1 + 0 - 53) with (d - 52) by lia.
    destruct (d - 52) as [| q | q] eqn:Hd; [| lia |].
    - exists p. replace (52 - d) with 0 by lia. split; [done | lia].
    - eexists. split; [done |]. rewrite pos_iter_xO. do 2 f_equal. lia. }
  destruct Hm as (m & Hal & Hm). exists m.
  assert (Hlm : Z.log2 (Zpos m) = 52) by (rewrite Hm, Z.log2_mul_pow2 by lia; fold d; lia).
  split; [| done]. unfold d_of_size, binary_normalize, binary_round. rewrite Hal.
  rewrite (round_exact m (d - 52) 0); rewrite ?Z.pow_0_r, ?Z.mul_1_r; try lia; [f_equal; lia |].
  unfold exp_of. rewrite Hlm. lia.
Qed.

(** Multiplying by [1.0] changes nothing; the ceiling gives the count back. *)
Lemma mul_one_count n :
  0 < n < 2 ^ 53 -> size_of_ceil (d_mul d_one (d_of_size n)) = Ok n.
Proof.
  intros Hn. assert (Hlog : 0 <= Z.log2 n < 53) by (split; [apply Z.log2_nonneg | apply Z.log2_lt_pow2; lia]).
  destruct (d_of_size_exact n Hn) as (m & -> & Hm & Hlm).
  unfold d_mul, d_one, SFmul. rewrite (round_exact m _ 52); [| lia | | lia | lia | change (2 ^ 52) with 4503599627370496; lia].
  2: { unfold exp_of. rewrite Z.log2_mul_pow2 by lia. lia. }
  unfold size_of_ceil. replace (-52 + (Z.log2 n - 52) + 52) with (Z.log2 n - 52) by lia.
  assert (Hv : (if 0 <=? Z.log2 n - 52 then Zpos m * 2 ^ (Z.log2 n - 52)
           else - (- Zpos m / 2 ^ (- (Z.log2 n - 52)))) = n).
  { case_cmp.
    - replace (Z.log2 n - 52) with 0 by lia. replace (52 - Z.log2 n) with 0 in Hm by lia. simpl in *. lia.
    - replace (- (Z.log2 n - 52)) with (52 - Z.log2 n) by lia. rewrite Hm, <- Z.mul_opp_l, Z.div_mul; [lia |].
      apply Z.pow_nonzero; lia. }
  cbv zeta. rewrite Hv, (proj2 (Z.leb_le _ _)), (proj2 (Z.leb_le _ _)); [done | unfold SIZE_MAX |]; lia.
Qed.

Lemma compare_le p m :
  match Some (Pos.compare_cont Eq p m) with Some Lt => true | _ => false end = false -> Zpos m <= Zpos p.
Proof. change (Pos.compare_cont Eq p m) with (Pos.compare p m). destruct (Pos.compare_spec p m) as [-> | |]; [lia | done | lia]. Qed.

(** The mantissa and exponent of a fraction of at most one. *)
Lemma fraction_le_one m e :
  valid_binary 53 1024 (S754_finite false m e) = true -> SFltb d_one (S754_finite false m e) = false ->
  e <= -52 /\ Zpos m <= 2 ^ (- e).
Proof.
  intros Hvalid Hle. cbn [valid_binary] in Hvalid. unfold bounded, canonical_mantissa in Hvalid.
  apply andb_true_iff in Hvalid as [Hc%Z.eqb_eq _].
  change (Zpos (digits2_pos m)) with (Zdigits2 (Zpos m)) in Hc. rewrite Zdigits2_log2 in Hc by lia.
  unfold fexp, emin in Hc.
  unfold SFltb, d_one, SFcompare in Hle. destruct (Z.compare_spec (-52) e) as [<- | | Hlt]; [| done |].
  - split; [lia |]. change (2 ^ (- -52)) with 4503599627370496. by apply compare_le.
  - split; [lia |]. assert (Zpos m < 2 ^ 53) by (apply Z.log2_lt_pow2; lia).
    assert (2 ^ 53 <= 2 ^ (- e)) by (apply Z.pow_le_mono_r; lia). lia.
Qed.

(** One is [d_one] only. *)
Lemma fraction_one m e : valid_binary 53 1024 (S754_finite false m e) = true -> e <= 0 -> Zpos m = 2 ^ (- e) ->
  S754_finite false m e = d_one.
Proof.
  intros Hvalid He Hm. cbn [valid_binary] in Hvalid. unfold bounded, canonical_mantissa in Hvalid.
  apply andb_true_iff in Hvalid as [Hc%Z.eqb_eq _].
  change (Zpos (digits2_pos m)) with (Zdigits2 (Zpos m)) in Hc. rewrite Zdigits2_log2 in Hc by lia. unfold fexp, emin in Hc.
  rewrite Hm, Z.log2_pow2 in Hc by lia. assert (e = -52) as -> by lia. unfold d_one. f_equal.
  apply Pos2Z.inj. rewrite Hm. done.
Qed.

(** And of one above one. *)
Lemma fraction_gt_one m e :
  valid_binary 53 1024 (S754_finite false m e) = true -> SFltb d_one (S754_finite false m e) = true ->
  2 ^ Z.max 0 (- e) <= Zpos m * 2 ^ Z.max 0 e.
Proof.
  intros Hvalid Hlt. cbn [valid_binary] in Hvalid. unfold bounded, canonical_mantissa in Hvalid.
  apply andb_true_iff in Hvalid as [Hc%Z.eqb_eq _].
  change (Zpos (digits2_pos m)) with (Zdigits2 (Zpos m)) in Hc. rewrite Zdigits2_log2 in Hc by lia. unfold fexp, emin in Hc.
  assert (He : -52 <= e) by (unfold SFltb, d_one, SFcompare in Hlt; destruct (Z.compare_spec (-52) e); [lia | lia | done]).
  pose proof (Z.log2_spec (Zpos m) ltac:(lia)) as [Hl _]. replace (Z.log2 (Zpos m)) with 52 in Hl by lia.
  pose proof (Z.pow_pos_nonneg 2 (Z.max 0 e) ltac:(lia) ltac:(lia)).
  assert (2 ^ Z.max 0 (- e) <= 2 ^ 52) by (apply Z.pow_le_mono_r; lia). nia.
Qed.

(** A fraction in [(0, 1]] of a count, rounded up: at most the count, and the
    ceiling of the exact product up to the rounding of the product. *)
Lemma mul_fraction_count m e n :
  0 < n < 2 ^ 53 -> valid_binary 53 1024 (S754_finite false m e) = true ->
  SFltb d_one (S754_finite false m e) = false ->
  exists c, size_of_ceil (d_mul (S754_finite false m e) (d_of_size n)) = Ok c /\ 0 <= c <= n /\
    (2 ^ 52 - 1) * (Zpos m * n) <= 2 ^ 52 * 2 ^ (- e) * Z.max 1 c /\ 2 ^ 52 * 2 ^ (- e) * (c - 1) < (2 ^ 52 + 1) * (Zpos m * n).
Proof.
  intros Hn Hvalid Hle.
  assert (Hlog : 0 <= Z.log2 n < 53) by (split; [apply Z.log2_nonneg | apply Z.log2_lt_pow2; lia]).
  destruct (fraction_le_one m e Hvalid Hle) as [He Hm]. destruct (d_of_size_exact n Hn) as (m2 & -> & Hm2 & _).
  pose proof (Z.pow_pos_nonneg 2 (52 - Z.log2 n) ltac:(lia) ltac:(lia)) as Hp.
  assert (Epow : 2 ^ (- (e + (Z.log2 n - 52))) = 2 ^ (- e) * 2 ^ (52 - Z.log2 n)) by (rewrite <- Z.pow_add_r by lia; f_equal; lia).
  unfold d_mul, SFmul. destruct (round_ceil (m * m2) (e + (Z.log2 n - 52)) n) as (c & Hc & Hcn & H1 & H2); [lia | lia | | lia |].
  { rewrite Pos2Z.inj_mul, Hm2, Epow. nia. }
  exists c. split; [done |]. split; [done |]. rewrite Pos2Z.inj_mul, Hm2, Epow in H1, H2. split; nia.
Qed.
