(* ===== verification/LockInstrumentation.v ===== *)
(** * Lock histograms (include/ammalloc/lock_instrumentation.h, src/lock_instrumentation.cpp)

    Log2-bucketed samples of the time spent waiting for a lock and holding it,
    the snapshot, the reset, and the percentile of a histogram.  The percentile
    multiplies doubles: they are the binary64 numbers of [Binary64], so the
    rounding is the one of the machine.  [AMMALLOC_INSTRUMENT_LOCKS] is the class
    [LockBuild]. *)
From Stdlib Require Import SpecFloat.
From S2P Require Import Prelude Config Binary64.
Open Scope Z_scope.

Class LockBuild := { instrument_locks : bool }.

Definition kBucketCount : Z := 32.

Inductive LockKind := kTransferSpin | kSpanListMutex.
#[export] Instance LockKind_eq_dec : EqDecision LockKind.
Proof. solve_decision. Defined.

Record LockHistogram := mkHistogram { wait_buckets : list Z; hold_buckets : list Z }.

Definition zero_buckets : list Z := replicate (Z.to_nat kBucketCount) 0.
Definition zero_histogram : LockHistogram := mkHistogram zero_buckets zero_buckets.

(** [g_histograms[kCount]]. *)
Definition Histograms : Type := LockKind -> LockHistogram.
Definition set_histogram (g : Histograms) (k : LockKind) (h : LockHistogram) : Histograms :=
  fun k' => if decide (k' = k) then h else g k'.

Definition BucketIndexOf (ns : Z) : Z :=
  if ns =? 0 then 0
  else
    let leading_zeros := 63 - Z.log2 ns in
    let idx := 64 - leading_zeros in
    if idx <? kBucketCount then idx else kBucketCount - 1.

(** [buckets[i].fetch_add(1, relaxed)]. *)
Definition bump_bucket (b : list Z) (i : Z) : list Z := alter (fun c => u64 (c + 1)) (Z.to_nat i) b.

Definition RecordLockWait `{LockBuild} (g : Histograms) (kind : LockKind) (ns : Z) : Histograms :=
  if instrument_locks then
    let hist := g kind in
    set_histogram g kind (mkHistogram (bump_bucket (wait_buckets hist) (BucketIndexOf ns)) (hold_buckets hist))
  else g.

Definition RecordLockHold `{LockBuild} (g : Histograms) (kind : LockKind) (ns : Z) : Histograms :=
  if instrument_locks then
    let hist := g kind in
    set_histogram g kind (mkHistogram (wait_buckets hist) (bump_bucket (hold_buckets hist) (BucketIndexOf ns)))
  else g.

Record LockHistogramSnapshot := mkSnapshot {
  snap_wait_buckets : list Z;
  snap_hold_buckets : list Z;
  wait_samples : Z;
  hold_samples : Z;
}.

Definition sum_buckets (b : list Z) : Z := foldl (fun s c => u64 (s + c)) 0 b.

Definition GetLockHistogramSnapshot `{LockBuild} (g : Histograms) (kind : LockKind)
    : LockHistogramSnapshot :=
  if instrument_locks then
    let hist := g kind in
    mkSnapshot (wait_buckets hist) (hold_buckets hist)
      (sum_buckets (wait_buckets hist)) (sum_buckets (hold_buckets hist))
  else mkSnapshot zero_buckets zero_buckets 0 0.

Definition ResetLockHistograms `{LockBuild} (g : Histograms) : Histograms :=
  if instrument_locks then fun _ => zero_histogram else g.

(** *** The percentile *)

(** [fraction < 0.0 ? 0.0 : (fraction > 1.0 ? 1.0 : fraction)]. *)
Definition clamp_fraction (fraction : double) : double :=
  if SFltb fraction d_zero then d_zero else if SFltb d_one fraction then d_one else fraction.

Definition percentile_rank (total : Z) (fraction : double) : outcome Z :=
  target_rank ← size_of_ceil (d_mul (clamp_fraction fraction) (d_of_size total));
  Ok (if target_rank =? 0 then 1 else target_rank).

Fixpoint percentile_scan (buckets : list Z) (i cumulative rank : Z) : Z :=
  match buckets with
  | [] => Z.shiftl 1 (kBucketCount - 1)
  | b :: rest =>
      let cumulative := u64 (cumulative + b) in
      if rank <=? cumulative then if i =? 0 then 0 else Z.shiftl 1 i
      else percentile_scan rest (i + 1) cumulative rank
  end.

Definition HistogramPercentileNs (buckets : list Z) (total : Z) (fraction : double) : outcome Z :=
  if total =? 0 then Ok 0
  else rank ← percentile_rank total fraction; Ok (percentile_scan buckets 0 0 rank).

(** ** Buckets *)

(** Bucket 0 holds the zero samples, bucket [i] those in [[2^(i-1), 2^i)], and the
    last one everything from [2^30] nanoseconds on. *)
Lemma BucketIndexOf_ok ns :
  0 <= ns -> 0 <= BucketIndexOf ns < kBucketCount /\
  (BucketIndexOf ns = 0 <-> ns = 0) /\
  (0 < ns -> 2 ^ (BucketIndexOf ns - 1) <= ns) /\
  (BucketIndexOf ns < kBucketCount - 1 -> ns < 2 ^ BucketIndexOf ns).
Proof.
  intros Hns. unfold BucketIndexOf, kBucketCount. destruct (Z.eqb_spec ns 0) as [-> | Hn]; [simpl; lia |].
  replace (64 - (63 - Z.log2 ns)) with (Z.log2 ns + 1) by lia.
  pose proof (Z.log2_nonneg ns). pose proof (Z.log2_spec ns ltac:(lia)) as Hl.
  change (Z.succ (Z.log2 ns)) with (Z.log2 ns + 1) in Hl.
  case_cmp.
  - replace (Z.log2 ns + 1 - 1) with (Z.log2 ns) by lia. lia.
  - assert (2 ^ 30 <= 2 ^ Z.log2 ns) by (apply Z.pow_le_mono_r; lia). simpl. lia.
Qed.

(** The number of samples of [l] a bucket holds, and how many are at most [v]. *)
Definition in_bucket (l : list Z) (i : Z) : Z := Z.of_nat (length (filter (fun ns => BucketIndexOf ns = i) l)).
Definition at_most (l : list Z) (v : Z) : Z := Z.of_nat (length (filter (fun ns => ns <= v) l)).
Definition below (l : list Z) (v : Z) : Z := Z.of_nat (length (filter (fun ns => ns < v) l)).

Definition buckets_of (l : list Z) : list Z := in_bucket l <$> seqZ 0 kBucketCount.

Lemma in_bucket_bound l i : 0 <= in_bucket l i <= Z.of_nat (length l).
Proof. unfold in_bucket. pose proof (length_filter (fun ns => BucketIndexOf ns = i) l). lia. Qed.

Lemma in_bucket_snoc l ns i :
  in_bucket (l ++ [ns]) i = in_bucket l i + (if decide (BucketIndexOf ns = i) then 1 else 0).
Proof.
  unfold in_bucket. rewrite filter_app, length_app.
  case_decide; [rewrite filter_cons_True by done | rewrite filter_cons_False by done]; simpl; lia.
Qed.

Lemma bump_bucket_of l ns :
  0 <= ns -> Z.of_nat (length l) + 1 < W64 ->
  bump_bucket (buckets_of l) (BucketIndexOf ns) = buckets_of (l ++ [ns]).
Proof.
  intros Hns Hl. destruct (BucketIndexOf_ok ns Hns) as (Hi & _).
  apply list_eq. intros j. unfold bump_bucket, buckets_of.
  destruct (decide (j = Z.to_nat (BucketIndexOf ns))) as [-> | Hj].
  - rewrite list_lookup_alter, !list_lookup_fmap, lookup_seqZ_lt by lia. simpl.
    rewrite Z2Nat.id by lia. rewrite Z.add_0_l, in_bucket_snoc. rewrite !decide_True by done.
    pose proof (in_bucket_bound l (BucketIndexOf ns)). f_equal. rewrite u64_id; lia.
  - rewrite list_lookup_alter_ne by done. rewrite !list_lookup_fmap.
    destruct (decide (Z.of_nat j < kBucketCount)) as [Hlt |].
    + rewrite lookup_seqZ_lt by lia. simpl. f_equal.
      rewrite in_bucket_snoc, decide_False by lia. lia.
    + rewrite lookup_seqZ_ge by lia. done.
Qed.

(** Samples in the buckets before [i]. *)
Definition cum (l : list Z) (i : Z) : Z := Z.of_nat (length (filter (fun ns => BucketIndexOf ns < i) l)).

Lemma cum_succ l i : cum l (i + 1) = cum l i + in_bucket l i.
Proof.
  unfold cum, in_bucket. induction l as [| ns l IH]; [done |].
  rewrite !filter_cons. repeat case_decide; simpl; lia.
Qed.

Lemma cum_bounds l i : 0 <= cum l i <= Z.of_nat (length l).
Proof. unfold cum. pose proof (length_filter (fun ns => BucketIndexOf ns < i) l). lia. Qed.

Definition samples_ok (l : list Z) : Prop := Forall (fun ns => 0 <= ns) l /\ Z.of_nat (length l) < W64.

Lemma cum_0 l : Forall (fun ns => 0 <= ns) l -> cum l 0 = 0.
Proof.
  intros Hl. unfold cum. induction Hl as [| ns l Hns _ IH]; [done |].
  rewrite filter_cons_False; [done |]. destruct (BucketIndexOf_ok ns Hns). lia.
Qed.

Lemma cum_all l : Forall (fun ns => 0 <= ns) l -> cum l kBucketCount = Z.of_nat (length l).
Proof.
  intros Hl. unfold cum. induction Hl as [| ns l Hns _ IH]; [done |].
  destruct (BucketIndexOf_ok ns Hns). rewrite filter_cons_True by lia. simpl. lia.
Qed.

Lemma seqZ_head i n : 0 < n -> seqZ i n = i :: seqZ (i + 1) (n - 1).
Proof. intros Hn. rewrite (seqZ_cons i n) by lia. f_equal; f_equal; lia. Qed.

Lemma sum_buckets_of l : samples_ok l -> sum_buckets (buckets_of l) = Z.of_nat (length l).
Proof.
  intros [Hl Hlen]. rewrite <- (cum_all l Hl). unfold sum_buckets, buckets_of.
  assert (Hg : forall n i, i + Z.of_nat n = kBucketCount ->
    foldl (fun s c => u64 (s + c)) (cum l i) (in_bucket l <$> seqZ i (Z.of_nat n)) = cum l kBucketCount).
  { induction n as [| n IH]; intros i Hi; [simpl; f_equal; lia |].
    rewrite seqZ_head by lia. cbn [fmap list_fmap foldl]. rewrite <- cum_succ.
    pose proof (cum_bounds l (i + 1)). rewrite u64_id by lia.
    replace (Z.of_nat (S n) - 1) with (Z.of_nat n) by lia. apply IH. lia. }
  specialize (Hg 32%nat 0 eq_refl). by rewrite cum_0 in Hg.
Qed.

(** ** Sessions of samples *)

Inductive lock_side := WaitSide | HoldSide.
#[export] Instance lock_side_eq_dec : EqDecision lock_side.
Proof. solve_decision. Defined.

Definition sample : Type := LockKind * lock_side * Z.
Definition record_sample `{LockBuild} (g : Histograms) (s : sample) : Histograms :=
  match s with
  | (k, WaitSide, ns) => RecordLockWait g k ns
  | (k, HoldSide, ns) => RecordLockHold g k ns
  end.
Definition durations (k : LockKind) (d : lock_side) (l : list sample) : list Z :=
  (filter (fun s => s.1 = (k, d)) l).*2.

Lemma durations_snoc k d l s :
  durations k d (l ++ [s]) = durations k d l ++ (if decide (s.1 = (k, d)) then [s.2] else []).
Proof.
  unfold durations. rewrite filter_app, fmap_app. f_equal.
  case_decide; [by rewrite filter_cons_True | by rewrite filter_cons_False].
Qed.

Lemma durations_length k d l : (length (durations k d l) <= length l)%nat.
Proof. unfold durations. rewrite length_fmap. apply length_filter. Qed.

Lemma durations_ok k d l :
  Forall (fun s : sample => 0 <= s.2) l -> Z.of_nat (length l) < W64 -> samples_ok (durations k d l).
Proof.
  intros Hl Hlen. split; [| pose proof (durations_length k d l); lia].
  unfold durations. rewrite Forall_fmap. rewrite Forall_forall in Hl |- *. intros s [_ Hs]%list_elem_of_filter. by apply Hl.
Qed.

(** After a reset, the histogram of a lock counts its samples of each side. *)
Lemma record_session `{LockBuild} g l k :
  instrument_locks = true -> Forall (fun s : sample => 0 <= s.2) l -> Z.of_nat (length l) < W64 ->
  foldl record_sample (ResetLockHistograms g) l k =
  mkHistogram (buckets_of (durations k WaitSide l)) (buckets_of (durations k HoldSide l)).
Proof.
  intros Hon. induction l as [| [[k1 d] ns] l IH] using rev_ind; intros Hl Hlen.
  { unfold ResetLockHistograms. rewrite Hon. reflexivity. }
  apply Forall_app in Hl as [Hl Hns]. apply Forall_cons in Hns as [Hns _]. simpl in Hns.
  rewrite length_app in Hlen. simpl in Hlen.
  rewrite foldl_app. cbn [foldl]. specialize (IH Hl ltac:(lia)).
  pose proof (durations_length k WaitSide l). pose proof (durations_length k HoldSide l).
  rewrite !durations_snoc. cbn [fst snd].
  destruct (decide (k1 = k)) as [<- | Hk].
  - destruct d; cbn [record_sample]; unfold RecordLockWait, RecordLockHold; rewrite Hon;
      unfold set_histogram; repeat (case_decide; try congruence);
      rewrite IH, app_nil_r; cbn [wait_buckets hold_buckets]; rewrite bump_bucket_of by lia; done.
  - rewrite !decide_False by congruence. rewrite !app_nil_r, <- IH.
    destruct d; cbn [record_sample]; unfold RecordLockWait, RecordLockHold; rewrite Hon;
      unfold set_histogram; rewrite decide_False by congruence; done.
Qed.

(** ** Percentiles *)

(** The scan stops in the bucket that holds the sample of the given rank. *)
Lemma percentile_scan_ok l n i rank :
  samples_ok l -> i + Z.of_nat n = kBucketCount -> 0 <= i -> cum l i < rank <= Z.of_nat (length l) ->
  exists j, 0 <= j < kBucketCount /\ cum l j < rank <= cum l (j + 1) /\
    percentile_scan (in_bucket l <$> seqZ i (Z.of_nat n)) i (cum l i) rank =
    if j =? 0 then 0 else 2 ^ j.
Proof.
  intros [Hl Hlen]. revert i. induction n as [| n IH]; intros i Hi Hi0 Hrank.
  { replace i with kBucketCount in Hrank by lia. rewrite cum_all in Hrank by done. lia. }
  rewrite seqZ_head by lia. cbn [fmap list_fmap percentile_scan]. rewrite <- cum_succ.
  pose proof (cum_bounds l (i + 1)). rewrite u64_id by lia. case_cmp.
  - exists i. split; [lia |]. split; [lia |]. rewrite Z.shiftl_mul_pow2, Z.mul_1_l by lia. done.
  - replace (Z.of_nat (S n) - 1) with (Z.of_nat n) by lia. apply IH; lia.
Qed.

(** The bucket of a rank bounds the sample of that rank: at least [rank] samples
    are at most [2^j] unless the last bucket saturated, and fewer than [rank] are
    below half of it. *)
Lemma cum_below l j :
  Forall (fun ns => 0 <= ns) l -> 0 < j < kBucketCount -> below l (2 ^ (j - 1)) <= cum l j.
Proof.
  intros Hl Hj. unfold below, cum. induction Hl as [| ns l Hns _ IH]; [done |].
  rewrite !filter_cons. destruct (BucketIndexOf_ok ns Hns) as (Hi & Hz & Hlo & _).
  repeat case_decide; simpl; try lia. exfalso.
  assert (Hn : 0 < ns) by (destruct (Z.eq_dec ns 0) as [-> |]; [destruct Hz; lia | lia]).
  specialize (Hlo Hn). assert (2 ^ (j - 1) <= 2 ^ (BucketIndexOf ns - 1)) by (apply Z.pow_le_mono_r; lia). lia.
Qed.

Lemma cum_at_most l j :
  Forall (fun ns => 0 <= ns) l -> 0 <= j < kBucketCount - 1 ->
  cum l (j + 1) <= at_most l (if j =? 0 then 0 else 2 ^ j).
Proof.
  intros Hl Hj. unfold at_most, cum. induction Hl as [| ns l Hns _ IH]; [done |].
  rewrite !filter_cons. destruct (BucketIndexOf_ok ns Hns) as (Hi & Hz & _ & Hhi).
  repeat case_decide; simpl; try lia. exfalso.
  assert (ns < 2 ^ BucketIndexOf ns) by (apply Hhi; lia).
  assert (2 ^ BucketIndexOf ns <= 2 ^ j) by (apply Z.pow_le_mono_r; lia).
  destruct (Z.eqb_spec j 0) as [-> |]; [| lia]. destruct Hz as [Hz _]. rewrite Hz in *; lia.
Qed.

Lemma below_0 l : Forall (fun ns => 0 <= ns) l -> below l 0 = 0.
Proof.
  intros Hl. unfold below. induction Hl as [| ns l Hns _ IH]; [done |].
  rewrite filter_cons_False by lia. done.
Qed.

Lemma percentile_ok l rank :
  samples_ok l -> 1 <= rank <= Z.of_nat (length l) ->
  exists v, percentile_scan (buckets_of l) 0 0 rank = v /\ 0 <= v <= 2 ^ 31 /\
    (v < 2 ^ 31 -> rank <= at_most l v) /\ below l (v / 2) < rank.
Proof.
  intros Hok Hrank. pose proof Hok as [Hl _].
  destruct (percentile_scan_ok l 32 0 rank Hok eq_refl ltac:(lia)) as (j & Hj & Hc & Heq).
  { rewrite cum_0 by done. lia. }
  rewrite cum_0 in Heq by done. eexists. split; [exact Heq |]. clear Heq. unfold kBucketCount in Hj.
  assert (2 ^ j <= 2 ^ 31) by (apply Z.pow_le_mono_r; lia).
  pose proof (Z.pow_pos_nonneg 2 j ltac:(lia) ltac:(lia)).
  split_and!.
  - case_cmp; lia.
  - case_cmp; lia.
  - intros Hv. etransitivity; [apply Hc |]. apply cum_at_most; [done |]. unfold kBucketCount.
    destruct (Z.eqb_spec j 0) as [-> |]; [lia |]. destruct (Z.eq_dec j 31) as [-> |]; lia.
  - case_cmp; [rewrite below_0 by done; lia |].
    assert (Hp : 2 ^ j = 2 ^ (j - 1) * 2)
      by (replace j with (Z.succ (j - 1)) at 1 by lia; rewrite Z.pow_succ_r by lia; lia).
    rewrite Hp, Z.div_mul by lia. pose proof (cum_below l j Hl ltac:(unfold kBucketCount; lia)). lia.
Qed.

(** The fractions the caller may pass: any double but NaN. *)
Definition fraction_ok (x : double) : Prop := valid_binary 53 1024 x = true /\ x <> S754_nan.

(** The rank of a fraction [q] of [n] samples.  It is 1 for [q <= 0] and [n] for
    [q >= 1].  In between, with [q] the dyadic number [m * 2^e], it is the ceiling
    of [q * n] up to the rounding of the double product: it is at least
    [q * n * (1 - 2^-52)], and less one it is below [q * n * (1 + 2^-52)]. *)
Definition rank_of (n : Z) (fraction : double) (rank : Z) : Prop :=
  match fraction with
  | S754_zero _ | S754_infinity true | S754_finite true _ _ => rank = 1
  | S754_infinity false => rank = n
  | S754_finite false m e =>
      (2 ^ Z.max 0 (- e) <= Zpos m * 2 ^ Z.max 0 e -> rank = n) /\
      (Zpos m * 2 ^ Z.max 0 e < 2 ^ Z.max 0 (- e) ->
        (2 ^ 52 - 1) * (Zpos m * n) <= 2 ^ 52 * 2 ^ (- e) * rank /\
        2 ^ 52 * 2 ^ (- e) * (rank - 1) < (2 ^ 52 + 1) * (Zpos m * n))
  | S754_nan => False
  end.

(** The program's rank is that one, and one of [1 .. n]. *)
Lemma percentile_rank_ok n x :
  0 < n < 2 ^ 53 -> fraction_ok x -> exists r, percentile_rank n x = Ok r /\ 1 <= r <= n /\ rank_of n x r.
Proof.
  intros Hn [Hv Hnan]. unfold percentile_rank.
  assert (Hzero : forall s, size_of_ceil (d_mul (S754_zero s) (d_of_size n)) = Ok 0).
  { intros s. destruct (d_of_size_exact n Hn) as (m & -> & _). done. }
  assert (Hone : (r ← size_of_ceil (d_mul d_one (d_of_size n)); Ok (if r =? 0 then 1 else r)) = Ok n).
  { rewrite mul_one_count, bind_Ok_l by done. case_cmp; [lia | done]. }
  unfold clamp_fraction. destruct x as [s | [] | | [] m e]; try done.
  - exists 1. change (SFltb (S754_zero s) d_zero) with false. change (SFltb d_one (S754_zero s)) with false. cbv iota.
    rewrite Hzero, bind_Ok_l. split; [done | split; [lia | done]].
  - exists 1. change (SFltb (S754_infinity true) d_zero) with true. cbv iota. unfold d_zero. rewrite Hzero, bind_Ok_l. split; [done | split; [lia | done]].
  - exists n. change (SFltb (S754_infinity false) d_zero) with false. change (SFltb d_one (S754_infinity false)) with true. cbv iota.
    split; [exact Hone | split; [lia | done]].
  - exists 1. change (SFltb (S754_finite true m e) d_zero) with true. cbv iota. unfold d_zero. rewrite Hzero, bind_Ok_l. split; [done | split; [lia | done]].
  - change (SFltb (S754_finite false m e) d_zero) with false. cbv iota. destruct (SFltb d_one (S754_finite false m e)) eqn:Hlt.
    + exists n. split; [exact Hone |]. split; [lia |]. pose proof (fraction_gt_one m e Hv Hlt). split; [done | lia].
    + destruct (fraction_le_one m e Hv Hlt) as [He Hm]. destruct (decide (Zpos m = 2 ^ (- e))) as [Em | Hne].
      { rewrite (fraction_one m e Hv ltac:(lia) Em). exists n. split; [exact Hone |]. split; [lia |]. split; [done |].
        cbn. intros Habs. by vm_compute in Habs. }
      destruct (mul_fraction_count m e n Hn Hv Hlt) as (c & -> & Hcn & H1 & H2).
      rewrite bind_Ok_l. assert (Er : (if c =? 0 then 1 else c) = Z.max 1 c) by (case_cmp; lia). rewrite Er.
      exists (Z.max 1 c). split; [done |]. split; [lia |]. unfold rank_of.
      rewrite Z.max_r by lia. rewrite Z.max_l, Z.mul_1_r by lia. pose proof (Z.pow_pos_nonneg 2 (- e) ltac:(lia) ltac:(lia)).
      assert (Hlow : 2 ^ 52 * 2 ^ (- e) * (Z.max 1 c - 1) < (2 ^ 52 + 1) * (Zpos m * n)) by (destruct (Z.le_gt_cases c 0); [rewrite Z.max_l by lia; nia | rewrite Z.max_r by lia; lia]).
      split; [lia | done].
Qed.

Definition side_buckets (d : lock_side) (s : LockHistogramSnapshot) : list Z :=
  match d with WaitSide => snap_wait_buckets s | HoldSide => snap_hold_buckets s end.
Definition side_samples (d : lock_side) (s : LockHistogramSnapshot) : Z :=
  match d with WaitSide => wait_samples s | HoldSide => hold_samples s end.

(** The snapshot of a session counts its samples. *)
Lemma snapshot_session `{LockBuild} g l k d :
  instrument_locks = true -> Forall (fun s : sample => 0 <= s.2) l -> Z.of_nat (length l) < W64 ->
  let snap := GetLockHistogramSnapshot (foldl record_sample (ResetLockHistograms g) l) k in
  side_buckets d snap = buckets_of (durations k d l) /\
  side_samples d snap = Z.of_nat (length (durations k d l)).
Proof.
  intros Hon Hl Hlen snap. unfold snap, GetLockHistogramSnapshot. rewrite Hon, record_session by done.
  destruct d; (split; [done |]); apply sum_buckets_of; by apply durations_ok.
Qed.

(** C39: what a percentile says.  After any session of fewer than 2^53 recorded
    waits and holds, the percentile that a reader computes from the snapshot of a
    lock exists for every fraction but NaN.  It is zero for an empty history.
    Otherwise it belongs to the rank that [rank_of] gives (1 for fractions up to
    0, the number of samples from 1 on, and in between the ceiling of the
    fraction of the samples, up to the rounding of the double product): unless it
    is 2^31, the saturated last bucket, at least that many samples are at most
    the value; and fewer than that many are below half of it, so that the sample
    of that rank is at least half the value returned. *)
Theorem HistogramPercentileNs_spec `{LockBuild} g (l : list sample) k d fraction :
  instrument_locks = true -> Forall (fun s : sample => 0 <= s.2) l -> Z.of_nat (length l) < 2 ^ 53 ->
  fraction_ok fraction ->
  let snap := GetLockHistogramSnapshot (foldl record_sample (ResetLockHistograms g) l) k in
  let xs := durations k d l in
  exists v, HistogramPercentileNs (side_buckets d snap) (side_samples d snap) fraction = Ok v /\
  (xs = [] -> v = 0) /\
  (xs <> [] -> exists rank, 1 <= rank <= Z.of_nat (length xs) /\ rank_of (Z.of_nat (length xs)) fraction rank /\
     0 <= v <= 2 ^ 31 /\ (v < 2 ^ 31 -> rank <= at_most xs v) /\ below xs (v / 2) < rank).
Proof.
  intros Hon Hl Hlen Hf snap xs. unfold snap.
  destruct (snapshot_session g l k d Hon Hl ltac:(lia)) as [-> ->]. fold xs.
  pose proof (durations_ok k d l Hl ltac:(lia)) as Hok. pose proof (durations_length k d l) as Hle. fold xs in Hok, Hle.
  unfold HistogramPercentileNs. destruct (decide (xs = [])) as [-> | Hne]; [exists 0; done |].
  assert (0 < Z.of_nat (length xs)) by (destruct xs; [done | simpl; lia]).
  destruct (percentile_rank_ok (Z.of_nat (length xs)) fraction ltac:(lia) Hf) as (rank & Hr & Hrb & Hrank).
  destruct (percentile_ok xs rank Hok ltac:(lia)) as (v & Hv & Hvb & Hhi & Hlo).
  case_cmp; [lia |]. rewrite Hr, bind_Ok_l, Hv. exists v. split; [done |]. split; [done |].
  intros _. by exists rank.
Qed.

(** Three waits and a hold, and the 99th percentile of the waits. *)
Definition sample_session : list sample :=
  [(kTransferSpin, WaitSide, 0); (kTransferSpin, WaitSide, 40); (kTransferSpin, HoldSide, 7);
   (kTransferSpin, WaitSide, 5000); (kSpanListMutex, WaitSide, 3)].
Definition p99 : double := S754_finite false 8917127262193582 (-53).

Definition instrumented : LockBuild := {| instrument_locks := true |}.
Section HistogramWitness.
#[local] Existing Instance instrumented.

Lemma HistogramPercentileNs_spec_witness :
  exists v, HistogramPercentileNs
    (side_buckets WaitSide (GetLockHistogramSnapshot (foldl record_sample (ResetLockHistograms (fun _ => zero_histogram)) sample_session) kTransferSpin))
    3 p99 = Ok v /\ v = 8192.
Proof.
  destruct (HistogramPercentileNs_spec (fun _ => zero_histogram) sample_session kTransferSpin WaitSide p99)
    as (v & Hv & _ & _).
  - reflexivity.
  - repeat constructor; discriminate.
  - reflexivity.
  - split; [reflexivity | discriminate].
  - exists v. split; [exact Hv |]. vm_compute in Hv. injection Hv as <-. reflexivity.
Defined.
End HistogramWitness.

(** The reported value is not "always an over-estimate", as a comment of the
    function says: a sample beyond the last bucket is reported as 2^31. *)
Lemma percentile_saturates `{LockBuild} g (l : list sample) k d ns :
  instrument_locks = true -> Forall (fun s : sample => 0 <= s.2) l -> Z.of_nat (length l) < 2 ^ 53 ->
  ns ∈ durations k d l -> 2 ^ 31 < ns ->
  let snap := GetLockHistogramSnapshot (foldl record_sample (ResetLockHistograms g) l) k in
  HistogramPercentileNs (side_buckets d snap) (side_samples d snap) d_one = Ok (2 ^ 31).
Proof.
  intros Hon Hl Hlen Hns Hbig snap. unfold snap.
  destruct (snapshot_session g l k d Hon Hl ltac:(lia)) as [-> ->].
  pose proof (durations_ok k d l Hl ltac:(lia)) as Hok. pose proof (durations_length k d l) as Hle.
  set (xs := durations k d l) in *. unfold HistogramPercentileNs.
  assert (0 < Z.of_nat (length xs)) by (destruct xs; [by apply not_elem_of_nil in Hns | simpl; lia]).
  destruct (percentile_rank_ok (Z.of_nat (length xs)) d_one ltac:(lia) ltac:(done)) as (rank & Hr & Hrb & [Hone _]).
  destruct (percentile_ok xs rank Hok ltac:(lia)) as (v & Hv & Hvb & Hhi & _).
  case_cmp; [lia |]. rewrite Hr, bind_Ok_l, Hv. f_equal.
  destruct (Z.eq_dec v (2 ^ 31)) as [| Hv31]; [done |]. specialize (Hhi ltac:(lia)). rewrite Hone in Hhi by done.
  apply list_elem_of_split in Hns as (l1 & l2 & Hxs). exfalso. unfold at_most in Hhi.
  rewrite Hxs, filter_app, filter_cons_False, !length_app in Hhi by lia. simpl in Hhi.
  pose proof (length_filter (fun y => y <= v) l1). pose proof (length_filter (fun y => y <= v) l2). lia.
Qed.

(** A NaN fraction reaches the conversion to [size_t], which is undefined. *)
Lemma percentile_nan b n : n <> 0 -> HistogramPercentileNs b n S754_nan = UB "double out of the range of size_t".
Proof. intros Hn. unfold HistogramPercentileNs. case_cmp; [done | reflexivity]. Qed.
