(* ===== verification/SpinLock.v ===== *)
(** * SpinLock (include/ammalloc/spin_lock.h)

    The test-and-test-and-set lock as a step relation for any number of threads,
    one shared access per step.  A relaxed load of the flag may return any value.
    The orders of the atomic accesses matter through the release-acquire view:
    clearing the flag publishes the critical sections its thread knows of, and
    an acquiring test-and-set that finds the flag clear takes them over.  The
    instrumented build ([LockBuild]) reads the clock and records the wait and hold
    durations. *)
From S2P Require Import Prelude Config Binary64 LockInstrumentation.
Open Scope Z_scope.

(** The lock: its flag and, in the instrumented build, the acquisition time. *)
Record SpinLock := mkSpinLock { locked_ : bool; hold_start_ns_ : Z }.
Definition SpinLock_new : SpinLock := mkSpinLock false 0.

Inductive memory_order := memory_order_relaxed | memory_order_acquire | memory_order_release.

(** What the threads share: the lock, the histograms, the clock, the view released
    with the last clear, and the number of critical sections entered. *)
Record sworld := mkWorld {
  sw_lock : SpinLock;
  sw_hist : Histograms;
  sw_clock : Z;
  sw_released : gset nat;
  sw_entered : nat;
}.

(** A thread: its position in the code, and the critical sections that happened
    before it. *)
Inductive spc :=
| Outside
| LockClock
| LockTest (t0 spin_cnt : Z)
| LockTas (t0 spin_cnt : Z)
| LockPause (t0 spin_cnt : Z)
| LockYield (t0 : Z)
| LockAcquired (t0 : Z)
| LockRecord (t0 t1 : Z)
| LockStore (t1 : Z)
| TryTest
| TryTas
| TryClock
| Critical
| UnlockClock
| UnlockRecord (ns : Z)
| UnlockClear.
Definition sthread : Type := spc * gset nat.

(** What the environment decides at a step: the call a thread makes, the value a
    relaxed load sees, the time the clock shows. *)
Inductive scall := CallLock | CallTryLock | CallUnlock.
Record choice := mkChoice { ch_call : scall; ch_seen : bool; ch_now : Z }.

Definition set_lock (w : sworld) (l : SpinLock) : sworld :=
  mkWorld l (sw_hist w) (sw_clock w) (sw_released w) (sw_entered w).
Definition set_hist (w : sworld) (h : Histograms) : sworld :=
  mkWorld (sw_lock w) h (sw_clock w) (sw_released w) (sw_entered w).

(** [ClockNs()]: a steady clock, which the environment moves forward. *)
Definition ClockNs (w : sworld) (c : choice) : option (Z * sworld) :=
  if (sw_clock w <=? ch_now c) && (ch_now c <=? SIZE_MAX)
  then Some (ch_now c, mkWorld (sw_lock w) (sw_hist w) (ch_now c) (sw_released w) (sw_entered w))
  else None.

(** [locked_.test(relaxed)]: whatever value the environment picks. *)
Definition flag_test (c : choice) : bool := ch_seen c.

(** [locked_.test_and_set(order)]: the old value of the flag.  A thread that finds it
    clear reads the last clear and enters the next critical section. *)
Definition test_and_set (o : memory_order) (w : sworld) (v : gset nat) : bool * sworld * gset nat :=
  let old := locked_ (sw_lock w) in
  let w' := set_lock w (mkSpinLock true (hold_start_ns_ (sw_lock w))) in
  if old then (true, w', v)
  else (false, mkWorld (sw_lock w') (sw_hist w) (sw_clock w) (sw_released w) (S (sw_entered w)),
        match o with memory_order_acquire => v ∪ sw_released w | _ => v end).

(** [locked_.clear(order)]: a release publishes what happened before, the section
    just left included. *)
Definition clear (o : memory_order) (w : sworld) (v : gset nat) : sworld * gset nat :=
  let v' := v ∪ {[ pred (sw_entered w) ]} in
  (mkWorld (mkSpinLock false (hold_start_ns_ (sw_lock w))) (sw_hist w) (sw_clock w)
     (match o with memory_order_release => v' | _ => ∅ end) (sw_entered w), v').

Section Lock.
Context `{LockBuild}.

(** One step of [lock()]: the code between two shared accesses. *)
Definition lock_step (w : sworld) (p : spc) (v : gset nat) (c : choice) : option (sworld * sthread) :=
  match p with
  | LockClock => '(t0, w) ← ClockNs w c; Some (w, (LockTest t0 0, v))
  | LockTest t0 spin_cnt =>
      Some (w, (if flag_test c then LockPause t0 spin_cnt else LockTas t0 spin_cnt, v))
  | LockTas t0 spin_cnt =>
      let '(old, w, v) := test_and_set memory_order_acquire w v in
      Some (w, (if old then LockPause t0 spin_cnt
                else if instrument_locks then LockAcquired t0 else Critical, v))
  | LockPause t0 spin_cnt =>
      let spin_cnt := u64 (spin_cnt + 1) in
      Some (w, (if 2000 <? spin_cnt then LockYield t0 else LockTest t0 spin_cnt, v))
  | LockYield t0 => Some (w, (LockTest t0 0, v))
  | LockAcquired t0 => '(t1, w) ← ClockNs w c; Some (w, (LockRecord t0 t1, v))
  | LockRecord t0 t1 =>
      Some (set_hist w (RecordLockWait (sw_hist w) kTransferSpin (u64 (t1 - t0))), (LockStore t1, v))
  | LockStore t1 => Some (set_lock w (mkSpinLock (locked_ (sw_lock w)) t1), (Critical, v))
  | _ => None
  end.

(** One step of [try_lock()]. *)
Definition try_lock_step (w : sworld) (p : spc) (v : gset nat) (c : choice) : option (sworld * sthread) :=
  match p with
  | TryTest => Some (w, (if flag_test c then Outside else TryTas, v))
  | TryTas =>
      let '(old, w, v) := test_and_set memory_order_acquire w v in
      Some (w, (if old then Outside else if instrument_locks then TryClock else Critical, v))
  | TryClock =>
      '(t, w) ← ClockNs w c; Some (set_lock w (mkSpinLock (locked_ (sw_lock w)) t), (Critical, v))
  | _ => None
  end.

(** One step of [unlock()]. *)
Definition unlock_step (w : sworld) (p : spc) (v : gset nat) (c : choice) : option (sworld * sthread) :=
  match p with
  | UnlockClock =>
      '(t, w) ← ClockNs w c; Some (w, (UnlockRecord (u64 (t - hold_start_ns_ (sw_lock w))), v))
  | UnlockRecord ns =>
      Some (set_hist w (RecordLockHold (sw_hist w) kTransferSpin ns), (UnlockClear, v))
  | UnlockClear =>
      let '(w, v) := clear memory_order_release w v in Some (w, (Outside, v))
  | _ => None
  end.

(** A thread outside calls [lock] or [try_lock]; the owner may call [unlock]. *)
Definition sstep (w : sworld) (th : sthread) (c : choice) : option (sworld * sthread) :=
  let '(p, v) := th in
  match p with
  | Outside =>
      match ch_call c with
      | CallLock => Some (w, (if instrument_locks then LockClock else LockTest 0 0, v))
      | CallTryLock => Some (w, (TryTest, v))
      | CallUnlock => None
      end
  | Critical =>
      match ch_call c with
      | CallUnlock => Some (w, (if instrument_locks then UnlockClock else UnlockClear, v))
      | _ => None
      end
  | TryTest | TryTas | TryClock => try_lock_step w p v c
  | UnlockClock | UnlockRecord _ | UnlockClear => unlock_step w p v c
  | _ => lock_step w p v c
  end.

(** The whole system: any thread may make the next step. *)
Definition sstate : Type := sworld * (nat -> sthread).
Definition set_thread (T : nat -> sthread) (t : nat) (x : sthread) : nat -> sthread :=
  fun t' => if decide (t' = t) then x else T t'.

Inductive sys_step : sstate -> sstate -> Prop :=
| sys_step_intro w T t c w' th :
    sstep w (T t) c = Some (w', th) -> sys_step (w, T) (w', set_thread T t th).

(** A new lock; the clock shows any time. *)
Definition sys_start (w : sworld) : Prop :=
  sw_lock w = SpinLock_new /\ 0 <= sw_clock w <= SIZE_MAX /\ sw_released w = ∅ /\ sw_entered w = 0%nat.

Inductive reachable : sstate -> Prop :=
| reach_start w : sys_start w -> reachable (w, fun _ => (Outside, ∅))
| reach_step s s' : reachable s -> sys_step s s' -> reachable s'.

(** ** The invariant *)

(** The positions between acquiring the flag and clearing it. *)
Definition holding (p : spc) : bool :=
  match p with
  | LockAcquired _ | LockRecord _ _ | LockStore _ | TryClock | Critical
  | UnlockClock | UnlockRecord _ | UnlockClear => true
  | _ => false
  end.

(** Every earlier critical section. *)
Definition earlier (n : nat) : gset nat := list_to_set (seq 0 n).

(** What a position knows: the bound of the spin counter, the order of the times. *)
Definition pc_ok (w : sworld) (p : spc) : Prop :=
  match p with
  | LockTest t0 n | LockTas t0 n | LockPause t0 n => 0 <= t0 <= sw_clock w /\ 0 <= n <= 2000
  | LockYield t0 | LockAcquired t0 => 0 <= t0 <= sw_clock w
  | LockRecord t0 t1 => 0 <= t0 <= t1 /\ t1 <= sw_clock w
  | LockStore t1 => 0 <= t1 <= sw_clock w
  | UnlockRecord ns => 0 <= ns <= sw_clock w
  | _ => True
  end.

Record sinv (s : sstate) : Prop := {
  si_mutex : forall t u, holding (s.2 t).1 = true -> holding (s.2 u).1 = true -> t = u;
  si_flag : locked_ (sw_lock s.1) = true <-> exists t, holding (s.2 t).1 = true;
  si_view : forall t, holding (s.2 t).1 = true ->
    (0 < sw_entered s.1)%nat /\ earlier (pred (sw_entered s.1)) ⊆ (s.2 t).2;
  si_released : locked_ (sw_lock s.1) = false -> earlier (sw_entered s.1) ⊆ sw_released s.1;
  si_clock : 0 <= sw_clock s.1 <= SIZE_MAX /\ 0 <= hold_start_ns_ (sw_lock s.1) <= sw_clock s.1;
  si_pc : forall t, pc_ok s.1 (s.2 t).1;
}.

Lemma set_thread_eq T t x : set_thread T t x t = x.
Proof. unfold set_thread. by rewrite decide_True. Qed.
Lemma set_thread_ne T t u x : u <> t -> set_thread T t x u = T u.
Proof. intros Hu. unfold set_thread. by rewrite decide_False. Qed.

(** The clock only moves forward, so what the other positions know stays true. *)
Lemma pc_ok_mono w w' p : sw_clock w <= sw_clock w' -> pc_ok w p -> pc_ok w' p.
Proof. intros Hc. destruct p; simpl; lia. Qed.

(** Three kinds of steps: those that keep who holds the lock, the acquisitions, and
    the release. *)
Lemma keep_ok w w' T t p v p' v' :
  sinv (w, T) -> T t = (p, v) -> holding p' = holding p -> v' = v ->
  locked_ (sw_lock w') = locked_ (sw_lock w) -> sw_released w' = sw_released w ->
  sw_entered w' = sw_entered w ->
  sw_clock w <= sw_clock w' <= SIZE_MAX -> 0 <= hold_start_ns_ (sw_lock w') <= sw_clock w' ->
  pc_ok w' p' -> sinv (w', set_thread T t (p', v')).
Proof.
  intros [Hmx Hfl Hvw Hrl Hck Hpc] HT Hp -> Hlk Hre Hen Hc1 Hc2 Hp'. simpl in *.
  assert (Hh : forall u, holding (set_thread T t (p', v) u).1 = holding (T u).1 /\
                 (set_thread T t (p', v) u).2 = (T u).2).
  { intros u. destruct (decide (u = t)) as [-> |]; [| by rewrite set_thread_ne].
    rewrite set_thread_eq, HT. done. }
  constructor; simpl.
  - intros a b. rewrite (proj1 (Hh a)), (proj1 (Hh b)). apply Hmx.
  - rewrite Hlk, Hfl. split; intros [u Hu]; exists u; by rewrite ?(proj1 (Hh u)) in *.
  - intros u. rewrite (proj1 (Hh u)), (proj2 (Hh u)), Hen. apply Hvw.
  - by rewrite Hlk, Hre, Hen.
  - lia.
  - intros u. destruct (decide (u = t)) as [-> | Hu]; [by rewrite set_thread_eq |].
    rewrite set_thread_ne by done. eapply pc_ok_mono; [| apply Hpc]. lia.
Qed.

Lemma earlier_S n : earlier (S n) = earlier n ∪ {[ n ]}.
Proof. unfold earlier. rewrite seq_S, list_to_set_app_L. simpl. set_solver. Qed.

Lemma acquire_ok w T t p v p' w' v' :
  sinv (w, T) -> T t = (p, v) -> holding p = false -> locked_ (sw_lock w) = false ->
  test_and_set memory_order_acquire w v = (false, w', v') -> holding p' = true -> pc_ok w' p' ->
  sinv (w', set_thread T t (p', v')).
Proof.
  intros [Hmx Hfl Hvw Hrl Hck Hpc] HT Hp Hlk Htas Hp' Hok. simpl in *.
  unfold test_and_set in Htas. rewrite Hlk in Htas. injection Htas as <- <-.
  assert (Hnone : forall u, holding (T u).1 = false).
  { intros u. destruct (holding (T u).1) eqn:Hu; [| done].
    rewrite (proj2 Hfl) in Hlk by eauto. done. }
  constructor; simpl.
  - intros a b Ha Hb. destruct (decide (a = t)) as [-> |], (decide (b = t)) as [-> |];
      rewrite ?set_thread_eq, ?set_thread_ne in * by done; [done | | |]; by rewrite ?Hnone in *.
  - split; [| done]. intros _. exists t. by rewrite set_thread_eq.
  - intros u Hu. destruct (decide (u = t)) as [-> |];
      rewrite ?set_thread_eq, ?set_thread_ne in * by done; [| by rewrite Hnone in Hu].
    split; [lia |]. simpl. specialize (Hrl Hlk). set_solver.
  - done.
  - done.
  - intros u. destruct (decide (u = t)) as [-> | Hu]; [by rewrite set_thread_eq |].
    rewrite set_thread_ne by done. eapply pc_ok_mono; [| apply Hpc]. done.
Qed.

Lemma release_ok w T t p v w' v' :
  sinv (w, T) -> T t = (p, v) -> holding p = true -> clear memory_order_release w v = (w', v') ->
  sinv (w', set_thread T t (Outside, v')).
Proof.
  intros [Hmx Hfl Hvw Hrl Hck Hpc] HT Hp Hcl. simpl in *.
  unfold clear in Hcl. injection Hcl as <- <-.
  assert (Hnone : forall u, u <> t -> holding (T u).1 = false).
  { intros u Hu. destruct (holding (T u).1) eqn:Hh; [| done]. exfalso. apply Hu, Hmx; [done |]. by rewrite HT. }
  assert (Hnone' : forall u, holding (set_thread T t (Outside, v ∪ {[pred (sw_entered w)]}) u).1 = false).
  { intros u. destruct (decide (u = t)) as [-> | Hu]; [by rewrite set_thread_eq |].
    rewrite set_thread_ne by done. by apply Hnone. }
  constructor; simpl.
  - intros a b Ha. by rewrite Hnone' in Ha.
  - split; [done |]. intros [u Hu]. by rewrite Hnone' in Hu.
  - intros u Hu. by rewrite Hnone' in Hu.
  - intros _. destruct (Hvw t ltac:(by rewrite HT)) as [Hpos Hv]. rewrite HT in Hv. simpl in Hv.
    rewrite <- (Nat.succ_pred (sw_entered w)) by lia. rewrite earlier_S. simpl. set_solver.
  - done.
  - intros u. destruct (decide (u = t)) as [-> | Hu]; [by rewrite set_thread_eq |].
    rewrite set_thread_ne by done. eapply pc_ok_mono; [| apply Hpc]. done.
Qed.

Lemma ClockNs_ok w c t w' :
  ClockNs w c = Some (t, w') -> t = sw_clock w' /\ sw_clock w <= sw_clock w' <= SIZE_MAX /\
  sw_lock w' = sw_lock w /\ sw_released w' = sw_released w /\ sw_entered w' = sw_entered w.
Proof. unfold ClockNs. intros Hc. case_match eqn:Hb; [| done]. bool_facts. by injection Hc as <- <-. Qed.

Lemma test_and_set_true o w v w' v' :
  test_and_set o w v = (true, w', v') -> w' = w /\ v' = v /\ locked_ (sw_lock w) = true.
Proof.
  unfold test_and_set. destruct w as [[[] h] g cl r n]; simpl; intros He; [| done].
  injection He as <- <-. done.
Qed.

Lemma test_and_set_false o w v w' v' :
  test_and_set o w v = (false, w', v') -> locked_ (sw_lock w) = false /\ sw_clock w' = sw_clock w.
Proof. unfold test_and_set. case_match; [done |]. intros He. by injection He as <- <-. Qed.

(** Every step keeps the invariant. *)
Ltac keep_step Hinv HT :=
  eapply (keep_ok _ _ _ _ _ _ _ _ Hinv HT); simpl;
  repeat match goal with |- context [if ?b then _ else _] => destruct b eqn:? end;
  simpl; rewrite ?(fun w => eq_refl : sw_clock (set_hist w _) = sw_clock w);
  first [done | lia | idtac].

Lemma lock_step_ok w T t p v c w' p' v' :
  sinv (w, T) -> T t = (p, v) -> lock_step w p v c = Some (w', (p', v')) ->
  sinv (w', set_thread T t (p', v')).
Proof.
  intros Hinv HT Hs. pose proof (si_clock _ Hinv) as Hck. pose proof (si_pc _ Hinv t) as Hp.
  simpl in Hck, Hp. rewrite HT in Hp. simpl in Hp.
  destruct p as [| | t0 n | t0 n | t0 n | t0 | t0 | t0 t1 | t1 | | | | | | |]; simpl in Hs; try done; simpl in Hp.
  - destruct (ClockNs w c) as [[t0 w1] |] eqn:Hc; [| done]. simpl in Hs. injection Hs as <- <- <-.
    apply ClockNs_ok in Hc as (-> & Hc & Hl & Hr & He). keep_step Hinv HT; try congruence; rewrite ?Hl; lia.
  - injection Hs as <- <- <-. keep_step Hinv HT.
  - destruct (test_and_set memory_order_acquire w v) as [[[] w1] v1] eqn:Htas; injection Hs as <- <- <-.
    + apply test_and_set_true in Htas as (-> & -> & _). keep_step Hinv HT.
    + pose proof (test_and_set_false _ _ _ _ _ Htas) as [Hlk Hcl].
      eapply acquire_ok; [exact Hinv | exact HT | done | done | exact Htas | |]; case_match; simpl; try done; lia.
  - injection Hs as <- <- <-.
    assert (Hu : u64 (n + 1) = n + 1) by (apply u64_id; lia). rewrite Hu. bool_facts.
    keep_step Hinv HT; bool_facts; lia.
  - injection Hs as <- <- <-. keep_step Hinv HT.
  - destruct (ClockNs w c) as [[t1 w1] |] eqn:Hc; [| done]. simpl in Hs. injection Hs as <- <- <-.
    apply ClockNs_ok in Hc as (-> & Hc & Hl & Hr & He). keep_step Hinv HT; try congruence; rewrite ?Hl; lia.
  - injection Hs as <- <- <-. keep_step Hinv HT.
  - injection Hs as <- <- <-. keep_step Hinv HT.
Qed.

Lemma try_lock_step_ok w T t p v c w' p' v' :
  sinv (w, T) -> T t = (p, v) -> try_lock_step w p v c = Some (w', (p', v')) ->
  sinv (w', set_thread T t (p', v')).
Proof.
  intros Hinv HT Hs. pose proof (si_clock _ Hinv) as Hck. simpl in Hck.
  destruct p; simpl in Hs; try done.
  - injection Hs as <- <- <-. keep_step Hinv HT.
  - destruct (test_and_set memory_order_acquire w v) as [[[] w1] v1] eqn:Htas; injection Hs as <- <- <-.
    + apply test_and_set_true in Htas as (-> & -> & _). keep_step Hinv HT.
    + pose proof (test_and_set_false _ _ _ _ _ Htas) as [Hlk Hcl].
      eapply acquire_ok; [exact Hinv | exact HT | done | done | exact Htas | |]; by case_match.
  - destruct (ClockNs w c) as [[t0 w1] |] eqn:Hc; [| done]. simpl in Hs. injection Hs as <- <- <-.
    apply ClockNs_ok in Hc as (-> & Hc & Hl & Hr & He). keep_step Hinv HT; rewrite ?Hl; try congruence; lia.
Qed.

Lemma unlock_step_ok w T t p v c w' p' v' :
  sinv (w, T) -> T t = (p, v) -> unlock_step w p v c = Some (w', (p', v')) ->
  sinv (w', set_thread T t (p', v')).
Proof.
  intros Hinv HT Hs. pose proof (si_clock _ Hinv) as Hck. simpl in Hck.
  destruct p; simpl in Hs; try done.
  - destruct (ClockNs w c) as [[t0 w1] |] eqn:Hc; [| done]. simpl in Hs. injection Hs as <- <- <-.
    apply ClockNs_ok in Hc as (-> & Hc & Hl & Hr & He).
    keep_step Hinv HT; rewrite ?Hl; try congruence; try lia.
    rewrite u64_id by (unfold SIZE_MAX in *; lia). lia.
  - injection Hs as <- <- <-. keep_step Hinv HT.
  - destruct (clear memory_order_release w v) as [w1 v1] eqn:Hcl. injection Hs as <- <- <-.
    by eapply release_ok.
Qed.

Lemma sstep_ok w T t c w' th :
  sinv (w, T) -> sstep w (T t) c = Some (w', th) -> sinv (w', set_thread T t th).
Proof.
  intros Hinv Hs. destruct (T t) as [p v] eqn:HT. destruct th as [p' v']. unfold sstep in Hs.
  pose proof (si_clock _ Hinv) as Hck. simpl in Hck.
  destruct p; try (by eapply lock_step_ok); try (by eapply try_lock_step_ok); try (by eapply unlock_step_ok).
  - destruct (ch_call c); try done; injection Hs as <- <- <-; keep_step Hinv HT.
  - destruct (ch_call c); try done. injection Hs as <- <- <-. keep_step Hinv HT.
Qed.

Lemma reachable_inv s : reachable s -> sinv s.
Proof.
  induction 1 as [w (Hl & Hc & Hr & He) | s s' _ IH Hstep].
  - constructor; simpl; rewrite ?Hl, ?He; try done.
    + split; [done |]. by intros [? ?].
    + simpl. lia.
  - destruct Hstep as [w T t c w' th Hs]. by eapply sstep_ok.
Qed.

(** Some step of every thread is always possible while the clock can show a time. *)
Lemma sstep_enabled w T t :
  sinv (w, T) -> exists c w' th, sstep w (T t) c = Some (w', th).
Proof.
  intros Hinv. pose proof (si_clock _ Hinv) as Hck. simpl in Hck. destruct (T t) as [p v].
  assert (Hclk : forall o, ClockNs w (mkChoice o true (sw_clock w)) = Some (sw_clock w, mkWorld (sw_lock w) (sw_hist w) (sw_clock w) (sw_released w) (sw_entered w))).
  { intros o. unfold ClockNs. simpl. rewrite !(proj2 (Z.leb_le _ _)) by lia. done. }
  exists (mkChoice (match p with Critical => CallUnlock | _ => CallLock end) true (sw_clock w)).
  destruct p; unfold sstep, lock_step, try_lock_step, unlock_step; rewrite ?Hclk; simpl;
    repeat match goal with |- context [let '(_, _) := ?x in _] => destruct x end; by eexists _, _.
Qed.

(** ** Properties *)

(** C36: Whatever the schedule, the stale values relaxed loads return, and the mix of
    [lock] and [try_lock]: at most one thread is between acquiring and releasing, the
    flag is set exactly while there is one, everything done in the earlier critical
    sections happened before the current one, the acquisition time is written by the
    owner only, and every thread can always make a step. *)
Theorem SpinLock_mutual_exclusion w T :
  reachable (w, T) ->
  (forall t u, holding (T t).1 = true -> holding (T u).1 = true -> t = u) /\
  (locked_ (sw_lock w) = true <-> exists t, holding (T t).1 = true) /\
  (forall t, holding (T t).1 = true -> earlier (pred (sw_entered w)) ⊆ (T t).2) /\
  (forall t c w' th, sstep w (T t) c = Some (w', th) ->
     hold_start_ns_ (sw_lock w') <> hold_start_ns_ (sw_lock w) -> holding (T t).1 = true) /\
  (forall t, exists c w' th, sstep w (T t) c = Some (w', th)).
Proof.
  intros Hr. pose proof (reachable_inv _ Hr) as Hinv. split_and!.
  - apply (si_mutex _ Hinv).
  - apply (si_flag _ Hinv).
  - intros t Ht. by apply (si_view _ Hinv).
  - intros t c w' th Hs Hne. destruct (T t) as [p v]. destruct p; simpl; try done; exfalso; apply Hne;
      unfold sstep, lock_step, try_lock_step, test_and_set, ClockNs in Hs; simpl in Hs;
      repeat (case_match; simpl in *; try done); by simplify_option_eq.
  - intros t. by apply sstep_enabled.
Qed.

(** A thread running alone: relaxed loads see the flag as it is. *)
Definition truthful (w : sworld) : choice := mkChoice CallLock (locked_ (sw_lock w)) (sw_clock w).
Fixpoint solo (n : nat) (w : sworld) (th : sthread) : option (sworld * sthread) :=
  match n with
  | O => Some (w, th)
  | S n => '(w, th) ← sstep w th (truthful w); solo n w th
  end.

(** The positions inside [lock()] before the flag is acquired. *)
Definition waiting (p : spc) : bool :=
  match p with
  | LockClock | LockTest _ _ | LockTas _ _ | LockPause _ _ | LockYield _ => true
  | _ => false
  end.

Lemma ClockNs_truthful w :
  0 <= sw_clock w <= SIZE_MAX -> ClockNs w (truthful w) = Some (sw_clock w, w).
Proof. intros Hc. unfold ClockNs. simpl. rewrite !(proj2 (Z.leb_le _ _)) by lia. by destruct w. Qed.

Lemma solo_S n w th w' th' :
  sstep w th (truthful w) = Some (w', th') -> solo (S n) w th = solo n w' th'.
Proof. simpl. by intros ->. Qed.

(** Some number of steps within a bound. *)
Definition within (b : nat) (w : sworld) (th : sthread) (P : sworld -> sthread -> Prop) : Prop :=
  exists n w' th', (n <= b)%nat /\ solo n w th = Some (w', th') /\ P w' th'.

Lemma within_done b w th (P : sworld -> sthread -> Prop) : P w th -> within b w th P.
Proof. intros HP. exists 0%nat, w, th. split; [lia | done]. Qed.

Lemma within_step b w th w' th' P :
  sstep w th (truthful w) = Some (w', th') -> within b w' th' P -> within (S b) w th P.
Proof.
  intros Hs (n & w2 & th2 & Hn & Hsolo & HP). exists (S n), w2, th2.
  split; [lia |]. by rewrite (solo_S _ _ _ _ _ Hs).
Qed.

Lemma within_mono b b' w th P : (b <= b')%nat -> within b w th P -> within b' w th P.
Proof. intros Hb (n & w2 & th2 & Hn & ?). exists n, w2, th2. split; [lia | done]. Qed.

Definition owns (w : sworld) (th : sthread) : Prop := th.1 = Critical /\ locked_ (sw_lock w) = true.

(** From the loop head, with the flag free, a thread alone acquires the lock. *)
Lemma lock_free_test w t0 n v :
  0 <= sw_clock w <= SIZE_MAX -> locked_ (sw_lock w) = false -> within 5 w (LockTest t0 n, v) owns.
Proof.
  intros Hck Hfree. eapply within_step; [simpl; unfold flag_test; simpl; by rewrite Hfree |].
  eapply within_step; [simpl; unfold test_and_set; by rewrite Hfree |].
  destruct (instrument_locks); [| by apply within_done].
  eapply within_step; [simpl; rewrite ClockNs_truthful by done; reflexivity |].
  eapply within_step; [reflexivity |]. eapply within_step; [reflexivity |]. by apply within_done.
Qed.

Lemma lock_free w p v :
  0 <= sw_clock w <= SIZE_MAX -> locked_ (sw_lock w) = false -> waiting p = true ->
  within 7 w (p, v) owns.
Proof.
  intros Hck Hfree Hp. destruct p as [| | t0 n | t0 n | t0 n | t0 | | | | | | | | | |]; try done.
  - apply (within_mono 6); [lia |]. eapply within_step; [simpl; rewrite ClockNs_truthful by done; reflexivity |].
    by apply lock_free_test.
  - apply (within_mono 5); [lia |]. by apply lock_free_test.
  - pose proof (lock_free_test w t0 n v Hck Hfree) as (k & w' & th' & Hk & Hs & Hown).
    destruct k as [| k]; [by injection Hs as <- <-; destruct Hown |].
    erewrite solo_S in Hs by (simpl; unfold flag_test; simpl; rewrite Hfree; reflexivity).
    exists k, w', th'. split; [lia | done].
  - eapply within_step; [reflexivity |]. case_match.
    + eapply within_step; [reflexivity |]. by apply lock_free_test.
    + apply (within_mono 5); [lia |]. by apply lock_free_test.
  - apply (within_mono 6); [lia |]. eapply within_step; [reflexivity |]. by apply lock_free_test.
Qed.

(** While the lock is held, a spinning thread changes nothing and yields after the
    rest of its 2000 rounds. *)
Lemma lock_held_yields k w t0 n v :
  locked_ (sw_lock w) = true -> 0 <= n -> n + Z.of_nat k = 2001 -> (0 < k)%nat ->
  solo (2 * k) w (LockTest t0 n, v) = Some (w, (LockYield t0, v)).
Proof.
  intros Hheld. revert n. induction k as [| k IH]; intros n Hn Hk Hpos; [lia |].
  replace (2 * S k)%nat with (S (S (2 * k))) by lia.
  erewrite solo_S by (simpl; unfold flag_test; simpl; rewrite Hheld; reflexivity).
  erewrite solo_S by reflexivity. rewrite u64_id by lia. case_cmp.
  - replace k with 0%nat by lia. done.
  - apply IH; lia.
Qed.

(** C37: In every reachable state, a thread inside [lock()] that runs alone has the lock
    within seven steps if it is free, and if it is held goes through at most 2001
    rounds, touching nothing, before it yields the processor; [try_lock] answers
    within three steps, with the lock exactly if it is free. *)
Theorem SpinLock_progress w T t :
  reachable (w, T) ->
  let '(p, v) := T t in
  (locked_ (sw_lock w) = false -> waiting p = true -> within 7 w (p, v) owns) /\
  (locked_ (sw_lock w) = true -> forall t0 n, p = LockTest t0 n ->
     solo (2 * Z.to_nat (2001 - n)) w (p, v) = Some (w, (LockYield t0, v))) /\
  (p = TryTest ->
     within 3 w (p, v) (fun w' th' => if locked_ (sw_lock w) then w' = w /\ th'.1 = Outside else owns w' th')).
Proof.
  intros Hr. pose proof (reachable_inv _ Hr) as Hinv.
  pose proof (si_clock _ Hinv) as [Hck _]. pose proof (si_pc _ Hinv t) as Hp. simpl in Hck, Hp.
  destruct (T t) as [p v]. simpl in Hp. split_and!.
  - intros Hfree Hw. by apply lock_free.
  - intros Hheld t0 n ->. simpl in Hp. apply lock_held_yields; lia || done.
  - intros ->. destruct (locked_ (sw_lock w)) eqn:Hl.
    + eapply within_step; [simpl; unfold flag_test; simpl; by rewrite Hl |]. by apply within_done.
    + eapply within_step; [simpl; unfold flag_test; simpl; by rewrite Hl |].
      eapply within_step; [simpl; unfold test_and_set; by rewrite Hl |].
      destruct instrument_locks; [| by apply within_done].
      eapply within_step; [simpl; rewrite ClockNs_truthful by done; reflexivity |]. by apply within_done.
Qed.

(** The recorded durations are the elapsed times: the differences never wrap. *)
Theorem SpinLock_durations w T :
  reachable (w, T) -> forall t,
  (forall t0 t1, (T t).1 = LockRecord t0 t1 -> u64 (t1 - t0) = t1 - t0 /\ 0 <= t1 - t0 <= sw_clock w) /\
  (forall ns, (T t).1 = UnlockRecord ns -> 0 <= ns <= sw_clock w).
Proof.
  intros Hr t. pose proof (reachable_inv _ Hr) as Hinv.
  pose proof (si_clock _ Hinv) as [Hck _]. pose proof (si_pc _ Hinv t) as Hp. simpl in Hck, Hp.
  split; intros; destruct ((T t).1); simplify_eq/=; [| lia].
  rewrite u64_id by (unfold SIZE_MAX in *; lia). lia.
Qed.

(** ** Executions *)

(** A schedule names the thread of each step and what the environment chose. *)
Fixpoint run_sched (s : sstate) (l : list (nat * choice)) : option sstate :=
  match l with
  | [] => Some s
  | (t, c) :: l => '(w, th) ← sstep s.1 (s.2 t) c; run_sched (w, set_thread s.2 t th) l
  end.

Lemma run_sched_reachable s l s' : reachable s -> run_sched s l = Some s' -> reachable s'.
Proof.
  revert s. induction l as [| [t c] l IH]; intros [w T] Hr Hrun; simpl in Hrun; [by injection Hrun as <- |].
  destruct (sstep w (T t) c) as [[w1 th] |] eqn:Hs; [| done]. simpl in Hrun.
  eapply IH; [| exact Hrun]. eapply reach_step; [exact Hr |]. by econstructor.
Qed.

Lemma run_default_reachable s l : reachable s -> reachable (default s (run_sched s l)).
Proof.
  intros Hr. destruct (run_sched s l) as [s' |] eqn:Hrun; [| done]. by eapply run_sched_reachable.
Qed.
End Lock.

(** Two threads of an instrumented build: thread 0 takes and leaves the lock, thread 1
    takes it next while thread 0 comes back and spins. *)
Definition sample_world : sworld := mkWorld SpinLock_new (fun _ => zero_histogram) 100 ∅ 0.
Definition go (t : nat) (now : Z) : nat * choice := (t, mkChoice CallLock false now).
Definition leave (t : nat) (now : Z) : nat * choice := (t, mkChoice CallUnlock false now).
Definition sample_sched : list (nat * choice) :=
  [go 0 100; go 0 100; go 1 100; go 0 100; go 0 100; go 0 104; go 0 104; go 0 104;
   leave 0 110; leave 0 117; leave 0 117; leave 0 117;
   go 1 120; go 1 120; go 1 120; go 1 121; go 0 121; go 0 122; go 0 122; go 0 122; go 0 122].

Section SpinWitness.
#[local] Existing Instance instrumented.

Definition sample_state : sstate := default (sample_world, fun _ => (Outside, ∅)) (run_sched (sample_world, fun _ => (Outside, ∅)) sample_sched).

Lemma sample_reachable : reachable (sample_state.1, sample_state.2).
Proof.
  rewrite <- surjective_pairing. apply run_default_reachable, reach_start. split; [reflexivity |].
  split; [split; discriminate |]. split; reflexivity.
Qed.

Lemma SpinLock_mutual_exclusion_witness :
  (sample_state.2 1%nat).1 = LockRecord 120 121 /\ (sample_state.2 0%nat).1 = LockTest 122 1 /\
  forall t, holding (sample_state.2 t).1 = true -> t = 1%nat.
Proof.
  split; [vm_compute; reflexivity |]. split; [vm_compute; reflexivity |]. intros t Ht.
  pose proof (SpinLock_mutual_exclusion sample_state.1 sample_state.2 sample_reachable) as (Hm & _).
  apply Hm; [exact Ht | vm_compute; reflexivity].
Defined.

Lemma SpinLock_progress_witness :
  exists n w' th', (n <= 4000)%nat /\ solo n sample_state.1 (sample_state.2 0%nat) = Some (w', th') /\ th'.1 = LockYield 122.
Proof.
  pose proof (SpinLock_progress sample_state.1 sample_state.2 0%nat sample_reachable) as Hp.
  destruct (sample_state.2 0%nat) as [p v] eqn:HT. destruct Hp as (_ & Hy & _).
  assert (Hp : p = LockTest 122 1).
  { change p with ((p, v).1). rewrite <- HT. vm_compute. reflexivity. }
  exists 4000%nat, sample_state.1, (LockYield 122, v). split; [lia |].
  split; [| reflexivity]. pose proof (Hy ltac:(vm_compute; reflexivity) 122 1 Hp) as Hs. exact Hs.
Defined.
End SpinWitness.
