(* ===== verification/LockGuards.v ===== *)
(** * Lock guards (include/ammalloc/noalloc_diagnostics.h, src/noalloc_diagnostics.cpp,
    InstrumentedMutex of include/ammalloc/lock_instrumentation.h)

    The fatal diagnostics, the two guards over any mutex whose operations may throw,
    and the mutex that records its wait and hold durations.  The mutex itself is
    library code: the class [BasicLockable], seen from the thread that uses it, with
    the documented behaviour of [std::mutex] as [BasicLockableLaws]; so is the clock. *)
From S2P Require Import Prelude Config Binary64 LockInstrumentation.
Open Scope Z_scope.

(** A call that returns gives the mutex afterwards ([Some]); one that throws gives [None];
    locking what one holds and unlocking what one does not is undefined. *)
Class BasicLockable (M : Type) := {
  mutex_lock : M -> outcome (option M);
  mutex_try_lock : M -> outcome (option (bool * M));
  mutex_unlock : M -> outcome (option M);
}.

Class BasicLockableLaws (M : Type) `{BasicLockable M} := {
  held : M -> bool;
  lock_law : forall m, held m = false ->
    mutex_lock m = Ok None \/ exists m', mutex_lock m = Ok (Some m') /\ held m' = true;
  try_lock_law : forall m, held m = false ->
    mutex_try_lock m = Ok None \/ exists b m', mutex_try_lock m = Ok (Some (b, m')) /\ held m' = b;
  unlock_law : forall m, held m = true ->
    mutex_unlock m = Ok None \/ exists m', mutex_unlock m = Ok (Some m') /\ held m' = false;
}.

(** [WriteLiteral]: the bytes before the terminator go to stderr, best effort; the
    message of [FatalNoAlloc] is the text of its three calls, then [abort()]. *)
Fixpoint literal_length (text : string) : Z :=
  match text with
  | EmptyString => 0
  | String c rest => if decide (c = Ascii.zero) then 0 else 1 + literal_length rest
  end.
Definition WriteLiteral (text : string) : string := String.substring 0 (Z.to_nat (literal_length text)) text.

Definition newline : string := String (Ascii.ascii_of_nat 10) EmptyString.
Definition FatalNoAlloc {A} (message : string) : outcome A :=
  Abort (WriteLiteral "ammalloc fatal: " ++ WriteLiteral message ++ WriteLiteral newline)%string.

Section Guards.
Context {M : Type} `{BasicLockable M}.

Definition LockOrFatal (mutex : M) : outcome M :=
  r ← mutex_lock mutex;
  match r with Some m => Ok m | None => FatalNoAlloc "mutex::lock failed" end.

Definition UnlockOrFatal (mutex : M) : outcome M :=
  r ← mutex_unlock mutex;
  match r with Some m => Ok m | None => FatalNoAlloc "mutex::unlock failed" end.

(** [NoThrowLockGuard]: locked from construction to destruction. *)
Definition NoThrowLockGuard_new (mutex : M) : outcome M := LockOrFatal mutex.
Definition NoThrowLockGuard_destroy (mutex : M) : outcome M := UnlockOrFatal mutex.

(** [NoThrowUniqueLock]. *)
Record NoThrowUniqueLock := mkUniqueLock { ul_mutex : M; owns_ : bool }.

Definition NoThrowUniqueLock_new (mutex : M) : outcome NoThrowUniqueLock :=
  m ← LockOrFatal mutex; Ok (mkUniqueLock m true).

Definition NoThrowUniqueLock_lock (l : NoThrowUniqueLock) : outcome NoThrowUniqueLock :=
  if owns_ l then FatalNoAlloc "NoThrowUniqueLock double lock"
  else m ← LockOrFatal (ul_mutex l); Ok (mkUniqueLock m true).

Definition NoThrowUniqueLock_unlock (l : NoThrowUniqueLock) : outcome NoThrowUniqueLock :=
  if negb (owns_ l) then FatalNoAlloc "NoThrowUniqueLock unlock without ownership"
  else m ← UnlockOrFatal (ul_mutex l); Ok (mkUniqueLock m false).

Definition NoThrowUniqueLock_destroy (l : NoThrowUniqueLock) : outcome M :=
  if owns_ l then UnlockOrFatal (ul_mutex l) else Ok (ul_mutex l).

(** The use of a guard: a construction, any calls, the destruction. *)
Inductive guard_call := GLock | GUnlock.
Definition guard_step (l : NoThrowUniqueLock) (c : guard_call) : outcome NoThrowUniqueLock :=
  match c with GLock => NoThrowUniqueLock_lock l | GUnlock => NoThrowUniqueLock_unlock l end.
Fixpoint guard_calls (l : NoThrowUniqueLock) (cs : list guard_call) : outcome NoThrowUniqueLock :=
  match cs with [] => Ok l | c :: cs => l ← guard_step l c; guard_calls l cs end.
Definition guard_session (mutex : M) (cs : list guard_call) : outcome M :=
  l ← NoThrowUniqueLock_new mutex; l ← guard_calls l cs; NoThrowUniqueLock_destroy l.

(** Which sequences of calls are correct, and the first mistake of the others. *)
Fixpoint misuse (owned : bool) (cs : list guard_call) : option string :=
  match cs with
  | [] => None
  | GLock :: cs => if owned then Some "NoThrowUniqueLock double lock"%string else misuse true cs
  | GUnlock :: cs => if owned then misuse false cs else Some "NoThrowUniqueLock unlock without ownership"%string
  end.

Context `{!BasicLockableLaws M}.

(** A mutex whose operations do not throw. *)
Definition reliable : Prop :=
  (forall m, held m = false -> mutex_lock m <> Ok None) /\ (forall m, held m = true -> mutex_unlock m <> Ok None).

(** The ways a guard may end the program. *)
Definition infrastructure_failure {A} (o : outcome A) : Prop :=
  o = FatalNoAlloc "mutex::lock failed" \/ o = FatalNoAlloc "mutex::unlock failed".

Lemma LockOrFatal_ok m :
  held m = false ->
  (exists m', LockOrFatal m = Ok m' /\ held m' = true) \/
  (LockOrFatal m = FatalNoAlloc "mutex::lock failed" /\ mutex_lock m = Ok None).
Proof.
  intros Hm. unfold LockOrFatal. destruct (lock_law m Hm) as [-> | (m' & -> & Hm')]; [by right |].
  left. by exists m'.
Qed.

Lemma UnlockOrFatal_ok m :
  held m = true ->
  (exists m', UnlockOrFatal m = Ok m' /\ held m' = false) \/
  (UnlockOrFatal m = FatalNoAlloc "mutex::unlock failed" /\ mutex_unlock m = Ok None).
Proof.
  intros Hm. unfold UnlockOrFatal. destruct (unlock_law m Hm) as [-> | (m' & -> & Hm')]; [by right |].
  left. by exists m'.
Qed.

(** What a session may come to: the mutex released; the report of the first misuse; or the
    report of a mutex that threw. *)
Definition session_result (o : outcome M) (wrong : option string) : Prop :=
  match wrong with
  | None => exists m, o = Ok m /\ held m = false
  | Some why => o = FatalNoAlloc why
  end \/ infrastructure_failure o /\ ~ reliable.

Lemma not_reliable_lock m : held m = false -> mutex_lock m = Ok None -> ~ reliable.
Proof. intros Hm Hn [Hl _]. by apply (Hl m). Qed.
Lemma not_reliable_unlock m : held m = true -> mutex_unlock m = Ok None -> ~ reliable.
Proof. intros Hm Hn [_ Hu]. by apply (Hu m). Qed.

Lemma guard_calls_ok cs l :
  held (ul_mutex l) = owns_ l ->
  session_result (l ← guard_calls l cs; NoThrowUniqueLock_destroy l) (misuse (owns_ l) cs).
Proof.
  revert l. induction cs as [| [] cs IH]; intros [m b] Hl; simpl in Hl; subst b.
  - cbn [guard_calls]. rewrite bind_Ok_l. unfold NoThrowUniqueLock_destroy. simpl.
    destruct (held m) eqn:Hm; [| left; by exists m].
    destruct (UnlockOrFatal_ok m Hm) as [(m' & Hu & Hm') | [Hu Hn]]; [left; by exists m' |].
    right. split; [by right | by eapply not_reliable_unlock].
  - cbn [guard_calls guard_step misuse owns_]. unfold NoThrowUniqueLock_lock. simpl.
    destruct (held m) eqn:Hm; [by left |].
    destruct (LockOrFatal_ok m Hm) as [(m' & -> & Hm') | [-> Hn]]; [by apply (IH (mkUniqueLock m' true)) |].
    right. split; [by left | by eapply not_reliable_lock].
  - cbn [guard_calls guard_step misuse owns_]. unfold NoThrowUniqueLock_unlock. simpl.
    destruct (held m) eqn:Hm; [| by left]. simpl.
    destruct (UnlockOrFatal_ok m Hm) as [(m' & -> & Hm') | [-> Hn]]; [by apply (IH (mkUniqueLock m' false)) |].
    right. split; [by right | by eapply not_reliable_unlock].
Qed.

Lemma guard_session_ok m cs :
  held m = false -> session_result (guard_session m cs) (misuse true cs).
Proof.
  intros Hm. unfold guard_session, NoThrowUniqueLock_new. rewrite bind_assoc_outcome.
  destruct (LockOrFatal_ok m Hm) as [(m' & -> & Hm') | [-> Hn]].
  - rewrite !bind_Ok_l. by apply (guard_calls_ok cs (mkUniqueLock m' true)).
  - right. split; [by left | by eapply not_reliable_lock].
Qed.

(** The scoped guard is the session without calls. *)
Definition scoped (m : M) : outcome M := m ← NoThrowLockGuard_new m; NoThrowLockGuard_destroy m.
Lemma scoped_session m : scoped m = guard_session m [].
Proof.
  unfold scoped, guard_session, NoThrowLockGuard_new, NoThrowUniqueLock_new.
  by destruct (LockOrFatal m).
Qed.

End Guards.
Arguments NoThrowUniqueLock M : clear implicits.

(** ** InstrumentedMutex *)

(** [std::chrono::steady_clock]: it never goes back. *)
Class Clock (C : Type) := { clock_now : C -> Z * C }.
Class ClockLaws (C : Type) `{Clock C} := {
  clock_time : C -> Z;
  clock_law : forall c, let '(t, c') := clock_now c in clock_time c <= t /\ t = clock_time c' /\ t <= SIZE_MAX;
  clock_nonneg : forall c, 0 <= clock_time c;
}.

Section Instrumented.
Context `{LockBuild} {M C : Type} `{BasicLockable M} `{Clock C}.

(** The inner mutex with its acquisition time, and the shared clock and histograms. *)
Record InstrumentedMutex := mkInstrumented {
  inner_ : M;
  im_hold_start : Z;
  im_clock : C;
  im_hist : Histograms;
}.

Definition InstrumentedMutex_lock (m : InstrumentedMutex) : outcome (option InstrumentedMutex) :=
  let '(t0, c) := clock_now (im_clock m) in
  r ← mutex_lock (inner_ m);
  match r with
  | None => Ok None
  | Some inner =>
      let '(t1, c) := clock_now c in
      Ok (Some (mkInstrumented inner t1 c (RecordLockWait (im_hist m) kSpanListMutex (u64 (t1 - t0)))))
  end.

Definition InstrumentedMutex_try_lock (m : InstrumentedMutex) : outcome (option (bool * InstrumentedMutex)) :=
  r ← mutex_try_lock (inner_ m);
  match r with
  | None => Ok None
  | Some (acquired, inner) =>
      if (acquired : bool) then
        let '(t, c) := clock_now (im_clock m) in
        Ok (Some (true, mkInstrumented inner t c (im_hist m)))
      else Ok (Some (false, mkInstrumented inner (im_hold_start m) (im_clock m) (im_hist m)))
  end.

(** The record comes before the inner unlock, and is kept if that throws. *)
Definition InstrumentedMutex_unlock (m : InstrumentedMutex) : outcome (option InstrumentedMutex) :=
  let '(t, c) := clock_now (im_clock m) in
  let hist := RecordLockHold (im_hist m) kSpanListMutex (u64 (t - im_hold_start m)) in
  r ← mutex_unlock (inner_ m);
  match r with
  | None => Ok None
  | Some inner => Ok (Some (mkInstrumented inner (im_hold_start m) c hist))
  end.

#[export] Instance instrumented_lockable : BasicLockable InstrumentedMutex := {
  mutex_lock := InstrumentedMutex_lock;
  mutex_try_lock := InstrumentedMutex_try_lock;
  mutex_unlock := InstrumentedMutex_unlock;
}.

Context `{!BasicLockableLaws M}.

(** The wrapper behaves as the mutex it wraps. *)
#[export] Program Instance instrumented_laws : BasicLockableLaws InstrumentedMutex := {
  held m := held (inner_ m);
}.
Next Obligation.
  intros m Hm. unfold mutex_lock at 1 2. simpl. unfold InstrumentedMutex_lock.
  destruct (clock_now (im_clock m)) as [t0 c].
  destruct (lock_law (inner_ m) Hm) as [-> | (m' & -> & Hm')]; [by left | right]. simpl.
  destruct (clock_now c) as [t1 c']. by eexists.
Qed.
Next Obligation.
  intros m Hm. unfold mutex_try_lock at 1 2. simpl. unfold InstrumentedMutex_try_lock.
  destruct (try_lock_law (inner_ m) Hm) as [-> | ([] & m' & -> & Hm')]; [by left | right | right]; simpl.
  - destruct (clock_now (im_clock m)) as [t c]. by eexists _, _.
  - by eexists _, _.
Qed.
Next Obligation.
  intros m Hm. unfold mutex_unlock at 1 2. simpl. unfold InstrumentedMutex_unlock.
  destruct (clock_now (im_clock m)) as [t c].
  destruct (unlock_law (inner_ m) Hm) as [-> | (m' & -> & Hm')]; [by left | right]. simpl. by eexists.
Qed.

(** A lock and an unlock that return record the time waited and the time held, as
    differences that do not wrap. *)
Lemma InstrumentedMutex_records `{!ClockLaws C} m m1 c m2 :
  InstrumentedMutex_lock m = Ok (Some m1) -> clock_time (im_clock m1) <= clock_time c ->
  InstrumentedMutex_unlock (mkInstrumented (inner_ m1) (im_hold_start m1) c (im_hist m1)) = Ok (Some m2) ->
  exists wait hold, 0 <= wait <= SIZE_MAX /\ 0 <= hold <= SIZE_MAX /\
    im_hist m2 = RecordLockHold (RecordLockWait (im_hist m) kSpanListMutex wait) kSpanListMutex hold.
Proof.
  unfold InstrumentedMutex_lock, InstrumentedMutex_unlock. intros Hl Hc Hu. simpl in Hu.
  pose proof (clock_law (im_clock m)) as Ht0. destruct (clock_now (im_clock m)) as [t0 c0].
  destruct (mutex_lock (inner_ m)) as [[inner |] | | |]; try done. simpl in Hl.
  pose proof (clock_law c0) as Hc0. destruct (clock_now c0) as [t1 c1]. injection Hl as <-. simpl in *.
  pose proof (clock_law c) as Hc2. destruct (clock_now c) as [t2 c2].
  destruct (mutex_unlock inner) as [[inner2 |] | | |]; try done. simpl in Hu. injection Hu as <-. simpl.
  pose proof (clock_nonneg (im_clock m)).
  exists (t1 - t0), (t2 - t1). rewrite !u64_id by (unfold SIZE_MAX in *; lia).
  split; [lia |]. split; [lia | done].
Qed.
End Instrumented.
Arguments InstrumentedMutex M C : clear implicits.

(** ** Properties *)

(** C38: Over any mutex that behaves as documented, the instrumented one included, a unique
    lock used in any way ends with the mutex released exactly when the calls alternate
    correctly; the first misuse is reported before the mutex sees it, so its undefined
    cases are never reached; a mutex that throws ends the program with a report, and one
    that does not throw never does. *)
Theorem NoThrowUniqueLock_spec {M} `{BasicLockableLaws M} (m : M) cs :
  held m = false -> session_result (guard_session m cs) (misuse true cs).
Proof. apply guard_session_ok. Qed.

(** A mutex of one thread: whether it holds it, and how many more calls succeed. *)
Record plain_mutex := mkPlain { pm_held : bool; pm_good : nat }.
#[export] Instance plain_lockable : BasicLockable plain_mutex := {
  mutex_lock m := if pm_held m then UB "relock"
    else Ok (match pm_good m with O => None | S n => Some (mkPlain true n) end);
  mutex_try_lock m := if pm_held m then UB "relock"
    else Ok (match pm_good m with O => Some (false, m) | S n => Some (true, mkPlain true n) end);
  mutex_unlock m := if pm_held m then Ok (match pm_good m with O => None | S n => Some (mkPlain false n) end)
    else UB "unlock without ownership";
}.
#[export] Program Instance plain_laws : BasicLockableLaws plain_mutex := { held := pm_held }.
Next Obligation. intros [[] [| n]] Hm; simpl in *; try done; [by left | right; by eexists]. Qed.
Next Obligation. intros [[] [| n]] Hm; simpl in *; try done; right; by eexists _, _. Qed.
Next Obligation. intros [[] [| n]] Hm; simpl in *; try done; [by left | right; by eexists]. Qed.

Definition ticking : Clock Z := {| clock_now c := (Z.min (c + 1) SIZE_MAX, Z.min (c + 1) SIZE_MAX) |}.

Section GuardWitness.
#[local] Existing Instance instrumented.
#[local] Existing Instance ticking.

Definition sample_mutex (good : nat) : InstrumentedMutex plain_mutex Z :=
  mkInstrumented (mkPlain false good) 0 5 (fun _ => zero_histogram).

Lemma NoThrowUniqueLock_spec_witness :
  held (sample_mutex 4) = false /\
  session_result (guard_session (sample_mutex 4) [GUnlock; GLock; GLock]) (misuse true [GUnlock; GLock; GLock]) /\
  guard_session (sample_mutex 4) [GUnlock; GLock; GLock] = FatalNoAlloc "NoThrowUniqueLock double lock" /\
  guard_session (sample_mutex 1) [] = FatalNoAlloc "mutex::unlock failed" /\
  is_ok (guard_session (sample_mutex 4) [GUnlock; GLock]) = true.
Proof.
  split; [reflexivity |].
  split; [apply (NoThrowUniqueLock_spec (sample_mutex 4) [GUnlock; GLock; GLock]); reflexivity |].
  split; [reflexivity |]. split; reflexivity.
Defined.
End GuardWitness.
