(* ===== verification/PageCacheLegacy.v ===== *)
(** * The page cache without shards (the #else branches of include/ammalloc/page_cache.h
    and src/page_cache.cpp)

    The implementation compiled when [USE_PAGECACHE_SHARD] is not defined, kept for
    comparison: one mutex, no owner checks, and small differences in the flags it
    writes.  The theorem shows it computes the same results and the same states as the
    sharded one with a single shard, as long as every free run is committed; it
    differs on requests for zero pages, and in the committed flag of what is left
    of a scavenged run. *)
From S2P Require Import Prelude Config SizeClass Common Span SpanList Backing PageMap PageCache PageCacheInv PageCacheAlloc PageCacheRelease.
Open Scope Z_scope.

Section Ops.
Context `{Build} `{StaticLayout} {W : Type} `{Backing W}.

Definition legacy_IsBucketEmpty (s : PageCache W) (bucket_idx : Z) : outcome bool :=
  _ ← AM_DCHECK (bucket_idx <? MAX_PAGE_NUM + 1) "bucket_idx < span_lists_.size()";
  sl_empty (pc_spans s) (list_head bucket_idx).

Definition legacy_alloc_large (s : PageCache W) (num : Z) : outcome (Z * PageCache W) :=
  '(a, s) ← map_run s num;
  if a =? 0 then Ok (0, s)
  else s ← update s a (fun d => with_owner (SetCommitted (SetUsed d true) true) 0);
       s ← publish s a;
       Ok (a, s).

(** No owner is recorded. *)
Definition legacy_refill (s : PageCache W) : outcome (bool * PageCache W) :=
  '(a, s) ← map_run s MAX_PAGE_NUM;
  if a =? 0 then Ok (false, s)
  else
    let '(now, w) := bk_now (pc_w s) in
    s ← update (with_w s w) a (fun d => with_time (SetCommitted (SetUsed d false) true) now);
    st ← push_front (pc_spans s) (list_head MAX_PAGE_NUM) a;
    s ← publish (with_spans s st) a;
    Ok (true, s).

(** No checks, no owner, and the rest of the split run keeps its committed flag. *)
Definition legacy_split_bucket (s : PageCache W) (i num : Z) : outcome (Z * PageCache W) :=
  '(big, st) ← pop_front (pc_spans s) (list_head i);
  let s := with_spans s st in
  b ← get_span (pc_spans s) big;
  '(small, s) ← new_span s (start_page_idx b) (u32 num);
  if small =? 0
  then st ← push_front (pc_spans s) (list_head i) big; Ok (0, with_spans s st)
  else
    s ← update s small (fun d => SetCommitted (SetUsed d true) true);
    s ← update s big (fun d => SetUsed (with_pages d (u64 (start_page_idx d + num)) (u32 (page_num d - num))) false);
    let '(now, w) := bk_now (pc_w s) in
    s ← update (with_w s w) big (fun d => with_time d now);
    b ← get_span (pc_spans s) big;
    st ← push_front (pc_spans s) (list_head (page_num b)) big;
    s ← publish (with_spans s st) small;
    s ← publish s big;
    Ok (small, s).

Fixpoint legacy_alloc_loop (fuel : nat) (s : PageCache W) (num : Z) : outcome (Z * PageCache W) :=
  match fuel with
  | O => NoFuel
  | S fuel' =>
      if MAX_PAGE_NUM <? num then legacy_alloc_large s num
      else
        _ ← AM_DCHECK ((1 <=? num) && (num <=? MAX_PAGE_NUM)) "page_num >= 1 && page_num <= MAX_PAGE_NUM";
        e ← sl_empty (pc_spans s) (list_head num);
        if negb e
        then '(a, st) ← pop_front (pc_spans s) (list_head num);
             s ← update (with_spans s st) a (fun d => SetCommitted (SetUsed d true) true);
             Ok (a, s)
        else
          b ← find_bucket (pc_spans s) (Z.to_nat (MAX_PAGE_NUM - num)) (num + 1);
          match b with
          | Some i => legacy_split_bucket s i num
          | None => '(ok, s) ← legacy_refill s;
                    if ok : bool then legacy_alloc_loop fuel' s num else Ok (0, s)
          end
  end.

(** Zero pages are not refused. *)
Definition legacy_AllocSpanLocked (s : PageCache W) (num : Z) : outcome (Z * PageCache W) :=
  if UINT32_MAX <? num then Ok (0, s) else legacy_alloc_loop 2 s num.
Definition legacy_AllocSpan (s : PageCache W) (num : Z) : outcome (Z * PageCache W) :=
  legacy_AllocSpanLocked s num.

Definition legacy_can_merge (d other : Span) : bool :=
  negb (IsUsed other) && (u32 (page_num d + page_num other) <=? MAX_PAGE_NUM).

Fixpoint legacy_merge_left (fuel : nat) (s : PageCache W) (span retired : Z) : outcome (Z * PageCache W) :=
  match fuel with
  | O => NoFuel
  | S fuel' =>
      d ← get_span (pc_spans s) span;
      if start_page_idx d =? 0 then Ok (retired, s)
      else
        left ← GetSpan (pc_map s) (start_page_idx d - 1);
        if left =? 0 then Ok (retired, s)
        else
          l ← get_span (pc_spans s) left;
          if negb (legacy_can_merge d l) then Ok (retired, s)
          else
            s ← unlist s left;
            s ← update s span (fun d => with_pages d (start_page_idx l) (u32 (page_num d + page_num l)));
            st ← set_next (pc_spans s) left retired;
            legacy_merge_left fuel' (with_spans s st) span left
  end.

Fixpoint legacy_merge_right (fuel : nat) (s : PageCache W) (span retired : Z) : outcome (Z * PageCache W) :=
  match fuel with
  | O => NoFuel
  | S fuel' =>
      d ← get_span (pc_spans s) span;
      right ← GetSpan (pc_map s) (u64 (start_page_idx d + page_num d));
      if right =? 0 then Ok (retired, s)
      else
        r ← get_span (pc_spans s) right;
        if negb (legacy_can_merge d r) then Ok (retired, s)
        else
          s ← unlist s right;
          s ← update s span (fun d => with_pages d (start_page_idx d) (u32 (page_num d + page_num r)));
          st ← set_next (pc_spans s) right retired;
          legacy_merge_right fuel' (with_spans s st) span right
  end.

Definition legacy_ReleaseSpan (s : PageCache W) (span : Z) : outcome (PageCache W) :=
  d ← get_span (pc_spans s) span;
  if MAX_PAGE_NUM <? page_num d
  then
    let ptr := GetPageBaseAddr d in
    t ← ClearRange (pc_map s) (start_page_idx d) (page_num d);
    s ← system_free (with_map s t) ptr (page_num d);
    delete_span s span
  else
    '(retired, s) ← legacy_merge_left (Z.to_nat MAX_PAGE_NUM) s span 0;
    '(retired, s) ← legacy_merge_right (Z.to_nat MAX_PAGE_NUM) s span retired;
    let '(now, w) := bk_now (pc_w s) in
    s ← update (with_w s w) span (fun d =>
          SetCommitted (with_time (with_usage (with_grid (SetUsed d false)
            (size_class_idx d) 0 0 0) 0 (scan_cursor d)) now) true);
    s ← publish s span;
    s ← delete_retired (Z.to_nat MAX_PAGE_NUM) s retired;
    d ← get_span (pc_spans s) span;
    st ← push_front (pc_spans s) (list_head (page_num d)) span;
    Ok (with_spans s st).

Fixpoint legacy_reset_list (fuel : nat) (s : PageCache W) (head : Z) : outcome (PageCache W) :=
  e ← sl_empty (pc_spans s) head;
  if e : bool then Ok s
  else match fuel with
  | O => NoFuel
  | S fuel' =>
      '(span, st) ← pop_front (pc_spans s) head;
      let s := with_spans s st in
      d ← get_span (pc_spans s) span;
      s ← system_free s (GetPageBaseAddr d) (page_num d);
      s ← delete_span s span;
      legacy_reset_list fuel' s head
  end.

Definition legacy_Reset (fuel : nat) (s : PageCache W) : outcome (PageCache W) :=
  s ← for_range 0 (MAX_PAGE_NUM + 1) (fun i s => legacy_reset_list fuel s (list_head i)) s;
  w ← bk_span_ReleaseMemory (pc_w s);
  '(t, w) ← PageMap_Reset (pc_map s) w;
  Ok (mkPageCache (pc_spans s) t w).
End Ops.

(** ** One shard, everything committed *)

(** What the two implementations agree on: no descriptor records another shard, and
    the free runs are committed. *)
Definition uniform `{StaticLayout} (st : spans) : Prop :=
  forall a d, st !! a = Some d ->
    owner_shard_id d = 0 /\ (~ is_head a -> IsUsed d = false -> IsCommitted d = true).

Section Uniform.
Context `{Build} `{StaticLayout} {W : Type} `{Backing W}.
Implicit Types (s : PageCache W).

Lemma uniform_insert st a d :
  uniform st -> owner_shard_id d = 0 -> (IsUsed d = false -> IsCommitted d = true) ->
  uniform (<[a := d]> st).
Proof.
  intros Hu Ho Hc b e. destruct (decide (b = a)) as [-> |]; [| rewrite lookup_insert_ne by done; apply Hu].
  rewrite lookup_insert_eq. by intros [= <-].
Qed.

Lemma uniform_delete st a : uniform st -> uniform (delete a st).
Proof. intros Hu b e [_ Hb]%lookup_delete_Some. by apply Hu. Qed.

Lemma uniform_data st st' : uniform st -> same_data st st' -> uniform st'.
Proof.
  intros Hu Hd a d' Ha. specialize (Hd a). rewrite Ha in Hd. simpl in Hd.
  destruct (st !! a) as [d |] eqn:He; [| done]. simpl in Hd. injection Hd as Hd.
  destruct (Hu a d He) as [Ho Hc]. unfold IsUsed, IsCommitted, span_data in *.
  destruct d, d'. simpl in *. by simplify_eq.
Qed.

(** The list operations only write links. *)
Lemma set_next_data st a n st' : set_next st a n = Ok st' -> same_data st st'.
Proof.
  unfold set_next, upd_span. intros (d & Hd & [= <-])%bind_Ok_inv.
  unfold get_span in Hd. case_match; [done |]. case_match; simplify_eq. by eapply same_data_insert.
Qed.
Lemma set_prev_data st a n st' : set_prev st a n = Ok st' -> same_data st st'.
Proof.
  unfold set_prev, upd_span. intros (d & Hd & [= <-])%bind_Ok_inv.
  unfold get_span in Hd. case_match; [done |]. case_match; simplify_eq. by eapply same_data_insert.
Qed.

Ltac data_chain :=
  repeat match goal with
  | Hs : set_next _ _ _ = Ok _ |- _ => apply set_next_data in Hs
  | Hs : set_prev _ _ _ = Ok _ |- _ => apply set_prev_data in Hs
  end;
  first [eassumption | etransitivity; [eassumption | data_chain] | reflexivity].

Lemma insert_data st pos span st' : insert st pos span = Ok st' -> same_data st st'.
Proof. unfold insert. intros Hi. inv_ok. data_chain. Qed.

Lemma push_front_data st head span st' : push_front st head span = Ok st' -> same_data st st'.
Proof. unfold push_front. intros Hp. inv_ok. by eapply insert_data. Qed.

Lemma erase_data st head span r st' : erase st head span = Ok (r, st') -> same_data st st'.
Proof. unfold erase. intros Hi. inv_ok. data_chain. Qed.

Lemma pop_front_data st head a st' : pop_front st head = Ok (a, st') -> same_data st st'.
Proof.
  unfold pop_front. intros Hp. inv_ok. case_match; inv_ok; [done |].
  match goal with Hx : erase _ _ _ = Ok ?x |- _ => destruct x; apply erase_data in Hx end.
  by inv_ok.
Qed.

Lemma get_span_inv st a d : get_span st a = Ok d -> a <> 0 /\ st !! a = Some d.
Proof. unfold get_span. case_cmp; [done |]. case_match; [| done]. by intros [= <-]. Qed.

Lemma update_inv s a f s' :
  update s a f = Ok s' -> exists d, pc_spans s !! a = Some d /\
    s' = with_spans s (<[a := f d]> (pc_spans s)).
Proof.
  unfold update, upd_span. intros Hu. inv_ok. apply get_span_inv in Hx0 as [_ Hd]. by exists x0.
Qed.

Lemma publish_inv s a s' : publish s a = Ok s' -> pc_spans s' = pc_spans s.
Proof. unfold publish. intros Hp. by inv_ok. Qed.

Lemma system_free_inv s p n s' : system_free s p n = Ok s' -> pc_spans s' = pc_spans s.
Proof. unfold system_free. intros Hp. by inv_ok. Qed.

Lemma delete_span_inv s a s' : delete_span s a = Ok s' -> pc_spans s' = delete a (pc_spans s).
Proof. unfold delete_span. intros Hp. by inv_ok. Qed.

(** Updates by functions that agree on the descriptor found are the same. *)
Lemma update_ext s a f g :
  (forall d, pc_spans s !! a = Some d -> f d = g d) -> update s a f = update s a g.
Proof.
  intros Hfg. unfold update, upd_span, get_span. case_cmp; [done |]. case_match; [| done].
  rewrite !bind_Ok_l. by rewrite Hfg.
Qed.

Lemma bind_ext {A B} (c : outcome A) (f g : A -> outcome B) :
  (forall x, c = Ok x -> f x = g x) -> (x ← c; f x) = (x ← c; g x).
Proof. intros Hfg. destruct c; [by apply Hfg | done | done | done]. Qed.

Lemma new_span_inv s x n a s' :
  new_span s x n = Ok (a, s') ->
  (a = 0 /\ pc_spans s' = pc_spans s) \/ (a <> 0 /\ pc_spans s' = <[a := Span_new x n]> (pc_spans s)).
Proof. unfold new_span. intros Hn. inv_ok. destruct x0 as [b w]. revert Hn. case_cmp; intros; inv_ok; auto. Qed.

End Uniform.

(** Replaces every step of a sequence that returned by what it did to the store. *)
Ltac step_inv :=
  repeat match goal with
  | Hs : system_free _ _ _ = Ok _ |- _ => apply system_free_inv in Hs
  | Hs : delete_span _ _ = Ok _ |- _ => apply delete_span_inv in Hs
  | Hs : publish _ _ = Ok _ |- _ => apply publish_inv in Hs
  | Hs : update _ _ _ = Ok _ |- _ => apply update_inv in Hs as (? & ? & ->)
  | Hs : push_front _ _ _ = Ok _ |- _ => apply push_front_data in Hs
  | Hs : set_next _ _ _ = Ok _ |- _ => apply set_next_data in Hs
  end; cbn [pc_spans with_spans with_w with_map] in *.

Section Allocation.
Context `{Build} `{StaticLayout} {W : Type} `{Backing W}.
Implicit Types (s : PageCache W).

Lemma map_run_inv s num a s' :
  map_run s num = Ok (a, s') -> uniform (pc_spans s) ->
  (a = 0 /\ uniform (pc_spans s')) \/
  (a <> 0 /\ exists x n, pc_spans s' = <[a := Span_new x n]> (pc_spans s)).
Proof.
  unfold map_run. intros Hm Hu. inv_ok. destruct x as [ptr w]. revert Hm. case_cmp; intros Hm; inv_ok; [by left |].
  destruct x as [b s1]. apply new_span_inv in Hx0 as [[-> Hs] | [Hb Hs]]; simpl in Hs.
  - simpl in Hm. inv_ok. apply system_free_inv in Hx0. left. by rewrite Hx0, Hs.
  - rewrite (proj2 (Z.eqb_neq b 0)) in Hm by done. inv_ok. destruct x0 as [[ok t] w2]. destruct ok; inv_ok.
    + right. split; [done |]. simpl. rewrite Hs. by eexists _, _.
    + step_inv. left. split; [done |].
      repeat match goal with Hs : pc_spans _ = _ |- _ => rewrite Hs; clear Hs end. simpl.
      intros c d [Hne Hc]%lookup_delete_Some. rewrite lookup_insert_ne in Hc by done. by apply Hu.
Qed.

(** ** Allocation *)

Lemma large_same s num r :
  alloc_large s num = Ok r -> uniform (pc_spans s) ->
  legacy_alloc_large s num = Ok r /\ uniform (pc_spans r.2).
Proof.
  intros Ha Hu. split; [exact Ha |]. unfold alloc_large in Ha. inv_ok. destruct x as [a s1].
  destruct (map_run_inv _ _ _ _ Hx Hu) as [[-> Hu1] | [Ha0 (x & n & Hs)]]; [simpl in Ha; by inv_ok |].
  rewrite (proj2 (Z.eqb_neq a 0)) in Ha by done. inv_ok. simpl.
  step_inv. rewrite Hx1. rewrite Hs in *. rewrite insert_insert_eq. simplify_map_eq.
  apply uniform_insert; [done | done |]. intros _. reflexivity.
Qed.


Lemma refill_same s r :
  refill s = Ok r -> uniform (pc_spans s) ->
  legacy_refill s = Ok r /\ uniform (pc_spans r.2).
Proof.
  unfold refill, legacy_refill. intros Ha Hu. inv_ok. destruct x as [a s1]. rewrite Hx, bind_Ok_l.
  destruct (map_run_inv _ _ _ _ Hx Hu) as [[-> Hu1] | [Ha0 (x & n & Hs)]]; [simpl in *; by inv_ok |].
  rewrite (proj2 (Z.eqb_neq a 0)) in * by done. destruct (bk_now (pc_w s1)) as [now w].
  inv_ok. cbn [snd]. erewrite (update_ext (with_w s1 w) a); [rewrite Hx0, bind_Ok_l, Hx1, bind_Ok_l, Hx2, bind_Ok_l |].
  - split; [done |]. step_inv. rewrite Hx2. eapply uniform_data; [| exact Hx1].
    rewrite Hs in *. rewrite insert_insert_eq. simplify_map_eq. apply uniform_insert; [done | done |].
    intros _. reflexivity.
  - simpl. rewrite Hs. intros d Hd. by simplify_map_eq.
Qed.

(** Writing the committed flag of a committed run changes nothing. *)
Lemma SetCommitted_id d b : IsCommitted d = true -> SetCommitted (SetUsed d b) true = SetUsed d b.
Proof.
  intros Hc. unfold SetCommitted. destruct d. unfold SetUsed, with_flags, IsCommitted in *. simpl in *. f_equal.
  unfold kCommittedMask in *. rewrite flag_test in Hc by lia.
  set (v := Z.lor _ (if b then kUsedMask else 0)). unfold u16.
  change 65536 with (2 ^ 16). apply Z.bits_inj'. intros i Hi.
  destruct (Z.lt_ge_cases i 16) as [Hlt | Hge].
  2:{ by rewrite !Z.mod_pow2_bits_high by lia. }
  rewrite Z.mod_pow2_bits_low by lia. rewrite Z.lor_spec, Z.land_spec, Z.lnot_spec by lia.
  change (Z.shiftl 1 1) with (2 ^ 1). rewrite Z.pow2_bits_eqb by lia.
  destruct (Z.eqb_spec 1 i) as [<- |]; [| by rewrite andb_true_r, orb_false_r].
  rewrite Z.mod_pow2_bits_low by lia. unfold v. rewrite Z.lor_spec, Z.land_spec, Z.lnot_spec by lia.
  rewrite Hc. destruct b; reflexivity.
Qed.

Lemma u32_sub a b : u32 (a - u32 b) = u32 (a - b).
Proof. unfold u32. by rewrite Zminus_mod_idemp_r. Qed.
End Allocation.

Section Same.
Context {W : Type} `{BackingLaws W} `{StaticLayout}.
Implicit Types (s : PageCache W) (D : runs) (U K R N : gset Z) (L : Z -> list Z).

(** The run a split takes off its list is free, committed and of the bucket's size. *)
Lemma pop_uniform st D U K R L i :
  core st D U U K R L -> uniform st -> 0 <= i <= MAX_PAGE_NUM -> L i <> [] ->
  exists a st' d, pop_front st (list_head i) = Ok (a, st') /\ uniform st' /\ a <> 0 /\
    st' !! a = Some d /\ page_num d = i /\ IsUsed d = false /\ IsCommitted d = true /\ owner_shard_id d = 0.
Proof.
  intros Hc Hu Hi HL. destruct (core_pop_desc _ _ _ _ _ _ _ i Hc)
    as (a & st' & x & d & Heq & Hc' & HaU & Ha & _ & Hd & Hs & Hn & Hus & Ho & _); [done.. |].
  exists a, st', d. pose proof (uniform_data _ _ Hu (pop_front_data _ _ _ _ Heq)) as Hu'.
  split; [done |]. split; [done |].
  split; [apply (co_geom _ _ _ _ _ _ _ Hc _ _ _ Ha) |]. split_and!; try done.
  apply (Hu' a d Hd); [| done]. eapply (co_not_head _ _ _ _ _ _ _ _ Hc'). apply elem_of_dom. by eexists.
Qed.

Lemma split_same s D U K R L i num r :
  core (pc_spans s) D U U K R L -> uniform (pc_spans s) -> 1 <= num < i -> i <= MAX_PAGE_NUM -> L i <> [] ->
  split_bucket s i num = Ok r ->
  legacy_split_bucket s i num = Ok r /\ uniform (pc_spans r.2).
Proof.
  intros Hc Hu Hnum Hi HL. unfold split_bucket, legacy_split_bucket.
  destruct (pop_uniform _ _ _ _ _ _ i Hc Hu) as (big & st1 & d & -> & Hu1 & Hb0 & Hd & Hn & Hus & Hcm & Ho); [lia | done |].
  rewrite !bind_Ok_l. cbn [pc_spans with_spans]. rewrite (proj2 (Z.eqb_neq big 0)) by done. cbn [negb].
  rewrite AM_DCHECK_true, bind_Ok_l, (get_span_Some _ _ d), !bind_Ok_l by done.
  rewrite Hn, Z.eqb_refl, AM_DCHECK_true, bind_Ok_l, Hus. cbn [negb]. rewrite AM_DCHECK_true, bind_Ok_l.
  destruct (new_span (with_spans s st1) (start_page_idx d) (u32 num)) as [[small s2] | | |] eqn:Hnew; try done.
  rewrite !bind_Ok_l. destruct (new_span_inv _ _ _ _ _ Hnew) as [[-> Hs2] | [Hs0 Hs2]]; cbn [pc_spans with_spans] in Hs2.
  { intros Hr. simpl in Hr |- *. split; [exact Hr |]. inv_ok. step_inv. simpl. eapply uniform_data; [exact Hu1 | done]. }
  rewrite (proj2 (Z.eqb_neq small 0)) by done.
  set (v := SetCommitted (SetUsed (Span_new (start_page_idx d) (u32 num)) true) true).
  assert (Hl2 : pc_spans s2 !! small = Some (Span_new (start_page_idx d) (u32 num))) by (rewrite Hs2; apply lookup_insert_eq).
  rewrite !(update_ok s2 small _ _ Hs0 Hl2), !bind_Ok_l, Ho. fold v.
  rewrite (with_owner_id v) by reflexivity. set (s3 := with_spans s2 _).
  assert (Hu3 : uniform (pc_spans s3)).
  { simpl. rewrite Hs2, insert_insert_eq. by apply uniform_insert. }
  assert (He : exists e, pc_spans s3 !! big = Some e /\ IsCommitted e = true).
  { simpl. rewrite Hs2, insert_insert_eq. destruct (decide (big = small)) as [<- | Hne].
    - exists v. by rewrite lookup_insert_eq.
    - exists d. by rewrite lookup_insert_ne. }
  destruct He as (e & He & Hec). pose proof (proj1 (Hu3 _ _ He)) as Heo.
  rewrite (update_ok s3 big e _ Hb0 He), bind_Ok_l. cbn [pc_w with_spans]. destruct (bk_now (pc_w s3)) as [now w].
  rewrite (update_ok (with_w s3 w) big e _ Hb0 He), bind_Ok_l.
  erewrite (update_ok (with_w (with_spans s3 _) w) big); [| done | cbn [pc_spans with_w with_spans]; apply lookup_insert_eq].
  rewrite bind_Ok_l. cbn [pc_spans with_w with_spans]. rewrite insert_insert_eq, u32_sub.
  rewrite (SetCommitted_id (with_pages e _ _)) by exact Hec.
  intros Hr. split; [exact Hr |]. inv_ok. step_inv. cbn [snd]. rewrite Hx2, Hx1.
  eapply uniform_data; [| exact Hx0]. apply uniform_insert; [done | exact Heo |].
  intros _. change (IsCommitted (with_time ?x _)) with (IsCommitted x). by rewrite IsCommitted_SetUsed.
Qed.

Lemma alloc_loop_same fuel s D U K R N L num r :
  pc_inv s D U K R N L -> uniform (pc_spans s) -> 1 <= num ->
  alloc_loop fuel s num = Ok r -> legacy_alloc_loop fuel s num = Ok r /\ uniform (pc_spans r.2).
Proof.
  revert s D R N L. induction fuel as [| fuel IH]; intros s D R N L Hi Hu Hnum; [done |].
  cbn [alloc_loop legacy_alloc_loop]. pose proof (pi_core _ _ _ _ _ _ _ Hi) as Hc.
  destruct (Z.ltb_spec MAX_PAGE_NUM num) as [| Hle]; [intros Hr; by apply large_same |].
  rewrite (proj2 (Z.leb_le 1 num)), (proj2 (Z.leb_le num MAX_PAGE_NUM)), AM_DCHECK_true, !bind_Ok_l by lia.
  rewrite (sl_empty_dll _ _ (L num)), !bind_Ok_l by (apply Hc; lia).
  destruct (bool_decide_reflect (L num = [])) as [HL | HL]; cbn [negb].
  2:{ destruct (pop_uniform _ _ _ _ _ _ num Hc Hu) as (a & st1 & d & -> & Hu1 & Ha0 & Hd & _ & _ & _ & Ho); [lia | done |].
      rewrite !bind_Ok_l, (update_ok (with_spans s st1) a d _ Ha0 Hd), bind_Ok_l. intros [= <-]. split; [done |].
      simpl. apply uniform_insert; [done | exact Ho |]. intros _. apply IsCommitted_SetCommitted. }
  destruct (find_bucket_ok _ _ _ _ _ _ _ (Z.to_nat (MAX_PAGE_NUM - num)) (num + 1) Hc) as (b & -> & Hb); [lia | lia |].
  rewrite !bind_Ok_l. destruct b as [i |].
  { destruct Hb as [Hb HLi]. apply (split_same s D U K R L); [done | done | lia | lia | done]. }
  destruct (refill_ok s D U K R N L Hi) as (ok & s1 & Hre & D1 & R1 & N1 & L1 & Hi1 & _).
  destruct (refill_same s (ok, s1) Hre Hu) as [-> Hu1]. rewrite Hre, !bind_Ok_l. cbn iota beta.
  destruct ok; [by apply (IH s1 D1 R1 N1 L1) | intros [= <-]; done].
Qed.

Lemma alloc_same s D U K R N L num r :
  pc_inv s D U K R N L -> uniform (pc_spans s) -> 1 <= num ->
  AllocSpan s num = Ok r -> legacy_AllocSpan s num = Ok r /\ uniform (pc_spans r.2).
Proof.
  intros Hi Hu Hnum. unfold AllocSpan, legacy_AllocSpan, AllocSpanLocked, legacy_AllocSpanLocked.
  change (SelectShardForAlloc num) with 0. change (0 <? active_shard_count) with true.
  rewrite AM_DCHECK_true, bind_Ok_l, (proj2 (Z.eqb_neq num 0)) by lia. cbn [orb].
  case_cmp; [by intros [= <-] |].
  destruct (alloc_loop 2 s num) as [[a s1] | | |] eqn:Hl; try done. rewrite bind_Ok_l. cbn iota beta.
  destruct (alloc_loop_same 2 s D U K R N L num (a, s1) Hi Hu Hnum Hl) as [-> Hu1]. simpl in Hu1.
  destruct (Z.eqb_spec a 0) as [-> | Ha0]; [by intros [= <-] |].
  intros (s2 & Hup & [= <-])%bind_Ok_inv. apply update_inv in Hup as (d & Hd & ->).
  rewrite with_owner_id by apply (Hu1 a d Hd). rewrite insert_id by done.
  replace (with_spans s1 (pc_spans s1)) with s1 by (by destruct s1). done.
Qed.

(** ** Release *)

Lemma can_merge_same d o :
  owner_shard_id d = 0 -> owner_shard_id o = 0 -> legacy_can_merge d o = can_merge d o.
Proof. intros Hd Ho. unfold legacy_can_merge, can_merge. by rewrite Hd, Ho, Z.eqb_refl, andb_true_r. Qed.

Lemma unlist_inv s a s' : unlist s a = Ok s' -> same_data (pc_spans s) (pc_spans s').
Proof. unfold unlist. intros Hu. inv_ok. destruct x0 as [r st]. inv_ok. by eapply erase_data. Qed.

Lemma with_pages_uniform s a f s' :
  update s a f = Ok s' -> uniform (pc_spans s) ->
  (forall d, owner_shard_id (f d) = owner_shard_id d /\ flags (f d) = flags d) -> uniform (pc_spans s').
Proof.
  intros (d & Hd & ->)%update_inv Hu Hf b e. simpl.
  destruct (decide (b = a)) as [-> |]; [| rewrite lookup_insert_ne by done; apply Hu].
  rewrite lookup_insert_eq. intros [= <-]. destruct (Hf d) as [-> Hfl]. unfold IsUsed, IsCommitted. rewrite Hfl.
  apply (Hu a d Hd).
Qed.

Lemma merge_left_same fuel s span retired r :
  uniform (pc_spans s) -> merge_left fuel s span retired = Ok r ->
  legacy_merge_left fuel s span retired = Ok r /\ uniform (pc_spans r.2).
Proof.
  revert s retired. induction fuel as [| fuel IH]; intros s retired Hu; [done |].
  cbn [merge_left legacy_merge_left]. intros (d & Hd & Hr)%bind_Ok_inv. rewrite Hd, bind_Ok_l. revert Hr.
  case_cmp; [intros [= <-]; done |]. intros (left & Hleft & Hr)%bind_Ok_inv. rewrite Hleft, bind_Ok_l. revert Hr.
  case_cmp; [intros [= <-]; done |]. intros (l & Hl & Hr)%bind_Ok_inv. rewrite Hl, bind_Ok_l. revert Hr.
  rewrite can_merge_same by (eapply Hu, get_span_inv; eassumption).
  destruct (negb _); [intros [= <-]; done |].
  intros (s1 & Hs1 & (s2 & Hs2 & (st & Hst & Hr)%bind_Ok_inv)%bind_Ok_inv)%bind_Ok_inv.
  rewrite Hs1, bind_Ok_l, Hs2, bind_Ok_l, Hst, bind_Ok_l. apply IH; [| exact Hr]. simpl.
  eapply uniform_data; [| by eapply set_next_data]. eapply with_pages_uniform; [exact Hs2 | | done].
  eapply uniform_data; [done | by apply unlist_inv in Hs1].
Qed.

Lemma merge_right_same fuel s span retired r :
  uniform (pc_spans s) -> merge_right fuel s span retired = Ok r ->
  legacy_merge_right fuel s span retired = Ok r /\ uniform (pc_spans r.2).
Proof.
  revert s retired. induction fuel as [| fuel IH]; intros s retired Hu; [done |].
  cbn [merge_right legacy_merge_right]. intros (d & Hd & (right & Hright & Hr)%bind_Ok_inv)%bind_Ok_inv.
  rewrite Hd, bind_Ok_l, Hright, bind_Ok_l. revert Hr.
  case_cmp; [intros [= <-]; done |]. intros (l & Hl & Hr)%bind_Ok_inv. rewrite Hl, bind_Ok_l. revert Hr.
  rewrite can_merge_same by (eapply Hu, get_span_inv; eassumption).
  destruct (negb _); [intros [= <-]; done |].
  intros (s1 & Hs1 & (s2 & Hs2 & (st & Hst & Hr)%bind_Ok_inv)%bind_Ok_inv)%bind_Ok_inv.
  rewrite Hs1, bind_Ok_l, Hs2, bind_Ok_l, Hst, bind_Ok_l. apply IH; [| exact Hr]. simpl.
  eapply uniform_data; [| by eapply set_next_data]. eapply with_pages_uniform; [exact Hs2 | | done].
  eapply uniform_data; [done | by apply unlist_inv in Hs1].
Qed.

Lemma delete_retired_uniform fuel s a s' :
  delete_retired fuel s a = Ok s' -> uniform (pc_spans s) -> uniform (pc_spans s').
Proof.
  revert s a. induction fuel as [| fuel IH]; intros s a; cbn [delete_retired]; case_cmp; try done;
    [by intros [= <-] | by intros [= <-] |].
  intros (r & _ & (s1 & Hd & Hr)%bind_Ok_inv)%bind_Ok_inv Hu. apply (IH s1 (sp_next r)); [done |].
  rewrite (delete_span_inv _ _ _ Hd). by apply uniform_delete.
Qed.

Lemma release_same s span s' :
  uniform (pc_spans s) -> ReleaseSpan s span = Ok s' ->
  legacy_ReleaseSpan s span = Ok s' /\ uniform (pc_spans s').
Proof.
  intros Hu. unfold ReleaseSpan, ReleaseSpanLocked, legacy_ReleaseSpan.
  intros (_ & _ & (d & Hd & (_ & _ & (_ & _ & (d' & Hd' & Hr)%bind_Ok_inv)%bind_Ok_inv)%bind_Ok_inv)%bind_Ok_inv)%bind_Ok_inv.
  rewrite Hd in Hd' |- *. injection Hd' as <-. rewrite bind_Ok_l. revert Hr. case_cmp; intros Hr.
  - split; [exact Hr |]. inv_ok. step_inv. rewrite Hr, Hx0. by apply uniform_delete.
  - apply bind_Ok_inv in Hr as ([r1 s1] & Hl & ([r2 s2] & Hrt & Hr)%bind_Ok_inv).
    destruct (merge_left_same _ _ _ _ _ Hu Hl) as [-> Hu1]. rewrite bind_Ok_l.
    destruct (merge_right_same _ s1 _ _ _ Hu1 Hrt) as [-> Hu2]. rewrite bind_Ok_l.
    destruct (bk_now (pc_w s2)) as [now w].
    erewrite (update_ext (with_w s2 w) span); [split; [exact Hr |] | by intros; cbv beta].
    inv_ok. simpl. eapply uniform_data; [| by eapply push_front_data].
    eapply delete_retired_uniform; [eassumption |]. step_inv.
    match goal with Hp : pc_spans _ = <[_ := _]> _ |- _ => rewrite Hp end.
    apply uniform_insert; [exact Hu2 | |].
    + match goal with Hq : pc_spans s2 !! span = Some ?y |- _ => exact (proj1 (Hu2 _ _ Hq)) end.
    + intros _. change (IsCommitted (with_time ?y _)) with (IsCommitted y).
      change (IsCommitted (with_usage ?y _ _)) with (IsCommitted y).
      change (IsCommitted (with_grid ?y _ _ _ _)) with (IsCommitted y). apply IsCommitted_SetCommitted.
Qed.

(** ** Reset *)

Lemma reset_list_same fuel s h s' :
  reset_list fuel s h = Ok s' -> legacy_reset_list fuel s h = Ok s'.
Proof.
  revert s. induction fuel as [| fuel IH]; intros s; cbn [reset_list legacy_reset_list];
    intros (e & He & Hr)%bind_Ok_inv; rewrite He, bind_Ok_l; destruct e; try done.
  apply bind_Ok_inv in Hr as ([a st] & Hp & (_ & _ & (d & Hd & (s1 & Hf & (s2 & Hdel & Hr)%bind_Ok_inv)%bind_Ok_inv)%bind_Ok_inv)%bind_Ok_inv).
  rewrite Hp, bind_Ok_l. cbv beta iota zeta. rewrite Hd, bind_Ok_l, Hf, bind_Ok_l, Hdel, bind_Ok_l. by apply IH.
Qed.

Lemma for_range_impl {St : Type} lo hi (f g : Z -> St -> outcome St) (x0 x1 : St) :
  (forall i x y, f i x = Ok y -> g i x = Ok y) -> for_range lo hi f x0 = Ok x1 -> for_range lo hi g x0 = Ok x1.
Proof.
  intros Hfg. unfold for_range. generalize (Z.to_nat (hi - lo)) as n. intros n. revert lo x0.
  induction n as [| n IH]; intros lo x0; [done |]. cbn [for_range_nat].
  intros (x & Hx & Hr)%bind_Ok_inv. rewrite (Hfg _ _ _ Hx), bind_Ok_l. by apply IH.
Qed.

Lemma reset_same fuel s s' : PageCache_Reset fuel s = Ok s' -> legacy_Reset fuel s = Ok s'.
Proof.
  unfold PageCache_Reset, ResetLocked, legacy_Reset.
  intros (s1 & (s2 & Hl & (w & Hw & [= <-])%bind_Ok_inv)%bind_Ok_inv & Hr)%bind_Ok_inv.
  erewrite for_range_impl; [| | exact Hl]; [| intros; by apply reset_list_same].
  rewrite bind_Ok_l, Hw, bind_Ok_l. exact Hr.
Qed.

(** ** Equivalence *)

(** C35: the two implementations agree while nothing is scavenged.  From any state
    of the page cache in which every free run is committed ([uniform]; a
    scavenger pass that gives a run's memory back ends this), the implementation
    without shards and the sharded one give the same result and reach the same
    state on every allocation of at least one page, on every release of a run in
    use, and on a reset; allocation and release complete, and every free run is
    committed afterwards.  After a scavenge they differ: the rest of a run that is
    split is marked committed by the sharded one only ([legacy_decommitted]). *)
Theorem legacy_equivalence s D U K R N L :
  pc_inv s D U K R N L -> uniform (pc_spans s) ->
  (forall num, 1 <= num < W64 -> exists a s', AllocSpan s num = Ok (a, s') /\
     legacy_AllocSpan s num = Ok (a, s') /\ uniform (pc_spans s')) /\
  (forall span, span ∈ U -> exists s', ReleaseSpan s span = Ok s' /\
     legacy_ReleaseSpan s span = Ok s' /\ uniform (pc_spans s')) /\
  (forall fuel s', PageCache_Reset fuel s = Ok s' -> legacy_Reset fuel s = Ok s').
Proof.
  intros Hi Hu. split_and!.
  - intros num Hnum. destruct (AllocSpan_ok s D U K R N L num Hi ltac:(lia)) as (a & s' & Heq & _).
    exists a, s'. split; [done |]. apply (alloc_same s D U K R N L num (a, s')); [done | done | lia | done].
  - intros span HU. pose proof (co_used _ _ _ _ _ _ _ (pi_core _ _ _ _ _ _ _ Hi) _ HU) as [[x n] Hx]%elem_of_dom.
    destruct (ReleaseSpan_ok s D U K R N L span x n Hi HU Hx) as (s' & D' & R' & L' & Heq & _).
    exists s'. split; [done |]. by apply release_same.
  - intros fuel s'. apply reset_same.
Qed.
End Same.

Section LegacyWitness.
#[local] Existing Instance release_build.
#[local] Existing Instance bump_backing.
#[local] Existing Instance bump_laws.
#[local] Existing Instance sample_layout.

Lemma sample_uniform : uniform (pc_spans sample_cache).
Proof.
  intros a d Ha. assert (Hd : forallb (fun '(b, e) => (owner_shard_id e =? 0) && bool_decide (b ∈ list_head <$> seqZ 0 129)) (map_to_list (pc_spans sample_cache)) = true) by (vm_compute; reflexivity).
  rewrite forallb_forall in Hd. specialize (Hd (a, d)). apply elem_of_map_to_list, list_elem_of_In in Ha.
  specialize (Hd Ha). apply andb_true_iff in Hd as [Ho Hh%bool_decide_eq_true]. bool_facts. split; [done |].
  intros Hn. exfalso. apply Hn. apply list_elem_of_fmap in Hh as (i & -> & Hi%elem_of_seqZ). exists i.
  split; [unfold MAX_PAGE_NUM; lia | done].
Qed.

(** The empty cache serves three pages alike. *)
Lemma legacy_equivalence_witness :
  (exists a s', AllocSpan sample_cache 3 = Ok (a, s') /\ legacy_AllocSpan sample_cache 3 = Ok (a, s') /\
     uniform (pc_spans s')).
Proof.
  apply (legacy_equivalence sample_cache ∅ ∅ (pages 1 3) (pages 1 3) ∅ (fun _ => []) sample_cache_inv sample_uniform).
  lia.
Defined.

(** Three pages of a refill are handed out, the rest is scavenged, and two more are
    asked for: whether what is left of the rest counts as committed. *)
Definition split_decommitted (alloc : PageCache Z -> Z -> outcome (Z * PageCache Z)) : outcome bool :=
  '(_, s) ← alloc sample_cache 3;
  rest ← sl_begin (pc_spans s) (list_head (MAX_PAGE_NUM - 3));
  s ← update s rest (fun d => SetCommitted d false);
  '(_, s) ← alloc s 2;
  rest ← sl_begin (pc_spans s) (list_head (MAX_PAGE_NUM - 5));
  d ← get_span (pc_spans s) rest;
  Ok (IsCommitted d).

Lemma legacy_decommitted : split_decommitted AllocSpan = Ok true /\ split_decommitted legacy_AllocSpan = Ok false.
Proof. split; vm_compute; reflexivity. Qed.

(** A request for zero pages: the sharded cache refuses it; the other one splits an empty
    run off a free one, and publishing that ends the program. *)
Lemma legacy_zero_pages :
  AllocSpan sample_cache 0 = Ok (0, sample_cache) /\
  legacy_AllocSpan sample_cache 0 = Abort "PageMap::SetSpan received invalid Span".
Proof. split; [reflexivity | vm_compute; reflexivity]. Qed.
End LegacyWitness.
